(* ===== verification/_CoqProject ===== *)
-Q . S2P
Prelude.v
PyValue.v
Json.v
TextBuffer.v
ToolHistory.v
Models.v
Sanitizer.v
ContextMessages.v
Ledger.v
Goal.v
Plan.v
Approval.v
ApprovalQueue.v
Hooks.v
Remote.v
Lines.v
ToolOutcome.v
ToolFacts.v
RuntimeEvents.v
Transcript.v
Policy.v
Reducer.v
ExecutionView.v
OutputJournal.v
Glob.v
Workspace.v
PatchText.v
WorkspaceTools.v
Replay.v
RuntimeIssues.v
Steering.v
ProcessOutput.v
ToolExecution.v
ToolSafety.v
ToolBatch.v
SubagentJobs.v
SubagentHistory.v
Subagents.v
SubagentThreads.v
SubagentSafety.v
SubagentDelivery.v
SubagentMailbox.v
Hoare.v
Regex.v
ContextManager.v
Summary.v
ImageProjection.v
ProcessManager.v
ProcessInvariant.v
AgentLoop.v
TurnBudget.v
TurnProtocol.v
