(* ===== verification/Prelude.v ===== *)
(** * ReuleauxCoder runtime core: a verification library

    ReuleauxCoder is a coding agent: a loop that alternates requests to a
    language model with the execution of the tools the model calls, under the
    supervision of a user.  The library models the parts of it that decide
    something -- histories, logs, approvals, budgets, edits, displays -- as
    executable definitions, and proves what makes each of them correct.  Paths
    below are relative to src/reuleauxcoder/.

    ** How the parts interact

    A turn ([AgentLoop], domain/agent/loop.py) takes the model's history, which
    [ToolHistory] and [Sanitizer] keep acceptable to providers, and which
    [ContextMessages] extends with marked synthetic messages; it asks the
    provider within its budgets, and executes the calls of the answer
    ([ToolExecution], and [ToolBatch] for those that may overlap), whose results
    are validated and projected by [ToolFacts].  Calls may delegate a task to a
    child agent, whose job the manager of subagents admits, runs, suspends for
    guidance, cancels and reports ([Subagents], [SubagentThreads]).  Users
    direct the turn meanwhile ([Steering]) and approve calls ([Approval],
    [ApprovalQueue]); hooks intercept requests and calls ([Hooks]); files are
    read and edited with snapshots and receipts ([Workspace], [PatchText],
    [WorkspaceTools], [Glob]); processes belong to a manager that outlives turns
    ([ProcessManager]) and are read through bounded, redacted buffers
    ([TextBuffer], [ProcessOutput], [OutputJournal]).  When the history nears the
    window it is rewritten ([ContextManager], with summaries of [Summary]).  Every
    fact goes to the event log first ([Ledger]), from which goals ([Goal]), plans
    ([Plan]), steering and the jobs of subagents ([SubagentHistory]) recover after
    a crash, and the exact request is kept as an envelope ([Replay]).
    Events flow to the interfaces through [RuntimeEvents], [Transcript],
    [Policy], [Reducer] and [ExecutionView]; remote peers authenticate with
    [Remote].

    ** Files

    - [Prelude]: text as code points, Python's string and list operations, the
      exceptions and the state-and-error monad [stm], shared lemmas, the hint
      databases.  [PyValue]: dynamic values, dictionaries, conversions.  [Json]:
      the JSON texts the program writes and compares.  [Hoare]: triples for
      [stm] and the tactics that walk through a body.  [Lines]: splitting and
      joining of lines.
    - [TextBuffer]: infrastructure/process/buffer.py.  [OutputJournal]:
      domain/output_journal.py.
    - [ToolHistory]: domain/llm/tool_history.py.  [Sanitizer]:
      services/llm/sanitizer.py, domain/context/rounds.py.  [ContextMessages]:
      domain/llm/context_messages.py.
    - [Models]: domain/llm/models.py.  [ImageProjection]: domain/images.py, what
      of a request a text model may see.
    - [Ledger]: domain/history.py, with the interfaces [EventLog] and
      [MessageLog] its clients are proved against.  [Goal]: domain/goal.py.
      [Plan]: domain/plan.py.
    - [Approval], [ApprovalQueue]: the approval policy and its grants
      (domain/approval_engine.py) and the coordinator of pending reviews
      (domain/approval.py).  [Hooks]: domain/hooks/.
    - [Remote]: the tokens and peers of extensions/remote_exec/.
    - [ToolOutcome], [RuntimeEvents], [Transcript], [Policy], [Reducer],
      [ExecutionView]: structured results, the events of a session, and the
      views built from them.
    - [ToolFacts]: domain/agent/tool_outcome_validation.py and the collector of
      a result's facts.  [ToolExecution]: domain/agent/tool_execution.py, one call
      from its validation to its published end; [ToolSafety] its theorems.
      [ToolBatch]: execute_parallel, the same calls under a scheduler.
    - [SubagentJobs], [SubagentHistory], [Subagents], [SubagentThreads]:
      extensions/subagent/models.py and manager.py: the job and its events, what
      is restored from a log, the operations section by section, and their
      interleaving with runners and callbacks; [SubagentSafety],
      [SubagentDelivery] and [SubagentMailbox] their theorems.
    - [Glob], [Workspace], [PatchText], [WorkspaceTools]: portable patterns
      (domain/workspace.py), the local workspace (infrastructure/workspace/local.py), the patch format and
      the built-in edit_file, write_file and apply_patch tools.
    - [Replay]: domain/context/replay.py and the provenance kept beside it.
    - [ContextManager], [Summary]: domain/context/manager.py with budget.py,
      usage.py and checkpoint.py, and domain/context/summary.py.  [Regex]: the
      regular expressions they use.
    - [ProcessOutput], [ProcessManager], [ProcessInvariant]:
      domain/process_output.py, domain/process_manager.py with process.py and
      process_control.py, and the invariant of the manager under interleaving.
    - [RuntimeIssues], [Steering]: failure facts and user directions of
      domain/agent/agent.py.
    - [AgentLoop], [TurnBudget], [TurnProtocol]: domain/agent/loop.py, its
      accounting, and the histories it leaves.

    ** What the theorems show

    - Safety of effects: nothing runs that no policy, grant or decision of a
      user authorises; a call ends once, with a result that agrees with what
      its tool did; of a batch every call runs once, and only read-only calls
      overlap; guards fail closed; a write is reported as it happened;
      one-time tokens work once; a turn stays within its budgets.
    - Histories: repairs, sanitizing, cuts and turns produce histories in which
      every call is answered; repairing twice changes nothing; a rewrite of the
      context is committed once or not at all, keeps the recent turns, and
      loses no fact to the model that summarizes.
    - Shared processes: whatever operations and threads do between each other's
      sections, the manager's table, ports and events stay consistent, and a
      completion is reported once.
    - Subagents: whatever interleaves, at most four jobs are active and at most
      as many workers work as there are slots; a finished job stays finished; a
      result is delivered once; an undelivered message survives a crash.  The
      first three are stated for the orderly runs [SubagentSafety] defines, which
      exclude the two races the manifest reports.
    - Durability: logs, goals, plans, journals and steering are recovered to
      the state that was acknowledged; each theorem names the writes it assumes
      to have succeeded.
    - Representation: bounded buffers keep the longest suffix of the stream;
      envelopes, events and patches round-trip; indices and views agree with
      their reference definitions.
    - Termination: parsing a patch, a turn of the agent, a batch of calls.

    ** Conventions

    Texts are lists of code points; times are integers or texts given as
    inputs; JSON-shaped values are [pyval].  Mutable objects are explicit state,
    exceptions are values of [result].  A lock that covers a whole operation
    makes it one step, so concurrent histories are sequences of operations; an
    operation that releases its lock around calls ([ProcessManager]) is a
    sequence of sections, and every call may run other operations.
    Code outside the repository is a parameter with its laws as a class: the
    Unicode tables behind upper and lower case and NFC, codecs, digests,
    difflib and fnmatch, the file system, clocks, fresh identifiers and write
    results.  Each property with such hypotheses has an example that
    instantiates them.

    Fuel bounds recursion that is not structural: the searches of [TextBuffer]
    by the length of the text, the patch parser by the number of lines, the
    attempts of a turn by the interrupts that may still arrive; each is proved
    enough.  The bounded retries of the code (three reviews of a changed call,
    two attempts to publish an end) are its own constants.

    ** Not modelled

    Configuration, language servers, MCP, model providers, remote transport, RPC,
    process ports, terminals and rendering are input and output around
    third-party code, and their decisions depend on its replies.  Session
    persistence (infrastructure/persistence/) is file layout and schema checks
    around the events [Ledger] already orders; commands parse a line and call
    the operations modelled here.  The worker behind run_subagent_task is
    another process: [SubagentThreads] lets it end at any moment with any
    outcome.  The rest of [Agent] (prompts, skills, wiring) builds texts and
    connects objects.  The manifest lists each part with its reason. *)

From Stdlib Require Export ZArith Lia.
From Stdlib Require Import Strings.Byte Numbers.DecimalFacts Numbers.DecimalN.
From stdpp Require Export base tactics list gmap sorting.

#[global] Open Scope Z_scope.

(** ** Text

    A Python [str] is the list of its code points.  String literals of the
    scope [py] are decoded from UTF-8, so ["…"] is one character, as in the
    source.  The empty string is [[]]. *)

Abbreviation pystr := (list Z).

(** The number Python's [len] returns. *)
Definition len {A} (l : list A) : Z := Z.of_nat (length l).

Definition byte_val (b : Byte.byte) : Z := Z.of_N (Byte.to_N b).

Fixpoint utf8_decode (l : list Byte.byte) : list Z :=
  match l with
  | [] => []
  | a :: l1 =>
    if byte_val a <? 128 then byte_val a :: utf8_decode l1 else
    match l1 with
    | [] => []
    | b :: l2 =>
      if byte_val a <? 224
      then (byte_val a - 192) * 64 + (byte_val b - 128) :: utf8_decode l2 else
      match l2 with
      | [] => []
      | c :: l3 =>
        if byte_val a <? 240
        then (byte_val a - 224) * 4096 + (byte_val b - 128) * 64
             + (byte_val c - 128) :: utf8_decode l3 else
        match l3 with
        | [] => []
        | d :: l4 =>
          (byte_val a - 240) * 262144 + (byte_val b - 128) * 4096
          + (byte_val c - 128) * 64 + (byte_val d - 128) :: utf8_decode l4
        end
      end
    end
  end.

Inductive py_literal := PLnil | PLcons (z : Z) (l : py_literal).

Definition py_literal_parse (l : list Byte.byte) : py_literal :=
  fold_right PLcons PLnil (utf8_decode l).

Fixpoint py_literal_print (s : py_literal) : option (list Byte.byte) :=
  match s with
  | PLnil => Some []
  | PLcons z l =>
    match Byte.of_N (Z.to_N z), py_literal_print l with
    | Some b, Some r => Some (b :: r)
    | _, _ => None
    end
  end.

(** The empty list is left to the list notation. *)
Definition py_literal_print_top (s : py_literal) : option (list Byte.byte) :=
  match s with PLnil => None | _ => py_literal_print s end.

(** The type the literals are declared for; [pystr] is the same type. *)
Definition py_text := list Z.

Declare Scope py_scope.
Delimit Scope py_scope with py.
#[warnings="-via-type-remapping,-via-type-mismatch"]
String Notation py_text py_literal_parse py_literal_print_top
  (via py_literal mapping [[nil] => PLnil, [cons] => PLcons]) : py_scope.
Notation "'$' s" := s%py (at level 1, s at level 0, only parsing).

(** ** Text operations of the Python standard library *)

(** The characters [str.strip] removes (Unicode whitespace). *)
Definition is_space (c : Z) : bool :=
  ((9 <=? c) && (c <=? 13)) || ((28 <=? c) && (c <=? 32)) || (c =? 133)
  || (c =? 160) || (c =? 5760) || ((8192 <=? c) && (c <=? 8202))
  || (c =? 8232) || (c =? 8233) || (c =? 8239) || (c =? 8287) || (c =? 12288).

Fixpoint drop_while {A} (f : A -> bool) (l : list A) : list A :=
  match l with
  | [] => []
  | x :: l' => if f x then drop_while f l' else l
  end.

Definition rdrop_while {A} (f : A -> bool) (l : list A) : list A :=
  reverse (drop_while f (reverse l)).

Definition strip (s : pystr) : pystr := rdrop_while is_space (drop_while is_space s).

(** [s.rstrip("c")] for a one-character argument. *)
Definition rstrip_char (c : Z) (s : pystr) : pystr := rdrop_while (Z.eqb c) s.

Definition startswith (s p : pystr) : bool := bool_decide (p `prefix_of` s).
Definition endswith (s p : pystr) : bool := bool_decide (p `suffix_of` s).

(** [s[:n]] and [s[n:]] for a non-negative [n]. *)
Definition slice_to {A} (n : Z) (l : list A) : list A := take (Z.to_nat n) l.
Definition slice_from {A} (n : Z) (l : list A) : list A := drop (Z.to_nat n) l.

Fixpoint join (sep : pystr) (l : list pystr) : pystr :=
  match l with
  | [] => []
  | [s] => s
  | s :: l' => s ++ sep ++ join sep l'
  end.

(** [x or None] on a text: the empty text is falsy. *)
Definition or_none (s : pystr) : option pystr :=
  match s with [] => None | _ => Some s end.

(** [x or y] on optional texts. *)
Definition opt_or (s t : option pystr) : option pystr :=
  match s with Some (c :: r) => Some (c :: r) | _ => t end.

Definition or_empty (s : option pystr) : pystr := default [] s.

(** [list.sort(key=...)]: the stable sort, written as insertion from the right;
    [leb x y] says that [x] may stand before [y]. *)
Section StableSort.
Context {A : Type} (leb : A -> A -> bool).

Fixpoint insert_sorted (x : A) (l : list A) : list A :=
  match l with
  | [] => [x]
  | y :: l' => if leb x y then x :: l else y :: insert_sorted x l'
  end.

Definition stable_sort (l : list A) : list A := foldr insert_sorted [] l.
End StableSort.

(** ** Dictionaries in insertion order, with any keys *)

Section Assoc.
Context {K V : Type} `{EqDecision K}.

Fixpoint assoc_get (l : list (K * V)) (k : K) : option V :=
  match l with
  | [] => None
  | (k', v) :: l' => if decide (k = k') then Some v else assoc_get l' k
  end.

Fixpoint assoc_set (l : list (K * V)) (k : K) (v : V) : list (K * V) :=
  match l with
  | [] => [(k, v)]
  | (k', v') :: l' => if decide (k = k') then (k', v) :: l' else (k', v') :: assoc_set l' k v
  end.

Lemma assoc_get_set l k v k' :
  assoc_get (assoc_set l k v) k' = if decide (k' = k) then Some v else assoc_get l k'.
Proof.
  induction l as [|[k0 v0] l IH]; cbn; [by repeat case_decide|].
  repeat case_decide; cbn; repeat case_decide; congruence.
Qed.

Lemma assoc_get_elem (l : list (K * V)) k v : assoc_get l k = Some v -> (k, v) ∈ l.
Proof.
  induction l as [|[k' v'] l IH]; cbn; [done|]. case_decide; [intros [= ->]; subst; left|right; auto].
Qed.

Lemma assoc_set_elem (l : list (K * V)) k v kv :
  NoDup l.*1 -> kv ∈ assoc_set l k v <-> kv = (k, v) \/ (kv ∈ l /\ kv.1 <> k).
Proof.
  intros Hnd. induction l as [|[k' v'] l IH]; cbn [assoc_set].
  - rewrite list_elem_of_singleton, elem_of_nil. naive_solver.
  - cbn in Hnd. apply NoDup_cons in Hnd as [Hni Hnd]. destruct (decide (k = k')) as [<-|Hne].
    + rewrite !elem_of_cons. split; [|naive_solver]. intros [->|Hin]; [by left|]. right.
      split; [by right|]. intros Hk. apply Hni. apply list_elem_of_fmap. by exists kv.
    + rewrite !elem_of_cons, IH by done. split; [|naive_solver].
      intros [->|[->|[? ?]]]; [right; split; [by left|done]|by left|right; auto].
Qed.

Lemma assoc_set_keys (l : list (K * V)) k v :
  (assoc_set l k v).*1 = if decide (k ∈ l.*1) then l.*1 else l.*1 ++ [k].
Proof.
  induction l as [|[k' v'] l IH]; cbn.
  - rewrite decide_False by apply not_elem_of_nil. done.
  - destruct (decide (k = k')) as [<-|Hne]; cbn.
    + rewrite decide_True by left. done.
    + rewrite IH. destruct (decide (k ∈ l.*1)) as [Hin|Hin].
      * by rewrite decide_True by (by right).
      * rewrite decide_False; [done|]. by intros [->|?]%elem_of_cons.
Qed.

Lemma assoc_set_NoDup (l : list (K * V)) k v : NoDup l.*1 -> NoDup (assoc_set l k v).*1.
Proof.
  intros Hnd. rewrite assoc_set_keys. case_decide as H; [done|]. apply NoDup_app. split_and!; [done| |apply NoDup_singleton].
  intros x Hx Hx'%list_elem_of_singleton. by subst.
Qed.

Lemma assoc_get_of_elem l k v : NoDup l.*1 -> (k, v) ∈ l -> assoc_get l k = Some v.
Proof.
  induction l as [|[k' v'] l IH]; cbn; [by intros _ ?%elem_of_nil|].
  intros [Hni Hnd]%NoDup_cons [[= <- <-]|Hin]%elem_of_cons; [by rewrite decide_True|].
  rewrite decide_False; [by apply IH|]. intros <-. apply Hni, list_elem_of_fmap. by exists (k, v).
Qed.
End Assoc.

(** Decimal digits of an integer, [str(n)]. *)
Fixpoint uint_digits (u : Decimal.uint) : pystr :=
  match u with
  | Decimal.Nil => []
  | Decimal.D0 u => 48 :: uint_digits u
  | Decimal.D1 u => 49 :: uint_digits u
  | Decimal.D2 u => 50 :: uint_digits u
  | Decimal.D3 u => 51 :: uint_digits u
  | Decimal.D4 u => 52 :: uint_digits u
  | Decimal.D5 u => 53 :: uint_digits u
  | Decimal.D6 u => 54 :: uint_digits u
  | Decimal.D7 u => 55 :: uint_digits u
  | Decimal.D8 u => 56 :: uint_digits u
  | Decimal.D9 u => 57 :: uint_digits u
  end.

Definition z_str (z : Z) : pystr :=
  match Z.to_int z with
  | Decimal.Pos u => uint_digits u
  | Decimal.Neg u => 45 :: uint_digits u
  end.

(** ** Exceptions

    A call that may raise returns [result]; the constructors of [exn] are the
    exception classes the modelled code raises or distinguishes. *)

Inductive exn :=
| ValueError (msg : pystr)
| TypeError (msg : pystr)
| KeyError (key : pystr)
| AttributeError (msg : pystr)
| OSError (msg : pystr)
| OtherError (msg : pystr).

Inductive result (A : Type) :=
| Ok (a : A)
| Raise (e : exn).
Arguments Ok {A} a.
Arguments Raise {A} e.

#[export] Instance result_ret : MRet result := fun A a => Ok a.
#[export] Instance result_bind : MBind result := fun A B f m =>
  match m with Ok a => f a | Raise e => Raise e end.
#[export] Instance result_fmap : FMap result := fun A B f m =>
  match m with Ok a => Ok (f a) | Raise e => Raise e end.

(** A stateful call keeps the changes it made when it raises. *)
Definition stm (S A : Type) : Type := S -> result A * S.

#[export] Instance stm_ret {S} : MRet (stm S) := fun A a s => (Ok a, s).
#[export] Instance stm_bind {S} : MBind (stm S) := fun A B f m s =>
  match m s with
  | (Ok a, s') => f a s'
  | (Raise e, s') => (Raise e, s')
  end.

Definition st_get {S} : stm S S := fun s => (Ok s, s).
Definition st_put {S} (s : S) : stm S () := fun _ => (Ok (), s).
Definition st_modify {S} (f : S -> S) : stm S () := fun s => (Ok (), f s).
Definition st_lift {S A} (r : result A) : stm S A := fun s => (r, s).

(** The call with its result dropped. *)
Definition st_ignore {S A} (m : stm S A) : stm S () := fun s =>
  let '(r, s') := m s in (match r with Ok _ => Ok () | Raise e => Raise e end, s').

(** [try: m finally: f]; an exception of the final block wins. *)
Definition st_finally {S A} (m : stm S A) (f : stm S ()) : stm S A := fun s =>
  let '(r, s1) := m s in
  match f s1 with
  | (Ok _, s2) => (r, s2)
  | (Raise e, s2) => (Raise e, s2)
  end.

(** [if c: raise e]. *)
Definition raise_if (c : bool) (e : exn) : result () :=
  if c then Raise e else Ok ().

Definition is_ok {A} (r : result A) : bool :=
  match r with Ok _ => true | Raise _ => false end.

(** ** Automation *)

Create HintDb rcoder.
Create Rewrite HintDb len.
Create Rewrite HintDb pytext.

(** Splits every [if]/[match] of the goal and of the hypotheses, simplifying
    equations as it goes. *)
Ltac cases :=
  repeat (first [progress simplify_eq/= | case_match | case_decide]).

(** Turns boolean comparisons on [Z] in the context into propositions. *)
Ltac zbool :=
  repeat match goal with
  | H : (_ <=? _) = true |- _ => apply Z.leb_le in H
  | H : (_ <=? _) = false |- _ => apply Z.leb_gt in H
  | H : (_ <? _) = true |- _ => apply Z.ltb_lt in H
  | H : (_ <? _) = false |- _ => apply Z.ltb_ge in H
  | H : (_ =? _) = true |- _ => apply Z.eqb_eq in H
  | H : (_ =? _) = false |- _ => apply Z.eqb_neq in H
  | H : (_ >? _) = true |- _ => rewrite Z.gtb_ltb in H
  | H : (_ >? _) = false |- _ => rewrite Z.gtb_ltb in H
  | H : (_ >=? _) = true |- _ => rewrite Z.geb_leb in H
  | H : (_ >=? _) = false |- _ => rewrite Z.geb_leb in H
  end.

(** ** Lemmas on results *)

Lemma bind_ok {A B} (r : result A) (f : A -> result B) b :
  (a ← r; f a) = Ok b -> exists a, r = Ok a /\ f a = Ok b.
Proof. destruct r as [a|e]; [|done]. intros H. by exists a. Qed.

Lemma raise_if_ok c e u : raise_if c e = Ok u -> c = false.
Proof. by destruct c. Qed.

(** Takes the first call of a successful sequence apart. *)
Ltac ok_inv H :=
  let a := fresh "r" in let Ha := fresh "Hr" in
  apply bind_ok in H as (a & Ha & H);
  try (apply raise_if_ok in Ha).

Lemma bind_ok_unit {B} (m : result ()) (f : () -> result B) b :
  (x ← m; f x) = Ok b -> m = Ok () /\ f () = Ok b.
Proof. by intros ([] & ? & ?)%bind_ok. Qed.

(** Takes a chain of checks apart. *)
Ltac checks H := repeat first
  [ apply bind_ok_unit in H; let C := fresh "C" in destruct H as [C H]; try apply raise_if_ok in C
  | apply raise_if_ok in H ].

Lemma startswith_app p t : startswith (p ++ t) p = true.
Proof. apply bool_decide_eq_true_2. by exists t. Qed.

(** ** Lemmas on lengths *)

Lemma len_nonneg {A} (l : list A) : 0 <= len l.
Proof. unfold len. lia. Qed.

Lemma len_nil {A} : len (@nil A) = 0.
Proof. done. Qed.

Lemma len_cons {A} (x : A) l : len (x :: l) = 1 + len l.
Proof. unfold len. simpl. lia. Qed.

Lemma len_app {A} (k l : list A) : len (k ++ l) = len k + len l.
Proof. unfold len. rewrite length_app. lia. Qed.

Lemma len_take {A} (l : list A) n :
  len (take n l) = Z.min (Z.of_nat n) (len l).
Proof. unfold len. rewrite length_take. lia. Qed.

Lemma len_drop {A} (l : list A) n :
  len (drop n l) = Z.max 0 (len l - Z.of_nat n).
Proof. unfold len. rewrite length_drop. lia. Qed.

Lemma len_zero {A} (l : list A) : len l = 0 <-> l = [].
Proof. unfold len. destruct l; simpl; split; intros; try done; lia. Qed.

#[export] Hint Rewrite @len_nil @len_cons @len_app @len_take @len_drop : len.

(** ** Lemmas on [strip] *)

Section DropWhile.
Context {A : Type} (f : A -> bool).

Lemma drop_while_length l : (length (drop_while f l) <= length l)%nat.
Proof. induction l; simpl; [lia|]. case_match; simpl; lia. Qed.

Lemma rdrop_while_length l : (length (rdrop_while f l) <= length l)%nat.
Proof.
  unfold rdrop_while. rewrite length_reverse.
  pose proof (drop_while_length (reverse l)) as H.
  by rewrite length_reverse in H.
Qed.

Lemma drop_while_suffix l : drop_while f l `suffix_of` l.
Proof.
  induction l as [|x l IH]; simpl; [done|].
  case_match; [|done]. by apply suffix_cons_r.
Qed.

(** What is left starts with a character that is kept. *)
Lemma drop_while_head l :
  match drop_while f l with [] => True | x :: _ => f x = false end.
Proof. induction l as [|x l IH]; simpl; [done|].
  by destruct (f x) eqn:?.
Qed.

Lemma drop_while_id l :
  match l with [] => True | x :: _ => f x = false end -> drop_while f l = l.
Proof. destruct l as [|x l]; simpl; [done|]. by intros ->. Qed.

Lemma rdrop_while_id l :
  match reverse l with [] => True | x :: _ => f x = false end ->
  rdrop_while f l = l.
Proof.
  intros H. unfold rdrop_while. rewrite drop_while_id by done.
  by rewrite reverse_involutive.
Qed.

Lemma drop_while_nil l : drop_while f l = [] <-> Forall (fun x => f x = true) l.
Proof.
  induction l as [|x l IH]; simpl; [done|]. rewrite Forall_cons.
  destruct (f x) eqn:?; naive_solver.
Qed.

Lemma rdrop_while_nil l : rdrop_while f l = [] <-> Forall (fun x => f x = true) l.
Proof.
  unfold rdrop_while. rewrite <-(Forall_reverse _ l), <-drop_while_nil.
  split; [|by intros ->]. intros H. apply (f_equal reverse) in H.
  by rewrite reverse_involutive in H.
Qed.

Lemma rdrop_while_last l :
  match reverse (rdrop_while f l) with [] => True | x :: _ => f x = false end.
Proof. unfold rdrop_while. rewrite reverse_involutive. apply drop_while_head. Qed.

Lemma rdrop_while_prefix l : rdrop_while f l `prefix_of` l.
Proof.
  unfold rdrop_while. destruct (drop_while_suffix (reverse l)) as [k Hk].
  exists (reverse k). by rewrite <-reverse_app, <-Hk, reverse_involutive.
Qed.

Lemma rdrop_while_head l :
  match l with [] => True | x :: _ => f x = false end ->
  match rdrop_while f l with [] => True | x :: _ => f x = false end.
Proof.
  destruct (rdrop_while_prefix l) as [k Hk].
  destruct (rdrop_while f l) as [|y r]; [done|]. by rewrite Hk.
Qed.

End DropWhile.

Lemma strip_length s : len (strip s) <= len s.
Proof.
  unfold len, strip.
  pose proof (rdrop_while_length is_space (drop_while is_space s)).
  pose proof (drop_while_length is_space s). lia.
Qed.

Lemma strip_idemp s : strip (strip s) = strip s.
Proof.
  unfold strip at 1. rewrite drop_while_id.
  - apply rdrop_while_id, rdrop_while_last.
  - apply rdrop_while_head, drop_while_head.
Qed.

(** A text that starts with a visible character does not strip to nothing. *)
Lemma strip_visible c s : is_space c = false -> strip (c :: s) <> [].
Proof.
  intros Hc. unfold strip. rewrite drop_while_id by done.
  rewrite rdrop_while_nil, Forall_cons. rewrite Hc. naive_solver.
Qed.

(** ** Lemmas on the stable sort *)

Section StableSortLemmas.
Context {A : Type} (leb : A -> A -> bool).
Hypothesis leb_trans : forall x y z, leb x y = true -> leb y z = true -> leb x z = true.
Hypothesis leb_total : forall x y, leb x y = false -> leb y x = true.

Lemma insert_sorted_Permutation x l : insert_sorted leb x l ≡ₚ x :: l.
Proof.
  induction l as [|y l IH]; cbn; [done|]. case_match; [done|]. rewrite IH. constructor.
Qed.

Lemma stable_sort_Permutation l : stable_sort leb l ≡ₚ l.
Proof.
  unfold stable_sort. induction l as [|x l IH]; cbn; [done|].
  by rewrite insert_sorted_Permutation, IH.
Qed.

Lemma insert_sorted_sorted x l :
  StronglySorted (fun x y => leb x y = true) l ->
  StronglySorted (fun x y => leb x y = true) (insert_sorted leb x l).
Proof.
  induction 1 as [|y l Hl IH Hy]; cbn; [by repeat constructor|].
  destruct (leb x y) eqn:E.
  - constructor; [by constructor|]. constructor; [done|].
    eapply Forall_impl; [exact Hy|]. cbn. eauto.
  - constructor; [done|]. rewrite insert_sorted_Permutation. constructor; [|done]. auto.
Qed.

Lemma stable_sort_sorted l : StronglySorted (fun x y => leb x y = true) (stable_sort leb l).
Proof. induction l; cbn; [constructor|]. by apply insert_sorted_sorted. Qed.

Lemma stable_sort_id l :
  StronglySorted (fun x y => leb x y = true) l -> stable_sort leb l = l.
Proof.
  unfold stable_sort. induction 1 as [|x l Hl IH Hx]; cbn; [done|]. rewrite IH.
  destruct Hx as [|y l Hxy]; cbn; [done|]. by rewrite Hxy.
Qed.

(** Stability: the elements that satisfy [p], when they are all equivalent for
    the order, keep their relative order. *)
Lemma stable_sort_stable (p : A -> bool) l :
  (forall x y, p x = true -> p y = true -> leb x y = true) ->
  filter (fun x => p x = true) (stable_sort leb l) = filter (fun x => p x = true) l.
Proof.
  intros Hp. unfold stable_sort.
  assert (Hins : forall x l, filter (fun x => p x = true) (insert_sorted leb x l)
                             = filter (fun x => p x = true) (x :: l)).
  { intros x. induction l0 as [|y l0 IH]; [done|]. cbn [insert_sorted].
    destruct (leb x y) eqn:E; [done|]. rewrite filter_cons, IH, !filter_cons.
    repeat case_decide; try done. exfalso. rewrite Hp in E; done. }
  induction l as [|x l IH]; [done|]. cbn [foldr]. rewrite Hins, !filter_cons. by rewrite IH.
Qed.

End StableSortLemmas.

#[export] Hint Resolve len_nonneg strip_length : rcoder.
#[export] Hint Rewrite strip_idemp : pytext.
