(* ===== verification/PyValue.v ===== *)
(** * Dynamic values

    Messages, tool arguments, ledger payloads and plan items reach the code as
    JSON-shaped Python values.  [pyval] is the type of those values, with the
    operations the modelled code performs on them: dictionary access, truth
    value, [str()], and the JSON encoder with its separators and [sort_keys].

    A dictionary is an association list in insertion order, as in Python; its
    keys are distinct ([dict_wf]).  A float is carried as the text [repr] prints
    for it, which is also what the JSON encoder prints. *)

From Stdlib Require Import Numbers.DecimalZ Numbers.DecimalPos.
From S2P Require Import Prelude.

#[warnings="-register-all"]
Inductive pyval :=
| VNone
| VBool (b : bool)
| VInt (n : Z)
| VFloat (repr : pystr)
| VStr (s : pystr)
| VList (l : list pyval)
| VDict (d : list (pystr * pyval)).

Abbreviation pydict := (list (pystr * pyval)).

(** Induction through the nested lists. *)
Section PyvalInd.
Context (P : pyval -> Prop).
Hypothesis HNone : P VNone.
Hypothesis HBool : forall b, P (VBool b).
Hypothesis HInt : forall n, P (VInt n).
Hypothesis HFloat : forall r, P (VFloat r).
Hypothesis HStr : forall s, P (VStr s).
Hypothesis HList : forall l, Forall P l -> P (VList l).
Hypothesis HDict : forall d, Forall (fun kv => P kv.2) d -> P (VDict d).

Fixpoint pyval_nested_ind (v : pyval) : P v :=
  match v with
  | VNone => HNone
  | VBool b => HBool b
  | VInt n => HInt n
  | VFloat r => HFloat r
  | VStr s => HStr s
  | VList l =>
    HList l ((fix go l : Forall P l :=
      match l with
      | [] => Forall_nil_2 P
      | x :: l' => Forall_cons_2 P x l' (pyval_nested_ind x) (go l')
      end) l)
  | VDict d =>
    HDict d ((fix go (d : pydict) : Forall (fun kv => P kv.2) d :=
      match d with
      | [] => Forall_nil_2 _
      | kv :: d' => Forall_cons_2 _ kv d' (pyval_nested_ind kv.2) (go d')
      end) d)
  end.
End PyvalInd.

Lemma pyval_eq_or_ne (v v' : pyval) : {v = v'} + {v <> v'}.
Proof.
  revert v v'. fix IH 1. intros v v'.
  destruct v as [| b | n | r | s | l | d], v' as [| b' | n' | r' | s' | l' | d'];
    try (right; discriminate).
  - by left.
  - destruct (decide (b = b')); [left|right]; congruence.
  - destruct (decide (n = n')); [left|right]; congruence.
  - destruct (decide (r = r')); [left|right]; congruence.
  - destruct (decide (s = s')); [left|right]; congruence.
  - destruct (@list_eq_dec _ IH l l'); [left|right]; congruence.
  - destruct (@list_eq_dec _ (@prod_eq_dec _ _ _ IH) d d'); [left|right]; congruence.
Defined.

#[export] Instance pyval_eq_dec : EqDecision pyval := pyval_eq_or_ne.
#[export] Instance pyval_inhabited : Inhabited pyval := populate VNone.

(** ** Dictionaries *)

(** [d.get(k)] with the absence visible. *)
Fixpoint dget (d : pydict) (k : pystr) : option pyval :=
  match d with
  | [] => None
  | (k', v) :: d' => if decide (k = k') then Some v else dget d' k
  end.

(** [d.get(k)], [None] when the key is absent. *)
Definition dget_none (d : pydict) (k : pystr) : pyval := default VNone (dget d k).

(** [d.get(k, v)]. *)
Definition dget_or (d : pydict) (k : pystr) (v : pyval) : pyval := default v (dget d k).

(** [d[k] = v]: an existing key keeps its position. *)
Fixpoint dset (d : pydict) (k : pystr) (v : pyval) : pydict :=
  match d with
  | [] => [(k, v)]
  | (k', v') :: d' => if decide (k = k') then (k', v) :: d' else (k', v') :: dset d' k v
  end.

(** [d.update(d')] and [{**d, **d'}]. *)
Definition dict_update (d d' : pydict) : pydict := foldl (fun d kv => dset d kv.1 kv.2) d d'.

(** [d.pop(k, None)]. *)
Definition dpop (d : pydict) (k : pystr) : pydict :=
  filter (fun kv : pystr * pyval => kv.1 <> k) d.

(** [k in d]. *)
Definition dmem (d : pydict) (k : pystr) : bool := bool_decide (is_Some (dget d k)).

Definition dict_wf (d : pydict) : Prop := NoDup d.*1.

(** The truth value of [bool(v)]. *)
Definition truthy (v : pyval) : bool :=
  match v with
  | VNone => false
  | VBool b => b
  | VInt n => negb (n =? 0)
  | VFloat r => negb (bool_decide (r = $"0.0") || bool_decide (r = $"-0.0"))
  | VStr s => negb (bool_decide (s = []))
  | VList l => match l with [] => false | _ => true end
  | VDict d => match d with [] => false | _ => true end
  end.

(** [v or w]. *)
Definition py_or (v w : pyval) : pyval := if truthy v then v else w.

(** Attribute access [v.get] needs a dictionary. *)
Definition as_dict (v : pyval) : result pydict :=
  match v with VDict d => Ok d | _ => Raise (AttributeError $"get") end.

(** [for x in v or ()]: a list is iterated; iterating another truthy value
    raises, or meets an element whose [get] raises. *)
Definition iter_or_empty (v : pyval) : result (list pyval) :=
  if truthy v then
    match v with VList l => Ok l | _ => Raise (AttributeError $"get") end
  else Ok [].

(** [for x in v]. *)
Definition py_iter (v : pyval) : result (list pyval) :=
  match v with
  | VList l => Ok l
  | VStr s => Ok (map (fun c => VStr [c]) s)
  | VDict d => Ok (map (fun kv : pystr * pyval => VStr kv.1) d)
  | _ => Raise (TypeError $"object is not iterable")
  end.

(** [dict(v)]: a mapping is copied, a sequence of pairs is collected. *)
Fixpoint dict_of_pairs (acc : pydict) (l : list pyval) : result pydict :=
  match l with
  | [] => Ok acc
  | x :: l' =>
    match py_iter x with
    | Ok [VStr k; v] => dict_of_pairs (dset acc k v) l'
    | Ok _ => Raise (ValueError $"dictionary update sequence")
    | Raise e => Raise e
    end
  end.

Definition dict_of (v : pyval) : result pydict :=
  match v with
  | VDict d => Ok d
  | _ => l ← py_iter v; dict_of_pairs [] l
  end.

(** [v == "text"]. *)
Definition is_str (v : pyval) (s : pystr) : bool := bool_decide (v = VStr s).

(** Conversions between number types and from text, which some readers apply
    to persisted values; the theorems hold for any of them. *)
Class PyCoercions := {
  int_of_text : pystr -> result Z;
  int_of_float : pystr -> result Z;
  float_of_text : pystr -> result pystr;
  float_of_int : Z -> pystr;
}.

(** Coercions that refuse every text and float. *)
Definition strict_coercions : PyCoercions := {|
  int_of_text _ := Raise (ValueError $"int");
  int_of_float _ := Raise (ValueError $"int");
  float_of_text _ := Raise (ValueError $"float");
  float_of_int n := z_str n ++ $".0";
|}.

(** [int(v)] and [float(v)]. *)
Definition py_int `{PyCoercions} (v : pyval) : result Z :=
  match v with
  | VInt n => Ok n
  | VBool b => Ok (if b then 1 else 0)
  | VFloat r => int_of_float r
  | VStr s => int_of_text s
  | _ => Raise (TypeError $"int")
  end.

Definition py_float `{PyCoercions} (v : pyval) : result pystr :=
  match v with
  | VFloat r => Ok r
  | VInt n => Ok (float_of_int n)
  | VBool b => Ok (float_of_int (if b then 1 else 0))
  | VStr s => float_of_text s
  | _ => Raise (TypeError $"float")
  end.

(** [value if isinstance(value, str) else None]. *)
Definition optional_str (v : pyval) : option pystr :=
  match v with VStr s => Some s | _ => None end.

Definition of_optional_str (s : option pystr) : pyval :=
  match s with Some s => VStr s | None => VNone end.

Lemma optional_str_of s : optional_str (of_optional_str s) = s.
Proof. by destruct s. Qed.

(** ** [str()] *)

Definition hex_digit (n : Z) : Z := if n <? 10 then 48 + n else 87 + n.

(** One character of [repr] of a text delimited by [q].  Characters above
    [0xa0] other than the soft hyphen count as printable. *)
Definition repr_char (q c : Z) : pystr :=
  if (c =? q) || (c =? 92) then [92; c]
  else if c =? 10 then $"\n" else if c =? 13 then $"\r" else if c =? 9 then $"\t"
  else if (c <? 32) || ((127 <=? c) && (c <=? 160)) || (c =? 173)
       then $"\x" ++ [hex_digit (c / 16); hex_digit (c mod 16)]
  else [c].

Definition repr_str (s : pystr) : pystr :=
  let q := if bool_decide (39 ∈ s) && negb (bool_decide (34 ∈ s)) then 34 else 39 in
  q :: concat (map (repr_char q) s) ++ [q].

Fixpoint py_repr (v : pyval) : pystr :=
  match v with
  | VNone => $"None"
  | VBool b => if b then $"True" else $"False"
  | VInt n => z_str n
  | VFloat r => r
  | VStr s => repr_str s
  | VList l => $"[" ++ join $", " (map py_repr l) ++ $"]"
  | VDict d =>
    $"{" ++ join $", " (map (fun kv => repr_str kv.1 ++ $": " ++ py_repr kv.2) d) ++ $"}"
  end.

Definition py_str (v : pyval) : pystr :=
  match v with VStr s => s | _ => py_repr v end.

(** [str(error)]. *)
Definition exn_text (x : exn) : pystr :=
  match x with
  | ValueError m | TypeError m | AttributeError m | OSError m | OtherError m => m
  | KeyError k => repr_str k
  end.

(** [str(v or "")]. *)
Definition str_or_empty (v : pyval) : pystr := if truthy v then py_str v else [].

(** ** JSON encoder: [json.dumps(v, ensure_ascii=False, separators=(i, k))] *)

Definition json_char (c : Z) : pystr :=
  if c =? 34 then [92; 34] else if c =? 92 then [92; 92]
  else if c =? 10 then [92; 110] else if c =? 13 then [92; 114]
  else if c =? 9 then [92; 116] else if c =? 8 then [92; 98]
  else if c =? 12 then [92; 102]
  else if (0 <=? c) && (c <? 32)
       then [92; 117; 48; 48; hex_digit (c / 16); hex_digit (c mod 16)]
  else [c].

Definition json_string (s : pystr) : pystr := 34 :: concat (map json_char s) ++ [34].

Fixpoint json_dumps (isep ksep : pystr) (v : pyval) : pystr :=
  match v with
  | VNone => $"null"
  | VBool b => if b then $"true" else $"false"
  | VInt n => z_str n
  | VFloat r => r
  | VStr s => json_string s
  | VList l => $"[" ++ join isep (map (json_dumps isep ksep) l) ++ $"]"
  | VDict d =>
    $"{" ++ join isep (map (fun kv => json_string kv.1 ++ ksep
                                      ++ json_dumps isep ksep kv.2) d) ++ $"}"
  end.

(** [separators=(",", ":")], and the separators used by default. *)
Definition json_compact : pyval -> pystr := json_dumps $"," $":".
Definition json_default : pyval -> pystr := json_dumps $", " $": ".

(** [sort_keys=True]: keys in code point order, at every level. *)
Fixpoint text_leb (s t : pystr) : bool :=
  match s, t with
  | [], _ => true
  | _ :: _, [] => false
  | a :: s', b :: t' => (a <? b) || ((a =? b) && text_leb s' t')
  end.

Definition key_le (p q : pystr * pyval) : Prop := text_leb p.1 q.1 = true.
#[export] Instance key_le_dec : RelDecision key_le.
Proof. intros p q. unfold key_le. apply _. Defined.

Fixpoint sort_keys (v : pyval) : pyval :=
  match v with
  | VList l => VList (map sort_keys l)
  | VDict d => VDict (merge_sort key_le (map (fun kv => (kv.1, sort_keys kv.2)) d))
  | _ => v
  end.

(** ** Lemmas on the order of texts *)

Lemma text_leb_total s t : text_leb s t = false -> text_leb t s = true.
Proof.
  revert t. induction s as [|a s IH]; intros [|b t]; cbn; try done.
  rewrite orb_false_iff, orb_true_iff, andb_false_iff, andb_true_iff.
  rewrite !Z.ltb_lt, !Z.eqb_eq, Z.ltb_ge, Z.eqb_neq. intros [H1 [H2|H2]]; [left; lia|].
  destruct (decide (a = b)); [right; split; [done|by apply IH]|left; lia].
Qed.

Lemma text_leb_antisym s t : text_leb s t = true -> text_leb t s = true -> s = t.
Proof.
  revert t. induction s as [|a s IH]; intros [|b t]; cbn; try done.
  rewrite !orb_true_iff, !andb_true_iff, !Z.ltb_lt, !Z.eqb_eq.
  intros [?|[-> ?]] [?|[? ?]]; try lia. f_equal. by apply IH.
Qed.

Lemma text_leb_trans s t u : text_leb s t = true -> text_leb t u = true -> text_leb s u = true.
Proof.
  revert t u. induction s as [|a s IH]; intros [|b t] [|c u]; cbn; try done.
  rewrite !orb_true_iff, !andb_true_iff, !Z.ltb_lt, !Z.eqb_eq.
  intros [?|[-> ?]] [?|[-> ?]]; [left; lia|by left|by left|right; split; [done|by eapply IH]].
Qed.

(** ** Lemmas on [str()] *)

Lemma str_or_empty_str s : str_or_empty (VStr s) = s.
Proof. by destruct s. Qed.

(** ** Lemmas on dictionaries *)

Lemma dget_dset d k v k' :
  dget (dset d k v) k' = if decide (k' = k) then Some v else dget d k'.
Proof.
  induction d as [|[k0 v0] d IH]; simpl; [by repeat case_decide|].
  repeat case_decide; simpl; repeat case_decide; congruence.
Qed.

Lemma dget_dset_eq d k v : dget (dset d k v) k = Some v.
Proof. rewrite dget_dset. by case_decide. Qed.

Lemma dget_dset_ne d k v k' : k' <> k -> dget (dset d k v) k' = dget d k'.
Proof. intros. rewrite dget_dset. by case_decide. Qed.

Lemma dget_dpop d k k' :
  dget (dpop d k) k' = if decide (k' = k) then None else dget d k'.
Proof.
  unfold dpop. induction d as [|[k0 v0] d IH]; [by case_decide|].
  rewrite filter_cons. simpl in *. repeat case_decide; simpl; repeat case_decide; congruence.
Qed.

Lemma dget_Some_elem d k v : dget d k = Some v -> (k, v) ∈ d.
Proof.
  induction d as [|[k0 v0] d IH]; simpl; [done|].
  case_decide; [intros [= ->]; subst; left|right; auto].
Qed.

Lemma dget_cons_eq k v d : dget ((k, v) :: d) k = Some v.
Proof. cbn. by case_decide. Qed.

Lemma dget_cons_ne k k' v d : k <> k' -> dget ((k', v) :: d) k = dget d k.
Proof. intros. cbn. by case_decide. Qed.

Create Rewrite HintDb pydict.
#[export] Hint Rewrite dget_cons_eq : pydict.
#[export] Hint Rewrite dget_cons_ne using discriminate : pydict.
#[export] Hint Rewrite dget_dset_eq : pydict.
#[export] Hint Rewrite dget_dset_ne using discriminate : pydict.
