(* ===== verification/Json.v ===== *)
(** * The JSON encoder is injective

    Plan fingerprints and worker payload hashes compare encoded texts.  This
    file shows that the encoder of [PyValue] never prints two different
    float-free values the same way, even as the beginning of a longer text, so
    comparing the texts is comparing the values. *)

From Stdlib Require Import Numbers.DecimalZ Numbers.DecimalPos Numbers.DecimalNat.
From S2P Require Import Prelude PyValue.

(** ** Decimal numbers *)

Definition is_digit (c : Z) : bool := (48 <=? c) && (c <=? 57).

(** A text that cannot continue a number. *)
Definition no_digit_head (r : pystr) : Prop :=
  match r with [] => True | c :: _ => is_digit c = false end.

Lemma uint_digits_inj u u' r r' :
  no_digit_head r -> no_digit_head r' ->
  uint_digits u ++ r = uint_digits u' ++ r' -> u = u' /\ r = r'.
Proof.
  intros Hr Hr'. revert u'.
  induction u; intros u' H; destruct u'; simpl in H; simplify_eq;
    try (split; [done|done]);
    try (match goal with
         | H : ?u ++ _ = ?v ++ _ |- _ => apply IHu in H as [-> ->]; done
         end);
    try (subst; simpl in *; done).
Qed.

Lemma uint_digits_head u :
  u <> Decimal.Nil -> exists c s, uint_digits u = c :: s /\ is_digit c = true.
Proof. destruct u; intros ?; simpl; try done; eauto. Qed.

Lemma to_int_nonnil z :
  match Z.to_int z with Decimal.Pos u | Decimal.Neg u => u <> Decimal.Nil end.
Proof.
  destruct z; simpl; [done| |]; apply DecimalPos.Unsigned.to_uint_nonnil.
Qed.

Lemma z_str_head z :
  exists c s, z_str z = c :: s /\ (is_digit c = true \/ c = 45).
Proof.
  unfold z_str. pose proof (to_int_nonnil z) as Hn.
  destruct (Z.to_int z) as [u|u]; [|eauto].
  destruct (uint_digits_head u Hn) as (c & s & -> & ?). eauto.
Qed.

Lemma z_str_inj z z' r r' :
  no_digit_head r -> no_digit_head r' ->
  z_str z ++ r = z_str z' ++ r' -> z = z' /\ r = r'.
Proof.
  intros Hr Hr'. rewrite <-(DecimalZ.of_to z), <-(DecimalZ.of_to z') at 2.
  unfold z_str.
  pose proof (to_int_nonnil z) as Hz. pose proof (to_int_nonnil z') as Hz'.
  destruct (Z.to_int z) as [u|u], (Z.to_int z') as [u'|u']; intros H.
  - by apply uint_digits_inj in H as [-> ->].
  - destruct (uint_digits_head u Hz) as (c & s & Hu & Hc).
    rewrite Hu in H. by simplify_eq/=.
  - destruct (uint_digits_head u' Hz') as (c & s & Hu & Hc).
    rewrite Hu in H. by simplify_eq/=.
  - simplify_eq/=.
    match goal with H : uint_digits _ ++ _ = _ |- _ =>
      by apply uint_digits_inj in H as [-> ->] end.
Qed.

(** ** Strings *)

Lemma hex_digit_inj m n :
  0 <= m < 16 -> 0 <= n < 16 -> hex_digit m = hex_digit n -> m = n.
Proof. unfold hex_digit. repeat case_match; zbool; lia. Qed.

Lemma control_char_inj c d :
  0 <= c < 32 -> 0 <= d < 32 ->
  hex_digit (c / 16) = hex_digit (d / 16) ->
  hex_digit (c mod 16) = hex_digit (d mod 16) -> c = d.
Proof.
  intros Hc Hd H1 H2.
  apply hex_digit_inj in H1; [|Z.to_euclidean_division_equations; lia..].
  apply hex_digit_inj in H2; [|Z.to_euclidean_division_equations; lia..].
  Z.to_euclidean_division_equations; lia.
Qed.

(** No escape begins like a closing quote, and escapes are told apart by their
    beginning. *)
Lemma json_char_inj c d r r' :
  json_char c ++ r = json_char d ++ r' -> c = d /\ r = r'.
Proof.
  unfold json_char. intros H.
  repeat (case_match; zbool; subst; simpl in H; simplify_eq); try done; try lia.
  match goal with
  | H1 : hex_digit (_ / _) = _, H2 : hex_digit (_ mod _) = _ |- _ =>
    apply control_char_inj in H1; [by subst|..|done]
  end; repeat match goal with H : _ && _ = true |- _ => apply andb_prop in H as [??] end;
  zbool; lia.
Qed.

Lemma json_char_quote c r r' : json_char c ++ r <> 34 :: r'.
Proof. unfold json_char. intros H. by repeat (case_match; zbool; subst; simplify_eq/=). Qed.

Lemma json_string_inj s s' r r' :
  json_string s ++ r = json_string s' ++ r' -> s = s' /\ r = r'.
Proof.
  unfold json_string. simpl. rewrite <-!app_assoc. simpl. intros [= H].
  revert s' H. induction s as [|c s IH]; intros [|c' s']; simpl;
    rewrite <-?app_assoc; intros H.
  - by simplify_eq.
  - symmetry in H. by apply json_char_quote in H.
  - by apply json_char_quote in H.
  - apply json_char_inj in H as [-> H]. by apply IH in H as [-> ->].
Qed.

Lemma json_string_head s : exists t, json_string s = 34 :: t.
Proof. unfold json_string. eauto. Qed.

#[local] Opaque json_string.

(** Compares the first characters of two encoded values. *)
#[local] Ltac text_heads H :=
  simpl in H;
  repeat match type of H with
  | context [z_str ?n] =>
    let Hn := fresh in destruct (z_str_head n) as (? & ? & Hn & ?); rewrite Hn in H
  | context [json_string ?s] =>
    let Hs := fresh in destruct (json_string_head s) as [? Hs]; rewrite Hs in H
  end; destruct_or?; simplify_eq/=; done.

(** ** Values *)

Fixpoint no_float (v : pyval) : Prop :=
  match v with
  | VFloat _ => False
  | VList l => foldr (fun x acc => no_float x /\ acc) True l
  | VDict d => foldr (fun kv acc => no_float kv.2 /\ acc) True d
  | _ => True
  end.

(** What may follow a value: nothing, a separator or a closing bracket. *)
Definition value_end (r : pystr) : Prop :=
  match r with [] => True | c :: _ => c = 44 \/ c = 93 \/ c = 125 end.

Lemma value_end_digit r : value_end r -> no_digit_head r.
Proof. destruct r as [|c r]; simpl; [done|]. by intros [->|[->| ->]]. Qed.

Section Values.
Context (isep ksep : pystr) (itail ktail : pystr).
Hypothesis Hisep : isep = 44 :: itail.
Hypothesis Hksep : ksep = 58 :: ktail.
#[local] Abbreviation dumps := (json_dumps isep ksep).

Lemma json_dumps_head v :
  no_float v ->
  exists c s, dumps v = c :: s /\ c <> 44 /\ c <> 93 /\ c <> 125.
Proof.
  destruct v as [|[]|n|r|s|l|d]; simpl; intros Hv; try done; try by eauto 10.
  2: { destruct (json_string_head s) as [t ->]. by eauto 10. }
  destruct (z_str_head n) as (c & s & -> & Hc). exists c, s. split; [done|].
  destruct Hc as [Hc| ->]; [|done].
  unfold is_digit in Hc. apply andb_prop in Hc as [??]. zbool. lia.
Qed.

(** Encoders of sequence elements that can be read back from their beginning. *)
Lemma join_inj {A} (enc : A -> pystr) (Q : A -> Prop) c l l' r r' :
  (forall x, Q x -> exists a s, enc x = a :: s /\ a <> 44 /\ a <> 93 /\ a <> 125) ->
  c = 93 \/ c = 125 ->
  Forall (fun x => forall x' s s', Q x' -> value_end s -> value_end s' ->
                   enc x ++ s = enc x' ++ s' -> x = x' /\ s = s') l ->
  Forall Q l -> Forall Q l' ->
  join isep (map enc l) ++ c :: r = join isep (map enc l') ++ c :: r' ->
  l = l' /\ r = r'.
Proof.
  intros Hhead Hc HP. revert l'. induction HP as [|x l Hx HP IH];
    intros [|x' l'] HQ HQ' H; inversion_clear HQ; inversion_clear HQ'.
  - by simplify_eq/=.
  - destruct (Hhead x') as (a & s & Ha & ?); [done|].
    destruct l'; simpl in H; rewrite Ha in H; simplify_eq/=; lia.
  - destruct (Hhead x) as (a & s & Ha & ?); [done|].
    destruct l; simpl in H; rewrite Ha in H; simplify_eq/=; lia.
  - assert (Hce : forall t, value_end (c :: t)) by (simpl; tauto).
    assert (Hie : forall t, value_end (isep ++ t)) by (rewrite Hisep; simpl; tauto).
    destruct l as [|y l], l' as [|y' l']; cbn [map join] in H;
      rewrite <-?app_assoc in H; apply Hx in H as [-> H]; auto.
    + by simplify_eq.
    + rewrite Hisep in H. simplify_eq/=. lia.
    + rewrite Hisep in H. simplify_eq/=. lia.
    + apply app_inv_head in H. by apply (IH (y' :: l')) in H as [-> ->].
Qed.

Lemma no_float_list l : no_float (VList l) <-> Forall no_float l.
Proof.
  induction l as [|x l IH]; [done|]. rewrite Forall_cons, <-IH. done.
Qed.

Lemma no_float_dict d : no_float (VDict d) <-> Forall (fun kv => no_float kv.2) d.
Proof.
  induction d as [|x d IH]; [done|]. rewrite Forall_cons, <-IH. done.
Qed.

(** Reading a value back from the beginning of a text is unambiguous. *)
Lemma json_dumps_prefix v : forall v' r r',
  no_float v -> no_float v' -> value_end r -> value_end r' ->
  dumps v ++ r = dumps v' ++ r' -> v = v' /\ r = r'.
Proof.
  induction v as [| b | n | t | s | l IH | d IH] using pyval_nested_ind;
    intros v' r r' Hv Hv' Hr Hr' H; [| | |done| | |].
  all: destruct v' as [|[]|n'|t'|s'|l'|d']; try destruct b; try done; try (by text_heads H).
  - simpl in H. apply z_str_inj in H as [-> ->]; auto using value_end_digit.
  - by apply json_string_inj in H as [-> ->].
  - simpl in H. rewrite <-!app_assoc in H. simpl in H. injection H as H.
    rewrite no_float_list in Hv, Hv'.
    apply (join_inj _ no_float) in H as [-> ->]; auto using json_dumps_head.
    rewrite Forall_forall in IH, Hv |- *. intros x Hx x' s s' Hx' Hs Hs' Heq.
    eapply IH; eauto.
  - simpl in H. rewrite <-!app_assoc in H. simpl in H. injection H as H.
    rewrite no_float_dict in Hv, Hv'.
    apply (join_inj _ (fun kv => no_float kv.2)) in H as [-> ->]; auto.
    + intros [k w] ?. simpl. destruct (json_string_head k) as [t ->]. simpl. eauto 10.
    + rewrite Forall_forall in IH, Hv |- *. intros [k w] Hx [k' w'] s s' Hx' Hs Hs' Heq.
      cbn [fst snd] in *. rewrite <-!app_assoc in Heq.
      apply json_string_inj in Heq as [-> Heq]. apply app_inv_head in Heq.
      destruct (IH (k', w) Hx w' s s' (Hv _ Hx) Hx' Hs Hs' Heq) as [<- ->]. done.
Qed.

(** Two float-free values with the same text are equal. *)
Lemma json_dumps_inj v v' :
  no_float v -> no_float v' -> dumps v = dumps v' -> v = v'.
Proof.
  intros Hv Hv' H. eapply (json_dumps_prefix v v' [] []); try done.
  by rewrite !app_nil_r.
Qed.

End Values.

Lemma json_compact_inj v v' :
  no_float v -> no_float v' -> json_compact v = json_compact v' -> v = v'.
Proof. by eapply json_dumps_inj. Qed.
