(* ===== verification/TextBuffer.v ===== *)
(** * Bounded text retention for process streams
    (infrastructure/process/buffer.py)

    [BoundedTextBuffer] keeps the tail of a process stream within a byte limit
    while its offsets count every character ever appended.  The abstract value
    of a buffer is the whole stream; [represents] relates the two, and the
    theorems say what each operation does to the stream.

    The lock makes every operation atomic, so an operation is a function on the
    buffer. *)

From S2P Require Import Prelude.

(** ** Encoded size *)

(** Bytes of [chr(c).encode("utf-8", errors="replace")]: a lone surrogate is
    replaced by one question mark. *)
Definition utf8_width (c : Z) : Z :=
  if c <? 128 then 1
  else if c <? 2048 then 2
  else if (55296 <=? c) && (c <=? 57343) then 1
  else if c <? 65536 then 3
  else 4.

Fixpoint utf8_len (s : pystr) : Z :=
  match s with [] => 0 | c :: s' => utf8_width c + utf8_len s' end.

(** ** Data *)

Record BufferRead := mk_read {
  text : pystr;
  next_offset : Z;
  truncated : bool;
}.

Record Segment := mk_segment {
  seg_start : Z;
  seg_text : pystr;
  byte_count : Z;
}.

Definition seg_end (g : Segment) : Z := seg_start g + len (seg_text g).

Record BoundedTextBuffer := mk_buffer {
  max_bytes : Z;
  segments : list Segment;
  retained_bytes : Z;
  end_offset : Z;      (* self._next_offset *)
  total_bytes : Z;
  was_truncated : bool; (* self._truncated *)
}.

(** ** Slicing by encoded size *)

(** The loop of [_suffix_within_bytes]; [fuel] bounds the iterations, and
    [high - low] of them are always enough. *)
Fixpoint suffix_search (fuel : nat) (s : pystr) (limit low high : Z) : Z :=
  match fuel with
  | O => low
  | S fuel =>
    if low <? high then
      let middle := (low + high) / 2 in
      if utf8_len (slice_from middle s) <=? limit
      then suffix_search fuel s limit low middle
      else suffix_search fuel s limit (middle + 1) high
    else low
  end.

Definition suffix_within_bytes (s : pystr) (limit : Z) : pystr :=
  if limit <=? 0 then []
  else if utf8_len s <=? limit then s
  else slice_from (suffix_search (length s) s limit 0 (len s)) s.

(** The loop of [_prefix_within_bytes]. *)
Fixpoint prefix_search (fuel : nat) (s : pystr) (limit low high : Z) : Z :=
  match fuel with
  | O => low
  | S fuel =>
    if low <? high then
      let middle := (low + high + 1) / 2 in
      if utf8_len (slice_to middle s) <=? limit
      then prefix_search fuel s limit middle high
      else prefix_search fuel s limit low (middle - 1)
    else low
  end.

Definition prefix_within_bytes (s : pystr) (limit : Z) : pystr :=
  if limit <=? 0 then []
  else if utf8_len s <=? limit then s
  else slice_to (prefix_search (length s) s limit 0 (len s)) s.

(** ** Operations *)

(** [BoundedTextBuffer(max_bytes)]. *)
Definition new_buffer (max_bytes : Z) : result BoundedTextBuffer :=
  if max_bytes <? 1 then Raise (ValueError $"max_bytes must be positive")
  else Ok (mk_buffer max_bytes [] 0 0 0 false).

Definition retained_start (b : BoundedTextBuffer) : Z :=
  match segments b with [] => end_offset b | g :: _ => seg_start g end.

(** The [while] loop of [_enforce_limit]: whole segments are dropped, then the
    first remaining one is trimmed and the loop ends. *)
Fixpoint enforce_loop (max_bytes : Z) (segs : list Segment) (retained : Z)
    (flag : bool) : list Segment * Z * bool :=
  match segs with
  | [] => ([], retained, flag)
  | g :: rest =>
    if retained >? max_bytes then
      let excess := retained - max_bytes in
      if (byte_count g <=? excess) && (len segs >? 1)
      then enforce_loop max_bytes rest (retained - byte_count g) true
      else
        let target_bytes := Z.max 0 (byte_count g - excess) in
        let kept := suffix_within_bytes (seg_text g) target_bytes in
        let dropped_chars := len (seg_text g) - len kept in
        let kept_bytes := utf8_len kept in
        let g' := mk_segment (seg_start g + dropped_chars) kept kept_bytes in
        (match kept with [] => rest | _ => g' :: rest end,
         retained - (byte_count g - kept_bytes), true)
    else (segs, retained, flag)
  end.

Definition enforce_limit (b : BoundedTextBuffer) : BoundedTextBuffer :=
  let '(segs, retained, flag) :=
    enforce_loop (max_bytes b) (segments b) (retained_bytes b) (was_truncated b) in
  mk_buffer (max_bytes b) segs retained (end_offset b) (total_bytes b) flag.

Definition append (b : BoundedTextBuffer) (s : pystr) (count : option Z)
    : BoundedTextBuffer :=
  let measured := match count with None => utf8_len s | Some n => Z.max 0 n end in
  let b := mk_buffer (max_bytes b) (segments b) (retained_bytes b) (end_offset b)
                     (total_bytes b + measured) (was_truncated b) in
  match s with
  | [] => b
  | _ =>
    let g := mk_segment (end_offset b) s (utf8_len s) in
    enforce_limit
      (mk_buffer (max_bytes b) (segments b ++ [g]) (retained_bytes b + utf8_len s)
                 (end_offset b + len s) (total_bytes b) (was_truncated b))
  end.

(** The [for] loop of [read_after], its pieces joined. *)
Fixpoint pieces_after (start : Z) (segs : list Segment) : pystr :=
  match segs with
  | [] => []
  | g :: rest =>
    if seg_end g <=? start then pieces_after start rest
    else slice_from (Z.max 0 (start - seg_start g)) (seg_text g)
         ++ pieces_after start rest
  end.

Definition read_after (b : BoundedTextBuffer) (offset limit : Z) : result BufferRead :=
  if limit <? 1 then Raise (ValueError $"max_bytes must be positive")
  else
    let requested := Z.max 0 (Z.min offset (end_offset b)) in
    let start := Z.max requested (retained_start b) in
    let complete := pieces_after start (segments b) in
    let selected := prefix_within_bytes complete limit in
    Ok (mk_read selected (start + len selected)
                ((requested <? retained_start b) || (len selected <? len complete))).

Definition segs_text (segs : list Segment) : pystr := concat (map seg_text segs).

Definition retained (b : BoundedTextBuffer) : BufferRead :=
  mk_read (segs_text (segments b)) (end_offset b)
          (was_truncated b || (retained_start b >? 0)).

(** ** Specification *)

(** The longest suffix, and prefix, that encode within [limit] bytes. *)
Fixpoint longest_suffix (limit : Z) (s : pystr) : pystr :=
  match s with
  | [] => []
  | _ :: s' => if utf8_len s <=? limit then s else longest_suffix limit s'
  end.

Fixpoint longest_prefix (limit : Z) (s : pystr) : pystr :=
  match s with
  | [] => []
  | c :: s' =>
    if utf8_width c <=? limit then c :: longest_prefix (limit - utf8_width c) s' else []
  end.

(** Consecutive non-empty segments that cover the offsets from [s] to [e]. *)
Fixpoint contiguous (s : Z) (segs : list Segment) (e : Z) : Prop :=
  match segs with
  | [] => s = e
  | g :: rest =>
    seg_start g = s /\ seg_text g <> [] /\ byte_count g = utf8_len (seg_text g)
    /\ contiguous (s + len (seg_text g)) rest e
  end.

(** [b] is a buffer to which the stream [all] has been appended. *)
Record represents (b : BoundedTextBuffer) (all : pystr) : Prop := {
  rep_max : 1 <= max_bytes b;
  rep_end : end_offset b = len all;
  rep_cover : contiguous (retained_start b) (segments b) (end_offset b);
  rep_bytes : retained_bytes b = utf8_len (segs_text (segments b));
  rep_text : segs_text (segments b) = longest_suffix (max_bytes b) all;
  rep_flag : was_truncated b = bool_decide (segs_text (segments b) <> all);
}.

(** ** Lemmas on encoded size *)

Lemma utf8_width_bounds c : 1 <= utf8_width c <= 4.
Proof. unfold utf8_width. repeat case_match; lia. Qed.

Lemma utf8_len_app s t : utf8_len (s ++ t) = utf8_len s + utf8_len t.
Proof. induction s; simpl; lia. Qed.

Lemma utf8_len_bounds s : len s <= utf8_len s <= 4 * len s.
Proof.
  induction s as [|c s IH]; simpl; [done|].
  pose proof (utf8_width_bounds c). rewrite len_cons. lia.
Qed.

Lemma utf8_len_nonneg s : 0 <= utf8_len s.
Proof. pose proof (utf8_len_bounds s). pose proof (len_nonneg s). lia. Qed.

Lemma utf8_len_zero s : utf8_len s <= 0 <-> s = [].
Proof.
  split; [|by intros ->]. destruct s as [|c s]; simpl; [done|].
  pose proof (utf8_width_bounds c). pose proof (utf8_len_nonneg s). lia.
Qed.

Lemma utf8_len_drop_mono s i j :
  (i <= j)%nat -> utf8_len (drop j s) <= utf8_len (drop i s).
Proof.
  intros Hij. rewrite <-(take_drop (j - i) (drop i s)), utf8_len_app, drop_drop.
  replace (i + (j - i))%nat with j by lia.
  pose proof (utf8_len_nonneg (take (j - i) (drop i s))). lia.
Qed.

Lemma utf8_len_take_mono s i j :
  (i <= j)%nat -> utf8_len (take i s) <= utf8_len (take j s).
Proof.
  intros Hij. replace (take i s) with (take i (take j s))
    by (rewrite take_take; f_equal; lia).
  rewrite <-(take_drop i (take j s)) at 2. rewrite utf8_len_app.
  pose proof (utf8_len_nonneg (drop i (take j s))). lia.
Qed.

#[export] Hint Resolve utf8_len_nonneg utf8_width_bounds : rcoder.

(** ** The reference slices *)

Lemma longest_suffix_fits limit s : utf8_len s <= limit -> longest_suffix limit s = s.
Proof. destruct s; cbn [longest_suffix]; [done|]. intros H. by case_match; zbool; try lia. Qed.

Lemma longest_suffix_drop limit s r :
  utf8_len (drop r s) <= limit ->
  (forall i, (i < r)%nat -> limit < utf8_len (drop i s)) ->
  longest_suffix limit s = drop r s.
Proof.
  revert r. induction s as [|c s IH]; intros r Hr Hlt; [by rewrite drop_nil|].
  destruct r as [|r]; [by apply longest_suffix_fits|].
  specialize (Hlt 0%nat) as H0. cbn [drop] in *. cbn [longest_suffix].
  case_match; zbool; [lia|]. apply IH; [done|].
  intros i Hi. apply (Hlt (S i)). lia.
Qed.

Lemma longest_suffix_bytes limit s : 0 <= limit -> utf8_len (longest_suffix limit s) <= limit.
Proof.
  intros Hl. induction s as [|c s IH]; [done|]. cbn [longest_suffix].
  by case_match; zbool.
Qed.

Lemma longest_suffix_suffix limit s : longest_suffix limit s `suffix_of` s.
Proof.
  induction s as [|c s IH]; [done|]. cbn [longest_suffix].
  case_match; [done|]. by apply suffix_cons_r.
Qed.

(** Appending only ever moves the start of the longest suffix forward. *)
Lemma longest_suffix_app limit s t :
  longest_suffix limit (longest_suffix limit s ++ t) = longest_suffix limit (s ++ t).
Proof.
  induction s as [|c s IH]; [done|].
  destruct (decide (utf8_len (c :: s) <= limit)) as [Hf|Hf].
  { by rewrite (longest_suffix_fits _ _ Hf). }
  assert (Hs : longest_suffix limit (c :: s) = longest_suffix limit s)
    by (cbn [longest_suffix]; case_match; zbool; [lia|done]).
  rewrite Hs, IH. change ((c :: s) ++ t) with (c :: (s ++ t)). cbn [longest_suffix].
  case_match; [|done]. zbool. exfalso.
  change (c :: s ++ t) with ((c :: s) ++ t) in *. rewrite utf8_len_app in *.
  pose proof (utf8_len_nonneg t). lia.
Qed.

Lemma longest_prefix_take limit s r :
  (r <= length s)%nat -> utf8_len (take r s) <= limit ->
  (forall i, (r < i <= length s)%nat -> limit < utf8_len (take i s)) ->
  longest_prefix limit s = take r s.
Proof.
  revert limit r. induction s as [|c s IH]; intros limit r Hr Hfit Hlt; [by rewrite take_nil|].
  cbn [longest_prefix]. destruct r as [|r].
  - specialize (Hlt 1%nat ltac:(simpl; lia)). simpl in Hlt.
    case_match; zbool; [lia|done].
  - simpl in Hfit. pose proof (utf8_len_nonneg (take r s)).
    case_match; zbool; [|lia]. simpl. f_equal. apply IH; simpl in *; [lia..|].
    intros i Hi. specialize (Hlt (S i) ltac:(lia)). simpl in Hlt. lia.
Qed.

Lemma longest_prefix_fits limit s : utf8_len s <= limit -> longest_prefix limit s = s.
Proof.
  intros H. rewrite (longest_prefix_take limit s (length s)).
  - by rewrite firstn_all.
  - done.
  - by rewrite firstn_all.
  - intros i Hi. lia.
Qed.

Lemma longest_prefix_prefix limit s : longest_prefix limit s `prefix_of` s.
Proof.
  revert limit. induction s as [|c s IH]; intros limit; [done|]. cbn [longest_prefix].
  case_match; [|apply prefix_nil]. by apply prefix_cons.
Qed.

Lemma longest_prefix_bytes limit s : 0 <= limit -> utf8_len (longest_prefix limit s) <= limit.
Proof.
  revert limit. induction s as [|c s IH]; intros limit Hl; [done|].
  cbn [longest_prefix]. case_match; [|done]. zbool. simpl.
  specialize (IH (limit - utf8_width c)). lia.
Qed.

(** A limit of four bytes always lets one character through. *)
Lemma longest_prefix_progress limit s :
  4 <= limit -> s <> [] -> longest_prefix limit s <> [].
Proof.
  destruct s as [|c s]; intros Hl Hs; [done|]. cbn [longest_prefix].
  pose proof (utf8_width_bounds c). by case_match; zbool; [|lia].
Qed.

(** ** The binary searches *)

Lemma suffix_search_spec fuel s limit low high :
  0 <= low <= high -> high <= len s -> high - low <= Z.of_nat fuel ->
  utf8_len (slice_from high s) <= limit ->
  (forall i, (i < Z.to_nat low)%nat -> limit < utf8_len (drop i s)) ->
  longest_suffix limit s = slice_from (suffix_search fuel s limit low high) s.
Proof.
  revert low high. induction fuel as [|fuel IH]; intros low high Hlh Hh Hf Hhi Hlow;
    cbn [suffix_search].
  - apply longest_suffix_drop; [|done]. unfold slice_from in Hhi.
    by replace low with high by lia.
  - case_match; zbool.
    + assert (low <= (low + high) / 2 < high)
        by (Z.to_euclidean_division_equations; lia).
      case_match; zbool; apply IH; try lia; try done.
      intros i Hi. unfold slice_from in *. eapply Z.lt_le_trans; [done|].
      apply utf8_len_drop_mono. lia.
    + apply longest_suffix_drop; [|done]. unfold slice_from in Hhi.
      by replace low with high by lia.
Qed.

Lemma prefix_search_spec fuel s limit low high :
  0 <= low <= high -> high <= len s -> high - low <= Z.of_nat fuel ->
  utf8_len (slice_to low s) <= limit ->
  (forall i, (Z.to_nat high < i <= length s)%nat -> limit < utf8_len (take i s)) ->
  longest_prefix limit s = slice_to (prefix_search fuel s limit low high) s.
Proof.
  revert low high. induction fuel as [|fuel IH]; intros low high Hlh Hh Hf Hlo Hhigh;
    cbn [prefix_search].
  - apply longest_prefix_take; unfold slice_to, len in *; [lia|done|].
    by replace low with high by lia.
  - case_match; zbool.
    + assert (low < (low + high + 1) / 2 <= high)
        by (Z.to_euclidean_division_equations; lia).
      case_match; zbool; apply IH; try lia; try done.
      intros i Hi. unfold slice_to in *. eapply Z.lt_le_trans; [done|].
      apply utf8_len_take_mono. lia.
    + apply longest_prefix_take; unfold slice_to, len in *; [lia|done|].
      by replace low with high by lia.
Qed.


(** No bytes allowed, nothing kept. *)
Lemma longest_suffix_none limit s : limit <= 0 -> longest_suffix limit s = [].
Proof.
  intros Hl. induction s as [|c s IH]; [done|]. cbn [longest_suffix].
  case_match; zbool; [|done]. by apply utf8_len_zero; lia.
Qed.

Lemma longest_prefix_none limit s : limit <= 0 -> longest_prefix limit s = [].
Proof.
  intros Hl. destruct s as [|c s]; [done|]. cbn [longest_prefix].
  pose proof (utf8_width_bounds c). case_match; zbool; [lia|done].
Qed.

(** ** Theorems: the slicing helpers *)

Lemma suffix_within_bytes_eq s limit :
  suffix_within_bytes s limit = longest_suffix limit s.
Proof.
  unfold suffix_within_bytes. repeat case_match; zbool.
  - by rewrite longest_suffix_none.
  - by rewrite longest_suffix_fits.
  - symmetry. pose proof (len_nonneg s). apply suffix_search_spec; try lia.
    + unfold len. lia.
    + unfold slice_from, len. rewrite Nat2Z.id, drop_all. simpl. lia.
Qed.

Lemma prefix_within_bytes_eq s limit :
  prefix_within_bytes s limit = longest_prefix limit s.
Proof.
  unfold prefix_within_bytes. repeat case_match; zbool.
  - by rewrite longest_prefix_none.
  - by rewrite longest_prefix_fits.
  - symmetry. pose proof (len_nonneg s). apply prefix_search_spec; try lia.
    + unfold len. lia.
    + unfold slice_to. simpl. lia.
    + intros i Hi. unfold len in *. lia.
Qed.

(** [_suffix_within_bytes] and [_prefix_within_bytes] return the longest
    suffix and prefix of their text that encode within the limit, for every text
    and limit: the binary searches agree with the linear references, and as many
    iterations as the text has characters are always enough. *)
Theorem slices_within_bytes s limit :
  suffix_within_bytes s limit = longest_suffix limit s /\
  prefix_within_bytes s limit = longest_prefix limit s.
Proof. split; [apply suffix_within_bytes_eq|apply prefix_within_bytes_eq]. Qed.

(** ** Lemmas on segments *)

Lemma segs_text_cons g segs : segs_text (g :: segs) = seg_text g ++ segs_text segs.
Proof. done. Qed.

Lemma segs_text_app segs segs' :
  segs_text (segs ++ segs') = segs_text segs ++ segs_text segs'.
Proof. unfold segs_text. by rewrite map_app, concat_app. Qed.

Lemma contiguous_len s segs e : contiguous s segs e -> e = s + len (segs_text segs).
Proof.
  revert s. induction segs as [|g segs IH]; intros s; cbn [contiguous].
  - intros ->. change (len (segs_text [])) with 0. lia.
  - intros (_ & _ & _ & H). apply IH in H. rewrite segs_text_cons, len_app. lia.
Qed.

Lemma contiguous_app s segs segs' m e :
  contiguous s segs m -> contiguous m segs' e -> contiguous s (segs ++ segs') e.
Proof.
  revert s. induction segs as [|g segs IH]; intros s; cbn [contiguous app].
  - by intros ->.
  - intros (? & ? & ? & ?) ?. eauto.
Qed.

Lemma contiguous_start s segs e :
  contiguous s segs e ->
  contiguous (match segs with [] => e | g :: _ => seg_start g end) segs e.
Proof. destruct segs as [|g segs]; cbn [contiguous]; [done|]. by intros (<- & ?). Qed.

Lemma longest_suffix_app_long limit s t :
  limit <= utf8_len t -> longest_suffix limit (s ++ t) = longest_suffix limit t.
Proof.
  intros Ht. induction s as [|c s IH]; [done|]. rewrite <-app_comm_cons.
  cbn [longest_suffix utf8_len]. rewrite utf8_len_app.
  pose proof (utf8_width_bounds c). pose proof (utf8_len_nonneg s).
  case_match; zbool; [lia|done].
Qed.

Lemma longest_suffix_app_short limit s t :
  utf8_len t <= limit ->
  longest_suffix limit (s ++ t) = longest_suffix (limit - utf8_len t) s ++ t.
Proof.
  intros Ht. induction s as [|c s IH]; [by apply longest_suffix_fits|].
  rewrite <-app_comm_cons. cbn [longest_suffix utf8_len]. rewrite utf8_len_app.
  case_match; case_match; zbool; try lia; done.
Qed.

Lemma longest_suffix_ne limit s :
  0 <= limit < utf8_len s -> longest_suffix limit s <> s.
Proof.
  intros [Hl Hlt] Heq. pose proof (longest_suffix_bytes limit s Hl) as Hb.
  rewrite Heq in Hb. lia.
Qed.

Lemma suffix_of_shorter (k l : pystr) : k `suffix_of` l -> k <> l -> len k < len l.
Proof.
  intros [p ->] Hne. rewrite len_app. pose proof (len_nonneg p).
  destruct p; [done|]. rewrite len_cons. pose proof (len_nonneg p). lia.
Qed.

(** What the loop of [_enforce_limit] leaves of a covered range. *)
Lemma enforce_loop_spec max segs : forall s e flag segs' retained' flag',
  1 <= max -> contiguous s segs e ->
  enforce_loop max segs (utf8_len (segs_text segs)) flag = (segs', retained', flag') ->
  (exists s', contiguous s' segs' e) /\
  retained' = utf8_len (segs_text segs') /\
  segs_text segs' = longest_suffix max (segs_text segs) /\
  flag' = flag || bool_decide (segs_text segs' <> segs_text segs).
Proof.
  induction segs as [|g segs IH]; intros s e flag segs' retained' flag' Hmax Hc;
    cbn [enforce_loop]; [intros [= <- <- <-]; cbn in *; rewrite orb_false_r; by eauto|].
  rewrite segs_text_cons, utf8_len_app. pose proof Hc as (Hstart & Hne & Hbytes & Hrest).
  pose proof (utf8_len_nonneg (segs_text segs)) as Hnn.
  case_match; zbool.
  2: { intros [= <- <- <-]. rewrite segs_text_cons, utf8_len_app.
       rewrite longest_suffix_fits by (rewrite utf8_len_app; lia).
       rewrite bool_decide_eq_false_2, orb_false_r by naive_solver. eauto 10. }
  destruct ((byte_count g <=? _) && _) eqn:Epop.
  - apply andb_prop in Epop as [Hle _]. zbool. rewrite Hbytes in *.
    replace (_ - _) with (utf8_len (segs_text segs)) by lia.
    intros Hloop. eapply IH in Hloop as (? & ? & Ht & ->); [|done..].
    rewrite longest_suffix_app_long by lia. split_and!; [done..|].
    rewrite orb_true_l, bool_decide_eq_true_2; [by rewrite orb_true_r|].
    rewrite Ht. intros Heq. apply (f_equal len) in Heq. rewrite len_app in Heq.
    destruct (longest_suffix_suffix max (segs_text segs)) as [k Hk].
    apply (f_equal len) in Hk. rewrite len_app in Hk.
    pose proof (len_nonneg k). pose proof (len_nonneg (seg_text g)).
    by apply Hne, len_zero; lia.
  - assert (Hlt : utf8_len (segs_text segs) < max).
    { apply andb_false_iff in Epop as [?|Hsingle]; zbool; [lia|].
      destruct segs; [simpl; lia|]. rewrite !len_cons in Hsingle.
      pose proof (len_nonneg segs). lia. }
    rewrite suffix_within_bytes_eq, longest_suffix_app_short by lia.
    replace (Z.max 0 _) with (max - utf8_len (segs_text segs)) by lia.
    set (kept := longest_suffix _ (seg_text g)).
    assert (Hkept : kept <> seg_text g) by (apply longest_suffix_ne; lia).
    intros [= <- <- <-].
    rewrite bool_decide_eq_true_2, orb_true_r by
      (destruct kept; rewrite ?segs_text_cons; cbn [seg_text]; intros Heq;
       apply Hkept; eapply (app_inv_tail (segs_text segs)); exact Heq).
    destruct kept as [|c t] eqn:Ek; rewrite ?segs_text_cons, ?utf8_len_app;
      cbn [seg_text]; (split_and!; [| |done|done]); [|rewrite Hbytes; cbn; lia| |rewrite Hbytes; lia].
    + exists (s + len (seg_text g)). done.
    + exists (s + (len (seg_text g) - len (c :: t))). cbn [contiguous seg_start seg_text byte_count].
      split_and!; [lia|done|done|]. by replace (s + _ + len (c :: t)) with (s + len (seg_text g)) by lia.
Qed.

(** ** Lemmas on represented streams *)

Lemma represents_start b all :
  represents b all ->
  retained_start b + len (segs_text (segments b)) = len all /\
  0 <= retained_start b /\
  segs_text (segments b) = slice_from (retained_start b) all.
Proof.
  intros [? Hend Hc _ Ht _]. apply contiguous_len in Hc.
  destruct (longest_suffix_suffix (max_bytes b) all) as [k Hk].
  rewrite <-Ht in Hk. pose proof (f_equal len Hk) as Hlen. rewrite len_app in Hlen.
  pose proof (len_nonneg k). split_and!; [lia|lia|].
  assert (retained_start b = len k) as -> by lia.
  unfold slice_from, len. rewrite Nat2Z.id, Hk. by rewrite drop_app_length.
Qed.

(** Segments that start at or after [start] are read whole. *)
Lemma pieces_after_all segs : forall s e start,
  contiguous s segs e -> start <= s -> pieces_after start segs = segs_text segs.
Proof.
  induction segs as [|g segs IH]; intros s e start; cbn [contiguous pieces_after]; [done|].
  intros (Hs & Hne & _ & Hc) Hle. unfold seg_end. rewrite segs_text_cons.
  assert (len (seg_text g) <> 0) by by rewrite len_zero.
  pose proof (len_nonneg (seg_text g)).
  case_match; zbool; [lia|]. rewrite Z.max_l by lia.
  unfold slice_from. rewrite drop_0. f_equal. apply (IH _ _ _ Hc). lia.
Qed.

Lemma pieces_after_drop segs : forall s e start,
  contiguous s segs e -> s <= start ->
  pieces_after start segs = slice_from (start - s) (segs_text segs).
Proof.
  unfold slice_from.
  induction segs as [|g segs IH]; intros s e start; cbn [contiguous pieces_after].
  - intros _ _. change (segs_text []) with (@nil Z). by rewrite drop_nil.
  - intros (Hs & ? & ? & Hc) Hle. rewrite segs_text_cons, drop_app. unfold seg_end.
    case_match; zbool.
    + rewrite drop_ge by (unfold len in *; lia). simpl.
      rewrite (IH _ _ _ Hc) by lia. f_equal. unfold len in *. lia.
    + rewrite Hs, Z.max_r, (pieces_after_all _ _ _ _ Hc) by lia.
      replace (Z.to_nat (start - s) - length (seg_text g))%nat with 0%nat
        by (unfold len in *; lia). by rewrite drop_0.
Qed.

(** ** Theorems: the buffer *)

(** A new buffer with a positive limit represents the empty stream, and any
    other limit is refused. *)
Lemma new_buffer_represents n :
  match new_buffer n with Ok b => max_bytes b = n /\ represents b [] | Raise _ => n < 1 end.
Proof.
  unfold new_buffer. destruct (n <? 1) eqn:?; zbool; [done|]. split; [done|].
  by split.
Qed.

(** Appending a chunk appends it to the represented stream. *)
Lemma append_represents b all s count :
  represents b all -> represents (append b s count) (all ++ s).
Proof.
  intros [Hmax Hend Hc Hb Ht Hf]. destruct s as [|c s]; [by rewrite app_nil_r|].
  unfold append, enforce_limit.
  cbn [max_bytes segments retained_bytes end_offset total_bytes was_truncated].
  set (g := mk_segment (end_offset b) (c :: s) (utf8_len (c :: s))).
  assert (Hcover : contiguous (retained_start b) (segments b ++ [g])
                              (end_offset b + len (c :: s))).
  { by eapply contiguous_app. }
  assert (Hbytes : retained_bytes b + utf8_len (c :: s)
                   = utf8_len (segs_text (segments b ++ [g]))).
  { rewrite segs_text_app, utf8_len_app, Hb. f_equal. cbn. by rewrite app_nil_r. }
  rewrite Hbytes.
  destruct (enforce_loop _ _ _ _) as [[segs n] flag] eqn:Eloop.
  eapply enforce_loop_spec in Eloop as ((s' & Hs') & Hn & Htext & Hflag); [|done..].
  assert (Hall : segs_text (segments b ++ [g]) = segs_text (segments b) ++ c :: s).
  { rewrite segs_text_app. cbn. by rewrite app_nil_r. }
  rewrite Hall in Htext, Hflag.
  split; cbn [max_bytes segments retained_bytes end_offset total_bytes was_truncated].
  - done.
  - rewrite Hend, len_app. done.
  - by eapply contiguous_start.
  - done.
  - rewrite Htext, Ht. apply longest_suffix_app.
  - rewrite Hflag, Hf, Htext, Ht, longest_suffix_app.
    destruct (longest_suffix_suffix (max_bytes b) all) as [k Hk].
    set (old := longest_suffix (max_bytes b) all) in *.
    destruct (decide (old = all)) as [->|Hne].
    + by rewrite (bool_decide_eq_false_2 (all <> all)) by naive_solver.
    + rewrite (bool_decide_eq_true_2 (old <> all)) by done. symmetry.
      apply bool_decide_eq_true_2. intros Heq.
      assert (Hsuf : all ++ c :: s `suffix_of` old ++ c :: s).
      { rewrite <-Heq at 1. subst old. rewrite <-longest_suffix_app.
        apply longest_suffix_suffix. }
      apply suffix_length in Hsuf. rewrite !length_app in Hsuf.
      destruct k as [|x k]; [by rewrite app_nil_l in Hk|].
      apply (f_equal length) in Hk. rewrite length_app in Hk. simpl in *. lia.
Qed.

(** Chunks appended one after the other, each with its reported byte count. *)
Definition append_all (b : BoundedTextBuffer) (chunks : list (pystr * option Z))
    : BoundedTextBuffer :=
  foldl (fun b chunk => append b chunk.1 chunk.2) b chunks.

Lemma append_all_represents chunks : forall b all,
  represents b all -> represents (append_all b chunks) (all ++ concat chunks.*1).
Proof.
  induction chunks as [|s chunks IH]; intros b all Hb; cbn; [by rewrite app_nil_r|].
  rewrite app_assoc. by apply IH, append_represents.
Qed.

(** C16: after any sequence of appends to a new buffer, whatever was dropped on
    the way, the buffer keeps exactly the longest suffix of the whole stream
    that encodes within its limit; its segments are non-empty, consecutive and
    cover that suffix up to the end offset, its byte count is exact, and the
    truncation flag is set exactly when something of the stream is gone. *)
Theorem stream_represented n b chunks :
  new_buffer n = Ok b ->
  represents (append_all b chunks) (concat chunks.*1).
Proof.
  intros Hb. pose proof (new_buffer_represents n) as Hn. rewrite Hb in Hn.
  by apply (append_all_represents chunks b []), Hn.
Qed.

(** [read_after] returns, from the first retained character at or after
    the requested offset, the longest prefix within the byte limit, the offset
    after it, and [truncated] exactly when characters between the requested
    offset and the end of the stream are missing from the answer.  With a limit
    of at least four bytes a read that starts before the end makes progress. *)
Theorem read_after_spec b all offset limit :
  represents b all -> 1 <= limit ->
  exists r, read_after b offset limit = Ok r /\
    let requested := Z.max 0 (Z.min offset (len all)) in
    let start := Z.max requested (retained_start b) in
    text r = longest_prefix limit (slice_from start all) /\
    next_offset r = start + len (text r) /\
    truncated r = bool_decide (text r <> slice_from requested all) /\
    (4 <= limit -> start < len all -> start < next_offset r).
Proof.
  intros Hrep Hlimit. pose proof (represents_start _ _ Hrep) as (Hlen & Hnn & Htext).
  destruct Hrep as [_ Hend Hc _ _ _].
  unfold read_after. case_match; zbool; [lia|]. rewrite Hend in *.
  eexists. split; [done|]. cbn [text next_offset truncated].
  set (requested := Z.max 0 (Z.min offset (len all))).
  set (start := Z.max requested (retained_start b)).
  assert (Hstart : 0 <= start <= len all).
  { pose proof (len_nonneg all). pose proof (len_nonneg (segs_text (segments b))). lia. }
  assert (Hpieces : pieces_after start (segments b) = slice_from start all).
  { rewrite (pieces_after_drop _ _ _ _ Hc) by lia. rewrite Htext. unfold slice_from.
    rewrite drop_drop. f_equal. lia. }
  rewrite Hpieces, prefix_within_bytes_eq. split_and!; [done|done| |].
  - destruct (longest_prefix_prefix limit (slice_from start all)) as [k Hk].
    pose proof (f_equal len Hk) as Hklen. rewrite len_app in Hklen.
    set (sel := longest_prefix limit (slice_from start all)) in *.
    pose proof (len_nonneg k). pose proof (len_nonneg sel).
    assert (Hl1 : len (slice_from start all) = len all - start)
      by (unfold slice_from; rewrite len_drop; lia).
    assert (Hl2 : len (slice_from requested all) = len all - requested)
      by (unfold slice_from; rewrite len_drop; lia).
    destruct (decide (sel = slice_from requested all)) as [Heq|Hne].
    + rewrite bool_decide_eq_false_2 by naive_solver.
      rewrite Heq in *. apply orb_false_iff. rewrite !Z.ltb_ge. lia.
    + rewrite bool_decide_eq_true_2 by done. apply orb_true_iff. rewrite !Z.ltb_lt.
      destruct (decide (requested < retained_start b)); [by left|right].
      destruct (decide (k = [])) as [->|Hk0]; [|rewrite <-len_zero in Hk0; lia].
      rewrite app_nil_r in Hk. exfalso. apply Hne. rewrite <-Hk. f_equal. lia.
  - intros H4 Hlt.
    assert (Hne : slice_from start all <> []).
    { rewrite <-len_zero. unfold slice_from. rewrite len_drop. lia. }
    pose proof (longest_prefix_progress limit _ H4 Hne) as Hp.
    rewrite <-len_zero in Hp. pose proof (len_nonneg (longest_prefix limit (slice_from start all))).
    lia.
Qed.

(** [retained] reports the longest suffix of the stream within the limit,
    the end of the stream, and whether anything was dropped. *)
Theorem retained_spec b all :
  represents b all ->
  retained b = mk_read (longest_suffix (max_bytes b) all) (len all)
                       (bool_decide (longest_suffix (max_bytes b) all <> all)).
Proof.
  intros Hrep. pose proof (represents_start _ _ Hrep) as (Hlen & Hnn & Htext).
  destruct Hrep as [_ Hend _ _ Ht Hf]. unfold retained. rewrite Hf, Hend, Ht. f_equal.
  rewrite Ht in *. case_bool_decide as Hd; [done|]. simpl.
  rewrite Z.gtb_ltb. apply Z.ltb_ge. rewrite Hd in *. lia.
Qed.

(** A five-byte buffer after ["ab"], ["é…"] and ["z"]: only ["…z"] still fits. *)
Definition sample_buffer : BoundedTextBuffer :=
  append_all (mk_buffer 5 [] 0 0 0 false) [($"ab", None); ($"é…", None); ($"z", Some 1)].

Example sample_buffer_retained :
  retained sample_buffer = mk_read $"…z" 5 true /\
  read_after sample_buffer 3 3 = Ok (mk_read $"…" 4 true).
Proof. by vm_compute. Qed.

Lemma sample_buffer_represents : represents sample_buffer $"abé…z".
Proof.
  apply (append_all_represents [($"ab", None); ($"é…", None); ($"z", Some 1)] (mk_buffer 5 [] 0 0 0 false) []).
  by split.
Defined.

Lemma stream_represented_witness : represents sample_buffer $"abé…z".
Proof.
  exact (stream_represented 5 (mk_buffer 5 [] 0 0 0 false)
           [($"ab", None); ($"é…", None); ($"z", Some 1)] eq_refl).
Defined.

Lemma read_after_spec_witness :
  exists r, read_after sample_buffer 0 4 = Ok r /\ text r = $"…z" /\ truncated r = true.
Proof.
  destruct (read_after_spec sample_buffer $"abé…z" 0 4 sample_buffer_represents
              ltac:(lia)) as (r & Hr & Htext & _ & Htr & _).
  exists r. split; [exact Hr|]. split; [rewrite Htext; by vm_compute|].
  rewrite Htr, Htext. by vm_compute.
Defined.

Lemma retained_spec_witness :
  retained sample_buffer
  = mk_read (longest_suffix 5 $"abé…z") 5 (bool_decide (longest_suffix 5 $"abé…z" <> $"abé…z")).
Proof. exact (retained_spec sample_buffer $"abé…z" sample_buffer_represents). Defined.
