(* ===== verification/ToolHistory.v ===== *)
(** * Tool-call adjacency (domain/llm/tool_history.py)

    Providers require every assistant tool call to be followed at once by one
    tool message per call, in call order.  [reconcile_tool_call_adjacency]
    rebuilds a history so that it satisfies this contract; [contract] states
    it, and the theorems relate the two. *)

From S2P Require Import Prelude PyValue.

Abbreviation message := pydict.

(** ** Reading a message *)

Definition role_is (m : message) (r : pystr) : bool := is_str (dget_none m $"role") r.
Definition is_tool (m : message) : bool := role_is m $"tool".
Definition is_assistant (m : message) : bool := role_is m $"assistant".

(** [str(message.get("tool_call_id") or "").strip()]. *)
Definition response_id (m : message) : pystr :=
  strip (str_or_empty (dget_none m $"tool_call_id")).

(** [str(tool_call.get("id") or "").strip()]. *)
Definition call_id (call : pydict) : pystr := strip (str_or_empty (dget_none call $"id")).

(** [content is None or not str(content).strip()]. *)
Definition blank_content (v : pyval) : bool :=
  match v with VNone => true | _ => bool_decide (strip (py_str v) = []) end.

Definition output_missing (tool_name : pystr) : pystr :=
  $"Tool '" ++ tool_name ++ $"' output missing.".

(** ** State of the repair *)

Abbreviation response_queues := (gmap pystr (list (Z * message))).

Record Repair := mk_repair {
  repaired : list message;
  responses : response_queues;
  synthesized : Z;
  consumed : Z;
  reordered : Z;
  filled_content : Z;
}.

Record MutationCounts := mk_counts {
  count_synthesized : Z;
  count_reordered : Z;
  count_discarded : Z;
  count_filled : Z;
}.

(** ** Operations *)

(** [responses[id].append((index, message))] on a [defaultdict(list)]. *)
Definition push_response (q : response_queues) (id : pystr) (r : Z * message)
    : response_queues :=
  <[id := default [] (q !! id) ++ [r]]> q.

(** The first loop: tool messages by call identifier, and how many there are. *)
Fixpoint collect_responses (index : Z) (messages : list message)
    (q : response_queues) (count : Z) : response_queues * Z :=
  match messages with
  | [] => (q, count)
  | m :: rest =>
    if is_tool m then
      let q := if decide (response_id m = []) then q
               else push_response q (response_id m) (index, m) in
      collect_responses (index + 1) rest q (count + 1)
    else collect_responses (index + 1) rest q count
  end.

Section Reconcile.
Context (missing_content : option (pystr -> pystr -> pystr)).

Definition missing_text (id tool_name : pystr) : pystr :=
  match missing_content with
  | Some f => f id tool_name
  | None => output_missing tool_name
  end.

(** [{"role": "tool", "tool_call_id": id, "content": content}]. *)
Definition synthesized_response (id tool_name : pystr) : message :=
  [($"role", VStr $"tool"); ($"tool_call_id", VStr id);
   ($"content", VStr (missing_text id tool_name))].

(** The body of the inner loop, for one tool call. *)
Definition answer_call (st : Repair) (tool_call : pyval) : result Repair :=
  call ← as_dict tool_call;
  let id := call_id call in
  if decide (id = []) then Ok st
  else
    fn ← as_dict (py_or (dget_none call $"function") (VDict []));
    let tool_name := py_str (py_or (dget_none fn $"name") (VStr $"unknown_tool")) in
    match responses st !! id with
    | Some ((original_index, response) :: queue) =>
      let content := dget_none response $"content" in
      let blank := blank_content content in
      let response := if blank
        then dset response $"content" (VStr (output_missing tool_name))
        else response in
      Ok (mk_repair (repaired st ++ [response]) (<[id := queue]> (responses st))
                    (synthesized st) (consumed st + 1)
                    (reordered st
                     + if original_index =? len (repaired st) then 0 else 1)
                    (filled_content st + if blank then 1 else 0))
    | _ =>
      Ok (mk_repair (repaired st ++ [synthesized_response id tool_name]) (responses st)
                    (synthesized st + 1) (consumed st) (reordered st)
                    (filled_content st))
    end.

Fixpoint answer_calls (st : Repair) (calls : list pyval) : result Repair :=
  match calls with
  | [] => Ok st
  | c :: rest => st ← answer_call st c; answer_calls st rest
  end.

(** The body of the outer loop, for one message. *)
Definition reconcile_message (st : Repair) (m : message) : result Repair :=
  if is_tool m then Ok st
  else
    let st := mk_repair (repaired st ++ [m]) (responses st) (synthesized st)
                        (consumed st) (reordered st) (filled_content st) in
    if is_assistant m then
      calls ← iter_or_empty (dget_none m $"tool_calls");
      answer_calls st calls
    else Ok st.

Fixpoint reconcile_messages (st : Repair) (messages : list message) : result Repair :=
  match messages with
  | [] => Ok st
  | m :: rest => st ← reconcile_message st m; reconcile_messages st rest
  end.

(** The whole function: the repaired history, the number of synthesized
    responses, and what goes into [mutation_counts]. *)
Definition reconcile_tool_call_adjacency (messages : list message)
    : result (list message * Z * MutationCounts) :=
  let '(q, tool_message_count) := collect_responses 0 messages ∅ 0 in
  st ← reconcile_messages (mk_repair [] q 0 0 0 0) messages;
  Ok (repaired st, synthesized st,
      mk_counts (synthesized st) (reordered st) (tool_message_count - consumed st)
                (filled_content st)).

End Reconcile.

(** ** Specification *)

(** The identifiers of the calls a message makes, in order. *)
Definition valid_call_ids (calls : list pyval) : list pystr :=
  omap (fun v => match v with
                 | VDict call => if decide (call_id call = []) then None
                                 else Some (call_id call)
                 | _ => None end) calls.

Definition message_call_ids (m : message) : list pystr :=
  if is_assistant m then
    match iter_or_empty (dget_none m $"tool_calls") with
    | Ok calls => valid_call_ids calls
    | Raise _ => []
    end
  else [].

Definition answers (id : pystr) (r : message) : Prop :=
  is_tool r = true /\ response_id r = id.

(** The provider contract: every message other than a tool message is followed
    by exactly one answer per call it makes, in call order. *)
Inductive contract : list message -> Prop :=
| contract_nil : contract []
| contract_block m rs rest :
    is_tool m = false ->
    Forall2 answers (message_call_ids m) rs ->
    contract rest ->
    contract (m :: rs ++ rest).

(** Messages the code can read: tool calls are dictionaries with a dictionary
    (or nothing) as function. *)
Definition call_wf (v : pyval) : Prop :=
  match v with
  | VDict call => call_id call = [] \/
                  is_ok (as_dict (py_or (dget_none call $"function") (VDict []))) = true
  | _ => False
  end.

Definition message_wf (m : message) : Prop :=
  is_tool m = false -> is_assistant m = true ->
  match iter_or_empty (dget_none m $"tool_calls") with
  | Ok calls => Forall call_wf calls
  | Raise _ => False
  end.

(** ** Lemmas *)

Lemma answers_synthesized f id name :
  strip id = id -> answers id (synthesized_response f id name).
Proof.
  intros Hid. split; [done|]. unfold response_id, str_or_empty. by destruct id.
Qed.

Lemma answers_fill id r v : answers id r -> answers id (dset r $"content" v).
Proof.
  unfold answers, is_tool, role_is, response_id, dget_none.
  by rewrite !dget_dset_ne by done.
Qed.

(** An answer with something to read. *)
Definition visible_answer (m : message) : Prop :=
  is_tool m = true -> blank_content (dget_none m $"content") = false.

(** The callback never returns a blank text (the default one does not). *)
Definition texts_visible (f : option (pystr -> pystr -> pystr)) : Prop :=
  forall id name, strip (missing_text f id name) <> [].

Lemma default_texts_visible : texts_visible None.
Proof. intros id name. by apply strip_visible. Qed.

Lemma visible_synthesized f id name :
  texts_visible f -> visible_answer (synthesized_response f id name).
Proof. intros Hf _. apply bool_decide_eq_false_2, Hf. Qed.

Lemma visible_fill r name :
  visible_answer
    (if blank_content (dget_none r $"content")
     then dset r $"content" (VStr (output_missing name)) else r).
Proof.
  intros _. destruct (blank_content (dget_none r _)) eqn:Hb; [|done].
  unfold dget_none. cbv iota. rewrite dget_dset_eq. apply bool_decide_eq_false_2. by apply strip_visible.
Qed.

Lemma call_id_strip call : strip (call_id call) = call_id call.
Proof. apply strip_idemp. Qed.

(** Every queued response answers the identifier it is queued under. *)
Definition queues_ok (q : response_queues) : Prop :=
  forall id l, q !! id = Some l -> Forall (fun r => answers id r.2) l.

Lemma queues_ok_push q i m :
  queues_ok q -> is_tool m = true -> queues_ok (push_response q (response_id m) (i, m)).
Proof.
  intros Hq Hm id l. unfold push_response. rewrite lookup_insert. case_decide; [|apply Hq].
  intros [= <-]. subst id. apply Forall_app. split; [|by repeat constructor].
  destruct (q !! _) eqn:E; [by apply Hq|constructor].
Qed.

Lemma collect_responses_ok ms : forall i q n,
  queues_ok q -> queues_ok (collect_responses i ms q n).1.
Proof.
  induction ms as [|m ms IH]; intros i q n Hq; cbn [collect_responses]; [done|].
  destruct (is_tool m) eqn:?; [|by apply IH]. case_decide; apply IH; auto using queues_ok_push.
Qed.

Definition count_tools (ms : list message) : Z := len (filter (fun m => is_tool m = true) ms).

Lemma count_tools_app ms ms' : count_tools (ms ++ ms') = count_tools ms + count_tools ms'.
Proof. unfold count_tools. by rewrite filter_app, len_app. Qed.

Lemma count_tools_cons m ms :
  count_tools (m :: ms) = (if is_tool m then 1 else 0) + count_tools ms.
Proof.
  unfold count_tools. rewrite filter_cons. destruct (is_tool m); simpl;
    [by rewrite len_cons|done].
Qed.

Lemma count_tools_nil : count_tools [] = 0.
Proof. done. Qed.

Lemma count_tools_one m : is_tool m = true -> count_tools [m] = 1.
Proof. intros Hm. by rewrite count_tools_cons, Hm. Qed.

Lemma collect_responses_count ms : forall i q n,
  (collect_responses i ms q n).2 = n + count_tools ms.
Proof.
  induction ms as [|m ms IH]; intros i q n; cbn [collect_responses].
  - rewrite count_tools_nil. cbn. lia.
  - rewrite count_tools_cons. destruct (is_tool m); rewrite IH; lia.
Qed.

Lemma count_tools_answers ids rs : Forall2 answers ids rs -> count_tools rs = len rs.
Proof.
  induction 1 as [|id r ids rs [Hr _] _ IH]; [done|].
  rewrite count_tools_cons, len_cons, Hr. lia.
Qed.

(** What one step of the repair adds. *)
Record extends (f : option (pystr -> pystr -> pystr)) (st st' : Repair)
    (added : list message) : Prop := {
  ext_repaired : repaired st' = repaired st ++ added;
  ext_visible : texts_visible f -> Forall visible_answer added;
  ext_queues : queues_ok (responses st) -> queues_ok (responses st');
  ext_count : synthesized st' + consumed st' = synthesized st + consumed st + count_tools added;
}.

Lemma extends_refl f st : extends f st st [].
Proof. split; [by rewrite app_nil_r|done|done|]. rewrite count_tools_nil. lia. Qed.

Lemma extends_trans f st1 st2 st3 k l :
  extends f st1 st2 k -> extends f st2 st3 l -> extends f st1 st3 (k ++ l).
Proof.
  intros [H1 H1' H2 H3] [H4 H4' H5 H6]. split.
  - by rewrite H4, H1, app_assoc.
  - intros Hf. apply Forall_app. auto.
  - auto.
  - rewrite count_tools_app. lia.
Qed.

Section ReconcileLemmas.
Context (f : option (pystr -> pystr -> pystr)).

Lemma answer_call_spec st v :
  queues_ok (responses st) -> call_wf v ->
  exists st' rs, answer_call f st v = Ok st' /\ extends f st st' rs /\
                 Forall2 answers (valid_call_ids [v]) rs.
Proof.
  intros Hq Hwf. destruct v as [| | | | | |call]; try done. unfold answer_call.
  cbn [call_wf as_dict mbind result_bind valid_call_ids omap list_omap] in *.
  destruct (decide (call_id call = [])) as [Hid|Hid].
  { exists st, []. eauto using extends_refl. }
  destruct Hwf as [?|Hwf]; [done|].
  destruct (as_dict (py_or (dget_none call $"function") (VDict []))) as [fn|]; [|done].
  destruct (responses st !! call_id call) as [[|[i r] queue]|] eqn:Eq.
  - eexists _, [_]. split; [done|]. split; [|by repeat constructor; apply answers_synthesized, call_id_strip].
    split; cbn [repaired responses synthesized consumed];
      [done|by repeat constructor; apply visible_synthesized|done|].
    rewrite count_tools_one by done. lia.
  - pose proof (Hq _ _ Eq) as Hr. inversion_clear Hr as [|? ? Ha Hqueue].
    eexists _, [_]. split; [done|]. split.
    + split; cbn [repaired responses synthesized consumed];
        [done|by repeat constructor; apply visible_fill| |].
      * intros _ id l. rewrite lookup_insert. case_decide; [|apply Hq]. intros [= <-]. by subst.
      * set (r' := if blank_content _ then _ else _).
        assert (answers (call_id call) r') as [Hr' _] by (subst r'; case_match; auto using answers_fill).
        rewrite count_tools_one by done. lia.
    + constructor; [|constructor]. case_match; auto using answers_fill.
  - eexists _, [_]. split; [done|]. split; [|by repeat constructor; apply answers_synthesized, call_id_strip].
    split; cbn [repaired responses synthesized consumed];
      [done|by repeat constructor; apply visible_synthesized|done|].
    rewrite count_tools_one by done. lia.
Qed.

Lemma valid_call_ids_cons v calls :
  valid_call_ids (v :: calls) = valid_call_ids [v] ++ valid_call_ids calls.
Proof. unfold valid_call_ids. cbn. by destruct v; try done; case_decide. Qed.

Lemma answer_calls_spec calls : forall st,
  queues_ok (responses st) -> Forall call_wf calls ->
  exists st' rs, answer_calls f st calls = Ok st' /\ extends f st st' rs /\
                 Forall2 answers (valid_call_ids calls) rs.
Proof.
  induction calls as [|v calls IH]; intros st Hq Hwf.
  { exists st, []. eauto using extends_refl. }
  inversion_clear Hwf as [|? ? Hv Hcalls].
  destruct (answer_call_spec st v Hq Hv) as (st1 & rs1 & H1 & He1 & Ha1).
  destruct (IH st1) as (st2 & rs2 & H2 & He2 & Ha2); [by apply (ext_queues _ _ _ _ He1)|done|].
  exists st2, (rs1 ++ rs2). split; [cbn [answer_calls]; by rewrite H1|].
  rewrite valid_call_ids_cons. eauto using extends_trans, Forall2_app.
Qed.

(** One message: a tool message adds nothing, another adds itself and its
    answers. *)
Lemma reconcile_message_spec st m :
  queues_ok (responses st) -> message_wf m ->
  exists st' rs, reconcile_message f st m = Ok st' /\
    if is_tool m then st' = st
    else extends f st st' (m :: rs) /\ Forall2 answers (message_call_ids m) rs.
Proof.
  intros Hq Hwf. unfold reconcile_message, message_wf, message_call_ids in *.
  destruct (is_tool m) eqn:Htool; [by exists st, []|].
  set (st1 := mk_repair _ _ _ _ _ _).
  assert (He : extends f st st1 [m]).
  { split; [done|by repeat constructor; unfold visible_answer; rewrite Htool|done|].
    cbn. rewrite count_tools_cons, Htool, count_tools_nil. lia. }
  destruct (is_assistant m) eqn:Ha; [|by exists st1, []].
  specialize (Hwf eq_refl eq_refl).
  destruct (iter_or_empty _) as [calls|]; [|done]. cbn.
  destruct (answer_calls_spec calls st1) as (st2 & rs & H2 & He2 & Ha2); [done..|].
  exists st2, rs. split; [done|]. split; [|done].
  by apply (extends_trans _ _ _ _ [m] rs He He2).
Qed.

Lemma reconcile_messages_spec ms : forall st,
  queues_ok (responses st) -> Forall message_wf ms ->
  exists st' out, reconcile_messages f st ms = Ok st' /\ extends f st st' out /\
    contract out /\
    filter (fun m => is_tool m = false) out = filter (fun m => is_tool m = false) ms.
Proof.
  induction ms as [|m ms IH]; intros st Hq Hwf; cbn [reconcile_messages].
  { exists st, []. eauto using extends_refl, contract. }
  inversion_clear Hwf as [|? ? Hm Hms].
  destruct (reconcile_message_spec st m Hq Hm) as (st1 & rs & -> & H1).
  cbn [mbind result_bind]. rewrite filter_cons. destruct (is_tool m) eqn:Htool.
  - subst st1. by apply IH.
  - destruct H1 as [He1 Hrs].
    destruct (IH st1) as (st2 & out & -> & He2 & Hc & Hf); [by apply (ext_queues _ _ _ _ He1)|done|].
    exists st2, (m :: rs ++ out). split; [done|]. split; [|split].
    + by apply (extends_trans _ _ _ _ (m :: rs) out He1 He2).
    + by apply contract_block.
    + rewrite filter_cons, Htool, filter_app. simpl. f_equal. rewrite <-Hf.
      assert (filter (fun m => is_tool m = false) rs = []) as ->; [|done].
      clear -Hrs. induction Hrs as [|id r ids rs [Hr _] _ IHr]; [done|].
      by rewrite filter_cons, Hr.
Qed.

End ReconcileLemmas.

(** ** Theorems *)

Lemma reconcile_spec f ms :
  Forall message_wf ms ->
  exists out st, reconcile_tool_call_adjacency f ms
                 = Ok (out, synthesized st,
                       mk_counts (synthesized st) (reordered st)
                                 (count_tools ms - consumed st) (filled_content st)) /\
    extends f (mk_repair [] (collect_responses 0 ms ∅ 0).1 0 0 0 0) st out /\
    contract out /\
    filter (fun m => is_tool m = false) out = filter (fun m => is_tool m = false) ms.
Proof.
  intros Hwf. unfold reconcile_tool_call_adjacency.
  pose proof (collect_responses_count ms 0 ∅ 0) as Hcount.
  pose proof (collect_responses_ok ms 0 ∅ 0) as Hok.
  destruct (collect_responses 0 ms ∅ 0) as [q n]. cbn in Hcount, Hok. subst n.
  destruct (reconcile_messages_spec f ms (mk_repair [] q 0 0 0 0))
    as (st & out & Hst & Hext & Hc & Hf); [by apply Hok|done|].
  exists out, st. rewrite Hst. cbn. rewrite (ext_repaired _ _ _ _ Hext), Z.add_0_l. done.
Qed.

(** C18: for every readable history [reconcile_tool_call_adjacency] succeeds; the
    result satisfies the provider contract, keeps every message other than the
    tool messages unchanged and in order, and the counts account for every tool
    message: those of the result are those of the input, less the discarded
    ones, plus the synthesized ones. *)
Theorem reconcile_contract f ms :
  Forall message_wf ms ->
  exists out n counts, reconcile_tool_call_adjacency f ms = Ok (out, n, counts) /\
    contract out /\
    filter (fun m => is_tool m = false) out = filter (fun m => is_tool m = false) ms /\
    count_synthesized counts = n /\
    count_tools out = count_tools ms - count_discarded counts + n.
Proof.
  intros Hwf. destruct (reconcile_spec f ms Hwf) as (out & st & -> & Hext & Hc & Hf).
  eexists out, _, _. split_and!; [done..|]. pose proof (ext_count _ _ _ _ Hext). cbn in *. lia.
Qed.

(** The queue of responses to [id] among the messages [ms], the first of which
    has index [i]. *)
Fixpoint queue_of (i : Z) (ms : list message) (id : pystr) : list (Z * message) :=
  match ms with
  | [] => []
  | m :: rest =>
    (if is_tool m && bool_decide (response_id m = id) then [(i, m)] else [])
    ++ queue_of (i + 1) rest id
  end.

(** The queues hold exactly the responses still ahead. *)
Definition queues_ahead (q : response_queues) (i : Z) (ms : list message) : Prop :=
  forall id, id <> [] -> default [] (q !! id) = queue_of i ms id.

Lemma collect_responses_queues ms : forall i q n id,
  id <> [] ->
  default [] ((collect_responses i ms q n).1 !! id) = default [] (q !! id) ++ queue_of i ms id.
Proof.
  induction ms as [|m ms IH]; intros i q n id Hid; cbn [collect_responses queue_of];
    [by rewrite app_nil_r|].
  destruct (is_tool m); cbn; [|by rewrite IH].
  case_decide as Hr; rewrite IH by done.
  - rewrite bool_decide_eq_false_2 by congruence. done.
  - unfold push_response. rewrite lookup_insert. case_decide as Heq.
    + rewrite Heq, bool_decide_eq_true_2 by done. cbn. by rewrite <-app_assoc.
    + by rewrite bool_decide_eq_false_2.
Qed.

Section Fixpoint_.
Context (f : option (pystr -> pystr -> pystr)).

(** A call whose answer comes next is given that answer and nothing else
    changes. *)
Lemma answer_call_next st v r rs id :
  call_wf v -> valid_call_ids [v] = [id] -> answers id r -> visible_answer r ->
  queues_ahead (responses st) (len (repaired st)) (r :: rs) ->
  exists q, answer_call f st v
            = Ok (mk_repair (repaired st ++ [r]) q (synthesized st) (consumed st + 1)
                            (reordered st) (filled_content st)) /\
            queues_ahead q (len (repaired st ++ [r])) rs.
Proof.
  intros Hwf Hid [Htool Hr] Hvis Hq. destruct v as [| | | | | |call]; try done.
  cbn in Hid. unfold answer_call. cbn [as_dict mbind result_bind call_wf] in *.
  destruct (decide (call_id call = [])); [done|]. injection Hid as Hid.
  destruct Hwf as [?|Hwf]; [done|].
  destruct (as_dict (py_or (dget_none call $"function") (VDict []))) as [fn|]; [|done].
  assert (Hhead : responses st !! id = Some ((len (repaired st), r)
                    :: queue_of (len (repaired st) + 1) rs id)).
  { specialize (Hq id ltac:(congruence)). cbn in Hq.
    rewrite Htool, bool_decide_eq_true_2 in Hq by done.
    destruct (responses st !! id); cbn in Hq; [by f_equal|done]. }
  rewrite Hid, Hhead, (Hvis Htool), Z.eqb_refl, !Z.add_0_r. eexists. split; [done|].
  intros id' Hid'. rewrite lookup_insert, len_app. change (len [r]) with 1.
  case_decide as Heq; [by rewrite Heq|]. rewrite (Hq id' Hid'). cbn.
  by rewrite Htool, bool_decide_eq_false_2 by congruence.
Qed.

Lemma answer_calls_next calls : forall st rs rest,
  Forall call_wf calls -> Forall2 answers (valid_call_ids calls) rs ->
  Forall visible_answer rs ->
  queues_ahead (responses st) (len (repaired st)) (rs ++ rest) ->
  exists q, answer_calls f st calls
            = Ok (mk_repair (repaired st ++ rs) q (synthesized st) (consumed st + len rs)
                            (reordered st) (filled_content st)) /\
            queues_ahead q (len (repaired st ++ rs)) rest.
Proof.
  induction calls as [|v calls IH]; intros st rs rest Hwf Ha Hvis Hq.
  { inversion Ha; subst. exists (responses st). rewrite app_nil_r. split; [|done].
    change (len (@nil message)) with 0. rewrite Z.add_0_r. by destruct st. }
  inversion_clear Hwf as [|? ? Hv Hcalls]. rewrite valid_call_ids_cons in Ha.
  cbn [answer_calls].
  destruct (valid_call_ids [v]) as [|id [|]] eqn:Eid;
    [| |by cbn in Eid; destruct v; try done; case_decide].
  - assert (answer_call f st v = Ok st) as ->.
    { destruct v as [| | | | | |call]; try done. unfold answer_call. cbn in *.
      by destruct (decide (call_id call = [])). }
    by apply IH.
  - cbn in Ha. inversion Ha as [|? r ? rs' Har Hars]; subst.
    inversion_clear Hvis as [|? ? Hvr Hvrs].
    destruct (answer_call_next st v r (rs' ++ rest) id) as (q1 & -> & Hq1); [done..|].
    cbn [mbind result_bind].
    edestruct (IH (mk_repair (repaired st ++ [r]) q1 (synthesized st) (consumed st + 1)
                             (reordered st) (filled_content st)) rs' rest)
      as (q2 & -> & Hq2); [done..|]. cbn [repaired synthesized consumed reordered filled_content] in *.
    exists q2. rewrite <-app_assoc, len_cons, Z.add_assoc in *. cbn [app] in *. done.
Qed.

Lemma reconcile_tools_skip rs rest st :
  Forall (fun r => is_tool r = true) rs ->
  reconcile_messages f st (rs ++ rest) = reconcile_messages f st rest.
Proof.
  induction 1 as [|r rs Hr _ IH]; [done|]. cbn. unfold reconcile_message. rewrite Hr. apply IH.
Qed.

Lemma answers_tools ids rs : Forall2 answers ids rs -> Forall (fun r => is_tool r = true) rs.
Proof. by induction 1 as [|? ? ? ? []]; constructor. Qed.

Lemma reconcile_messages_fixpoint ms : contract ms -> forall st,
  Forall message_wf ms -> Forall visible_answer ms ->
  queues_ahead (responses st) (len (repaired st)) ms ->
  exists q, reconcile_messages f st ms
            = Ok (mk_repair (repaired st ++ ms) q (synthesized st)
                            (consumed st + count_tools ms) (reordered st)
                            (filled_content st)).
Proof.
  induction 1 as [|m rs rest Htool Hrs Hrest IH]; intros st Hwf Hvis Hq.
  { exists (responses st). cbn. rewrite app_nil_r, count_tools_nil, Z.add_0_r.
    by destruct st. }
  inversion_clear Hwf as [|? ? Hm Hwf']. apply Forall_app in Hwf' as [_ Hwf'].
  inversion_clear Hvis as [|? ? _ Hvis']. apply Forall_app in Hvis' as [Hv1 Hv2].
  pose proof (answers_tools _ _ Hrs) as Htools.
  assert (Hq1 : queues_ahead (responses st) (len (repaired st ++ [m])) (rs ++ rest)).
  { intros id Hid. rewrite (Hq id Hid), len_app. cbn. by rewrite Htool. }
  assert (exists q, reconcile_message f st m
            = Ok (mk_repair (repaired st ++ m :: rs) q (synthesized st)
                            (consumed st + len rs) (reordered st) (filled_content st)) /\
            queues_ahead q (len (repaired st ++ m :: rs)) rest) as (q1 & Hmsg & Hq2).
  { unfold reconcile_message, message_call_ids, message_wf in *. rewrite Htool.
    destruct (is_assistant m).
    - specialize (Hm Htool eq_refl). destruct (iter_or_empty _) as [calls|]; [|done].
      cbn [mbind result_bind].
      destruct (answer_calls_next calls (mk_repair (repaired st ++ [m]) (responses st)
                  (synthesized st) (consumed st) (reordered st) (filled_content st)) rs rest)
        as (q & -> & Hq2); [done..|].
      cbn [repaired synthesized consumed reordered filled_content] in *.
      rewrite <-app_assoc in *. by eauto.
    - inversion Hrs; subst. exists (responses st). change (len (@nil message)) with 0.
      by rewrite Z.add_0_r. }
  cbn [reconcile_messages]. rewrite Hmsg. cbn [mbind result_bind].
  rewrite (reconcile_tools_skip rs) by done.
  edestruct IH as (q2 & ->); [done|done|exact Hq2|].
  exists q2. cbn [repaired synthesized consumed reordered filled_content].
  rewrite count_tools_cons, Htool, count_tools_app, (count_tools_answers _ _ Hrs).
  rewrite <-app_assoc. do 2 f_equal. lia.
Qed.

End Fixpoint_.

(** A readable history that already satisfies the contract, with visible
    answers, is returned as it is. *)
Lemma reconcile_fixpoint f ms :
  contract ms -> Forall message_wf ms -> Forall visible_answer ms ->
  reconcile_tool_call_adjacency f ms = Ok (ms, 0, mk_counts 0 0 0 0).
Proof.
  intros Hc Hwf Hvis. unfold reconcile_tool_call_adjacency.
  pose proof (collect_responses_count ms 0 ∅ 0) as Hcount.
  assert (Hq : queues_ahead (collect_responses 0 ms ∅ 0).1 0 ms).
  { intros id Hid. by rewrite collect_responses_queues by done. }
  destruct (collect_responses 0 ms ∅ 0) as [q n]. cbn in Hcount, Hq. subst n.
  destruct (reconcile_messages_fixpoint f ms Hc (mk_repair [] q 0 0 0 0)) as (q' & ->); [done..|].
  cbn. by rewrite Z.sub_diag.
Qed.

Lemma reconcile_result_wf ms out :
  Forall message_wf ms ->
  filter (fun m => is_tool m = false) out = filter (fun m => is_tool m = false) ms ->
  Forall message_wf out.
Proof.
  intros Hwf Hf. rewrite Forall_forall in Hwf |- *. intros m Hm Htool.
  refine (Hwf m _ Htool).
  assert (m ∈ filter (fun m => is_tool m = false) out) as Hin
    by by apply list_elem_of_filter.
  rewrite Hf in Hin. by apply list_elem_of_filter in Hin as [_ ?].
Qed.

(** repairing a history is done once: when the text for missing outputs is
    never blank (the default one is not), repairing the result again, with any
    such text, returns it unchanged with nothing synthesized, reordered,
    discarded or filled. *)
Theorem reconcile_idempotent f g ms out n counts :
  texts_visible f -> Forall message_wf ms ->
  reconcile_tool_call_adjacency f ms = Ok (out, n, counts) ->
  reconcile_tool_call_adjacency g out = Ok (out, 0, mk_counts 0 0 0 0).
Proof.
  intros Hvis Hwf Hrun. destruct (reconcile_spec f ms Hwf) as (out' & st & Hrun' & Hext & Hc & Hf).
  rewrite Hrun in Hrun'. injection Hrun' as -> _ _.
  apply reconcile_fixpoint; [done|by eapply reconcile_result_wf|].
  by apply (ext_visible _ _ _ _ Hext).
Qed.

(** ** A history with a misplaced, a blank, an orphan and a missing output *)

Definition sample_call (id name : pystr) : pyval :=
  VDict [($"id", VStr id); ($"function", VDict [($"name", VStr name)])].

Definition sample_output (id content : pystr) : message :=
  [($"role", VStr $"tool"); ($"tool_call_id", VStr id); ($"content", VStr content)].

Definition sample_history : list message :=
  [ sample_output $"b" $"late";
    [($"role", VStr $"assistant");
     ($"tool_calls", VList [sample_call $"a" $"read"; sample_call $"b" $"grep";
                            sample_call $"c" $"edit"])];
    [($"role", VStr $"user"); ($"content", VStr $"go on")];
    sample_output $" a " $" ";
    sample_output $"x" $"orphan" ].

Lemma sample_history_wf : Forall message_wf sample_history.
Proof.
  repeat constructor; intros Ht Ha; try (vm_compute in Ht; discriminate);
    try (vm_compute in Ha; discriminate); cbn; repeat constructor; by right.
Defined.

Definition sample_repaired : list message :=
  [ [($"role", VStr $"assistant");
     ($"tool_calls", VList [sample_call $"a" $"read"; sample_call $"b" $"grep";
                            sample_call $"c" $"edit"])];
    sample_output $" a " $"Tool 'read' output missing.";
    sample_output $"b" $"late";
    sample_output $"c" $"Tool 'edit' output missing.";
    [($"role", VStr $"user"); ($"content", VStr $"go on")] ].

Example sample_history_repair :
  reconcile_tool_call_adjacency None sample_history
  = Ok (sample_repaired, 1, mk_counts 1 2 1 1).
Proof. by vm_compute. Qed.

Lemma reconcile_contract_witness :
  exists out n counts,
    reconcile_tool_call_adjacency None sample_history = Ok (out, n, counts) /\ contract out.
Proof.
  destruct (reconcile_contract None sample_history sample_history_wf)
    as (out & n & counts & Hrun & Hc & _).
  exists out, n, counts. split; [exact Hrun|exact Hc].
Defined.

Lemma reconcile_idempotent_witness :
  reconcile_tool_call_adjacency None sample_repaired
  = Ok (sample_repaired, 0, mk_counts 0 0 0 0).
Proof.
  apply (reconcile_idempotent None None sample_history sample_repaired 1 (mk_counts 1 2 1 1)).
  - exact default_texts_visible.
  - exact sample_history_wf.
  - by vm_compute.
Defined.
