(* ===== verification/Models.v ===== *)
(** * Responses of a model (domain/llm/models.py)

    A response carries text, reasoning, tool calls and usage; [response_message]
    is the assistant message it becomes in the history. *)

From S2P Require Import Prelude PyValue Json ToolHistory.

Record ToolCall := { tc_id : pystr; tc_name : pystr; arguments : pydict }.

Record LLMResponse := {
  content : pystr;
  reasoning_content : option pystr;
  tool_calls : list ToolCall;
  prompt_tokens : Z;
  completion_tokens : Z;
  cached_input_tokens : option Z;
  provider_data : option pydict;
}.

Definition EMPTY_ASSISTANT_CONTENT_PLACEHOLDER : pystr := $"[No assistant content returned.]".
Definition PROVIDER_DATA_KEY : pystr := $"provider_data".

(** [json.dumps(v)]: DEL and the characters outside ASCII are escaped as UTF-16
    units. *)
Definition hex4 (n : Z) : pystr :=
  [hex_digit (n / 4096 mod 16); hex_digit (n / 256 mod 16); hex_digit (n / 16 mod 16); hex_digit (n mod 16)].
Definition ascii_char (c : Z) : pystr :=
  if c <? 127 then [c]
  else if c <? 65536 then $"\u" ++ hex4 c
  else $"\u" ++ hex4 (55296 + (c - 65536) / 1024) ++ $"\u" ++ hex4 (56320 + (c - 65536) mod 1024).
Definition json_ascii (v : pyval) : pystr := concat (map ascii_char (json_default v)).

Definition call_value (tc : ToolCall) : pyval :=
  VDict [ ($"id", VStr (tc_id tc)); ($"type", VStr $"function");
          ($"function", VDict [($"name", VStr (tc_name tc));
                               ($"arguments", VStr (json_ascii (VDict (arguments tc))))]) ].

Definition response_message (r : LLMResponse) : message :=
  let m := [ ($"role", VStr $"assistant");
             ($"content", VStr (if decide (content r = []) then EMPTY_ASSISTANT_CONTENT_PLACEHOLDER
                                else content r)) ] in
  let m := match reasoning_content r with Some t => dset m $"reasoning_content" (VStr t) | None => m end in
  let m := match tool_calls r with
           | [] => m
           | l => dset (dset m $"content" (if decide (content r = []) then VNone else VStr (content r)))
                    $"tool_calls" (VList (map call_value l))
           end in
  match provider_data r with Some d => dset m PROVIDER_DATA_KEY (VDict d) | None => m end.

