(* ===== verification/Sanitizer.v ===== *)
(** * Message sanitizer and API rounds
    (services/llm/sanitizer.py, domain/context/rounds.py)

    [sanitize_messages_for_llm] prepares a history for a provider: it decides
    which reasoning texts are replayed, names anonymous tool calls, fills empty
    assistant messages, and hands the result to the adjacency repair of
    [ToolHistory].  [group_api_rounds] and [recent_round_start] cut a history
    into model rounds without separating a call from its outputs. *)

From S2P Require Import Prelude PyValue ToolHistory.

(** ** Options *)

Definition EMPTY_ASSISTANT_CONTENT_PLACEHOLDER : pystr := $"[No assistant content returned.]".
Definition DEFAULT_REASONING_REPLAY_PLACEHOLDER : pystr := $"[PLACE_HOLDER]".

Record SanitizeOptions := mk_options {
  preserve_reasoning_content : bool;
  backfill_reasoning_content_for_tool_calls : bool;
  require_reasoning_content_for_tool_calls : bool;
  replay_reasoning_for_non_tool_assistant : bool;
  reasoning_replay_placeholder : pystr;
  thinking_enabled : bool;
}.

(** [s.lower()] on the letters that matter for the two mode names. *)
Definition ascii_lower (s : pystr) : pystr :=
  map (fun c => if (65 <=? c) && (c <=? 90) then c + 32 else c) s.

Definition normalize_reasoning_replay_mode (mode : option pystr) : pystr :=
  let mode := ascii_lower (strip (match mode with
                                  | Some (c :: m) => c :: m
                                  | _ => $"none" end)) in
  if decide (mode = $"none" \/ mode = $"tool_calls") then mode else $"none".

(** ** One message *)

(** [dict(v)]; which exception other values raise is not tracked. *)
Definition dict_copy (v : pyval) : result pydict :=
  match v with VDict d => Ok d | _ => Raise (TypeError $"dict") end.

(** [(tc_item.get("id") or "").strip()]. *)
Definition raw_call_id (call : pydict) : result pystr :=
  match py_or (dget_none call $"id") (VStr []) with
  | VStr s => Ok (strip s)
  | _ => Raise (AttributeError $"strip")
  end.

Definition recovered_call_id (msg_index tc_index : Z) : pystr :=
  $"recovered_tool_call_" ++ z_str msg_index ++ $"_" ++ z_str tc_index.

Definition repair_tool_call (msg_index tc_index : Z) (tc : pyval) : result pyval :=
  tc_item ← dict_copy tc;
  tc_id ← raw_call_id tc_item;
  let tc_item := if decide (tc_id = [])
    then dset tc_item $"id" (VStr (recovered_call_id msg_index tc_index)) else tc_item in
  fn ← dict_copy (py_or (dget_none tc_item $"function") (VDict []));
  Ok (VDict (dset tc_item $"function" (VDict fn))).

Fixpoint repair_tool_calls (msg_index tc_index : Z) (calls : list pyval)
    : result (list pyval) :=
  match calls with
  | [] => Ok []
  | tc :: rest =>
    tc ← repair_tool_call msg_index tc_index tc;
    rest ← repair_tool_calls msg_index (tc_index + 1) rest;
    Ok (tc :: rest)
  end.

Section Sanitize.
Context (o : SanitizeOptions).

Definition effective_backfill : bool :=
  preserve_reasoning_content o
  && (backfill_reasoning_content_for_tool_calls o
      || require_reasoning_content_for_tool_calls o).

Definition rc : pystr := $"reasoning_content".

(** The body of the loop for an assistant message without tool calls. *)
Definition sanitize_plain_assistant (had : bool) (item : message) : message :=
  let item :=
    if effective_backfill && had && negb (dmem item rc)
    then dset item rc (VStr (reasoning_replay_placeholder o))
    else if negb (thinking_enabled o)
            && negb (replay_reasoning_for_non_tool_assistant o || had)
    then dpop item rc
    else item in
  if blank_content (dget_none item $"content")
  then dset item $"content" (VStr EMPTY_ASSISTANT_CONTENT_PLACEHOLDER)
  else item.

(** ... and with tool calls. *)
Definition sanitize_tool_assistant (calls : list pyval) (item : message) : message :=
  let item := dset item $"tool_calls" (VList calls) in
  if effective_backfill && negb (dmem item rc)
  then dset item rc (VStr (reasoning_replay_placeholder o))
  else item.

(** The body of the loop: the new message and [user_turn_had_tool_calls]. *)
Definition sanitize_message (msg_index : Z) (had : bool) (item : message)
    : result (message * bool) :=
  if role_is item $"user" then Ok (item, false)
  else if negb (is_assistant item) then Ok (item, had)
  else
    let item := if negb (preserve_reasoning_content o) && negb (thinking_enabled o)
                then dpop item rc else item in
    raw ← iter_or_empty (dget_none item $"tool_calls");
    match raw with
    | [] => Ok (sanitize_plain_assistant had item, had)
    | _ =>
      calls ← repair_tool_calls msg_index 0 raw;
      Ok (sanitize_tool_assistant calls item, true)
    end.

Fixpoint sanitize_loop (msg_index : Z) (had : bool) (messages : list message)
    : result (list message) :=
  match messages with
  | [] => Ok []
  | m :: rest =>
    r ← sanitize_message msg_index had m;
    rest ← sanitize_loop (msg_index + 1) (snd r) rest;
    Ok (fst r :: rest)
  end.

Definition sanitize_messages_for_llm_core (messages : list message)
    : result (list message) :=
  sanitized ← sanitize_loop 0 false messages;
  r ← reconcile_tool_call_adjacency None sanitized;
  Ok (fst (fst r)).

End Sanitize.

(** The two replay modes fix some of the options. *)
Definition sanitize_for_reasoning_replay_none (o : SanitizeOptions) :=
  sanitize_messages_for_llm_core
    (mk_options (preserve_reasoning_content o)
                (backfill_reasoning_content_for_tool_calls o) false false
                (reasoning_replay_placeholder o) (thinking_enabled o)).

Definition sanitize_for_reasoning_replay_tool_calls (o : SanitizeOptions) :=
  sanitize_messages_for_llm_core
    (mk_options (preserve_reasoning_content o)
                (backfill_reasoning_content_for_tool_calls o)
                (preserve_reasoning_content o) false
                (reasoning_replay_placeholder o) (thinking_enabled o)).

Definition sanitize_messages_for_llm (o : SanitizeOptions) (mode : option pystr)
    (messages : list message) : result (list message) :=
  match mode with
  | Some _ =>
    if decide (normalize_reasoning_replay_mode mode = $"tool_calls")
    then sanitize_for_reasoning_replay_tool_calls o messages
    else sanitize_for_reasoning_replay_none o messages
  | None => sanitize_messages_for_llm_core o messages
  end.

(** ** Rounds *)

Record GroupState := mk_group {
  groups : list (list message);
  current : list message;
  current_has_assistant : bool;
}.

Definition group_step (st : GroupState) (m : message) : GroupState :=
  let st := if is_assistant m && negb (bool_decide (current st = []))
               && current_has_assistant st
            then mk_group (groups st ++ [current st]) [] false else st in
  mk_group (groups st) (current st ++ [m]) (current_has_assistant st || is_assistant m).

Definition group_api_rounds (messages : list message) : list (list message) :=
  let st := foldl group_step (mk_group [] [] false) messages in
  match current st with [] => groups st | g => groups st ++ [g] end.

Definition total_messages (rounds : list (list message)) : Z :=
  foldr (fun g n => len g + n) 0 rounds.

(** [sum(len(group.messages) for group in rounds[:-keep])]. *)
Definition recent_round_start (messages : list message) (keep : Z) : Z :=
  if keep <=? 0 then len messages
  else
    let rounds := group_api_rounds messages in
    if len rounds <=? keep then 0
    else total_messages (slice_to (len rounds - keep) rounds).

Definition no_output_before (reason : pystr) (_ tool_name : pystr) : pystr :=
  $"Tool '" ++ tool_name ++ $"' did not return output before " ++ reason ++ $".".

Definition normalize_history (messages : list message) (reason : pystr)
    : result (list message) :=
  r ← reconcile_tool_call_adjacency (Some (no_output_before reason)) messages;
  Ok (fst (fst r)).

(** ** Specification of the sanitizer *)

(** Tool calls the sanitizer can read: dictionaries with a text (or nothing) as
    identifier and a dictionary (or nothing) as function. *)
Definition raw_call_wf (v : pyval) : Prop :=
  exists call fn s, v = VDict call /\
    py_or (dget_none call $"id") (VStr []) = VStr s /\
    py_or (dget_none call $"function") (VDict []) = VDict fn.

Definition sanitize_wf (m : message) : Prop :=
  is_assistant m = true ->
  exists calls, iter_or_empty (dget_none m $"tool_calls") = Ok calls /\
                Forall raw_call_wf calls.

(** What every assistant message of a sanitized history looks like: its calls
    are readable and named, it says something when it calls nothing, and it
    carries no reasoning text that the options forbid. *)
Definition sane (o : SanitizeOptions) (m : message) : Prop :=
  is_assistant m = true ->
  exists calls, iter_or_empty (dget_none m $"tool_calls") = Ok calls /\
    Forall call_wf calls /\
    length (valid_call_ids calls) = length calls /\
    (calls = [] -> blank_content (dget_none m $"content") = false) /\
    (preserve_reasoning_content o = false -> thinking_enabled o = false ->
     dmem m rc = false).

(** ** Lemmas on the sanitizer *)

Lemma repair_tool_call_spec i j v :
  raw_call_wf v ->
  exists call, repair_tool_call i j v = Ok (VDict call) /\
    call_wf (VDict call) /\ call_id call <> [].
Proof.
  intros (call & fn & s & -> & Hid & Hfn). unfold repair_tool_call, raw_call_id.
  cbn [dict_copy mbind result_bind]. rewrite Hid.
  assert (Hfn' : forall c, dget_none c $"function" = dget_none call $"function" ->
            dict_copy (py_or (dget_none c $"function") (VDict [])) = Ok fn).
  { intros c ->. by rewrite Hfn. }
  assert (Hwf : forall c id, call_id (dset c $"function" (VDict fn)) = id -> id <> [] ->
            call_wf (VDict (dset c $"function" (VDict fn))) /\
            call_id (dset c $"function" (VDict fn)) <> []).
  { intros c id Heq Hne. split; [right|congruence].
    unfold dget_none. rewrite dget_dset_eq. by destruct fn. }
  cbn [mbind result_bind]. case_decide as Hs; rewrite Hfn'
    by (try done; unfold dget_none; by rewrite dget_dset_ne).
  - eexists. split; [done|]. apply (Hwf _ (strip (recovered_call_id i j))).
    + unfold call_id, dget_none. by rewrite dget_dset_ne, dget_dset_eq.
    + by apply strip_visible.
  - eexists. split; [done|]. apply (Hwf _ (strip s)); [|done].
    unfold call_id, dget_none. rewrite dget_dset_ne by done. fold (dget_none call $"id").
    unfold py_or in Hid. destruct (truthy (dget_none call $"id")) eqn:Ht.
    + unfold str_or_empty. by rewrite Ht, Hid.
    + by injection Hid as <-.
Qed.

Lemma repair_tool_calls_spec i calls : forall j,
  Forall raw_call_wf calls ->
  exists calls', repair_tool_calls i j calls = Ok calls' /\
    length calls' = length calls /\ Forall call_wf calls' /\
    length (valid_call_ids calls') = length calls'.
Proof.
  induction calls as [|v calls IH]; intros j Hwf; cbn [repair_tool_calls].
  { exists []. by repeat constructor. }
  inversion_clear Hwf as [|? ? Hv Hcalls].
  destruct (repair_tool_call_spec i j v Hv) as (call & -> & Hc & Hid).
  destruct (IH (j + 1) Hcalls) as (calls' & -> & Hlen & Hwf' & Hids).
  exists (VDict call :: calls'). cbn [mbind result_bind]. split_and!; [done|cbn; lia|by constructor|].
  rewrite valid_call_ids_cons. cbn. case_decide; [done|]. cbn. by rewrite Hids.
Qed.

Lemma dmem_dset_ne d k v k' : k' <> k -> dmem (dset d k v) k' = dmem d k'.
Proof. intros ?. unfold dmem. by rewrite dget_dset_ne. Qed.

Lemma dmem_dpop d k : dmem (dpop d k) k = false.
Proof.
  unfold dmem. rewrite dget_dpop. case_decide; [|done].
  apply bool_decide_eq_false_2. by intros [? [=]].
Qed.

Lemma dget_none_dpop_ne d k k' : k' <> k -> dget_none (dpop d k) k' = dget_none d k'.
Proof. intros ?. unfold dget_none. rewrite dget_dpop. by case_decide. Qed.

Lemma dget_none_dset_ne d k v k' : k' <> k -> dget_none (dset d k v) k' = dget_none d k'.
Proof. intros ?. unfold dget_none. by rewrite dget_dset_ne. Qed.

Lemma role_is_dset_ne m k v r : k <> $"role" -> role_is (dset m k v) r = role_is m r.
Proof. intros ?. unfold role_is. by rewrite dget_none_dset_ne. Qed.

Lemma role_is_dpop_ne m k r : k <> $"role" -> role_is (dpop m k) r = role_is m r.
Proof. intros ?. unfold role_is. by rewrite dget_none_dpop_ne. Qed.

Section SanitizeLemmas.
Context (o : SanitizeOptions).

(** The reasoning text an item may keep. *)
Definition reasoning_allowed (item : message) : Prop :=
  preserve_reasoning_content o = false -> thinking_enabled o = false -> dmem item rc = false.

Lemma effective_backfill_preserves :
  effective_backfill o = true -> preserve_reasoning_content o = true.
Proof. unfold effective_backfill. by destruct (preserve_reasoning_content o). Qed.

Lemma sanitize_plain_assistant_sane had item :
  iter_or_empty (dget_none item $"tool_calls") = Ok [] -> reasoning_allowed item ->
  sane o (sanitize_plain_assistant o had item).
Proof.
  intros Hcalls Hr _. exists []. unfold sanitize_plain_assistant.
  set (item' := if effective_backfill o && had && negb (dmem item rc)
                then dset item rc _ else _).
  assert (Hitem : dget_none item' $"tool_calls" = dget_none item $"tool_calls" /\
                  reasoning_allowed item').
  { subst item'. destruct (effective_backfill o) eqn:Eb; cbn [andb].
    - apply effective_backfill_preserves in Eb.
      split; [repeat case_match; by rewrite ?dget_none_dset_ne, ?dget_none_dpop_ne|].
      intros ?. congruence.
    - case_match; [|done]. rewrite dget_none_dpop_ne by done. split; [done|].
      intros _ _. apply dmem_dpop. }
  destruct Hitem as [Ht Hr'].
  destruct (blank_content (dget_none item' $"content")) eqn:Hb.
  - rewrite dget_none_dset_ne, Ht by done. split_and!; [done|constructor|done| |].
    + intros _. unfold dget_none. rewrite dget_dset_eq. by vm_compute.
    + intros ? ?. rewrite dmem_dset_ne by done. auto.
  - rewrite Ht. split_and!; [done|constructor|done|done|exact Hr'].
Qed.

Lemma sanitize_tool_assistant_sane calls item :
  calls <> [] -> Forall call_wf calls ->
  length (valid_call_ids calls) = length calls -> reasoning_allowed item ->
  sane o (sanitize_tool_assistant o calls item).
Proof.
  intros Hne Hwf Hlen Hr _. exists calls. unfold sanitize_tool_assistant.
  set (item' := dset item $"tool_calls" (VList calls)).
  assert (Hiter : forall m, dget_none m $"tool_calls" = VList calls ->
            iter_or_empty (dget_none m $"tool_calls") = Ok calls)
    by (intros m ->; by destruct calls).
  assert (Hi : dget_none item' $"tool_calls" = VList calls)
    by (unfold dget_none, item'; by rewrite dget_dset_eq).
  destruct (effective_backfill o) eqn:Eb; cbn [andb].
  - apply effective_backfill_preserves in Eb.
    split_and!; [|done|done|done|by intros ?; congruence].
    apply Hiter. case_match; by rewrite ?dget_none_dset_ne.
  - split_and!; [by apply Hiter|done|done|done|].
    intros ? ?. unfold item'. rewrite dmem_dset_ne by done. auto.
Qed.

Lemma sanitize_message_sane i had m :
  sanitize_wf m ->
  exists m' had', sanitize_message o i had m = Ok (m', had') /\ sane o m'.
Proof.
  intros Hwf. unfold sanitize_message.
  destruct (role_is m $"user") eqn:Hu.
  { exists m, false. split; [done|]. intros Ha. exfalso.
    unfold is_assistant, role_is, is_str in *.
    apply bool_decide_eq_true in Hu, Ha. congruence. }
  destruct (is_assistant m) eqn:Ha; cbn [negb].
  2: { exists m, had. split; [done|]. by intros ?; congruence. }
  destruct (Hwf Ha) as (calls & Hcalls & Hraw).
  set (item := if negb (preserve_reasoning_content o) && _ then _ else m).
  assert (Hitem : dget_none item $"tool_calls" = dget_none m $"tool_calls" /\
                  reasoning_allowed item).
  { subst item. unfold reasoning_allowed.
    destruct (preserve_reasoning_content o), (thinking_enabled o); cbn [andb negb]; try by split.
    rewrite dget_none_dpop_ne by done. split; [done|]. intros _ _. apply dmem_dpop. }
  destruct Hitem as [Ht Hr]. rewrite Ht, Hcalls. cbn [mbind result_bind].
  destruct calls as [|c calls].
  - eexists _, _. split; [done|]. apply sanitize_plain_assistant_sane; [by rewrite Ht|done].
  - destruct (repair_tool_calls_spec i (c :: calls) 0 Hraw) as (calls' & -> & Hlen & Hc & Hids).
    cbn [mbind result_bind]. eexists _, _. split; [done|].
    apply sanitize_tool_assistant_sane; [|done..]. by destruct calls'.
Qed.

Lemma sanitize_loop_sane ms : forall i had,
  Forall sanitize_wf ms ->
  exists out, sanitize_loop o i had ms = Ok out /\ Forall (sane o) out.
Proof.
  induction ms as [|m ms IH]; intros i had Hwf; cbn [sanitize_loop].
  { exists []. by repeat constructor. }
  inversion_clear Hwf as [|? ? Hm Hms].
  destruct (sanitize_message_sane i had m Hm) as (m' & had' & -> & Hs).
  cbn [mbind result_bind fst snd].
  destruct (IH (i + 1) had' Hms) as (out & -> & Ho). cbn. eauto.
Qed.

Lemma sane_wf m : sane o m -> message_wf m.
Proof.
  intros Hs _ Ha. destruct (Hs Ha) as (calls & -> & Hc & _). done.
Qed.

Lemma sanitize_core_spec ms :
  Forall sanitize_wf ms ->
  exists out, sanitize_messages_for_llm_core o ms = Ok out /\
    contract out /\ Forall (sane o) out.
Proof.
  intros Hwf. unfold sanitize_messages_for_llm_core.
  destruct (sanitize_loop_sane ms 0 false Hwf) as (s & -> & Hs). cbn [mbind result_bind].
  destruct (reconcile_spec None s) as (out & st & -> & _ & Hc & Hf);
    [eapply Forall_impl; [exact Hs|apply sane_wf]|].
  exists out. split_and!; [done|done|].
  rewrite Forall_forall in Hs |- *. intros m Hm Ha.
  refine (Hs m _ Ha).
  assert (m ∈ filter (fun m => is_tool m = false) out) as Hin.
  { apply list_elem_of_filter. split; [|done].
    unfold is_assistant, is_tool, role_is, is_str in *.
    apply bool_decide_eq_true in Ha. rewrite Ha. by apply bool_decide_eq_false_2. }
  rewrite Hf in Hin. by apply list_elem_of_filter in Hin as [_ ?].
Qed.

End SanitizeLemmas.

(** ** Theorem: the sanitizer *)

(** C26: in every mode and with all options, sanitizing a readable history
    succeeds, satisfies the provider contract, and leaves every assistant
    message with readable, named tool calls, with visible content when it calls
    nothing, and without reasoning text when the options forbid it. *)
Theorem sanitize_sound o mode ms :
  Forall sanitize_wf ms ->
  exists out, sanitize_messages_for_llm o mode ms = Ok out /\
    contract out /\ Forall (sane o) out.
Proof.
  intros Hwf. unfold sanitize_messages_for_llm.
  assert (Hmono : forall o', preserve_reasoning_content o' = preserve_reasoning_content o ->
            thinking_enabled o' = thinking_enabled o ->
            exists out, sanitize_messages_for_llm_core o' ms = Ok out /\
              contract out /\ Forall (sane o) out).
  { intros o' Hp Ht. destruct (sanitize_core_spec o' ms Hwf) as (out & ? & ? & Hs).
    exists out. split_and!; [done..|]. eapply Forall_impl; [exact Hs|].
    unfold sane. by rewrite Hp, Ht. }
  destruct mode as [mode|]; [case_decide|]; by apply Hmono.
Qed.

(** ** Lemmas on rounds *)

Definition starts_assistant (g : list message) : Prop :=
  match g with m :: _ => is_assistant m = true | [] => False end.

Definition count_assistants (g : list message) : Z :=
  len (filter (fun m => is_assistant m = true) g).

(** The grouping loop after the messages [done_]. *)
Record grouped (st : GroupState) (done_ : list message) : Prop := {
  grp_all : concat (groups st) ++ current st = done_;
  grp_closed : Forall (fun g => g <> [] /\ count_assistants g = 1) (groups st);
  grp_current : groups st <> [] -> current st <> [];
  grp_flag : count_assistants (current st) = if current_has_assistant st then 1 else 0;
  grp_starts : Forall starts_assistant
                 (tail (groups st ++ match current st with [] => [] | g => [g] end));
}.

Lemma count_assistants_snoc g m :
  count_assistants (g ++ [m]) = count_assistants g + if is_assistant m then 1 else 0.
Proof.
  unfold count_assistants. rewrite filter_app, len_app, filter_cons, filter_nil.
  by destruct (is_assistant m).
Qed.

Lemma tail_snoc_forall {A} (P : A -> Prop) l x y :
  (l <> [] -> P x -> P y) -> Forall P (tail (l ++ [x])) -> Forall P (tail (l ++ [y])).
Proof.
  destruct l as [|a l]; simpl; [by constructor|]. rewrite !Forall_app, !Forall_singleton.
  naive_solver.
Qed.

Lemma group_step_grouped st pre m :
  grouped st pre -> grouped (group_step st m) (pre ++ [m]).
Proof.
  intros [Hall Hclosed Hcur Hflag Hstarts]. unfold group_step.
  destruct (is_assistant m && negb (bool_decide (current st = [])) && current_has_assistant st)
    eqn:Ecut; cbn [groups current current_has_assistant].
  - apply andb_prop in Ecut as [[Ha Hne]%andb_prop Hhas].
    apply negb_true_iff, bool_decide_eq_false in Hne. rewrite Hhas in Hflag.
    destruct (current st) as [|c cur] eqn:Ec; [done|].
    split; cbn [groups current current_has_assistant].
    + rewrite concat_app. cbn. by rewrite app_nil_r, <-Hall.
    + apply Forall_app. by split; [|constructor].
    + done.
    + rewrite count_assistants_snoc, Ha. done.
    + cbn. destruct (groups st); cbn in *; [by constructor|].
      by apply Forall_app; split; [|constructor].
  - split; cbn [groups current current_has_assistant].
    + by rewrite <-Hall, app_assoc.
    + done.
    + intros _. by destruct (current st).
    + rewrite count_assistants_snoc, Hflag.
      destruct (is_assistant m), (current_has_assistant st); try done. cbn in Ecut.
      rewrite andb_true_r in Ecut. apply negb_false_iff, bool_decide_eq_true in Ecut.
      rewrite Ecut in Hflag. done.
    + destruct (current st) as [|c cur]; cbn [app].
      * destruct (groups st) as [|g gs]; [by constructor|]. by destruct Hcur.
      * eapply tail_snoc_forall; [|exact Hstarts]. by intros _ ?.
Qed.

Lemma foldl_grouped ms : forall st pre,
  grouped st pre -> grouped (foldl group_step st ms) (pre ++ ms).
Proof.
  induction ms as [|m ms IH]; intros st pre Hg; cbn; [by rewrite app_nil_r|].
  replace (pre ++ m :: ms) with ((pre ++ [m]) ++ ms) by by rewrite <-app_assoc.
  by apply IH, group_step_grouped.
Qed.

Lemma group_api_rounds_grouped ms :
  concat (group_api_rounds ms) = ms /\
  Forall (fun g => g <> [] /\ count_assistants g <= 1) (group_api_rounds ms) /\
  Forall starts_assistant (tail (group_api_rounds ms)).
Proof.
  unfold group_api_rounds.
  assert (Hg : grouped (foldl group_step (mk_group [] [] false) ms) ([] ++ ms))
    by (apply foldl_grouped; split; try done; constructor).
  destruct Hg as [Hall Hclosed _ Hflag Hstarts]. cbn in Hall.
  set (st := foldl _ _ _) in *.
  assert (Hc : Forall (fun g => g <> [] /\ count_assistants g <= 1) (groups st)).
  { eapply Forall_impl; [exact Hclosed|]. cbn. intros g [? ->]. done. }
  destruct (current st) as [|c cur] eqn:Ec.
  - rewrite app_nil_r in Hall, Hstarts. done.
  - split_and!; [by rewrite concat_app; cbn; rewrite app_nil_r| |done].
    apply Forall_app. split; [done|]. constructor; [|constructor]. split; [done|].
    rewrite Hflag. by destruct (current_has_assistant st).
Qed.

Lemma total_messages_len rounds : total_messages rounds = len (concat rounds).
Proof.
  unfold total_messages. induction rounds as [|g rounds IH]; cbn; [done|].
  rewrite len_app. lia.
Qed.

Lemma assistant_not_tool m : is_assistant m = true -> is_tool m = false.
Proof.
  unfold is_assistant, is_tool, role_is, is_str. intros Ha.
  apply bool_decide_eq_true in Ha. rewrite Ha. by apply bool_decide_eq_false_2.
Qed.

(** A history that satisfies the contract may be cut before any message that is
    not a tool message. *)
Lemma contract_cut ms : contract ms -> forall pre suf,
  ms = pre ++ suf -> match suf with [] => True | m :: _ => is_tool m = false end ->
  contract pre /\ contract suf.
Proof.
  induction 1 as [|m rs rest Htool Hrs Hrest IH]; intros pre suf Heq Hsuf.
  { symmetry in Heq. apply app_nil in Heq as [-> ->]. by repeat constructor. }
  destruct pre as [|m' pre]; cbn in Heq.
  { subst suf. split; [constructor|]. by constructor. }
  injection Heq as -> Heq.
  assert (exists pre', pre = rs ++ pre') as [pre' ->].
  { clear -Heq Hsuf Hrs. revert pre Heq. induction Hrs as [|id r ids rs [Hr _] _ IHr];
      intros pre Heq; [by exists pre|].
    destruct pre as [|p pre]; cbn in Heq.
    - subst suf. congruence.
    - injection Heq as -> Heq. destruct (IHr pre Heq) as [pre' ->]. by exists pre'. }
  rewrite <-app_assoc in Heq. apply app_inv_head in Heq.
  destruct (IH pre' suf Heq Hsuf) as [Hp Hs]. split; [by constructor|done].
Qed.

Lemma concat_take_drop {A} (ls : list (list A)) n :
  concat ls = concat (take n ls) ++ concat (drop n ls).
Proof. by rewrite <-concat_app, take_drop. Qed.

(** ** Theorems: rounds *)

(** [group_api_rounds] only cuts: its rounds joined are the history, none is
    empty, each holds at most one assistant message, and every round but the
    first starts with one. *)
Theorem group_api_rounds_spec ms :
  concat (group_api_rounds ms) = ms /\
  Forall (fun g => g <> [] /\ count_assistants g <= 1) (group_api_rounds ms) /\
  Forall starts_assistant (tail (group_api_rounds ms)).
Proof. apply group_api_rounds_grouped. Qed.

(** [recent_round_start] returns a valid index, keeps exactly the newest
    [keep] rounds (all of them when there are fewer), and never separates a
    call from its outputs: cut there, a history that satisfies the provider
    contract gives two histories that satisfy it. *)
Theorem recent_round_start_spec ms keep :
  contract ms ->
  let start := recent_round_start ms keep in
  0 <= start <= len ms /\
  slice_from start ms
    = concat (slice_from (len (group_api_rounds ms) - Z.max 0 keep) (group_api_rounds ms)) /\
  contract (slice_to start ms) /\ contract (slice_from start ms).
Proof.
  intros Hc. cbn zeta. destruct (group_api_rounds_grouped ms) as (Hall & _ & Hstarts).
  set (rounds := group_api_rounds ms) in *.
  set (n := Z.to_nat (len rounds - Z.max 0 keep)).
  assert (Hstart : recent_round_start ms keep = len (concat (take n rounds))).
  { unfold recent_round_start. fold rounds. pose proof (len_nonneg rounds).
    repeat case_match; zbool.
    - replace n with (length rounds) by (unfold n, len in *; lia).
      by rewrite firstn_all, Hall.
    - by replace n with 0%nat by (unfold n; lia).
    - rewrite total_messages_len. unfold slice_to. do 3 f_equal. unfold n. lia. }
  pose proof (concat_take_drop rounds n) as Hcat. rewrite Hall in Hcat.
  assert (Hcut : slice_to (recent_round_start ms keep) ms = concat (take n rounds) /\
                 slice_from (recent_round_start ms keep) ms = concat (drop n rounds)).
  { rewrite Hstart. unfold slice_to, slice_from, len. rewrite Nat2Z.id, Hcat.
    by rewrite take_app_length, drop_app_length. }
  destruct Hcut as [-> ->]. split; [|split; [done|]].
  - rewrite Hstart, Hcat, len_app. pose proof (len_nonneg (concat (take n rounds))).
    pose proof (len_nonneg (concat (drop n rounds))). lia.
  - eapply contract_cut; [exact Hc|exact Hcat|].
    destruct n as [|n]; [rewrite drop_0, Hall; by inversion Hc|].
    destruct rounds as [|g rounds']; [done|]. cbn in Hstarts |- *.
    destruct (drop n rounds') as [|g' gs] eqn:Ed; [done|].
    assert (starts_assistant g').
    { rewrite Forall_forall in Hstarts. apply Hstarts.
      rewrite <-(take_drop n rounds'), Ed. apply elem_of_app. right. by left. }
    destruct g'; [done|]. by apply assistant_not_tool.
Qed.

(** ** Examples *)

Definition sample_options : SanitizeOptions :=
  mk_options false true false false DEFAULT_REASONING_REPLAY_PLACEHOLDER false.

Definition sample_raw : list message :=
  [ [($"role", VStr $"user"); ($"content", VStr $"hi")];
    [($"role", VStr $"assistant"); ($"reasoning_content", VStr $"hm");
     ($"tool_calls", VList [VDict [($"id", VNone); ($"function", VDict [($"name", VStr $"ls")])]])];
    [($"role", VStr $"assistant"); ($"content", VNone)] ].

Lemma sample_raw_wf : Forall sanitize_wf sample_raw.
Proof.
  repeat constructor; intros Ha.
  - by vm_compute in Ha.
  - eexists. split; [by vm_compute|]. constructor; [|constructor].
    eexists _, _, []. by vm_compute.
  - by exists [].
Defined.

Definition sample_clean : list message :=
  [ [($"role", VStr $"user"); ($"content", VStr $"hi")];
    [($"role", VStr $"assistant");
     ($"tool_calls", VList [VDict [($"id", VStr $"recovered_tool_call_1_0");
                                   ($"function", VDict [($"name", VStr $"ls")])]])];
    sample_output $"recovered_tool_call_1_0" $"Tool 'ls' output missing.";
    [($"role", VStr $"assistant");
     ($"content", VStr $"[No assistant content returned.]")] ].

Example sample_raw_sanitized :
  sanitize_messages_for_llm sample_options (Some $" Tool_Calls ") sample_raw = Ok sample_clean.
Proof. by vm_compute. Qed.

Lemma sanitize_sound_witness :
  exists out, sanitize_messages_for_llm sample_options None sample_raw = Ok out /\ contract out.
Proof.
  destruct (sanitize_sound sample_options None sample_raw sample_raw_wf) as (out & H & Hc & _).
  exists out. split; [exact H|exact Hc].
Defined.

Lemma sample_clean_contract : contract sample_clean.
Proof.
  apply (contract_block _ [] _); [done|constructor|].
  apply (contract_block _ [_] _); [done|by repeat constructor|].
  apply (contract_block _ [] []); [done|constructor|constructor].
Defined.

Lemma recent_round_start_spec_witness :
  recent_round_start sample_clean 1 = 3 /\ contract (slice_from 3 sample_clean).
Proof.
  split; [by vm_compute|].
  exact (proj2 (proj2 (proj2 (recent_round_start_spec sample_clean 1 sample_clean_contract)))).
Defined.
