(* ===== verification/Ledger.v ===== *)
(** * The semantic history ledger (domain/history.py)

    The ledger keeps every event in memory in sequence order and appends it as
    one JSON line to the bound file; events recorded while no file is bound are
    kept and written by the next [bind_jsonl].  [LedgerState] is the object and
    [Disk] the files it writes, as texts of code points.

    Random identifiers, the clock and the result of each write are inputs
    ([Tick], [WriteOutcome]): a write that fails may leave any prefix of its
    text in the file.  The performance monitor only records timings and is left
    out; [item_provenance] reads the events and changes nothing.

    Other components see a ledger through the class [EventLog]. *)

From S2P Require Import Prelude PyValue ToolHistory ContextMessages.

Record HistoryEvent := {
  schema_version : Z;
  seq : Z;
  event_id : pystr;
  kind : pystr;
  created_at : pystr;
  session_generation : Z;
  payload : pydict;
  session_id : option pystr;
  agent_id : option pystr;
  parent_agent_id : option pystr;
  job_id : option pystr;
  turn_id : option pystr;
  api_round_id : option pystr;
  role : option pystr;
  artifact_refs : list pystr;
  supersedes_event_ids : list pystr;
}.

(** [HistoryEvent.to_dict]. *)
Definition event_to_dict (e : HistoryEvent) : pydict :=
  [ ($"schema_version", VInt (schema_version e)); ($"seq", VInt (seq e));
    ($"event_id", VStr (event_id e)); ($"kind", VStr (kind e));
    ($"created_at", VFloat (created_at e));
    ($"session_generation", VInt (session_generation e));
    ($"payload", VDict (payload e));
    ($"session_id", of_optional_str (session_id e));
    ($"agent_id", of_optional_str (agent_id e));
    ($"parent_agent_id", of_optional_str (parent_agent_id e));
    ($"job_id", of_optional_str (job_id e));
    ($"turn_id", of_optional_str (turn_id e));
    ($"api_round_id", of_optional_str (api_round_id e));
    ($"role", of_optional_str (role e));
    ($"artifact_refs", VList (map VStr (artifact_refs e)));
    ($"supersedes_event_ids", VList (map VStr (supersedes_event_ids e)));
    ($"timestamp", VFloat (created_at e)) ].

Section FromDict.
Context `{PyCoercions}.

(** [HistoryEvent.from_dict]; [fresh] is the identifier generated when the
    record has none. *)
Definition event_from_dict (fresh : pystr) (data : pydict) : result HistoryEvent :=
  schema_version ← py_int (dget_or data $"schema_version" (VInt 1));
  seq ← py_int (dget_or data $"seq" (VInt 0));
  created_at ← py_float (dget_or data $"timestamp"
                           (dget_or data $"created_at" (VFloat $"0.0")));
  session_generation ← py_int (dget_or data $"session_generation" (VInt 0));
  payload ← dict_of (py_or (dget_none data $"payload") (VDict []));
  artifact_refs ← py_iter (dget_or data $"artifact_refs" (VList []));
  supersedes ← py_iter (dget_or data $"supersedes_event_ids" (VList []));
  Ok {| schema_version := schema_version;
        seq := seq;
        event_id := py_str (py_or (dget_none data $"event_id") (VStr fresh));
        kind := py_str (py_or (dget_none data $"kind") (VStr $"unknown"));
        created_at := created_at;
        session_generation := session_generation;
        payload := payload;
        session_id := optional_str (dget_none data $"session_id");
        agent_id := optional_str (dget_none data $"agent_id");
        parent_agent_id := optional_str (dget_none data $"parent_agent_id");
        job_id := optional_str (dget_none data $"job_id");
        turn_id := optional_str (dget_none data $"turn_id");
        api_round_id := optional_str (dget_none data $"api_round_id");
        role := optional_str (dget_none data $"role");
        artifact_refs := map py_str artifact_refs;
        supersedes_event_ids := map py_str supersedes |}.
End FromDict.

(** ** The ledger *)

Record LedgerState := {
  events : list HistoryEvent;
  next_seq : Z;
  generation : Z;
  sink_path : option pystr;
  l_session_id : option pystr;
  l_agent_id : option pystr;
  sink_batch_depth : Z;
  pending_sink_events : list HistoryEvent;
  unbound_events : list HistoryEvent;
}.

Abbreviation Disk := (gmap pystr pystr).

(** What one write does: everything reaches the file, or the first [n]
    characters do and the call raises. *)
Inductive WriteOutcome :=
| Written
| WriteFails (e : exn) (n : nat).

Definition Store : Type := LedgerState * Disk.

Definition disk_append (path text : pystr) (w : WriteOutcome) (d : Disk) : result () * Disk :=
  let old := default [] (d !! path) in
  match w with
  | Written => (Ok (), <[path := old ++ text]> d)
  | WriteFails e 0 => (Raise e, d)
  | WriteFails e n => (Raise e, <[path := old ++ take n text]> d)
  end.

(** [json.dumps(event.to_dict(), ensure_ascii=False) + "\n"]. *)
Definition event_line (e : HistoryEvent) : pystr := json_default (VDict (event_to_dict e)) ++ [10].
Definition encoded_lines (l : list HistoryEvent) : pystr := concat (map event_line l).

Definition write_sink_events (l : list HistoryEvent) (w : WriteOutcome) : stm Store () :=
  fun '(L, d) =>
  match sink_path L, l with
  | None, _ | _, [] => (Ok (), (L, d))
  | Some path, _ =>
    let '(r, d') := disk_append path (encoded_lines l) w d in (r, (L, d'))
  end.

Definition append_to_sink (e : HistoryEvent) (w : WriteOutcome) : stm Store () :=
  fun '(L, d) =>
  match sink_path L with
  | None =>
    (Ok (), ({| events := events L; next_seq := next_seq L; generation := generation L;
                sink_path := sink_path L; l_session_id := l_session_id L;
                l_agent_id := l_agent_id L; sink_batch_depth := sink_batch_depth L;
                pending_sink_events := pending_sink_events L;
                unbound_events := unbound_events L ++ [e] |}, d))
  | Some _ =>
    if negb (sink_batch_depth L =? 0) then
      (Ok (), ({| events := events L; next_seq := next_seq L; generation := generation L;
                  sink_path := sink_path L; l_session_id := l_session_id L;
                  l_agent_id := l_agent_id L; sink_batch_depth := sink_batch_depth L;
                  pending_sink_events := pending_sink_events L ++ [e];
                  unbound_events := unbound_events L |}, d))
    else write_sink_events [e] w (L, d)
  end.

(** The attribution keywords of [append]. *)
Record Attribution := {
  at_agent_id : option pystr;
  at_parent_agent_id : option pystr;
  at_job_id : option pystr;
  at_turn_id : option pystr;
  at_api_round_id : option pystr;
  at_role : option pystr;
  at_artifact_refs : list pystr;
  at_supersedes : list pystr;
}.

Definition no_attribution : Attribution :=
  {| at_agent_id := None; at_parent_agent_id := None; at_job_id := None;
     at_turn_id := None; at_api_round_id := None; at_role := None;
     at_artifact_refs := []; at_supersedes := [] |}.

(** The random identifier, the clock and the write result one append meets. *)
Record Tick := { fresh_id : pystr; now : pystr; io : WriteOutcome }.

Definition new_event (L : LedgerState) (k : pystr) (p : pydict) (a : Attribution) (t : Tick)
    : HistoryEvent :=
  {| schema_version := 2;
     seq := next_seq L;
     event_id := $"he_" ++ fresh_id t;
     kind := k;
     created_at := now t;
     session_generation := generation L;
     payload := p;
     session_id := l_session_id L;
     agent_id := opt_or (at_agent_id a) (l_agent_id L);
     parent_agent_id := at_parent_agent_id a;
     job_id := at_job_id a;
     turn_id := at_turn_id a;
     api_round_id := at_api_round_id a;
     role := at_role a;
     artifact_refs := at_artifact_refs a;
     supersedes_event_ids := at_supersedes a |}.

Definition record_event (L : LedgerState) (e : HistoryEvent) : LedgerState :=
  {| events := events L ++ [e]; next_seq := next_seq L + 1; generation := generation L;
     sink_path := sink_path L; l_session_id := l_session_id L; l_agent_id := l_agent_id L;
     sink_batch_depth := sink_batch_depth L; pending_sink_events := pending_sink_events L;
     unbound_events := unbound_events L |}.

(** The payload goes through the JSON encoder and decoder, which give the same
    [pyval] back. *)
Definition append (k : pystr) (p : pydict) (a : Attribution) (t : Tick)
    : stm Store HistoryEvent := fun '(L, d) =>
  let e := new_event L k p a t in
  match append_to_sink e (io t) (record_event L e, d) with
  | (Ok _, s) => (Ok e, s)
  | (Raise x, s) => (Raise x, s)
  end.

Definition set_batch (depth : Z) (pending : list HistoryEvent) (L : LedgerState) : LedgerState :=
  {| events := events L; next_seq := next_seq L; generation := generation L;
     sink_path := sink_path L; l_session_id := l_session_id L; l_agent_id := l_agent_id L;
     sink_batch_depth := depth; pending_sink_events := pending;
     unbound_events := unbound_events L |}.

(** [_batch_sink_writes] around [body]; [w] is the result of the flush. *)
Definition batch_exit (w : WriteOutcome) : stm Store () := fun '(L, d) =>
  let L := set_batch (sink_batch_depth L - 1) (pending_sink_events L) L in
  if (sink_batch_depth L =? 0) && negb (bool_decide (length (pending_sink_events L) = 0%nat)) then
    let pending := pending_sink_events L in
    match write_sink_events pending w (L, d) with
    | (Ok _, (L, d)) =>
      (Ok (), (set_batch (sink_batch_depth L) (drop (length pending) (pending_sink_events L)) L, d))
    | (Raise e, s) => (Raise e, s)
    end
  else (Ok (), (L, d)).

Definition batch_sink_writes {A} (w : WriteOutcome) (body : stm Store A) : stm Store A :=
  fun '(L, d) =>
  st_finally body (batch_exit w)
    (set_batch (sink_batch_depth L + 1) (pending_sink_events L) L, d).

(** ** Messages *)

Definition message_semantic_kind (m : message) (source : pystr) : option pystr :=
  if bool_decide (source ∈ [$"subagent_result"; $"subagent_deferred"])
  then Some $"subagent_result"
  else if bool_decide (source = $"subagent_communication") then Some $"subagent_communication"
  else if bool_decide (source = $"subagent_conflict") then Some $"attention_raised"
  else if bool_decide (source ∈ [$"session_exit"; $"session_resume"])
          || startswith (str_or_empty (dget_none m $"content")) $"[SESSION_"
  then Some $"session_lifecycle"
  else if role_is m $"user" && negb (is_synthetic_context_message m) then Some $"user_message"
  else if role_is m $"assistant" && truthy (dget_none m $"tool_calls") then Some $"tool_call"
  else if role_is m $"assistant" then Some $"assistant_response"
  else if role_is m $"tool" then Some $"tool_result"
  else None.

Definition call_id_of (c : pyval) : option pystr :=
  match c with
  | VDict call =>
    let i := dget_none call $"id" in if truthy i then Some (py_str i) else None
  | _ => None
  end.

(** [for call in message.get("tool_calls") or ()]. *)
Definition message_tool_call_ids (m : message) : result (list pystr) :=
  let calls := dget_none m $"tool_calls" in
  if truthy calls then
    match py_iter calls with Ok l => Ok (omap call_id_of l) | Raise e => Raise e end
  else Ok [].

(** [{key: value for ... if key != "_rc_token_count"}]. *)
Definition canonical_message (m : message) : message := dpop m $"_rc_token_count".

Definition message_attribution (agent turn round : option pystr) (m : message) : Attribution :=
  {| at_agent_id := agent; at_parent_agent_id := None; at_job_id := None;
     at_turn_id := turn; at_api_round_id := round;
     at_role := optional_str (dget_none m $"role");
     at_artifact_refs := []; at_supersedes := [] |}.

Definition append_message (m : message) (source : pystr) (agent turn round : option pystr)
    (metadata : pydict) (t1 t2 : Tick) (w : WriteOutcome) : stm Store HistoryEvent :=
  let a := message_attribution agent turn round m in
  batch_sink_writes w (
    committed ← append $"message_committed"
      (dict_update [($"source", VStr source); ($"message", VDict (canonical_message m))] metadata)
      a t1;
    match message_semantic_kind m source with
    | Some k =>
      ids ← st_lift (message_tool_call_ids m);
      _ ← append k
        [($"message_event_id", VStr (event_id committed)); ($"source", VStr source);
         ($"tool_call_ids", VList (map VStr ids));
         ($"tool_call_id", dget_none m $"tool_call_id")] a t2;
      mret committed
    | None => mret committed
    end).

Definition append_context_view (messages : list message) (reason : pystr)
    (history_version : Z) (checkpoint_id : option pystr) (t1 t2 : Tick) (w : WriteOutcome)
    : stm Store HistoryEvent :=
  batch_sink_writes w (
    committed ← append $"context_view_committed"
      [($"reason", VStr reason); ($"history_version", VInt history_version);
       ($"checkpoint_id", of_optional_str checkpoint_id);
       ($"items", VList (map (fun m => VDict (canonical_message m)) messages))]
      no_attribution t1;
    match checkpoint_id with
    | Some c =>
      _ ← append $"context_checkpoint"
        [($"checkpoint_id", VStr c); ($"context_view_event_id", VStr (event_id committed));
         ($"history_version", VInt history_version)]
        {| at_agent_id := None; at_parent_agent_id := None; at_job_id := None;
           at_turn_id := None; at_api_round_id := None; at_role := None;
           at_artifact_refs := []; at_supersedes := [event_id committed] |} t2;
      mret committed
    | None => mret committed
    end).

(** ** Construction, sequence floors and binding *)

Definition seq_leb (e f : HistoryEvent) : bool := seq e <=? seq f.

Definition max_seq (l : list HistoryEvent) : Z :=
  match l with [] => 0 | e :: l' => foldl (fun a e => Z.max a (seq e)) (seq e) l' end.

(** [isinstance(floor, int) and not isinstance(floor, bool) and floor >= 0]. *)
Definition valid_floor (v : pyval) : option Z :=
  match v with VInt n => if n <? 0 then None else Some n | _ => None end.

Inductive EventInput := EvObject (e : HistoryEvent) | EvDict (fresh : pystr) (d : pydict).

Section Init.
Context `{PyCoercions}.

Fixpoint load_events (l : list EventInput) : result (list HistoryEvent) :=
  match l with
  | [] => Ok []
  | EvObject e :: l' => r ← load_events l'; Ok (e :: r)
  | EvDict fresh d :: l' =>
    e ← event_from_dict fresh d; r ← load_events l'; Ok (e :: r)
  end.

Definition ledger_init (l : list EventInput) (next_seq_floor : pyval) (gen : Z)
    (path sess agent : option pystr) : result LedgerState :=
  evs ← load_events l;
  let evs := stable_sort seq_leb evs in
  match valid_floor next_seq_floor with
  | None => Raise (ValueError $"next sequence floor must be a non-negative integer")
  | Some floor =>
    Ok {| events := evs;
          next_seq := Z.max (max_seq evs) floor + 1;
          generation := gen;
          sink_path := path;
          l_session_id := sess;
          l_agent_id := agent;
          sink_batch_depth := 0;
          pending_sink_events := [];
          unbound_events := [] |}
  end.
End Init.

Definition last_sequence (L : LedgerState) : Z := next_seq L - 1.

Definition raise_floor (v : pyval) : stm Store () := fun '(L, d) =>
  match valid_floor v with
  | None => (Raise (ValueError $"sequence floor must be a non-negative integer"), (L, d))
  | Some floor =>
    (Ok (), (if floor >=? next_seq L
             then {| events := events L; next_seq := floor + 1; generation := generation L;
                     sink_path := sink_path L; l_session_id := l_session_id L;
                     l_agent_id := l_agent_id L; sink_batch_depth := sink_batch_depth L;
                     pending_sink_events := pending_sink_events L;
                     unbound_events := unbound_events L |}
             else L, d))
  end.

Definition advance_generation (g : Z) : stm Store () := fun '(L, d) =>
  (Ok (), ({| events := events L; next_seq := next_seq L; generation := g;
              sink_path := sink_path L; l_session_id := l_session_id L;
              l_agent_id := l_agent_id L; sink_batch_depth := sink_batch_depth L;
              pending_sink_events := pending_sink_events L;
              unbound_events := unbound_events L |}, d)).

Definition set_sink (path : option pystr) (pending unbound : list HistoryEvent)
    (L : LedgerState) : LedgerState :=
  {| events := events L; next_seq := next_seq L; generation := generation L;
     sink_path := path; l_session_id := l_session_id L; l_agent_id := l_agent_id L;
     sink_batch_depth := sink_batch_depth L; pending_sink_events := pending;
     unbound_events := unbound |}.

(** The repair of a torn final record: a newline is written after it. *)
Definition repair_tail (path : pystr) (w : WriteOutcome) (d : Disk) : result () * Disk :=
  match d !! path with
  | Some text =>
    match last text with
    | Some c => if c =? 10 then (Ok (), d) else disk_append path [10] w d
    | None => (Ok (), d)
    end
  | None => (Ok (), d)
  end.

(** [w0] is the result of the repair, [w] of the flush. *)
Definition bind_jsonl (path : pystr) (w0 w : WriteOutcome) : stm Store () := fun '(L, d) =>
  match repair_tail path w0 d with
  | (Raise e, d) => (Raise e, (L, d))
  | (Ok _, d) =>
    let previous_path := sink_path L in
    let L := set_sink (Some path) (pending_sink_events L) (unbound_events L) L in
    match unbound_events L with
    | [] => (Ok (), (L, d))
    | pending =>
      match write_sink_events pending w (L, d) with
      | (Ok _, (L, d)) =>
        (Ok (), (set_sink (sink_path L) (pending_sink_events L)
                   (drop (length pending) (unbound_events L)) L, d))
      | (Raise e, (L, d)) =>
        (Raise e, (set_sink previous_path (pending_sink_events L) (unbound_events L) L, d))
      end
    end
  end.

Definition unbind_jsonl : stm Store () := fun '(L, d) =>
  (Ok (), (set_sink None [] (unbound_events L) L, d)).

Definition bind_context (sess agent : option pystr) : stm Store () := fun '(L, d) =>
  (Ok (), ({| events := events L; next_seq := next_seq L; generation := generation L;
              sink_path := sink_path L;
              l_session_id := match sess with Some _ => sess | None => l_session_id L end;
              l_agent_id := match agent with Some _ => agent | None => l_agent_id L end;
              sink_batch_depth := sink_batch_depth L;
              pending_sink_events := pending_sink_events L;
              unbound_events := unbound_events L |}, d)).

(** ** The interface other components use

    A client records events of its own kinds and reads all of them back.  The
    law says that a recorded event is in the log whether or not its write
    reached the file. *)
Class EventLog (S : Type) := {
  log_events : S -> list HistoryEvent;
  log_append : pystr -> pydict -> Attribution -> Tick -> stm S HistoryEvent;
  log_generation : S -> Z;
}.

Class EventLogLaws (S : Type) `{EventLog S} := {
  log_append_spec k p a t s :
    exists e, kind e = k /\ payload e = p /\
      log_events (log_append k p a t s).2 = log_events s ++ [e] /\
      (io t = Written -> (log_append k p a t s).1 = Ok e) /\
      (forall e', (log_append k p a t s).1 = Ok e' -> e' = e);
  log_append_generation k p a t s :
    log_generation (log_append k p a t s).2 = log_generation s /\
    forall e, (log_append k p a t s).1 = Ok e -> session_generation e = log_generation s;
}.

#[export] Instance store_event_log : EventLog Store := {
  log_events s := events s.1;
  log_append := append;
  log_generation s := generation s.1;
}.

(** ** Reasoning on stateful calls *)

(** [m] keeps [P] true, whether it returns or raises. *)
Definition keeps {S A} (P : S -> Prop) (m : stm S A) : Prop := forall s, P s -> P (m s).2.

Lemma keeps_ret {S A} (P : S -> Prop) (a : A) : keeps P (mret (M:=stm S) a).
Proof. by intros s Hs. Qed.

Lemma keeps_lift {S A} (P : S -> Prop) (r : result A) : keeps P (st_lift r).
Proof. by intros s Hs. Qed.

Lemma keeps_bind {S A B} (P : S -> Prop) (m : stm S A) (f : A -> stm S B) :
  keeps P m -> (forall a, keeps P (f a)) -> keeps P (m ≫= f).
Proof.
  intros Hm Hf s Hs. specialize (Hm s Hs). cbn. unfold stm_bind, mbind.
  destruct (m s) as [[a|e] s']; cbn in *; [by apply Hf|done].
Qed.

#[export] Hint Resolve keeps_ret keeps_lift keeps_bind : rcoder.

Section Recording.
(** [P k] is kept by recording calls at batch depth [k]. *)
Context (P : Z -> Store -> Prop) (ok : WriteOutcome -> Prop).
Hypothesis append_keeps : forall n k p a t, 0 <= n -> ok (io t) -> keeps (P n) (append k p a t).
Hypothesis enter_keeps : forall n L d,
  0 <= n -> P n (L, d) ->
  P (n + 1) (set_batch (sink_batch_depth L + 1) (pending_sink_events L) L, d).
Hypothesis exit_keeps : forall n w s, 0 <= n -> ok w -> P (n + 1) s -> P n (batch_exit w s).2.

Lemma batch_keeps {A} n w (body : stm Store A) :
  0 <= n -> ok w -> keeps (P (n + 1)) body -> keeps (P n) (batch_sink_writes w body).
Proof.
  intros Hn Hw Hb [L d] Hs. apply enter_keeps in Hs; [|done].
  unfold batch_sink_writes, st_finally. specialize (Hb _ Hs).
  destruct (body _) as [r s1]. cbn in Hb. apply (exit_keeps _ w) in Hb; [|done..].
  by destruct (batch_exit w s1) as [[]].
Qed.

Lemma append_message_keeps n m source agent turn round metadata t1 t2 w :
  0 <= n -> ok (io t1) -> ok (io t2) -> ok w ->
  keeps (P n) (append_message m source agent turn round metadata t1 t2 w).
Proof.
  intros. apply batch_keeps; [done|done|].
  apply keeps_bind; [apply append_keeps; [lia|done]|]. intros e.
  case_match; [|apply keeps_ret].
  apply keeps_bind; [apply keeps_lift|]. intros ids.
  apply keeps_bind; [apply append_keeps; [lia|done]|]. intros ?. apply keeps_ret.
Qed.

Lemma append_context_view_keeps n messages reason v c t1 t2 w :
  0 <= n -> ok (io t1) -> ok (io t2) -> ok w ->
  keeps (P n) (append_context_view messages reason v c t1 t2 w).
Proof.
  intros. apply batch_keeps; [done|done|].
  apply keeps_bind; [apply append_keeps; [lia|done]|]. intros e.
  case_match; [|apply keeps_ret].
  apply keeps_bind; [apply append_keeps; [lia|done]|]. intros ?. apply keeps_ret.
Qed.

End Recording.

(** ** Operations as data *)

Inductive LedgerOp :=
| OpAppend (k : pystr) (p : pydict) (a : Attribution) (t : Tick)
| OpMessage (m : message) (source : pystr) (agent turn round : option pystr)
    (metadata : pydict) (t1 t2 : Tick) (w : WriteOutcome)
| OpView (l : list message) (reason : pystr) (v : Z) (c : option pystr)
    (t1 t2 : Tick) (w : WriteOutcome)
| OpFloor (v : pyval)
| OpGeneration (g : Z)
| OpContext (sess agent : option pystr)
| OpBind (path : pystr) (w0 w : WriteOutcome)
| OpUnbind.

(** The state after a call, returned or raised. *)
Definition run_op (op : LedgerOp) (s : Store) : Store :=
  match op with
  | OpAppend k p a t => (append k p a t s).2
  | OpMessage m src ag tu ro md t1 t2 w => (append_message m src ag tu ro md t1 t2 w s).2
  | OpView l r v c t1 t2 w => (append_context_view l r v c t1 t2 w s).2
  | OpFloor v => (raise_floor v s).2
  | OpGeneration g => (advance_generation g s).2
  | OpContext a b => (bind_context a b s).2
  | OpBind p w0 w => (bind_jsonl p w0 w s).2
  | OpUnbind => (unbind_jsonl s).2
  end.

Definition run_ops (ops : list LedgerOp) (s : Store) : Store := foldl (fun s op => run_op op s) s ops.

(** Every write of the operation succeeds. *)
Definition op_written (op : LedgerOp) : Prop :=
  match op with
  | OpAppend _ _ _ t => io t = Written
  | OpMessage _ _ _ _ _ _ t1 t2 w | OpView _ _ _ _ t1 t2 w =>
    io t1 = Written /\ io t2 = Written /\ w = Written
  | OpBind _ w0 w => w0 = Written /\ w = Written
  | _ => True
  end.

(** The operations other than binding and unbinding. *)
Definition is_recording (op : LedgerOp) : bool :=
  match op with OpBind _ _ _ | OpUnbind => false | _ => true end.

(** ** Sequence numbers *)

Definition seq_lt (e f : HistoryEvent) : Prop := seq e < seq f.
Definition seq_le (e f : HistoryEvent) : Prop := seq e <= seq f.

(** Nothing is lost or renumbered, and new events take new, increasing numbers. *)
Definition grows (L L' : LedgerState) : Prop :=
  next_seq L <= next_seq L' /\
  exists new, events L' = events L ++ new /\ StronglySorted seq_lt new /\
    Forall (fun e => next_seq L <= seq e < next_seq L') new.

Definition ledger_wf (L : LedgerState) : Prop :=
  StronglySorted seq_le (events L) /\ Forall (fun e => seq e < next_seq L) (events L).

Lemma strongly_sorted_app {A} (R : A -> A -> Prop) l k :
  StronglySorted R l -> StronglySorted R k ->
  (forall x y, x ∈ l -> y ∈ k -> R x y) -> StronglySorted R (l ++ k).
Proof.
  intros Hl Hk HR. induction Hl as [|x l Hl IH Hx]; cbn; [done|].
  constructor.
  - apply IH. intros. apply HR; [by right|done].
  - apply Forall_app. split; [done|]. apply Forall_forall. intros y Hy. apply HR; [left|done].
Qed.

Lemma grows_refl L : grows L L.
Proof. split; [done|]. exists []. rewrite app_nil_r. by repeat constructor. Qed.

Lemma grows_trans L1 L2 L3 : grows L1 L2 -> grows L2 L3 -> grows L1 L3.
Proof.
  intros [H12 (n1 & E1 & S1 & B1)] [H23 (n2 & E2 & S2 & B2)]. split; [lia|].
  exists (n1 ++ n2). rewrite E2, E1, <-app_assoc. split; [done|].
  rewrite Forall_forall in B1, B2. split.
  - apply strongly_sorted_app; [done..|]. intros x y Hx Hy.
    specialize (B1 x Hx). specialize (B2 y Hy). unfold seq_lt. lia.
  - apply Forall_app; split; apply Forall_forall; intros x Hx;
      [specialize (B1 x Hx)|specialize (B2 x Hx)]; lia.
Qed.

(** Changes that touch neither the events nor the counter. *)
Lemma grows_same L L' : events L' = events L -> next_seq L' = next_seq L -> grows L L'.
Proof.
  intros E1 E2. split; [by rewrite E2|]. exists []. rewrite app_nil_r.
  by repeat constructor.
Qed.

Lemma grows_wf L L' : ledger_wf L -> grows L L' -> ledger_wf L'.
Proof.
  intros [Hs Hb] [Hn (new & E & Hn' & Hr)]. unfold ledger_wf. rewrite E.
  rewrite Forall_forall in Hb, Hr. split.
  - apply strongly_sorted_app; [done| |].
    + clear -Hn'. induction Hn' as [|x l ? IH Hx]; constructor; [done|].
      eapply Forall_impl; [exact Hx|]. unfold seq_lt, seq_le. intros; lia.
    + intros x y Hx Hy. specialize (Hb x Hx). specialize (Hr y Hy). unfold seq_le. lia.
  - apply Forall_app; split; apply Forall_forall; intros x Hx;
      [specialize (Hb x Hx)|specialize (Hr x Hx)]; lia.
Qed.

Lemma write_sink_events_ledger l w L d :
  exists r d', write_sink_events l w (L, d) = (r, (L, d')).
Proof.
  unfold write_sink_events. destruct (sink_path L); [|eauto].
  destruct l; [eauto|]. destruct (disk_append _ _ _ _). eauto.
Qed.

Lemma append_to_sink_frame e w L d r L' d' :
  append_to_sink e w (L, d) = (r, (L', d')) -> events L' = events L /\ next_seq L' = next_seq L.
Proof.
  unfold append_to_sink. intros H. destruct (sink_path L); [|by simplify_eq].
  destruct (negb _); [by simplify_eq|].
  destruct (write_sink_events_ledger [e] w L d) as (r' & d'' & Hw).
  rewrite Hw in H. by simplify_eq.
Qed.

Lemma append_state k p a t L d :
  let e := new_event L k p a t in
  exists L' d', (append k p a t (L, d)).2 = (L', d') /\
    events L' = events L ++ [e] /\ next_seq L' = next_seq L + 1.
Proof.
  intros e. unfold append. fold e.
  destruct (append_to_sink e (io t) (record_event L e, d)) as [r [L' d']] eqn:E.
  apply append_to_sink_frame in E as [E1 E2]. exists L', d'. by destruct r.
Qed.

Lemma append_grows L0 k p a t :
  keeps (fun s : Store => grows L0 s.1) (append k p a t).
Proof.
  intros [L d] HL. change (grows L0 (append k p a t (L, d)).2.1). change (grows L0 L) in HL.
  destruct (append_state k p a t L d) as (L' & d' & E & E1 & E2).
  rewrite E. eapply grows_trans; [exact HL|]. cbn. split; [lia|].
  exists [new_event L k p a t]. rewrite E2. split; [done|]. split; [by repeat constructor|].
  constructor; [cbn; lia|constructor].
Qed.

Lemma batch_exit_frame w L d r L' d' :
  batch_exit w (L, d) = (r, (L', d')) -> events L' = events L /\ next_seq L' = next_seq L.
Proof.
  unfold batch_exit. set (L1 := set_batch _ _ _). intros H. destruct (_ && _); [|by simplify_eq].
  destruct (write_sink_events_ledger (pending_sink_events L1) w L1 d) as (r' & d'' & Hw).
  rewrite Hw in H. destruct r'; by simplify_eq.
Qed.

Lemma bind_jsonl_frame p w0 w L d r L' d' :
  bind_jsonl p w0 w (L, d) = (r, (L', d')) -> events L' = events L /\ next_seq L' = next_seq L.
Proof.
  unfold bind_jsonl. destruct (repair_tail p w0 d) as [[[]|x] d1]; [|by intros; simplify_eq].
  set (L1 := set_sink _ _ _ L). intros H.
  destruct (unbound_events L1) as [|e l] eqn:E; [by simplify_eq|].
  destruct (write_sink_events_ledger (e :: l) w L1 d1) as (r' & d'' & Hw).
  rewrite Hw in H. destruct r'; by simplify_eq.
Qed.

Lemma run_op_grows op L d : grows L (run_op op (L, d)).1.
Proof.
  assert (Hexit : forall n w s, 0 <= n -> True -> grows L s.1 -> grows L (batch_exit w s).2.1).
  { intros _ w [L1 d1] _ _ HL1. destruct (batch_exit w (L1, d1)) as [r [L2 d2]] eqn:E.
    apply batch_exit_frame in E as [? ?]. eapply grows_trans; [exact HL1|]. by apply grows_same. }
  assert (Hrec : forall {A} (m : stm Store A), keeps (fun s => grows L s.1) m ->
    grows L (m (L, d)).2.1).
  { intros A m Hm. apply (Hm (L, d)). apply grows_refl. }
  destruct op; cbn [run_op].
  - apply Hrec. apply (append_grows L).
  - apply Hrec. apply (append_message_keeps (fun _ s => grows L s.1) (fun _ => True)) with (n := 0);
      try done; intros; by apply (append_grows L).
  - apply Hrec. apply (append_context_view_keeps (fun _ s => grows L s.1) (fun _ => True)) with (n := 0);
      try done; intros; by apply (append_grows L).
  - unfold raise_floor. destruct (valid_floor v); [|apply grows_refl]. cbn.
    destruct (_ >=? _) eqn:E; [|apply grows_refl]. split; cbn; [zbool; lia|].
    exists []. rewrite app_nil_r. by repeat constructor.
  - by apply grows_same.
  - by apply grows_same.
  - destruct (bind_jsonl path w0 w (L, d)) as [r [L2 d2]] eqn:E.
    apply bind_jsonl_frame in E as [? ?]. by apply grows_same.
  - by apply grows_same.
Qed.

Lemma run_ops_grows ops L d : grows L (run_ops ops (L, d)).1.
Proof.
  revert L d. induction ops as [|op ops IH]; intros L d; [apply grows_refl|].
  eapply grows_trans; [apply (run_op_grows op L d)|]. unfold run_ops. cbn.
  destruct (run_op op (L, d)) as [L1 d1]. apply IH.
Qed.

Lemma seq_leb_trans x y z : seq_leb x y = true -> seq_leb y z = true -> seq_leb x z = true.
Proof. unfold seq_leb. rewrite !Z.leb_le. lia. Qed.

Lemma seq_leb_total x y : seq_leb x y = false -> seq_leb y x = true.
Proof. unfold seq_leb. rewrite Z.leb_gt, Z.leb_le. lia. Qed.

Lemma max_seq_bound l : Forall (fun e => seq e <= max_seq l) l.
Proof.
  destruct l as [|e l]; [done|]. unfold max_seq.
  assert (H : forall l a, a <= foldl (fun a e => Z.max a (seq e)) a l /\
    Forall (fun e => seq e <= foldl (fun a e => Z.max a (seq e)) a l) l).
  { clear. induction l as [|x l IH]; intros a; cbn; [done|].
    destruct (IH (Z.max a (seq x))) as [H1 H2]. split; [lia|]. constructor; [lia|done]. }
  destruct (H l (seq e)) as [H1 H2]. constructor; [lia|done].
Qed.

Lemma ledger_init_wf `{PyCoercions} l fl gen path sess agent L :
  ledger_init l fl gen path sess agent = Ok L ->
  ledger_wf L /\ (exists floor, valid_floor fl = Some floor /\ floor <= last_sequence L) /\
  (exists evs, load_events l = Ok evs /\ events L ≡ₚ evs) /\
  pending_sink_events L = [] /\ unbound_events L = [] /\ sink_batch_depth L = 0 /\
  sink_path L = path.
Proof.
  unfold ledger_init. destruct (load_events l) as [evs|e]; [|done]. cbn.
  destruct (valid_floor fl) as [floor|] eqn:Ef; [|done]. intros [= <-].
  unfold ledger_wf, last_sequence. cbn. split_and!; try done.
  - pose proof (stable_sort_sorted seq_leb seq_leb_trans seq_leb_total evs) as Hs.
    clear -Hs. induction Hs as [|x l ? IH Hx]; constructor; [done|].
    eapply Forall_impl; [exact Hx|]. unfold seq_leb, seq_le. intros y Hy. cbn in Hy. by zbool.
  - eapply Forall_impl; [apply max_seq_bound|]. cbn. lia.
  - exists floor. split; [done|lia].
  - exists evs. split; [done|]. apply stable_sort_Permutation.
Qed.

(** Whatever operations run on a ledger, including writes that fail and
    bindings that are rejected, no event is lost, altered or reordered: the
    loaded events stay first, sorted by sequence; every new event has a number
    above all reserved and used ones, strictly increasing in order of record,
    and [last_sequence] bounds every number. *)
Theorem ledger_sequence `{PyCoercions} l fl gen path sess agent L0 d0 ops :
  ledger_init l fl gen path sess agent = Ok L0 ->
  let L := (run_ops ops (L0, d0)).1 in
  ledger_wf L /\
  exists new, events L = events L0 ++ new /\ StronglySorted seq_lt new /\
    Forall (fun e => last_sequence L0 < seq e <= last_sequence L) new /\
    (exists floor, valid_floor fl = Some floor /\ Forall (fun e => floor < seq e) new).
Proof.
  intros Hi L. apply ledger_init_wf in Hi as (Hwf & (floor & Hf & Hle) & _).
  pose proof (run_ops_grows ops L0 d0) as Hg. split; [by eapply grows_wf|].
  destruct Hg as [_ (new & E & Hs & Hr)]. exists new. split_and!; [done|done| |].
  - eapply Forall_impl; [exact Hr|]. unfold last_sequence, L. cbn. lia.
  - exists floor. split; [done|]. eapply Forall_impl; [exact Hr|].
    unfold last_sequence in Hle. cbn. lia.
Qed.

(** ** Durability *)

Definition file (d : Disk) (p : pystr) : pystr := default [] (d !! p).

Lemma file_insert d p t : file (<[p := t]> d) p = t.
Proof. unfold file. by rewrite lookup_insert_eq. Qed.

Lemma encoded_lines_app l k : encoded_lines (l ++ k) = encoded_lines l ++ encoded_lines k.
Proof. unfold encoded_lines. by rewrite map_app, concat_app. Qed.

(** Every event after the first [n] is in the file [p], in order, apart from
    those of an open batch; no other file changes. *)
Record synced (p base : pystr) (d0 : Disk) (n : nat) (k : Z) (s : Store) : Prop := {
  sy_sink : sink_path s.1 = Some p;
  sy_unbound : unbound_events s.1 = [];
  sy_depth : sink_batch_depth s.1 = k;
  sy_pending : k = 0 -> pending_sink_events s.1 = [];
  sy_others : delete p s.2 = delete p d0;
  sy_length : (n <= length (events s.1))%nat;
  sy_file : exists w, file s.2 p = base ++ encoded_lines w /\
    drop n (events s.1) = w ++ pending_sink_events s.1;
}.

Lemma append_synced p base d0 n k0 k pl a t :
  0 <= k0 -> io t = Written -> keeps (synced p base d0 n k0) (append k pl a t).
Proof.
  intros Hk Ht [L d] [Hsink Hun Hdep Hpend Hoth Hlen (w & Hfile & Hdrop)]. cbn in *.
  unfold append. set (e := new_event L k pl a t). unfold append_to_sink.
  cbn [record_event sink_path sink_batch_depth]. rewrite Hsink, Hdep.
  assert (Hdrop' : drop n (events L ++ [e]) = w ++ pending_sink_events L ++ [e]).
  { rewrite drop_app_le by done. by rewrite Hdrop, <-app_assoc. }
  destruct (k0 =? 0) eqn:E; cbn [negb].
  - apply Z.eqb_eq in E. unfold write_sink_events. cbn [record_event sink_path].
    rewrite Ht. cbn. rewrite Hpend in Hdrop' by done.
    split; cbn; rewrite ?length_app; try done; [by rewrite delete_insert_eq|lia|].
    exists (w ++ [e]). rewrite file_insert. fold (file d p). rewrite Hfile, encoded_lines_app.
    split; [by rewrite <-app_assoc|]. by rewrite Hpend, app_nil_r by done.
  - zbool. split; cbn; rewrite ?length_app; try done; [lia|]. by exists w.
Qed.

Lemma enter_synced p base d0 n k L d :
  0 <= k -> synced p base d0 n k (L, d) ->
  synced p base d0 n (k + 1) (set_batch (sink_batch_depth L + 1) (pending_sink_events L) L, d).
Proof.
  intros Hk [Hsink Hun Hdep Hpend Hoth Hlen Hfile]. split; cbn in *; try done; [by rewrite Hdep|lia].
Qed.

Lemma exit_synced p base d0 n k w s :
  0 <= k -> w = Written -> synced p base d0 n (k + 1) s -> synced p base d0 n k (batch_exit w s).2.
Proof.
  destruct s as [L d].
  intros Hk -> [Hsink Hun Hdep Hpend Hoth Hlen (ws & Hfile & Hdrop)]. cbn in *.
  unfold batch_exit. cbn [sink_batch_depth pending_sink_events set_batch].
  rewrite Hdep, Z.add_simpl_r.
  destruct (pending_sink_events L) as [|e pend] eqn:Epend.
  - cbn [length]. rewrite bool_decide_eq_true_2 by done. rewrite andb_false_r. cbn.
    split; cbn; try done. exists ws. done.
  - rewrite bool_decide_eq_false_2 by done. cbn [negb]. rewrite andb_true_r.
    destruct (k =? 0) eqn:E.
    + apply Z.eqb_eq in E. subst k. unfold write_sink_events. cbn [set_batch sink_path].
      rewrite Hsink. cbn [disk_append].
      split; cbn; try done; [by rewrite drop_all|by rewrite delete_insert_eq|].
      exists (ws ++ e :: pend). rewrite file_insert. fold (file d p).
      rewrite Hfile, encoded_lines_app, <-app_assoc, drop_all, app_nil_r. done.
    + zbool. cbn. split; cbn; try done. exists ws. done.
Qed.

Lemma run_recording_synced p base d0 n op s :
  is_recording op = true -> op_written op ->
  synced p base d0 n 0 s -> synced p base d0 n 0 (run_op op s).
Proof.
  intros Hrec Hok Hs. destruct op; cbn [run_op]; cbn in Hrec, Hok; try done.
  - by apply append_synced.
  - destruct Hok as (? & ? & ?).
    apply (append_message_keeps (synced p base d0 n) (fun w => w = Written)) with (n := 0); try done.
    + intros. by apply append_synced.
    + intros. by apply enter_synced.
    + intros. by apply exit_synced.
  - destruct Hok as (? & ? & ?).
    apply (append_context_view_keeps (synced p base d0 n) (fun w => w = Written)) with (n := 0); try done.
    + intros. by apply append_synced.
    + intros. by apply enter_synced.
    + intros. by apply exit_synced.
  - destruct s as [L d]. unfold raise_floor. destruct (valid_floor v); [|done]. cbn.
    destruct Hs. case_match; by split.
  - destruct s as [L d], Hs. by split.
  - destruct s as [L d], Hs. by split.
Qed.

Lemma run_ops_synced p base d0 n ops s :
  Forall (fun op => is_recording op = true /\ op_written op) ops ->
  synced p base d0 n 0 s -> synced p base d0 n 0 (run_ops ops s).
Proof.
  intros Hops. revert s. induction Hops as [|op ops [Hr Hw] _ IH]; intros s Hs; [done|].
  apply IH. by apply run_recording_synced.
Qed.

(** While no file is bound, every event joins the unbound ones and no write
    happens. *)
Record unsynced (u0 : list HistoryEvent) (d0 : Disk) (n : nat) (k : Z) (s : Store) : Prop := {
  us_sink : sink_path s.1 = None;
  us_pending : pending_sink_events s.1 = [];
  us_depth : sink_batch_depth s.1 = k;
  us_disk : s.2 = d0;
  us_length : (n <= length (events s.1))%nat;
  us_unbound : unbound_events s.1 = u0 ++ drop n (events s.1);
}.

Lemma append_unsynced u0 d0 n k0 k pl a t : keeps (unsynced u0 d0 n k0) (append k pl a t).
Proof.
  intros [L d] [Hsink Hpend Hdep Hd Hlen Hun]. cbn in *.
  unfold append. unfold append_to_sink. cbn [record_event sink_path]. rewrite Hsink.
  split; cbn; rewrite ?length_app; try done; [lia|].
  rewrite Hun, drop_app_le by done. by rewrite <-app_assoc.
Qed.

Lemma exit_unsynced u0 d0 n k w s :
  unsynced u0 d0 n (k + 1) s -> unsynced u0 d0 n k (batch_exit w s).2.
Proof.
  destruct s as [L d]. intros [Hsink Hpend Hdep Hd Hlen Hun]. cbn in *.
  unfold batch_exit. cbn [sink_batch_depth pending_sink_events set_batch].
  rewrite Hpend, andb_false_r. split; cbn; try done. lia.
Qed.

Lemma run_ops_unsynced u0 d0 n ops s :
  Forall (fun op => is_recording op = true) ops ->
  unsynced u0 d0 n 0 s -> unsynced u0 d0 n 0 (run_ops ops s).
Proof.
  intros Hops. revert s. induction Hops as [|op ops Hr _ IH]; intros s Hs; [done|]. apply IH.
  assert (Henter : forall k L d, 0 <= k -> unsynced u0 d0 n k (L, d) ->
    unsynced u0 d0 n (k + 1) (set_batch (sink_batch_depth L + 1) (pending_sink_events L) L, d)).
  { intros k L d Hk []. split; cbn in *; try done. lia. }
  destruct op; cbn [run_op]; cbn in Hr; try done.
  - by apply append_unsynced.
  - apply (append_message_keeps (unsynced u0 d0 n) (fun _ => True)) with (n := 0); try done.
    + intros. apply append_unsynced.
    + intros. by apply exit_unsynced.
  - apply (append_context_view_keeps (unsynced u0 d0 n) (fun _ => True)) with (n := 0); try done.
    + intros. apply append_unsynced.
    + intros. by apply exit_unsynced.
  - destruct s as [L d]. unfold raise_floor. destruct (valid_floor v); [|done]. cbn.
    destruct Hs. case_match; by split.
  - destruct s as [L d], Hs. by split.
  - destruct s as [L d], Hs. by split.
Qed.

(** ** Binding *)

(** A file with its torn last record closed. *)
Definition repaired (t : pystr) : pystr :=
  match last t with
  | Some c => if c =? 10 then t else t ++ [10]
  | None => t
  end.

Lemma repair_tail_spec p w d :
  let '(r, d') := repair_tail p w d in
  delete p d' = delete p d /\ file d p `prefix_of` file d' p /\
  (w = Written -> r = Ok () /\ file d' p = repaired (file d p)) /\
  (r = Ok () -> file d' p = repaired (file d p)).
Proof.
  unfold repair_tail, file, repaired. destruct (d !! p) as [t|] eqn:E; cbn.
  - destruct (last t) as [c|] eqn:El; [|by rewrite E; cbn; rewrite ?El].
    destruct (c =? 10) eqn:Ec; [by rewrite E; cbn; rewrite ?El, ?Ec|].
    destruct w as [|x [|m]]; cbn; rewrite ?E, ?lookup_insert_eq, ?delete_insert_eq; cbn.
    + split_and!; try done. by apply prefix_app_r.
    + done.
    + split_and!; try done. by apply prefix_app_r.
  - rewrite E. done.
Qed.

Lemma disk_append_spec p t w d :
  let '(r, d') := disk_append p t w d in
  delete p d' = delete p d /\ file d p `prefix_of` file d' p /\
  (r = Ok () <-> w = Written) /\ (r = Ok () -> file d' p = file d p ++ t).
Proof.
  unfold disk_append, file.
  destruct w as [|x [|m]]; cbn; rewrite ?lookup_insert_eq, ?delete_insert_eq; cbn;
    split_and!; try done; by apply prefix_app_r.
Qed.

Lemma bind_sink_ok p L d :
  let s := (bind_jsonl p Written Written (L, d)).2 in
  delete p s.2 = delete p d /\
  file s.2 p = repaired (file d p) ++ encoded_lines (unbound_events L) /\
  s.1 = set_sink (Some p) (pending_sink_events L) [] L.
Proof.
  unfold bind_jsonl. pose proof (repair_tail_spec p Written d) as Hr.
  destruct (repair_tail p Written d) as [r d1]. destruct Hr as (Hd & _ & Hf & _).
  destruct (Hf eq_refl) as [-> Hf']. cbn [set_sink unbound_events].
  destruct (unbound_events L) as [|e l] eqn:E.
  - cbn. rewrite app_nil_r. done.
  - unfold write_sink_events. cbn [set_sink sink_path disk_append].
    cbn -[encoded_lines]. rewrite delete_insert_eq, file_insert, drop_all, <-Hf'. done.
Qed.

Lemma set_sink_same L : set_sink (sink_path L) (pending_sink_events L) (unbound_events L) L = L.
Proof. by destruct L. Qed.

(** C17: Durability.  Record events on a ledger that has no file, bind it to a
    file, and record more: if those writes succeed, the file is its old content,
    with a torn last record closed by a newline, followed by the JSON line of
    every recorded event exactly once and in order of record.  No other file
    changes, and nothing is left waiting. *)
Theorem ledger_durable `{PyCoercions} l fl gen sess agent L0 d0 ops1 p ops2 :
  ledger_init l fl gen None sess agent = Ok L0 ->
  Forall (fun op => is_recording op = true) ops1 ->
  Forall (fun op => is_recording op = true /\ op_written op) ops2 ->
  let s := run_ops (ops1 ++ OpBind p Written Written :: ops2) (L0, d0) in
  let new := drop (length (events L0)) (events s.1) in
  events s.1 = events L0 ++ new /\
  file s.2 p = repaired (file d0 p) ++ encoded_lines new /\
  delete p s.2 = delete p d0 /\
  unbound_events s.1 = [] /\ pending_sink_events s.1 = [].
Proof.
  intros Hi H1 H2 s new. apply ledger_init_wf in Hi as (_ & _ & _ & Hp & Hu & Hb & Hsk).
  assert (Hs1 : unsynced [] d0 (length (events L0)) 0 (run_ops ops1 (L0, d0))).
  { apply run_ops_unsynced; [done|]. split; cbn; try done. by rewrite Hu, drop_all. }
  assert (Hs : synced p (repaired (file d0 p)) d0 (length (events L0)) 0 s).
  { subst s. unfold run_ops. rewrite foldl_app. cbn [foldl].
    fold (run_ops ops1 (L0, d0)). destruct (run_ops ops1 (L0, d0)) as [L1 d1].
    apply run_ops_synced; [done|]. cbn [run_op].
    destruct Hs1 as [Hsink Hpend Hdep Hd Hlen Hun].
    cbn [fst snd] in Hsink, Hpend, Hdep, Hd, Hlen, Hun. subst d1.
    pose proof (bind_sink_ok p L1 d0) as Hbind.
    destruct (bind_jsonl p Written Written (L1, d0)) as [r [L2 d2]]. cbn in Hbind |- *.
    destruct Hbind as (Hdel & Hfile & ->). split; cbn; try done.
    exists (drop (length (events L0)) (events L1)). split; [by rewrite Hfile, Hun|].
    by rewrite Hpend, app_nil_r. }
  pose proof (run_ops_grows (ops1 ++ OpBind p Written Written :: ops2) L0 d0) as [_ (n & E & _)].
  fold s in E. destruct Hs as [_ ? _ Hpend Hoth _ (w & Hf & Hw)].
  rewrite (Hpend eq_refl), app_nil_r in Hw. fold new in Hw. subst w.
  split_and!; try done; [|by apply Hpend].
  subst new. rewrite E, drop_app_length. done.
Qed.

(** A binding that fails, in the repair of the file or in the flush, leaves
    the ledger as it was, so that no unbound event is lost, and only appends to
    the file; a binding that succeeds has flushed every unbound event. *)
Theorem bind_jsonl_spec p w0 w L d :
  let '(r, (L', d')) := bind_jsonl p w0 w (L, d) in
  delete p d' = delete p d /\ file d p `prefix_of` file d' p /\
  match r with
  | Ok _ => L' = set_sink (Some p) (pending_sink_events L) [] L /\
            file d' p = repaired (file d p) ++ encoded_lines (unbound_events L)
  | Raise _ => L' = L
  end.
Proof.
  unfold bind_jsonl. pose proof (repair_tail_spec p w0 d) as Hr.
  destruct (repair_tail p w0 d) as [[[]|x] d1]; destruct Hr as (Hd & Hpre & _ & Hok); [|done].
  specialize (Hok eq_refl). cbn [set_sink unbound_events].
  destruct (unbound_events L) as [|e l] eqn:E.
  - split_and!; try done; by rewrite Hok, app_nil_r.
  - unfold write_sink_events. cbn [set_sink sink_path].
    pose proof (disk_append_spec p (encoded_lines (e :: l)) w d1) as Hw.
    destruct (disk_append p (encoded_lines (e :: l)) w d1) as [[[]|x] d2];
      destruct Hw as (Hd2 & Hpre2 & _ & Hf2); cbn -[encoded_lines].
    + split_and!; [congruence|by etrans| |by rewrite (Hf2 eq_refl), Hok].
      by rewrite drop_all.
    + split_and!; [congruence|by etrans|]. destruct L; cbn in *; by subst.
Qed.

(** ** What a message records *)

(** Inside a batch an append only buffers its event. *)
Definition buffered (L : LedgerState) (e : HistoryEvent) : LedgerState :=
  let L1 := record_event L e in
  match sink_path L with
  | Some _ => set_sink (sink_path L) (pending_sink_events L ++ [e]) (unbound_events L) L1
  | None => set_sink None (pending_sink_events L) (unbound_events L ++ [e]) L1
  end.

Lemma append_buffers k p a t L d :
  sink_batch_depth L <> 0 ->
  append k p a t (L, d) = (Ok (new_event L k p a t), (buffered L (new_event L k p a t), d)).
Proof.
  intros Hb. unfold append, append_to_sink, buffered. cbn [record_event sink_path sink_batch_depth].
  destruct (sink_path L) eqn:E; [|by rewrite ?E].
  destruct (sink_batch_depth L =? 0) eqn:Eb; [by zbool|]. cbn. by rewrite ?E.
Qed.

Lemma buffered_frame L e :
  events (buffered L e) = events L ++ [e] /\ sink_path (buffered L e) = sink_path L /\
  sink_batch_depth (buffered L e) = sink_batch_depth L /\
  next_seq (buffered L e) = next_seq L + 1 /\ generation (buffered L e) = generation L /\
  l_session_id (buffered L e) = l_session_id L /\ l_agent_id (buffered L e) = l_agent_id L.
Proof. unfold buffered. by destruct (sink_path L) eqn:E. Qed.

Lemma batch_exit_result w L d :
  w = Written -> (batch_exit w (L, d)).1 = Ok ().
Proof.
  intros ->. unfold batch_exit. destruct (_ && _); [|done].
  unfold write_sink_events. cbn [set_batch sink_path].
  destruct (sink_path L); [|done]. by destruct (pending_sink_events _).
Qed.

(** The end of a batch whose body gave [r]. *)
Definition close_batch {A} (r : result A) (w : WriteOutcome) (s : Store) : result A * Store :=
  match batch_exit w s with
  | (Ok _, s2) => (r, s2)
  | (Raise e, s2) => (Raise e, s2)
  end.

Lemma close_batch_spec {A} (r : result A) w L d evs :
  events L = evs ->
  let '(r', (L', d')) := close_batch r w (L, d) in
  events L' = evs /\ (w = Written -> r' = r) /\ (is_ok r = false -> is_ok r' = false).
Proof.
  intros HL. unfold close_batch. pose proof (batch_exit_result w L d) as Hres.
  destruct (batch_exit w (L, d)) as [rx [Lx dx]] eqn:Ex. cbn in Hres.
  apply batch_exit_frame in Ex as [Ex _].
  destruct rx; split_and!; try congruence; try done; intros Hw; by specialize (Hres Hw).
Qed.

(** The events one message records: the message without its token count, and,
    when the message has a meaning of its own, one event that names it. *)
Definition message_payload (m : message) (source : pystr) (metadata : pydict) : pydict :=
  dict_update [($"source", VStr source); ($"message", VDict (canonical_message m))] metadata.

Definition semantic_payload (m : message) (source : pystr) (committed : HistoryEvent)
    (ids : list pystr) : pydict :=
  [ ($"message_event_id", VStr (event_id committed)); ($"source", VStr source);
    ($"tool_call_ids", VList (map VStr ids));
    ($"tool_call_id", dget_none m $"tool_call_id") ].

(** [append_message] records [message_committed] with the message and its
    metadata, then at most one event of the kind [message_semantic_kind] gives,
    which refers to the first by its identifier and follows it in sequence; the
    kind is the only thing that decides whether the second event exists, and a
    failed write loses neither.  Malformed tool calls keep the first event. *)
Theorem append_message_spec m source agent turn round metadata t1 t2 w L d :
  0 <= sink_batch_depth L ->
  let a := message_attribution agent turn round m in
  let c := new_event L $"message_committed" (message_payload m source metadata) a t1 in
  let '(r, (L', d')) := append_message m source agent turn round metadata t1 t2 w (L, d) in
  match message_semantic_kind m source, message_tool_call_ids m with
  | None, _ => events L' = events L ++ [c] /\ (w = Written -> r = Ok c)
  | Some k, Ok ids =>
    (exists e, events L' = events L ++ [c; e] /\ kind e = k /\ seq e = seq c + 1 /\
      payload e = semantic_payload m source c ids /\ role e = role c /\
      agent_id e = agent_id c /\ turn_id e = turn_id c) /\
    (w = Written -> r = Ok c)
  | Some _, Raise _ => events L' = events L ++ [c] /\ is_ok r = false
  end.
Proof.
  intros Hdep a c. unfold append_message, batch_sink_writes, st_finally. fold a.
  set (L0 := set_batch _ _ L).
  assert (Hb0 : sink_batch_depth L0 <> 0) by (cbn; lia).
  pose proof (append_buffers $"message_committed" (message_payload m source metadata) a t1 L0 d Hb0)
    as Happ.
  replace (new_event L0 $"message_committed" (message_payload m source metadata) a t1) with c
    in Happ by done.
  destruct (buffered_frame L0 c) as (He1 & _ & Hd1 & Hn1 & Hg1 & Hs1 & Ha1).
  set (L1 := buffered L0 c) in *. cbn [sink_batch_depth set_batch events next_seq L0] in *.
  unfold mbind, stm_bind. unfold message_payload in Happ. rewrite Happ.
  destruct (message_semantic_kind m source) as [k|].
  - destruct (message_tool_call_ids m) as [ids|e0]; cbn [st_lift mret stm_ret].
    + rewrite append_buffers by lia. unfold mret, stm_ret.
      set (e := new_event L1 k _ a t2). destruct (buffered_frame L1 e) as (He2 & _).
      rewrite He1, <-app_assoc in He2. pose proof (close_batch_spec (Ok c) w _ d _ He2) as Hexit.
      unfold close_batch in Hexit. destruct (batch_exit _ _) as [[[]|x] [Lx dx]];
        destruct Hexit as (Hex & Hr & _);
      (split; [exists e; split_and!; try done; cbn; by rewrite ?Hn1, ?Ha1|done]).
    + pose proof (close_batch_spec (Raise e0 : result HistoryEvent) w L1 d _ He1) as Hexit.
      unfold close_batch in Hexit. destruct (batch_exit _ _) as [[[]|x] [Lx dx]];
        destruct Hexit as (? & _ & Hr); auto.
  - unfold mret, stm_ret. pose proof (close_batch_spec (Ok c) w L1 d _ He1) as Hexit.
    unfold close_batch in Hexit. destruct (batch_exit _ _) as [[[]|x] [Lx dx]];
      destruct Hexit as (? & ? & _); auto.
Qed.

Definition example_ledger : LedgerState :=
  {| events := []; next_seq := 7; generation := 0; sink_path := Some $"f";
     l_session_id := None; l_agent_id := None; sink_batch_depth := 0;
     pending_sink_events := []; unbound_events := [] |}.

Definition example_message : message :=
  [($"role", VStr $"user"); ($"content", VStr $"hi"); ($"_rc_token_count", VInt 3)].

Definition example_tick (i : pystr) : Tick := {| fresh_id := i; now := $"1.0"; io := Written |}.

Lemma append_message_spec_witness :
  0 <= sink_batch_depth example_ledger /\
  exists c e, events (append_message example_message $"user" None None None []
      (example_tick $"a") (example_tick $"b") Written (example_ledger, ∅)).2.1 = [c; e] /\
    kind e = $"user_message" /\ seq e = 8 /\ dget (payload e) $"message_event_id" = Some (VStr $"he_a").
Proof.
  split; [done|].
  pose proof (append_message_spec example_message $"user" None None None []
      (example_tick $"a") (example_tick $"b") Written example_ledger ∅ ltac:(done)) as H.
  destruct (append_message _ _ _ _ _ _ _ _ _ _) as [r [L d]].
  destruct H as [(e & He & Hk & Hs & Hp & _) _]. eexists _, e.
  split; [exact He|]. split; [exact Hk|]. split; [exact Hs|]. by rewrite Hp.
Defined.

(** ** Persisted form *)

Lemma map_py_str l : map py_str (map VStr l) = l.
Proof. induction l as [|s l IH]; cbn; congruence. Qed.

(** Reading back the persisted form of an event gives the same event,
    whatever number conversions the reader has, for every event a ledger
    creates (their identifier and kind are not empty). *)
Theorem event_round_trip `{PyCoercions} fresh e :
  event_id e <> [] -> kind e <> [] ->
  event_from_dict fresh (event_to_dict e) = Ok e.
Proof.
  intros Hid Hk. destruct e as [v s i k c g p se ag pa jo tu ap ro ar su]. cbn in Hid, Hk.
  unfold event_from_dict, event_to_dict, dget_or, dget_none.
  cbn [schema_version seq event_id kind created_at session_generation payload session_id
    agent_id parent_agent_id job_id turn_id api_round_id role artifact_refs supersedes_event_ids].
  autorewrite with pydict. cbn [default from_option id].
  assert (Hs : forall s t, s <> [] -> py_or (VStr s) t = VStr s).
  { intros x y Hx. unfold py_or. cbn. by rewrite bool_decide_eq_false_2. }
  assert (Hp : dict_of (py_or (VDict p) (VDict [])) = Ok p) by by destruct p.
  rewrite !Hs, Hp by done. cbn. rewrite !map_py_str, !optional_str_of. done.
Qed.

Lemma event_round_trip_witness :
  event_from_dict (H := strict_coercions) $"x"
    (event_to_dict (new_event (Build_LedgerState [] 7 0 None (Some $"s") None 0 [] [])
      $"goal_changed" [($"goal", VNone)] no_attribution
      {| fresh_id := $"a"; now := $"1.0"; io := Written |}))
  = Ok (new_event (Build_LedgerState [] 7 0 None (Some $"s") None 0 [] [])
      $"goal_changed" [($"goal", VNone)] no_attribution
      {| fresh_id := $"a"; now := $"1.0"; io := Written |}).
Proof. by apply (event_round_trip (H := strict_coercions)). Defined.

(** ** The ledger implements the interface *)

Lemma append_to_sink_generation e w L d :
  generation (append_to_sink e w (L, d)).2.1 = generation L.
Proof.
  unfold append_to_sink. destruct (sink_path L) eqn:E; [|done]. destruct (negb _); [done|].
  destruct (write_sink_events_ledger [e] w L d) as (r & d' & ->). done.
Qed.

#[export] Instance store_event_log_laws : EventLogLaws Store.
Proof.
  split.
  - intros k p a t [L d]. exists (new_event L k p a t).
    split; [done|]. split; [done|]. unfold log_append, log_events, store_event_log, append.
    set (e := new_event L k p a t).
    destruct (append_to_sink e (io t) (record_event L e, d)) as [r [L' d']] eqn:E.
    pose proof (append_to_sink_frame _ _ _ _ _ _ _ E) as [E1 _].
    assert (Hw : io t = Written -> r = Ok ()).
    { intros Ht. rewrite Ht in E. unfold append_to_sink, write_sink_events in E. cbn in E.
      destruct (sink_path L); [|by simplify_eq]. destruct (sink_batch_depth L =? 0); by simplify_eq/=. }
    destruct r as [[]|x]; cbn; split_and!; try done; intros; try discriminate; try congruence.
    by discriminate Hw.
  - intros k p a t [L d]. unfold log_generation, log_append, store_event_log, append.
    set (e := new_event L k p a t).
    pose proof (append_to_sink_generation e (io t) (record_event L e) d) as Hg.
    destruct (append_to_sink e (io t) (record_event L e, d)) as [[[]|x] [L' d']]; cbn in *;
      (split; [done|]); intros e'; [by intros [= <-]|done].
Qed.

(** A log that also commits messages: one [message_committed] event, then at most
    one event of the kind the message has, whatever the writes do. *)
Class MessageLog (S : Type) `{EventLog S} := {
  log_message : message -> pystr -> option pystr -> option pystr -> option pystr -> pydict ->
                Tick -> Tick -> WriteOutcome -> stm S HistoryEvent;
}.

Definition message_recorded (m : message) (source : pystr) (metadata : pydict) (c : HistoryEvent)
    (rest : list HistoryEvent) : Prop :=
  kind c = $"message_committed" /\ payload c = message_payload m source metadata /\
  Forall (fun e => message_semantic_kind m source = Some (kind e) /\
                   exists ids, payload e = semantic_payload m source c ids) rest.

Class MessageLogLaws (S : Type) `{EventLogLaws S} `{!MessageLog S} := {
  log_message_spec m source agent turn round metadata t1 t2 w s :
    let '(r, s') := log_message m source agent turn round metadata t1 t2 w s in
    exists c rest, message_recorded m source metadata c rest /\
      log_events s' = log_events s ++ c :: rest /\
      (io t1 = Written -> io t2 = Written -> w = Written -> is_ok (message_tool_call_ids m) = true ->
       r = Ok c) /\
      log_generation s' = log_generation s;
}.

#[export] Instance store_message_log : MessageLog Store := { log_message := append_message }.

Lemma batch_exit_generation w L d : generation (batch_exit w (L, d)).2.1 = generation L.
Proof.
  unfold batch_exit. set (L1 := set_batch _ _ L). destruct (_ && _); [|done].
  destruct (write_sink_events_ledger (pending_sink_events L1) w L1 d) as (r' & d'' & ->). by destruct r'.
Qed.

Lemma close_batch_generation {A} (r : result A) w L d :
  generation (close_batch r w (L, d)).2.1 = generation L.
Proof.
  unfold close_batch. pose proof (batch_exit_generation w L d).
  by destruct (batch_exit w (L, d)) as [[[]|x] [L' d']].
Qed.

(** The end of the batch keeps what was recorded. *)
Lemma close_message (r : result HistoryEvent) w L2 d2 (evs : list HistoryEvent) c rest g (P : Prop) :
  events L2 = evs ++ c :: rest -> generation L2 = g -> (P -> r = Ok c) ->
  let '(r', s') := close_batch r w (L2, d2) in
  events s'.1 = evs ++ c :: rest /\ (P -> w = Written -> r' = Ok c) /\ generation s'.1 = g.
Proof.
  intros Hev Hgen Hr. pose proof (close_batch_spec r w L2 d2 _ Hev) as Hcl.
  pose proof (close_batch_generation r w L2 d2) as Hcg.
  destruct (close_batch r w (L2, d2)) as [r' [L3 d3]]. destruct Hcl as (He3 & Hr' & _). cbn in Hcg.
  split_and!; [done| |cbn; congruence]. intros HP Hw. rewrite Hr' by done. auto.
Qed.

#[export] Instance store_message_log_laws : MessageLogLaws Store.
Proof.
  split. intros m source agent turn round metadata t1 t2 w [L d].
  unfold log_message, store_message_log, append_message, batch_sink_writes, st_finally, mbind, stm_bind.
  set (L0 := set_batch _ _ L). set (a := message_attribution _ _ _ _).
  change (dict_update _ metadata) with (message_payload m source metadata).
  destruct (log_append_spec $"message_committed" (message_payload m source metadata) a t1 (L0, d))
    as (c & Hk & Hp & He & Hw & Hu).
  destruct (log_append_generation $"message_committed" (message_payload m source metadata) a t1 (L0, d)) as [Hg _].
  unfold log_append, log_events, log_generation, store_event_log in *.
  destruct (append $"message_committed" _ a t1 (L0, d)) as [r1 [L1 d1]]. cbn [fst snd] in *.
  change (generation L1 = generation L) in Hg. change (events L1 = events L ++ [c]) in He.
  assert (Hend : forall r L2 d2 rest, events L2 = events L ++ c :: rest -> generation L2 = generation L ->
    message_recorded m source metadata c rest ->
    (io t1 = Written /\ io t2 = Written /\ is_ok (message_tool_call_ids m) = true -> r = Ok c) ->
    let '(r', s') := close_batch r w (L2, d2) in
    exists c rest, message_recorded m source metadata c rest /\ events s'.1 = events L ++ c :: rest /\
      (io t1 = Written -> io t2 = Written -> w = Written -> is_ok (message_tool_call_ids m) = true -> r' = Ok c) /\
      generation s'.1 = generation L).
  { intros r L2 d2 rest Hev Hgen Hrec Hr. pose proof (close_message r w L2 d2 _ c rest _ _ Hev Hgen Hr) as Hc.
    destruct (close_batch r w (L2, d2)) as [r' s']. destruct Hc as (? & ? & ?). exists c, rest. tauto. }
  destruct r1 as [c1|x]; [specialize (Hu c1 eq_refl) as ->|].
  2:{ apply (Hend (Raise x) L1 d1 []); [done..|]. intros [Hw1 _]. by specialize (Hw Hw1). }
  destruct (message_semantic_kind m source) as [k|] eqn:Ek; [|by apply (Hend (Ok c) L1 d1 [])].
  unfold st_lift. destruct (message_tool_call_ids m) as [ids|x].
  2:{ apply (Hend (Raise x) L1 d1 []); [done..|]. by intros (_ & _ & ?). }
  change [_; _; _; _] with (semantic_payload m source c ids).
  destruct (log_append_spec k (semantic_payload m source c ids) a t2 (L1, d1)) as (e & Hk2 & Hp2 & He2 & Hw2 & _).
  destruct (log_append_generation k (semantic_payload m source c ids) a t2 (L1, d1)) as [Hg2 _].
  unfold log_append, log_events, log_generation, store_event_log in *.
  destruct (append k _ a t2 (L1, d1)) as [r2 [L2 d2]]. cbn [fst snd] in *.
  assert (Hrec : message_recorded m source metadata c [e]).
  { split_and!; [done..|]. constructor; [|constructor]. rewrite Ek, Hk2. eauto. }
  assert (He' : events L2 = events L ++ [c; e]) by (by rewrite He2, He, <- app_assoc).
  destruct r2 as [e2|x]; unfold mret, stm_ret.
  - by apply (Hend (Ok c) L2 d2 [e]); [|congruence|..].
  - apply (Hend (Raise x) L2 d2 [e]); [done|congruence|done|]. intros (_ & Hw2' & _). by specialize (Hw2 Hw2').
Qed.

(** ** Witnesses *)

Lemma ledger_sequence_witness :
  exists L, ledger_init (H := strict_coercions)
      [EvDict $"x" [($"seq", VInt 5); ($"event_id", VStr $"he_5"); ($"kind", VStr $"k");
                    ($"timestamp", VFloat $"1.0")]] (VInt 9) 0 None None None = Ok L /\
    ledger_wf (run_ops [OpAppend $"plan_committed" [] no_attribution (example_tick $"a")] (L, ∅)).1.
Proof.
  eexists. split; [vm_compute; reflexivity|].
  eapply (ledger_sequence (H := strict_coercions)
    [EvDict $"x" [($"seq", VInt 5); ($"event_id", VStr $"he_5"); ($"kind", VStr $"k");
                  ($"timestamp", VFloat $"1.0")]] (VInt 9) 0 None None None).
  vm_compute. reflexivity.
Defined.

Lemma ledger_durable_witness :
  exists L, ledger_init (H := strict_coercions) [] (VInt 0) 0 None None None = Ok L /\
    let s := run_ops ([OpAppend $"plan_committed" [] no_attribution (example_tick $"a")]
      ++ OpBind $"f" Written Written
      :: [OpAppend $"goal_changed" [] no_attribution (example_tick $"b")]) (L, {[ $"f" := $"{" ]}) in
    file s.2 $"f" = $"{" ++ [10] ++ encoded_lines (events s.1) /\ length (events s.1) = 2%nat.
Proof.
  eexists. split; [vm_compute; reflexivity|].
  pose proof (fun L Hi => ledger_durable (H := strict_coercions) [] (VInt 0) 0 None None
    L {[ $"f" := $"{" ]} [OpAppend $"plan_committed" [] no_attribution (example_tick $"a")] $"f"
    [OpAppend $"goal_changed" [] no_attribution (example_tick $"b")] Hi
    ltac:(by repeat constructor) ltac:(by repeat constructor)) as Hthm.
  edestruct Hthm as (_ & Hf & _); [vm_compute; reflexivity|].
  split; [exact Hf|vm_compute; reflexivity].
Defined.
