(* ===== verification/Plan.v ===== *)
(** * The plan and progress controller (domain/plan.py)

    A controller keeps the agent's checklist and its reported progress.  A
    change is recorded in the event log first; the calls already committed are
    remembered by tool call identifier with a fingerprint of their data, so a
    repeated call changes nothing.  [recover_from_ledger] rebuilds all of it from
    the log.

    The agent's identifier and session generation, the event log (any
    [EventLog]), the recovery flag and the emitted notifications are fields of
    the state.  Whether the runtime snapshot could be persisted is an input. *)

From S2P Require Import Prelude PyValue Json Ledger.

Inductive PlanStatus := pending | in_progress | completed.

#[export] Instance PlanStatus_eq_dec : EqDecision PlanStatus.
Proof. solve_decision. Defined.

Definition plan_status_str (s : PlanStatus) : pystr :=
  match s with
  | pending => $"pending" | in_progress => $"in_progress" | completed => $"completed"
  end.

Definition parse_plan_status (s : pystr) : option PlanStatus :=
  if decide (s = $"pending") then Some pending
  else if decide (s = $"in_progress") then Some in_progress
  else if decide (s = $"completed") then Some completed
  else None.

Record PlanItem := { step : pystr; active_form : pystr; status : PlanStatus }.

#[export] Instance PlanItem_eq_dec : EqDecision PlanItem.
Proof. solve_decision. Defined.

(** [asdict(item)]. *)
Definition item_dict (i : PlanItem) : pydict :=
  [($"step", VStr (step i)); ($"active_form", VStr (active_form i));
   ($"status", VStr (plan_status_str (status i)))].

Definition items_value (l : list PlanItem) : pyval := VList (map (fun i => VDict (item_dict i)) l).

(** [explanation] and [event_id] come back from a snapshot as they were stored. *)
Record PlanState := {
  owner_agent_id : pystr;
  p_generation : Z;
  revision : Z;
  items : list PlanItem;
  explanation : pyval;
  p_event_id : pyval;
}.

Definition completed_count (p : PlanState) : Z :=
  len (filter (fun i => status i = completed) (items p)).

Definition active_index (p : PlanState) : option nat :=
  fst <$> list_find (fun i => status i = in_progress) (items p).

Record ProgressState := {
  phase : pystr;
  summary : pystr;
  next : option pystr;
  g_revision : Z;
  g_event_id : pyval;
}.

Definition MAX_ITEMS : Z := 20.
Definition MAX_ITEM_CHARS : Z := 240.
Definition MAX_SERIALIZED_CHARS : Z := 5000.

Definition PHASES : list pystr :=
  [$"investigating"; $"implementing"; $"verifying"; $"ready"; $"blocked"].

(** ** Validation *)

Definition text_error (s : pystr) : bool := bool_decide (s = []) || (len s >? MAX_ITEM_CHARS).

Definition validate_item (raw : pyval) : result PlanItem :=
  match raw with
  | VDict raw =>
    let step := strip (str_or_empty (dget_none raw $"step")) in
    let active_form := strip (py_str (py_or (dget_none raw $"active_form") (VStr step))) in
    if text_error step then Raise (ValueError $"step must contain 1-240 characters")
    else if text_error active_form
    then Raise (ValueError $"active_form must contain 1-240 characters")
    else match parse_plan_status (str_or_empty (dget_none raw $"status")) with
         | Some s => Ok {| step := step; active_form := active_form; status := s |}
         | None => Raise (ValueError $"status must be pending, in_progress, or completed")
         end
  | _ => Raise (ValueError $"plan item must be an object")
  end.

Fixpoint validate_each (l : list pyval) : result (list PlanItem) :=
  match l with
  | [] => Ok []
  | raw :: l' => i ← validate_item raw; r ← validate_each l'; Ok (i :: r)
  end.

Definition active_count (l : list PlanItem) : Z :=
  len (filter (fun i => status i = in_progress) l).

Definition validate_items (raw : pyval) : result (list PlanItem) :=
  match raw with
  | VList l =>
    if len l >? MAX_ITEMS then Raise (ValueError $"plan must contain at most 20 items")
    else
      items ← validate_each l;
      if active_count items >? 1
      then Raise (ValueError $"plan may contain at most one in_progress item")
      else if len (json_compact (items_value items)) >? MAX_SERIALIZED_CHARS
      then Raise (ValueError $"serialized plan exceeds 5000 characters")
      else Ok items
  | _ => Raise (ValueError $"plan must contain at most 20 items")
  end.

Definition fingerprint (items : list PlanItem) (explanation : option pystr) : pystr :=
  json_compact (sort_keys
    (VDict [($"items", items_value items); ($"explanation", of_optional_str explanation)])).

(** [json.dumps([phase, summary, next_step], separators=(",", ":"))]. *)
Definition progress_fingerprint (p s n : pyval) : pystr := json_compact (VList [p; s; n]).

(** ** The controller *)

Inductive Notification :=
| PlanUpdated (revision : Z) (items : list PlanItem) (explanation : option pystr) (generation : Z)
| ProgressReported (revision : Z) (phase summary : pystr) (next : option pystr) (generation : Z).

Section Controller.
Context {S : Type} `{EventLog S}.

Record PlanController := {
  agent_id : pystr;
  agent_generation : Z;
  plan_ledger : S;
  recovery_required : bool;
  emitted : list Notification;
  state : PlanState;
  progress : ProgressState;
  committed_calls : gmap pystr (pystr * Z);
}.

Definition empty_plan (c : PlanController) : PlanState :=
  {| owner_agent_id := agent_id c; p_generation := agent_generation c; revision := 0;
     items := []; explanation := VNone; p_event_id := VNone |}.

Definition empty_progress : ProgressState :=
  {| phase := $"investigating"; summary := []; next := None; g_revision := 0;
     g_event_id := VNone |}.

Definition set_states (p : PlanState) (g : ProgressState) (calls : gmap pystr (pystr * Z))
    (c : PlanController) : PlanController :=
  {| agent_id := agent_id c; agent_generation := agent_generation c; plan_ledger := plan_ledger c;
     recovery_required := recovery_required c; emitted := emitted c;
     state := p; progress := g; committed_calls := calls |}.

Definition set_ledger (l : S) (c : PlanController) : PlanController :=
  {| agent_id := agent_id c; agent_generation := agent_generation c; plan_ledger := l;
     recovery_required := recovery_required c; emitted := emitted c;
     state := state c; progress := progress c; committed_calls := committed_calls c |}.

(** [_persist_or_require_recovery], then the notification. *)
Definition persist_and_emit (persisted : bool) (n : Notification) (c : PlanController)
    : PlanController :=
  {| agent_id := agent_id c; agent_generation := agent_generation c; plan_ledger := plan_ledger c;
     recovery_required := recovery_required c || negb persisted;
     emitted := emitted c ++ [n];
     state := state c; progress := progress c; committed_calls := committed_calls c |}.

(** [(text or "").strip()[:500] or None]. *)
Definition bounded_note (t : option pystr) : option pystr :=
  or_none (slice_to 500 (strip (or_empty t))).

Definition plan_payload (c : PlanController) (generation rev : Z) (its : list PlanItem)
    (expl : option pystr) (call : pystr) : pydict :=
  [ ($"owner_agent_id", VStr (agent_id c)); ($"session_generation", VInt generation);
    ($"revision", VInt rev); ($"items", items_value its);
    ($"explanation", of_optional_str expl); ($"tool_call_id", VStr call) ].

Definition update (raw_items : pyval) (expl : option pystr) (call : pystr) (generation : Z)
    (t : Tick) (persisted : bool) : stm PlanController (PlanState * bool) := fun c =>
  match validate_items raw_items with
  | Raise e => (Raise e, c)
  | Ok its =>
    let expl := bounded_note expl in
    let fp := fingerprint its expl in
    match committed_calls c !! call with
    | Some (fp', _) =>
      if bool_decide (fp' = fp) then (Ok (state c, false), c)
      else (Raise (ValueError $"tool_call_id was already committed with different plan data"), c)
    | None =>
      if negb (generation =? agent_generation c)
      then (Raise (ValueError $"session generation changed before plan commit"), c)
      else
        let rev := revision (state c) + 1 in
        match log_append $"plan_updated" (plan_payload c generation rev its expl call) no_attribution t
                (plan_ledger c) with
        | (Raise e, l) => (Raise e, set_ledger l c)
        | (Ok event, l) =>
          let p := {| owner_agent_id := agent_id c; p_generation := generation; revision := rev;
                      items := its; explanation := of_optional_str expl;
                      p_event_id := VStr (event_id event) |} in
          (Ok (p, true),
           persist_and_emit persisted (PlanUpdated rev its expl generation)
             (set_states p (progress c) (<[call := (fp, rev)]> (committed_calls c))
               (set_ledger l c)))
        end
    end
  end.

Definition progress_payload (c : PlanController) (generation rev : Z) (ph su : pystr)
    (nx : option pystr) (call : pystr) : pydict :=
  [ ($"owner_agent_id", VStr (agent_id c)); ($"session_generation", VInt generation);
    ($"revision", VInt rev); ($"phase", VStr ph); ($"summary", VStr su);
    ($"next", of_optional_str nx); ($"tool_call_id", VStr call) ].

Definition report (ph su : pystr) (nx : option pystr) (call : pystr) (generation : Z)
    (t : Tick) (persisted : bool) : stm PlanController (ProgressState * bool) := fun c =>
  if negb (bool_decide (ph ∈ PHASES)) then (Raise (ValueError $"invalid progress phase"), c) else
  let su := strip su in
  if bool_decide (su = []) || (len su >? 500)
  then (Raise (ValueError $"summary must contain 1-500 characters"), c) else
  let nx := bounded_note nx in
  let fp := progress_fingerprint (VStr ph) (VStr su) (of_optional_str nx) in
  match committed_calls c !! call with
  | Some (fp', _) =>
    if bool_decide (fp' = fp) then (Ok (progress c, false), c)
    else (Raise (ValueError $"tool_call_id was already committed with different progress data"), c)
  | None =>
    if negb (generation =? agent_generation c)
    then (Raise (ValueError $"session generation changed before progress commit"), c)
    else
      let rev := g_revision (progress c) + 1 in
      match log_append $"progress_reported" (progress_payload c generation rev ph su nx call) no_attribution t
              (plan_ledger c) with
      | (Raise e, l) => (Raise e, set_ledger l c)
      | (Ok event, l) =>
        let g := {| phase := ph; summary := su; next := nx; g_revision := rev;
                    g_event_id := VStr (event_id event) |} in
        (Ok (g, true),
         persist_and_emit persisted (ProgressReported rev ph su nx generation)
           (set_states (state c) g (<[call := (fp, rev)]> (committed_calls c))
             (set_ledger l c)))
      end
  end.

(** ** Restoring *)

Context `{PyCoercions}.

(** [max(0, int(d.get(k, 0)))]. *)
Definition stored_revision (d : pydict) : result Z :=
  n ← py_int (dget_or d $"revision" (VInt 0)); Ok (Z.max 0 n).

(** [list(v or [])]. *)
Definition list_or_empty (v : pyval) : result pyval :=
  l ← py_iter (py_or v (VList [])); Ok (VList l).

Definition restored_plan (c : PlanController) (plan : pydict) : result PlanState :=
  raw ← list_or_empty (dget_none plan $"items");
  its ← validate_items raw;
  rev ← stored_revision plan;
  Ok {| owner_agent_id := agent_id c; p_generation := agent_generation c; revision := rev;
        items := its; explanation := dget_none plan $"explanation";
        p_event_id := dget_none plan $"event_id" |}.

Definition restored_progress (p : pydict) : result ProgressState :=
  let ph := py_str (py_or (dget_none p $"phase") (VStr $"investigating")) in
  rev ← stored_revision p;
  Ok {| phase := if bool_decide (ph ∈ PHASES) then ph else $"investigating";
        summary := slice_to 500 (str_or_empty (dget_none p $"summary"));
        next := or_none (slice_to 500 (str_or_empty (dget_none p $"next")));
        g_revision := rev; g_event_id := dget_none p $"event_id" |}.

(** A falsy dictionary counts as absent. *)
Definition restore (plan prog : pydict) : stm PlanController () := fun c =>
  match (match plan with [] => Ok (empty_plan c) | _ => restored_plan c plan end) with
  | Raise e => (Raise e, c)
  | Ok p =>
    let c := set_states p (progress c) (committed_calls c) c in
    match (match prog with [] => Ok empty_progress | _ => restored_progress prog end) with
    | Raise e => (Raise e, c)
    | Ok g => (Ok (), set_states (state c) g ∅ c)
    end
  end.

Definition reset : stm PlanController () := restore [] [].

(** The latest payload of a kind in the current generation, with its event. *)
Fixpoint latest (k : pystr) (generation : Z) (events : list HistoryEvent)
    (acc : option HistoryEvent) : option HistoryEvent :=
  match events with
  | [] => acc
  | e :: rest =>
    latest k generation rest
      (if (session_generation e =? generation) && bool_decide (kind e = k)
       then Some e else acc)
  end.

Definition plan_snapshot (e : HistoryEvent) : pydict :=
  [ ($"revision", dget_or (payload e) $"revision" (VInt 0));
    ($"items", dget_or (payload e) $"items" (VList []));
    ($"explanation", dget_none (payload e) $"explanation");
    ($"event_id", VStr (event_id e)) ].

Definition progress_snapshot (e : HistoryEvent) : pydict :=
  [ ($"revision", dget_or (payload e) $"revision" (VInt 0));
    ($"phase", dget_none (payload e) $"phase");
    ($"summary", dget_none (payload e) $"summary");
    ($"next", dget_none (payload e) $"next");
    ($"event_id", VStr (event_id e)) ].

(** The committed call one event stands for. *)
Definition committed_call (e : HistoryEvent) : result (option (pystr * (pystr * Z))) :=
  let call := str_or_empty (dget_none (payload e) $"tool_call_id") in
  if bool_decide (call = []) then Ok None
  else if bool_decide (kind e = $"plan_updated") then
    raw ← list_or_empty (dget_none (payload e) $"items");
    its ← validate_items raw;
    rev ← py_int (py_or (dget_none (payload e) $"revision") (VInt 0));
    Ok (Some (call, (fingerprint its (or_none (strip (str_or_empty
      (dget_none (payload e) $"explanation")))), rev)))
  else if bool_decide (kind e = $"progress_reported") then
    rev ← py_int (py_or (dget_none (payload e) $"revision") (VInt 0));
    Ok (Some (call, (progress_fingerprint (dget_none (payload e) $"phase")
      (dget_none (payload e) $"summary") (dget_none (payload e) $"next"), rev)))
  else Ok None.

Fixpoint recover_calls (generation : Z) (events : list HistoryEvent)
    (calls : gmap pystr (pystr * Z)) : result () * gmap pystr (pystr * Z) :=
  match events with
  | [] => (Ok (), calls)
  | e :: rest =>
    if negb (session_generation e =? generation) then recover_calls generation rest calls
    else match committed_call e with
         | Raise x => (Raise x, calls)
         | Ok None => recover_calls generation rest calls
         | Ok (Some (call, entry)) => recover_calls generation rest (<[call := entry]> calls)
         end
  end.

Definition recover_from_ledger : stm PlanController bool := fun c =>
  let events := log_events (plan_ledger c) in
  let plan := latest $"plan_updated" (agent_generation c) events None in
  let prog := latest $"progress_reported" (agent_generation c) events None in
  match restore (from_option plan_snapshot [] plan) (from_option progress_snapshot [] prog) c with
  | (Raise e, c) => (Raise e, c)
  | (Ok _, c) =>
    match recover_calls (agent_generation c) events (committed_calls c) with
    | (Raise e, calls) => (Raise e, set_states (state c) (progress c) calls c)
    | (Ok _, calls) =>
      (Ok (bool_decide (is_Some plan) || bool_decide (is_Some prog)),
       set_states (state c) (progress c) calls c)
    end
  end.

End Controller.
Arguments PlanController S : clear implicits.

(** ** Validation lemmas *)

Definition item_wf (i : PlanItem) : Prop :=
  (strip (step i) = step i /\ 0 < len (step i) <= 240) /\
  (strip (active_form i) = active_form i /\ 0 < len (active_form i) <= 240).

Definition items_wf (l : list PlanItem) : Prop :=
  len l <= 20 /\ Forall item_wf l /\ active_count l <= 1 /\
  len (json_compact (items_value l)) <= 5000.

Lemma text_error_false s : text_error s = false <-> 0 < len s <= 240.
Proof.
  unfold text_error, MAX_ITEM_CHARS. rewrite orb_false_iff, bool_decide_eq_false, <-len_zero.
  pose proof (len_nonneg s). split; [intros [? ?]; zbool; lia|intros; split; [lia|]].
  rewrite Z.gtb_ltb. apply Z.ltb_ge. lia.
Qed.

Lemma validate_item_wf raw i : validate_item raw = Ok i -> item_wf i.
Proof.
  destruct raw as [| | | | | |d]; try done. cbn [validate_item].
  destruct (text_error _) eqn:E1; [done|]. destruct (text_error (strip _)) eqn:E2 in |- *; [done|].
  destruct (parse_plan_status _); [|done]. intros [= <-].
  rewrite text_error_false in E1, E2. unfold item_wf.
  cbn [step active_form]. by rewrite !strip_idemp.
Qed.

Lemma parse_plan_status_str s : parse_plan_status (plan_status_str s) = Some s.
Proof. by destruct s. Qed.

Lemma py_or_str s v : s <> [] -> py_or (VStr s) v = VStr s.
Proof. intros Hs. unfold py_or. cbn. by rewrite bool_decide_eq_false_2. Qed.

Lemma len_pos_ne {A} (l : list A) : 0 < len l -> l <> [].
Proof. by destruct l. Qed.

Lemma validate_item_dict i : item_wf i -> validate_item (VDict (item_dict i)) = Ok i.
Proof.
  destruct i as [s a st]. intros [[Hs Hsl] [Ha Hal]]. cbn [step active_form] in *.
  unfold validate_item, item_dict, dget_none. cbn [step active_form status].
  autorewrite with pydict. cbn [default from_option id].
  rewrite str_or_empty_str, Hs, (py_or_str a) by (apply len_pos_ne; lia). cbn [py_str].
  rewrite Ha. apply text_error_false in Hsl, Hal. rewrite Hsl, Hal, str_or_empty_str.
  by rewrite parse_plan_status_str.
Qed.

Lemma validate_each_wf l l' : validate_each l = Ok l' -> Forall item_wf l' /\ length l' = length l.
Proof.
  revert l'. induction l as [|raw l IH]; intros l'; cbn; [by intros [= <-]|].
  destruct (validate_item raw) as [i|] eqn:Ei; [|done]. cbn.
  destruct (validate_each l) as [r|]; [|done]. cbn. intros [= <-].
  destruct (IH r eq_refl) as [Hr Hlen]. split; [|cbn; by rewrite Hlen].
  constructor; [by apply validate_item_wf in Ei|done].
Qed.

Lemma validate_each_dicts l :
  Forall item_wf l -> validate_each (map (fun i => VDict (item_dict i)) l) = Ok l.
Proof.
  induction 1 as [|i l Hi _ IH]; [done|]. cbn [map validate_each].
  rewrite validate_item_dict by done. unfold mbind, result_bind. by rewrite IH.
Qed.

Lemma validate_items_wf raw l : validate_items raw = Ok l -> items_wf l.
Proof.
  destruct raw as [| | | | |raw|]; try done. unfold validate_items, MAX_ITEMS, MAX_SERIALIZED_CHARS.
  destruct (len raw >? 20) eqn:E1; [done|]. unfold mbind, result_bind.
  destruct (validate_each raw) as [its|] eqn:E; [|done].
  destruct (active_count its >? 1) eqn:E2; [done|].
  destruct (len (json_compact (items_value its)) >? 5000) eqn:E3; [done|]. intros [= <-].
  apply validate_each_wf in E as [Hf Hlen]. zbool. split_and!; try done; try lia.
  unfold len in *. lia.
Qed.

Lemma validate_items_value l : items_wf l -> validate_items (items_value l) = Ok l.
Proof.
  intros (Hl & Hf & Ha & Hj). unfold items_value, validate_items, MAX_ITEMS, MAX_SERIALIZED_CHARS.
  rewrite validate_each_dicts by done.
  rewrite !Z.gtb_ltb. unfold len at 1. rewrite length_map. fold (len l).
  destruct (Z.ltb_spec 20 (len l)); [lia|]. unfold mbind, result_bind.
  rewrite !Z.gtb_ltb. destruct (Z.ltb_spec 1 (active_count l)); [lia|].
  destruct (Z.ltb_spec 5000 (len (json_compact (items_value l)))); [lia|done].
Qed.

(** Plan validation.  An accepted plan has at most twenty items, each with a
    trimmed step and active form of 1 to 240 characters, at most one in
    progress, and a bounded serialised size; validating the stored form of an
    accepted plan accepts it unchanged. *)
Theorem validate_items_spec raw l :
  validate_items raw = Ok l ->
  items_wf l /\ validate_items (items_value l) = Ok l.
Proof. intros H. apply validate_items_wf in H. split; [done|]. by apply validate_items_value. Qed.

Lemma validate_items_spec_witness :
  exists l, validate_items (VList [VDict [($"step", VStr $" test "); ($"status", VStr $"pending")]]) = Ok l
    /\ items_wf l.
Proof.
  eexists. split; [vm_compute; reflexivity|].
  eapply (validate_items_spec (VList [VDict [($"step", VStr $" test "); ($"status", VStr $"pending")]])).
  vm_compute. reflexivity.
Defined.

(** ** Fingerprints *)

Definition sorted_item (i : PlanItem) : pyval :=
  VDict [($"active_form", VStr (active_form i)); ($"status", VStr (plan_status_str (status i)));
         ($"step", VStr (step i))].

Lemma fingerprint_value l e :
  fingerprint l e = json_compact (VDict [($"explanation", of_optional_str e);
                                         ($"items", VList (map sorted_item l))]).
Proof.
  unfold fingerprint. f_equal.
  assert (Hl : sort_keys (items_value l) = VList (map sorted_item l)).
  { unfold items_value. cbn [sort_keys]. f_equal. rewrite map_map. by apply map_ext. }
  cbn [sort_keys map fst snd]. rewrite Hl. destruct e; reflexivity.
Qed.

Lemma plan_status_str_inj s s' : plan_status_str s = plan_status_str s' -> s = s'.
Proof. by destruct s, s'. Qed.

Lemma fingerprint_inj l e l' e' :
  fingerprint l e = fingerprint l' e' -> l = l' /\ e = e'.
Proof.
  assert (Hnf : forall l, Forall no_float (map sorted_item l)).
  { intros k. induction k; cbn; constructor; done. }
  rewrite !fingerprint_value. intros H. apply json_compact_inj in H.
  2,3: rewrite no_float_dict; repeat constructor; [by destruct e, e'|by apply no_float_list].
  injection H as He Hl. split; [|by destruct e, e'; cbn in He; congruence].
  clear -Hl. revert l' Hl. induction l as [|i l IH]; intros [|i' l']; cbn; try done.
  intros [= Ha Hs Ht Hl]. rewrite (IH l') by (by rewrite Hl). f_equal.
  apply plan_status_str_inj in Hs. destruct i, i'; cbn in *; by subst.
Qed.

Lemma plan_progress_fingerprint l e p s n : fingerprint l e <> progress_fingerprint p s n.
Proof. rewrite fingerprint_value. unfold progress_fingerprint, json_compact. cbn. done. Qed.

(** ** Sequences of calls *)

Inductive PlanOp :=
| PUpdate (raw : pyval) (expl : option pystr) (call : pystr) (generation : Z) (t : Tick) (persisted : bool)
| PReport (ph su : pystr) (nx : option pystr) (call : pystr) (generation : Z) (t : Tick) (persisted : bool).

Section Theorems.
Context {S : Type} `{EventLogLaws S} `{PyCoercions}.

Definition run_plan_op (op : PlanOp) (c : PlanController S) : PlanController S :=
  match op with
  | PUpdate raw e call g t p => (update raw e call g t p c).2
  | PReport ph su nx call g t p => (report ph su nx call g t p c).2
  end.

Definition run_plan_ops (ops : list PlanOp) (c : PlanController S) : PlanController S :=
  foldl (fun c op => run_plan_op op c) c ops.

Definition plan_op_tick (op : PlanOp) : Tick :=
  match op with PUpdate _ _ _ _ t _ | PReport _ _ _ _ _ t _ => t end.

(** What a call did: nothing, a log entry whose write failed, or a commit. *)
Inductive plan_step (c : PlanController S) : PlanOp -> PlanController S -> Prop :=
| step_none op : plan_step c op c
| step_failed op l :
    io (plan_op_tick op) <> Written ->
    plan_step c op (set_ledger l c)
| step_plan raw its expl call t persisted event :
    validate_items raw = Ok its ->
    committed_calls c !! call = None ->
    (log_append $"plan_updated"
      (plan_payload c (agent_generation c) (revision (state c) + 1) its (bounded_note expl) call)
      no_attribution t (plan_ledger c)).1 = Ok event ->
    plan_step c (PUpdate raw expl call (agent_generation c) t persisted)
      (persist_and_emit persisted
         (PlanUpdated (revision (state c) + 1) its (bounded_note expl) (agent_generation c))
         (set_states
            {| owner_agent_id := agent_id c; p_generation := agent_generation c;
               revision := revision (state c) + 1; items := its;
               explanation := of_optional_str (bounded_note expl);
               p_event_id := VStr (event_id event) |}
            (progress c)
            (<[call := (fingerprint its (bounded_note expl), revision (state c) + 1)]> (committed_calls c))
            (set_ledger (log_append $"plan_updated"
              (plan_payload c (agent_generation c) (revision (state c) + 1) its (bounded_note expl) call)
              no_attribution t (plan_ledger c)).2 c)))
| step_progress ph su nx call t persisted event :
    ph ∈ PHASES -> 0 < len (strip su) <= 500 ->
    committed_calls c !! call = None ->
    (log_append $"progress_reported"
      (progress_payload c (agent_generation c) (g_revision (progress c) + 1) ph (strip su)
         (bounded_note nx) call) no_attribution t (plan_ledger c)).1 = Ok event ->
    plan_step c (PReport ph su nx call (agent_generation c) t persisted)
      (persist_and_emit persisted
         (ProgressReported (g_revision (progress c) + 1) ph (strip su) (bounded_note nx)
            (agent_generation c))
         (set_states (state c)
            {| phase := ph; summary := strip su; next := bounded_note nx;
               g_revision := g_revision (progress c) + 1; g_event_id := VStr (event_id event) |}
            (<[call := (progress_fingerprint (VStr ph) (VStr (strip su))
                          (of_optional_str (bounded_note nx)), g_revision (progress c) + 1)]>
               (committed_calls c))
            (set_ledger (log_append $"progress_reported"
              (progress_payload c (agent_generation c) (g_revision (progress c) + 1) ph (strip su)
                 (bounded_note nx) call) no_attribution t (plan_ledger c)).2 c))).

Lemma append_raise k p a t l e :
  (log_append k p a t l).1 = Raise e -> io t <> Written.
Proof.
  destruct (log_append_spec k p a t l) as (ev & _ & _ & _ & Hw & _).
  intros He Ht. rewrite (Hw Ht) in He. done.
Qed.

Lemma run_plan_op_step op c : plan_step c op (run_plan_op op c).
Proof.
  destruct op as [raw expl call g t p|ph su nx call g t p]; cbn [run_plan_op].
  - unfold update. destruct (validate_items raw) as [its|] eqn:Ev; [|constructor].
    destruct (committed_calls c !! call) as [[fp r]|] eqn:Ec; [case_match; constructor|].
    destruct (Z.eqb_spec g (agent_generation c)) as [->|]; [|constructor]. cbn [negb].
    pose proof (append_raise $"plan_updated" (plan_payload c (agent_generation c)
      (revision (state c) + 1) its (bounded_note expl) call) no_attribution t (plan_ledger c)) as Hr.
    pose proof (step_plan c raw its expl call t p) as Hstep.
    destruct (log_append _ _ _ _ _) as [[event|x] l] eqn:El in *; cbn [fst snd] in *.
    + by apply Hstep.
    + apply step_failed. by eapply Hr.
  - unfold report. case_bool_decide as Hph; [|constructor]. cbn [negb].
    destruct (bool_decide (strip su = []) || _) eqn:Es; [constructor|].
    destruct (committed_calls c !! call) as [[fp r]|] eqn:Ec; [case_match; constructor|].
    destruct (Z.eqb_spec g (agent_generation c)) as [->|]; [|constructor]. cbn [negb].
    assert (Hsu : 0 < len (strip su) <= 500).
    { apply orb_false_iff in Es as [E1 E2]. apply bool_decide_eq_false in E1.
      rewrite <-len_zero in E1. pose proof (len_nonneg (strip su)). zbool. lia. }
    pose proof (append_raise $"progress_reported" (progress_payload c (agent_generation c)
      (g_revision (progress c) + 1) ph (strip su) (bounded_note nx) call) no_attribution t (plan_ledger c)) as Hr.
    pose proof (step_progress c ph su nx call t p) as Hstep.
    destruct (log_append _ _ _ _ _) as [[event|x] l] eqn:El in *; cbn [fst snd] in *.
    + by apply Hstep.
    + apply step_failed. by eapply Hr.
Qed.

(** ** Well-formedness, revisions and committed calls *)

(** A committed call and its place stay for good. *)
Lemma committed_step c op c' call entry :
  plan_step c op c' -> committed_calls c !! call = Some entry ->
  committed_calls c' !! call = Some entry.
Proof.
  intros Hs Hc. destruct Hs; cbn [persist_and_emit set_states set_ledger committed_calls]; try done;
    rewrite lookup_insert_ne by congruence; done.
Qed.

Lemma committed_steps ops c call entry :
  committed_calls c !! call = Some entry ->
  committed_calls (run_plan_ops ops c) !! call = Some entry.
Proof.
  revert c. induction ops as [|op ops IH]; intros c Hc; [done|]. apply IH.
  eapply committed_step; [apply run_plan_op_step|done].
Qed.

(** A tool call commits at most once.  After an update has committed a plan,
    however many other calls follow, repeating its tool call identifier changes
    nothing at all: it returns without a commit when the validated items and the
    explanation are the committed ones, and raises when they differ or when the
    identifier is used to report progress. *)
Theorem update_commits_once raw expl call g t persisted c p c1 ops :
  update raw expl call g t persisted c = (Ok (p, true), c1) ->
  let c2 := run_plan_ops ops c1 in
  (forall raw' expl' g' t' persisted',
    let '(r, c3) := update raw' expl' call g' t' persisted' c2 in
    c3 = c2 /\
    (is_ok r = true <-> (exists its, validate_items raw' = Ok its /\ validate_items raw = Ok its) /\
                        bounded_note expl' = bounded_note expl) /\
    (forall q b, r = Ok (q, b) -> q = state c2 /\ b = false)) /\
  (forall ph su nx g' t' persisted',
    let '(r, c3) := report ph su nx call g' t' persisted' c2 in c3 = c2 /\ is_ok r = false).
Proof.
  intros Hu c2. unfold update in Hu. destruct (validate_items raw) as [its|] eqn:Ev; [|done].
  destruct (committed_calls c !! call) as [[fp r]|] eqn:Ec; [by case_match|].
  destruct (negb (g =? agent_generation c)); [done|].
  destruct (log_append _ _ _ _ _) as [[event|x] l]; [|done]. injection Hu as Hp Hc1.
  assert (Hcall : committed_calls c2 !! call = Some (fingerprint its (bounded_note expl),
    revision (state c) + 1)).
  { apply committed_steps. rewrite <-Hc1. cbn. by rewrite lookup_insert_eq. }
  clearbody c2. split.
  - intros raw' expl' g' t' persisted'. unfold update.
    destruct (validate_items raw') as [its'|]; [|by split_and!; [|split; [|intros [(? & ? & ?) ?]]|]].
    rewrite Hcall. case_bool_decide as Hfp.
    + apply fingerprint_inj in Hfp as [-> Hn]. split; [done|]. split; [|by intros q b [= <- <-]].
      split; [|done]. intros _. split; [by exists its'|done].
    + split; [done|]. split; [|done]. split; [done|].
      intros [(its2 & Hi & Hi') Hn]. simplify_eq. by rewrite Hn in Hfp.
  - intros ph su nx g' t' persisted'. unfold report.
    destruct (negb _); [done|]. destruct (_ || _); [done|]. rewrite Hcall.
    case_bool_decide as Hfp; [|done]. by apply plan_progress_fingerprint in Hfp.
Qed.

(** Plans stay well formed and revisions never repeat.  Through any calls,
    repeated, rejected and failing ones included, the plan in force stays valid
    and its revision never decreases; the plan in force changes only together
    with its revision, which then grows by one. *)
Theorem plan_revisions ops c :
  items_wf (items (state c)) -> 0 <= revision (state c) ->
  let c' := run_plan_ops ops c in
  items_wf (items (state c')) /\
  revision (state c) <= revision (state c') <= revision (state c) + Z.of_nat (length ops) /\
  (revision (state c') = revision (state c) -> state c' = state c).
Proof.
  intros Hwf Hrev. revert c Hwf Hrev. induction ops as [|op ops IH]; intros c Hwf Hrev.
  - split_and!; try done; cbn; lia.
  - intros c'. subst c'. unfold run_plan_ops. cbn [foldl]. fold (run_plan_ops ops (run_plan_op op c)).
    assert (Hstep : items_wf (items (state (run_plan_op op c))) /\
      (state (run_plan_op op c) = state c \/ revision (state (run_plan_op op c)) = revision (state c) + 1)).
    { destruct (run_plan_op_step op c);
        cbn [persist_and_emit set_states set_ledger state items revision]; try (split; [done|by left]).
      split; [by eapply validate_items_wf|by right]. }
    destruct Hstep as [Hwf1 Hs]. destruct (IH (run_plan_op op c) Hwf1) as (? & [? ?] & Hsame).
    { destruct Hs as [-> | ->]; lia. }
    split_and!; [done|destruct Hs as [Hs|Hs]; [rewrite Hs in *|]; lia|
      cbn [length]; destruct Hs as [Hs|Hs]; [rewrite Hs in *|]; lia|].
    intros Heq. destruct Hs as [Hs|Hs]; [rewrite <-Hs; apply Hsame; by rewrite Hs|lia].
Qed.

(** ** Recovery *)

Lemma latest_snoc k g l e acc :
  latest k g (l ++ [e]) acc =
  if (session_generation e =? g) && bool_decide (kind e = k) then Some e else latest k g l acc.
Proof. revert acc. induction l as [|x l IH]; intros acc; cbn; [done|apply IH]. Qed.

Lemma recover_calls_snoc g l e calls calls1 :
  recover_calls g l calls = (Ok (), calls1) -> session_generation e = g ->
  recover_calls g (l ++ [e]) calls =
  match committed_call e with
  | Raise x => (Raise x, calls1)
  | Ok None => (Ok (), calls1)
  | Ok (Some (call, entry)) => (Ok (), <[call := entry]> calls1)
  end.
Proof.
  intros Hl He. revert calls Hl. induction l as [|x l IH]; intros calls; cbn.
  - intros [= <-]. rewrite He, Z.eqb_refl. cbn. by destruct (committed_call e) as [[[]|]|].
  - destruct (negb _); [apply IH|]. destruct (committed_call x) as [[[]|]|]; [apply IH|apply IH|done].
Qed.

(** What [recover_from_ledger] reads from the log is the controller's state. *)
Record recoverable (c : PlanController S) : Prop := {
  rc_generation : log_generation (plan_ledger c) = agent_generation c;
  rc_revisions : 0 <= revision (state c) /\ 0 <= g_revision (progress c);
  rc_plan : match latest $"plan_updated" (agent_generation c) (log_events (plan_ledger c)) None with
            | None => state c = empty_plan c
            | Some e => restored_plan c (plan_snapshot e) = Ok (state c)
            end;
  rc_progress : match latest $"progress_reported" (agent_generation c)
                        (log_events (plan_ledger c)) None with
                | None => progress c = empty_progress
                | Some e => restored_progress (progress_snapshot e) = Ok (progress c)
                end;
  rc_calls : recover_calls (agent_generation c) (log_events (plan_ledger c)) ∅
             = (Ok (), committed_calls c);
}.

(** Calls with an identifier, whose log write succeeds, and whose explanation
    does not end in whitespace where it is cut. *)
Definition recoverable_op (op : PlanOp) : Prop :=
  match op with
  | PUpdate _ expl call _ t _ =>
    call <> [] /\ io t = Written /\ bounded_note expl = or_none (strip (or_empty (bounded_note expl)))
  | PReport _ _ _ call _ t _ => call <> [] /\ io t = Written
  end.

Lemma list_or_empty_items l : list_or_empty (items_value l) = Ok (items_value l).
Proof. unfold list_or_empty, items_value, py_or. by destruct l. Qed.

Lemma str_or_empty_optional o : str_or_empty (of_optional_str o) = or_empty o.
Proof. destruct o; [apply str_or_empty_str|done]. Qed.

Lemma restored_plan_payload (c : PlanController S) rev its expl call e :
  payload e = plan_payload c (agent_generation c) rev its expl call ->
  items_wf its -> 0 <= rev ->
  restored_plan c (plan_snapshot e) =
  Ok {| owner_agent_id := agent_id c; p_generation := agent_generation c; revision := rev;
        items := its; explanation := of_optional_str expl; p_event_id := VStr (event_id e) |}.
Proof.
  intros Hp Hwf Hrev. unfold restored_plan, stored_revision, plan_snapshot, dget_or, dget_none.
  rewrite Hp. unfold plan_payload. autorewrite with pydict. cbn [default from_option id].
  rewrite list_or_empty_items. unfold mbind, result_bind. rewrite validate_items_value by done.
  cbn [py_int]. by rewrite Z.max_r.
Qed.

Lemma slice_to_id {A} n (l : list A) : 0 <= n -> len l <= n -> slice_to n l = l.
Proof. intros. unfold slice_to, len in *. apply take_ge. lia. Qed.

Lemma or_empty_or_none s : or_empty (or_none s) = s.
Proof. by destruct s. Qed.

Lemma bounded_note_len nx : len (or_empty (bounded_note nx)) <= 500.
Proof. unfold bounded_note, slice_to. rewrite or_empty_or_none, len_take. lia. Qed.

Lemma or_none_or_empty nx : or_none (or_empty (bounded_note nx)) = bounded_note nx.
Proof. unfold bounded_note. by destruct (slice_to _ _). Qed.

Lemma restored_progress_payload (c : PlanController S) rev ph su nx call e :
  payload e = progress_payload c (agent_generation c) rev ph su (bounded_note nx) call ->
  ph ∈ PHASES -> len su <= 500 -> 0 <= rev ->
  restored_progress (progress_snapshot e) =
  Ok {| phase := ph; summary := su; next := bounded_note nx; g_revision := rev;
        g_event_id := VStr (event_id e) |}.
Proof.
  intros Hp Hph Hsu Hrev. unfold restored_progress, stored_revision, progress_snapshot, dget_or, dget_none.
  rewrite Hp. unfold progress_payload. autorewrite with pydict. cbn [default from_option id].
  rewrite str_or_empty_str, str_or_empty_optional, !slice_to_id by
    (try apply bounded_note_len; done).
  rewrite py_or_str by (intros ->; unfold PHASES in Hph; set_solver).
  unfold mbind, result_bind. cbn [py_int py_str]. rewrite Z.max_r by done.
  by rewrite bool_decide_eq_true_2, or_none_or_empty.
Qed.

Lemma committed_call_plan (c : PlanController S) rev its expl call e :
  payload e = plan_payload c (agent_generation c) rev its (bounded_note expl) call ->
  kind e = $"plan_updated" -> call <> [] -> items_wf its ->
  bounded_note expl = or_none (strip (or_empty (bounded_note expl))) ->
  committed_call e = Ok (Some (call, (fingerprint its (bounded_note expl), rev))).
Proof.
  intros Hp Hk Hcall Hwf Hexpl. unfold committed_call, dget_none. rewrite Hp, Hk. unfold plan_payload.
  autorewrite with pydict. cbn [default from_option id].
  rewrite str_or_empty_str, bool_decide_eq_false_2, bool_decide_eq_true_2 by done.
  rewrite list_or_empty_items. unfold mbind, result_bind. rewrite validate_items_value by done.
  rewrite str_or_empty_optional, <-Hexpl. unfold py_or. cbn [truthy].
  by destruct (Z.eqb_spec rev 0) as [->|].
Qed.

Lemma committed_call_progress (c : PlanController S) rev ph su nx call e :
  payload e = progress_payload c (agent_generation c) rev ph su nx call ->
  kind e = $"progress_reported" -> call <> [] ->
  committed_call e = Ok (Some (call,
    (progress_fingerprint (VStr ph) (VStr su) (of_optional_str nx), rev))).
Proof.
  intros Hp Hk Hcall. unfold committed_call, dget_none. rewrite Hp, Hk. unfold progress_payload.
  autorewrite with pydict. cbn [default from_option id].
  rewrite str_or_empty_str, bool_decide_eq_false_2, bool_decide_eq_false_2, bool_decide_eq_true_2 by done.
  unfold mbind, result_bind, py_or. cbn [truthy]. by destruct (Z.eqb_spec rev 0) as [->|].
Qed.

(** The event a successful append leaves at the end of the log. *)
Lemma append_event k p a t (l : S) event :
  (log_append k p a t l).1 = Ok event ->
  kind event = k /\ payload event = p /\ session_generation event = log_generation l /\
  log_events (log_append k p a t l).2 = log_events l ++ [event] /\
  log_generation (log_append k p a t l).2 = log_generation l.
Proof.
  intros Ha. destruct (log_append_spec k p a t l) as (e & Hk & Hp & Hl & _ & He).
  destruct (log_append_generation k p a t l) as [Hg He']. apply He in Ha as Hee. subst event.
  split_and!; auto.
Qed.

Lemma recoverable_step c op c' :
  plan_step c op c' -> recoverable_op op -> recoverable c -> recoverable c'.
Proof.
  intros Hs Hop [Hgen Hrev Hplan Hprog Hcalls].
  destruct Hs as [op|op l Hio|raw its expl call t pe event Hv Hc Ha|
                  ph su nx call t pe event Hph Hsu Hc Ha]; [done|..].
  - exfalso. apply Hio. destruct op; naive_solver.
  - destruct Hop as (Hcall & _ & Hexpl). apply append_event in Ha as (Hk & Hp & Hg & Hl & Hg').
    apply validate_items_wf in Hv.
    split; cbn [persist_and_emit set_states set_ledger plan_ledger agent_generation state progress
      committed_calls revision]; rewrite ?Hl, ?Hg', ?latest_snoc, ?Hg, ?Hgen, ?Z.eqb_refl, ?Hk; try done.
    + lia.
    + rewrite bool_decide_eq_true_2 by done. cbn [andb].
      by apply (restored_plan_payload c _ _ _ _ _ Hp Hv); lia.
    + erewrite recover_calls_snoc by (done || congruence).
      by rewrite (committed_call_plan c _ _ _ _ _ Hp Hk).
  - destruct Hop as (Hcall & _). apply append_event in Ha as (Hk & Hp & Hg & Hl & Hg').
    split; cbn [persist_and_emit set_states set_ledger plan_ledger agent_generation state progress
      committed_calls g_revision]; rewrite ?Hl, ?Hg', ?latest_snoc, ?Hg, ?Hgen, ?Z.eqb_refl, ?Hk; try done.
    + lia.
    + rewrite bool_decide_eq_true_2 by done. cbn [andb].
      apply (restored_progress_payload c _ _ _ _ _ _ Hp); [done|lia..].
    + erewrite recover_calls_snoc by (done || congruence).
      by rewrite (committed_call_progress c _ _ _ _ _ _ Hp Hk).
Qed.

Lemma recoverable_steps ops c :
  Forall recoverable_op ops -> recoverable c -> recoverable (run_plan_ops ops c).
Proof.
  intros Hops. revert c. induction Hops as [|op ops Hop _ IH]; intros c Hc; [done|].
  apply IH. by apply (recoverable_step c op); [apply run_plan_op_step|..].
Qed.

(** C19: Recovery.  A controller of the same agent and session generation that
    recovers from the log after any calls whose writes succeeded has exactly the
    plan, the progress and the committed calls of the original, so the same
    repetitions are recognised; its own earlier state does not matter. *)
Theorem recover_agrees ops c other :
  Forall recoverable_op ops -> recoverable c ->
  let c' := run_plan_ops ops c in
  agent_id other = agent_id c' -> agent_generation other = agent_generation c' ->
  log_events (plan_ledger other) = log_events (plan_ledger c') ->
  let '(r, other') := recover_from_ledger other in
  is_ok r = true /\ state other' = state c' /\ progress other' = progress c' /\
  committed_calls other' = committed_calls c'.
Proof.
  intros Hops Hc c' Hid Hgen Hlog. pose proof (recoverable_steps ops c Hops Hc) as Hr. fold c' in Hr.
  clearbody c'. destruct Hr as [_ _ Hplan Hprog Hcalls].
  unfold recover_from_ledger, restore. rewrite Hlog, Hgen.
  set (plan := latest $"plan_updated" _ _ _) in *. set (prog := latest $"progress_reported" _ _ _) in *.
  assert (Hp : (match from_option plan_snapshot [] plan with
                | [] => Ok (empty_plan other) | _ => restored_plan other (from_option plan_snapshot [] plan) end)
               = Ok (state c')).
  { destruct plan as [e|]; cbn [from_option].
    - rewrite <-Hplan. unfold plan_snapshot at 1. unfold restored_plan. by rewrite Hid, Hgen.
    - rewrite Hplan. unfold empty_plan. by rewrite Hid, Hgen. }
  assert (Hg : (match from_option progress_snapshot [] prog with
                | [] => Ok empty_progress | _ => restored_progress (from_option progress_snapshot [] prog) end)
               = Ok (progress c')).
  { destruct prog as [e|]; cbn [from_option]; [|by rewrite Hprog]. by rewrite <-Hprog. }
  rewrite Hp, Hg. cbn [set_states agent_generation committed_calls]. by rewrite Hgen, Hcalls.
Qed.
End Theorems.

(** ** Witnesses and examples *)

Definition example_plan_controller (l : Store) : PlanController Store :=
  {| agent_id := $"main"; agent_generation := 0; plan_ledger := l; recovery_required := false;
     emitted := [];
     state := {| owner_agent_id := $"main"; p_generation := 0; revision := 0; items := [];
                 explanation := VNone; p_event_id := VNone |};
     progress := empty_progress; committed_calls := ∅ |}.

Definition example_items (s : pystr) : pyval :=
  VList [VDict [($"step", VStr s); ($"status", VStr $"in_progress")]].

Definition example_plan_ops : list PlanOp :=
  [ PUpdate (example_items $"build") (Some $"first") $"c1" 0 (example_tick $"a") true;
    PReport $"verifying" $" half done " None $"c2" 0 (example_tick $"b") false ].

Lemma update_commits_once_witness :
  (update (example_items $"build") None $"c1" 0 (example_tick $"a") true
     (example_plan_controller (example_ledger, ∅))).1
  = Ok ({| owner_agent_id := $"main"; p_generation := 0; revision := 1;
           items := [{| step := $"build"; active_form := $"build"; status := in_progress |}];
           explanation := VNone; p_event_id := VStr $"he_a" |}, true) /\
  is_ok (update (example_items $"other") None $"c1" 0 (example_tick $"b") true
    (run_plan_ops [] (update (example_items $"build") None $"c1" 0 (example_tick $"a") true
     (example_plan_controller (example_ledger, ∅))).2)).1 = false.
Proof.
  split; [vm_compute; reflexivity|].
  destruct (update (example_items $"build") None $"c1" 0 (example_tick $"a") true
     (example_plan_controller (example_ledger, ∅))) as [r c1] eqn:E.
  pose proof E as E'. vm_compute in E'. injection E' as Hr _. rewrite <-Hr in E.
  destruct (update_commits_once _ _ _ _ _ _ _ _ _ [] E) as [Hu _].
  specialize (Hu (example_items $"other") None 0 (example_tick $"b") true).
  cbn [snd]. destruct (update (example_items $"other") _ _ _ _ _ _) as [r3 c3].
  destruct Hu as (_ & Hiff & _). cbn [fst]. destruct (is_ok r3) eqn:Er; [|done].
  destruct (proj1 Hiff eq_refl) as [(its & H1 & H2) _]. exfalso.
  assert (H3 : validate_items (example_items $"other") = validate_items (example_items $"build"))
    by (by rewrite H1, H2).
  by vm_compute in H3.
Defined.

Lemma plan_revisions_witness :
  items_wf (items (state (run_plan_ops example_plan_ops (example_plan_controller (example_ledger, ∅)))))
  /\ revision (state (run_plan_ops example_plan_ops (example_plan_controller (example_ledger, ∅)))) = 1.
Proof.
  split; [|vm_compute; reflexivity].
  apply plan_revisions; [|vm_compute; discriminate].
  split; [by vm_compute|]. split; [constructor|]. by vm_compute.
Defined.

Lemma recover_agrees_witness :
  let c' := run_plan_ops example_plan_ops (example_plan_controller (example_ledger, ∅)) in
  state (recover_from_ledger (H0 := strict_coercions) (example_plan_controller (plan_ledger c'))).2
  = state c' /\ revision (state c') = 1.
Proof.
  intros c'. split; [|vm_compute; reflexivity].
  pose proof (recover_agrees (H1 := strict_coercions) example_plan_ops
    (example_plan_controller (example_ledger, ∅)) (example_plan_controller (plan_ledger c'))) as H.
  fold c' in H.
  destruct (recover_from_ledger (example_plan_controller (plan_ledger c'))) as [r o].
  destruct H as (_ & H & _); [by repeat constructor| |vm_compute; reflexivity..|exact H].
  by split.
Defined.

(** An explanation cut at 500 characters may end in whitespace.  The committed
    fingerprint keeps that whitespace, the recovered one does not, so a
    repetition of the committed call is refused after a recovery. *)
Definition cut_explanation : pystr := repeat 97 499 ++ $" b".

Lemma recovered_replay_rejected :
  let op (c : PlanController Store) :=
    update (example_items $"build") (Some cut_explanation) $"c1" 0 (example_tick $"a") true c in
  let c1 := (op (example_plan_controller (example_ledger, ∅))).2 in
  is_ok (op c1).1 = true /\
  is_ok (op (recover_from_ledger (H0 := strict_coercions) c1).2).1 = false.
Proof. vm_compute. done. Qed.
