(* ===== verification/Approval.v ===== *)
(** * Approval policy and session grants

    The policy engine (domain/approval_engine.py) picks the action for a tool
    call from ordered rules, one resource at a time; a session grant
    (domain/approval.py) covers a request when it covers every resource; and
    the file scopes offered to the user (domain/approval_subjects.py) are exact
    paths and one directory pattern.  The coordinator that queues the requests
    is in ApprovalQueue. *)

From S2P Require Import Prelude PyValue.

Inductive ApprovalAction := allow | warn | require_approval | deny.

#[export] Instance ApprovalAction_eq_dec : EqDecision ApprovalAction.
Proof. solve_decision. Defined.

Record ApprovalRuleConfig := {
  r_tool_name : option pystr;
  r_tool_source : option pystr;
  r_mcp_server : option pystr;
  r_effect_class : option pystr;
  r_profile : option pystr;
  pattern : option pystr;
  r_scope_key : option pystr;
  r_action : ApprovalAction;
}.

Record ApprovalConfig := { default_mode : ApprovalAction; rules : list ApprovalRuleConfig }.

(** The facts of a call that rules look at. *)
Record ToolApprovalContext := {
  tool_name : pystr;
  tool_source : pystr;
  mcp_server : option pystr;
  effect_class : option pystr;
  profile : option pystr;
  subjects : list pystr;
  scope_key : option pystr;
}.

Record ApprovalPolicyMatch := { action : ApprovalAction; rule : option ApprovalRuleConfig }.

(** ** Rule matching *)

(** [field is None or field == value]. *)
Definition dimension_ok (field value : option pystr) : bool :=
  match field with Some _ => bool_decide (field = value) | None => true end.

Definition matches_dimensions (r : ApprovalRuleConfig) (c : ToolApprovalContext) : bool :=
  dimension_ok (r_tool_name r) (Some (tool_name c)) &&
  dimension_ok (r_tool_source r) (Some (tool_source c)) &&
  dimension_ok (r_mcp_server r) (mcp_server c) &&
  dimension_ok (r_effect_class r) (effect_class c) &&
  dimension_ok (r_profile r) (profile c) &&
  dimension_ok (r_scope_key r) (scope_key c).

(** [pattern[:-3].rstrip("/")] for a pattern that ends in ["/**"]. *)
Definition subtree_base (p : pystr) : pystr := rstrip_char 47 (take (length p - 3) p).

Definition matches_subject (p : option pystr) (subject : pystr) : bool :=
  match p with
  | None => true
  | Some p =>
    if bool_decide (p = $"*") then true
    else if endswith p $"/**" then
      bool_decide (subject = subtree_base p) || startswith subject (subtree_base p ++ [47])
    else bool_decide (subject = p)
  end.

Definition isset (o : option pystr) : bool := match o with Some _ => true | None => false end.

Definition specificity (r : ApprovalRuleConfig) : Z :=
  (if isset (r_tool_source r) then 1 else 0) + (if isset (r_mcp_server r) then 2 else 0)
  + (if isset (r_tool_name r) then 4 else 0) + (if isset (r_effect_class r) then 1 else 0)
  + (if isset (r_profile r) then 1 else 0)
  + match pattern r with
    | None => 0
    | Some p => if bool_decide (p = $"*") then 1 else if endswith p $"/**" then 2 else 3
    end
  + (if isset (r_scope_key r) then 2 else 0).

(** ** The engine *)

(** [sorted(rules, key=specificity, reverse=True)], which keeps the order of
    equally specific rules. *)
Definition more_specific (r r' : ApprovalRuleConfig) : bool := specificity r' <=? specificity r.
Definition ranked_rules (cfg : ApprovalConfig) : list ApprovalRuleConfig :=
  stable_sort more_specific (rules cfg).

Definition fallback_action (cfg : ApprovalConfig) (c : ToolApprovalContext) : ApprovalAction :=
  if bool_decide (effect_class c ∈ [Some $"read_only_internal"; Some $"control_plane_internal"])
  then allow else default_mode cfg.

Definition first_match (f : ApprovalRuleConfig -> bool) (cfg : ApprovalConfig)
    (c : ToolApprovalContext) : ApprovalPolicyMatch :=
  match list_find (fun r => f r = true) (ranked_rules cfg) with
  | Some (_, r) => {| action := r_action r; rule := Some r |}
  | None => {| action := fallback_action cfg c; rule := None |}
  end.

Definition subject_match (cfg : ApprovalConfig) (c : ToolApprovalContext) (subject : pystr)
    : ApprovalPolicyMatch :=
  first_match (fun r => matches_dimensions r c && matches_subject (pattern r) subject) cfg c.

Definition action_priority (a : ApprovalAction) : Z :=
  match a with allow => 0 | warn => 1 | require_approval => 2 | deny => 3 end.

(** [max(matches, key=...)]: the first of the largest. *)
Definition max_match (m : ApprovalPolicyMatch) (l : list ApprovalPolicyMatch) : ApprovalPolicyMatch :=
  foldl (fun best x => if action_priority (action best) <? action_priority (action x)
                       then x else best) m l.

Definition evaluate (cfg : ApprovalConfig) (c : ToolApprovalContext) : ApprovalPolicyMatch :=
  match subjects c with
  | [] => first_match (fun r => matches_dimensions r c && bool_decide (pattern r = None)) cfg c
  | s :: rest => max_match (subject_match cfg c s) (map (subject_match cfg c) rest)
  end.

(** ** Session grants *)

Record ApprovalGrantCandidate := {
  grant_id : pystr;
  proposed_rules : list ApprovalRuleConfig;
  grant_scope_key : option pystr;
  broad : bool;
}.

(** [approval_grant_covers_request]; the request's facts are those of a call. *)
Definition approval_grant_covers_request (g : ApprovalGrantCandidate) (c : ToolApprovalContext)
    : bool :=
  if negb (bool_decide (grant_scope_key g = scope_key c)) then false else
  let rules := filter (fun r => r_action r = allow) (proposed_rules g) in
  if bool_decide (rules = []) then false else
  let matching := filter (fun r => matches_dimensions r c = true) rules in
  if bool_decide (matching = []) then false else
  match subjects c with
  | [] => existsb (fun r => bool_decide (pattern r = None)) matching
  | _ => forallb (fun s => existsb (fun r => matches_subject (pattern r) s) matching) (subjects c)
  end.

(** ** File scopes *)

(** [s.split("/")]. *)
Fixpoint split_slash (s : pystr) : list pystr :=
  match s with
  | [] => [[]]
  | c :: s' =>
    if c =? 47 then [] :: split_slash s'
    else match split_slash s' with
         | [] => [[c]]
         | w :: l => (c :: w) :: l
         end
  end.

(** [posixpath.dirname]: up to the last slash, without trailing slashes unless
    there is nothing else. *)
Definition up_to_slash (s : pystr) : pystr := rdrop_while (fun c => negb (c =? 47)) s.
Definition dirname (s : pystr) : pystr :=
  let head := up_to_slash s in
  if forallb (Z.eqb 47) head then head else rstrip_char 47 head.

Fixpoint common_prefix (l k : list pystr) : list pystr :=
  match l, k with
  | x :: l', y :: k' => if decide (x = y) then x :: common_prefix l' k' else []
  | _, _ => []
  end.

Definition path_components (p : pystr) : list pystr :=
  filter (fun w => w <> [] /\ w <> $".") (split_slash p).

(** Lexicographic order of lists of texts. *)
Fixpoint components_leb (l k : list pystr) : bool :=
  match l, k with
  | [], _ => true
  | _ :: _, [] => false
  | x :: l', y :: k' =>
    if decide (x = y) then components_leb l' k' else text_leb x y
  end.

Definition min_components (l : list pystr) (k : list (list pystr)) : list pystr :=
  foldl (fun a b => if components_leb a b then a else b) l k.
Definition max_components (l : list pystr) (k : list (list pystr)) : list pystr :=
  foldl (fun a b => if components_leb b a then a else b) l k.

(** [posixpath.commonpath]: the common beginning of the smallest and the
    largest path; mixing absolute and relative paths raises. *)
Definition commonpath (paths : list pystr) : result pystr :=
  match paths with
  | [] => Raise (ValueError $"commonpath() arg is an empty sequence")
  | p :: rest =>
    let isabs := startswith p [47] in
    if negb (forallb (fun q => eqb (startswith q [47]) isabs) rest)
    then Raise (ValueError $"Can't mix absolute and relative paths")
    else
      let parts := map path_components rest in
      let lo := min_components (path_components p) parts in
      let hi := max_components (path_components p) parts in
      Ok ((if isabs then [47] else []) ++ join [47] (common_prefix lo hi))
  end.

Definition is_absolute_subject (s : pystr) : bool :=
  startswith s $"/" ||
  ((len s >=? 3) && bool_decide (s !! 1%nat = Some 58) && bool_decide (s !! 2%nat = Some 47)) ||
  startswith s $"//".

Record ApprovalGrantScope := {
  scope_id : pystr; label : pystr; description : pystr; patterns : list pystr; scope_broad : bool;
}.

Definition exact_scope (subjects : list pystr) : ApprovalGrantScope :=
  {| scope_id := $"exact";
     label := $"This " ++ (if len subjects =? 1 then $"file" else z_str (len subjects) ++ $" files");
     description := join $", " subjects; patterns := subjects; scope_broad := false |}.

Definition directory_scope (common : pystr) : ApprovalGrantScope :=
  let p := rstrip_char 47 common ++ $"/**" in
  {| scope_id := $"directory"; label := $"This directory"; description := p; patterns := [p];
     scope_broad := true |}.

(** [posixpath.dirname(subject) or "."]. *)
Definition parent_of (s : pystr) : pystr :=
  match dirname s with [] => $"." | d => d end.

Definition file_approval_grant_scopes (subjects : list pystr) : list ApprovalGrantScope :=
  match subjects with
  | [] => []
  | _ =>
    if existsb is_absolute_subject subjects then [exact_scope subjects] else
    match commonpath (map parent_of subjects) with
    | Raise _ => [exact_scope subjects]
    | Ok common =>
      if bool_decide (common ∈ [[]; $"."]) then [exact_scope subjects]
      else [exact_scope subjects; directory_scope common]
    end
  end.

(** ** Lemmas: ranking *)

Lemma more_specific_trans x y z :
  more_specific x y = true -> more_specific y z = true -> more_specific x z = true.
Proof. unfold more_specific. rewrite !Z.leb_le. lia. Qed.

Lemma more_specific_total x y : more_specific x y = false -> more_specific y x = true.
Proof. unfold more_specific. rewrite Z.leb_gt, Z.leb_le. lia. Qed.

Section Find.
Context (f : ApprovalRuleConfig -> bool).

Definition find_rule (l : list ApprovalRuleConfig) : option ApprovalRuleConfig :=
  snd <$> list_find (fun r => f r = true) l.

Lemma find_rule_cons x l : find_rule (x :: l) = if f x then Some x else find_rule l.
Proof.
  unfold find_rule. cbn. destruct (f x) eqn:E; [by rewrite decide_True|].
  rewrite decide_False by congruence. by destruct (list_find _ l) as [[]|].
Qed.

Lemma find_rule_Some l r : find_rule l = Some r -> r ∈ l /\ f r = true.
Proof.
  induction l as [|x l IH]; [done|]. rewrite find_rule_cons. destruct (f x) eqn:E.
  - intros [= ->]. split; [left|done].
  - intros H. destruct (IH H). split; [by right|done].
Qed.

Lemma find_rule_None l : find_rule l = None -> Forall (fun r => f r = false) l.
Proof.
  induction l as [|x l IH]; [done|]. rewrite find_rule_cons. destruct (f x) eqn:E; [done|].
  intros H. by constructor; [|apply IH].
Qed.

(** The best rule: the first of the most specific that satisfy [f]. *)
Fixpoint best_rule (l : list ApprovalRuleConfig) : option ApprovalRuleConfig :=
  match l with
  | [] => None
  | x :: l' =>
    match best_rule l' with
    | Some y => if f x && more_specific x y then Some x else Some y
    | None => if f x then Some x else None
    end
  end.

Lemma find_insert x l :
  StronglySorted (fun x y => more_specific x y = true) l ->
  find_rule (insert_sorted more_specific x l) =
  match find_rule l with
  | Some y => if f x && more_specific x y then Some x else Some y
  | None => if f x then Some x else None
  end.
Proof.
  induction 1 as [|y l Hl IH Hy]; cbn [insert_sorted]; [by rewrite find_rule_cons|].
  destruct (more_specific x y) eqn:E.
  - rewrite find_rule_cons. destruct (f x) eqn:Ex; cbn [andb].
    + destruct (find_rule (y :: l)) as [z|] eqn:Ez; [|done].
      apply find_rule_Some in Ez as [Hz _]. apply elem_of_cons in Hz as [->|Hz]; [by rewrite E|].
      rewrite Forall_forall in Hy. by rewrite (more_specific_trans x y z) by auto.
    + by destruct (find_rule (y :: l)).
  - rewrite !find_rule_cons, IH. destruct (f y); [|done]. by rewrite E, andb_false_r.
Qed.

Lemma find_ranked l : find_rule (stable_sort more_specific l) = best_rule l.
Proof.
  induction l as [|x l IH]; [done|]. change (stable_sort more_specific (x :: l))
    with (insert_sorted more_specific x (stable_sort more_specific l)).
  rewrite find_insert by (apply stable_sort_sorted; eauto using more_specific_trans, more_specific_total).
  by rewrite IH.
Qed.

Lemma best_rule_spec l :
  match best_rule l with
  | None => Forall (fun r => f r = false) l
  | Some r => exists l1 l2, l = l1 ++ r :: l2 /\ f r = true /\
      Forall (fun x => f x = true -> specificity x < specificity r) l1 /\
      Forall (fun x => f x = true -> specificity x <= specificity r) l2
  end.
Proof.
  induction l as [|x l IH]; cbn; [done|].
  destruct (best_rule l) as [r|] eqn:Eb.
  - destruct IH as (l1 & l2 & -> & Hr & H1 & H2).
    destruct (f x) eqn:Ex; cbn [andb].
    + destruct (more_specific x r) eqn:E; unfold more_specific in E; zbool.
      * exists [], (l1 ++ r :: l2). split; [done|]. split; [done|]. split; [done|].
        rewrite Forall_app, Forall_cons. split_and!; [|done|].
        -- eapply Forall_impl; [exact H1|]. cbn. intros y Hy Hf. specialize (Hy Hf). lia.
        -- eapply Forall_impl; [exact H2|]. cbn. intros y Hy Hf. specialize (Hy Hf). lia.
      * exists (x :: l1), l2. rewrite Forall_cons. done.
    + exists (x :: l1), l2. rewrite Forall_cons. split_and!; try done. by rewrite Ex.
  - destruct (f x) eqn:Ex; [|by constructor]. exists [], l. split_and!; try done.
    eapply Forall_impl; [exact IH|]. cbn. congruence.
Qed.

End Find.

Lemma first_match_best f cfg c :
  first_match f cfg c =
  match best_rule f (rules cfg) with
  | Some r => {| action := r_action r; rule := Some r |}
  | None => {| action := fallback_action cfg c; rule := None |}
  end.
Proof.
  unfold first_match, ranked_rules. rewrite <-find_ranked. unfold find_rule.
  by destruct (list_find _ _) as [[]|].
Qed.

Lemma max_match_spec m l :
  (max_match m l = m \/ max_match m l ∈ l) /\
  Forall (fun x => action_priority (action x) <= action_priority (action (max_match m l))) (m :: l).
Proof.
  revert m. induction l as [|x l IH]; intros m; cbn -[Z.ltb]; [split; [by left|by repeat constructor]|].
  fold (max_match (if action_priority (action m) <? action_priority (action x) then x else m) l).
  destruct (Z.ltb_spec (action_priority (action m)) (action_priority (action x))).
  - destruct (IH x) as [[E|E] Hall]; inversion_clear Hall as [|? ? Hx Hl].
    + split; [right; rewrite E; left|]. repeat constructor; try done. lia.
    + split; [right; by right|]. repeat constructor; try done. lia.
  - destruct (IH m) as [[E|E] Hall]; inversion_clear Hall as [|? ? Hx Hl].
    + split; [by left|]. repeat constructor; try done. lia.
    + split; [right; by right|]. repeat constructor; try done. lia.
Qed.

(** What decides for one resource: the earliest of the most specific rules that
    apply to it, or the fallback when none applies. *)
Definition decides (cfg : ApprovalConfig) (c : ToolApprovalContext)
    (f : ApprovalRuleConfig -> bool) (m : ApprovalPolicyMatch) : Prop :=
  match rule m with
  | Some r => action m = r_action r /\
      exists l1 l2, rules cfg = l1 ++ r :: l2 /\ f r = true /\
        Forall (fun x => f x = true -> specificity x < specificity r) l1 /\
        Forall (fun x => f x = true -> specificity x <= specificity r) l2
  | None => action m = fallback_action cfg c /\ Forall (fun x => f x = false) (rules cfg)
  end.

Lemma first_match_decides f cfg c : decides cfg c f (first_match f cfg c).
Proof.
  rewrite first_match_best. unfold decides. pose proof (best_rule_spec f (rules cfg)) as H.
  by destruct (best_rule f (rules cfg)) as [r|].
Qed.

(** Policy evaluation.  Each resource is decided by the earliest of the most
    specific rules that apply to it, or by the fallback; the call gets the
    strictest of these decisions, so it is allowed only if every resource is
    allowed and denied as soon as one is denied.  A call without resources is
    decided by rules without a pattern. *)
Theorem evaluate_spec cfg c :
  match subjects c with
  | [] => decides cfg c (fun r => matches_dimensions r c && bool_decide (pattern r = None))
            (evaluate cfg c)
  | _ =>
    (forall s, s ∈ subjects c ->
      decides cfg c (fun r => matches_dimensions r c && matches_subject (pattern r) s)
        (subject_match cfg c s) /\
      action_priority (action (subject_match cfg c s)) <= action_priority (action (evaluate cfg c))) /\
    exists s, s ∈ subjects c /\ evaluate cfg c = subject_match cfg c s
  end.
Proof.
  unfold evaluate. destruct (subjects c) as [|s0 ss]; [apply first_match_decides|].
  destruct (max_match_spec (subject_match cfg c s0) (map (subject_match cfg c) ss)) as [Hin Hall].
  change (subject_match cfg c s0 :: map (subject_match cfg c) ss)
    with (map (subject_match cfg c) (s0 :: ss)) in Hall. split.
  - intros s Hs. split; [apply first_match_decides|]. rewrite Forall_forall in Hall. apply Hall.
    apply list_elem_of_In, in_map, list_elem_of_In, Hs.
  - destruct Hin as [->|Hin]; [exists s0; split; [left|done]|].
    apply list_elem_of_In, in_map_iff in Hin as (s & Hs & Hin). exists s.
    split; [right; by apply list_elem_of_In|done].
Qed.

(** ** Grants *)

Lemma covers_spec g c :
  approval_grant_covers_request g c = true <->
  grant_scope_key g = scope_key c /\
  (exists r, r ∈ proposed_rules g /\ r_action r = allow /\ matches_dimensions r c = true /\
     (subjects c = [] -> pattern r = None)) /\
  forall s, s ∈ subjects c ->
    exists r, r ∈ proposed_rules g /\ r_action r = allow /\ matches_dimensions r c = true /\
      matches_subject (pattern r) s = true.
Proof.
  unfold approval_grant_covers_request.
  destruct (bool_decide_reflect (grant_scope_key g = scope_key c)) as [Hk|Hk]; cbn [negb];
    [|split; [done|by intros [? _]]].
  set (allowed := filter (fun r => r_action r = allow) (proposed_rules g)).
  set (matching := filter (fun r => matches_dimensions r c = true) allowed).
  assert (Hm : forall r, r ∈ matching <->
    r ∈ proposed_rules g /\ r_action r = allow /\ matches_dimensions r c = true).
  { intros r. subst matching allowed. rewrite !list_elem_of_filter. tauto. }
  assert (Hfinal : (match subjects c with
     | [] => existsb (fun r => bool_decide (pattern r = None)) matching
     | _ => forallb (fun s => existsb (fun r => matches_subject (pattern r) s) matching) (subjects c)
     end = true /\ matching <> []) <->
     (exists r, r ∈ matching /\ (subjects c = [] -> pattern r = None)) /\
     forall s, s ∈ subjects c -> exists r, r ∈ matching /\ matches_subject (pattern r) s = true).
  { destruct (subjects c) as [|s0 ss] eqn:Es.
    - rewrite existsb_exists. setoid_rewrite bool_decide_eq_true. split.
      + intros [(r & Hr & Hp) _]. split; [exists r; rewrite list_elem_of_In; auto|].
        intros s Hs. by apply elem_of_nil in Hs.
      + intros [(r & Hr & Hp) _]. split; [exists r; rewrite <-list_elem_of_In; auto|].
        intros E. rewrite E in Hr. by apply elem_of_nil in Hr.
    - rewrite forallb_forall. setoid_rewrite existsb_exists.
      setoid_rewrite <-list_elem_of_In. split.
      + intros [H Hne]. split; [|done]. destruct matching as [|r l]; [done|].
        exists r. split; [left|done].
      + intros [(r & Hr & _) H]. split; [done|]. intros E. rewrite E in Hr. by apply elem_of_nil in Hr. }
  assert (Hex : forall Q : _ -> Prop,
    (exists r, r ∈ proposed_rules g /\ r_action r = allow /\ matches_dimensions r c = true /\ Q r) <->
    exists r, r ∈ matching /\ Q r).
  { intros Q. split; intros (r & H); exists r; specialize (Hm r); tauto. }
  assert (Hgoal : ((exists r, r ∈ proposed_rules g /\ r_action r = allow /\ matches_dimensions r c = true /\
       (subjects c = [] -> pattern r = None)) /\
     forall s, s ∈ subjects c -> exists r, r ∈ proposed_rules g /\ r_action r = allow /\
       matches_dimensions r c = true /\ matches_subject (pattern r) s = true) <->
    (exists r, r ∈ matching /\ (subjects c = [] -> pattern r = None)) /\
    forall s, s ∈ subjects c -> exists r, r ∈ matching /\ matches_subject (pattern r) s = true).
  { rewrite (Hex (fun r => subjects c = [] -> pattern r = None)).
    split; (intros [H1 H2]; split; [exact H1|]; intros s Hs; by apply (Hex (fun r => matches_subject (pattern r) s = true)), H2). }
  rewrite <-Hgoal in Hfinal. clear Hex Hgoal Hm.
  assert (Hallowed : matching <> [] -> allowed <> []) by (by subst matching; intros H ->).
  destruct (bool_decide_reflect (allowed = [])) as [Ea|Ea]; [|destruct (bool_decide_reflect (matching = [])) as [Em|Em]].
  - split; [done|]. intros [_ H]. destruct (proj2 Hfinal H) as [_ Hne]. by apply Hallowed in Hne.
  - split; [done|]. intros [_ H]. by destruct (proj2 Hfinal H) as [_ Hne].
  - split; [intros H; split; [done|]; exact (proj1 Hfinal (conj H Em))|]. intros [_ H]. apply (proj2 Hfinal H).
Qed.

(** The policy that consists of a grant's rules and asks about everything else. *)
Definition grant_policy (g : ApprovalGrantCandidate) : ApprovalConfig :=
  {| default_mode := require_approval; rules := proposed_rules g |}.

Lemma decides_allow g c f m :
  Forall (fun r => r_action r = allow) (proposed_rules g) ->
  fallback_action (grant_policy g) c = require_approval ->
  decides (grant_policy g) c f m ->
  (action m = allow <-> exists r, r ∈ proposed_rules g /\ f r = true).
Proof.
  intros Hall Hfb. unfold decides. rewrite Forall_forall in Hall. destruct (rule m) as [r|].
  - intros [-> (l1 & l2 & E & Hf & _)]. cbn in E.
    assert (r ∈ proposed_rules g) by (rewrite E; apply elem_of_app; right; left).
    split; [by exists r|]. intros _. by apply Hall.
  - rewrite Hfb. intros [-> Hnone]. split; [done|]. intros (r & Hr & Hf).
    rewrite Forall_forall in Hnone. cbn in Hnone. rewrite Hnone in Hf; done.
Qed.

#[local] Opaque matches_dimensions matches_subject.

(** Queue coverage agrees with policy evaluation.  For a grant of allow
    rules bound to the request's scope, the coordinator releases a queued request
    exactly when a policy made of the grant's rules, asking about everything
    else, would allow that request. *)
Theorem grant_agrees_with_policy g c :
  Forall (fun r => r_action r = allow) (proposed_rules g) ->
  grant_scope_key g = scope_key c ->
  fallback_action (grant_policy g) c = require_approval ->
  approval_grant_covers_request g c = true <->
  action (evaluate (grant_policy g) c) = allow.
Proof.
  intros Hall Hk Hfb. rewrite covers_spec. pose proof Hall as Hall'. rewrite Forall_forall in Hall'.
  pose proof (first_match_decides) as Hd. unfold evaluate.
  destruct (subjects c) as [|s0 ss] eqn:Es.
  - rewrite (decides_allow g c _ _ Hall Hfb (Hd _ _ _)). setoid_rewrite andb_true_iff.
    setoid_rewrite bool_decide_eq_true. split.
    + intros (_ & (r & Hr & _ & Hm & Hp) & _). exists r. auto.
    + intros (r & Hr & Hm & Hp). split_and!; [done|exists r; auto|].
      intros s Hs. by apply elem_of_nil in Hs.
  - destruct (max_match_spec (subject_match (grant_policy g) c s0)
      (map (subject_match (grant_policy g) c) ss)) as [Hin Hmax].
    set (m := max_match _ _) in *.
    assert (Hm : action m = allow <-> forall s, s ∈ s0 :: ss ->
      action (subject_match (grant_policy g) c s) = allow).
    { split.
      - intros Ha s Hs. rewrite Forall_forall in Hmax. specialize (Hmax (subject_match (grant_policy g) c s)).
        rewrite Ha in Hmax. cbn [action_priority] in Hmax.
        assert (Hle : action_priority (action (subject_match (grant_policy g) c s)) <= 0).
        { apply Hmax. change (subject_match (grant_policy g) c s ∈ map (subject_match (grant_policy g) c) (s0 :: ss)).
          apply list_elem_of_In, in_map, list_elem_of_In, Hs. }
        destruct (action (subject_match (grant_policy g) c s)); cbn in Hle; done || lia.
      - intros Ha. destruct Hin as [->|Hin]; [apply Ha; left|].
        apply list_elem_of_In, in_map_iff in Hin as (s & <- & Hin). apply Ha. right. by apply list_elem_of_In. }
    rewrite Hm.
    assert (Hs : forall s, action (subject_match (grant_policy g) c s) = allow <->
      exists r, r ∈ proposed_rules g /\ matches_dimensions r c = true /\ matches_subject (pattern r) s = true).
    { intros s. unfold subject_match. rewrite (decides_allow g c _ _ Hall Hfb (Hd _ _ _)).
      by setoid_rewrite andb_true_iff. }
    setoid_rewrite Hs. split.
    + intros (_ & _ & H) s Hin'. destruct (H s Hin') as (r & ? & ? & ? & ?). exists r. auto.
    + intros H. split_and!; [done| |].
      * destruct (H s0) as (r & ? & ? & ?); [left|]. exists r. split_and!; try done; by apply Hall'.
      * intros s Hin'. destruct (H s Hin') as (r & ? & ? & ?). exists r. split_and!; try done; by apply Hall'.
Qed.

#[local] Transparent matches_dimensions matches_subject.

(** An exact grant for a file whose own name is the wildcard covers every other
    file: exact paths and patterns are the same texts. *)
Definition exact_grant (subject : pystr) : ApprovalGrantCandidate :=
  {| grant_id := $"exact";
     proposed_rules := map (fun p => {| r_tool_name := Some $"write_file"; r_tool_source := None;
         r_mcp_server := None; r_effect_class := None; r_profile := None; pattern := Some p;
         r_scope_key := None; r_action := allow |}) (patterns (exact_scope [subject]));
     grant_scope_key := None; broad := false |}.

Definition write_call (subject : pystr) : ToolApprovalContext :=
  {| tool_name := $"write_file"; tool_source := $"builtin"; mcp_server := None;
     effect_class := Some $"workspace_write"; profile := None; subjects := [subject];
     scope_key := None |}.

Lemma exact_grant_wildcard_name :
  approval_grant_covers_request (exact_grant $"notes.txt") (write_call $"src/main.py") = false /\
  approval_grant_covers_request (exact_grant $"*") (write_call $"src/main.py") = true /\
  approval_grant_covers_request (exact_grant $"src/**") (write_call $"src/main.py") = true.
Proof. vm_compute. done. Qed.

Lemma grant_agrees_with_policy_witness :
  grant_scope_key (exact_grant $"a.txt") = scope_key (write_call $"a.txt") /\
  action (evaluate (grant_policy (exact_grant $"a.txt")) (write_call $"a.txt")) = allow.
Proof.
  split; [done|]. apply (grant_agrees_with_policy (exact_grant $"a.txt")); [by repeat constructor|done..].
Defined.

(** ** File scopes *)

Lemma components_leb_total l k : components_leb l k = false -> components_leb k l = true.
Proof.
  revert k. induction l as [|x l IH]; intros [|y k]; cbn; try done.
  destruct (decide (x = y)) as [->|Hn]; [rewrite decide_True by done; apply IH|].
  rewrite decide_False by done. apply text_leb_total.
Qed.

Lemma components_leb_trans l k m :
  components_leb l k = true -> components_leb k m = true -> components_leb l m = true.
Proof.
  revert k m. induction l as [|x l IH]; intros [|y k] [|z m]; cbn; try done.
  destruct (decide (x = y)) as [->|Hxy].
  - destruct (decide (y = z)) as [->|Hyz]; [apply IH|done].
  - intros Hl. destruct (decide (y = z)) as [->|Hyz]; [by rewrite decide_False|].
    intros Hk. rewrite decide_False; [by eapply text_leb_trans|].
    intros ->. apply Hxy. by apply text_leb_antisym.
Qed.

Lemma components_leb_refl l : components_leb l l = true.
Proof. induction l; cbn; [done|]. by rewrite decide_True. Qed.

Lemma min_components_spec l k :
  Forall (fun x => components_leb (min_components l k) x = true) (l :: k).
Proof.
  revert l. induction k as [|y k IH]; intros l; [repeat constructor; apply components_leb_refl|].
  cbn. destruct (components_leb l y) eqn:E.
  - specialize (IH l). inversion_clear IH. repeat constructor; try done. by eapply components_leb_trans.
  - apply components_leb_total in E. specialize (IH y). inversion_clear IH.
    repeat constructor; try done. by eapply components_leb_trans.
Qed.

Lemma max_components_spec l k :
  Forall (fun x => components_leb x (max_components l k) = true) (l :: k).
Proof.
  revert l. induction k as [|y k IH]; intros l; [repeat constructor; apply components_leb_refl|].
  cbn. destruct (components_leb y l) eqn:E.
  - specialize (IH l). inversion_clear IH. repeat constructor; try done. by eapply components_leb_trans.
  - apply components_leb_total in E. specialize (IH y). inversion_clear IH.
    repeat constructor; try done. by eapply components_leb_trans.
Qed.

(** What the smallest and the largest path share, every path between shares. *)
Lemma common_prefix_between lo hi x :
  components_leb lo x = true -> components_leb x hi = true -> common_prefix lo hi `prefix_of` x.
Proof.
  revert hi x. induction lo as [|a lo IH]; intros [|b hi] x Hlo Hhi; cbn;
    try apply prefix_nil.
  destruct (decide (a = b)) as [->|]; [|apply prefix_nil].
  destruct x as [|c x]; [done|]. cbn in Hlo, Hhi.
  destruct (decide (b = c)) as [->|Hbc].
  - rewrite decide_True in Hhi by done. apply prefix_cons. by apply IH.
  - rewrite decide_False in Hhi by done. exfalso. apply Hbc. by apply text_leb_antisym.
Qed.

Definition component (w : pystr) : Prop := w <> [] /\ 47 ∉ w.

Lemma split_slash_cons s : exists w l, split_slash s = w :: l.
Proof.
  induction s as [|c s (w & l & E)]; cbn; [eauto|]. rewrite E. case_match; eauto.
Qed.

Lemma split_slash_spec s :
  join [47] (split_slash s) = s /\ Forall (fun w => 47 ∉ w) (split_slash s).
Proof.
  induction s as [|c s [IHj IHf]]; [split; [done|repeat constructor; apply not_elem_of_nil]|].
  cbn. destruct (split_slash_cons s) as (w & l & E). rewrite E in *.
  destruct (Z.eqb_spec c 47) as [->|Hc].
  - split; [|constructor; [apply not_elem_of_nil|done]]. rewrite <-IHj. done.
  - inversion_clear IHf as [|? ? Hw Hl]. split.
    + rewrite <-IHj. by destruct l.
    + constructor; [|done]. apply not_elem_of_cons. split; [congruence|done].
Qed.

Lemma join_snoc ws w : ws <> [] -> join [47] (ws ++ [w]) = join [47] ws ++ 47 :: w.
Proof.
  induction ws as [|x ws IH]; [done|]. intros _. destruct ws as [|y ws]; [done|].
  change (join [47] ((x :: y :: ws) ++ [w])) with (x ++ [47] ++ join [47] ((y :: ws) ++ [w])).
  rewrite IH by done. change (join [47] (x :: y :: ws)) with (x ++ [47] ++ join [47] (y :: ws)).
  by rewrite <-!app_assoc.
Qed.

Lemma join_app l k : l <> [] -> k <> [] -> join [47] (l ++ k) = join [47] l ++ 47 :: join [47] k.
Proof.
  intros Hl Hk. induction l as [|x l IH]; [done|]. destruct l as [|y l]; [by destruct k|].
  change (join [47] ((x :: y :: l) ++ k)) with (x ++ [47] ++ join [47] ((y :: l) ++ k)).
  rewrite IH by done. change (join [47] (x :: y :: l)) with (x ++ [47] ++ join [47] (y :: l)).
  by rewrite <-!app_assoc.
Qed.

Lemma split_slash_app w s : 47 ∉ w -> split_slash (w ++ 47 :: s) = w :: split_slash s.
Proof.
  induction w as [|c w IH]; cbn; [done|]. rewrite not_elem_of_cons. intros [Hc Hw].
  rewrite IH by done. by destruct (Z.eqb_spec c 47).
Qed.

Lemma split_slash_plain w : 47 ∉ w -> split_slash w = [w].
Proof.
  induction w as [|c w IH]; cbn; [done|]. rewrite not_elem_of_cons. intros [Hc Hw].
  rewrite IH by done. by destruct (Z.eqb_spec c 47).
Qed.

Lemma split_slash_join ws :
  ws <> [] -> Forall (fun w => 47 ∉ w) ws -> split_slash (join [47] ws) = ws.
Proof.
  intros Hne Hws. induction Hws as [|w ws Hw _ IH]; [done|].
  destruct ws as [|x ws]; [by apply split_slash_plain|].
  change (join [47] (w :: x :: ws)) with (w ++ 47 :: join [47] (x :: ws)).
  rewrite split_slash_app by done. by rewrite IH.
Qed.

Lemma rdrop_while_app_all {A} (f : A -> bool) l k :
  Forall (fun x => f x = true) k -> rdrop_while f (l ++ k) = rdrop_while f l.
Proof.
  intros Hk. unfold rdrop_while. rewrite reverse_app. f_equal.
  apply Forall_reverse in Hk. induction Hk as [|y k2 Hy _ IH]; [done|]. cbn. by rewrite Hy.
Qed.

Lemma rdrop_while_snoc {A} (f : A -> bool) l x : f x = false -> rdrop_while f (l ++ [x]) = l ++ [x].
Proof. intros Hx. apply rdrop_while_id. rewrite reverse_snoc. done. Qed.

Lemma rdrop_slash l x : x <> 47 -> rstrip_char 47 (l ++ [x]) = l ++ [x].
Proof. intros Hx. apply rdrop_while_snoc. by apply Z.eqb_neq. Qed.

Lemma joined_last ws : ws <> [] -> Forall component ws ->
  exists l x, join [47] ws = l ++ [x] /\ x <> 47.
Proof.
  intros Hne Hws. destruct (exists_last Hne) as (ws' & w & ->).
  apply Forall_app in Hws as [_ Hw]. inversion_clear Hw as [|? ? [Hw1 Hw2] _].
  destruct (exists_last Hw1) as (l & x & ->). apply not_elem_of_app in Hw2 as [_ Hx].
  apply not_elem_of_cons in Hx as [Hx _].
  destruct ws' as [|w0 ws'].
  - exists l, x. split; [done|congruence].
  - rewrite join_snoc by done. exists (join [47] (w0 :: ws') ++ 47 :: l), x. split; [|congruence].
    by rewrite <-app_assoc.
Qed.

Lemma dirname_join ws w :
  Forall component ws -> 47 ∉ w -> dirname (join [47] (ws ++ [w])) = join [47] ws.
Proof.
  intros Hws Hw. assert (Hall : Forall (fun c => negb (c =? 47) = true) w).
  { apply Forall_forall. intros c Hc. apply negb_true_iff, Z.eqb_neq. by intros ->. }
  unfold dirname, up_to_slash. destruct ws as [|w0 ws].
  - cbn [app join]. change w with ([] ++ w) at 1 2. rewrite rdrop_while_app_all by done. done.
  - rewrite join_snoc by done. destruct (joined_last (w0 :: ws)) as (l & x & Hj & Hx); [done|done|].
    replace (join [47] (w0 :: ws) ++ 47 :: w) with ((join [47] (w0 :: ws) ++ [47]) ++ w)
      by by rewrite <-app_assoc.
    rewrite rdrop_while_app_all, rdrop_while_snoc by done.
    rewrite forallb_app, Hj, forallb_app. cbn [forallb].
    replace (47 =? x) with false by (symmetry; apply Z.eqb_neq; congruence).
    rewrite andb_false_r. cbn [andb]. unfold rstrip_char.
    rewrite rdrop_while_app_all by (by repeat constructor). by apply rdrop_slash.
Qed.

(** A relative path without empty or current-directory parts, as
    [canonical_workspace_subject] makes them. *)
Definition normal_subject (s : pystr) : Prop :=
  Forall (fun w => w <> [] /\ w <> $".") (split_slash s).

Lemma normal_subject_parts s :
  normal_subject s -> exists ws w, s = join [47] (ws ++ [w]) /\ Forall component (ws ++ [w]) /\
    Forall (fun w => w <> $".") ws.
Proof.
  intros Hs. destruct (split_slash_spec s) as [Hj Hf].
  assert (Hne : split_slash s <> []) by (destruct (split_slash_cons s) as (w & l & ->); done).
  destruct (exists_last Hne) as (ws & w & E). exists ws, w. unfold normal_subject in Hs.
  rewrite E in *. split_and!; [done| |].
  - apply Forall_forall. intros x Hx. rewrite Forall_forall in Hs, Hf. unfold component. naive_solver.
  - apply Forall_app in Hs as [Hs _]. eapply Forall_impl; [exact Hs|]. naive_solver.
Qed.

Lemma filter_all {A} (P : A -> Prop) `{!forall x, Decision (P x)} l :
  Forall P l -> filter P l = l.
Proof.
  induction 1 as [|x l Hx _ IH]; [done|]. by rewrite filter_cons, decide_True, IH.
Qed.

Lemma parent_relative ws w :
  Forall component (ws ++ [w]) -> startswith (parent_of (join [47] (ws ++ [w]))) [47] = false.
Proof.
  intros Hc. apply Forall_app in Hc as [Hws Hw]. inversion_clear Hw as [|? ? [Hw1 Hw2] _].
  unfold parent_of. rewrite dirname_join by done. apply bool_decide_eq_false.
  destruct ws as [|[|c w0] ws]; [by intros [k Hk]| |].
  - inversion_clear Hws as [|? ? [? _] _]. done.
  - inversion_clear Hws as [|? ? [_ Hc] _]. apply not_elem_of_cons in Hc as [Hc _].
    intros [k Hk]. by destruct ws; injection Hk as Hk _.
Qed.

Lemma path_components_parent ws w :
  Forall component (ws ++ [w]) -> Forall (fun w => w <> $".") ws ->
  path_components (parent_of (join [47] (ws ++ [w]))) = ws.
Proof.
  intros Hc Hd. apply Forall_app in Hc as [Hws Hw]. inversion_clear Hw as [|? ? [Hw1 Hw2] _].
  unfold parent_of. rewrite dirname_join by done.
  destruct ws as [|w0 ws]; [done|]. destruct (joined_last (w0 :: ws)) as (l & x & Hj & _); [done|done|].
  assert (Hp : (match join [47] (w0 :: ws) with [] => $"." | d => d end) = join [47] (w0 :: ws)).
  { rewrite Hj. by destruct l. }
  rewrite Hp. unfold path_components. rewrite split_slash_join; [|done|].
  - apply filter_all. apply Forall_forall. intros y Hy. rewrite Forall_forall in Hws, Hd.
    split; [apply Hws|by apply Hd]. done.
  - eapply Forall_impl; [exact Hws|]. by intros y [].
Qed.

Lemma commonpath_prefix paths common q :
  commonpath paths = Ok common -> startswith (default [] (head paths)) [47] = false -> q ∈ paths ->
  exists cp, common = join [47] cp /\ cp `prefix_of` path_components q.
Proof.
  unfold commonpath. destruct paths as [|p rest]; [done|].
  cbn [head from_option id].
  destruct (negb _); [done|]. intros [= <-] -> Hq. eexists. split; [done|].
  pose proof (min_components_spec (path_components p) (map path_components rest)) as Hlo.
  pose proof (max_components_spec (path_components p) (map path_components rest)) as Hhi.
  change (path_components p :: map path_components rest) with (map path_components (p :: rest)) in Hlo, Hhi.
  rewrite Forall_forall in Hlo, Hhi.
  assert (Hin : path_components q ∈ map path_components (p :: rest)).
  { apply list_elem_of_In, in_map, list_elem_of_In, Hq. }
  apply common_prefix_between; [by apply Hlo|by apply Hhi].
Qed.

Lemma subtree_base_pattern base : subtree_base (base ++ $"/**") = rstrip_char 47 base.
Proof.
  unfold subtree_base. rewrite length_app. cbn [length].
  replace (length base + 3 - 3)%nat with (length base) by lia. by rewrite take_app_length.
Qed.

Lemma directory_scope_matches cp ws w :
  cp <> [] -> cp `prefix_of` ws -> Forall component (ws ++ [w]) ->
  matches_subject (Some (rstrip_char 47 (join [47] cp) ++ $"/**")) (join [47] (ws ++ [w])) = true.
Proof.
  intros Hne [rest ->] Hc. apply Forall_app in Hc as [Hws _]. apply Forall_app in Hws as [Hcp _].
  destruct (joined_last cp Hne Hcp) as (l & x & Hj & Hx).
  assert (Hr : rstrip_char 47 (join [47] cp) = join [47] cp) by (rewrite Hj; by apply rdrop_slash).
  rewrite Hr. unfold matches_subject. rewrite bool_decide_eq_false_2.
  2: { intros E. apply (f_equal length) in E. rewrite length_app in E. cbn in E. lia. }
  unfold endswith. rewrite bool_decide_eq_true_2 by (by exists (join [47] cp)).
  rewrite subtree_base_pattern, Hr. apply orb_true_iff. right. apply bool_decide_eq_true.
  rewrite <-app_assoc, join_app by (done || by destruct rest).
  exists (join [47] (rest ++ [w])). by rewrite <-app_assoc.
Qed.

Lemma exact_scope_matches s : normal_subject s -> matches_subject (Some s) s = true.
Proof.
  intros Hs. unfold matches_subject. case_bool_decide; [done|].
  destruct (endswith s $"/**") eqn:E; [|by apply bool_decide_eq_true].
  apply bool_decide_eq_true in E as [base Hb].
  assert (Hsplit : split_slash s = split_slash base ++ [$"**"]).
  { rewrite Hb. clear. induction base as [|c base IH]; [done|]. cbn [app split_slash].
    rewrite IH. destruct (split_slash_cons base) as (v & k & ->). by case_match. }
  destruct (split_slash_spec base) as [Hbj Hbf].
  assert (Hbase : Forall component (split_slash base)).
  { unfold normal_subject in Hs. rewrite Hsplit in Hs. apply Forall_app in Hs as [Hs _].
    apply Forall_forall. intros x Hx. rewrite Forall_forall in Hs, Hbf. split; [by apply Hs|by apply Hbf]. }
  assert (Hne : split_slash base <> []) by (destruct (split_slash_cons base) as (? & ? & ->); done).
  destruct (joined_last _ Hne Hbase) as (k & x & Hk & Hx). rewrite Hbj in Hk.
  rewrite Hb, subtree_base_pattern, Hk, rdrop_slash by done.
  apply orb_true_iff. right. apply bool_decide_eq_true. exists $"**". by rewrite <-!app_assoc.
Qed.

(** Offered file scopes.  For the workspace paths of a call, every scope
    offered to the user, the exact paths as well as the directory, has for each
    of these paths a pattern that matches it. *)
Theorem file_scopes_cover l scope s :
  Forall normal_subject l -> scope ∈ file_approval_grant_scopes l -> s ∈ l ->
  existsb (fun p => matches_subject (Some p) s) (patterns scope) = true.
Proof.
  intros Hl Hscope Hs. rewrite Forall_forall in Hl.
  assert (Hexact : existsb (fun p => matches_subject (Some p) s) (patterns (exact_scope l)) = true).
  { apply existsb_exists. exists s. split; [by apply list_elem_of_In|].
    apply exact_scope_matches. by apply Hl. }
  unfold file_approval_grant_scopes in Hscope. destruct l as [|s0 l]; [by apply elem_of_nil in Hs|].
  destruct (existsb is_absolute_subject (s0 :: l)) eqn:Eabs; [by apply list_elem_of_singleton in Hscope as ->|].
  destruct (commonpath (map parent_of (s0 :: l))) as [common|] eqn:Ec; [|by apply list_elem_of_singleton in Hscope as ->].
  case_bool_decide as Hcommon; [by apply list_elem_of_singleton in Hscope as ->|].
  apply elem_of_cons in Hscope as [->|Hscope]; [done|]. apply list_elem_of_singleton in Hscope as ->.
  destruct (normal_subject_parts s (Hl s Hs)) as (ws & w & Hj & Hc & Hd).
  destruct (commonpath_prefix _ common (parent_of s) Ec) as (cp & -> & Hpre).
  - destruct (normal_subject_parts s0 (Hl s0 ltac:(left))) as (ws0 & w0 & -> & Hc0 & _).
    by apply parent_relative.
  - apply list_elem_of_In, in_map, list_elem_of_In, Hs.
  - cbn [directory_scope patterns existsb]. rewrite Hj in Hpre |- *.
    rewrite path_components_parent in Hpre by done.
    rewrite directory_scope_matches; [done| |done|done]. intros ->. apply Hcommon. left.
Qed.

Lemma file_scopes_cover_witness :
  file_approval_grant_scopes [$"src/a/x.py"; $"src/b.py"]
    = [exact_scope [$"src/a/x.py"; $"src/b.py"]; directory_scope $"src"] /\
  existsb (fun p => matches_subject (Some p) $"src/b.py") (patterns (directory_scope $"src")) = true.
Proof.
  split; [vm_compute; reflexivity|].
  apply (file_scopes_cover [$"src/a/x.py"; $"src/b.py"]).
  - repeat constructor; try (intros E; vm_compute in E; discriminate).
  - replace (file_approval_grant_scopes [$"src/a/x.py"; $"src/b.py"])
      with [exact_scope [$"src/a/x.py"; $"src/b.py"]; directory_scope $"src"] by (vm_compute; reflexivity).
    right. left.
  - right. left.
Defined.
