(* ===== verification/ApprovalQueue.v ===== *)
(** * The approval coordinator (domain/approval.py)

    Threads that need an approval register a pending object in one queue; only
    the head is shown to the user.  A state is the shared queue, the pending
    objects and, per object, where its thread stands in [request_approval].  One
    label is one critical section of the code (or one event from outside: the
    handler, the user, a timeout), so the sequences of labels are the
    interleavings of the threads.

    A queued thread sleeps on the condition until it is notified: [awake] holds
    the threads that a [notify_all] reached since they slept, and only these may
    take the lock again, test the loop condition and leave the [while] loop or
    go back to sleep.  [Interrupt] is a KeyboardInterrupt, which leaves a queued
    request in the queue; [Leave] is the [finally] block; [Returned None] stands
    for a raised interrupt. *)

From S2P Require Import Prelude PyValue Approval.

Inductive DecisionMode := allow_once | allow_session | deny_once.

#[export] Instance DecisionMode_eq_dec : EqDecision DecisionMode.
Proof. solve_decision. Defined.

Record ApprovalDecision := {
  mode : DecisionMode;
  reason : option pystr;
  grant : option ApprovalGrantCandidate;
  released_request_ids : list pystr;
}.

Definition approved (d : ApprovalDecision) : bool := bool_decide (mode d ∈ [allow_once; allow_session]).

Definition deny_decision (r : pystr) : ApprovalDecision :=
  {| mode := deny_once; reason := Some r; grant := None; released_request_ids := [] |}.

(** [ApprovalDecision.allow_session], with the requests it released. *)
Definition session_decision (why : option pystr) (g : ApprovalGrantCandidate) (released : list pystr) : ApprovalDecision :=
  {| mode := allow_session; reason := why; grant := Some g; released_request_ids := released |}.

Record ApprovalRequest := { request_id : pystr; facts : ToolApprovalContext }.

Inductive Phase :=
| Waiting
| Interrupted
| Focused
| Granting (why : option pystr) (g : ApprovalGrantCandidate)
| Leaving (d : option ApprovalDecision)
| Returned (d : option ApprovalDecision).

Record PendingApproval := {
  request : ApprovalRequest;
  decision : option ApprovalDecision;
  event_set : bool;
  position : Z;
  waiting : Z;
  phase : Phase;
}.

Record Coordinator := {
  objects : gmap nat PendingApproval;
  queue : list nat;
  next_object : nat;
  has_session_handler : bool;
  awake : gset nat;
}.

(** ** Updates of one pending object *)

Definition set_phase (ph : Phase) (p : PendingApproval) : PendingApproval :=
  {| request := request p; decision := decision p; event_set := event_set p;
     position := position p; waiting := waiting p; phase := ph |}.

(** [PendingApproval.resolve]. *)
Definition resolve (d : ApprovalDecision) (p : PendingApproval) : PendingApproval :=
  {| request := request p; decision := Some d; event_set := true;
     position := position p; waiting := waiting p; phase := phase p |}.

Definition set_status (pos wait : Z) (p : PendingApproval) : PendingApproval :=
  {| request := request p; decision := decision p; event_set := event_set p;
     position := pos; waiting := wait; phase := phase p |}.

(** [_refresh_queue_status_locked]. *)
Fixpoint refresh_from (index total : Z) (q : list nat) (objs : gmap nat PendingApproval)
    : gmap nat PendingApproval :=
  match q with
  | [] => objs
  | i :: q' =>
    refresh_from (index + 1) total q'
      (alter (set_status (index + 1) (Z.max 0 (total - index - 1))) i objs)
  end.

Definition with_queue (q : list nat) (objs : gmap nat PendingApproval) (c : Coordinator)
    : Coordinator :=
  {| objects := refresh_from 0 (len q) q objs; queue := q; next_object := next_object c;
     has_session_handler := has_session_handler c; awake := awake c |}.

Definition with_objects (objs : gmap nat PendingApproval) (c : Coordinator) : Coordinator :=
  {| objects := objs; queue := queue c; next_object := next_object c;
     has_session_handler := has_session_handler c; awake := awake c |}.

Definition with_awake (l : gset nat) (c : Coordinator) : Coordinator :=
  {| objects := objects c; queue := queue c; next_object := next_object c;
     has_session_handler := has_session_handler c; awake := l |}.

(** [Condition.notify_all]: every thread that waits now will test its condition
    again; for the others it means nothing. *)
Definition notify_all (c : Coordinator) : Coordinator := with_awake (dom (objects c)) c.
(** [Condition.wait]: the thread needs another notification. *)
Definition sleep (i : nat) (c : Coordinator) : Coordinator := with_awake (awake c ∖ {[i]}) c.

(** [queue.remove(pending)]; pending objects are distinct. *)
Definition remove_pending (i : nat) (q : list nat) : list nat := filter (fun j => j <> i) q.

(** ** Releasing several queued requests at once *)

Definition selected (sel : PendingApproval -> bool) (objs : gmap nat PendingApproval) (i : nat)
    : bool :=
  match objs !! i with Some p => sel p | None => false end.

(** The loop of [_apply_session_grant] and of [cancel_matching]: the selected
    members leave the queue and are resolved with [d]. *)
Definition release (sel : PendingApproval -> bool) (d : ApprovalDecision) (c : Coordinator)
    : list nat * Coordinator :=
  let chosen := filter (fun i => selected sel (objects c) i = true) (queue c) in
  let objs := foldr (fun i objs => alter (resolve d) i objs) (objects c) chosen in
  match chosen with
  | [] => ([], c)
  | _ => (chosen, notify_all (with_queue (filter (fun i => selected sel (objects c) i = false) (queue c)) objs c))
  end.

Definition covered_by (g : ApprovalGrantCandidate) (r : ApprovalRequest) (p : PendingApproval) : bool :=
  negb (bool_decide (request_id (request p) = request_id r)) && negb (event_set p)
  && approval_grant_covers_request g (facts (request p)).

Definition released_ids (objs : gmap nat PendingApproval) (l : list nat) : list pystr :=
  omap (fun i => (fun p => request_id (request p)) <$> objs !! i) l.

(** [_apply_session_grant] until the section that releases: what it returns at
    once, or the grant; [handler] is the result of [on_session_grant], which
    runs without the lock. *)
Definition session_grant (d : ApprovalDecision) (handler : result ()) (c : Coordinator)
    : ApprovalDecision + ApprovalGrantCandidate :=
  match grant d with
  | None => inl (deny_decision $"session approval did not include a validated grant")
  | Some g =>
    if negb (has_session_handler c)
    then inl (deny_decision $"session approval is unavailable in this runtime")
    else match handler with
    | Raise _ => inl (deny_decision $"session approval failed closed")
    | Ok _ => inr g
    end
  end.

(** The section of [_apply_session_grant] that releases; [why] is the reason of
    the user's decision. *)
Definition apply_session_grant (r : ApprovalRequest) (why : option pystr) (g : ApprovalGrantCandidate)
    (c : Coordinator) : ApprovalDecision * Coordinator :=
  let '(chosen, c') := release (covered_by g r)
    (session_decision (Some ($"approved by a matching session grant from request " ++ request_id r)) g []) c in
  (session_decision why g (released_ids (objects c) chosen), c').

(** ** Steps *)

Inductive Label :=
| Register (r : ApprovalRequest)
| Wake (i : nat)
| Resolve (i : nat) (d : ApprovalDecision)
| HandlerFails (i : nat) (error : pystr)
| Interrupt (i : nat)
| Finish (i : nat) (handler : result ())
| Grant (i : nat)
| TimeOut (i : nat)
| Leave (i : nat)
| CancelMatching (pred : ApprovalRequest -> bool) (why : pystr).

Definition set_object_phase (i : nat) (ph : Phase) (c : Coordinator) : Coordinator :=
  with_objects (alter (set_phase ph) i (objects c)) c.

(** The end of the wait loop: the cancelled or released thread returns, the
    thread at the head gets the focus. *)
Definition wake (i : nat) (p : PendingApproval) (c : Coordinator) : option Coordinator :=
  if event_set p then
    Some (set_object_phase i
      (Returned (Some (default (deny_decision $"approval cancelled") (decision p)))) c)
  else if bool_decide (queue c = [] \/ head (queue c) = Some i)
  then Some (set_object_phase i Focused c)
  else None.

Definition register (r : ApprovalRequest) (c : Coordinator) : Coordinator :=
  let i := next_object c in
  let p := {| request := r; decision := None; event_set := false; position := 1; waiting := 0;
              phase := Waiting |} in
  let c1 := {| objects := refresh_from 0 (len (queue c ++ [i])) (queue c ++ [i])
                            (<[i := p]> (objects c));
               queue := queue c ++ [i]; next_object := (next_object c + 1)%nat;
               has_session_handler := has_session_handler c; awake := dom (objects c) |} in
  (** the others are notified; the thread itself tests the loop condition before
      it releases the lock *)
  default c1 (wake i p c1).

Definition leave (i : nat) (d : option ApprovalDecision) (c : Coordinator) : Coordinator :=
  notify_all (with_queue (remove_pending i (queue c)) (alter (set_phase (Returned d)) i (objects c)) c).

Definition is_focused (p : PendingApproval) : bool :=
  match phase p with Focused => true | _ => false end.

Definition on_focused (i : nat) (c : Coordinator)
    (f : PendingApproval -> option Coordinator) : option Coordinator :=
  match objects c !! i with
  | Some p => if is_focused p then f p else None
  | None => None
  end.

(** The review is over: [pending.wait] returned. *)
Definition finish (i : nat) (p : PendingApproval) (handler : result ()) (c : Coordinator) : Coordinator :=
  let d := default (deny_decision $"no decision") (decision p) in
  set_object_phase i
    (if decide (mode d = allow_session)
     then match session_grant d handler c with inl denied => Leaving (Some denied) | inr g => Granting (reason d) g end
     else Leaving (Some d)) c.

Definition apply_grant (i : nat) (p : PendingApproval) (why : option pystr) (g : ApprovalGrantCandidate)
    (c : Coordinator) : Coordinator :=
  let '(d, c) := apply_session_grant (request p) why g c in set_object_phase i (Leaving (Some d)) c.

Definition step (c : Coordinator) (l : Label) : option Coordinator :=
  match l with
  | Register r => Some (register r c)
  | Wake i =>
    match objects c !! i with
    | Some p =>
      match phase p with
      | Waiting => if decide (i ∈ awake c) then Some (default (sleep i c) (wake i p c)) else None
      | _ => None
      end
    | None => None
    end
  | Resolve i d =>
    on_focused i c (fun _ => Some (with_objects (alter (resolve d) i (objects c)) c))
  | HandlerFails i error =>
    on_focused i c (fun _ => Some (set_object_phase i
      (Leaving (Some (deny_decision ($"approval interaction failed closed: " ++ error)))) c))
  | Interrupt i =>
    match objects c !! i with
    | Some p =>
      match phase p with
      | Waiting => Some (set_object_phase i Interrupted c)
      | Focused | Granting _ _ => Some (set_object_phase i (Leaving None) c)
      | _ => None
      end
    | None => None
    end
  | Finish i handler =>
    on_focused i c (fun p => if event_set p then Some (finish i p handler c) else None)
  | TimeOut i =>
    on_focused i c (fun p =>
      if event_set p then None
      else Some (set_object_phase i (Leaving (Some (deny_decision $"approval timed out"))) c))
  | Grant i =>
    match objects c !! i with
    | Some p => match phase p with Granting why g => Some (apply_grant i p why g c) | _ => None end
    | None => None
    end
  | Leave i =>
    match objects c !! i with
    | Some p => match phase p with Leaving d => Some (leave i d c) | _ => None end
    | None => None
    end
  | CancelMatching pred why =>
    Some (release (fun p => pred (request p)) (deny_decision why) c).2
  end.

Fixpoint run (c : Coordinator) (ls : list Label) : option Coordinator :=
  match ls with
  | [] => Some c
  | l :: ls' => match step c l with Some c' => run c' ls' | None => None end
  end.

Definition new_coordinator (handler : bool) : Coordinator :=
  {| objects := ∅; queue := []; next_object := 0; has_session_handler := handler; awake := ∅ |}.

(** ** The invariant *)

(** Where a member of the queue may stand. *)
Definition member_ok (q : list nat) (i : nat) (p : PendingApproval) : Prop :=
  match phase p with
  | Waiting | Interrupted => event_set p = false
  | Focused | Granting _ _ | Leaving _ => head q = Some i
  | Returned _ => False
  end.

Record queue_ok (next : nat) (q : list nat) (objs : gmap nat PendingApproval) : Prop := {
  qo_fresh : forall i p, objs !! i = Some p -> (i < next)%nat;
  qo_sorted : StronglySorted lt q;
  qo_members : forall i, i ∈ q -> exists p, objs !! i = Some p /\ member_ok q i p;
  qo_waiting : forall i p, objs !! i = Some p -> phase p = Waiting -> event_set p = false -> i ∈ q;
  qo_focused : forall i p, objs !! i = Some p -> phase p = Focused -> i ∉ q -> event_set p = true;
}.

Definition status_ok (q : list nat) (objs : gmap nat PendingApproval) : Prop :=
  forall k i p, q !! k = Some i -> objs !! i = Some p ->
    position p = Z.of_nat k + 1 /\ waiting p = len q - Z.of_nat k - 1.

Definition coordinator_ok (c : Coordinator) : Prop :=
  queue_ok (next_object c) (queue c) (objects c) /\ status_ok (queue c) (objects c).

(** ** Refreshing the statuses *)

Definition same_core (p p' : PendingApproval) : Prop :=
  request p = request p' /\ decision p = decision p' /\ event_set p = event_set p' /\
  phase p = phase p'.

Lemma refresh_core k n q objs i :
  match refresh_from k n q objs !! i, objs !! i with
  | Some p, Some p' => same_core p p'
  | None, None => True
  | _, _ => False
  end.
Proof.
  revert k objs. induction q as [|j q IH]; intros k objs; cbn; [by destruct (objs !! i)|].
  specialize (IH (k + 1) (alter (set_status (k + 1) (Z.max 0 (n - k - 1))) j objs)).
  destruct (decide (i = j)) as [->|Hij].
  - rewrite lookup_alter_eq in IH. destruct (refresh_from _ _ _ _ !! j), (objs !! j); done.
  - by rewrite lookup_alter_ne in IH.
Qed.

Lemma refresh_core_inv k n q objs i p :
  refresh_from k n q objs !! i = Some p -> exists p', objs !! i = Some p' /\ same_core p p'.
Proof.
  intros H. pose proof (refresh_core k n q objs i) as Hc. rewrite H in Hc.
  destruct (objs !! i) as [p'|]; [by exists p'|done].
Qed.

Lemma refresh_core_fwd k n q objs i p :
  objs !! i = Some p -> exists p', refresh_from k n q objs !! i = Some p' /\ same_core p' p.
Proof.
  intros H. pose proof (refresh_core k n q objs i) as Hc. rewrite H in Hc.
  destruct (refresh_from _ _ _ _ !! i) as [p'|]; [by exists p'|done].
Qed.

Lemma refresh_other k n q objs i : i ∉ q -> refresh_from k n q objs !! i = objs !! i.
Proof.
  revert k objs. induction q as [|j q IH]; intros k objs; cbn; [done|].
  rewrite not_elem_of_cons. intros [Hij Hi]. rewrite IH by done. by apply lookup_alter_ne.
Qed.

Lemma refresh_status k n q objs j i p :
  NoDup q -> q !! j = Some i -> refresh_from k n q objs !! i = Some p ->
  position p = k + Z.of_nat j + 1 /\ waiting p = Z.max 0 (n - (k + Z.of_nat j) - 1).
Proof.
  revert k j objs. induction q as [|x q IH]; intros k j objs; [done|]. cbn [refresh_from].
  intros Hnd Hj. apply NoDup_cons in Hnd as [Hx Hnd]. destruct j as [|j]; cbn in Hj.
  - injection Hj as <-. rewrite refresh_other, lookup_alter_eq by done.
    intros H. destruct (objs !! x) as [p'|]; [|done]. injection H as <-. cbn. split; f_equal; lia.
  - intros H. destruct (IH (k + 1) j _ Hnd Hj H) as [-> ->]. split; [|f_equal]; lia.
Qed.

Lemma sorted_NoDup (q : list nat) : StronglySorted lt q -> NoDup q.
Proof.
  induction 1 as [|x q Hq IH Hx]; constructor; [|done]. intros Hin.
  rewrite Forall_forall in Hx. specialize (Hx x Hin). lia.
Qed.

Lemma queue_ok_refresh next q objs :
  queue_ok next q objs ->
  queue_ok next q (refresh_from 0 (len q) q objs) /\ status_ok q (refresh_from 0 (len q) q objs).
Proof.
  intros [Hf Hs Hm Hw Hg]. split; [split|].
  - intros i p Hp. apply refresh_core_inv in Hp as (p' & Hp' & _). by eapply Hf.
  - done.
  - intros i Hi. destruct (Hm i Hi) as (p & Hp & Hok).
    destruct (refresh_core_fwd 0 (len q) q objs i p Hp) as (p' & Hp' & (_ & _ & He & Hph)).
    exists p'. split; [done|]. unfold member_ok in *. by rewrite Hph, He.
  - intros i p Hp Hph He. apply refresh_core_inv in Hp as (p' & Hp' & (_ & _ & He' & Hph')).
    apply (Hw i p'); congruence.
  - intros i p Hp Hph Hi. apply refresh_core_inv in Hp as (p' & Hp' & (_ & _ & He' & Hph')).
    rewrite He'. apply (Hg i p'); congruence.
  - intros k i p Hk Hp. apply refresh_status with (j := k) in Hp; [|by apply sorted_NoDup|done].
    apply lookup_lt_Some in Hk. unfold len in *. lia.
Qed.

(** Changes that keep queue and statuses. *)
Lemma alter_ok c i f p :
  coordinator_ok c -> objects c !! i = Some p ->
  position (f p) = position p -> waiting (f p) = waiting p ->
  (i ∈ queue c -> member_ok (queue c) i (f p)) ->
  (phase (f p) = Waiting -> event_set (f p) = false -> i ∈ queue c) ->
  (phase (f p) = Focused -> i ∉ queue c -> event_set (f p) = true) ->
  coordinator_ok (with_objects (alter f i (objects c)) c).
Proof.
  intros [[Hf Hs Hm Hw Hg] Hst] Hp Hpos Hwait H1 H2 H3. split; [split|]; cbn in *.
  - intros j q Hq. destruct (decide (j = i)) as [->|Hji].
    + by eapply Hf.
    + rewrite lookup_alter_ne in Hq by done. by eapply Hf.
  - done.
  - intros j Hj. destruct (decide (j = i)) as [->|Hji].
    + exists (f p). rewrite lookup_alter_eq, Hp. auto.
    + rewrite lookup_alter_ne by done. by apply Hm.
  - intros j q Hq. destruct (decide (j = i)) as [->|Hji].
    + rewrite lookup_alter_eq, Hp in Hq. injection Hq as <-. done.
    + rewrite lookup_alter_ne in Hq by done. by apply Hw.
  - intros j q Hq. destruct (decide (j = i)) as [->|Hji].
    + rewrite lookup_alter_eq, Hp in Hq. injection Hq as <-. done.
    + rewrite lookup_alter_ne in Hq by done. by apply Hg.
  - intros k j q Hk Hq. destruct (decide (j = i)) as [->|Hji].
    + rewrite lookup_alter_eq, Hp in Hq. injection Hq as <-. rewrite Hpos, Hwait. by eapply Hst.
    + rewrite lookup_alter_ne in Hq by done. by eapply Hst.
Qed.

(** ** Preservation *)

Lemma filter_sorted (P : nat -> Prop) `{!forall x, Decision (P x)} (q : list nat) :
  StronglySorted lt q -> StronglySorted lt (filter P q).
Proof.
  induction 1 as [|x q Hq IH Hx]; [constructor|]. rewrite filter_cons. case_decide; [|done].
  constructor; [done|]. rewrite Forall_forall in Hx |- *. intros y Hy.
  apply list_elem_of_filter in Hy as [_ Hy]. by apply Hx.
Qed.

Lemma filter_head (P : nat -> Prop) `{!forall x, Decision (P x)} (q : list nat) i :
  head q = Some i -> P i -> head (filter P q) = Some i.
Proof. destruct q as [|x q]; [done|]. intros [= ->] Hi. by rewrite filter_cons, decide_True. Qed.

(** The members that stay when others leave keep their places. *)
Lemma member_filter (P : nat -> Prop) `{!forall x, Decision (P x)} q i p :
  P i -> member_ok q i p -> member_ok (filter P q) i p.
Proof. unfold member_ok. intros Hi. destruct (phase p); intros; by try apply filter_head. Qed.

Lemma register_ok r c : coordinator_ok c -> coordinator_ok (register r c).
Proof.
  intros Hc. unfold register. set (i := next_object c).
  set (p := {| request := r; decision := None; event_set := false; position := 1; waiting := 0;
               phase := Waiting |}).
  set (c1 := {| objects := _; queue := _; next_object := _; has_session_handler := _ |}).
  assert (Hc1 : coordinator_ok c1).
  { apply queue_ok_refresh. destruct Hc as [[Hf Hs Hm Hw Hg] _].
    assert (Hnone : objects c !! i = None).
    { destruct (objects c !! i) eqn:E; [|done]. apply Hf in E. unfold i in E. lia. }
    assert (Hni : i ∉ queue c).
    { intros Hi. destruct (Hm i Hi) as (q & Hq & _). congruence. }
    assert (Hhead : forall j, j ∈ queue c -> head (queue c) = Some j -> head (queue c ++ [i]) = Some j).
    { intros j _. by destruct (queue c). }
    change (next_object c1) with (next_object c + 1)%nat. split.
    - intros j q Hq. destruct (decide (j = i)) as [->|Hji]; [unfold i; lia|].
      rewrite lookup_insert_ne in Hq by done. apply Hf in Hq. lia.
    - clear -Hs Hf Hm. assert (Hlt : Forall (fun j => (j < i)%nat) (queue c)).
      { apply Forall_forall. intros j Hj. destruct (Hm j Hj) as (q & Hq & _). by eapply Hf. }
      clear Hm Hf. induction Hs as [|x l Hl IH Hx]; cbn; [by repeat constructor|].
      inversion_clear Hlt. constructor; [by apply IH|]. apply Forall_app. split; [done|by constructor].
    - intros j Hj. apply elem_of_app in Hj as [Hj|Hj].
      + destruct (Hm j Hj) as (q & Hq & Hok). exists q. rewrite lookup_insert_ne by (intros ->; done).
        split; [done|]. unfold member_ok in *. destruct (phase q); auto.
      + apply list_elem_of_singleton in Hj as ->. exists p. by rewrite lookup_insert_eq.
    - intros j q Hq Hph He. destruct (decide (j = i)) as [->|Hji].
      + apply elem_of_app. right. left.
      + rewrite lookup_insert_ne in Hq by done. apply elem_of_app. left. by apply (Hw j q).
    - intros j q Hq Hph He. destruct (decide (j = i)) as [->|Hji].
      + rewrite lookup_insert_eq in Hq. by injection Hq as <-.
      + rewrite lookup_insert_ne in Hq by done. apply (Hg j q); [done|done|].
        intros Hj. apply He, elem_of_app. by left. }
  unfold wake. cbn [event_set p]. case_bool_decide as Hh; [|done]. cbn [default].
  assert (Hp : exists p', objects c1 !! i = Some p').
  { cbn. destruct (refresh_core_fwd 0 (len (queue c ++ [i])) (queue c ++ [i])
      (<[i := p]> (objects c)) i p) as (p' & Hp' & _); [apply lookup_insert_eq|by exists p']. }
  destruct Hp as (p' & Hp').
  assert (Hin : i ∈ queue c1) by (cbn; apply elem_of_app; right; left).
  apply (alter_ok c1 i (set_phase Focused) p'); try done.
  - intros _. unfold member_ok. cbn [phase set_phase]. destruct Hh as [Hh|Hh]; [|done].
    cbn in Hh. by destruct (queue c).
Qed.

Lemma remove_ok c (keep : nat -> Prop) `{!forall x, Decision (keep x)} objs :
  coordinator_ok c ->
  (forall i, keep i -> objs !! i = objects c !! i) ->
  (forall i p, objs !! i = Some p -> exists p0, objects c !! i = Some p0 /\
     (~ keep i -> phase p = Waiting \/ phase p = Focused -> event_set p = true)) ->
  coordinator_ok (with_queue (filter keep (queue c)) objs c).
Proof.
  intros [[Hf Hs Hm Hw Hg] _] Hkeep Hback. apply queue_ok_refresh. split.
  - intros i p Hp. destruct (Hback i p Hp) as (p0 & Hp0 & _). by eapply Hf.
  - by apply filter_sorted.
  - intros i Hi. apply list_elem_of_filter in Hi as [Hk Hi]. destruct (Hm i Hi) as (p & Hp & Hok).
    exists p. rewrite Hkeep by done. split; [done|]. by apply member_filter.
  - intros i p Hp Hph He. apply list_elem_of_filter. destruct (decide (keep i)) as [Hk|Hk].
    + split; [done|]. rewrite Hkeep in Hp by done. by apply (Hw i p).
    + destruct (Hback i p Hp) as (p0 & _ & Hset). rewrite Hset in He; auto; done.
  - intros i p Hp Hph Hi. destruct (decide (keep i)) as [Hk|Hk].
    + rewrite Hkeep in Hp by done. apply (Hg i p); [done|done|].
      intros Hin. apply Hi. by apply list_elem_of_filter.
    + destruct (Hback i p Hp) as (p0 & _ & Hset). apply Hset; auto.
Qed.

Lemma foldr_alter_lookup {A} (f : A -> A) (l : list nat) (m : gmap nat A) i :
  NoDup l ->
  foldr (fun i m => alter f i m) m l !! i = if decide (i ∈ l) then f <$> m !! i else m !! i.
Proof.
  induction 1 as [|x l Hx Hl IH]; cbn; [done|].
  destruct (decide (i = x)) as [->|Hix].
  - rewrite lookup_alter_eq, IH, decide_False by done. rewrite decide_True; [done|left].
  - rewrite lookup_alter_ne, IH by done. destruct (decide (i ∈ l)).
    + rewrite decide_True; [done|by right].
    + rewrite decide_False; [done|]. rewrite not_elem_of_cons. done.
Qed.

Lemma release_ok sel d c : coordinator_ok c -> coordinator_ok (release sel d c).2.
Proof.
  intros Hc. unfold release.
  set (chosen := filter (fun i => selected sel (objects c) i = true) (queue c)).
  assert (Hnd : NoDup chosen).
  { apply NoDup_filter, sorted_NoDup. by destruct Hc as [[] _]. }
  assert (Hmain : coordinator_ok (with_queue
    (filter (fun i => selected sel (objects c) i = false) (queue c))
    (foldr (fun i objs => alter (resolve d) i objs) (objects c) chosen) c)).
  { apply remove_ok; [done| |].
    - intros i Hi. rewrite foldr_alter_lookup, decide_False; [done| |done].
      unfold chosen. rewrite list_elem_of_filter. intros [Hs _]. congruence.
    - intros i p Hp. rewrite foldr_alter_lookup in Hp by done.
      destruct (decide (i ∈ chosen)) as [Hin|Hin].
      + destruct (objects c !! i) as [p0|]; [|done]. injection Hp as <-. by exists p0.
      + exists p. split; [done|]. intros Hk Hph.
        assert (Hsel : selected sel (objects c) i = true) by by destruct (selected sel (objects c) i).
        assert (Hni : i ∉ queue c) by (intros Hq; apply Hin; by apply list_elem_of_filter).
        destruct Hc as [[_ _ _ Hw Hg] _]. destruct Hph as [Hph|Hph]; [|by apply (Hg i p)].
        destruct (event_set p) eqn:E; [done|]. exfalso. by apply Hni, (Hw i p). }
  by destruct chosen.
Qed.

Lemma leave_ok i d p c :
  coordinator_ok c -> objects c !! i = Some p -> phase p = Leaving d -> coordinator_ok (leave i d c).
Proof.
  intros Hc Hp Hph. apply remove_ok; [done| |].
  - intros j Hj. by apply lookup_alter_ne.
  - intros j q Hq. destruct (decide (j = i)) as [->|Hji].
    + rewrite lookup_alter_eq, Hp in Hq. injection Hq as <-. exists p. split; [done|]. by intros _ [?|?].
    + rewrite lookup_alter_ne in Hq by done. by exists q.
Qed.

(** The thread of a pending object moves on towards its return. *)
Definition in_review (ph : Phase) : Prop := match ph with Focused | Granting _ _ => True | _ => False end.
Definition past_review (ph : Phase) : Prop := match ph with Granting _ _ | Leaving _ => True | _ => False end.

Lemma leaving_ok i ph p c :
  coordinator_ok c -> objects c !! i = Some p -> in_review (phase p) -> past_review ph ->
  coordinator_ok (set_object_phase i ph c).
Proof.
  intros Hc Hp Hph Hpast. apply (alter_ok c i (set_phase ph) p); try done.
  - intros Hi. destruct Hc as [[_ _ Hm _ _] _]. destruct (Hm i Hi) as (p' & Hp' & Hok).
    unfold member_ok in *. replace p' with p in Hok by congruence. cbn. by destruct (phase p), ph.
  - by destruct ph.
  - by destruct ph.
Qed.

Lemma finish_phase i p h c : exists ph, finish i p h c = set_object_phase i ph c /\ past_review ph.
Proof.
  unfold finish. eexists. split; [done|]. case_decide; [|done]. by destruct (session_grant _ _ _).
Qed.

Lemma interrupted_ok i p c :
  coordinator_ok c -> objects c !! i = Some p -> phase p = Waiting -> coordinator_ok (set_object_phase i Interrupted c).
Proof.
  intros Hc Hp Hph. apply (alter_ok c i (set_phase Interrupted) p); try done.
  intros Hi. destruct Hc as [[_ _ Hm _ _] _]. destruct (Hm i Hi) as (p' & Hp' & Hok).
  unfold member_ok in *. replace p' with p in Hok by congruence. cbn. by rewrite Hph in Hok.
Qed.

(** Releasing others never takes the focus away from [i]'s thread. *)
Lemma release_phase sel d c i p :
  coordinator_ok c -> objects c !! i = Some p ->
  exists p', objects (release sel d c).2 !! i = Some p' /\ phase p' = phase p /\ request p' = request p.
Proof.
  intros Hc Hp. unfold release.
  set (chosen := filter (fun i => selected sel (objects c) i = true) (queue c)).
  assert (Hnd : NoDup chosen).
  { apply NoDup_filter, sorted_NoDup. by destruct Hc as [[] _]. }
  assert (Hmain : exists p', objects (with_queue
    (filter (fun i => selected sel (objects c) i = false) (queue c))
    (foldr (fun i objs => alter (resolve d) i objs) (objects c) chosen) c) !! i = Some p'
    /\ phase p' = phase p /\ request p' = request p).
  { cbn [with_queue objects].
    destruct (refresh_core_fwd 0 (len (filter (fun i => selected sel (objects c) i = false) (queue c)))
      (filter (fun i => selected sel (objects c) i = false) (queue c))
      (foldr (fun i objs => alter (resolve d) i objs) (objects c) chosen) i
      (if decide (i ∈ chosen) then resolve d p else p)) as (p' & Hp' & Hr & _ & _ & Hph).
    - rewrite foldr_alter_lookup, Hp by done. by case_decide.
    - exists p'. split; [exact Hp'|]. rewrite Hph, Hr. by case_decide. }
  destruct chosen; [by exists p|exact Hmain].
Qed.

Lemma apply_session_grant_ok r why g c :
  coordinator_ok c -> coordinator_ok (apply_session_grant r why g c).2.
Proof.
  intros Hc. unfold apply_session_grant. set (d := session_decision _ g []).
  pose proof (release_ok (covered_by g r) d c Hc) as Hr. by destruct (release _ _ c).
Qed.

Lemma apply_session_grant_phase r why g c i p :
  coordinator_ok c -> objects c !! i = Some p ->
  exists p', objects (apply_session_grant r why g c).2 !! i = Some p' /\ phase p' = phase p /\
    request p' = request p.
Proof.
  intros Hc Hp. unfold apply_session_grant. set (d := session_decision _ g []).
  pose proof (release_phase (covered_by g r) d c i p Hc Hp) as Hr. by destruct (release _ _ c).
Qed.

Lemma apply_grant_ok i why g p c :
  coordinator_ok c -> objects c !! i = Some p -> phase p = Granting why g -> coordinator_ok (apply_grant i p why g c).
Proof.
  intros Hc Hp Hph. unfold apply_grant. pose proof (apply_session_grant_ok (request p) why g c Hc) as Hok.
  destruct (apply_session_grant_phase (request p) why g c i p Hc Hp) as (p' & Hp' & Hph' & _).
  destruct (apply_session_grant _ _ _ _) as [d1 c1]. cbn [snd] in *.
  apply (leaving_ok i _ p'); [done|done| |done]. by rewrite Hph', Hph.
Qed.

Lemma on_focused_inv i c f c' :
  on_focused i c f = Some c' ->
  exists p, objects c !! i = Some p /\ phase p = Focused /\ f p = Some c'.
Proof.
  unfold on_focused. destruct (objects c !! i) as [p|] eqn:Hp; [|done].
  destruct (is_focused p) eqn:Ef; [|done]. unfold is_focused in Ef. intros Hf. exists p.
  by destruct (phase p).
Qed.

Lemma wake_ok i p c c' :
  coordinator_ok c -> objects c !! i = Some p -> phase p = Waiting -> wake i p c = Some c' ->
  coordinator_ok c'.
Proof.
  intros Hc Hp Hph. unfold wake. pose proof Hc as [[_ _ Hm Hw _] _].
  assert (Hin : i ∈ queue c -> event_set p = false).
  { intros Hi. destruct (Hm i Hi) as (p' & Hp' & Hok). replace p' with p in Hok by congruence.
    unfold member_ok in Hok. by rewrite Hph in Hok. }
  destruct (event_set p) eqn:He.
  - intros [= <-]. apply (alter_ok c i (set_phase _) p); try done. intros Hi. by specialize (Hin Hi).
  - case_bool_decide as Hh; [|done]. intros [= <-].
    assert (Hi : i ∈ queue c) by (by apply (Hw i p)).
    apply (alter_ok c i (set_phase Focused) p); try done.
    intros _. unfold member_ok. cbn [phase set_phase]. destruct Hh as [Hh|Hh]; [|done].
    rewrite Hh in Hi. by apply elem_of_nil in Hi.
Qed.

Lemma step_ok c l c' : coordinator_ok c -> step c l = Some c' -> coordinator_ok c'.
Proof.
  intros Hc. destruct l; cbn [step].
  - intros [= <-]. by apply register_ok.
  - destruct (objects c !! i) as [p|] eqn:Hp; [|done]. destruct (phase p) eqn:Hph; try done.
    case_decide; [|done]. intros [= <-]. destruct (wake i p c) as [c1|] eqn:Ew; [|exact Hc].
    by apply (wake_ok i p c).
  - intros Hs. apply on_focused_inv in Hs as (p & Hp & Hph & [= <-]).
    apply (alter_ok c i (resolve d) p); try done.
    intros Hi. destruct Hc as [[_ _ Hm _ _] _]. destruct (Hm i Hi) as (p' & Hp' & Hok).
    replace p' with p in Hok by congruence. unfold member_ok in *. cbn. by rewrite Hph in *.
  - intros Hs. apply on_focused_inv in Hs as (p & Hp & Hph & [= <-]).
    apply (leaving_ok i _ p); [done|done|by rewrite Hph|done].
  - destruct (objects c !! i) as [p|] eqn:Hp; [|done].
    destruct (phase p) eqn:Hph; try done; intros [= <-]; [by apply (interrupted_ok i p)|..];
      (apply (leaving_ok i _ p); [done|done|by rewrite Hph|done]).
  - intros Hs. apply on_focused_inv in Hs as (p & Hp & Hph & Hf).
    destruct (event_set p); [|done]. injection Hf as <-. destruct (finish_phase i p handler c) as (ph & -> & Hpast).
    apply (leaving_ok i _ p); [done|done|by rewrite Hph|done].
  - destruct (objects c !! i) as [p|] eqn:Hp; [|done]. destruct (phase p) eqn:Hph; try done.
    intros [= <-]. by apply apply_grant_ok.
  - intros Hs. apply on_focused_inv in Hs as (p & Hp & Hph & Hf).
    destruct (event_set p); [done|]. injection Hf as <-. apply (leaving_ok i _ p); [done|done|by rewrite Hph|done].
  - destruct (objects c !! i) as [p|] eqn:Hp; [|done]. destruct (phase p) eqn:Hph; try done.
    intros [= <-]. by apply (leave_ok i d p).
  - intros [= <-]. by apply release_ok.
Qed.

Lemma run_ok c ls c' : coordinator_ok c -> run c ls = Some c' -> coordinator_ok c'.
Proof.
  revert c. induction ls as [|l ls IH]; intros c Hc; cbn; [by intros [= <-]|].
  destruct (step c l) as [c1|] eqn:E; [|done]. apply IH. by eapply step_ok.
Qed.

Lemma new_coordinator_ok h : coordinator_ok (new_coordinator h).
Proof.
  split; [split|]; cbn; try (intros; by rewrite lookup_empty in * || done).
  - constructor.
  - intros i Hi. by apply elem_of_nil in Hi.
Qed.

(** One focus, first come first served.  In every interleaving the queue
    holds the unfinished requests in the order they registered; only its head
    may have been shown to the user or be leaving, all others wait and are
    unresolved; and the position and the number of waiting requests each of
    them displays are exact. *)
Theorem queue_discipline h ls c :
  run (new_coordinator h) ls = Some c ->
  StronglySorted lt (queue c) /\
  forall k i, queue c !! k = Some i ->
    exists p, objects c !! i = Some p /\
      position p = Z.of_nat k + 1 /\ waiting p = len (queue c) - position p /\
      match phase p with
      | Waiting | Interrupted => event_set p = false
      | Focused | Granting _ _ | Leaving _ => k = 0%nat
      | Returned _ => False
      end.
Proof.
  intros Hr. destruct (run_ok _ _ _ (new_coordinator_ok h) Hr) as [[Hf Hs Hm Hw Hg] Hst].
  split; [done|]. intros k i Hk. pose proof Hk as Hi. apply list_elem_of_lookup_2 in Hi.
  destruct (Hm i Hi) as (p & Hp & Hok). exists p. destruct (Hst k i p Hk Hp) as [Hpos Hwait].
  split_and!; [done|done|lia|]. unfold member_ok in Hok.
  assert (Hhead : head (queue c) = Some i -> k = 0%nat).
  { intros Hh. rewrite head_lookup in Hh. apply sorted_NoDup in Hs.
    by eapply NoDup_lookup. }
  destruct (phase p); auto.
Qed.

(** ** No notification is lost *)

(** Whether a queued thread would leave its loop. *)
Definition may_leave (q : list nat) (i : nat) (p : PendingApproval) : Prop :=
  event_set p = true \/ q = [] \/ head q = Some i.

(** Who would leave has been notified. *)
Definition notified (c : Coordinator) : Prop := forall i p,
  objects c !! i = Some p -> phase p = Waiting -> may_leave (queue c) i p -> i ∈ awake c.

Lemma notify_all_notified c : notified (notify_all c).
Proof. intros i p Hp _ _. cbn in *. apply elem_of_dom. by exists p. Qed.

(** A thread that does not wait afterwards changes nothing for the others. *)
Lemma alter_notified c i f :
  notified c -> (forall p, objects c !! i = Some p -> phase (f p) <> Waiting) ->
  notified (with_objects (alter f i (objects c)) c).
Proof.
  intros Hn Hf j q Hq Hph Hm. cbn in *. destruct (decide (j = i)) as [->|Hji].
  - rewrite lookup_alter_eq in Hq. destruct (objects c !! i) as [p|] eqn:E; [|done].
    injection Hq as <-. by destruct (Hf p eq_refl).
  - rewrite lookup_alter_ne in Hq by done. by eapply Hn.
Qed.

Lemma phase_notified c i ph : notified c -> ph <> Waiting -> notified (set_object_phase i ph c).
Proof. intros Hn Hph. by apply alter_notified. Qed.

Lemma wake_notified i p c c' : notified c -> wake i p c = Some c' -> notified c'.
Proof.
  intros Hn. unfold wake. destruct (event_set p); [intros [= <-]; by apply phase_notified|].
  case_bool_decide; [|done]. intros [= <-]. by apply phase_notified.
Qed.

(** Only a thread that may not leave goes back to sleep. *)
Lemma sleep_notified i p c : notified c -> objects c !! i = Some p -> wake i p c = None -> notified (sleep i c).
Proof.
  intros Hn Hp Hw j q Hq Hph Hm. cbn in *. apply elem_of_difference. split; [by eapply Hn|].
  rewrite elem_of_singleton. intros ->. replace q with p in * by congruence. revert Hw. unfold wake.
  destruct Hm as [->|Hm]; [done|]. destruct (event_set p); [done|]. by rewrite bool_decide_eq_true_2.
Qed.

Lemma register_notified r c : notified (register r c).
Proof.
  unfold register. set (i := next_object c). set (p := {| request := r |}). set (c1 := {| objects := _ |}).
  destruct (wake i p c1) as [c2|] eqn:Ew; cbn [default].
  - revert Ew. unfold wake. cbn [event_set p]. case_bool_decide as Hh; [|done]. intros [= <-] j q Hq Hph _.
    cbn in Hq. destruct (decide (j = i)) as [->|Hji].
    + rewrite lookup_alter_eq in Hq. destruct (refresh_from _ _ _ _ !! i); [|done]. by injection Hq as <-.
    + rewrite lookup_alter_ne in Hq by done. apply refresh_core_inv in Hq as (q0 & Hq0 & _).
      rewrite lookup_insert_ne in Hq0 by done. cbn. apply elem_of_dom. by exists q0.
  - intros j q Hq Hph Hm. cbn in *. apply refresh_core_inv in Hq as (q0 & Hq0 & _ & _ & He & _).
    destruct (decide (j = i)) as [->|Hji]; [|rewrite lookup_insert_ne in Hq0 by done; apply elem_of_dom; by exists q0].
    rewrite lookup_insert_eq in Hq0. injection Hq0 as <-. revert Ew. unfold wake. cbn [event_set p].
    destruct Hm as [Hm|Hm]; [by rewrite He in Hm|]. by rewrite bool_decide_eq_true_2.
Qed.

Lemma release_notified sel d c : notified c -> notified (release sel d c).2.
Proof. intros Hn. unfold release. destruct (filter _ (queue c)); [done|]. apply notify_all_notified. Qed.

Lemma apply_session_grant_notified r why g c : notified c -> notified (apply_session_grant r why g c).2.
Proof.
  intros Hn. unfold apply_session_grant. set (d := session_decision _ g []).
  pose proof (release_notified (covered_by g r) d c Hn) as Hr. by destruct (release _ _ c).
Qed.

Lemma step_notified c l c' : notified c -> step c l = Some c' -> notified c'.
Proof.
  intros Hn. destruct l; cbn [step].
  - intros [= <-]. apply register_notified.
  - destruct (objects c !! i) as [p|] eqn:Hp; [|done]. destruct (phase p) eqn:Hph; try done.
    case_decide; [|done]. intros [= <-]. destruct (wake i p c) as [c1|] eqn:Ew; [by eapply wake_notified|by eapply sleep_notified].
  - intros Hs. apply on_focused_inv in Hs as (p & Hp & Hph & [= <-]). apply alter_notified; [done|].
    intros q Hq. replace q with p by congruence. cbn. by rewrite Hph.
  - intros Hs. apply on_focused_inv in Hs as (p & _ & _ & [= <-]). by apply phase_notified.
  - destruct (objects c !! i) as [p|] eqn:Hp; [|done].
    destruct (phase p); try done; intros [= <-]; by apply phase_notified.
  - intros Hs. apply on_focused_inv in Hs as (p & _ & _ & Hf). destruct (event_set p); [|done].
    injection Hf as <-. destruct (finish_phase i p handler c) as (ph & -> & Hpast). apply phase_notified; [done|by intros ->].
  - destruct (objects c !! i) as [p|] eqn:Hp; [|done]. destruct (phase p) as [| | |why g| |]; try done. intros [= <-].
    unfold apply_grant. pose proof (apply_session_grant_notified (request p) why g c Hn) as Hr.
    destruct (apply_session_grant _ _ _ _). by apply phase_notified.
  - intros Hs. apply on_focused_inv in Hs as (p & _ & _ & Hf). destruct (event_set p); [done|].
    injection Hf as <-. by apply phase_notified.
  - destruct (objects c !! i) as [p|] eqn:Hp; [|done]. destruct (phase p); try done.
    intros [= <-]. apply notify_all_notified.
  - intros [= <-]. by apply release_notified.
Qed.

Lemma run_notified c ls c' : notified c -> run c ls = Some c' -> notified c'.
Proof.
  revert c. induction ls as [|l ls IH]; intros c Hc; cbn; [by intros [= <-]|].
  destruct (step c l) as [c1|] eqn:E; [|done]. apply IH. by eapply step_notified.
Qed.

(** The thread of request [j] can move on by itself: it does not merely test
    its condition and sleep again. *)
Definition moves_on (c : Coordinator) (j : nat) : Prop := exists l c' p p',
  l ∈ [Wake j; Finish j (Ok ()); Grant j; TimeOut j; Leave j] /\ step c l = Some c'
  /\ objects c !! j = Some p /\ objects c' !! j = Some p' /\ phase p' <> phase p.

Lemma set_phase_moves c c' j l p ph :
  l ∈ [Wake j; Finish j (Ok ()); Grant j; TimeOut j; Leave j] -> step c l = Some c' -> c' = set_object_phase j ph c ->
  objects c !! j = Some p -> ph <> phase p -> moves_on c j.
Proof.
  intros Hl Hs -> Hp Hph. exists l, (set_object_phase j ph c), p, (set_phase ph p). split_and!; [done..| |done].
  cbn. by rewrite lookup_alter_eq, Hp.
Qed.

(** A thread moves on unless it returned, was interrupted, or has to wait. *)
Lemma thread_moves c j q :
  coordinator_ok c -> notified c -> objects c !! j = Some q -> (phase q = Waiting -> may_leave (queue c) j q) ->
  (exists d, phase q = Returned d) \/ phase q = Interrupted \/ moves_on c j.
Proof.
  intros Hc Hn Hq Hwake. destruct (phase q) as [| | |why g|d|d] eqn:Hph; [|by right; left| | | |by left; exists d]; right; right.
  - specialize (Hwake eq_refl). pose proof (Hn j q Hq Hph Hwake) as Ha. destruct (event_set q) eqn:He.
    + apply (set_phase_moves c (set_object_phase j (Returned (Some (default (deny_decision $"approval cancelled") (decision q)))) c)
        j (Wake j) q (Returned (Some (default (deny_decision $"approval cancelled") (decision q))))); [left| |done|done|by rewrite Hph].
      cbn [step]. rewrite Hq, Hph, decide_True by done. unfold wake. by rewrite He.
    + destruct Hwake as [?|Hwake]; [congruence|].
      apply (set_phase_moves c (set_object_phase j Focused c) j (Wake j) q Focused); [left| |done|done|by rewrite Hph].
      cbn [step]. rewrite Hq, Hph, decide_True by done. unfold wake. by rewrite He, bool_decide_eq_true_2.
  - destruct (event_set q) eqn:He.
    + destruct (finish_phase j q (Ok ()) c) as (ph & Hfin & Hpast).
      apply (set_phase_moves c (set_object_phase j ph c) j (Finish j (Ok ())) q ph); [right; left| |done|done|rewrite Hph; by intros ->].
      cbn [step]. unfold on_focused, is_focused. by rewrite Hq, Hph, He, <-Hfin.
    + set (ph := Leaving (Some (deny_decision $"approval timed out"))).
      apply (set_phase_moves c (set_object_phase j ph c) j (TimeOut j) q ph); [do 3 right; left| |done|done|by rewrite Hph].
      cbn [step]. unfold on_focused, is_focused. by rewrite Hq, Hph, He.
  - destruct (apply_session_grant_phase (request q) why g c j q Hc Hq) as (q1 & Hq1 & Hph1 & _).
    destruct (apply_session_grant (request q) why g c) as [d1 c1] eqn:Eg. cbn [snd] in Hq1.
    exists (Grant j), (set_object_phase j (Leaving (Some d1)) c1), q, (set_phase (Leaving (Some d1)) q1).
    split_and!; [do 2 right; left| |exact Hq|cbn; by rewrite lookup_alter_eq, Hq1|by rewrite Hph].
    cbn [step]. rewrite Hq, Hph. unfold apply_grant. by rewrite Eg.
  - destruct (refresh_core_fwd 0 (len (remove_pending j (queue c))) (remove_pending j (queue c))
      (alter (set_phase (Returned d)) j (objects c)) j (set_phase (Returned d) q)) as (q1 & Hq1 & _ & _ & _ & Hph1);
      [by rewrite lookup_alter_eq, Hq|].
    exists (Leave j), (leave j d c), q, q1. split_and!; [do 4 right; left|cbn [step]; by rewrite Hq, Hph|exact Hq|exact Hq1|].
    rewrite Hph1, Hph. done.
Qed.

(** C30: No request is stranded, and no notification lost.  In every reachable
    state, as long as the head of the queue was not interrupted while it was
    queued, a registered request has returned, or its own thread was
    interrupted, or its thread can move on by itself, having been notified if
    it sleeps, or it waits behind the head, whose thread can move on. *)
Theorem no_request_stranded h ls c i p :
  run (new_coordinator h) ls = Some c -> objects c !! i = Some p ->
  (forall j q, head (queue c) = Some j -> objects c !! j = Some q -> phase q <> Interrupted) ->
  (exists d, phase p = Returned d) \/ phase p = Interrupted \/ moves_on c i \/
  exists j, i ∈ queue c /\ head (queue c) = Some j /\ moves_on c j.
Proof.
  intros Hr Hp Hhead. pose proof (run_ok _ _ _ (new_coordinator_ok h) Hr) as Hok.
  assert (Hn : notified c) by (eapply run_notified; [|exact Hr]; intros j q Hq; cbn in Hq; by rewrite lookup_empty in Hq).
  pose proof Hok as [[_ _ Hm Hw _] _]. destruct (decide (i ∈ queue c)) as [Hi|Hi].
  - destruct (queue c) as [|j q] eqn:Eq; [by apply elem_of_nil in Hi|].
    destruct (Hm j) as (pj & Hpj & Hmem); [left|].
    destruct (thread_moves c j pj Hok Hn Hpj) as [[d Hd]|[Hx|Hmv]].
    + intros _. right. right. by rewrite Eq.
    + unfold member_ok in Hmem. by rewrite Hd in Hmem.
    + by destruct (Hhead j pj).
    + do 3 right. by exists j.
  - destruct (thread_moves c i p Hok Hn Hp) as [?|[?|?]]; [|by left|by right; left|by right; right; left].
    intros Hph. left. destruct (event_set p) eqn:He; [done|]. exfalso. by apply Hi, (Hw i p).
Qed.

(** ** Where an approval comes from *)

(** The decision a thread holds, grants, returns or has returned. *)
Definition carries (ph : Phase) (d : ApprovalDecision) : Prop :=
  match ph with
  | Granting why g => d = session_decision why g []
  | Leaving o | Returned o => o = Some d
  | _ => False
  end.
Definition holds (p : PendingApproval) (m : DecisionMode) (g : option ApprovalGrantCandidate) : Prop :=
  exists d, (decision p = Some d \/ carries (phase p) d) /\ mode d = m /\ grant d = g.

(** The user resolved this very request, or allowed for the session, on some
    request, a grant that covers this one. *)
Definition origin (ls : list Label) (i : nat) (p : PendingApproval) (m : DecisionMode)
    (g : option ApprovalGrantCandidate) : Prop :=
  (exists d, Resolve i d ∈ ls /\ mode d = m /\ grant d = g) \/
  (m = allow_session /\ exists gr, g = Some gr /\
     approval_grant_covers_request gr (facts (request p)) = true /\
     exists k d, Resolve k d ∈ ls /\ mode d = allow_session /\ grant d = Some gr).

Definition authorised (ls : list Label) (c : Coordinator) : Prop :=
  forall i p m g, objects c !! i = Some p -> holds p m g -> m <> deny_once -> origin ls i p m g.

Lemma origin_mono ls ls' i p p' m g :
  ls ⊆ ls' -> request p' = request p -> origin ls i p m g -> origin ls' i p' m g.
Proof.
  intros Hls Hr [(d & Hd & Hm)|(Hm & gr & Hg & Hcov & k & d & Hd & Hmd)].
  - left. exists d. split; [by apply Hls|done].
  - right. split; [done|]. exists gr. split; [done|]. rewrite Hr. split; [done|].
    exists k, d. split; [by apply Hls|done].
Qed.

(** An object that gains no approval stays authorised. *)
Lemma holds_phase ph p m g :
  holds (set_phase ph p) m g -> m <> deny_once ->
  (forall d, carries ph d -> mode d = deny_once \/ holds p (mode d) (grant d)) ->
  holds p m g.
Proof.
  intros (d & [Hd|Hd] & <- & <-) Hne Hph; [by exists d; split; [left|]|].
  cbn in Hd. by destruct (Hph d Hd).
Qed.

Lemma holds_same_core p p' m g : same_core p p' -> holds p m g -> holds p' m g.
Proof. intros (_ & Hd & _ & Hph) (d & H & Hm). exists d. by rewrite <-Hd, <-Hph. Qed.

Lemma authorised_alter ls ls' c i f :
  authorised ls c -> ls ⊆ ls' ->
  (forall p, request (f p) = request p) ->
  (forall p m g, objects c !! i = Some p -> holds (f p) m g -> m <> deny_once ->
     holds p m g \/ origin ls' i p m g) ->
  forall c', (forall j p', objects c' !! j = Some p' ->
    exists p, alter f i (objects c) !! j = Some p /\ same_core p' p) ->
  authorised ls' c'.
Proof.
  intros Ha Hls Hreq Hf c' Hc' j p' m g Hp' Hh Hm.
  destruct (Hc' j p' Hp') as (p & Hp & Hcore). apply (holds_same_core _ _ _ _ Hcore) in Hh.
  destruct Hcore as (Hr & _). destruct (decide (j = i)) as [->|Hji].
  - rewrite lookup_alter_eq in Hp. destruct (objects c !! i) as [p0|] eqn:E; [|done].
    injection Hp as <-. destruct (Hf p0 m g eq_refl Hh Hm) as [H|H].
    + apply (origin_mono ls ls' _ p0); [done|by rewrite Hr|]. by apply Ha.
    + apply (origin_mono ls' ls' _ p0); [done|by rewrite Hr|done].
  - rewrite lookup_alter_ne in Hp by done. apply (origin_mono ls ls' _ p); [done..|]. by apply Ha.
Qed.

Lemma alter_same_core c i f j p' :
  objects (with_objects (alter f i (objects c)) c) !! j = Some p' ->
  exists p, alter f i (objects c) !! j = Some p /\ same_core p' p.
Proof. intros H. by exists p'. Qed.

Lemma release_objects sel d c j p' :
  coordinator_ok c -> objects (release sel d c).2 !! j = Some p' ->
  exists p, objects c !! j = Some p /\ request p' = request p /\
    (same_core p' p \/ (sel p = true /\ same_core p' (resolve d p))).
Proof.
  intros Hc. unfold release.
  set (chosen := filter (fun i => selected sel (objects c) i = true) (queue c)).
  assert (Hnd : NoDup chosen).
  { apply NoDup_filter, sorted_NoDup. by destruct Hc as [[] _]. }
  assert (Hmain : objects (with_queue (filter (fun i => selected sel (objects c) i = false) (queue c))
    (foldr (fun i objs => alter (resolve d) i objs) (objects c) chosen) c) !! j = Some p' ->
    exists p, objects c !! j = Some p /\ request p' = request p /\
    (same_core p' p \/ (sel p = true /\ same_core p' (resolve d p)))).
  { cbn [with_queue objects]. intros H. apply refresh_core_inv in H as (p & Hp & Hcore).
    rewrite foldr_alter_lookup in Hp by done. destruct (decide (j ∈ chosen)) as [Hin|Hin].
    - apply list_elem_of_filter in Hin as [Hsel _]. unfold selected in Hsel.
      destruct (objects c !! j) as [p0|]; [|done]. injection Hp as <-. exists p0.
      split; [done|]. split; [by destruct Hcore|]. by right.
    - exists p. split; [done|]. split; [by destruct Hcore|by left]. }
  destruct chosen; [|exact Hmain]. intros H. exists p'. split_and!; [done|done|by left].
Qed.

Lemma release_authorised ls ls' sel d c :
  coordinator_ok c -> authorised ls c -> ls ⊆ ls' ->
  (forall i p, objects c !! i = Some p -> sel p = true -> mode d <> deny_once ->
     origin ls' i p (mode d) (grant d)) ->
  authorised ls' (release sel d c).2.
Proof.
  intros Hc Ha Hls Hd i p' m g Hp' Hh Hm.
  destruct (release_objects sel d c i p' Hc Hp') as (p & Hp & Hr & [Hcore|[Hsel Hcore]]);
    apply (holds_same_core _ _ _ _ Hcore) in Hh.
  - apply (origin_mono ls ls' _ p); [done..|]. by apply Ha.
  - destruct Hh as (d' & [Hd'|Hd'] & <- & <-).
    + cbn in Hd'. injection Hd' as <-. apply (origin_mono ls' ls' _ p); [done..|]. by apply Hd.
    + apply (origin_mono ls ls' _ p); [done..|]. apply Ha; [done| |done].
      exists d'. split; [by right|done].
Qed.

Lemma deny_not_approved r m g p :
  holds p m g -> m <> deny_once -> forall d, Some d = Some (deny_decision r) -> mode d = deny_once.
Proof. by intros _ _ d [= ->]. Qed.

Lemma phase_authorised ls ls' c i ph :
  authorised ls c -> ls ⊆ ls' ->
  (forall p d, objects c !! i = Some p -> carries ph d -> mode d = deny_once \/ holds p (mode d) (grant d)) ->
  authorised ls' (set_object_phase i ph c).
Proof.
  intros Ha Hls Hph.
  apply (authorised_alter ls ls' c i (set_phase ph)); [done|done|done| |intros; by apply alter_same_core].
  intros p m g Hp Hh Hm. left. eapply holds_phase; [exact Hh|done|]. intros d. by apply Hph.
Qed.

(** The end of a thread's review. *)
Lemma finish_authorised ls ls' i p h c :
  authorised ls c -> ls ⊆ ls' -> objects c !! i = Some p -> authorised ls' (finish i p h c).
Proof.
  intros Ha Hls Hp. unfold finish. set (d0 := default _ (decision p)).
  assert (Hd0 : mode d0 = deny_once \/ holds p (mode d0) (grant d0)).
  { unfold d0. destruct (decision p) as [d|] eqn:E; cbn [default from_option id]; [|by left]. right. exists d. split; [by left|done]. }
  apply (phase_authorised ls); [done|done|]. intros q d Hq Hc. replace q with p by congruence.
  case_decide as Hmode; [|by injection Hc as <-].
  unfold session_grant in Hc. destruct (grant d0) as [g|] eqn:Eg; [|injection Hc as <-; by left].
  destruct (negb _); [injection Hc as <-; by left|]. destruct h as [[]|x]; [|injection Hc as <-; by left].
  cbn in Hc. subst d. cbn. by rewrite <-Hmode.
Qed.

(** The release of the requests a grant covers. *)
Lemma grant_authorised ls ls' i p why g c :
  coordinator_ok c -> authorised ls c -> ls ⊆ ls' -> objects c !! i = Some p -> phase p = Granting why g ->
  authorised ls' (apply_grant i p why g c).
Proof.
  intros Hc Ha Hls Hp Hph. unfold apply_grant, apply_session_grant.
  assert (Hown : origin ls i p allow_session (Some g)).
  { apply Ha; [done| |done]. exists (session_decision why g []). split; [right; by rewrite Hph|done]. }
  assert (Hresolve : exists k d', Resolve k d' ∈ ls' /\ mode d' = allow_session /\ grant d' = Some g).
  { destruct Hown as [(d' & Hin & Hm & Hg)|(_ & g' & [= <-] & _ & k & d' & Hin & Hmd)].
    - exists i, d'. split; [by apply Hls|done].
    - exists k, d'. split; [by apply Hls|done]. }
  set (dr := session_decision _ g []).
  pose proof (release_authorised ls ls' (covered_by g (request p)) dr c Hc Ha Hls) as Hrel.
  destruct (release_phase (covered_by g (request p)) dr c i p Hc Hp) as (p1 & Hp1 & _ & Hr1).
  destruct (release (covered_by g (request p)) dr c) as [chosen c1]. cbn [snd] in *.
  assert (Ha1 : authorised ls' c1).
  { apply Hrel. intros j q Hq Hsel _. right. split; [done|]. exists g. split; [done|].
    unfold covered_by in Hsel. apply andb_prop in Hsel as [_ Hcov]. done. }
  set (ph := Leaving _). apply (authorised_alter ls' ls' c1 i (set_phase ph)); [done|done|done| |intros; by apply alter_same_core].
  intros q m gr Hq (d' & [Hd|Hd] & <- & <-) Hm; [left; exists d'; split; [by left|done]|].
  injection Hd as <-. right. replace q with p1 by congruence. by apply (origin_mono ls ls' _ p).
Qed.

Lemma wake_authorised ls ls' i p c c' :
  authorised ls c -> ls ⊆ ls' -> objects c !! i = Some p -> wake i p c = Some c' -> authorised ls' c'.
Proof.
  intros Ha Hls Hp. unfold wake. destruct (event_set p).
  - intros [= <-]. apply (phase_authorised ls); [done|done|]. intros q d Hq [= <-].
    replace q with p by congruence. destruct (decision p) as [d|] eqn:E; cbn; [|by left].
    right. exists d. split; [by left|done].
  - case_bool_decide; [|done]. intros [= <-]. by apply (phase_authorised ls).
Qed.

Lemma register_authorised ls ls' r c :
  authorised ls c -> ls ⊆ ls' -> authorised ls' (register r c).
Proof.
  intros Ha Hls. unfold register. set (i := next_object c).
  set (p := {| request := r; decision := None; event_set := false; position := 1; waiting := 0;
               phase := Waiting |}).
  set (c1 := {| objects := _; queue := _; next_object := _; has_session_handler := _ |}).
  assert (Hc1 : authorised ls' c1).
  { intros j q m g Hq Hh Hm. cbn in Hq. apply refresh_core_inv in Hq as (q0 & Hq0 & Hcore).
    apply (holds_same_core _ _ _ _ Hcore) in Hh. destruct Hcore as (Hr & _).
    destruct (decide (j = i)) as [->|Hji].
    - rewrite lookup_insert_eq in Hq0. injection Hq0 as <-. by destruct Hh as (d & [?|?] & _).
    - rewrite lookup_insert_ne in Hq0 by done. apply (origin_mono ls ls' _ q0); [done..|]. by apply Ha. }
  unfold wake. cbn [event_set p]. case_bool_decide; [|done]. cbn [default from_option id].
  by apply (phase_authorised ls' ls').
Qed.

Lemma step_authorised ls c l c' :
  coordinator_ok c -> authorised ls c -> step c l = Some c' -> authorised (ls ++ [l]) c'.
Proof.
  intros Hc Ha. assert (Hls : ls ⊆ ls ++ [l]) by (intros x Hx; apply elem_of_app; by left).
  assert (Hsame : authorised (ls ++ [l]) c).
  { intros j q m g Hq Hh Hm. apply (origin_mono ls _ _ q); [done..|]. by apply Ha. }
  destruct l; cbn [step].
  - intros [= <-]. by apply (register_authorised ls).
  - destruct (objects c !! i) as [p|] eqn:Hp; [|done]. destruct (phase p); try done.
    case_decide; [|done]. intros [= <-]. destruct (wake i p c) eqn:Ew; [|exact Hsame].
    by apply (wake_authorised ls _ i p c).
  - intros Hs. apply on_focused_inv in Hs as (p & Hp & _ & [= <-]).
    apply (authorised_alter ls _ c i (resolve d)); [done|done|done| |intros; by apply alter_same_core].
    intros q m g Hq (d' & [Hd|Hd] & <- & <-) Hm.
    + right. cbn in Hd. injection Hd as <-. left. exists d. split; [|done].
      apply elem_of_app. right. left.
    + left. exists d'. split; [by right|done].
  - intros Hs. apply on_focused_inv in Hs as (p & Hp & _ & [= <-]).
    apply (phase_authorised ls); [done|done|]. intros q d Hq [= <-]. by left.
  - destruct (objects c !! i) as [p|] eqn:Hp; [|done].
    destruct (phase p); try done; intros [= <-]; by apply (phase_authorised ls).
  - intros Hs. apply on_focused_inv in Hs as (p & Hp & Hph & Hf).
    destruct (event_set p); [|done]. injection Hf as <-. by apply (finish_authorised ls).
  - destruct (objects c !! i) as [p|] eqn:Hp; [|done]. destruct (phase p) eqn:Hph; try done.
    intros [= <-]. by apply (grant_authorised ls).
  - intros Hs. apply on_focused_inv in Hs as (p & Hp & _ & Hf).
    destruct (event_set p); [done|]. injection Hf as <-.
    apply (phase_authorised ls); [done|done|]. intros q d Hq [= <-]. by left.
  - destruct (objects c !! i) as [p|] eqn:Hp; [|done]. destruct (phase p) as [| | | |d|] eqn:Hph; try done.
    intros [= <-].
    apply (authorised_alter ls _ c i (set_phase (Returned d))); [done|done|done| |].
    + intros q m g Hq Hh Hm. left. eapply holds_phase; [exact Hh|done|].
      intros d' Hd'. cbn in Hd'. subst d. right. replace q with p by congruence.
      exists d'. split; [right; by rewrite Hph|done].
    + intros j p' Hp'. unfold leave in Hp'. cbn in Hp'. by apply refresh_core_inv in Hp'.
  - intros [= <-]. apply (release_authorised ls); [done|done|done|]. by intros.
Qed.

Lemma run_authorised ls0 c ls c' :
  coordinator_ok c -> authorised ls0 c -> run c ls = Some c' -> authorised (ls0 ++ ls) c'.
Proof.
  revert ls0 c. induction ls as [|l ls IH]; intros ls0 c Hc Ha; cbn.
  - intros [= <-]. by rewrite app_nil_r.
  - destruct (step c l) as [c1|] eqn:E; [|done]. intros Hr.
    replace (ls0 ++ l :: ls) with ((ls0 ++ [l]) ++ ls) by by rewrite <-app_assoc.
    apply (IH _ c1); [by eapply step_ok|by eapply step_authorised|done].
Qed.

(** C8: No approval without the user.  In every interleaving, a thread that
    returns with an approval was approved by a resolution of its own request, or
    is covered by a grant that the user allowed for the session; a failing or
    silent handler, a timeout, a cancellation or a rejected session grant never
    approves anything. *)
Theorem approvals_are_authorised h ls c i p d :
  run (new_coordinator h) ls = Some c -> objects c !! i = Some p ->
  phase p = Returned (Some d) -> approved d = true ->
  (exists d', Resolve i d' ∈ ls /\ mode d' = mode d /\ approved d' = true) \/
  (exists g k d', Resolve k d' ∈ ls /\ mode d' = allow_session /\ grant d' = Some g /\
     approval_grant_covers_request g (facts (request p)) = true).
Proof.
  intros Hr Hp Hph Happ.
  assert (Ha : authorised ls c).
  { apply (run_authorised [] (new_coordinator h)); [apply new_coordinator_ok| |done].
    intros j q m g Hq. cbn in Hq. by rewrite lookup_empty in Hq. }
  destruct (Ha i p (mode d) (grant d) Hp) as [(d' & Hin & Hm & _)|(_ & g & _ & Hcov & k & d' & Hin & Hm & Hg)].
  - exists d. split; [right; by rewrite Hph|done].
  - intros Hm. unfold approved in Happ. rewrite Hm in Happ. done.
  - left. exists d'. split_and!; [done|done|]. unfold approved in *. by rewrite Hm.
  - right. by exists g, k, d'.
Qed.

(** ** The provider in front of the coordinator *)

(** [SharedApprovalProvider.request_approval] for a request that a coordinator
    would answer with [ask]: judges run in order until one decides, unless the
    request forces a human review.  The second component is what
    [on_decision] is told. *)
Fixpoint run_judges (judges : list (ApprovalRequest -> result (option ApprovalDecision)))
    (ask : result ApprovalDecision) (r : ApprovalRequest) : result ApprovalDecision :=
  match judges with
  | [] => ask
  | j :: rest =>
    match j r with
    | Ok (Some d) => Ok d
    | Ok None => run_judges rest ask r
    | Raise e => Raise e
    end
  end.

Definition provider_request (force_human_review : bool)
    (judges : list (ApprovalRequest -> result (option ApprovalDecision)))
    (ask : result ApprovalDecision) (r : ApprovalRequest)
    : result ApprovalDecision * ApprovalDecision :=
  let res := if force_human_review then ask else run_judges judges ask r in
  match res with
  | Ok d => (Ok d, d)
  | Raise e => (Raise e, deny_decision $"approval interrupted")
  end.

(** ** Witnesses *)

Definition example_request (id path : pystr) : ApprovalRequest :=
  {| request_id := id; facts := write_call path |}.

Definition example_decision : ApprovalDecision := session_decision None (exact_grant $"a.txt") [].

(** Two requests for one file and one for another; the first is allowed for the
    session, which releases the second. *)
Definition example_trace : list Label :=
  [ Register (example_request $"r1" $"a.txt"); Register (example_request $"r2" $"a.txt");
    Register (example_request $"r3" $"b.txt"); Resolve 0 example_decision;
    Finish 0 (Ok ()); Grant 0; Leave 0; Wake 1; Wake 2; TimeOut 2 ].

Definition example_final : Coordinator :=
  default (new_coordinator true) (run (new_coordinator true) example_trace).

Lemma queue_discipline_witness :
  run (new_coordinator true) example_trace = Some example_final /\
  StronglySorted lt (queue example_final) /\ queue example_final = [2%nat].
Proof.
  assert (Hr : run (new_coordinator true) example_trace = Some example_final) by (vm_compute; reflexivity).
  split; [exact Hr|]. split; [|vm_compute; reflexivity].
  apply (queue_discipline true example_trace example_final Hr).
Defined.

Lemma no_request_stranded_witness :
  exists p, objects example_final !! 2%nat = Some p /\
  ((exists d, phase p = Returned d) \/ phase p = Interrupted \/ moves_on example_final 2 \/
   exists j, 2%nat ∈ queue example_final /\ head (queue example_final) = Some j /\ moves_on example_final j).
Proof.
  destruct (objects example_final !! 2%nat) as [p|] eqn:Hp; [|by vm_compute in Hp].
  exists p. split; [done|].
  apply (no_request_stranded true example_trace example_final 2 p); [vm_compute; reflexivity|done|].
  intros j q Hj Hq. vm_compute in Hj. injection Hj as <-. vm_compute in Hq. by injection Hq as <-.
Defined.

(** An interrupt that reaches a queued thread leaves its request in the queue.
    Once that is the head, nobody behind it is ever woken to be reviewed: the
    third thread was notified, finds itself not at the head, and sleeps. *)
Definition interrupted_trace : list Label :=
  [ Register (example_request $"r1" $"a.txt"); Register (example_request $"r2" $"b.txt");
    Register (example_request $"r3" $"c.txt"); Interrupt 1; TimeOut 0; Leave 0; Wake 2 ].

Example interrupted_head_strands :
  exists c p, run (new_coordinator true) interrupted_trace = Some c /\ queue c = [1; 2]%nat /\ objects c !! 2%nat = Some p
    /\ phase p = Waiting /\ step c (Wake 2) = None /\ Forall (fun l => step c l = None) [Wake 1; Finish 1 (Ok ()); TimeOut 1; Leave 1].
Proof.
  eexists _, _. split; [vm_compute; reflexivity|]. split; [by vm_compute|]. split; [vm_compute; reflexivity|].
  split; [done|]. split; [by vm_compute|]. by repeat constructor; vm_compute.
Qed.

Lemma approvals_are_authorised_witness :
  exists p d, objects example_final !! 1%nat = Some p /\ phase p = Returned (Some d) /\
    approved d = true /\
    ((exists d', Resolve 1 d' ∈ example_trace /\ mode d' = mode d /\ approved d' = true) \/
     (exists g k d', Resolve k d' ∈ example_trace /\ mode d' = allow_session /\ grant d' = Some g /\
        approval_grant_covers_request g (facts (request p)) = true)).
Proof.
  destruct (objects example_final !! 1%nat) as [p|] eqn:Hp; [|by vm_compute in Hp].
  pose proof Hp as Hp'. vm_compute in Hp'. injection Hp' as Hpv.
  eexists p, _. split; [done|]. split; [by rewrite <-Hpv|]. split; [by vm_compute|].
  eapply (approvals_are_authorised true example_trace example_final 1 p);
    [vm_compute; reflexivity|done|by rewrite <-Hpv|by vm_compute].
Defined.
