(* ===== verification/Hooks.v ===== *)
(** * The hook registry (domain/hooks/registry.py, domain/hooks/types.py)

    Hooks are registered per hook point and run by kind in priority order:
    guards fail closed, transforms replace the context, observers only report.
    A failing hook is described by facts that cannot carry its error text.

    A hook is a record of functions, since its code is a plugin's.  An exception
    is seen through the attributes the registry reads ([HookError]).  A context
    is its object identity, its class, its deferred dispatch callbacks and a
    body.  Performance measurement and [clone], which asks each hook for a copy
    of itself, are left out; freezing a context cannot fail on JSON-shaped
    values. *)

From S2P Require Import Prelude PyValue.

Inductive HookKind := GUARD | TRANSFORM | OBSERVER.

Inductive HookPoint :=
| BEFORE_TOOL_EXECUTE | AFTER_TOOL_EXECUTE | BEFORE_LLM_REQUEST | AFTER_LLM_RESPONSE
| RUNNER_STARTUP | RUNNER_SHUTDOWN | SESSION_START | SESSION_SAVE.

#[export] Instance HookKind_eq_dec : EqDecision HookKind.
Proof. solve_decision. Defined.
#[export] Instance HookPoint_eq_dec : EqDecision HookPoint.
Proof. solve_decision. Defined.

Definition kind_value (k : HookKind) : pystr :=
  match k with GUARD => $"guard" | TRANSFORM => $"transform" | OBSERVER => $"observer" end.

Definition point_value (p : HookPoint) : pystr :=
  match p with
  | BEFORE_TOOL_EXECUTE => $"before_tool_execute" | AFTER_TOOL_EXECUTE => $"after_tool_execute"
  | BEFORE_LLM_REQUEST => $"before_llm_request" | AFTER_LLM_RESPONSE => $"after_llm_response"
  | RUNNER_STARTUP => $"runner_startup" | RUNNER_SHUTDOWN => $"runner_shutdown"
  | SESSION_START => $"session_start" | SESSION_SAVE => $"session_save"
  end.

(** ** Contexts *)

Inductive ContextClass :=
| HookContextBase | BeforeToolExecuteContext | AfterToolExecuteContext | BeforeLLMRequestContext
| AfterLLMResponseContext | RunnerStartupContext | RunnerShutdownContext | SessionStartContext
| SessionSaveContext.

#[export] Instance ContextClass_eq_dec : EqDecision ContextClass.
Proof. solve_decision. Defined.

(** Deferred callbacks are named by numbers. *)
Record HookContext := {
  ctx_id : nat;
  ctx_class : ContextClass;
  dispatch_callbacks : list nat;
  dispatch_payload_changed : bool;
  ctx_body : pyval;
}.

(** [isinstance(c, k)]. *)
Definition is_instance (c : HookContext) (k : ContextClass) : bool :=
  bool_decide (ctx_class c = k) || bool_decide (k = HookContextBase).

(** [_transfer_dispatch_callbacks_to] between two different objects: what the
    target becomes; the source, which is given up, ends with no callback. *)
Definition transfer_dispatch_callbacks (source target : HookContext) : HookContext :=
  {| ctx_id := ctx_id target; ctx_class := ctx_class target;
     dispatch_callbacks := dispatch_callbacks source ++ dispatch_callbacks target;
     dispatch_payload_changed := dispatch_payload_changed source || dispatch_payload_changed target;
     ctx_body := ctx_body target |}.

(** [_commit_dispatch_callbacks]: each callback may edit the context; [run]
    gives the context after it and its error, if it raised. *)
Fixpoint run_callbacks {E} (run : nat -> HookContext -> HookContext * option E) (l : list nat)
    (c : HookContext) : list E * HookContext :=
  match l with
  | [] => ([], c)
  | cb :: l' =>
    let '(c1, e) := run cb c in
    let '(es, c2) := run_callbacks run l' c1 in
    (match e with Some e => e :: es | None => es end, c2)
  end.

Definition clear_callbacks (c : HookContext) : HookContext :=
  {| ctx_id := ctx_id c; ctx_class := ctx_class c; dispatch_callbacks := [];
     dispatch_payload_changed := dispatch_payload_changed c; ctx_body := ctx_body c |}.

Definition commit_dispatch_callbacks {E} (run : nat -> HookContext -> HookContext * option E)
    (c : HookContext) : list E * HookContext :=
  run_callbacks run (dispatch_callbacks c) (clear_callbacks c).

(** ** Decisions and failures *)

Record GuardDecision := {
  allowed : bool;
  g_reason : option pystr;
  g_warning : option pystr;
  requires_approval : bool;
}.

Definition guard_deny (reason : pystr) : GuardDecision :=
  {| allowed := false; g_reason := Some reason; g_warning := None; requires_approval := false |}.

(** What the registry can read of an exception: its class name, and the
    attributes, [None] when reading one raises. *)
Record HookError := {
  type_name : pystr;
  attr_error_type : option pyval;
  attr_phase : option pyval;
  attr_code : option pyval;
  attr_ref : option pyval;
}.

Definition type_error : HookError :=
  {| type_name := $"TypeError"; attr_error_type := Some VNone; attr_phase := Some VNone;
     attr_code := Some VNone; attr_ref := Some VNone |}.

Inductive outcome (A : Type) := Returned (a : A) | Failed (e : HookError).
Arguments Returned {A} a.
Arguments Failed {A} e.

Definition is_safe_char (c : Z) : bool :=
  ((48 <=? c) && (c <=? 57)) || ((65 <=? c) && (c <=? 90)) || ((97 <=? c) && (c <=? 122))
  || bool_decide (c ∈ [46; 95; 45; 58]).

(** [_safe_fact]. *)
Definition safe_fact (v : pyval) (fallback : option pystr) (limit : Z) : option pystr :=
  match v with
  | VStr s =>
    if bool_decide (s = []) || (len s >? limit) || negb (forallb is_safe_char s)
    then fallback else Some s
  | _ => fallback
  end.

Definition safe_error_attribute (v : option pyval) : option pystr :=
  match v with Some v => safe_fact v None 128 | None => None end.

Record HookFailureFacts := {
  f_phase : pystr; f_error_type : pystr; f_code : option pystr; f_ref : option pystr;
}.

Definition failure_facts (e : HookError) (default_phase : pystr) : HookFailureFacts :=
  {| f_phase :=
       or_empty (opt_or (opt_or (safe_error_attribute (attr_phase e))
                                (safe_fact (VStr default_phase) (Some $"hook") 128))
                        (Some $"hook"));
     f_error_type :=
       or_empty (opt_or (opt_or (safe_error_attribute (attr_error_type e))
                                (safe_fact (VStr (type_name e)) (Some $"Exception") 64))
                        (Some $"Exception"));
     f_code := safe_error_attribute (attr_code e);
     f_ref := safe_error_attribute (attr_ref e) |}.

Definition safe_hook_name (name : pyval) : pystr :=
  or_empty (opt_or (safe_fact name (Some $"unknown_hook") 128) (Some $"unknown_hook")).

Definition failure_message (f : HookFailureFacts) (hook_name : pystr) (k : HookKind) : pystr :=
  $"Hook execution failed (" ++
  join $", "
    ([$"phase=" ++ f_phase f; $"error_type=" ++ f_error_type f]
     ++ match f_code f with Some c => [$"code=" ++ c] | None => [] end
     ++ match f_ref f with Some r => [$"ref=" ++ r] | None => [] end
     ++ [$"hook=" ++ hook_name; $"hook_kind=" ++ kind_value k])
  ++ $")".

Record HookDiagnostic := {
  hook_name : pystr;
  hook_point : HookPoint;
  hook_kind : HookKind;
  message : pystr;
  severity : pystr;
  d_phase : option pystr;
  d_error_type : option pystr;
  d_code : option pystr;
  d_ref : option pystr;
}.

Definition failure_diagnostic (name : pyval) (p : HookPoint) (k : HookKind) (e : HookError)
    (default_phase sev : pystr) : HookDiagnostic :=
  let f := failure_facts e default_phase in
  let n := safe_hook_name name in
  {| hook_name := n; hook_point := p; hook_kind := k; message := failure_message f n k;
     severity := sev; d_phase := Some (f_phase f); d_error_type := Some (f_error_type f);
     d_code := f_code f; d_ref := f_ref f |}.

(** ** Hooks *)

(** [kinds] lists the hook classes the object is an instance of.  A guard
    returns [None] for something that is not a decision; a transform gives the
    context it received as it left it, and [None] for something that is not a
    context. *)
Record Hook := {
  name : pystr;
  priority : Z;
  kinds : list HookKind;
  guard_run : HookContext -> outcome (option GuardDecision);
  transform_run : HookContext -> HookContext * outcome (option HookContext);
  observer_run : HookContext -> outcome ();
}.

Record HookRegistry := {
  hooks : list (HookPoint * list Hook);
  kind_cache : list ((HookPoint * HookKind) * list Hook);
  diagnostic_sink : option (HookDiagnostic -> option HookError);
  diagnostics : list HookDiagnostic;
}.

Definition new_registry (sink : option (HookDiagnostic -> option HookError)) : HookRegistry :=
  {| hooks := []; kind_cache := []; diagnostic_sink := sink; diagnostics := [] |}.

(** [self._hooks.get(point, [])]. *)
Definition registered (r : HookRegistry) (p : HookPoint) : list Hook := default [] (assoc_get (hooks r) p).

(** [sorted(hooks, key=priority, reverse=True)], stable. *)
Definition higher_priority (h h' : Hook) : bool := priority h' <=? priority h.
Definition sorted_hooks (l : list Hook) : list Hook := stable_sort higher_priority l.

Definition has_kind (k : HookKind) (h : Hook) : bool := bool_decide (k ∈ kinds h).

Definition with_hooks (l : list (HookPoint * list Hook)) (r : HookRegistry) : HookRegistry :=
  {| hooks := l; kind_cache := kind_cache r; diagnostic_sink := diagnostic_sink r;
     diagnostics := diagnostics r |}.

Definition with_cache (l : list ((HookPoint * HookKind) * list Hook)) (r : HookRegistry) : HookRegistry :=
  {| hooks := hooks r; kind_cache := l; diagnostic_sink := diagnostic_sink r;
     diagnostics := diagnostics r |}.

Definition with_diagnostics (l : list HookDiagnostic) (r : HookRegistry) : HookRegistry :=
  {| hooks := hooks r; kind_cache := kind_cache r; diagnostic_sink := diagnostic_sink r;
     diagnostics := l |}.

(** [_invalidate_hook_cache]: every kind of the point. *)
Definition invalidate_hook_cache (p : HookPoint) (r : HookRegistry) : HookRegistry :=
  with_cache (filter (fun e : (HookPoint * HookKind) * list Hook => e.1.1 <> p) (kind_cache r)) r.

Definition register (p : HookPoint) (h : Hook) (r : HookRegistry) : HookRegistry :=
  invalidate_hook_cache p (with_hooks (assoc_set (hooks r) p (registered r p ++ [h])) r).

Definition unregister (p : HookPoint) (n : pystr) (r : HookRegistry) : HookRegistry :=
  invalidate_hook_cache p
    (with_hooks (assoc_set (hooks r) p (filter (fun h => name h <> n) (registered r p))) r).

Definition hooks_at (p : HookPoint) (r : HookRegistry) : list Hook := sorted_hooks (registered r p).

Definition list_hooks (r : HookRegistry) (p : option HookPoint) : list (pystr * list pystr) :=
  match p with
  | Some p => [(point_value p, map name (hooks_at p r))]
  | None => map (fun e => (point_value e.1, map name (sorted_hooks e.2))) (hooks r)
  end.

Definition drain_diagnostics (r : HookRegistry) : list HookDiagnostic * HookRegistry :=
  (diagnostics r, with_diagnostics [] r).

(** [_iter_kind]. *)
Definition iter_kind (p : HookPoint) (k : HookKind) (r : HookRegistry) : list Hook * HookRegistry :=
  match assoc_get (kind_cache r) (p, k) with
  | Some l => (l, r)
  | None =>
    let l := filter (fun h => has_kind k h = true) (hooks_at p r) in
    (l, with_cache (assoc_set (kind_cache r) (p, k) l) r)
  end.

Definition report_diagnostic (d : HookDiagnostic) (r : HookRegistry) : HookRegistry :=
  let r := with_diagnostics (diagnostics r ++ [d]) r in
  match diagnostic_sink r with
  | Some sink =>
    match sink d with
    | Some e =>
      with_diagnostics (diagnostics r ++ [failure_diagnostic (VStr $"diagnostic_sink") (hook_point d)
        OBSERVER e $"diagnostic_sink" $"warning"]) r
    | None => r
    end
  | None => r
  end.

Definition hook_failure (h : Hook) (p : HookPoint) (k : HookKind) (e : HookError) : HookDiagnostic :=
  failure_diagnostic (VStr (name h)) p k e (point_value p)
    (if decide (k = OBSERVER) then $"warning" else $"error").

(** ** Running hooks *)

(** One guard: its decision, and the failure to report. *)
Definition guard_verdict (p : HookPoint) (c : HookContext) (h : Hook)
    : GuardDecision * option HookDiagnostic :=
  match guard_run h c with
  | Returned (Some d) => (d, None)
  | Returned None => let f := hook_failure h p GUARD type_error in (guard_deny (message f), Some f)
  | Failed e => let f := hook_failure h p GUARD e in (guard_deny (message f), Some f)
  end.

Definition report_optional (d : option HookDiagnostic) (r : HookRegistry) : HookRegistry :=
  match d with Some d => report_diagnostic d r | None => r end.

Fixpoint guards_loop (p : HookPoint) (c : HookContext) (l : list Hook) (r : HookRegistry)
    : list GuardDecision * HookRegistry :=
  match l with
  | [] => ([], r)
  | h :: l' =>
    let '(d, failure) := guard_verdict p c h in
    let r := report_optional failure r in
    if allowed d && bool_decide (failure = None) then
      let '(ds, r) := guards_loop p c l' r in (d :: ds, r)
    else ([d], r)
  end.

Definition run_guards (p : HookPoint) (c : HookContext) (r : HookRegistry)
    : list GuardDecision * HookRegistry :=
  let '(l, r) := iter_kind p GUARD r in guards_loop p c l r.

(** One transform: the next context, or the error. *)
Definition transform_result (h : Hook) (current : HookContext) : outcome HookContext :=
  let '(current, res) := transform_run h current in
  match res with
  | Failed e => Failed e
  | Returned None => Failed type_error
  | Returned (Some c) =>
    if negb (is_instance c (ctx_class current)) then Failed type_error
    else if negb (bool_decide (ctx_id c = ctx_id current))
            && is_instance current BeforeLLMRequestContext
    then Returned (transfer_dispatch_callbacks current c)
    else Returned c
  end.

(** [HookExecutionError] carries the diagnostic. *)
Fixpoint transforms_loop (p : HookPoint) (current : HookContext) (l : list Hook) (r : HookRegistry)
    : (HookContext + HookDiagnostic) * HookRegistry :=
  match l with
  | [] => (inl current, r)
  | h :: l' =>
    match transform_result h current with
    | Returned c => transforms_loop p c l' r
    | Failed e =>
      let f := hook_failure h p TRANSFORM e in (inr f, report_diagnostic f r)
    end
  end.

Definition run_transforms (p : HookPoint) (c : HookContext) (r : HookRegistry)
    : (HookContext + HookDiagnostic) * HookRegistry :=
  let '(l, r) := iter_kind p TRANSFORM r in transforms_loop p c l r.

Fixpoint observers_loop (p : HookPoint) (c : HookContext) (l : list Hook) (r : HookRegistry)
    : list HookDiagnostic * HookRegistry :=
  match l with
  | [] => ([], r)
  | h :: l' =>
    match observer_run h c with
    | Returned _ => observers_loop p c l' r
    | Failed e =>
      let d := hook_failure h p OBSERVER e in
      let '(ds, r) := observers_loop p c l' (report_diagnostic d r) in (d :: ds, r)
    end
  end.

Definition run_observers (p : HookPoint) (c : HookContext) (r : HookRegistry)
    : list HookDiagnostic * HookRegistry :=
  let '(l, r) := iter_kind p OBSERVER r in observers_loop p c l r.

(** ** Registration order and the cache *)

Lemma higher_priority_trans x y z :
  higher_priority x y = true -> higher_priority y z = true -> higher_priority x z = true.
Proof. unfold higher_priority. rewrite !Z.leb_le. lia. Qed.

Lemma higher_priority_total x y : higher_priority x y = false -> higher_priority y x = true.
Proof. unfold higher_priority. rewrite Z.leb_gt, Z.leb_le. lia. Qed.

(** The cached selections are those of the registered hooks. *)
Definition cache_ok (r : HookRegistry) : Prop :=
  forall p k l, assoc_get (kind_cache r) (p, k) = Some l ->
    l = filter (fun h => has_kind k h = true) (hooks_at p r).

Lemma assoc_get_filter {V} (l : list ((HookPoint * HookKind) * V)) p q k :
  assoc_get (filter (fun e => e.1.1 <> p) l) (q, k) =
  if decide (q = p) then None else assoc_get l (q, k).
Proof.
  induction l as [|[[q0 k0] v] l IH]; [by case_decide|]. rewrite filter_cons. cbn [fst snd].
  destruct (decide (q0 <> p)) as [Hq|Hq]; cbn [assoc_get]; rewrite IH.
  - destruct (decide ((q, k) = (q0, k0))) as [[= -> ->]|]; [by rewrite decide_False|done].
  - destruct (decide (q = p)); [done|]. rewrite decide_False; [done|]. intros [= -> ->]. by apply Hq.
Qed.

Lemma invalidate_cache_ok p r l :
  cache_ok r -> (forall q, q <> p -> default [] (assoc_get l q) = registered r q) ->
  cache_ok (invalidate_hook_cache p (with_hooks l r)).
Proof.
  intros Hr Hl q k cached Hget. cbn in Hget. rewrite assoc_get_filter in Hget.
  destruct (decide (q = p)); [done|]. apply Hr in Hget. rewrite Hget. unfold hooks_at, registered at 2.
  cbn [hooks with_hooks with_cache invalidate_hook_cache]. by rewrite Hl.
Qed.

Lemma register_cache_ok p h r : cache_ok r -> cache_ok (register p h r).
Proof.
  intros Hr. apply invalidate_cache_ok; [done|]. intros q Hq. rewrite assoc_get_set.
  by rewrite decide_False.
Qed.

Lemma unregister_cache_ok p n r : cache_ok r -> cache_ok (unregister p n r).
Proof.
  intros Hr. apply invalidate_cache_ok; [done|]. intros q Hq. rewrite assoc_get_set.
  by rewrite decide_False.
Qed.

Lemma iter_kind_spec p k r :
  cache_ok r ->
  (iter_kind p k r).1 = filter (fun h => has_kind k h = true) (hooks_at p r) /\
  cache_ok (iter_kind p k r).2 /\ hooks (iter_kind p k r).2 = hooks r /\
  diagnostics (iter_kind p k r).2 = diagnostics r /\
  diagnostic_sink (iter_kind p k r).2 = diagnostic_sink r.
Proof.
  intros Hr. unfold iter_kind. destruct (assoc_get (kind_cache r) (p, k)) as [l|] eqn:E.
  - cbn. split_and!; try done. by apply Hr.
  - cbn. split_and!; try done. intros q j l Hget. cbn in Hget. rewrite assoc_get_set in Hget.
    case_decide as Hq; [injection Hget as <-; by injection Hq as -> ->|by apply Hr].
Qed.

(** Reporting changes only the diagnostics. *)
Lemma report_frame d r :
  hooks (report_diagnostic d r) = hooks r /\ kind_cache (report_diagnostic d r) = kind_cache r /\
  diagnostic_sink (report_diagnostic d r) = diagnostic_sink r.
Proof. unfold report_diagnostic. cbn. destruct (diagnostic_sink r) as [sink|] eqn:E; [|done].
  destruct (sink d); cbn; by rewrite ?E. Qed.

Lemma report_optional_frame d r :
  hooks (report_optional d r) = hooks r /\ kind_cache (report_optional d r) = kind_cache r /\
  diagnostic_sink (report_optional d r) = diagnostic_sink r.
Proof. destruct d; [apply report_frame|done]. Qed.

Definition same_registration (r r' : HookRegistry) : Prop :=
  hooks r' = hooks r /\ kind_cache r' = kind_cache r /\ diagnostic_sink r' = diagnostic_sink r.

Lemma guards_loop_frame p c l r : same_registration r (guards_loop p c l r).2.
Proof.
  revert r. induction l as [|h l IH]; intros r; cbn; [done|].
  destruct (guard_verdict p c h) as [d f]. pose proof (report_optional_frame f r) as Hf.
  destruct (allowed d && _); [|done]. specialize (IH (report_optional f r)).
  destruct (guards_loop p c l (report_optional f r)). unfold same_registration in *. naive_solver congruence.
Qed.

Lemma transforms_loop_frame p c l r : same_registration r (transforms_loop p c l r).2.
Proof.
  revert c r. induction l as [|h l IH]; intros c r; cbn; [done|].
  destruct (transform_result h c); [apply IH|apply report_frame].
Qed.

Lemma observers_loop_frame p c l r : same_registration r (observers_loop p c l r).2.
Proof.
  revert r. induction l as [|h l IH]; intros r; cbn; [done|].
  destruct (observer_run h c) as [|e]; [apply IH|].
  set (d := hook_failure h p OBSERVER e). pose proof (report_frame d r) as Hf.
  specialize (IH (report_diagnostic d r)).
  destruct (observers_loop p c l (report_diagnostic d r)). unfold same_registration in *.
  naive_solver congruence.
Qed.

Lemma same_registration_cache_ok r r' : same_registration r r' -> cache_ok r -> cache_ok r'.
Proof.
  intros (Hh & Hc & _) Hr p k l. rewrite Hc. intros Hget. rewrite (Hr p k l Hget).
  unfold hooks_at, registered. by rewrite Hh.
Qed.

Inductive RegistryOp :=
| ORegister (p : HookPoint) (h : Hook)
| OUnregister (p : HookPoint) (n : pystr)
| OGuards (p : HookPoint) (c : HookContext)
| OTransforms (p : HookPoint) (c : HookContext)
| OObservers (p : HookPoint) (c : HookContext)
| ODrain
| OReport (d : HookDiagnostic).

Definition run_registry_op (op : RegistryOp) (r : HookRegistry) : HookRegistry :=
  match op with
  | ORegister p h => register p h r
  | OUnregister p n => unregister p n r
  | OGuards p c => (run_guards p c r).2
  | OTransforms p c => (run_transforms p c r).2
  | OObservers p c => (run_observers p c r).2
  | ODrain => (drain_diagnostics r).2
  | OReport d => report_diagnostic d r
  end.

Definition run_registry_ops (ops : list RegistryOp) (r : HookRegistry) : HookRegistry :=
  foldl (fun r op => run_registry_op op r) r ops.

Lemma run_registry_op_cache_ok op r : cache_ok r -> cache_ok (run_registry_op op r).
Proof.
  intros Hr. destruct op; cbn [run_registry_op].
  - by apply register_cache_ok.
  - by apply unregister_cache_ok.
  - unfold run_guards. destruct (iter_kind_spec p GUARD r Hr) as (_ & Hc & _).
    destruct (iter_kind p GUARD r) as [l r1]. cbn in Hc.
    eapply same_registration_cache_ok; [apply guards_loop_frame|done].
  - unfold run_transforms. destruct (iter_kind_spec p TRANSFORM r Hr) as (_ & Hc & _).
    destruct (iter_kind p TRANSFORM r) as [l r1]. cbn in Hc.
    eapply same_registration_cache_ok; [apply transforms_loop_frame|done].
  - unfold run_observers. destruct (iter_kind_spec p OBSERVER r Hr) as (_ & Hc & _).
    destruct (iter_kind p OBSERVER r) as [l r1]. cbn in Hc.
    eapply same_registration_cache_ok; [apply observers_loop_frame|done].
  - intros q k l Hget. by apply Hr in Hget.
  - eapply same_registration_cache_ok; [apply report_frame|done].
Qed.

Lemma run_registry_ops_cache_ok ops r : cache_ok r -> cache_ok (run_registry_ops ops r).
Proof.
  revert r. induction ops as [|op ops IH]; intros r Hr; [done|]. apply IH.
  by apply run_registry_op_cache_ok.
Qed.

Lemma filter_comm {A} (P Q : A -> Prop) `{!forall x, Decision (P x), !forall x, Decision (Q x)} (l : list A) :
  filter P (filter Q l) = filter Q (filter P l).
Proof. rewrite !list_filter_filter. apply list_filter_iff. tauto. Qed.

(** Hooks run in priority order, and the cache is never stale.  After any
    registrations, removals and runs, the hooks selected for a point and kind
    are exactly the registered hooks of that kind, by decreasing priority, and
    in registration order among equal priorities. *)
Theorem hooks_selected ops sink p k :
  let r := run_registry_ops ops (new_registry sink) in
  let l := (iter_kind p k r).1 in
  l ≡ₚ filter (fun h => has_kind k h = true) (registered r p) /\
  StronglySorted (fun h h' => priority h' <= priority h) l /\
  forall n, filter (fun h => priority h = n) l
            = filter (fun h => priority h = n) (filter (fun h => has_kind k h = true) (registered r p)).
Proof.
  intros r l. assert (Hr : cache_ok r) by by apply run_registry_ops_cache_ok.
  destruct (iter_kind_spec p k r Hr) as [Hl _]. unfold l. rewrite Hl. clear l Hl. unfold hooks_at, sorted_hooks.
  split; [by rewrite stable_sort_Permutation|]. split.
  - pose proof (stable_sort_sorted higher_priority higher_priority_trans higher_priority_total
      (registered r p)) as Hs. clear -Hs.
    induction Hs as [|x l Hl IH Hx]; [constructor|]. rewrite filter_cons. case_decide; [|done].
    constructor; [done|]. rewrite Forall_forall in Hx |- *. intros y Hy.
    apply list_elem_of_filter in Hy as [_ Hy]. specialize (Hx y Hy). unfold higher_priority in Hx. by zbool.
  - intros n. rewrite (filter_comm _ _ (stable_sort _ _)), (filter_comm _ _ (registered r p)). f_equal.
    rewrite !(list_filter_iff (fun h => priority h = n) (fun h => bool_decide (priority h = n) = true))
      by (intros; by rewrite bool_decide_eq_true).
    apply stable_sort_stable. intros x y Hx Hy. apply bool_decide_eq_true in Hx, Hy.
    unfold higher_priority. apply Z.leb_le. lia.
Qed.

(** ** Guards *)

(** The decisions up to the first that stops the run. *)
Fixpoint until_stop (l : list (GuardDecision * option HookDiagnostic)) : list GuardDecision :=
  match l with
  | [] => []
  | (d, f) :: l' => if allowed d then d :: until_stop l' else [d]
  end.

Lemma guard_failure_denied p c h d f :
  guard_verdict p c h = (d, f) -> f <> None -> allowed d = false.
Proof. unfold guard_verdict. destruct (guard_run h c) as [[d'|]|e]; by intros [= <- <-]. Qed.

Lemma guards_loop_until_stop p c l r :
  (guards_loop p c l r).1 = until_stop (map (guard_verdict p c) l).
Proof.
  revert r. induction l as [|h l IH]; intros r; cbn; [done|].
  destruct (guard_verdict p c h) as [d f] eqn:E. specialize (IH (report_optional f r)).
  destruct f as [f|].
  - pose proof (guard_failure_denied p c h d (Some f) E ltac:(done)) as ->. done.
  - cbn [report_optional] in *. rewrite bool_decide_eq_true_2 by done. rewrite andb_true_r.
    destruct (allowed d); [|done]. destruct (guards_loop p c l r). cbn in *. by rewrite IH.
Qed.

Lemma until_stop_allowed l :
  forallb allowed (until_stop l) = forallb (fun v => allowed v.1) l.
Proof.
  induction l as [|[d f] l IH]; cbn; [done|]. destruct (allowed d) eqn:E; cbn; by rewrite E.
Qed.

Lemma until_stop_prefix l :
  exists k, until_stop l = map fst (take k l) /\
    (k < length l -> exists d, last (until_stop l) = Some d /\ allowed d = false)%nat /\
    forall i d, until_stop l !! i = Some d -> (S i < length (until_stop l))%nat -> allowed d = true.
Proof.
  induction l as [|[d f] l (k & Hk & Hlast & Hall)]; [exists 0%nat; by split_and!; [|cbn; lia|]|].
  cbn [until_stop]. destruct (allowed d) eqn:E.
  - exists (S k). cbn. rewrite Hk. split; [done|]. rewrite <-Hk. split.
    + intros Hlt. destruct Hlast as (x & Hx & ?); [lia|]. exists x.
      rewrite last_cons, Hx. done.
    + intros [|i] x Hx Hi; cbn in *; [congruence|]. apply (Hall i x); [done|lia].
  - exists 1%nat. split; [done|]. split; [intros; by exists d|].
    intros [|i] x Hx Hi; cbn in *; lia.
Qed.

(** C27: Guards fail closed.  A call passes the guard decisions exactly when every
    registered guard returned a decision that allows it; a guard that raises or
    returns anything else counts as a denial with the safe failure message.  The
    guards run in order up to the first denial, which is the last decision, and
    none runs after it. *)
Theorem guards_fail_closed p c r :
  cache_ok r ->
  let guards := filter (fun h => has_kind GUARD h = true) (hooks_at p r) in
  let ds := (run_guards p c r).1 in
  (forallb allowed ds = true <->
   forall h, h ∈ guards -> exists d, guard_run h c = Returned (Some d) /\ allowed d = true) /\
  exists k, ds = map (fun h => (guard_verdict p c h).1) (take k guards) /\
    ((k < length guards)%nat -> exists d, last ds = Some d /\ allowed d = false) /\
    forall i d, ds !! i = Some d -> (S i < length ds)%nat -> allowed d = true.
Proof.
  intros Hr guards ds. destruct (iter_kind_spec p GUARD r Hr) as (Hl & _).
  assert (Hds : ds = until_stop (map (guard_verdict p c) guards)).
  { unfold ds, run_guards. destruct (iter_kind p GUARD r) as [l r1]. cbn in Hl. subst l.
    apply guards_loop_until_stop. }
  clearbody guards ds. subst ds. split.
  - rewrite until_stop_allowed, forallb_forall. split.
    + intros H h Hh. specialize (H (guard_verdict p c h)).
      rewrite in_map_iff in H. unfold guard_verdict in H at 2.
      assert (Ha : allowed (guard_verdict p c h).1 = true).
      { apply H. exists h. split; [done|by apply list_elem_of_In]. }
      unfold guard_verdict in Ha. destruct (guard_run h c) as [[d|]|e]; [by exists d|done..].
    + intros H v Hv. apply in_map_iff in Hv as (h & <- & Hh). apply list_elem_of_In in Hh.
      destruct (H h Hh) as (d & Hd & Ha). unfold guard_verdict. by rewrite Hd.
  - destruct (until_stop_prefix (map (guard_verdict p c) guards)) as (k & Hk & Hlast & Hall).
    exists k. split; [|split; [by rewrite length_map in Hlast|done]].
    rewrite Hk, firstn_map, map_map. done.
Qed.

(** ** Failure reports *)

(** A short identifier: letters, digits, dots, dashes, underscores and colons. *)
Definition safe_text (s : pystr) : Prop :=
  s <> [] /\ len s <= 128 /\ forallb is_safe_char s = true.

Definition safe_optional (o : option pystr) : Prop :=
  match o with Some s => safe_text s | None => True end.

Lemma safe_fact_safe v fallback limit :
  limit <= 128 -> safe_optional fallback -> safe_optional (safe_fact v fallback limit).
Proof.
  intros Hl Hf. destruct v; try done. cbn [safe_fact].
  destruct (bool_decide (s = []) || (len s >? limit) || negb (forallb is_safe_char s)) eqn:E; [done|].
  apply orb_false_iff in E as [E E3]. apply orb_false_iff in E as [E1 E2].
  apply bool_decide_eq_false in E1. apply negb_false_iff in E3. rewrite Z.gtb_ltb in E2. zbool.
  split_and!; [done|lia|done].
Qed.

Lemma safe_error_attribute_safe v : safe_optional (safe_error_attribute v).
Proof. destruct v; [|done]. by apply safe_fact_safe. Qed.

Lemma opt_or_safe a b : safe_optional a -> safe_optional b -> safe_optional (opt_or a b).
Proof. destruct a as [[|c s]|]; done. Qed.

Lemma or_empty_safe a s :
  safe_optional a -> safe_text s -> safe_text (or_empty (opt_or a (Some s))).
Proof. by destruct a as [[|c r]|]. Qed.

Lemma failure_facts_safe e ph :
  safe_text (f_phase (failure_facts e ph)) /\ safe_text (f_error_type (failure_facts e ph)) /\
  safe_optional (f_code (failure_facts e ph)) /\ safe_optional (f_ref (failure_facts e ph)).
Proof.
  unfold failure_facts. cbn [f_phase f_error_type f_code f_ref].
  split_and!; try apply safe_error_attribute_safe; apply or_empty_safe; try (by split_and!);
    apply opt_or_safe; try apply safe_error_attribute_safe; apply safe_fact_safe; try done; by split_and!.
Qed.

Lemma safe_hook_name_safe n : safe_text (safe_hook_name n).
Proof. apply or_empty_safe; [apply safe_fact_safe; [done|by split_and!]|by split_and!]. Qed.

(** The characters a failure message may hold. *)
Definition is_message_char (c : Z) : bool := is_safe_char c || bool_decide (c ∈ $" (),=").

Lemma safe_text_message s : safe_text s -> forallb is_message_char s = true.
Proof.
  intros (_ & _ & Hs). rewrite forallb_forall in Hs |- *. intros c Hc. unfold is_message_char.
  by rewrite Hs.
Qed.

Lemma join_message sep l :
  forallb is_message_char sep = true -> Forall (fun s => forallb is_message_char s = true) l ->
  forallb is_message_char (join sep l) = true.
Proof.
  intros Hsep. induction 1 as [|s l Hs Hl IH]; [done|]. destruct l as [|s' l]; [done|].
  change (join sep (s :: s' :: l)) with (s ++ sep ++ join sep (s' :: l)).
  by rewrite !forallb_app, Hs, Hsep, IH.
Qed.

Lemma failure_message_safe f n k :
  safe_text (f_phase f) -> safe_text (f_error_type f) -> safe_optional (f_code f) ->
  safe_optional (f_ref f) -> safe_text n ->
  forallb is_message_char (failure_message f n k) = true /\ len (failure_message f n k) <= 724.
Proof.
  intros Hp He Hc Hr Hn. unfold failure_message. split.
  - rewrite !forallb_app, join_message; [done|done|].
    assert (Hk : forallb is_message_char (kind_value k) = true) by by destruct k.
    destruct (f_code f), (f_ref f); repeat (apply Forall_app; split);
      repeat (apply Forall_cons; split); try (by apply Forall_nil);
      rewrite forallb_app; apply andb_true_iff; (split; [done|]);
      first [exact Hk | by apply safe_text_message].
  - destruct Hp as (_ & Hp & _), He as (_ & He & _), Hn as (_ & Hn & _).
    assert (Hk : len (kind_value k) <= 9) by by destruct k.
    destruct (f_code f) as [c|], (f_ref f) as [r|]; cbn [app join];
      repeat match goal with H : safe_optional (Some _) |- _ => destruct H as (_ & H & _) end;
      autorewrite with len; cbn [len length] in *; lia.
Qed.

(** Hook failures leak nothing.  Whatever exception a hook raises, its
    diagnostic holds only short identifiers, never the exception's text: name,
    phase, type, code and reference have at most 128 characters from a fixed
    alphabet, and the message is bounded and made of these facts alone. *)
Theorem failure_is_safe n p k e default_phase sev :
  let d := failure_diagnostic n p k e default_phase sev in
  safe_text (hook_name d) /\ safe_optional (d_phase d) /\ safe_optional (d_error_type d) /\
  safe_optional (d_code d) /\ safe_optional (d_ref d) /\
  message d = failure_message {| f_phase := or_empty (d_phase d);
    f_error_type := or_empty (d_error_type d); f_code := d_code d; f_ref := d_ref d |} (hook_name d) k /\
  forallb is_message_char (message d) = true /\ len (message d) <= 724.
Proof.
  intros d. destruct (failure_facts_safe e default_phase) as (Hp & He & Hc & Hr).
  pose proof (safe_hook_name_safe n) as Hn.
  destruct (failure_message_safe (failure_facts e default_phase) (safe_hook_name n) k Hp He Hc Hr Hn).
  split_and!; try done.
Qed.

(** ** Observers *)

Definition observer_failure (p : HookPoint) (c : HookContext) (h : Hook) : option HookDiagnostic :=
  match observer_run h c with
  | Returned _ => None
  | Failed e => Some (hook_failure h p OBSERVER e)
  end.

(** Every observer runs, whatever the others do: one diagnostic per failure, in
    order, and all of them are kept in the registry. *)
Lemma observers_all_run p c r :
  cache_ok r ->
  (run_observers p c r).1 =
  omap (observer_failure p c) (filter (fun h => has_kind OBSERVER h = true) (hooks_at p r)).
Proof.
  intros Hr. destruct (iter_kind_spec p OBSERVER r Hr) as (Hl & _). unfold run_observers.
  destruct (iter_kind p OBSERVER r) as [l r1]. cbn in Hl. subst l. clear Hr.
  generalize (filter (fun h => has_kind OBSERVER h = true) (hooks_at p r)) as l.
  intros l. revert r1. induction l as [|h l IH]; intros r1; cbn; [done|].
  unfold observer_failure at 1. destruct (observer_run h c) as [|e]; [apply IH|].
  specialize (IH (report_diagnostic (hook_failure h p OBSERVER e) r1)).
  destruct (observers_loop _ _ _ _). cbn in *. by rewrite IH.
Qed.

(** ** Witness *)

Definition example_guard (n : pystr) (prio : Z) (out : outcome (option GuardDecision)) : Hook :=
  {| name := n; priority := prio; kinds := [GUARD]; guard_run _ := out;
     transform_run c := (c, Returned (Some c)); observer_run _ := Returned () |}.

Definition allow_decision : GuardDecision :=
  {| allowed := true; g_reason := None; g_warning := None; requires_approval := false |}.

Definition example_registry : HookRegistry :=
  run_registry_ops
    [ ORegister BEFORE_TOOL_EXECUTE (example_guard $"policy" 0 (Failed type_error));
      ORegister BEFORE_TOOL_EXECUTE (example_guard $"first" 5 (Returned (Some allow_decision))) ]
    (new_registry None).

Definition example_context : HookContext :=
  {| ctx_id := 0; ctx_class := BeforeToolExecuteContext; dispatch_callbacks := [];
     dispatch_payload_changed := false; ctx_body := VNone |}.

Lemma guards_fail_closed_witness :
  cache_ok example_registry /\
  forallb allowed (run_guards BEFORE_TOOL_EXECUTE example_context example_registry).1 = false.
Proof.
  assert (Hc : cache_ok example_registry) by (apply run_registry_ops_cache_ok; by intros ? ? ? ?).
  split; [exact Hc|].
  pose proof (guards_fail_closed BEFORE_TOOL_EXECUTE example_context example_registry Hc) as [Hiff _].
  destruct (forallb allowed _); [|done]. exfalso.
  destruct (proj1 Hiff eq_refl (example_guard $"policy" 0 (Failed type_error))) as (d & Hd & _);
    [|done].
  vm_compute. right. left.
Defined.
