(* ===== verification/Remote.v ===== *)
(** * Remote execution: tokens and peers (extensions/remote_exec)

    [TokenManager] (auth.py) holds one-time bootstrap tokens and leased peer
    tokens; [PeerRegistry] (peer_registry.py) the connected peers and their
    heartbeats.  The clock and the random part of a new token or identifier are
    inputs.  Instants and durations are integers of one unit.  A dictionary is
    kept in insertion order where the code iterates over it. *)

From S2P Require Import Prelude PyValue.

(** ** Tokens *)

Record TokenEntry := { expires_at : Z; used : bool; peer_id : option pystr }.

Record TokenManager := { bootstrap : gmap pystr TokenEntry; peers : gmap pystr TokenEntry }.

Definition new_token_manager : TokenManager := {| bootstrap := ∅; peers := ∅ |}.

Definition issue_bootstrap_token (random : pystr) (ttl_sec now : Z) (m : TokenManager)
    : pystr * TokenManager :=
  let token := $"bt_" ++ random in
  (token, {| bootstrap := <[token := {| expires_at := now + ttl_sec; used := false;
                                        peer_id := None |}]> (bootstrap m);
             peers := peers m |}).

Definition consume_bootstrap_token (token : pystr) (now : Z) (m : TokenManager)
    : bool * TokenManager :=
  match bootstrap m !! token with
  | None => (false, m)
  | Some e =>
    if used e then (false, m)
    else if now >? expires_at e then (false, m)
    else (true, {| bootstrap := <[token := {| expires_at := expires_at e; used := true;
                                              peer_id := peer_id e |}]> (bootstrap m);
                   peers := peers m |})
  end.

Definition issue_peer_token (random peer : pystr) (ttl_sec now : Z) (m : TokenManager)
    : pystr * TokenManager :=
  let token := $"pt_" ++ random in
  (token, {| bootstrap := bootstrap m;
             peers := <[token := {| expires_at := now + ttl_sec; used := false;
                                    peer_id := Some peer |}]> (peers m) |}).

Definition verify_peer_token (token : pystr) (now : Z) (m : TokenManager) : option pystr :=
  match peers m !! token with
  | None => None
  | Some e => if now >? expires_at e then None else peer_id e
  end.

Definition revoke_peer_token (token : pystr) (m : TokenManager) : TokenManager :=
  {| bootstrap := bootstrap m; peers := delete token (peers m) |}.

Definition refresh_peer_token (token : pystr) (ttl_sec grace_sec now : Z) (m : TokenManager)
    : option pystr * TokenManager :=
  match peers m !! token with
  | None => (None, m)
  | Some e =>
    match peer_id e with
    | None => (None, m)
    | Some p =>
      if now >? expires_at e + Z.max 0 grace_sec then (None, m)
      else (Some p, {| bootstrap := bootstrap m;
                       peers := <[token := {| expires_at := now + Z.max 1 ttl_sec; used := used e;
                                              peer_id := peer_id e |}]> (peers m) |})
    end
  end.

Definition mask (token : pystr) : pystr :=
  if len token <=? 12 then $"***"
  else take 6 token ++ $"..." ++ drop (length token - 4) token.

Definition expired (now grace : Z) (e : TokenEntry) : Prop := expires_at e + grace < now.
#[export] Instance expired_dec now grace e : Decision (expired now grace e).
Proof. unfold expired. apply _. Defined.

Definition prune_store (now grace : Z) (s : gmap pystr TokenEntry) : Z * gmap pystr TokenEntry :=
  let kept := filter (fun kv => ~ expired now grace kv.2) s in
  (Z.of_nat (size s) - Z.of_nat (size kept), kept).

Definition prune_expired (peer_grace_sec now : Z) (m : TokenManager) : Z * TokenManager :=
  let '(n, b) := prune_store now 0 (bootstrap m) in
  let '(k, p) := prune_store now (Z.max 0 peer_grace_sec) (peers m) in
  (n + k, {| bootstrap := b; peers := p |}).

(** ** Operations as data *)

Inductive TokenOp :=
| TIssueBootstrap (random : pystr) (ttl now : Z)
| TConsume (token : pystr) (now : Z)
| TIssuePeer (random peer : pystr) (ttl now : Z)
| TVerify (token : pystr) (now : Z)
| TRevoke (token : pystr)
| TRefresh (token : pystr) (ttl grace now : Z)
| TPrune (grace now : Z).

Definition run_token_op (op : TokenOp) (m : TokenManager) : TokenManager :=
  match op with
  | TIssueBootstrap r ttl now => (issue_bootstrap_token r ttl now m).2
  | TConsume t now => (consume_bootstrap_token t now m).2
  | TIssuePeer r p ttl now => (issue_peer_token r p ttl now m).2
  | TVerify _ _ => m
  | TRevoke t => revoke_peer_token t m
  | TRefresh t ttl grace now => (refresh_peer_token t ttl grace now m).2
  | TPrune g now => (prune_expired g now m).2
  end.

Definition run_token_ops (ops : list TokenOp) (m : TokenManager) : TokenManager :=
  foldl (fun m op => run_token_op op m) m ops.

(** How often a bootstrap token was issued, and accepted, along a run. *)
Definition issues (token : pystr) (op : TokenOp) : bool :=
  match op with TIssueBootstrap r _ _ => bool_decide ($"bt_" ++ r = token) | _ => false end.

Definition accepts (token : pystr) (op : TokenOp) (m : TokenManager) : bool :=
  match op with
  | TConsume t now => bool_decide (t = token) && (consume_bootstrap_token t now m).1
  | _ => false
  end.

Fixpoint count_issues (token : pystr) (ops : list TokenOp) : Z :=
  match ops with
  | [] => 0
  | op :: ops' => (if issues token op then 1 else 0) + count_issues token ops'
  end.

Fixpoint count_accepts (token : pystr) (ops : list TokenOp) (m : TokenManager) : Z :=
  match ops with
  | [] => 0
  | op :: ops' => (if accepts token op m then 1 else 0) + count_accepts token ops' (run_token_op op m)
  end.

(** ** Theorems on tokens *)

Definition unused (token : pystr) (m : TokenManager) : Z :=
  match bootstrap m !! token with Some e => if used e then 0 else 1 | None => 0 end.

Lemma prune_store_lookup now grace s t :
  (prune_store now grace s).2 !! t =
  match s !! t with Some e => if decide (expired now grace e) then None else Some e | None => None end.
Proof.
  unfold prune_store. cbn [snd]. destruct (s !! t) as [e|] eqn:E.
  - case_decide as He.
    + apply map_lookup_filter_None. right. intros x Hx. simplify_eq. cbn. intros H. by apply H.
    + apply map_lookup_filter_Some. by split.
  - apply map_lookup_filter_None. by left.
Qed.

Lemma bootstrap_step token op m :
  unused token (run_token_op op m) + (if accepts token op m then 1 else 0)
  <= unused token m + (if issues token op then 1 else 0).
Proof.
  assert (Hnn : 0 <= unused token m).
  { unfold unused. repeat case_match; lia. }
  destruct op; cbn [run_token_op accepts issues]; try lia.
  - unfold unused at 1, issue_bootstrap_token. cbn [snd bootstrap].
    destruct (bool_decide_reflect ($"bt_" ++ random = token)) as [<-|Hne].
    + rewrite lookup_insert_eq. cbn [used]. lia.
    + rewrite lookup_insert_ne by done. fold (unused token m). lia.
  - unfold consume_bootstrap_token. destruct (bootstrap m !! token0) as [e|] eqn:E; cbn [fst snd];
      [|rewrite andb_false_r; lia].
    destruct (used e) eqn:Eu; cbn [fst snd]; [rewrite andb_false_r; lia|].
    destruct (now >? expires_at e); cbn [fst snd]; [rewrite andb_false_r; lia|].
    destruct (bool_decide_reflect (token0 = token)) as [->|Hne]; cbn [andb].
    + unfold unused. cbn [bootstrap]. rewrite lookup_insert_eq, E, Eu. cbn [used]. lia.
    + unfold unused at 1. cbn [bootstrap]. rewrite lookup_insert_ne by done. fold (unused token m). lia.
  - unfold unused at 1. cbn [issue_peer_token snd bootstrap]. fold (unused token m). lia.
  - unfold unused at 1. cbn [revoke_peer_token bootstrap]. fold (unused token m). lia.
  - unfold refresh_peer_token. destruct (peers m !! token0) as [e|]; [|cbn [snd]; lia].
    destruct (peer_id e); [|cbn [snd]; lia]. case_match; cbn [snd]; [lia|].
    unfold unused at 1. cbn [bootstrap]. fold (unused token m). lia.
  - unfold prune_expired. destruct (prune_store now 0 (bootstrap m)) as [n b] eqn:Eb.
    destruct (prune_store now (Z.max 0 grace) (peers m)) as [k q]. unfold unused at 1. cbn [snd bootstrap].
    pose proof (prune_store_lookup now 0 (bootstrap m) token) as Hl. rewrite Eb in Hl. cbn [snd] in Hl.
    rewrite Hl. unfold unused in *. repeat case_match; simplify_eq; lia.
Qed.

Lemma bootstrap_run token ops m :
  count_accepts token ops m <= unused token m + count_issues token ops.
Proof.
  revert m. induction ops as [|op ops IH]; intros m; cbn.
  - unfold unused. repeat case_match; lia.
  - specialize (IH (run_token_op op m)). pose proof (bootstrap_step token op m). lia.
Qed.

(** A bootstrap token is accepted at most as often as it was issued, through
    any operations: a token issued once works once, whatever is consumed,
    pruned or issued in between; and a consumption succeeds only for a token on
    record, unused and not past its expiry, and marks it used. *)
Theorem bootstrap_token_one_time token ops :
  count_accepts token ops new_token_manager <= count_issues token ops /\
  forall now m, (consume_bootstrap_token token now m).1 = true <->
    exists e, bootstrap m !! token = Some e /\ used e = false /\ now <= expires_at e.
Proof.
  split.
  - pose proof (bootstrap_run token ops new_token_manager) as H. unfold unused in H. cbn in H.
    rewrite lookup_empty in H. lia.
  - intros now m. unfold consume_bootstrap_token. destruct (bootstrap m !! token) as [e|].
    + destruct (used e) eqn:Eu; [split; [done|naive_solver]|].
      rewrite Z.gtb_ltb. destruct (Z.ltb_spec (expires_at e) now).
      * split; [done|]. intros (e' & [= <-] & _ & ?). lia.
      * split; [|done]. intros _. exists e. split_and!; [done|done|lia].
    + split; [done|]. by intros (e & ? & _).
Qed.

(** Operations that do not issue the peer token again. *)
Definition keeps_token (token : pystr) (op : TokenOp) : Prop :=
  match op with TIssuePeer r _ _ _ => $"pt_" ++ r <> token | _ => True end.

Lemma peer_step token op m :
  keeps_token token op ->
  match peers (run_token_op op m) !! token with
  | Some e => exists e0, peers m !! token = Some e0 /\ peer_id e = peer_id e0
  | None => True
  end.
Proof.
  intros Hk. assert (Hsame : match peers m !! token with
    | Some e => exists e0, peers m !! token = Some e0 /\ peer_id e = peer_id e0 | None => True end).
  { destruct (peers m !! token) as [e|]; [by exists e|done]. }
  destruct op; cbn [run_token_op]; try done.
  - unfold consume_bootstrap_token. destruct (bootstrap m !! token0) as [e|]; [|done].
    destruct (used e); [done|]. by destruct (now >? expires_at e).
  - cbn [issue_peer_token snd peers]. by rewrite lookup_insert_ne by done.
  - cbn. destruct (decide (token0 = token)) as [->|]; [by rewrite lookup_delete_eq|].
    by rewrite lookup_delete_ne.
  - unfold refresh_peer_token. destruct (peers m !! token0) as [e|] eqn:E; [|done].
    destruct (peer_id e) eqn:Ep; [|done].
    destruct (now >? expires_at e + Z.max 0 grace); [done|]. cbn.
    destruct (decide (token0 = token)) as [->|]; [|by rewrite lookup_insert_ne].
    rewrite lookup_insert_eq. exists e. by rewrite E.
  - unfold prune_expired. destruct (prune_store now 0 (bootstrap m)) as [n b].
    destruct (prune_store now (Z.max 0 grace) (peers m)) as [k q] eqn:Eq. cbn.
    pose proof (prune_store_lookup now (Z.max 0 grace) (peers m) token) as Hl.
    rewrite Eq in Hl. cbn in Hl. rewrite Hl. destruct (peers m !! token); [|done].
    case_decide; [done|]. by eexists.
Qed.

Lemma peer_run token ops m :
  Forall (keeps_token token) ops ->
  match peers (run_token_ops ops m) !! token with
  | Some e => exists e0, peers m !! token = Some e0 /\ peer_id e = peer_id e0
  | None => True
  end.
Proof.
  intros Hops. revert m. induction Hops as [|op ops Hop _ IH]; intros m.
  - cbn. destruct (peers m !! token) as [e|]; [by exists e|done].
  - specialize (IH (run_token_op op m)). pose proof (peer_step token op m Hop) as Hs.
    unfold run_token_ops in *. cbn [foldl].
    destruct (peers (foldl _ _ ops) !! token) as [e|]; [|done].
    destruct IH as (e0 & He0 & ->). by rewrite He0 in Hs.
Qed.

(** A peer token speaks for the peer it was issued to and nobody else.
    Through any later operations it verifies, and refreshes, only as that peer;
    once revoked it never verifies nor refreshes again; and a successful refresh
    renews the lease for at least one unit of time. *)
Theorem peer_token_bound random peer ttl now m ops :
  let token := $"pt_" ++ random in
  Forall (keeps_token token) ops ->
  let m' := run_token_ops ops (issue_peer_token random peer ttl now m).2 in
  (forall t, verify_peer_token token t m' = None \/ verify_peer_token token t m' = Some peer) /\
  (forall ttl2 grace t, let '(r, m2) := refresh_peer_token token ttl2 grace t m' in
     (r = None /\ m2 = m') \/
     (r = Some peer /\ forall t2, t2 <= t + Z.max 1 ttl2 -> verify_peer_token token t2 m2 = Some peer)) /\
  (forall ops2 t ttl2 grace, Forall (keeps_token token) ops2 ->
     let m3 := run_token_ops ops2 (revoke_peer_token token m') in
     verify_peer_token token t m3 = None /\ (refresh_peer_token token ttl2 grace t m3).1 = None).
Proof.
  intros token Hops m'. pose proof (peer_run token ops (issue_peer_token random peer ttl now m).2 Hops) as Hr.
  fold m' in Hr. cbn [issue_peer_token snd peers] in Hr. fold token in Hr. rewrite lookup_insert_eq in Hr. clearbody m'. split_and!.
  - intros t. unfold verify_peer_token. destruct (peers m' !! token) as [e|]; [|by left].
    destruct Hr as (e0 & [= <-] & Hp). cbn in Hp. rewrite Hp. case_match; auto.
  - intros ttl2 grace t. unfold refresh_peer_token.
    destruct (peers m' !! token) as [e|] eqn:E; [|by left].
    destruct Hr as (e0 & [= <-] & Hp). cbn in Hp. rewrite Hp. destruct (t >? expires_at e + Z.max 0 grace); [by left|]. right.
    split; [done|]. intros t2 Ht2. unfold verify_peer_token. cbn [peers]. rewrite lookup_insert_eq.
    cbn [expires_at peer_id]. rewrite Z.gtb_ltb. destruct (Z.ltb_spec (t + Z.max 1 ttl2) t2); [lia|done].
  - intros ops2 t ttl2 grace Hops2.
    pose proof (peer_run token ops2 (revoke_peer_token token m') Hops2) as Hr2.
    assert (Hnone : peers (revoke_peer_token token m') !! token = None) by apply lookup_delete_eq.
    rewrite Hnone in Hr2. unfold verify_peer_token, refresh_peer_token.
    destruct (peers (run_token_ops ops2 (revoke_peer_token token m')) !! token) as [e|]; [|done].
    by destruct Hr2 as (? & ? & _).
Qed.

Lemma peer_token_bound_witness :
  Forall (keeps_token $"pt_a") [TVerify $"pt_a" 3; TPrune 0 4] /\
  verify_peer_token $"pt_a" 9
    (run_token_ops [TVerify $"pt_a" 3; TPrune 0 4] (issue_peer_token $"a" $"p1" 10 0 new_token_manager).2)
  = Some $"p1".
Proof.
  assert (Hf : Forall (keeps_token $"pt_a") [TVerify $"pt_a" 3; TPrune 0 4]) by by repeat constructor.
  split; [exact Hf|].
  destruct (peer_token_bound $"a" $"p1" 10 0 new_token_manager _ Hf) as [Hv _].
  destruct (Hv 9) as [H|H]; [vm_compute in H; discriminate|exact H].
Defined.

(** ** Peers *)

Record PeerInfo := {
  p_id : pystr;
  connected_at : Z;
  last_seen_at : Z;
  capabilities : list pyval;
  cwd : pyval;
  workspace_root : pyval;
  online : bool;
  meta : pydict;
}.

Record PeerRegistry := { registry : list (pystr * PeerInfo); heartbeat_timeout_sec : Z }.

(** [PeerRegistry.register]; a missing or empty [meta] gives the defaults. *)
Definition register (new_id : pystr) (m : pydict) (now : Z) (r : PeerRegistry)
    : result pystr * PeerRegistry :=
  match (match m with
         | [] => Ok []
         | _ => py_iter (default (VList []) (dget m $"capabilities"))
         end) with
  | Raise e => (Raise e, r)
  | Ok caps =>
    let info := {| p_id := new_id; connected_at := now; last_seen_at := now; capabilities := caps;
                   cwd := default (VStr $".") (dget m $"cwd");
                   workspace_root := dget_none m $"workspace_root"; online := true; meta := m |} in
    (Ok new_id, {| registry := assoc_set (registry r) new_id info;
                   heartbeat_timeout_sec := heartbeat_timeout_sec r |})
  end.

Definition with_peer (i : pystr) (info : PeerInfo) (r : PeerRegistry) : PeerRegistry :=
  {| registry := assoc_set (registry r) i info; heartbeat_timeout_sec := heartbeat_timeout_sec r |}.

Definition touch (now : Z) (p : PeerInfo) : PeerInfo :=
  {| p_id := p_id p; connected_at := connected_at p; last_seen_at := now;
     capabilities := capabilities p; cwd := cwd p; workspace_root := workspace_root p;
     online := true; meta := meta p |}.

Definition set_meta (k : pystr) (v : pyval) (p : PeerInfo) : PeerInfo :=
  {| p_id := p_id p; connected_at := connected_at p; last_seen_at := last_seen_at p;
     capabilities := capabilities p; cwd := cwd p; workspace_root := workspace_root p;
     online := online p; meta := dset (meta p) k v |}.

Definition go_offline (reason : pystr) (p : PeerInfo) : PeerInfo :=
  let p := set_meta $"disconnect_reason" (VStr reason) p in
  {| p_id := p_id p; connected_at := connected_at p; last_seen_at := last_seen_at p;
     capabilities := capabilities p; cwd := cwd p; workspace_root := workspace_root p;
     online := false; meta := meta p |}.

Definition update_heartbeat (i : pystr) (now : Z) (r : PeerRegistry) : bool * PeerRegistry :=
  match assoc_get (registry r) i with
  | None => (false, r)
  | Some p => (true, with_peer i (touch now p) r)
  end.

Definition update_terminal (i : pystr) (terminal : pydict) (r : PeerRegistry) : bool * PeerRegistry :=
  match assoc_get (registry r) i with
  | None => (false, r)
  | Some p => (true, with_peer i (set_meta $"terminal" (VDict terminal) p) r)
  end.

Definition mark_disconnected (i reason : pystr) (r : PeerRegistry) : option PeerInfo * PeerRegistry :=
  match assoc_get (registry r) i with
  | None => (None, r)
  | Some p => let p := go_offline reason p in (Some p, with_peer i p r)
  end.

Definition get (i : pystr) (r : PeerRegistry) : option PeerInfo :=
  match assoc_get (registry r) i with
  | Some p => if online p then Some p else None
  | None => None
  end.

Definition list_online (r : PeerRegistry) : list PeerInfo :=
  filter (fun p => online p = true) (registry r).*2.

Definition pick_default_peer (r : PeerRegistry) : option PeerInfo :=
  match list_online r with [] => None | p :: _ => Some p end.

Definition is_stale (r : PeerRegistry) (now : Z) (p : PeerInfo) : bool :=
  online p && (now - last_seen_at p >? heartbeat_timeout_sec r).

Definition prune_stale (now : Z) (r : PeerRegistry) : list pystr * PeerRegistry :=
  (map fst (filter (fun kp : pystr * PeerInfo => is_stale r now kp.2 = true) (registry r)),
   {| registry := map (fun kp : pystr * PeerInfo =>
        (kp.1, if is_stale r now kp.2 then go_offline $"heartbeat_timeout" kp.2 else kp.2)) (registry r);
      heartbeat_timeout_sec := heartbeat_timeout_sec r |}).

Definition remove (i : pystr) (r : PeerRegistry) : bool * PeerRegistry :=
  (bool_decide (is_Some (assoc_get (registry r) i)),
   {| registry := filter (fun kp : pystr * PeerInfo => kp.1 <> i) (registry r);
      heartbeat_timeout_sec := heartbeat_timeout_sec r |}).

Lemma assoc_get_map {K V} `{EqDecision K} (f : V -> V) (l : list (K * V)) k :
  assoc_get (map (fun kv => (kv.1, f kv.2)) l) k = f <$> assoc_get l k.
Proof. induction l as [|[k' v] l IH]; cbn; [done|]. by case_decide. Qed.

Lemma prune_get i now r :
  assoc_get (registry (prune_stale now r).2) i =
  (fun p => if is_stale r now p then go_offline $"heartbeat_timeout" p else p) <$> assoc_get (registry r) i.
Proof.
  cbn [prune_stale snd registry].
  exact (assoc_get_map (fun p => if is_stale r now p then go_offline $"heartbeat_timeout" p else p)
           (registry r) i).
Qed.

Lemma get_prune i now r :
  get i (prune_stale now r).2
  = match get i r with Some p => if is_stale r now p then None else Some p | None => None end.
Proof.
  unfold get. rewrite prune_get. destruct (assoc_get (registry r) i) as [p|]; [|done]. cbn [fmap option_fmap option_map].
  destruct (is_stale r now p) eqn:E; cbn [online go_offline].
  - destruct (online p); [by rewrite E|done].
  - destruct (online p); [by rewrite E|done].
Qed.

Lemma list_online_prune now r p :
  p ∈ list_online (prune_stale now r).2 -> is_stale r now p = false /\ online p = true.
Proof.
  intros Hp. unfold list_online, prune_stale in Hp. cbn [snd registry] in Hp.
  apply list_elem_of_filter in Hp as [Hon Hin]. apply list_elem_of_fmap in Hin as ([j q] & -> & Hin).
  apply list_elem_of_In, in_map_iff in Hin as ([j' q'] & [= <- <-] & Hin).
  cbn [snd] in *. by destruct (is_stale r now q') eqn:E.
Qed.

(** Heartbeats and pruning.  Pruning takes offline exactly the online peers
    that have been silent for longer than the timeout, and reports exactly
    them; so afterwards no online peer is stale, and a peer that sent a
    heartbeat is found at every later prune within the timeout.  The default
    peer is always online. *)
Theorem prune_stale_spec now r :
  let stale := (prune_stale now r).1 in
  let r' := (prune_stale now r).2 in
  (forall i, i ∈ stale <-> exists p, (i, p) ∈ registry r /\ is_stale r now p = true) /\
  Forall (fun p => now - last_seen_at p <= heartbeat_timeout_sec r) (list_online r') /\
  (forall i p, get i r' = Some p <-> get i r = Some p /\ is_stale r now p = false) /\
  (forall i t, (update_heartbeat i t r).1 = true -> now - t <= heartbeat_timeout_sec r ->
     exists p, get i (prune_stale now (update_heartbeat i t r).2).2 = Some p /\ last_seen_at p = t) /\
  (forall p, pick_default_peer r' = Some p -> online p = true).
Proof.
  cbv zeta. split_and!.
  - intros i. unfold prune_stale. cbn [fst]. rewrite list_elem_of_In, in_map_iff. split.
    + intros ([j p] & <- & Hin). apply list_elem_of_In, list_elem_of_filter in Hin as [Hs Hin].
      by exists p.
    + intros (p & Hin & Hs). exists (i, p). split; [done|].
      apply list_elem_of_In, list_elem_of_filter. done.
  - apply Forall_forall. intros p Hp. apply list_online_prune in Hp as [E Hon].
    unfold is_stale in E. rewrite Hon in E. cbn [andb] in E. zbool. lia.
  - intros i p. rewrite get_prune. destruct (get i r) as [q|]; [|by split; [|intros [? _]]].
    destruct (is_stale r now q) eqn:E; split; [done|..|];
      [intros [[= ->] ?]; congruence|by intros [= ->]|by intros [[= ->] _]].
  - intros i t. unfold update_heartbeat. destruct (assoc_get (registry r) i) as [q|] eqn:E; [|done].
    intros _ Ht. exists (touch t q). cbn [snd]. rewrite get_prune. unfold get, with_peer.
    cbn [registry]. rewrite assoc_get_set, decide_True by done.
    unfold is_stale. cbn [touch online last_seen_at heartbeat_timeout_sec andb]. rewrite Z.gtb_ltb.
    destruct (Z.ltb_spec (heartbeat_timeout_sec r) (now - t)); [lia|done].
  - intros p. unfold pick_default_peer. destruct (list_online _) as [|q l] eqn:E; [done|].
    intros [= ->]. apply (list_online_prune now r). rewrite E. left.
Qed.
