(* ===== verification/Lines.v ===== *)
(** * Lines of text

    [str.splitlines] and the slices the code takes of texts and lists of lines.
    A line ends at any of the characters Python recognises, and a carriage return
    followed by a line feed is one ending. *)

From S2P Require Import Prelude.

(** The characters that end a line. *)
Definition is_eol (c : Z) : bool :=
  ((10 <=? c) && (c <=? 13)) || ((28 <=? c) && (c <=? 30)) || (c =? 133)
  || (c =? 8232) || (c =? 8233).

(** [s.splitlines(keepends=True)]. *)
Fixpoint lines_keep (s : pystr) : list pystr :=
  match s with
  | [] => []
  | c :: s' =>
    if is_eol c then
      match s' with
      | d :: s'' => if (c =? 13) && (d =? 10) then [c; d] :: lines_keep s''
                    else [c] :: lines_keep s'
      | [] => [[c]]
      end
    else match lines_keep s' with
         | [] => [[c]]
         | l :: ls => (c :: l) :: ls
         end
  end.

(** A line without its ending. *)
Definition line_body (l : pystr) : pystr :=
  match reverse l with
  | d :: c :: r => if (c =? 13) && (d =? 10) then reverse r
                   else if is_eol d then reverse (c :: r) else l
  | [d] => if is_eol d then [] else l
  | [] => l
  end.

(** [s.splitlines()]. *)
Definition splitlines (s : pystr) : list pystr := map line_body (lines_keep s).

(** [l[-n:]]. *)
Definition slice_last {A} (n : Z) (l : list A) : list A :=
  if 0 <? n then drop (length l - Z.to_nat n) l else slice_from (- n) l.

Example splitlines_mixed :
  splitlines ($"a" ++ [13; 10] ++ $"b" ++ [13] ++ $"c" ++ [10; 10] ++ $"d")
  = [$"a"; $"b"; $"c"; []; $"d"].
Proof. reflexivity. Qed.

(** [s.replace(old, new)] for a non-empty [old]; [skip] characters belong to the
    occurrence just replaced. *)
Fixpoint replace_from (old new : pystr) (skip : nat) (s : pystr) : pystr :=
  match s with
  | [] => []
  | c :: s' =>
    match skip with
    | S k => replace_from old new k s'
    | O => if startswith s old then new ++ replace_from old new (length old - 1) s'
           else c :: replace_from old new 0 s'
    end
  end.

Definition py_replace (old new s : pystr) : pystr := replace_from old new 0 s.

Example py_replace_example : py_replace $"ab" $"x" $"aababb" = $"axxb".
Proof. reflexivity. Qed.

(** [sub in s]. *)
Fixpoint py_contains (sub s : pystr) : bool :=
  startswith s sub || match s with [] => false | _ :: s' => py_contains sub s' end.

(** ** Lemmas on lines *)

Definition no_eol (s : pystr) : Prop := Forall (fun c => is_eol c = false) s.
#[export] Instance no_eol_dec s : Decision (no_eol s).
Proof. unfold no_eol. apply _. Defined.

(** What a line may end with. *)
Definition line_end (e : pystr) : Prop := e = [] \/ e = [13; 10] \/ exists c, e = [c] /\ is_eol c = true.

Lemma line_body_app l e : no_eol l -> line_end e -> line_body (l ++ e) = l.
Proof.
  intros Hl He.
  assert (Hlast : forall d r, reverse l = d :: r -> is_eol d = false).
  { intros d r Hd. unfold no_eol in Hl. rewrite Forall_forall in Hl. apply Hl.
    rewrite <- (reverse_involutive l), Hd, reverse_cons. apply elem_of_app. right. left. }
  unfold line_body. destruct He as [->|[->|(c & -> & Hc)]].
  - rewrite app_nil_r. destruct (reverse l) as [|d r] eqn:E.
    + by rewrite <- (reverse_involutive l), E.
    + specialize (Hlast d r eq_refl). destruct r as [|c r]; [by rewrite Hlast|].
      destruct ((c =? 13) && (d =? 10)) eqn:E2; [|by rewrite Hlast].
      apply andb_true_iff in E2 as [_ ->%Z.eqb_eq]. done.
  - rewrite reverse_app. change (reverse [13; 10]) with [10; 13]. cbn [app Z.eqb Pos.eqb andb].
    by rewrite reverse_involutive.
  - rewrite reverse_app. change (reverse [c]) with [c]. cbn [app].
    destruct (reverse l) as [|d r] eqn:E.
    + rewrite Hc. by rewrite <- (reverse_involutive l), E.
    + specialize (Hlast d r eq_refl). replace ((d =? 13) && (c =? 10)) with false.
      * rewrite Hc. by rewrite <- (reverse_involutive l), E.
      * symmetry. apply andb_false_iff. left. apply Z.eqb_neq. by intros ->.
Qed.

Lemma lines_keep_prefix l s :
  no_eol l -> l <> [] ->
  lines_keep (l ++ s) = match lines_keep s with [] => [l] | k :: ks => (l ++ k) :: ks end.
Proof.
  intros Hl Hne. induction Hl as [|c l Hc Hl IH]; [done|]. cbn [lines_keep app]. rewrite Hc.
  destruct l as [|d l]; [done|]. rewrite IH by done. by destruct (lines_keep s).
Qed.

Lemma lines_keep_end e s :
  line_end e -> e <> [] -> (e = [13] -> head s <> Some 10) -> lines_keep (e ++ s) = e :: lines_keep s.
Proof.
  intros [->|[->|(c & -> & Hc)]] Hne Hcr; [done|done|]. cbn. rewrite Hc. destruct s as [|d s]; [done|].
  destruct ((c =? 13) && (d =? 10)) eqn:E; [|done]. apply andb_true_iff in E as [->%Z.eqb_eq ->%Z.eqb_eq]. exfalso. by apply Hcr.
Qed.

(** A line with its ending in front of the rest of a text. *)
Lemma splitlines_line l e s :
  no_eol l -> line_end e -> e <> [] -> (e = [13] -> head s <> Some 10) ->
  splitlines (l ++ e ++ s) = l :: splitlines s.
Proof.
  intros Hl He Hne Hcr. unfold splitlines. destruct (decide (l = [])) as [->|Hl0].
  - cbn [app]. rewrite lines_keep_end by done. cbn [map]. by rewrite <- (line_body_app [] e).
  - rewrite lines_keep_prefix, lines_keep_end by done. cbn [map]. by rewrite line_body_app.
Qed.

Lemma splitlines_last l : no_eol l -> l <> [] -> splitlines l = [l].
Proof.
  intros Hl Hne. unfold splitlines. rewrite <- (app_nil_r l) at 1. rewrite lines_keep_prefix by done.
  cbn. f_equal. rewrite <- (app_nil_r l) at 1. apply line_body_app; [done|by left].
Qed.

(** Cutting a non-empty text at its first line ending. *)
Lemma first_line s :
  s <> [] -> exists l e s', s = l ++ e ++ s' /\ no_eol l /\ line_end e /\ (e = [] -> s' = []) /\
    (e = [13] -> head s' <> Some 10).
Proof.
  induction s as [|c s IH]; [done|]. intros _. destruct (is_eol c) eqn:Hc.
  - destruct (decide (c = 13 /\ head s = Some 10)) as [[-> Hs]|Hn].
    + destruct s as [|d s]; [done|]. injection Hs as ->. exists [], [13; 10], s.
      split_and!; [done|constructor|right; by left|done|done].
    + exists [], [c], s. split_and!; [done|constructor|right; right; by exists c|done|].
      intros [= ->] Hs. by apply Hn.
  - destruct s as [|d s].
    + exists [c], [], []. split_and!; [done|by repeat constructor|by left|done|done].
    + destruct IH as (l & e & s' & Hs & Hl & He & Hn & Hcr); [done|]. exists (c :: l), e, s'.
      rewrite Hs. split_and!; [done|by constructor|done..].
Qed.

(** Induction on the lines of a text. *)
Lemma lines_ind (P : pystr -> Prop) :
  P [] ->
  (forall l, no_eol l -> l <> [] -> P l) ->
  (forall l e s, no_eol l -> line_end e -> e <> [] -> (e = [13] -> head s <> Some 10) -> P s ->
     P (l ++ e ++ s)) ->
  forall s, P s.
Proof.
  intros Hnil Hlast Hline s. induction s as [s IH] using (induction_ltof1 _ (@length Z)). unfold ltof in IH.
  destruct (decide (s = [])) as [->|Hne]; [done|].
  destruct (first_line s Hne) as (l & e & s' & -> & Hl & He & Hn & Hcr).
  destruct (decide (e = [])) as [->|He0].
  - rewrite (Hn eq_refl) in *. cbn in *. rewrite app_nil_r in *. by apply Hlast.
  - apply Hline; try done. apply IH. rewrite !length_app. destruct e; [done|]. cbn. lia.
Qed.

Lemma splitlines_no_eol s : Forall no_eol (splitlines s).
Proof.
  induction s as [|l Hl Hne|l e s Hl He Hne Hcr IH] using lines_ind; [constructor|..].
  - rewrite splitlines_last by done. by repeat constructor.
  - rewrite splitlines_line by done. by constructor.
Qed.

(** ** Texts with one kind of line ending *)

(** The lines joined by [nl], and a last ending if [trailing]. *)
Definition file_text (nl : pystr) (ls : list pystr) (trailing : bool) : pystr :=
  join nl ls ++ if trailing then nl else [].

Definition newline (nl : pystr) : Prop := nl = [10] \/ nl = [13; 10].

(** Lines that such a text shows as they are: a last line without ending is not empty. *)
Definition file_lines (ls : list pystr) (trailing : bool) : Prop :=
  Forall no_eol ls /\ if trailing then ls <> [] else last ls <> Some [].

Lemma newline_end nl : newline nl -> line_end nl /\ nl <> [] /\ nl <> [13].
Proof. intros [->| ->]; split_and!; try done; [right; right; by exists 10|right; by left]. Qed.

Lemma splitlines_file nl ls trailing :
  newline nl -> file_lines ls trailing -> splitlines (file_text nl ls trailing) = ls.
Proof.
  intros (He & Hne & Hcr)%newline_end [Hls Ht]. unfold file_text.
  induction Hls as [|l ls Hl Hls IH]; [by destruct trailing|]. destruct ls as [|l' ls].
  - change (join nl [l]) with l. destruct trailing.
    + rewrite <- (app_nil_r nl). by rewrite splitlines_line.
    + rewrite app_nil_r. apply splitlines_last; [done|]. cbn in Ht. congruence.
  - change (join nl (l :: l' :: ls)) with (l ++ nl ++ join nl (l' :: ls)).
    rewrite <- !app_assoc, splitlines_line by done. f_equal. apply IH.
    by destruct trailing.
Qed.
