(* ===== verification/ToolOutcome.v ===== *)
(** * Structured tool results (domain/agent/tool_outcome.py, domain/images.py)

    [ToolOutcome] carries the facts of one tool execution; the text for the
    model and the text for the interface are projections of it.  The dataclass
    checks of [__post_init__] are [check_outcome]: building and replacing an
    outcome return [result].  Durations are integers of one unit. *)

From S2P Require Import Prelude PyValue.

Inductive ToolOutcomeStatus := SUCCEEDED | FAILED | DENIED | CANCELLED | TIMED_OUT.
Inductive ToolErrorKind := KDenied | KInvalidArguments | KNotFound | KInterrupted | KExecution | KInternal.
Inductive ToolRetentionStrategy := HEAD | TAIL | HEAD_TAIL.

#[export] Instance outcome_status_dec : EqDecision ToolOutcomeStatus.
Proof. solve_decision. Defined.
#[export] Instance error_kind_dec : EqDecision ToolErrorKind.
Proof. solve_decision. Defined.

Record ToolRetentionHint := { strategy : ToolRetentionStrategy; anchor_line : option Z }.
Definition default_hint : ToolRetentionHint := {| strategy := HEAD; anchor_line := None |}.

Definition make_hint (s : ToolRetentionStrategy) (a : option Z) : result ToolRetentionHint :=
  match a with
  | Some n => if n <? 1 then Raise (ValueError $"anchor_line must be positive")
              else Ok {| strategy := s; anchor_line := a |}
  | None => Ok {| strategy := s; anchor_line := a |}
  end.

Record ToolDiff := {
  d_path : pystr; unified : pystr; additions : option Z; deletions : option Z;
  original_chars : option Z; d_truncated : bool;
}.

(** A diagnostic's code is a text or a number. *)
Record ToolDiagnostic := {
  g_path : pystr; line : Z; character : Z; g_message : pystr; g_severity : pystr;
  code : option pyval; source : option pystr; end_line : option Z; end_character : option Z;
}.

Record ToolTruncation := {
  t_original_chars : Z; t_original_lines : Z; t_retained_chars : Z; t_retained_lines : Z;
  t_strategy : pystr;
}.

Record ToolArchiveReference := {
  a_path : pystr; media_type : pystr; checksum_sha256 : option pystr; a_size_bytes : option Z;
}.

(** ** Image references *)

Record ImageReference := {
  attachment_id : pystr; variant_id : pystr; mime_type : pystr; width : Z; height : Z;
  size_bytes : Z; original_width : Z; original_height : Z; i_name : pystr;
  i_turn_id : option pystr; i_path : option pystr;
}.

(** [_HASH.fullmatch]. *)
Definition is_hash (s : pystr) : bool :=
  (len s =? 64)
  && forallb (fun c => ((97 <=? c) && (c <=? 102)) || ((48 <=? c) && (c <=? 57))) s.

Definition check_image (i : ImageReference) : result ImageReference :=
  if negb (is_hash (attachment_id i)) || negb (is_hash (variant_id i))
  then Raise (ValueError $"Invalid image reference")
  else if 256 <? len (i_name i) then Raise (ValueError $"Invalid image name or turn")
  else if match i_path i with
          | Some p => bool_decide (p = []) || (4096 <? len p) || bool_decide (0 ∈ p)
          | None => false
          end
  then Raise (ValueError $"Invalid image path")
  else if negb (bool_decide (mime_type i ∈ [$"image/png"; $"image/jpeg"; $"image/webp"]))
  then Raise (ValueError $"Unsupported image type")
  else if existsb (fun n => n <? 1)
            [width i; height i; size_bytes i; original_width i; original_height i]
  then Raise (ValueError $"Invalid image dimensions or size")
  else Ok i.

Definition to_part (i : ImageReference) : pydict :=
  [ ($"type", VStr $"image"); ($"attachment_id", VStr (attachment_id i));
    ($"variant_id", VStr (variant_id i)); ($"mime_type", VStr (mime_type i));
    ($"width", VInt (width i)); ($"height", VInt (height i));
    ($"size_bytes", VInt (size_bytes i)); ($"original_width", VInt (original_width i));
    ($"original_height", VInt (original_height i)); ($"name", VStr (i_name i));
    ($"turn_id", of_optional_str (i_turn_id i)) ]
  ++ match i_path i with Some p => [($"path", VStr p)] | None => [] end.

Definition caption (i : ImageReference) : pystr :=
  let '(location, source) := match i_path i with
    | Some ((_ :: _) as p) => (p, $"path")
    | _ => (attachment_id i, $"attachment ID")
    end in
  $"[Image " ++ location ++ $": " ++ i_name i ++ $"; original "
  ++ z_str (original_width i) ++ $"x" ++ z_str (original_height i) ++ $"; sent "
  ++ z_str (width i) ++ $"x" ++ z_str (height i) ++ $", " ++ z_str (size_bytes i)
  ++ $" bytes. For unreadable detail use view_image with this " ++ source
  ++ $" and a region in original, orientation-corrected pixels; original availability depends on the image cache.]".

(** ** Outcomes *)

Record ToolOutcome := {
  status : ToolOutcomeStatus;
  summary : option pystr;
  content : option pystr;
  stdout : pystr;
  stderr : pystr;
  diff : option ToolDiff;
  diagnostics : list ToolDiagnostic;
  exit_code : option Z;
  duration_seconds : option Z;
  truncation : option ToolTruncation;
  archive_reference : option ToolArchiveReference;
  metadata : pydict;
  error_kind : option ToolErrorKind;
  model_content : option pystr;
  retention_hint : ToolRetentionHint;
  images : list ImageReference;
}.

Definition success (o : ToolOutcome) : bool := bool_decide (status o = SUCCEEDED).

(** [ToolOutcome.__post_init__]; the images are references by their type. *)
Definition check_outcome (o : ToolOutcome) : result ToolOutcome :=
  if match duration_seconds o with Some d => d <? 0 | None => false end
  then Raise (ValueError $"duration_seconds cannot be negative")
  else if success o && bool_decide (is_Some (error_kind o))
  then Raise (ValueError $"A successful ToolOutcome cannot have an error_kind")
  else if bool_decide (is_Some (truncation o)) && negb (bool_decide (is_Some (model_content o)))
  then Raise (ValueError $"truncation requires an explicit model_content projection")
  else Ok o.

(** The constructor with the defaults of the remaining fields. *)
Definition plain_outcome (s : ToolOutcomeStatus) (summary content : option pystr)
    (metadata : pydict) (k : option ToolErrorKind) : ToolOutcome :=
  {| status := s; summary := summary; content := content; stdout := []; stderr := [];
     diff := None; diagnostics := []; exit_code := None; duration_seconds := None;
     truncation := None; archive_reference := None; metadata := metadata; error_kind := k;
     model_content := None; retention_hint := default_hint; images := [] |}.

(** The truth value of an optional text, and of an optional diff. *)
Definition text_true (s : option pystr) : bool :=
  match s with Some (_ :: _) => true | _ => false end.
Definition diff_true (d : option ToolDiff) : bool := bool_decide (is_Some d).

Definition render_diagnostic (g : ToolDiagnostic) : pystr :=
  g_path g ++ $":" ++ z_str (line g) ++ $":" ++ z_str (character g) ++ $": " ++ g_severity g
  ++ match code g with Some c => $" [" ++ py_str c ++ $"]" | None => [] end
  ++ $": " ++ g_message g.

Definition rstrip (s : pystr) : pystr := rdrop_while is_space s.

Definition detailed_sections (include_diagnostics : bool) (o : ToolOutcome) : list pystr :=
  let defer := bool_decide (status o = TIMED_OUT) || bool_decide (status o = CANCELLED) in
  let content_first := text_true (content o) && negb defer in
  (if content_first then [or_empty (content o)]
   else if text_true (summary o)
           && negb (text_true (Some (stdout o)) || text_true (Some (stderr o)) || diff_true (diff o))
        then [or_empty (summary o)] else [])
  ++ (if text_true (Some (stdout o)) then [stdout o] else [])
  ++ (if text_true (Some (stderr o)) then [$"[stderr]" ++ 10 :: stderr o] else [])
  ++ (if text_true (content o) && defer then [or_empty (content o)] else [])
  ++ match diff o with
     | Some d => if text_true (Some (unified d)) then [unified d] else []
     | None => []
     end
  ++ (if include_diagnostics && negb (bool_decide (diagnostics o = []))
      then [join [10] ($"[diagnostics]" :: map render_diagnostic (diagnostics o))] else [])
  ++ match exit_code o with
     | Some c => if c =? 0 then [] else [$"[exit code: " ++ z_str c ++ $"]"]
     | None => []
     end.

Definition detailed_text (include_diagnostics : bool) (o : ToolOutcome) : pystr :=
  strip (join [10] (map rstrip (detailed_sections include_diagnostics o))).

Definition model_text (o : ToolOutcome) : pystr :=
  match model_content o with Some t => t | None => detailed_text true o end.

Definition ui_text (include_details : bool) (o : ToolOutcome) : pystr :=
  if negb include_details && text_true (summary o) then or_empty (summary o)
  else detailed_text include_details o.

Definition display_text (o : ToolOutcome) : pystr := ui_text true o.

Definition model_message_content (o : ToolOutcome) : pyval :=
  match images o with
  | [] => VStr (model_text o)
  | l => VList (VDict [($"type", VStr $"text"); ($"text", VStr (model_text o))]
                :: map (fun i => VDict (to_part i)) l)
  end.

Definition with_model_projection (text : pystr) (tr : option ToolTruncation)
    (ar : option ToolArchiveReference) (o : ToolOutcome) : result ToolOutcome :=
  check_outcome
  {| status := status o; summary := summary o; content := content o; stdout := stdout o;
     stderr := stderr o; diff := diff o; diagnostics := diagnostics o; exit_code := exit_code o;
     duration_seconds := duration_seconds o; truncation := tr;
     archive_reference := match ar with Some _ => ar | None => archive_reference o end;
     metadata := metadata o; error_kind := error_kind o; model_content := Some text;
     retention_hint := retention_hint o; images := images o |}.

Definition with_metadata (values : pydict) (o : ToolOutcome) : result ToolOutcome :=
  check_outcome
  {| status := status o; summary := summary o; content := content o; stdout := stdout o;
     stderr := stderr o; diff := diff o; diagnostics := diagnostics o; exit_code := exit_code o;
     duration_seconds := duration_seconds o; truncation := truncation o;
     archive_reference := archive_reference o;
     metadata := foldl (fun d kv => dset d kv.1 kv.2) (metadata o) values;
     error_kind := error_kind o; model_content := model_content o;
     retention_hint := retention_hint o; images := images o |}.

Definition with_duration (d : Z) (o : ToolOutcome) : result ToolOutcome :=
  check_outcome
  {| status := status o; summary := summary o; content := content o; stdout := stdout o;
     stderr := stderr o; diff := diff o; diagnostics := diagnostics o; exit_code := exit_code o;
     duration_seconds := Some (Z.max 0 d); truncation := truncation o;
     archive_reference := archive_reference o; metadata := metadata o;
     error_kind := error_kind o; model_content := model_content o;
     retention_hint := retention_hint o; images := images o |}.

(** [from_legacy]: an [Error:] text is a failure unless the caller says otherwise. *)
Definition inferred_legacy_failure (text : pystr) (success : option bool) : bool :=
  bool_decide (success = None) && startswith text $"Error:".

Definition from_legacy (text : pystr) (success : option bool) (kind : option ToolErrorKind)
    : result ToolOutcome :=
  if inferred_legacy_failure text success then
    check_outcome (plain_outcome FAILED (Some $"Tool execution failed")
      (Some ($"Tool execution failed (phase=execute, error_type=LegacyErrorResult, details=unstructured_tool_error)."
             ++ 10 :: 10 :: text))
      [($"failure_phase", VStr $"execute"); ($"error_type", VStr $"LegacyErrorResult");
       ($"error_detail_state", VStr $"unstructured_tool_error")]
      (Some (default KExecution kind)))
  else
    let s := if default true success then SUCCEEDED
             else match kind with
                  | Some KDenied => DENIED
                  | Some KInterrupted => CANCELLED
                  | _ => FAILED
                  end in
    check_outcome (plain_outcome s None (Some text) [] kind).

(** ** Theorems *)

(** What [__post_init__] enforces. *)
Definition outcome_valid (o : ToolOutcome) : Prop :=
  (forall d, duration_seconds o = Some d -> 0 <= d) /\
  (success o = true -> error_kind o = None) /\
  (is_Some (truncation o) -> is_Some (model_content o)).

Lemma check_outcome_spec o r :
  check_outcome o = Ok r <-> r = o /\ outcome_valid o.
Proof.
  unfold check_outcome, outcome_valid. split.
  - intros H0. repeat case_match; simplify_eq; (split; [done|]); zbool;
      split_and!; intros; simplify_eq; zbool; try lia; try done;
      repeat match goal with
      | H : _ && _ = false |- _ => apply andb_false_iff in H as [H|H]
      | H : negb _ = false |- _ => apply negb_false_iff in H
      | H : bool_decide _ = false |- _ => apply bool_decide_eq_false in H
      | H : bool_decide _ = true |- _ => apply bool_decide_eq_true in H
      end; try congruence; try done; by destruct (error_kind _); [exfalso; eauto|].
  - intros (-> & Hd & Hk & Ht).
    replace (match duration_seconds o with Some d => d <? 0 | None => false end) with false
      by (destruct (duration_seconds o) as [d|]; [specialize (Hd _ eq_refl)|done];
          symmetry; apply Z.ltb_ge; lia).
    replace (success o && bool_decide (is_Some (error_kind o))) with false
      by (destruct (success o); [rewrite Hk by done|]; done).
    destruct (truncation o); [|done]. by destruct (Ht ltac:(eauto)) as [? ->].
Qed.

Lemma check_outcome_ok o : outcome_valid o -> check_outcome o = Ok o.
Proof. intros. by apply check_outcome_spec. Qed.

(** The text kept for the model never changes what the interface shows.
    Projecting a valid outcome succeeds, the model then sees exactly the
    projected text, and every interface text, diagnostic and status stays as it
    was; durations and metadata leave both texts alone. *)
Theorem projections_independent o text tr ar details :
  outcome_valid o ->
  exists o', with_model_projection text tr ar o = Ok o' /\ outcome_valid o' /\
    model_text o' = text /\ ui_text details o' = ui_text details o /\
    status o' = status o /\ metadata o' = metadata o /\
    (forall d, exists o2, with_duration d o' = Ok o2 /\ outcome_valid o2 /\
       model_text o2 = text /\ ui_text details o2 = ui_text details o) /\
    (forall values, exists o2, with_metadata values o' = Ok o2 /\ outcome_valid o2 /\
       model_text o2 = text /\ ui_text details o2 = ui_text details o).
Proof.
  intros (Hd & Hk & Ht). unfold with_model_projection.
  set (o' := {| status := status o |}).
  assert (Hv : outcome_valid o') by (split_and!; [exact Hd|exact Hk|by eexists]).
  exists o'. rewrite check_outcome_ok by done. split_and!; try done.
  - intros d. unfold with_duration. set (o2 := {| status := status o' |}).
    assert (Hv2 : outcome_valid o2).
    { split_and!; [intros ? [= <-]; lia|exact Hk|by eexists]. }
    exists o2. by rewrite check_outcome_ok.
  - intros values. unfold with_metadata. set (o2 := {| status := status o' |}).
    assert (Hv2 : outcome_valid o2) by (split_and!; [exact Hd|exact Hk|by eexists]).
    exists o2. by rewrite check_outcome_ok.
Qed.

Lemma projections_independent_witness :
  let o := plain_outcome FAILED (Some $"boom") None [] (Some KExecution) in
  outcome_valid o /\
  exists o', with_model_projection $"cut" None None o = Ok o' /\
    model_text o' = $"cut" /\ ui_text true o' = $"boom".
Proof.
  intros o. assert (Hv : outcome_valid o) by (split_and!; [done|done|intros [? [=]]]).
  split; [exact Hv|].
  destruct (projections_independent o $"cut" None None true Hv) as (o' & H1 & _ & H2 & H3 & _).
  exists o'. split; [exact H1|]. split; [exact H2|]. rewrite H3. by vm_compute.
Defined.

Lemma plain_outcome_valid s summary content metadata kind :
  (s = SUCCEEDED -> kind = None) -> outcome_valid (plain_outcome s summary content metadata kind).
Proof.
  intros H. split_and!; [done| |by intros [? [=]]].
  intros Hs. apply bool_decide_eq_true in Hs. auto.
Qed.

(** The legacy boundary: only a success that names an error kind is refused. *)
Lemma from_legacy_ok text succ kind :
  (default true succ = true -> kind = None \/ inferred_legacy_failure text succ = true) ->
  exists o, from_legacy text succ kind = Ok o /\ outcome_valid o /\
    success o = (default true succ && negb (inferred_legacy_failure text succ)).
Proof.
  intros H. unfold from_legacy. destruct (inferred_legacy_failure text succ) eqn:E.
  - assert (Hv := plain_outcome_valid FAILED (Some $"Tool execution failed")).
    rewrite check_outcome_ok by (by apply Hv). eexists. split_and!; [done|by apply Hv|].
    by rewrite andb_false_r.
  - destruct (default true succ) eqn:Es.
    + destruct (H eq_refl) as [->|[=]]. rewrite check_outcome_ok by (by apply plain_outcome_valid).
      eexists. split_and!; [done|by apply plain_outcome_valid|done].
    + rewrite check_outcome_ok by (apply plain_outcome_valid; by destruct kind as [[]|]).
      eexists. split_and!; [done|apply plain_outcome_valid; by destruct kind as [[]|]|].
      by destruct kind as [[]|].
Qed.
