(* ===== verification/ToolFacts.v ===== *)
(** * Facts of a tool's result (domain/agent/tool_outcome_validation.py)

    What a tool, a plugin or an observer hands to the executor is checked,
    bounded and copied before it becomes part of the session: metadata within a
    budget of nodes and bytes, texts that can be encoded, failure facts in a
    fixed vocabulary.  Secondary failures are aggregated by a collector of
    bounded size.

    Values are trees, so the search for cycles has no counterpart; a copy of a
    value is the value.  Values are compared up to the order of keys.  The
    field types of an outcome, which the code tests, are those of
    [ToolOutcome]; a durations is an integer, so it is finite.  The lock of the
    collector covers each operation. *)

From S2P Require Import Prelude PyValue TextBuffer Models Hooks ToolOutcome.

(** ** Limits and vocabularies *)

Definition POST_EFFECT_FAILURE_LIMIT : Z := 8.
Definition POST_EFFECT_FAILURE_COUNT_LIMIT : Z := 1000000.
Definition METADATA_MAX_DEPTH : Z := 32.
Definition METADATA_MAX_CONTAINER_ITEMS : Z := 8192.
Definition METADATA_MAX_NODES : Z := 16384.
Definition METADATA_MAX_INT_BITS : Z := 256.
Definition METADATA_MAX_STRING_BYTES : Z := 1048576.
Definition METADATA_MAX_TOTAL_STRING_BYTES : Z := 2097152.
Definition STRUCTURED_FACT_MAX_STRING_BYTES : Z := 65536.
Definition STRUCTURED_FACT_MAX_TOTAL_STRING_BYTES : Z := 2097152.
Definition TOOL_DIAGNOSTIC_LIMIT : Z := 512.

Definition FAILURE_FACT_KEYS : list pystr :=
  [$"failure_phase"; $"error_type"; $"effect_state"; $"completion_state"; $"retry_safety"].
Definition RUNTIME_METADATA_KEYS : list pystr :=
  FAILURE_FACT_KEYS ++ [$"post_effect_failures"; $"reported_effect_state"].
Definition REPORTED_EFFECT_STATES : list pystr :=
  [$"not_started"; $"started"; $"completed"; $"unknown"; $"server_reported_failure"].
Definition VALID_TRUNCATION_STRATEGIES : list pystr := [$"head"; $"tail"; $"head_tail"].

(** ** Exceptions *)

Definition InvalidAfterToolPrimaryOutcomeTransition : exn := OtherError $"InvalidAfterToolPrimaryOutcomeTransition".
Definition InvalidToolResultProjection : exn := OtherError $"InvalidToolResultProjection".
Definition InvalidToolOutcomeProtocol : exn := OtherError $"InvalidToolOutcomeProtocol".
Definition InvalidContextContributionResult : exn := OtherError $"InvalidContextContributionResult".

(** [type(error).__name__]. *)
Definition type_name (e : exn) : pystr :=
  match e with
  | ValueError _ => $"ValueError" | TypeError _ => $"TypeError" | KeyError _ => $"KeyError"
  | AttributeError _ => $"AttributeError" | OSError _ => $"OSError" | OtherError n => n
  end.

(** [isinstance(error, Exception)]: the exits and interrupts are not. *)
Definition is_exception (e : exn) : bool :=
  match e with
  | OtherError n => negb (bool_decide (n ∈ [$"KeyboardInterrupt"; $"SystemExit"; $"GeneratorExit"; $"BaseException"]))
  | _ => true
  end.

Definition is_keyboard_interrupt (e : exn) : bool := bool_decide (type_name e = $"KeyboardInterrupt").

(** ** Safe names *)

Definition is_alnum_ascii (c : Z) : bool :=
  ((48 <=? c) && (c <=? 57)) || ((65 <=? c) && (c <=? 90)) || ((97 <=? c) && (c <=? 122)).

Definition safe_length (s : pystr) : bool := (0 <? len s) && (len s <=? 64).

(** [_safe_failure_phase]. *)
Definition safe_failure_phase (phase : pystr) : pystr :=
  if safe_length phase && forallb (fun c => is_alnum_ascii c || bool_decide (c ∈ [46; 95; 45; 58])) phase
  then phase else $"post_effect".

(** [_safe_failure_error_type]: letters and digits, with underscores between;
    not only underscores. *)
Definition safe_failure_error_type (error_type : pystr) : pystr :=
  let bare := filter (fun c => c <> 95) error_type in
  if safe_length error_type && negb (bool_decide (bare = [])) && forallb is_alnum_ascii bare
  then error_type else $"Exception".

Definition safe_exception_type (e : exn) : pystr := safe_failure_error_type (type_name e).

(** ** The failure collector *)

Definition fact : Type := pystr * pystr.

(** The order of pairs of texts. *)
Definition fact_leb (f g : fact) : bool :=
  if decide (f.1 = g.1) then text_leb f.2 g.2 else text_leb f.1 g.1.

Record Collector := { limit : Z; counts : gmap fact Z; overflow_count : Z }.

Definition new_collector (l : Z) : Collector := {| limit := Z.max 2 l; counts := ∅; overflow_count := 0 |}.

(** [sorted(counts.items())]; keys are distinct. *)
Definition sorted_counts (m : gmap fact Z) : list (fact * Z) :=
  stable_sort (fun p q => fact_leb p.1 q.1) (map_to_list m).

(** [max(counts)]. *)
Definition largest (m : gmap fact Z) : option fact := fst <$> last (sorted_counts m).

Definition saturate (n : Z) : Z := Z.min n POST_EFFECT_FAILURE_COUNT_LIMIT.
Definition safe_count (n : Z) : Z := if 0 <? n then saturate n else 1.

(** [record]. *)
Definition record_fact (f : fact) (n : Z) (c : Collector) : Collector :=
  match counts c !! f with
  | Some current =>
    {| limit := limit c; counts := <[f := saturate (current + n)]> (counts c); overflow_count := overflow_count c |}
  | None =>
    if Z.of_nat (size (counts c)) <? limit c - 1
    then {| limit := limit c; counts := <[f := n]> (counts c); overflow_count := overflow_count c |}
    else
      match largest (counts c) with
      | None => c
      | Some g =>
        if negb (fact_leb g f)
        then {| limit := limit c; counts := <[f := n]> (delete g (counts c));
                overflow_count := saturate (overflow_count c + default 0 (counts c !! g)) |}
        else {| limit := limit c; counts := counts c; overflow_count := saturate (overflow_count c + n) |}
      end
  end.

Definition record (phase error_type : pystr) (count : Z) (c : Collector) : Collector :=
  record_fact (safe_failure_phase phase, safe_failure_error_type error_type) (safe_count count) c.

Definition omit (count : Z) (c : Collector) : Collector :=
  if count <? 1 then c
  else {| limit := limit c; counts := counts c; overflow_count := saturate (overflow_count c + saturate count) |}.

Definition snapshot (c : Collector) : list (fact * Z) :=
  sorted_counts (counts c)
  ++ (if overflow_count c =? 0 then [] else [(($"post_effect", $"AdditionalFailuresOmitted"), overflow_count c)]).

Definition clear (c : Collector) : Collector := {| limit := limit c; counts := ∅; overflow_count := 0 |}.

(** [drain]: the facts, and the emptied collector. *)
Definition drain (c : Collector) : list (fact * Z) * Collector := (snapshot c, clear c).

Definition has_failures (c : Collector) : bool :=
  negb (bool_decide (counts c = ∅)) || negb (overflow_count c =? 0).

(** ** Bounded copies of values *)

Record SnapshotBudget := { nodes : Z; string_bytes : Z }.
Definition fresh_budget : SnapshotBudget := {| nodes := 0; string_bytes := 0 |}.

Definition add_node (b : SnapshotBudget) : result SnapshotBudget :=
  if METADATA_MAX_NODES <? nodes b + 1 then Raise InvalidToolOutcomeProtocol
  else Ok {| nodes := nodes b + 1; string_bytes := string_bytes b |}.

(** [value.encode("utf-8", errors="strict")] succeeds. *)
Definition encodable (s : pystr) : bool := forallb (fun c => negb ((55296 <=? c) && (c <=? 57343))) s.

Definition add_string (s : pystr) (b : SnapshotBudget) : result SnapshotBudget :=
  if (METADATA_MAX_STRING_BYTES <? len s) || negb (encodable s) || (METADATA_MAX_STRING_BYTES <? utf8_len s)
     || (METADATA_MAX_TOTAL_STRING_BYTES <? string_bytes b + utf8_len s)
  then Raise InvalidToolOutcomeProtocol
  else Ok {| nodes := nodes b; string_bytes := string_bytes b + utf8_len s |}.

(** [value.bit_length() <= 256]. *)
Definition int_fits (n : Z) : bool := Z.abs n <? 2 ^ METADATA_MAX_INT_BITS.

(** Entering a value at a depth. *)
Definition enter (depth : Z) (b : SnapshotBudget) : result SnapshotBudget :=
  if METADATA_MAX_DEPTH <? depth then Raise InvalidToolOutcomeProtocol else add_node b.

Definition snapshot_text (depth : Z) (s : pystr) (b : SnapshotBudget) : result SnapshotBudget :=
  b ← enter depth b; add_string s b.

(** The items of a container, up to the limit. *)
Definition snapshot_items {A} (f : A -> SnapshotBudget -> result SnapshotBudget) :=
  fix items (i : Z) (l : list A) (b : SnapshotBudget) : result SnapshotBudget :=
    match l with
    | [] => Ok b
    | x :: l =>
      if METADATA_MAX_CONTAINER_ITEMS <=? i then Raise InvalidToolOutcomeProtocol
      else b ← f x b; items (i + 1) l b
    end.

(** [_snapshot_json_value]: the budget that is used up, or its refusal. *)
Fixpoint snapshot_json_value (depth : Z) (v : pyval) (b : SnapshotBudget) : result SnapshotBudget :=
  b ← enter depth b;
  match v with
  | VStr s => add_string s b
  | VNone | VBool _ => Ok b
  | VInt n => if int_fits n then Ok b else Raise InvalidToolOutcomeProtocol
  | VFloat r => if bool_decide (r ∈ [$"nan"; $"inf"; $"-inf"]) then Raise InvalidToolOutcomeProtocol else Ok b
  | VList l => snapshot_items (fun x b => snapshot_json_value (depth + 1) x b) 0 l b
  | VDict d =>
    snapshot_items (fun (kv : pystr * pyval) b =>
      b ← snapshot_text (depth + 1) kv.1 b; snapshot_json_value (depth + 1) kv.2 b) 0 d b
  end.

Definition json_safe (v : pyval) : bool := is_ok (snapshot_json_value 0 v fresh_budget).

(** Equality of values up to the order of keys. *)
Definition same_value (v w : pyval) : bool := bool_decide (sort_keys v = sort_keys w).

(** [_tool_call_signature]: fails unless the identifier, the name and the
    arguments can be copied; two signatures are compared by [same_call]. *)
Definition tool_call_signature (tc : ToolCall) : result ToolCall :=
  if json_safe (VStr (tc_id tc)) && json_safe (VStr (tc_name tc)) && json_safe (VDict (arguments tc))
  then Ok tc else Raise InvalidContextContributionResult.

Definition same_call (a b : ToolCall) : bool :=
  bool_decide (tc_id a = tc_id b) && bool_decide (tc_name a = tc_name b)
  && same_value (VDict (arguments a)) (VDict (arguments b)).

(** ** Validation of outcomes *)

(** [_optional_int], of a value that is there. *)
Definition int_ok (nonnegative : bool) (n : Z) : bool := int_fits n && (negb nonnegative || (0 <=? n)).
Definition optional_int (nonnegative : bool) (n : option Z) : bool :=
  match n with Some n => int_ok nonnegative n | None => true end.

Definition status_consistent (o : ToolOutcome) : bool :=
  Bool.eqb (bool_decide (status o = SUCCEEDED)) (bool_decide (error_kind o = None))
  && (negb (bool_decide (status o = DENIED)) || bool_decide (error_kind o = Some KDenied))
  && (negb (bool_decide (status o = CANCELLED)) || bool_decide (error_kind o = Some KInterrupted)).

Definition valid_diff (d : ToolDiff) : bool :=
  forallb (optional_int true) [additions d; deletions d; original_chars d].

Definition valid_diagnostic (g : ToolDiagnostic) : bool :=
  int_ok true (line g) && int_ok true (character g)
  && match code g with
     | None | Some (VStr _) => true
     | Some (VInt n) => int_fits n
     | Some _ => false
     end
  && optional_int true (end_line g) && optional_int true (end_character g).

Definition valid_truncation (model : option pystr) (t : ToolTruncation) : bool :=
  forallb (int_ok true) [t_original_chars t; t_original_lines t; t_retained_chars t; t_retained_lines t]
  && (t_retained_chars t <=? t_original_chars t) && (t_retained_lines t <=? t_original_lines t)
  && bool_decide (t_strategy t ∈ VALID_TRUNCATION_STRATEGIES) && bool_decide (is_Some model).

Definition valid_archive (a : ToolArchiveReference) : bool :=
  negb (bool_decide (a_path a = [])) && optional_int true (a_size_bytes a).

Definition valid_retention (h : ToolRetentionHint) : bool :=
  match anchor_line h with Some n => int_fits n && (0 <? n) | None => true end.

Definition holds {A} (f : A -> bool) (x : option A) : bool := match x with Some a => f a | None => true end.

Definition valid_fields (o : ToolOutcome) : bool :=
  status_consistent o && optional_int false (exit_code o)
  && match duration_seconds o with Some d => 0 <=? d | None => true end
  && (len (diagnostics o) <=? TOOL_DIAGNOSTIC_LIMIT)
  && holds valid_diff (diff o) && forallb valid_diagnostic (diagnostics o)
  && holds (valid_truncation (model_content o)) (truncation o)
  && holds valid_archive (archive_reference o) && valid_retention (retention_hint o).

(** The texts of any length, and the ones that are bounded. *)
Definition unbounded_texts (o : ToolOutcome) : list pystr :=
  option_list (content o) ++ [stdout o; stderr o] ++ option_list (model_content o)
  ++ option_list (unified <$> diff o).

Definition diagnostic_texts (g : ToolDiagnostic) : list pystr :=
  [g_path g; g_message g; g_severity g]
  ++ match code g with Some (VStr s) => [s] | _ => [] end ++ option_list (source g).

Definition bounded_texts (o : ToolOutcome) : list pystr :=
  option_list (summary o) ++ option_list (d_path <$> diff o)
  ++ concat (map diagnostic_texts (diagnostics o))
  ++ option_list (t_strategy <$> truncation o)
  ++ match archive_reference o with
     | Some a => [a_path a; media_type a] ++ option_list (checksum_sha256 a)
     | None => []
     end.

(** [_validate_fact_text]. *)
Definition validate_fact_text (s : pystr) : result Z :=
  if (STRUCTURED_FACT_MAX_STRING_BYTES <? len s) || negb (encodable s)
     || (STRUCTURED_FACT_MAX_STRING_BYTES <? utf8_len s)
  then Raise InvalidToolOutcomeProtocol
  else Ok (utf8_len s).

Fixpoint validate_fact_texts (total : Z) (l : list pystr) : result () :=
  match l with
  | [] => Ok ()
  | s :: l =>
    n ← validate_fact_text s;
    if STRUCTURED_FACT_MAX_TOTAL_STRING_BYTES <? total + n then Raise InvalidToolOutcomeProtocol
    else validate_fact_texts (total + n) l
  end.

(** [_check_tool_outcome_protocol]. *)
Definition check_tool_outcome_protocol (o : ToolOutcome) : result () :=
  _ ← raise_if (negb (valid_fields o)) InvalidToolOutcomeProtocol;
  _ ← raise_if (negb (forallb encodable (unbounded_texts o))) InvalidToolOutcomeProtocol;
  _ ← validate_fact_texts 0 (bounded_texts o);
  raise_if (negb (json_safe (VDict (metadata o)))) InvalidToolOutcomeProtocol.

(** [_normalize_model_projection]. *)
Definition normalize_model_projection (text : pystr) : result pystr :=
  if encodable text then Ok text else Raise InvalidToolResultProjection.

(** The outcome with other metadata: [replace(outcome, metadata=...)]. *)
Definition replace_metadata (m : pydict) (o : ToolOutcome) : result ToolOutcome :=
  check_outcome
  {| status := status o; summary := summary o; content := content o; stdout := stdout o;
     stderr := stderr o; diff := diff o; diagnostics := diagnostics o; exit_code := exit_code o;
     duration_seconds := duration_seconds o; truncation := truncation o;
     archive_reference := archive_reference o; metadata := m; error_kind := error_kind o;
     model_content := model_content o; retention_hint := retention_hint o; images := images o |}.

Definition replace_model_content (text : pystr) (o : ToolOutcome) : result ToolOutcome :=
  with_model_projection text (truncation o) None o.

(** [_normalize_tool_outcome]. *)
Definition normalize_tool_outcome (o : ToolOutcome) : result ToolOutcome :=
  _ ← check_tool_outcome_protocol o;
  text ← normalize_model_projection (model_text o);
  match replace_model_content text o with Ok o' => Ok o' | Raise _ => Raise InvalidToolOutcomeProtocol end.

(** ** Failure facts *)

Definition is_runtime_key (k : pystr) : bool := bool_decide (k ∈ RUNTIME_METADATA_KEYS).
Definition without_runtime_keys (m : pydict) : pydict :=
  filter (fun kv : pystr * pyval => is_runtime_key kv.1 = false) m.

(** [_safe_metadata_fact]. *)
Definition safe_metadata_fact (m : pydict) (key : pystr) : option pystr :=
  match dget_none m key with
  | VStr s =>
    let allowed :=
      if decide (key = $"error_type") then bool_decide (safe_failure_error_type s = s)
      else if decide (key = $"effect_state") then bool_decide (s ∈ [$"not_started"; $"started"; $"completed"; $"unknown"])
      else if decide (key = $"completion_state") then bool_decide (s ∈ [$"not_started"; $"completed"; $"uncertain"])
      else if decide (key = $"retry_safety") then bool_decide (s ∈ [$"safe_to_retry"; $"do_not_retry_automatically"])
      else bool_decide (safe_failure_phase s = s) in
    if allowed then Some s else None
  | _ => None
  end.

Record Facts := { phase : pystr; error_type : pystr; effect_state : pystr; completion_state : pystr; retry_safety : pystr }.

Definition default_facts (f : Facts) : list (pystr * pystr) :=
  [ ($"failure_phase", safe_failure_phase (phase f)); ($"error_type", safe_failure_error_type (error_type f));
    ($"effect_state", safe_failure_phase (effect_state f));
    ($"completion_state", safe_failure_phase (completion_state f));
    ($"retry_safety", safe_failure_phase (retry_safety f)) ].

Definition fill_facts (replace_existing : bool) (m : pydict) (l : list (pystr * pystr)) : pydict :=
  foldl (fun m kv => if replace_existing || bool_decide (safe_metadata_fact m kv.1 = None)
                     then dset m kv.1 (VStr kv.2) else m) m l.

(** [_with_failure_facts]. *)
Definition with_failure_facts (f : Facts) (replace_existing : bool) (o : ToolOutcome) : result ToolOutcome :=
  if success o then
    if negb replace_existing || negb (existsb (fun kv => is_runtime_key kv.1) (metadata o)) then Ok o
    else replace_metadata (without_runtime_keys (metadata o)) o
  else
    replace_metadata
      (fill_facts replace_existing (if replace_existing then without_runtime_keys (metadata o) else metadata o)
         (default_facts f)) o.

(** The facts of a call that was stopped before its effects. *)
Definition not_started (ph et retry : pystr) : Facts :=
  {| phase := ph; error_type := et; effect_state := $"not_started"; completion_state := $"not_started";
     retry_safety := retry |}.
Definition SAFE : pystr := $"safe_to_retry".
Definition UNSAFE : pystr := $"do_not_retry_automatically".

(** The constructor with a model projection equal to the content. *)
Definition told_outcome (s : ToolOutcomeStatus) (summary : pystr) (message : pystr) (metadata : pydict)
    (k : ToolErrorKind) : result ToolOutcome :=
  with_model_projection message None None (plain_outcome s (Some summary) (Some message) metadata (Some k)).

(** [_cancelled_before_outcome]. *)
Definition cancelled_before_outcome (tool_name ph message : pystr) : result ToolOutcome :=
  o ← told_outcome CANCELLED (tool_name ++ $" interrupted before execution") message [] KInterrupted;
  with_failure_facts (not_started ph $"ToolExecutionCancelled" SAFE) true o.

Definition status_value (s : ToolOutcomeStatus) : pystr :=
  match s with
  | SUCCEEDED => $"succeeded" | FAILED => $"failed" | DENIED => $"denied" | CANCELLED => $"cancelled"
  | TIMED_OUT => $"timed_out"
  end.

(** [metadata[key]] in a text; a missing key raises. *)
Definition fact_text (m : pydict) (k : pystr) : result pystr :=
  match dget m k with Some v => Ok (py_str v) | None => Raise (KeyError k) end.

(** [_with_canonical_failure_projection]. *)
Definition with_canonical_failure_projection (o : ToolOutcome) : result ToolOutcome :=
  if success o then Ok o else
  a ← fact_text (metadata o) $"failure_phase";
  b ← fact_text (metadata o) $"error_type";
  c ← fact_text (metadata o) $"effect_state";
  d ← fact_text (metadata o) $"completion_state";
  e ← fact_text (metadata o) $"retry_safety";
  let line := $"status=" ++ status_value (status o) ++ $" phase=" ++ a ++ $" error_type=" ++ b
              ++ $" effect_state=" ++ c ++ $" completion_state=" ++ d ++ $" retry_safety=" ++ e in
  let marked := $"[tool outcome facts]" ++ 10 :: line in
  let text := match model_text o with [] => marked | t => rstrip t ++ 10 :: 10 :: marked end in
  with_model_projection text (truncation o) (archive_reference o) o.

(** What a tool returns. *)
Inductive RawResult := RawOutcome (o : ToolOutcome) | RawText (s : pystr) | RawOther.

(** [_coerce_returned_outcome]. *)
Definition coerce_returned_outcome (raw : RawResult) (execution_seconds : Z) : result ToolOutcome :=
  o ← match raw with
      | RawOutcome o => Ok o
      | RawText s => o ← from_legacy s None None; with_duration execution_seconds o
      | RawOther => Raise InvalidToolOutcomeProtocol
      end;
  normalized ← normalize_tool_outcome o;
  let denied := bool_decide (status normalized = DENIED) in
  let reported := match dget_none (metadata normalized) $"effect_state" with
                  | VStr s => if bool_decide (s ∈ REPORTED_EFFECT_STATES) then Some s else None
                  | _ => None
                  end in
  projected ← with_failure_facts
    {| phase := or_empty (opt_or (safe_metadata_fact (metadata normalized) $"failure_phase") (Some $"execute"));
       error_type := or_empty (opt_or (safe_metadata_fact (metadata normalized) $"error_type") (Some $"ToolReportedFailure"));
       effect_state := if denied then $"not_started" else $"unknown";
       completion_state := if denied then $"not_started" else $"uncertain";
       retry_safety := UNSAFE |} true normalized;
  match success normalized, reported with
  | false, Some s => replace_metadata (dset (metadata projected) $"reported_effect_state" (VStr s)) projected
  | _, _ => Ok projected
  end.

(** [_completed_result_failure]. *)
Definition completed_result_failure (e : exn) : result ToolOutcome :=
  let protocol_failure := bool_decide (type_name e = $"InvalidToolOutcomeProtocol") in
  let ph := if protocol_failure then $"result_protocol" else $"result_projection" in
  let et := safe_exception_type e in
  let message :=
    $"The tool returned, but its result " ++ (if protocol_failure then $"violated the result protocol" else $"could not be projected")
    ++ $" (phase=" ++ ph ++ $", error_type=" ++ et
    ++ $", effect_state=unknown, completion_state=uncertain, retry_safety=do_not_retry_automatically). Do not retry solely because the result "
    ++ (if protocol_failure then $"protocol validation" else $"projection") ++ $" failed." in
  told_outcome FAILED $"Tool execution failed" message
    [($"failure_phase", VStr ph); ($"error_type", VStr et); ($"effect_state", VStr $"unknown");
     ($"completion_state", VStr $"uncertain"); ($"retry_safety", VStr UNSAFE)] KInternal.

(** ** Transforms after a call *)

#[export] Instance hint_dec : EqDecision ToolRetentionHint.
Proof. assert (EqDecision ToolRetentionStrategy) by solve_decision. solve_decision. Defined.
#[export] Instance tool_diff_dec : EqDecision ToolDiff.
Proof. solve_decision. Defined.
#[export] Instance tool_diagnostic_dec : EqDecision ToolDiagnostic.
Proof. solve_decision. Defined.
#[export] Instance image_dec : EqDecision ImageReference.
Proof. solve_decision. Defined.

(** The fields of a context that a transform may not change. *)
Record ContextFacts := {
  hook_point : HookPoint; agent_id : option pystr; session_generation : option Z;
  session_id : option pystr; turn_id : option pystr; trace_id : option pystr; round_index : option Z;
}.
#[export] Instance context_facts_dec : EqDecision ContextFacts.
Proof. solve_decision. Defined.

(** What a transform leaves in the context: the outcome it was given, by
    identity, another one, or something else; [None] is a value of another
    type. *)
Inductive TransformedOutcome := OriginalOutcome | NewOutcome (o : ToolOutcome) | NotAnOutcome.

Record TransformedContext := {
  t_facts : ContextFacts;
  t_tool_call : option ToolCall;
  t_result : option pystr;
  t_outcome : TransformedOutcome;
}.

(** The fields of an outcome that a transform may not change. *)
Definition same_fixed_fields (a b : ToolOutcome) : bool :=
  bool_decide (images a = images b) && bool_decide (status a = status b) && bool_decide (summary a = summary b)
  && bool_decide (content a = content b) && bool_decide (stdout a = stdout b) && bool_decide (stderr a = stderr b)
  && bool_decide (diff a = diff b) && bool_decide (exit_code a = exit_code b)
  && bool_decide (duration_seconds a = duration_seconds b) && bool_decide (error_kind a = error_kind b)
  && bool_decide (retention_hint a = retention_hint b).

Definition keeps_metadata (m m' : pydict) : bool :=
  forallb (fun kv => match dget m' kv.1 with Some v => same_value v kv.2 | None => false end) m.
Definition adds_runtime_keys (m m' : pydict) : bool :=
  existsb (fun kv => negb (dmem m kv.1) && is_runtime_key kv.1) m'.

Definition option_result {A} (x : option A) (e : exn) : result A := match x with Some a => Ok a | None => Raise e end.

(** [_accepted_after_transform]. *)
Definition accepted_after_transform (facts : ContextFacts) (tc : ToolCall) (original : ToolOutcome)
    (transformed : option TransformedContext) : result ToolOutcome :=
  let refused := InvalidAfterToolPrimaryOutcomeTransition in
  t ← option_result transformed refused;
  _ ← raise_if (negb (bool_decide (t_facts t = facts))) refused;
  tc' ← option_result (t_tool_call t) InvalidContextContributionResult;
  tc' ← tool_call_signature tc';
  tc ← tool_call_signature tc;
  _ ← raise_if (negb (same_call tc' tc)) refused;
  candidate ← match t_outcome t with
              | OriginalOutcome => Ok original
              | NewOutcome o => normalize_tool_outcome o
              | NotAnOutcome => Raise InvalidToolResultProjection
              end;
  text ← option_result (t_result t) InvalidToolResultProjection;
  text ← normalize_model_projection text;
  candidate ← (if decide (text = model_text candidate) then Ok candidate
               else with_model_projection text (truncation candidate) (archive_reference candidate) candidate);
  _ ← raise_if (negb (same_fixed_fields candidate original)
                || negb (bool_decide (take (length (diagnostics original)) (diagnostics candidate) = diagnostics original)))
        refused;
  _ ← raise_if (negb (keeps_metadata (metadata original) (metadata candidate))
                || adds_runtime_keys (metadata original) (metadata candidate)) refused;
  Ok candidate.

(** ** Secondary failures *)

(** A diagnostic of an observer, or [None] for something else. *)
Fixpoint record_diagnostics (p : HookPoint) (default_phase : pystr) (l : list (option HookDiagnostic)) (c : Collector)
    : result () * Collector :=
  match l with
  | [] => (Ok (), c)
  | d :: l =>
    match d with
    | Some g =>
      match d_error_type g with
      | Some ((_ :: _) as et) =>
        if bool_decide (Hooks.hook_point g = p) && bool_decide (hook_kind g = OBSERVER)
        then record_diagnostics p default_phase l (record (or_empty (opt_or (d_phase g) (Some default_phase))) et 1 c)
        else (Raise (TypeError $"observer returned an invalid diagnostic"), c)
      | _ => (Raise (TypeError $"observer returned an invalid diagnostic"), c)
      end
    | None => (Raise (TypeError $"observer returned an invalid diagnostic"), c)
    end
  end.

(** [_record_hook_diagnostics]; [None] is not a tuple. *)
Definition record_hook_diagnostics (p : HookPoint) (default_phase : pystr) (diagnostics : option (list (option HookDiagnostic)))
    (c : Collector) : result () * Collector :=
  match diagnostics with
  | None => (Raise (TypeError $"observer diagnostics must be a tuple"), c)
  | Some l =>
    let retained := slice_to (POST_EFFECT_FAILURE_LIMIT - 1) l in
    match record_diagnostics p default_phase retained c with
    | (Ok _, c') => (Ok (), omit (len l - len retained) c')
    | (Raise e, c') => (Raise e, c')
    end
  end.

Definition failure_line (f : fact * Z) : pystr :=
  $"phase=" ++ f.1.1 ++ $" error_type=" ++ f.1.2 ++ $" count=" ++ z_str f.2.
Definition failure_value (f : fact * Z) : pyval :=
  VDict [($"phase", VStr f.1.1); ($"error_type", VStr f.1.2); ($"count", VInt f.2)].

(** [_with_post_effect_failures]. *)
Definition with_post_effect_failures (c : Collector) (o : ToolOutcome) : result ToolOutcome :=
  match snapshot c with
  | [] => Ok o
  | facts =>
    let diagnostics := join [10]
      ($"[post-effect diagnostics]"
       :: $"The tool outcome above remains authoritative. Do not retry the tool solely because secondary processing failed."
       :: map failure_line facts) in
    let text := match model_text o with [] => diagnostics | t => rstrip t ++ 10 :: 10 :: diagnostics end in
    o' ← with_model_projection text (truncation o) (archive_reference o) o;
    replace_metadata (dset (metadata o) $"post_effect_failures" (VList (map failure_value facts))) o'
  end.

(** ** Lemmas: the order of facts *)

Definition fact_lt (f g : fact) : Prop := fact_leb f g = true /\ f <> g.

Lemma fact_leb_total f g : fact_leb f g = false -> fact_leb g f = true.
Proof.
  unfold fact_leb. destruct (decide (f.1 = g.1)) as [->|Hne]; [rewrite decide_True by done|rewrite decide_False by congruence];
    apply text_leb_total.
Qed.

Lemma fact_leb_antisym f g : fact_leb f g = true -> fact_leb g f = true -> f = g.
Proof.
  unfold fact_leb. destruct f as [a b], g as [c d]; cbn. destruct (decide (a = c)) as [->|Hne].
  - rewrite decide_True by done. intros. f_equal. by apply text_leb_antisym.
  - rewrite decide_False by congruence. intros. exfalso. by apply Hne, text_leb_antisym.
Qed.

Lemma fact_leb_trans f g h : fact_leb f g = true -> fact_leb g h = true -> fact_leb f h = true.
Proof.
  unfold fact_leb. destruct f as [a b], g as [c d], h as [x y]; cbn. intros H1 H2.
  repeat case_decide; subst; try done; try (by eapply text_leb_trans).
  exfalso. by match goal with N : ?p <> ?q |- _ => apply N, text_leb_antisym end.
Qed.

Lemma fact_lt_trans f g h : fact_lt f g -> fact_lt g h -> fact_lt f h.
Proof.
  intros [H1 N1] [H2 N2]. split; [by eapply fact_leb_trans|]. intros ->. apply N1. by apply fact_leb_antisym.
Qed.

Lemma fact_lt_irrefl f g : fact_lt f g -> fact_lt g f -> False.
Proof. intros [H1 N1] [H2 _]. by apply N1, fact_leb_antisym. Qed.

Lemma fact_trichotomy f g : f = g \/ fact_lt f g \/ fact_lt g f.
Proof.
  destruct (decide (f = g)) as [->|Hne]; [by left|right]. destruct (fact_leb f g) eqn:E; [left; by split|right].
  split; [by apply fact_leb_total|congruence].
Qed.

Lemma fact_leb_lt f g : fact_lt f g -> fact_leb g f = false.
Proof. intros H. destruct (fact_leb g f) eqn:E; [|done]. destruct H as [H N]. by destruct N; apply fact_leb_antisym. Qed.

(** Lists in strictly increasing order of facts. *)
Definition ascending (l : list (fact * Z)) : Prop := StronglySorted (fun p q => fact_lt p.1 q.1) l.

Lemma ascending_app a b :
  ascending (a ++ b) <-> ascending a /\ ascending b /\ Forall (fun p => Forall (fun q => fact_lt p.1 q.1) b) a.
Proof.
  unfold ascending. induction a as [|x a IH]; cbn.
  { split; [intros; split_and!; [constructor|done|constructor]|by intros (_ & ? & _)]. }
  split.
  - intros H. apply StronglySorted_inv in H as [H Hx]. apply IH in H as (Ha & Hb & Hab).
    apply Forall_app in Hx as [Hx Hx']. split_and!; [by constructor|done|by constructor].
  - intros (Ha & Hb & Hab). apply StronglySorted_inv in Ha as [Ha Hx]. apply Forall_cons in Hab as [Hxb Hab].
    constructor; [by apply IH|]. by apply Forall_app.
Qed.

Lemma ascending_NoDup l : ascending l -> NoDup l.*1.
Proof.
  induction 1 as [|x l Hl IH Hx]; [constructor|]. cbn. constructor; [|done].
  rewrite list_elem_of_fmap. intros (y & Hy & Hin). rewrite Forall_forall in Hx. destruct (Hx y Hin) as [_ Hne]. congruence.
Qed.

Lemma sorted_counts_ascending l : ascending l -> sorted_counts (list_to_map l) = l.
Proof.
  intros Hl. unfold sorted_counts. pose proof (ascending_NoDup _ Hl) as Hnd.
  eapply (StronglySorted_unique_strong (fun p q => fact_leb p.1 q.1 = true)).
  - intros p q Hp Hq H1 H2. pose proof (fact_leb_antisym _ _ H1 H2) as Heq.
    rewrite stable_sort_Permutation, map_to_list_to_map in Hp by done.
    apply list_elem_of_lookup in Hp as [i Hi], Hq as [j Hj]. destruct p as [f n], q as [g m]; cbn in *; subst.
    assert (i = j) as -> by (eapply NoDup_lookup; [exact Hnd|rewrite list_lookup_fmap, Hi; done|rewrite list_lookup_fmap, Hj; done]).
    congruence.
  - apply stable_sort_sorted; [intros p q r; apply fact_leb_trans|intros p q; apply fact_leb_total].
  - clear Hnd. induction Hl as [|p l Hl IH Hp]; constructor; [done|]. eapply Forall_impl; [exact Hp|]. by intros q [? _].
  - by rewrite stable_sort_Permutation, map_to_list_to_map.
Qed.

(** ** The reference: every fact with its total *)

Fixpoint add_total (f : fact) (n : Z) (l : list (fact * Z)) : list (fact * Z) :=
  match l with
  | [] => [(f, n)]
  | (g, m) :: l' =>
    if decide (f = g) then (g, m + n) :: l'
    else if fact_leb f g then (f, n) :: l else (g, m) :: add_total f n l'
  end.

Definition totals (rs : list (fact * Z)) : list (fact * Z) := foldl (fun l r => add_total r.1 r.2 l) [] rs.
Definition sum_counts (l : list (fact * Z)) : Z := foldr (fun p n => p.2 + n) 0 l.
Definition saturated (p : fact * Z) : fact * Z := (p.1, saturate p.2).

(** The first facts with their saturated totals, and one entry for the rest. *)
Definition projection (k : nat) (all : list (fact * Z)) : list (fact * Z) :=
  map saturated (take k all)
  ++ (if sum_counts (drop k all) =? 0 then []
      else [(($"post_effect", $"AdditionalFailuresOmitted"), saturate (sum_counts (drop k all)))]).

(** Where a fact goes. *)
Lemma add_total_split f n l : ascending l ->
  exists a b, l = a ++ b /\ Forall (fun p => fact_lt p.1 f) a /\
    ((exists m b', b = (f, m) :: b' /\ add_total f n l = a ++ (f, m + n) :: b')
     \/ (Forall (fun p => fact_lt f p.1) b /\ add_total f n l = a ++ (f, n) :: b)).
Proof.
  induction 1 as [|[g m] l Hl (a & b & -> & Ha & IH) Hx].
  { exists [], []. split_and!; [done|done|]. right. by split. }
  cbn [add_total]. destruct (decide (f = g)) as [<-|Hne].
  { exists [], ((f, m) :: a ++ b). split_and!; [done|done|]. left. by exists m, (a ++ b). }
  destruct (fact_leb f g) eqn:E.
  - exists [], ((g, m) :: a ++ b). split_and!; [done|done|]. right. split; [|done].
    constructor; [by split|]. eapply Forall_impl; [exact Hx|]. cbn. intros p Hp. by apply (fact_lt_trans _ g).
  - exists ((g, m) :: a), b. split_and!; [done|constructor; [split; [by apply fact_leb_total|cbn; congruence]|done]|].
    destruct IH as [(m' & b' & -> & ->)|[Hb ->]]; [left; by exists m', b'|right; by split].
Qed.

Lemma add_total_ascending f n l : ascending l -> ascending (add_total f n l).
Proof.
  intros Hl. destruct (add_total_split f n l Hl) as (a & b & -> & Ha & Hcase).
  apply ascending_app in Hl as (Hla & Hlb & Hab).
  destruct Hcase as [(m & b' & -> & ->)|[Hb ->]]; apply ascending_app; split_and!; try done.
  - apply StronglySorted_inv in Hlb as [Hb' Hf]. by constructor.
  - eapply Forall_impl; [exact Hab|]. cbn. intros p Hp. by apply Forall_cons in Hp as [? ?]; constructor.
  - by constructor.
  - rewrite Forall_forall in Ha, Hab |- *. intros p Hp. constructor; [by apply Ha|by apply Hab].
Qed.

(** The order of recordings does not matter. *)
Definition increase (n : Z) (v : option Z) : option Z := Some (default 0 v + n).

Lemma list_to_map_middle (a b : list (fact * Z)) f n : f ∉ (a ++ b).*1 -> NoDup (a ++ b).*1 ->
  (list_to_map (a ++ (f, n) :: b) : gmap fact Z) = <[f := n]> (list_to_map (a ++ b)).
Proof.
  intros Hf Hnd. rewrite <-list_to_map_cons. assert (Permutation (a ++ (f, n) :: b) ((f, n) :: a ++ b)) as Hp by (by rewrite Permutation_middle).
  apply list_to_map_proper; [|done]. rewrite Hp. by constructor.
Qed.

Lemma ascending_middle a b f n : ascending (a ++ (f, n) :: b) -> (f ∉ (a ++ b).*1) /\ NoDup (a ++ b).*1.
Proof.
  intros H%ascending_NoDup. rewrite fmap_app, fmap_cons, <-Permutation_middle, <-fmap_app in H. by apply NoDup_cons in H.
Qed.

Lemma insert_as_alter (m : gmap fact Z) f n : <[f := n]> m = partial_alter (fun _ => Some n) f m.
Proof. done. Qed.

Lemma add_total_map f n l : ascending l ->
  (list_to_map (add_total f n l) : gmap fact Z) = partial_alter (increase n) f (list_to_map l).
Proof.
  intros Hl. pose proof (add_total_ascending f n l Hl) as Hl'.
  destruct (add_total_split f n l Hl) as (a & b & -> & Ha & [(m & b' & -> & E)|[Hb E]]); rewrite E in *.
  - destruct (ascending_middle _ _ _ _ Hl) as [Hf Hnd]. rewrite !list_to_map_middle by done.
    rewrite !insert_as_alter. rewrite partial_alter_partial_alter_eq. apply partial_alter_ext. by intros x _.
  - destruct (ascending_middle _ _ _ _ Hl') as [Hf Hnd]. rewrite list_to_map_middle by done.
    rewrite !insert_as_alter. apply partial_alter_ext. intros x Hx. rewrite not_elem_of_list_to_map_1 in Hx by done. by subst x.
Qed.

Lemma totals_ascending rs : ascending (totals rs).
Proof.
  unfold totals. assert (ascending []) as H by constructor. revert H. generalize (@nil (fact * Z)).
  induction rs as [|r rs IH]; intros l Hl; [done|]. cbn. by apply IH, add_total_ascending.
Qed.

Lemma add_total_comm f n g m l : ascending l -> add_total f n (add_total g m l) = add_total g m (add_total f n l).
Proof.
  intros Hl. rewrite <-(sorted_counts_ascending (add_total f n (add_total g m l))),
    <-(sorted_counts_ascending (add_total g m (add_total f n l))) by auto using add_total_ascending.
  f_equal. rewrite !add_total_map by auto using add_total_ascending.
  destruct (decide (f = g)) as [->|Hne]; [|by rewrite partial_alter_partial_alter_ne].
  rewrite !partial_alter_partial_alter_eq. apply partial_alter_ext. intros x _. cbn. unfold increase. cbn. f_equal. lia.
Qed.

Lemma totals_Permutation rs rs' : Permutation rs rs' -> totals rs = totals rs'.
Proof.
  intros Hp. unfold totals. assert (ascending []) as H by constructor. revert H. generalize (@nil (fact * Z)).
  induction Hp as [|r rs rs' _ IH|r1 r2 rs|rs1 rs2 rs3 _ IH1 _ IH2]; intros l Hl; cbn.
  - done.
  - by apply IH, add_total_ascending.
  - by rewrite add_total_comm.
  - by rewrite IH1, IH2.
Qed.

(** ** Lemmas: the collector keeps the reference's projection *)

Lemma saturate_saturate a b : 0 <= a -> 0 <= b -> saturate (saturate a + b) = saturate (a + b).
Proof. unfold saturate, POST_EFFECT_FAILURE_COUNT_LIMIT. lia. Qed.

Lemma sum_counts_app a b : sum_counts (a ++ b) = sum_counts a + sum_counts b.
Proof. unfold sum_counts. induction a as [|x a IH]; cbn; [done|]. cbn in IH. lia. Qed.

Lemma sum_counts_nonneg l : Forall (fun p => 1 <= p.2) l -> 0 <= sum_counts l.
Proof. unfold sum_counts. induction 1; cbn in *; lia. Qed.

Lemma saturated_keys l : (map saturated l).*1 = l.*1.
Proof. rewrite <-list_fmap_compose. by apply list_fmap_ext. Qed.

Lemma ascending_saturated l : ascending l -> ascending (map saturated l).
Proof.
  induction 1 as [|p l Hl IH Hp]; cbn; constructor; [done|]. by apply Forall_map.
Qed.

(** The collector holds the projection of the totals [l]. *)
Definition represents (k : nat) (l : list (fact * Z)) (c : Collector) : Prop :=
  counts c = list_to_map (map saturated (take k l)) /\ overflow_count c = saturate (sum_counts (drop k l))
  /\ limit c = Z.of_nat k + 1.

Lemma ascending_take k l : ascending l -> ascending (take k l).
Proof. intros H. rewrite <-(take_drop k l) in H. by apply ascending_app in H as (? & _ & _). Qed.

Lemma snapshot_represents k l c : ascending l -> Forall (fun p => 1 <= p.2) l -> represents k l c ->
  snapshot c = projection k l.
Proof.
  intros Hl Hpos (Hc & Ho & _). unfold snapshot, projection. rewrite Hc, Ho, sorted_counts_ascending by
    by apply ascending_saturated, ascending_take.
  f_equal. assert (0 <= sum_counts (drop k l)).
  { by apply sum_counts_nonneg, Forall_drop. }
  unfold saturate, POST_EFFECT_FAILURE_COUNT_LIMIT. repeat case_match; zbool; first [done|lia].
Qed.

(** The middle of a take. *)
Lemma take_middle {A} k (a b : list A) x : (length a < k)%nat -> take k (a ++ x :: b) = a ++ x :: take (k - length a - 1) b.
Proof.
  intros H. rewrite take_app, take_ge by lia. f_equal. destruct (k - length a)%nat eqn:E; [lia|]. cbn.
  do 2 f_equal. lia.
Qed.

Lemma drop_middle {A} k (a b : list A) x : (length a < k)%nat -> drop k (a ++ x :: b) = drop (k - length a - 1) b.
Proof.
  intros H. rewrite drop_app, drop_ge by lia. cbn. destruct (k - length a)%nat eqn:E; [lia|]. cbn. f_equal. lia.
Qed.

Lemma insert_middle (a b : list (fact * Z)) f n m :
  ascending (a ++ (f, m) :: b) ->
  <[f := saturate n]> (list_to_map (map saturated (a ++ (f, m) :: b)) : gmap fact Z)
  = list_to_map (map saturated (a ++ (f, n) :: b)).
Proof.
  intros H. assert (Hn : ascending (a ++ (f, n) :: b)).
  { apply ascending_app in H as (Ha & Hb & Hab). apply ascending_app. apply StronglySorted_inv in Hb as [Hb Hf].
    split_and!; [done|by constructor|]. eapply Forall_impl; [exact Hab|]. cbn. intros p [? ?]%Forall_cons. by constructor. }
  apply ascending_saturated in H, Hn. rewrite !map_app in *. cbn [map] in *.
  change (saturated (f, m)) with (f, saturate m) in *. change (saturated (f, n)) with (f, saturate n) in *.
  pose proof (ascending_middle _ _ _ _ H) as [Hf Hnd]. rewrite !list_to_map_middle by done. by rewrite insert_insert_eq.
Qed.

Lemma middle_lookup (a b : list (fact * Z)) f m : ascending (a ++ (f, m) :: b) ->
  (list_to_map (map saturated (a ++ (f, m) :: b)) : gmap fact Z) !! f = Some (saturate m).
Proof.
  intros H%ascending_saturated. rewrite map_app in *. cbn [map] in *. change (saturated (f, m)) with (f, saturate m) in *.
  pose proof (ascending_middle _ _ _ _ H) as [Hf Hnd]. rewrite list_to_map_middle by done. apply lookup_insert_eq.
Qed.

Lemma below_absent (l : list (fact * Z)) f : Forall (fun p => fact_lt p.1 f) l -> f ∉ l.*1.
Proof.
  intros Hl (p & -> & Hp)%list_elem_of_fmap. rewrite Forall_forall in Hl. destruct (Hl p Hp) as [_ Hne]. done.
Qed.

Lemma absent_lookup (l : list (fact * Z)) f : f ∉ l.*1 -> (list_to_map (map saturated l) : gmap fact Z) !! f = None.
Proof. intros H. apply not_elem_of_list_to_map_1. by rewrite saturated_keys. Qed.

Lemma largest_last l g m : ascending (l ++ [(g, m)]) ->
  largest (list_to_map (map saturated (l ++ [(g, m)]))) = Some g.
Proof.
  intros H. unfold largest. rewrite sorted_counts_ascending by by apply ascending_saturated.
  rewrite map_app. cbn [map]. by rewrite last_snoc.
Qed.

(** A fact after all those kept is only counted. *)
Lemma record_beyond l f n c : ascending l -> l <> [] -> Forall (fun p => fact_lt p.1 f) l ->
  counts c = list_to_map (map saturated l) -> limit c = Z.of_nat (length l) + 1 ->
  record_fact f n c = {| limit := limit c; counts := counts c; overflow_count := saturate (overflow_count c + n) |}.
Proof.
  intros Hl Hne Hf Hc Hlim. unfold record_fact. rewrite Hc, absent_lookup by by apply below_absent.
  rewrite map_size_list_to_map by by apply ascending_NoDup, ascending_saturated. rewrite length_map.
  destruct (Z.ltb_spec (Z.of_nat (length l)) (limit c - 1)) as [Hs|_]; [lia|].
  destruct (exists_last Hne) as (l' & [g m] & ->). rewrite largest_last by done.
  apply Forall_app in Hf as [_ [Hg _]%Forall_cons]. destruct Hg as [Hg _]. cbn in Hg. by rewrite Hg.
Qed.

(** A new fact while there is room. *)
Lemma record_room a b f n c : ascending (a ++ (f, n) :: b) -> saturate n = n ->
  counts c = list_to_map (map saturated (a ++ b)) -> Z.of_nat (length (a ++ b)) < limit c - 1 ->
  record_fact f n c = {| limit := limit c; counts := list_to_map (map saturated (a ++ (f, n) :: b));
                         overflow_count := overflow_count c |}.
Proof.
  intros Hl Hsat Hc Hlim. pose proof (ascending_middle _ _ _ _ Hl) as [Hf Hnd].
  unfold record_fact. rewrite Hc, absent_lookup by done.
  rewrite map_size_list_to_map by by rewrite saturated_keys. rewrite length_map.
  destruct (Z.ltb_spec (Z.of_nat (length (a ++ b))) (limit c - 1)) as [_|Hs]; [|lia]. f_equal.
  rewrite !(map_app saturated). cbn [map]. change (saturated (f, n)) with (f, saturate n). rewrite Hsat.
  rewrite list_to_map_middle; [done| |]; rewrite <-map_app, saturated_keys; done.
Qed.

(** A new fact that takes the place of the largest one. *)
Lemma record_evict a b f g n m c : ascending (a ++ (f, n) :: b ++ [(g, m)]) -> saturate n = n ->
  counts c = list_to_map (map saturated (a ++ b ++ [(g, m)])) -> limit c = Z.of_nat (length (a ++ b)) + 2 ->
  record_fact f n c = {| limit := limit c; counts := list_to_map (map saturated (a ++ (f, n) :: b));
                         overflow_count := saturate (overflow_count c + saturate m) |}.
Proof.
  intros Hl Hsat Hc Hlim. pose proof (ascending_middle _ _ _ _ Hl) as [Hf Hnd].
  assert (Hold : ascending ((a ++ b) ++ (g, m) :: [])).
  { apply ascending_app in Hl as (Ha & Hb & Hab). rewrite <-app_assoc. apply ascending_app.
    apply StronglySorted_inv in Hb as [Hb _]. split_and!; [done..|].
    eapply Forall_impl; [exact Hab|]. cbn. by intros p [_ ?]%Forall_cons. }
  assert (Hfg : fact_leb g f = false).
  { apply fact_leb_lt. apply ascending_app in Hl as (_ & Hb & _). apply StronglySorted_inv in Hb as [_ Hb].
    by apply Forall_app in Hb as [_ [? _]%Forall_cons]. }
  unfold record_fact. rewrite Hc, absent_lookup by done.
  rewrite map_size_list_to_map by by rewrite saturated_keys. rewrite length_map.
  destruct (Z.ltb_spec (Z.of_nat (length (a ++ b ++ [(g, m)]))) (limit c - 1)) as [Hs|_].
  { rewrite app_assoc, length_app in Hs. cbn in Hs. lia. }
  rewrite !(app_assoc a b). rewrite largest_last by done. rewrite Hfg. rewrite middle_lookup by done. cbn [negb default]. f_equal.
  pose proof (ascending_saturated _ Hold) as Hold'. rewrite !(map_app saturated) in *. cbn [map] in *.
  change (saturated (g, m)) with (g, saturate m) in *. change (saturated (f, n)) with (f, saturate n). rewrite Hsat.
  apply ascending_middle in Hold' as [Hg Hndg].
  rewrite (list_to_map_middle _ [] g) by done. rewrite app_nil_r in *.
  rewrite delete_insert_id by by apply not_elem_of_list_to_map_1.
  rewrite list_to_map_middle; [done| |done]. rewrite <-(map_app saturated), saturated_keys.
  rewrite app_assoc, fmap_app in Hf. set_solver.
Qed.

Lemma record_represents k l c f n : (1 <= k)%nat -> ascending l -> Forall (fun p => 1 <= p.2) l -> 1 <= n ->
  saturate n = n -> represents k l c -> represents k (add_total f n l) (record_fact f n c).
Proof.
  intros Hk Hl Hpos Hn Hsat (Hc & Ho & Hlim). pose proof (add_total_ascending f n l Hl) as Hl'.
  pose proof (sum_counts_nonneg _ (Forall_drop _ k _ Hpos)) as Hsum.
  destruct (add_total_split f n l Hl) as (a & b & -> & Ha & Hcase).
  destruct (decide (k <= length a)%nat) as [Hbeyond|Hin].
  { (* not among the facts kept *)
    assert (Htake : forall r, take k (a ++ r) = take k a) by (intros r; by apply take_app_le).
    assert (Hdrop : forall r, drop k (a ++ r) = drop k a ++ r) by (intros r; by rewrite drop_app_le).
    rewrite Htake in Hc. rewrite Hdrop in Ho, Hsum.
    rewrite (record_beyond (take k a)); [|by apply ascending_take; apply ascending_app in Hl as (? & _ & _)| |by apply Forall_take|done|by rewrite length_take, Nat.min_l].
    2: { intros Hnil. apply (f_equal length) in Hnil. rewrite length_take in Hnil. cbn in Hnil. lia. }
    unfold represents; cbn [counts overflow_count limit]. rewrite Ho.
    destruct Hcase as [(m & b' & -> & ->)|[_ ->]]; rewrite Htake, Hdrop; (split_and!; [done| |done]);
      rewrite saturate_saturate by lia; f_equal; rewrite !sum_counts_app; unfold sum_counts; cbn; lia. }
  destruct Hcase as [(m & b' & -> & E)|[Hb E]]; rewrite E in *; clear E.
  - (* counted already *)
    rewrite take_middle, drop_middle in * by lia. unfold represents, record_fact.
    rewrite take_middle, drop_middle by lia.
    pose proof (ascending_take k _ Hl) as Hlt. rewrite take_middle in Hlt by lia.
    rewrite Hc, middle_lookup by done. cbn [counts overflow_count limit]. split_and!; [|done|done].
    apply Forall_app in Hpos as [_ [Hm _]%Forall_cons]. cbn in Hm.
    rewrite saturate_saturate by lia. by apply insert_middle.
  - unfold represents. rewrite take_middle, drop_middle by lia.
    destruct (decide (length (a ++ b) < k)%nat) as [Hroom|Hfull].
    + rewrite take_ge in Hc by lia. rewrite drop_ge in Ho by lia. rewrite length_app in Hroom.
      rewrite (record_room a b f n c) by (try done; rewrite length_app; lia). cbn [counts overflow_count limit].
      rewrite take_ge, drop_ge by lia. by split_and!.
    + rewrite length_app in Hfull.
      assert (exists b0 g m, take (k - length a) b = b0 ++ [(g, m)]) as (b0 & g & m & Hb0).
      { destruct (exists_last (l := take (k - length a) b)) as (b0 & [g m] & ->); [|by eauto].
        intros Hnil. apply (f_equal length) in Hnil. rewrite length_take in Hnil. cbn in Hnil. lia. }
      assert (Hlen : length b0 = (k - length a - 1)%nat).
      { apply (f_equal length) in Hb0. rewrite length_take, length_app in Hb0. cbn in Hb0. lia. }
      rewrite take_app, take_ge, Hb0 in Hc by lia.
      assert (Hbs : b = b0 ++ (g, m) :: drop k (a ++ b)).
      { rewrite drop_app, drop_ge by lia. cbn. rewrite <-(take_drop (k - length a) b) at 1. by rewrite Hb0, <-app_assoc. }
      rewrite (record_evict a b0 f g n m c); [| |done|done|rewrite length_app; lia].
      * cbn [counts overflow_count limit].
        assert (Hk1 : take (k - length a - 1) b = b0).
        { rewrite Hbs at 1. by rewrite take_app_le, take_ge by lia. }
        assert (Hd : drop (k - length a - 1) b = (g, m) :: drop k (a ++ b)).
        { rewrite Hbs at 1. by rewrite drop_app_ge, Hlen, Nat.sub_diag by lia. }
        rewrite Hk1, Hd, Ho. split_and!; [done| |done].
        assert (1 <= m).
        { apply Forall_app in Hpos as [_ Hpos]. rewrite Hbs in Hpos. by apply Forall_app in Hpos as [_ [? _]%Forall_cons]. }
        unfold saturate, POST_EFFECT_FAILURE_COUNT_LIMIT, sum_counts in *. cbn. lia.
      * assert (E : a ++ (f, n) :: b = (a ++ (f, n) :: b0 ++ [(g, m)]) ++ drop k (a ++ b)).
        { rewrite Hbs at 1. by rewrite <-!app_assoc; cbn; rewrite <-!app_assoc. }
        rewrite E in Hl'. by apply ascending_app in Hl' as (? & _ & _).
Qed.

Definition safe_recording (r : pystr * pystr * Z) : fact * Z :=
  ((safe_failure_phase r.1.1, safe_failure_error_type r.1.2), safe_count r.2).
Definition record_all (rs : list (pystr * pystr * Z)) (c : Collector) : Collector :=
  foldl (fun c r => record r.1.1 r.1.2 r.2 c) c rs.

Lemma safe_count_range n : 1 <= safe_count n <= POST_EFFECT_FAILURE_COUNT_LIMIT.
Proof. unfold safe_count, saturate, POST_EFFECT_FAILURE_COUNT_LIMIT. destruct (Z.ltb_spec 0 n); lia. Qed.

Lemma add_total_positive f n l : 1 <= n -> Forall (fun p => 1 <= p.2) l -> Forall (fun p => 1 <= p.2) (add_total f n l).
Proof.
  intros Hn. induction 1 as [|[g m] l Hm Hl IH]; cbn in *; [by constructor|].
  case_decide; [constructor; cbn; [lia|done]|]. case_match; by repeat constructor.
Qed.

Lemma record_all_represents k rs : forall l c, (1 <= k)%nat -> ascending l -> Forall (fun p => 1 <= p.2) l ->
  represents k l c ->
  let l' := foldl (fun l r => add_total r.1 r.2 l) l (map safe_recording rs) in
  represents k l' (record_all rs c) /\ ascending l' /\ Forall (fun p => 1 <= p.2) l'.
Proof.
  induction rs as [|r rs IH]; intros l c Hk Hl Hpos Hr; [by split_and!|]. cbn.
  pose proof (safe_count_range r.2) as Hn. apply IH; [done|by apply add_total_ascending|apply add_total_positive; [lia|done]|].
  apply record_represents; [done..|lia| |done]. unfold saturate. lia.
Qed.

Lemma projection_bounded k l : Forall (fun p => 1 <= p.2) l ->
  (length (projection k l) <= k + 1)%nat
  /\ Forall (fun p => 1 <= p.2 <= POST_EFFECT_FAILURE_COUNT_LIMIT) (projection k l).
Proof.
  intros Hpos. unfold projection. split.
  - rewrite length_app, length_map, length_take. case_match; cbn; lia.
  - apply Forall_app. split.
    + apply Forall_map. eapply Forall_impl; [by apply Forall_take|]. cbn. unfold saturate, POST_EFFECT_FAILURE_COUNT_LIMIT. lia.
    + pose proof (sum_counts_nonneg _ (Forall_drop _ k _ Hpos)). case_match; [constructor|]. zbool. repeat constructor; cbn;
        unfold saturate, POST_EFFECT_FAILURE_COUNT_LIMIT; lia.
Qed.

(** The collector of secondary failures is a bounded projection of all that
    was recorded, whatever the order: it keeps the smallest facts with their
    exact totals up to a million, counts all the others in one entry, and never
    has more entries than its limit. *)
Theorem collector_is_projection limit rs :
  let k := Z.to_nat (Z.max 2 limit - 1) in
  let facts := snapshot (record_all rs (new_collector limit)) in
  facts = projection k (totals (map safe_recording rs))
  /\ (forall rs', Permutation rs rs' -> snapshot (record_all rs' (new_collector limit)) = facts)
  /\ len facts <= Z.max 2 limit
  /\ Forall (fun p => 1 <= p.2 <= POST_EFFECT_FAILURE_COUNT_LIMIT) facts.
Proof.
  intros k. assert (Hall : forall rs, snapshot (record_all rs (new_collector limit)) = projection k (totals (map safe_recording rs))
    /\ Forall (fun p => 1 <= p.2) (totals (map safe_recording rs))).
  { intros rs'. destruct (record_all_represents k rs' [] (new_collector limit)) as (Hr & Ha & Hp).
    - unfold k. lia.
    - constructor.
    - constructor.
    - split_and!; [by rewrite take_nil|by rewrite drop_nil|cbn; unfold k; lia].
    - split; [by apply snapshot_represents|done]. }
  intros facts. destruct (Hall rs) as [Hf Hpos]. destruct (projection_bounded k _ Hpos) as [Hlen Hb].
  unfold facts. rewrite Hf. split_and!; [done| | |done].
  - intros rs' Hp. rewrite (proj1 (Hall rs')). f_equal. by apply totals_Permutation, Permutation_map, Permutation_sym.
  - unfold len. unfold k in *. lia.
Qed.

(** ** Lemmas: what a copy may contain *)

Definition sum_of {A} (f : A -> Z) (l : list A) : Z := foldr (fun x n => f x + n) 0 l.
Definition max_of {A} (f : A -> Z) (l : list A) : Z := foldr (fun x n => Z.max (f x) n) 0 l.

Fixpoint value_nodes (v : pyval) : Z :=
  match v with
  | VList l => 1 + sum_of (fun x => value_nodes x) l
  | VDict d => 1 + sum_of (fun kv : pystr * pyval => 1 + value_nodes kv.2) d
  | _ => 1
  end.

Fixpoint value_bytes (v : pyval) : Z :=
  match v with
  | VStr s => utf8_len s
  | VList l => sum_of (fun x => value_bytes x) l
  | VDict d => sum_of (fun kv : pystr * pyval => utf8_len kv.1 + value_bytes kv.2) d
  | _ => 0
  end.

Fixpoint value_depth (v : pyval) : Z :=
  match v with
  | VList l => max_of (fun x => 1 + value_depth x) l
  | VDict d => max_of (fun kv : pystr * pyval => 1 + value_depth kv.2) d
  | _ => 0
  end.

Definition text_ok (s : pystr) : bool :=
  (len s <=? METADATA_MAX_STRING_BYTES) && encodable s && (utf8_len s <=? METADATA_MAX_STRING_BYTES).

(** Texts that can be encoded, numbers and containers of bounded size. *)
Fixpoint plain (v : pyval) : bool :=
  match v with
  | VNone | VBool _ => true
  | VInt n => int_fits n
  | VFloat r => negb (bool_decide (r ∈ [$"nan"; $"inf"; $"-inf"]))
  | VStr s => text_ok s
  | VList l => (len l <=? METADATA_MAX_CONTAINER_ITEMS) && forallb (fun x => plain x) l
  | VDict d => (len d <=? METADATA_MAX_CONTAINER_ITEMS) && forallb (fun kv : pystr * pyval => text_ok kv.1 && plain kv.2) d
  end.

Definition within (b : SnapshotBudget) : Prop :=
  nodes b <= METADATA_MAX_NODES /\ string_bytes b <= METADATA_MAX_TOTAL_STRING_BYTES.
Definition charge (n m : Z) (b : SnapshotBudget) : SnapshotBudget :=
  {| nodes := nodes b + n; string_bytes := string_bytes b + m |}.

(** A walk that accepts exactly what satisfies [ok], at a cost. *)
Definition metered (ok : Prop) (n m : Z) (f : SnapshotBudget -> result SnapshotBudget) : Prop :=
  0 <= n /\ 0 <= m /\ forall b b', within b -> f b = Ok b' <-> ok /\ within (charge n m b) /\ b' = charge n m b.

Lemma charge_charge n m n' m' b : charge n' m' (charge n m b) = charge (n + n') (m + m') b.
Proof. unfold charge. cbn. f_equal; lia. Qed.

Lemma charge_zero b : charge 0 0 b = b.
Proof. destruct b. unfold charge. cbn. f_equal; lia. Qed.

Lemma within_charge_le n m n' m' b : 0 <= n' -> 0 <= m' -> within (charge (n + n') (m + m') b) -> within (charge n m b).
Proof. unfold within, charge. cbn. lia. Qed.

Lemma metered_ret : metered True 0 0 (fun b => Ok b).
Proof.
  split_and!; [lia..|]. intros b b' Hb. rewrite charge_zero. split; [by intros [= ->]|]. by intros (_ & _ & ->).
Qed.

Lemma metered_bind ok n m f ok' n' m' g : metered ok n m f -> metered ok' n' m' g ->
  metered (ok /\ ok') (n + n') (m + m') (fun b => b ← f b; g b).
Proof.
  intros (Hn & Hm & Hf) (Hn' & Hm' & Hg). split_and!; [lia..|]. intros b b' Hb. split.
  - intros (b1 & H1 & H2)%bind_ok. apply Hf in H1 as (? & Hw & ->); [|done]. apply Hg in H2 as (? & Hw' & ->); [|done].
    rewrite charge_charge in *. done.
  - intros ((Ho & Ho') & Hw & ->). assert (Hw1 : within (charge n m b)) by by apply (within_charge_le n m n' m').
    rewrite (proj2 (Hf b (charge n m b) Hb)) by done. cbn. apply Hg; [done|]. by rewrite charge_charge.
Qed.

Lemma metered_conseq ok ok' n m n' m' f : metered ok n m f -> (ok <-> ok') -> n = n' -> m = m' -> metered ok' n' m' f.
Proof. intros (Hn & Hm & Hf) Hok <- <-. split_and!; [done..|]. intros b b' Hb. rewrite (Hf b b' Hb). tauto. Qed.

Lemma metered_fail n m e : 0 <= n -> 0 <= m -> metered False n m (fun _ => Raise e).
Proof. intros. split_and!; [done..|]. intros b b' _. split; [done|]. by intros [[] _]. Qed.

Lemma metered_enter depth : metered (depth <= METADATA_MAX_DEPTH) 1 0 (enter depth).
Proof.
  split_and!; [lia..|]. intros b b' [Hb1 Hb2]. unfold enter, add_node, within, charge in *. cbn.
  destruct (Z.ltb_spec METADATA_MAX_DEPTH depth); [split; [done|intros (? & _); lia]|].
  destruct (Z.ltb_spec METADATA_MAX_NODES (nodes b + 1)); [split; [done|intros (_ & ? & _); lia]|].
  rewrite Z.add_0_r. split; [intros [= <-]; split_and!; try lia; done|by intros (_ & _ & ->)].
Qed.

Lemma metered_string s : metered (text_ok s = true) 0 (utf8_len s) (add_string s).
Proof.
  pose proof (utf8_len_nonneg s). split_and!; [lia..|]. intros b b' [Hb1 Hb2]. unfold add_string, text_ok, within, charge. cbn.
  rewrite Z.add_0_r, !andb_true_iff, !Z.leb_le.
  destruct (_ || _) eqn:E.
  - split; [done|]. intros (((H1 & H2) & H3) & [_ H4] & _). exfalso.
    rewrite !orb_true_iff, !Z.ltb_lt, H2 in E. cbn in E. destruct E as [[[?|?]|?]|?]; try lia; done.
  - rewrite !orb_false_iff, !Z.ltb_ge, negb_false_iff in E. destruct E as [[[H1 H2] H3] H4].
    split; [intros [= <-]; by split_and!|by intros (_ & _ & ->)].
Qed.

Lemma metered_items {A} (f : A -> SnapshotBudget -> result SnapshotBudget) (ok : A -> Prop) n m l :
  Forall (fun x => metered (ok x) (n x) (m x) (f x)) l ->
  forall i, i <= METADATA_MAX_CONTAINER_ITEMS ->
  metered (i + len l <= METADATA_MAX_CONTAINER_ITEMS /\ Forall ok l) (sum_of n l) (sum_of m l) (snapshot_items f i l).
Proof.
  induction 1 as [|x l Hx _ IH]; intros i Hi; cbn [snapshot_items sum_of foldr].
  { eapply metered_conseq; [apply metered_ret| |done..]. rewrite len_nil. split; [intros _; split; [lia|constructor]|done]. }
  destruct (Z.leb_spec METADATA_MAX_CONTAINER_ITEMS i) as [Hge|Hlt].
  - destruct Hx as (Hn & Hm & _). destruct (IH i Hi) as (Hn' & Hm' & _).
    eapply metered_conseq; [apply (metered_fail (n x + sum_of n l) (m x + sum_of m l)); lia| |done..].
    rewrite len_cons. pose proof (len_nonneg l). split; [done|intros [? _]; lia].
  - eapply metered_conseq; [apply (metered_bind _ _ _ _ _ _ _ _ Hx (IH (i + 1) ltac:(lia)))| |done..].
    rewrite len_cons, Forall_cons. replace (i + 1 + len l) with (i + (1 + len l)) by lia. tauto.
Qed.

Lemma Forall_forallb {A} (p : A -> bool) l : Forall (fun x => p x = true) l <-> forallb p l = true.
Proof. induction l as [|x l IH]; cbn; [split; [done|constructor]|]. by rewrite Forall_cons, andb_true_iff, IH. Qed.

Lemma Forall_max_of {A} (f : A -> Z) k l : 0 <= k -> Forall (fun x => f x <= k) l <-> max_of f l <= k.
Proof. intros Hk. unfold max_of. induction l as [|x l IH]; cbn; [split; [lia|constructor]|]. rewrite Forall_cons, IH. lia. Qed.

Lemma Forall_and_iff {A} (P Q : A -> Prop) l : Forall (fun x => P x /\ Q x) l <-> Forall P l /\ Forall Q l.
Proof. rewrite Forall_and. done. Qed.

Lemma max_of_nonneg {A} (f : A -> Z) l : 0 <= max_of f l.
Proof. unfold max_of. induction l; cbn; lia. Qed.

Lemma value_depth_nonneg v : 0 <= value_depth v.
Proof. destruct v; cbn; try lia; apply max_of_nonneg. Qed.

Lemma metered_test (c : bool) e : metered (c = true) 0 0 (fun b => if c then Ok b else Raise e).
Proof.
  destruct c; [eapply metered_conseq; [apply metered_ret|done..]|].
  eapply metered_conseq; [apply (metered_fail 0 0 e)|done..]; done.
Qed.

Lemma metered_refuse (c : bool) e : metered (negb c = true) 0 0 (fun b => if c then Raise e else Ok b).
Proof.
  destruct c; [eapply metered_conseq; [apply (metered_fail 0 0 e)|done..]; done|].
  eapply metered_conseq; [apply metered_ret|done..].
Qed.

(** The depth of the deepest item. *)
Lemma items_depth {A} (f : A -> Z) depth l :
  depth <= METADATA_MAX_DEPTH /\ Forall (fun x => depth + 1 + f x <= METADATA_MAX_DEPTH) l
  <-> depth + max_of (fun x => 1 + f x) l <= METADATA_MAX_DEPTH.
Proof.
  pose proof (max_of_nonneg (fun x => 1 + f x) l). split.
  - intros [Hd Hl]. cut (max_of (fun x => 1 + f x) l <= METADATA_MAX_DEPTH - depth); [lia|].
    apply Forall_max_of; [lia|]. eapply Forall_impl; [exact Hl|]. cbn. lia.
  - intros Hm. split; [lia|]. assert (Hl : max_of (fun x => 1 + f x) l <= METADATA_MAX_DEPTH - depth) by lia.
    apply Forall_max_of in Hl; [|lia]. eapply Forall_impl; [exact Hl|]. cbn. lia.
Qed.

Lemma snapshot_metered v : forall depth,
  metered (plain v = true /\ depth + value_depth v <= METADATA_MAX_DEPTH) (value_nodes v) (value_bytes v)
    (snapshot_json_value depth v).
Proof.
  induction v as [| | | | |l IH|d IH] using pyval_nested_ind; intros depth;
    cbn [snapshot_json_value value_nodes value_bytes value_depth plain]; rewrite ?Z.add_0_r.
  1,2: eapply metered_conseq; [apply (metered_bind _ _ _ _ _ _ _ _ (metered_enter depth) metered_ret)|tauto|done..].
  - eapply metered_conseq; [apply (metered_bind _ _ _ _ _ _ _ _ (metered_enter depth) (metered_test _ _))|tauto|done..].
  - eapply metered_conseq; [apply (metered_bind _ _ _ _ _ _ _ _ (metered_enter depth) (metered_refuse _ _))|tauto|done..].
  - eapply metered_conseq; [apply (metered_bind _ _ _ _ _ _ _ _ (metered_enter depth) (metered_string s))|tauto|done|lia].
  - eapply metered_conseq; [apply (metered_bind _ _ _ _ _ _ _ _ (metered_enter depth)
      (metered_items _ _ (fun x => value_nodes x) (fun x => value_bytes x) l
        (Forall_impl _ _ _ IH (fun x Hx => Hx (depth + 1))) 0 ltac:(done)))| |done|done].
    rewrite Forall_and, Forall_forallb, andb_true_iff, Z.leb_le.
    rewrite <-(items_depth value_depth). tauto.
  - assert (Hd : Forall (fun kv : pystr * pyval =>
      metered (text_ok kv.1 && plain kv.2 = true /\ depth + 1 + value_depth kv.2 <= METADATA_MAX_DEPTH)
        (1 + value_nodes kv.2) (utf8_len kv.1 + value_bytes kv.2)
        (fun b => b ← snapshot_text (depth + 1) kv.1 b; snapshot_json_value (depth + 1) kv.2 b)) d).
    { eapply Forall_impl; [exact IH|]. intros [k x] Hx. specialize (Hx (depth + 1)). cbn [fst snd] in *.
      eapply metered_conseq; [apply (metered_bind _ _ _ _ _ _ _ _
        (metered_bind _ _ _ _ _ _ _ _ (metered_enter (depth + 1)) (metered_string k)) Hx)| |lia|lia].
      rewrite andb_true_iff. pose proof (value_depth_nonneg x). intuition lia. }
    eapply metered_conseq; [apply (metered_bind _ _ _ _ _ _ _ _ (metered_enter depth) (metered_items _ _ _ _ d Hd 0 ltac:(done)))| |done|done].
    rewrite Forall_and, Forall_forallb, andb_true_iff, Z.leb_le.
    rewrite <-(items_depth (fun kv : pystr * pyval => value_depth kv.2)). tauto.
Qed.

(** C37: What is copied from a plugin is exactly what fits: a value is accepted
    when, and only when, its numbers are finite, its texts can be encoded and
    are no longer than 1 MiB, no container has more than 8192 items, it is
    nested at most 32 deep, and it has at most 16384 nodes and 2 MiB of text
    altogether. *)
Theorem json_safe_exact v :
  json_safe v = true <->
  plain v = true /\ value_depth v <= METADATA_MAX_DEPTH /\ value_nodes v <= METADATA_MAX_NODES
  /\ value_bytes v <= METADATA_MAX_TOTAL_STRING_BYTES.
Proof.
  destruct (snapshot_metered v 0) as (_ & _ & H). unfold json_safe.
  assert (within fresh_budget) as Hb by (split; vm_compute; discriminate).
  destruct (snapshot_json_value 0 v fresh_budget) as [b'|e] eqn:E; unfold is_ok.
  - apply H in E as ([? ?] & [? ?] & _); [|done]. cbn in *. split; [intros _; by split_and!|done].
  - split; [done|]. intros (Hp & Hd & Hn & Hm). exfalso.
    assert (snapshot_json_value 0 v fresh_budget = Ok (charge (value_nodes v) (value_bytes v) fresh_budget)); [|congruence].
    by apply H.
Qed.

(** ** Lemmas: the primary fields of an outcome *)

(** The fields that secondary processing may not change. *)
Definition primary (o : ToolOutcome) :=
  (images o, status o, summary o, content o, (stdout o, stderr o), diff o, exit_code o,
   (duration_seconds o, error_kind o, retention_hint o)).

Lemma same_fixed_fields_primary a b : same_fixed_fields a b = true <-> primary a = primary b.
Proof.
  unfold same_fixed_fields, primary. rewrite !andb_true_iff, !bool_decide_eq_true. split.
  - intros [[[[[[[[[[-> ->] ->] ->] ->] ->] ->] ->] ->] ->] ->]. done.
  - intros [= -> -> -> -> -> -> -> -> -> -> ->]. done.
Qed.

Lemma primary_success a b : primary a = primary b -> success a = success b.
Proof. unfold success. by intros [= _ -> _ _ _ _ _ _ _ _ _]. Qed.

Lemma primary_status a b : primary a = primary b -> status a = status b.
Proof. by intros [= _ -> _ _ _ _ _ _ _ _ _]. Qed.

(** What a step of secondary processing does to a valid outcome: it succeeds,
    and the primary fields stay. *)
Definition derived (o : ToolOutcome) (m : pydict) (r : result ToolOutcome) : Prop :=
  exists o', r = Ok o' /\ outcome_valid o' /\ primary o' = primary o /\ metadata o' = m.

Lemma replace_metadata_derived m o : outcome_valid o -> derived o m (replace_metadata m o).
Proof.
  intros Hv. unfold replace_metadata. set (o' := {| status := status o |}).
  exists o'. rewrite check_outcome_ok by exact Hv. split_and!; [done|exact Hv|done|done].
Qed.

Lemma with_model_projection_derived text tr ar o : outcome_valid o ->
  derived o (metadata o) (with_model_projection text tr ar o).
Proof.
  intros (Hd & Hk & Ht). unfold with_model_projection. set (o' := {| status := status o |}).
  assert (Hv : outcome_valid o') by (split_and!; [exact Hd|exact Hk|by eexists]).
  exists o'. by rewrite check_outcome_ok.
Qed.

Lemma derived_bind o m r (f : ToolOutcome -> result ToolOutcome) m' :
  derived o m r -> (forall o', outcome_valid o' -> primary o' = primary o -> metadata o' = m -> derived o' m' (f o')) ->
  derived o m' (o' ← r; f o').
Proof.
  intros (o' & -> & Hv & Hp & Hm) Hf. destruct (Hf o' Hv Hp Hm) as (o2 & E & Hv2 & Hp2 & Hm2).
  exists o2. split_and!; [exact E|done|congruence|done].
Qed.

Lemma derived_refl o : outcome_valid o -> derived o (metadata o) (Ok o).
Proof. intros. by exists o. Qed.

(** ** Lemmas: failure facts *)

Lemma dget_filter (p : pystr -> bool) (d : pydict) k : p k = true ->
  dget (filter (fun kv : pystr * pyval => p kv.1 = true) d) k = dget d k.
Proof.
  intros Hk. induction d as [|[k' v] d IH]; [done|]. rewrite filter_cons. cbn.
  destruct (decide (p k' = true)); cbn; [by rewrite IH|]. rewrite IH. case_decide; congruence.
Qed.

(** The facts as the metadata of an outcome gives them. *)
Definition fact_of (o : ToolOutcome) (k : pystr) : option pyval := dget (metadata o) k.

Definition facts_present (m : pydict) : Prop := forall k, k ∈ FAILURE_FACT_KEYS -> is_Some (dget m k).

Lemma fill_facts_get r l : forall m k, NoDup l.*1 ->
  dget (fill_facts r m l) k =
  match list_to_map (M:=gmap pystr pystr) l !! k with
  | Some v => if r || bool_decide (safe_metadata_fact m k = None) then Some (VStr v) else dget m k
  | None => dget m k
  end.
Proof.
  induction l as [|[k0 v0] l IH]; intros m k Hnd; [done|]. cbn in Hnd. apply NoDup_cons in Hnd as [Hk0 Hnd].
  change (fill_facts r m ((k0, v0) :: l)) with
    (fill_facts r (if r || bool_decide (safe_metadata_fact m k0 = None) then dset m k0 (VStr v0) else m) l).
  rewrite IH by done. cbn [list_to_map foldr fst snd]. destruct (decide (k = k0)) as [->|Hne].
  - rewrite lookup_insert_eq, (not_elem_of_list_to_map_1 (M:=gmap pystr)) by done.
    destruct (r || _); [apply dget_dset_eq|done].
  - rewrite lookup_insert_ne by done. destruct (r || bool_decide (safe_metadata_fact m k0 = None)); [|done].
    destruct (list_to_map l !! k); [|by rewrite dget_dset_ne].
    unfold safe_metadata_fact, dget_none. by rewrite !dget_dset_ne.
Qed.

Lemma default_facts_NoDup f : NoDup (default_facts f).*1.
Proof. cbn. apply (bool_decide_eq_true_1 (NoDup FAILURE_FACT_KEYS)). reflexivity. Qed.

(** Facts of a failure that replace all others. *)
Lemma with_failure_facts_replace f o : outcome_valid o -> success o = false ->
  derived o (fill_facts true (without_runtime_keys (metadata o)) (default_facts f)) (with_failure_facts f true o).
Proof. intros Hv Hs. unfold with_failure_facts. rewrite Hs. by apply replace_metadata_derived. Qed.

Definition effect_fact (o : ToolOutcome) : option pyval := dget (metadata o) $"effect_state".
Definition EFFECT_STATES : list pystr := [$"not_started"; $"started"; $"completed"; $"unknown"].

Lemma default_facts_lookup f k : k ∈ FAILURE_FACT_KEYS -> is_Some (list_to_map (M:=gmap pystr pystr) (default_facts f) !! k).
Proof.
  intros Hk. unfold FAILURE_FACT_KEYS in Hk. repeat (apply elem_of_cons in Hk as [->|Hk]; [by eexists|]). by apply not_elem_of_nil in Hk.
Qed.

Lemma safe_fact_some m k s : safe_metadata_fact m k = Some s -> dget m k = Some (VStr s).
Proof. unfold safe_metadata_fact, dget_none. destruct (dget m k) as [[]|]; cbn; try done. case_match; [by intros [= ->]|done]. Qed.

Lemma fill_facts_present r m f : facts_present (fill_facts r m (default_facts f)).
Proof.
  intros k Hk. rewrite fill_facts_get by apply default_facts_NoDup.
  destruct (default_facts_lookup f k Hk) as [v ->]. destruct (r || _) eqn:E; [by eexists|].
  apply orb_false_iff in E as [_ E%bool_decide_eq_false].
  destruct (safe_metadata_fact m k) as [s|] eqn:Es; [|done]. exists (VStr s). by apply safe_fact_some.
Qed.

Lemma fill_facts_other r m f k : k ∉ FAILURE_FACT_KEYS -> dget (fill_facts r m (default_facts f)) k = dget m k.
Proof. intros Hk. rewrite fill_facts_get by apply default_facts_NoDup. by rewrite not_elem_of_list_to_map_1. Qed.

Lemma fill_facts_effect m f : dget (fill_facts true m (default_facts f)) $"effect_state" = Some (VStr (safe_failure_phase (effect_state f))).
Proof. rewrite fill_facts_get by apply default_facts_NoDup. reflexivity. Qed.

Lemma effect_state_safe m s : dget m $"effect_state" = Some (VStr s) -> s ∈ EFFECT_STATES ->
  safe_metadata_fact m $"effect_state" = Some s.
Proof. intros Hm Hs. unfold safe_metadata_fact, dget_none. rewrite Hm. simpl. by rewrite bool_decide_eq_true_2. Qed.

Lemma fill_facts_keeps_effect r m f s : dget m $"effect_state" = Some (VStr s) -> s ∈ EFFECT_STATES -> r = false ->
  dget (fill_facts r m (default_facts f)) $"effect_state" = Some (VStr s).
Proof.
  intros Hm Hs ->. rewrite fill_facts_get by apply default_facts_NoDup.
  destruct (list_to_map _ !! _); [|done]. by rewrite (effect_state_safe _ s).
Qed.

(** Facts that replace those the tool gave. *)
Lemma replaced_facts f o : outcome_valid o -> success o = false ->
  exists o', with_failure_facts f true o = Ok o' /\ outcome_valid o' /\ primary o' = primary o
    /\ facts_present (metadata o') /\ effect_fact o' = Some (VStr (safe_failure_phase (effect_state f))).
Proof.
  intros Hv Hs. unfold with_failure_facts, effect_fact. rewrite Hs.
  destruct (replace_metadata_derived (fill_facts true (without_runtime_keys (metadata o)) (default_facts f)) o Hv)
    as (o' & -> & Hv' & Hp & Hm).
  exists o'. rewrite Hm. split_and!; [done..|apply fill_facts_present|apply fill_facts_effect].
Qed.

(** Facts that fill the gaps. *)
Lemma filled_facts f o s : outcome_valid o -> success o = false ->
  effect_fact o = Some (VStr s) -> s ∈ EFFECT_STATES ->
  exists o', with_failure_facts f false o = Ok o' /\ outcome_valid o' /\ primary o' = primary o
    /\ facts_present (metadata o') /\ effect_fact o' = Some (VStr s).
Proof.
  intros Hv Hs He Hin. unfold with_failure_facts, effect_fact. rewrite Hs.
  destruct (replace_metadata_derived (fill_facts false (metadata o) (default_facts f)) o Hv) as (o' & -> & Hv' & Hp & Hm).
  exists o'. rewrite Hm. split_and!; [done..|apply fill_facts_present|by apply fill_facts_keeps_effect].
Qed.

(** A success carries no facts of the runtime. *)
Lemma dget_without_runtime_keys m k : is_runtime_key k = true -> dget (without_runtime_keys m) k = None.
Proof.
  intros Hk. unfold without_runtime_keys. induction m as [|[k' v] m IH]; [done|]. rewrite filter_cons. cbn.
  case_decide as Hd; [|done]. cbn in *. by rewrite decide_False by congruence.
Qed.

Lemma no_runtime_key m k : existsb (fun kv : pystr * pyval => is_runtime_key kv.1) m = false -> is_runtime_key k = true ->
  dget m k = None.
Proof.
  intros Hm Hk. induction m as [|[k' v] m IH]; [done|]. cbn in *. apply orb_false_iff in Hm as [? ?].
  rewrite decide_False by congruence. auto.
Qed.

Lemma success_facts f o : outcome_valid o -> success o = true ->
  exists o', with_failure_facts f true o = Ok o' /\ outcome_valid o' /\ primary o' = primary o
    /\ forall k, is_runtime_key k = true -> dget (metadata o') k = None.
Proof.
  intros Hv Hs. unfold with_failure_facts. rewrite Hs. cbn [negb orb].
  destruct (existsb _ _) eqn:E; cbn [negb].
  - destruct (replace_metadata_derived (without_runtime_keys (metadata o)) o Hv) as (o' & -> & Hv' & Hp & Hm).
    exists o'. rewrite Hm. split_and!; [done..|apply dget_without_runtime_keys].
  - exists o. split_and!; [done..|]. intros k. by apply no_runtime_key.
Qed.

(** ** Lemmas: what the published outcome says of effects *)

(** Nothing was started. *)
Definition says_not_started (o : ToolOutcome) : Prop :=
  outcome_valid o /\ success o = false /\ effect_fact o = Some (VStr $"not_started").

(** The tool ran: only a denial by the tool itself claims that nothing was
    started, and a success claims nothing. *)
Definition says_ran (o : ToolOutcome) : Prop :=
  outcome_valid o /\
  (success o = false -> exists s, effect_fact o = Some (VStr s) /\ s ∈ EFFECT_STATES
     /\ (s = $"not_started" -> status o = DENIED)).

Lemma normalize_valid o o' : normalize_tool_outcome o = Ok o' -> outcome_valid o' /\ metadata o' = metadata o
  /\ status o' = status o /\ success o' = success o.
Proof.
  unfold normalize_tool_outcome. intros H. ok_inv H. ok_inv H. destruct (replace_model_content _ _) eqn:E; [|done].
  injection H as ->. unfold replace_model_content, with_model_projection in E. apply check_outcome_spec in E as [-> Hv].
  by split_and!.
Qed.

(** What a returned result becomes. *)
Lemma coerced_says_ran raw seconds o : coerce_returned_outcome raw seconds = Ok o -> says_ran o.
Proof.
  unfold coerce_returned_outcome. intros H. apply bind_ok in H as (o0 & _ & H). apply bind_ok in H as (n & Hn & H).
  apply normalize_valid in Hn as (Hv & _ & _ & _). apply bind_ok in H as (p & Hp & H).
  set (f := {| phase := _ |}) in Hp. destruct (success n) eqn:Hs.
  - destruct (success_facts f n Hv Hs) as (p' & E & Hv' & Hpr & _). rewrite E in Hp. injection Hp as <-.
    injection H as <-. split; [done|]. rewrite (primary_success _ _ Hpr). congruence.
  - destruct (replaced_facts f n Hv Hs) as (p' & E & Hv' & Hpr & _ & He). rewrite E in Hp. injection Hp as <-.
    assert (Hran : says_ran p').
    { split; [done|]. intros _. eexists. split; [exact He|]. unfold f; cbn. rewrite (primary_status _ _ Hpr).
      destruct (bool_decide (status n = DENIED)) eqn:Ed; [apply bool_decide_eq_true in Ed|]; cbn; (split; [set_solver|done]). }
    destruct (match dget_none _ _ with VStr _ => _ | _ => None end) as [s|]; [|by injection H as <-].
    destruct (replace_metadata_derived (dset (metadata p') $"reported_effect_state" (VStr s)) p' Hv') as (o' & E' & Hv2 & Hp2 & Hm2).
    rewrite E' in H. injection H as <-. split; [done|]. intros Hf. destruct Hran as [_ Hran].
    destruct Hran as (t & Ht & Hin & Hd); [by rewrite <-(primary_success _ _ Hp2)|]. exists t.
    unfold effect_fact. rewrite Hm2, dget_dset_ne by done. rewrite (primary_status _ _ Hp2). by split_and!.
Qed.

(** An accepted transform keeps the primary fields and every fact. *)
Lemma sort_keys_str v s : sort_keys v = VStr s -> v = VStr s.
Proof. by destruct v; cbn; intros [= ->]. Qed.

Lemma keeps_metadata_str m m' k s : keeps_metadata m m' = true -> dget m k = Some (VStr s) -> dget m' k = Some (VStr s).
Proof.
  unfold keeps_metadata. intros H Hk. rewrite forallb_forall in H. specialize (H (k, VStr s)). cbn in H.
  assert (Hin : In (k, VStr s) m).
  { clear H. induction m as [|[k' v] m IH]; [done|]. cbn in Hk. case_decide; [simplify_eq; by left|right; auto]. }
  specialize (H Hin). destruct (dget m' k) as [v|]; [|done]. unfold same_value in H. apply bool_decide_eq_true in H.
  cbn in H. by rewrite (sort_keys_str _ _ H).
Qed.

Lemma keeps_metadata_spec m m' k v : keeps_metadata m m' = true -> dget m k = Some v ->
  exists v', dget m' k = Some v' /\ same_value v' v = true.
Proof.
  unfold keeps_metadata. intros H Hk. rewrite forallb_forall in H. specialize (H (k, v)). cbn in H.
  assert (Hin : In (k, v) m).
  { clear H. induction m as [|[k' w] m IH]; [done|]. cbn in Hk. case_decide; [simplify_eq; by left|right; auto]. }
  specialize (H Hin). destruct (dget m' k) as [v'|]; [by eauto|done].
Qed.

Lemma adds_no_runtime_key m m' k : adds_runtime_keys m m' = false -> is_runtime_key k = true -> dget m k = None ->
  dget m' k = None.
Proof.
  intros H Hk Hm. destruct (dget m' k) as [v|] eqn:E; [|done]. exfalso.
  assert (Hin : In (k, v) m').
  { clear H. induction m' as [|[k' w] m' IH]; [done|]. cbn in E. case_decide; [simplify_eq; by left|right; auto]. }
  unfold adds_runtime_keys in H. apply not_true_iff_false in H. apply H, existsb_exists. exists (k, v).
  split; [done|]. cbn. unfold dmem. by rewrite Hm, Hk.
Qed.

(** What [accepted_after_transform] has checked. *)
Lemma accepted_inv facts tc o t o' : outcome_valid o -> accepted_after_transform facts tc o t = Ok o' ->
  outcome_valid o' /\ primary o' = primary o
  /\ take (length (diagnostics o)) (diagnostics o') = diagnostics o
  /\ keeps_metadata (metadata o) (metadata o') = true /\ adds_runtime_keys (metadata o) (metadata o') = false.
Proof.
  intros Hv. unfold accepted_after_transform. intros H. ok_inv H. ok_inv H. ok_inv H. ok_inv H. ok_inv H. ok_inv H.
  apply bind_ok in H as (c & Hc & H). ok_inv H. ok_inv H. apply bind_ok in H as (c' & Hc' & H).
  ok_inv H. ok_inv H. injection H as <-.
  apply orb_false_iff in Hr7 as [Hp%negb_false_iff Hd%negb_false_iff], Hr8 as [Hk%negb_false_iff Ha].
  apply same_fixed_fields_primary in Hp. apply bool_decide_eq_true in Hd. split_and!; try done.
  assert (Hvc : outcome_valid c).
  { destruct (t_outcome r) as [|n|]; [by injection Hc as <-|by apply normalize_valid in Hc as [? _]|done]. }
  case_decide; [by injection Hc' as <-|]. unfold with_model_projection in Hc'. by apply check_outcome_spec in Hc' as [-> ?].
Qed.

(** A plugin that processes a result may only enrich it: when its transform
    is accepted, the outcome keeps its status, texts, diff, exit code, error,
    images and duration, every diagnostic and every metadata fact it had, and
    gains no fact that is the runtime's own. *)
Theorem transform_keeps_primary facts tc o t o' (Hv : outcome_valid o)
    (Ha : accepted_after_transform facts tc o t = Ok o') :
  outcome_valid o' /\ primary o' = primary o
  /\ diagnostics o `prefix_of` diagnostics o'
  /\ (forall k v, dget (metadata o) k = Some v -> exists v', dget (metadata o') k = Some v' /\ same_value v' v = true)
  /\ (forall k, is_runtime_key k = true -> dget (metadata o) k = None -> dget (metadata o') k = None).
Proof.
  destruct (accepted_inv _ _ _ _ _ Hv Ha) as (Hv' & Hp & Hd & Hk & Hn). split_and!; [done|done| | |].
  - rewrite <-Hd at 1. eexists. symmetry. apply take_drop.
  - intros k v. by apply keeps_metadata_spec.
  - intros k. by apply adds_no_runtime_key.
Qed.

(** An accepted transform says of effects what the outcome said. *)
Lemma accepted_says_ran facts tc o t o' : says_ran o -> accepted_after_transform facts tc o t = Ok o' ->
  says_ran o' /\ primary o' = primary o.
Proof.
  intros [Hv Hran] Ha. destruct (accepted_inv _ _ _ _ _ Hv Ha) as (Hv' & Hp & _ & Hk & _).
  split; [|done]. split; [done|]. rewrite (primary_success _ _ Hp), (primary_status _ _ Hp). intros Hs.
  destruct (Hran Hs) as (s & He & ? & ?). exists s. split_and!; [|done..]. by eapply keeps_metadata_str.
Qed.

(** ** Lemmas: projections that are added last *)

Lemma says_derived o m r : derived o m r -> dget m $"effect_state" = effect_fact o ->
  exists o', r = Ok o' /\ primary o' = primary o /\ (says_not_started o -> says_not_started o') /\ (says_ran o -> says_ran o').
Proof.
  intros (o' & -> & Hv & Hp & Hm) He. exists o'. split_and!; [done|done| |].
  - intros (_ & Hs & Hf). split_and!; [done|by rewrite (primary_success _ _ Hp)|]. unfold effect_fact. by rewrite Hm, He.
  - intros (_ & Hr). split; [done|]. rewrite (primary_success _ _ Hp), (primary_status _ _ Hp). unfold effect_fact.
    by rewrite Hm, He.
Qed.

Lemma fact_text_ok m k : facts_present m -> k ∈ FAILURE_FACT_KEYS -> exists s, fact_text m k = Ok s.
Proof. intros Hm Hk. unfold fact_text. destruct (Hm k Hk) as [v ->]. by eexists. Qed.

Lemma canonical_projection_derived o : outcome_valid o -> (success o = false -> facts_present (metadata o)) ->
  derived o (metadata o) (with_canonical_failure_projection o).
Proof.
  intros Hv Hf. unfold with_canonical_failure_projection. destruct (success o); [by apply derived_refl|].
  specialize (Hf eq_refl).
  destruct (fact_text_ok _ $"failure_phase" Hf) as [a ->]; [set_solver|].
  destruct (fact_text_ok _ $"error_type" Hf) as [b ->]; [set_solver|].
  destruct (fact_text_ok _ $"effect_state" Hf) as [c ->]; [set_solver|].
  destruct (fact_text_ok _ $"completion_state" Hf) as [d ->]; [set_solver|].
  destruct (fact_text_ok _ $"retry_safety" Hf) as [e ->]; [set_solver|].
  cbn [mbind result_bind]. by apply with_model_projection_derived.
Qed.

Lemma post_effect_derived c o : outcome_valid o ->
  exists m, derived o m (with_post_effect_failures c o) /\ forall k, k <> $"post_effect_failures" -> dget m k = dget (metadata o) k.
Proof.
  intros Hv. unfold with_post_effect_failures. destruct (snapshot c) as [|f l]; [exists (metadata o); split; [by apply derived_refl|done]|].
  eexists. split; [eapply derived_bind; [by apply with_model_projection_derived|]|].
  - intros o' Hv' Hp Hm. destruct (replace_metadata_derived
      (dset (metadata o) $"post_effect_failures" (VList (map failure_value (f :: l)))) o' Hv') as (o2 & E & ? & Hp2 & ?).
    exists o2. split_and!; [exact E|done|congruence|done].
  - intros k Hk. by rewrite dget_dset_ne.
Qed.

(** ** Lemmas: the outcomes the runtime makes itself *)

Lemma told_outcome_ok s summary message m k : s <> SUCCEEDED ->
  exists o, told_outcome s summary message m k = Ok o /\ outcome_valid o /\ success o = false /\ metadata o = m /\ status o = s.
Proof.
  intros Hs. destruct (with_model_projection_derived message None None (plain_outcome s (Some summary) (Some message) m (Some k)))
    as (o & E & Hv & Hp & Hm); [by apply plain_outcome_valid|].
  exists o. split_and!; [exact E|done| |done|by apply (primary_status _ _ Hp)].
  rewrite (primary_success _ _ Hp). unfold success; cbn. by apply bool_decide_eq_false_2.
Qed.

Lemma not_started_facts ph et retry o : outcome_valid o -> success o = false ->
  exists o', with_failure_facts (not_started ph et retry) true o = Ok o' /\ says_not_started o' /\ status o' = status o.
Proof.
  intros Hv Hs. destruct (replaced_facts (not_started ph et retry) o Hv Hs) as (o' & E & Hv' & Hp & _ & He).
  exists o'. split_and!; [done| |by apply primary_status]. split_and!; [done|by rewrite (primary_success _ _ Hp)|done].
Qed.

Lemma cancelled_before_ok name ph message :
  exists o, cancelled_before_outcome name ph message = Ok o /\ says_not_started o /\ status o = CANCELLED.
Proof.
  unfold cancelled_before_outcome.
  destruct (told_outcome_ok CANCELLED (name ++ $" interrupted before execution") message [] KInterrupted) as (o & -> & Hv & Hs & _ & Hst); [done|].
  cbn [mbind result_bind]. destruct (not_started_facts ph $"ToolExecutionCancelled" SAFE o Hv Hs) as (o' & ? & ? & Hst').
  exists o'. by rewrite Hst'.
Qed.

Lemma completed_result_failure_ok e : exists o, completed_result_failure e = Ok o /\ says_ran o.
Proof.
  unfold completed_result_failure.
  match goal with |- context [told_outcome ?a ?b ?c ?d ?f] => destruct (told_outcome_ok a b c d f) as (o & -> & Hv & Hs & Hm & Hst) end; [done|].
  exists o. split; [done|]. split; [done|]. intros _. exists $"unknown". unfold effect_fact. rewrite Hm.
  split_and!; [done|set_solver|done].
Qed.

(** ** Witnesses *)

Definition example_outcome : ToolOutcome :=
  {| status := FAILED; summary := Some $"one failure"; content := Some $"1 failed"; stdout := []; stderr := [];
     diff := None; diagnostics := []; exit_code := Some 1; duration_seconds := None; truncation := None;
     archive_reference := None; metadata := [($"suite", VStr $"unit")]; error_kind := Some KExecution;
     model_content := None; retention_hint := default_hint; images := [] |}.

Definition example_context : ContextFacts :=
  {| hook_point := AFTER_TOOL_EXECUTE; agent_id := Some $"main"; session_generation := Some 1; session_id := Some $"s";
     turn_id := Some $"t"; trace_id := None; round_index := Some 2 |}.
Definition example_call : ToolCall := {| tc_id := $"c1"; tc_name := $"shell"; arguments := [($"command", VStr $"pytest")] |}.

(** The plugin's version of [example_outcome]: shortened, with one more fact. *)
Definition example_enriched : option TransformedContext :=
  match replace_metadata [($"suite", VStr $"unit"); ($"archived", VBool true)] example_outcome with
  | Ok o => Some {| t_facts := example_context; t_tool_call := Some example_call; t_result := Some $"1 failed (cut)";
                    t_outcome := NewOutcome o |}
  | Raise _ => None
  end.

Lemma transform_keeps_primary_witness :
  exists o', accepted_after_transform example_context example_call example_outcome example_enriched = Ok o'
    /\ primary o' = primary example_outcome /\ model_text o' = $"1 failed (cut)".
Proof.
  set (r := accepted_after_transform _ _ _ _). vm_compute in r. eexists. split; [reflexivity|]. split; [|reflexivity].
  eapply (transform_keeps_primary example_context example_call example_outcome example_enriched); [|vm_compute; reflexivity].
  split_and!; [done|done|by intros [? ?]].
Defined.
