(* ===== verification/RuntimeEvents.v ===== *)
(** * Runtime events (domain/agent/events.py, domain/runtime/events.py)

    The agent loop emits [AgentEvent]s, whose data is an untyped dictionary;
    interfaces, reducers and worker processes exchange [RuntimeEvent]s with a
    typed payload.  This file holds both types, the constructors of the first,
    the two conversions, and the delivery class of a payload.

    Both kinds of event share seven identification fields, the [Envelope].
    Payload fields have the types of their annotations.  Where the conversion
    copies a dictionary value without converting it, a value of another type
    would build a payload outside its annotation; the model stops there with
    [ill_typed].  Instants and durations are integers of one unit. *)

From S2P Require Import Prelude PyValue ToolOutcome.

Record Envelope := {
  event_id : pystr;
  timestamp : Z;
  agent_id : option pystr;
  session_generation : option Z;
  session_id : option pystr;
  turn_id : option pystr;
  correlation_id : option pystr;
}.

(** ** Agent events *)

Inductive AgentEventType :=
| CHAT_START | CHAT_END | STREAM_TOKEN | STREAM_REASONING | ASSISTANT_STREAM_INTERRUPTED
| TOOL_CALL_START | TOOL_OUTPUT_DELTA | TOOL_CALL_END | SUBAGENT_COMPLETED
| COMPRESSION_START | COMPRESSION_END | ERROR | DIAGNOSTIC | USER_STEERING
| PLAN_UPDATED | PROGRESS_REPORTED | APPROVAL_REQUESTED | APPROVAL_RESOLVED.

#[export] Instance agent_event_type_dec : EqDecision AgentEventType.
Proof. solve_decision. Defined.

Record AgentEvent := {
  event_type : AgentEventType;
  ae_env : Envelope;
  data : pydict;
  tool_name : option pystr;
  tool_args : option pydict;
  tool_result : option pystr;
  tool_success : option bool;
  tool_outcome : option ToolOutcome;
  error_message : option pystr;
}.

(** The generated identifier and the clock of a new event. *)
Record Stamp := { fresh_event_id : pystr; stamp_now : Z }.

Definition new_envelope (st : Stamp) (correlation : option pystr) : Envelope :=
  {| event_id := fresh_event_id st; timestamp := stamp_now st; agent_id := None;
     session_generation := None; session_id := None; turn_id := None;
     correlation_id := correlation |}.

(** The constructor with every other field at its default. *)
Definition base_event (st : Stamp) (t : AgentEventType) (correlation : option pystr) (d : pydict)
    : AgentEvent :=
  {| event_type := t; ae_env := new_envelope st correlation; data := d; tool_name := None;
     tool_args := None; tool_result := None; tool_success := None; tool_outcome := None;
     error_message := None |}.

Definition chat_start (st : Stamp) (user_input : pystr) (submission_id : option pystr) : AgentEvent :=
  base_event st CHAT_START None
    (($"user_input", VStr user_input)
     :: match submission_id with Some s => [($"submission_id", VStr s)] | None => [] end).

Definition chat_end (st : Stamp) (response : pystr) (render_response : bool) : AgentEvent :=
  base_event st CHAT_END None
    [($"response", VStr response); ($"render_response", VBool render_response)].

Definition tool_call_start (st : Stamp) (name : pystr) (args : pydict) (call_id : option pystr)
    : AgentEvent :=
  {| event_type := TOOL_CALL_START; ae_env := new_envelope st call_id; data := [];
     tool_name := Some name; tool_args := Some args; tool_result := None; tool_success := None;
     tool_outcome := None; error_message := None |}.

Definition tool_call_end (st : Stamp) (name text : pystr) (succ : option bool)
    (call_id : option pystr) (outcome : option ToolOutcome) : result AgentEvent :=
  effective ← match outcome with Some o => Ok o | None => from_legacy text succ None end;
  Ok {| event_type := TOOL_CALL_END; ae_env := new_envelope st call_id; data := [];
        tool_name := Some name; tool_args := None;
        tool_result := Some (match outcome with Some _ => text | None => model_text effective end);
        tool_success := Some (success effective); tool_outcome := Some effective;
        error_message := None |}.

Definition tool_output_delta (st : Stamp) (name text stream : pystr) (call_id : option pystr)
    : AgentEvent :=
  {| event_type := TOOL_OUTPUT_DELTA; ae_env := new_envelope st call_id;
     data := [($"text", VStr text); ($"stream", VStr stream)];
     tool_name := Some name; tool_args := None; tool_result := None; tool_success := None;
     tool_outcome := None; error_message := None |}.

(** The facts of a sub-agent job, as both kinds of event carry them. *)
Record SubagentJob := {
  job_id : pystr; mode : pystr; task : pystr; job_status : pystr;
  job_result : option pystr; job_error : option pystr; activity : option pystr;
  current_tool : option pystr; tool_calls : Z; max_tool_calls : option Z;
  tokens : Z; max_tokens : option Z; blocker : option pystr; child_agent_id : option pystr;
}.

Definition of_optional_int (n : option Z) : pyval :=
  match n with Some n => VInt n | None => VNone end.

Definition subagent_completed (st : Stamp) (j : SubagentJob) : AgentEvent :=
  base_event st SUBAGENT_COMPLETED None
    [ ($"job_id", VStr (job_id j)); ($"mode", VStr (mode j)); ($"task", VStr (task j));
      ($"status", VStr (job_status j)); ($"result", of_optional_str (job_result j));
      ($"error", of_optional_str (job_error j)); ($"activity", of_optional_str (activity j));
      ($"current_tool", of_optional_str (current_tool j)); ($"tool_calls", VInt (tool_calls j));
      ($"max_tool_calls", of_optional_int (max_tool_calls j)); ($"tokens", VInt (tokens j));
      ($"max_tokens", of_optional_int (max_tokens j)); ($"blocker", of_optional_str (blocker j));
      ($"child_agent_id", of_optional_str (child_agent_id j)) ].

Definition stream_token (st : Stamp) (token : pystr) : AgentEvent :=
  base_event st STREAM_TOKEN None [($"token", VStr token)].

Definition stream_reasoning (st : Stamp) (token : pystr) : AgentEvent :=
  base_event st STREAM_REASONING None [($"token", VStr token)].

Definition assistant_stream_interrupted (st : Stamp) (attempt_id : pystr) (epoch : Z) : AgentEvent :=
  base_event st ASSISTANT_STREAM_INTERRUPTED (Some attempt_id)
    [($"attempt_id", VStr attempt_id); ($"interrupt_epoch", VInt epoch)].

Definition error_event (st : Stamp) (message : pystr) : AgentEvent :=
  {| event_type := ERROR; ae_env := new_envelope st None; data := []; tool_name := None;
     tool_args := None; tool_result := None; tool_success := None; tool_outcome := None;
     error_message := Some message |}.

Definition diagnostic_event (st : Stamp) (message code severity : pystr) (details : pydict)
    : AgentEvent :=
  base_event st DIAGNOSTIC None
    [($"message", VStr message); ($"code", VStr code); ($"severity", VStr severity);
     ($"details", VDict details)].

Definition user_steering (st : Stamp) (user_input : pystr)
    (steering_id attempt_id submission_id : option pystr) : AgentEvent :=
  base_event st USER_STEERING steering_id
    [ ($"user_input", VStr user_input); ($"steering_id", of_optional_str steering_id);
      ($"attempt_id", of_optional_str attempt_id);
      ($"submission_id", of_optional_str submission_id) ].

Definition plan_updated (st : Stamp) (revision : Z) (items : list pydict)
    (explanation : option pystr) : AgentEvent :=
  base_event st PLAN_UPDATED None
    [ ($"revision", VInt revision); ($"items", VList (map VDict items));
      ($"explanation", of_optional_str explanation) ].

Definition progress_reported (st : Stamp) (revision : Z) (phase summary : pystr)
    (next : option pystr) : AgentEvent :=
  base_event st PROGRESS_REPORTED None
    [ ($"revision", VInt revision); ($"phase", VStr phase); ($"summary", VStr summary);
      ($"next", of_optional_str next) ].

Definition approval_requested (st : Stamp) (request_id title : pystr) (preview : option pystr)
    : AgentEvent :=
  base_event st APPROVAL_REQUESTED (Some request_id)
    [ ($"request_id", VStr request_id); ($"title", VStr title);
      ($"preview", of_optional_str preview) ].

Definition approval_resolved (st : Stamp) (request_id : pystr) (approved : bool)
    (reason mode grant_label : option pystr) (released_count : Z)
    (resolution_source : option pystr) : AgentEvent :=
  base_event st APPROVAL_RESOLVED (Some request_id)
    [ ($"request_id", VStr request_id); ($"approved", VBool approved);
      ($"reason", of_optional_str reason); ($"mode", of_optional_str mode);
      ($"grant_label", of_optional_str grant_label); ($"released_count", VInt released_count);
      ($"resolution_source", of_optional_str resolution_source) ].

(** ** Runtime events *)

Record RuntimeDiagnostic := {
  rd_line : Z; rd_character : Z; rd_message : pystr; rd_severity : pystr; rd_code : option pystr;
}.

Record OperationPhase := {
  operation_id : pystr; operation : pystr; op_phase : pystr; op_status : pystr;
  op_detail : option pystr; started_at : option Z; elapsed_ms : option Z; attempt : option Z;
  max_attempts : option Z; cancelable : bool; endpoint_host : option pystr;
  error_type : option pystr;
}.

Record ProcessSession := {
  change : pystr; process_session_id : pystr; ps_state : pystr; stream_mode : pystr;
  backend : pystr; command : pystr; ps_cwd : pystr; elapsed_seconds : Z;
  runtime_timeout_seconds : Z; ps_stdout : pystr; ps_stderr : pystr; ps_exit_code : option Z;
  termination_reason : option pystr; output_truncated : bool; output_decode_replaced : bool;
}.

Inductive RuntimePayload :=
| TurnStarted (user_input : pystr) (submission_id : option pystr)
| TurnFinished (response : pystr) (render_response : bool)
| AssistantContentDelta (text : pystr)
| ReasoningDelta (text : pystr) (display_mode : option pystr)
| AssistantStreamInterrupted (attempt_id : pystr) (interrupt_epoch : Z)
| ChatStarted (user_input : pystr)
| ChatCompleted (response : pystr) (render_response : bool)
| StreamChunk (text : pystr) (reasoning : bool) (display_mode : option pystr)
| ToolCallStarted (tool_call_id tool_name : pystr) (arguments : pydict)
| ToolOutputDelta (tool_call_id text stream : pystr)
| ToolCallFinished (tool_call_id tool_name : pystr) (outcome : ToolOutcome)
| SubagentJobChanged (job : SubagentJob)
| DiagnosticsPublished (batch_id file_path : pystr) (document_version diagnostic_generation : Z)
                       (diagnostics : list RuntimeDiagnostic)
| DiagnosticsCleared (batch_id file_path : pystr) (document_version diagnostic_generation : Z)
| ApprovalRequested (request_id title : pystr) (preview : option pystr)
| ApprovalResolved (request_id : pystr) (approved : bool) (reason mode grant_label : option pystr)
                   (released_count : Z) (resolution_source : option pystr)
| ErrorOccurred (message : pystr)
| NotificationRaised (message code severity : pystr) (details : pydict)
| UserSteeringApplied (user_input : pystr) (steering_id attempt_id submission_id : option pystr)
| SessionChanged (action : pystr) (session_id : option pystr)
| RuntimeStateChanged (state : pystr) (reason : option pystr)
| OperationPhaseChanged (phase : OperationPhase)
| PlanUpdated (revision : Z) (items : list pydict) (explanation : option pystr)
| ProgressReported (revision : Z) (phase summary : pystr) (next : option pystr)
| ProcessSessionChanged (process : ProcessSession)
| ViewRequested (request_id view_type : pystr)
| ViewRefreshed (request_id view_type : pystr) (revision : Z).

Record RuntimeEvent := { payload : RuntimePayload; env : Envelope }.

(** [is_transient_runtime_payload]: stream deltas that are not replayed. *)
Definition is_transient_runtime_payload (p : RuntimePayload) : bool :=
  match p with
  | OperationPhaseChanged o => bool_decide (op_status o = $"running")
  | ProcessSessionChanged s => bool_decide (ps_state s = $"running")
  | AssistantContentDelta _ | ReasoningDelta _ _ | StreamChunk _ _ _ | ToolOutputDelta _ _ _ => true
  | _ => false
  end.

(** ** From agent events to runtime events *)

Definition ill_typed {A} : result A := Raise (TypeError $"value outside the annotated type").

Definition typed_str (v : pyval) : result pystr :=
  match v with VStr s => Ok s | _ => ill_typed end.
Definition typed_opt_str (v : pyval) : result (option pystr) :=
  match v with VNone => Ok None | VStr s => Ok (Some s) | _ => ill_typed end.
Definition typed_bool (v : pyval) : result bool :=
  match v with VBool b => Ok b | _ => ill_typed end.
Definition typed_opt_int (v : pyval) : result (option Z) :=
  match v with VNone => Ok None | VInt n => Ok (Some n) | _ => ill_typed end.

(** [_required_correlation_id]. *)
Definition required_correlation_id (a : AgentEvent) : pystr :=
  match correlation_id (ae_env a) with
  | Some ((_ :: _) as c) => c
  | _ => event_id (ae_env a)
  end.

(** [x or default] for an optional text. *)
Definition text_or (s : option pystr) (t : pystr) : pystr := default t (opt_or s (Some t)).

Section FromAgent.
Context `{PyCoercions}.

Definition subagent_job_of (d : pydict) : result SubagentJob :=
  job_result ← typed_opt_str (dget_none d $"result");
  job_error ← typed_opt_str (dget_none d $"error");
  activity ← typed_opt_str (dget_none d $"activity");
  current_tool ← typed_opt_str (dget_none d $"current_tool");
  tool_calls ← py_int (py_or (dget_none d $"tool_calls") (VInt 0));
  max_tool_calls ← typed_opt_int (dget_none d $"max_tool_calls");
  tokens ← py_int (py_or (dget_none d $"tokens") (VInt 0));
  max_tokens ← typed_opt_int (dget_none d $"max_tokens");
  blocker ← typed_opt_str (dget_none d $"blocker");
  child_agent_id ← typed_opt_str (dget_none d $"child_agent_id");
  Ok {| job_id := py_str (dget_or d $"job_id" (VStr []));
        mode := py_str (dget_or d $"mode" (VStr []));
        task := py_str (dget_or d $"task" (VStr []));
        job_status := py_str (dget_or d $"status" (VStr []));
        job_result := job_result; job_error := job_error; activity := activity;
        current_tool := current_tool; tool_calls := tool_calls;
        max_tool_calls := max_tool_calls; tokens := tokens; max_tokens := max_tokens;
        blocker := blocker; child_agent_id := child_agent_id |}.

Definition payload_of (a : AgentEvent) : result RuntimePayload :=
  let d := data a in
  match event_type a with
  | CHAT_START =>
    user_input ← typed_str (dget_or d $"user_input" (VStr []));
    submission_id ← typed_opt_str (dget_none d $"submission_id");
    Ok (TurnStarted user_input submission_id)
  | CHAT_END =>
    response ← typed_str (dget_or d $"response" (VStr []));
    render_response ← typed_bool (dget_or d $"render_response" (VBool true));
    Ok (TurnFinished response render_response)
  | STREAM_TOKEN =>
    token ← typed_str (dget_or d $"token" (VStr [])); Ok (AssistantContentDelta token)
  | STREAM_REASONING =>
    token ← typed_str (dget_or d $"token" (VStr []));
    display_mode ← typed_opt_str (dget_none d $"display_mode");
    Ok (ReasoningDelta token display_mode)
  | ASSISTANT_STREAM_INTERRUPTED =>
    epoch ← py_int (py_or (dget_none d $"interrupt_epoch") (VInt 0));
    Ok (AssistantStreamInterrupted
          (py_str (py_or (dget_none d $"attempt_id")
                     (py_or (of_optional_str (correlation_id (ae_env a))) (VStr [])))) epoch)
  | TOOL_CALL_START =>
    Ok (ToolCallStarted (required_correlation_id a) (text_or (tool_name a) $"unknown_tool")
          (default [] (tool_args a)))
  | TOOL_OUTPUT_DELTA =>
    Ok (ToolOutputDelta (required_correlation_id a)
          (py_str (dget_or d $"text" (VStr []))) (py_str (dget_or d $"stream" (VStr $"stdout"))))
  | TOOL_CALL_END =>
    outcome ← match tool_outcome a with
              | Some o => Ok o
              | None => from_legacy (or_empty (tool_result a))
                          (Some (negb (bool_decide (tool_success a = Some false)))) None
              end;
    Ok (ToolCallFinished (required_correlation_id a) (text_or (tool_name a) $"unknown_tool") outcome)
  | SUBAGENT_COMPLETED => j ← subagent_job_of d; Ok (SubagentJobChanged j)
  | USER_STEERING =>
    steering_id ← typed_opt_str (dget_none d $"steering_id");
    attempt_id ← typed_opt_str (dget_none d $"attempt_id");
    submission_id ← typed_opt_str (dget_none d $"submission_id");
    Ok (UserSteeringApplied (py_str (dget_or d $"user_input" (VStr [])))
          steering_id attempt_id submission_id)
  | ERROR => Ok (ErrorOccurred (text_or (error_message a) $"Unknown agent error"))
  | DIAGNOSTIC =>
    details ← dict_of (py_or (dget_none d $"details") (VDict []));
    Ok (NotificationRaised (py_str (dget_or d $"message" (VStr $"Runtime diagnostic")))
          (py_str (dget_or d $"code" (VStr $"runtime.diagnostic")))
          (py_str (dget_or d $"severity" (VStr $"warning"))) details)
  | PLAN_UPDATED =>
    revision ← py_int (dget_or d $"revision" (VInt 0));
    items ← py_iter (dget_or d $"items" (VList []));
    items ← mapM dict_of items;
    explanation ← typed_opt_str (dget_none d $"explanation");
    Ok (PlanUpdated revision items explanation)
  | PROGRESS_REPORTED =>
    revision ← py_int (dget_or d $"revision" (VInt 0));
    next ← typed_opt_str (dget_none d $"next");
    Ok (ProgressReported revision (py_str (dget_or d $"phase" (VStr $"investigating")))
          (py_str (dget_or d $"summary" (VStr []))) next)
  | APPROVAL_REQUESTED =>
    preview ← typed_opt_str (dget_none d $"preview");
    Ok (ApprovalRequested
          (py_str (py_or (dget_none d $"request_id") (VStr (event_id (ae_env a)))))
          (py_str (py_or (dget_none d $"title") (VStr $"Approval required"))) preview)
  | APPROVAL_RESOLVED =>
    reason ← typed_opt_str (dget_none d $"reason");
    mode ← typed_opt_str (dget_none d $"mode");
    grant_label ← typed_opt_str (dget_none d $"grant_label");
    released_count ← py_int (py_or (dget_none d $"released_count") (VInt 0));
    resolution_source ← typed_opt_str (dget_none d $"resolution_source");
    Ok (ApprovalResolved
          (py_str (py_or (dget_none d $"request_id") (VStr (event_id (ae_env a)))))
          (truthy (dget_none d $"approved")) reason mode grant_label released_count
          resolution_source)
  | COMPRESSION_START => Raise (ValueError $"Unsupported legacy agent event: compression_start")
  | COMPRESSION_END => Raise (ValueError $"Unsupported legacy agent event: compression_end")
  end.

Definition agent_event_to_runtime_event (agent : option pystr) (generation : option Z)
    (session turn : option pystr) (a : AgentEvent) : result RuntimeEvent :=
  p ← payload_of a;
  let v := ae_env a in
  Ok {| payload := p;
        env := {| event_id := event_id v; timestamp := timestamp v;
                  agent_id := opt_or agent (agent_id v);
                  session_generation := match generation with
                                        | Some _ => generation
                                        | None => session_generation v
                                        end;
                  session_id := opt_or session (session_id v);
                  turn_id := opt_or turn (turn_id v);
                  correlation_id := correlation_id v |} |}.
End FromAgent.

(** ** And back, at the worker boundary *)

Definition with_data (k : pystr) (v : pyval) (a : AgentEvent) : AgentEvent :=
  {| event_type := event_type a; ae_env := ae_env a; data := dset (data a) k v;
     tool_name := tool_name a; tool_args := tool_args a; tool_result := tool_result a;
     tool_success := tool_success a; tool_outcome := tool_outcome a;
     error_message := error_message a |}.

Definition with_envelope (v : Envelope) (a : AgentEvent) : AgentEvent :=
  {| event_type := event_type a; ae_env := v; data := data a;
     tool_name := tool_name a; tool_args := tool_args a; tool_result := tool_result a;
     tool_success := tool_success a; tool_outcome := tool_outcome a;
     error_message := error_message a |}.

Definition legacy_event (st : Stamp) (p : RuntimePayload) : result AgentEvent :=
  match p with
  | TurnStarted user_input submission_id => Ok (chat_start st user_input submission_id)
  | ChatStarted user_input => Ok (chat_start st user_input None)
  | TurnFinished response render | ChatCompleted response render => Ok (chat_end st response render)
  | AssistantContentDelta text => Ok (stream_token st text)
  | ReasoningDelta text display =>
    Ok (with_data $"display_mode" (of_optional_str display) (stream_reasoning st text))
  | AssistantStreamInterrupted attempt epoch => Ok (assistant_stream_interrupted st attempt epoch)
  | StreamChunk text reasoning display =>
    Ok (with_data $"display_mode" (of_optional_str display)
          (if reasoning then stream_reasoning st text else stream_token st text))
  | ToolCallStarted call name args => Ok (tool_call_start st name args (Some call))
  | ToolOutputDelta call text stream => Ok (tool_output_delta st $"tool" text stream (Some call))
  | ToolCallFinished call name outcome =>
    tool_call_end st name (model_text outcome) None (Some call) (Some outcome)
  | SubagentJobChanged j => Ok (subagent_completed st j)
  | UserSteeringApplied user_input steering attempt submission =>
    Ok (user_steering st user_input steering attempt submission)
  | ErrorOccurred message => Ok (error_event st message)
  | NotificationRaised message code severity details =>
    Ok (diagnostic_event st message code severity details)
  | PlanUpdated revision items explanation => Ok (plan_updated st revision items explanation)
  | ProgressReported revision phase summary next =>
    Ok (progress_reported st revision phase summary next)
  | ApprovalRequested request title preview => Ok (approval_requested st request title preview)
  | ApprovalResolved request approved reason mode label released src =>
    Ok (approval_resolved st request approved reason mode label released src)
  | DiagnosticsPublished _ _ _ _ _ | DiagnosticsCleared _ _ _ _ | SessionChanged _ _
  | RuntimeStateChanged _ _ | OperationPhaseChanged _ | ProcessSessionChanged _
  | ViewRequested _ _ | ViewRefreshed _ _ _ =>
    Raise (ValueError $"Runtime event cannot be adapted to AgentEvent")
  end.

Definition runtime_event_to_agent_event (st : Stamp) (e : RuntimeEvent) : result AgentEvent :=
  legacy ← legacy_event st (payload e);
  let v := env e in
  Ok (with_envelope
        {| event_id := event_id v; timestamp := timestamp v; agent_id := agent_id v;
           session_generation := session_generation v; session_id := session_id v;
           turn_id := turn_id v;
           correlation_id := opt_or (correlation_id v) (correlation_id (ae_env legacy)) |} legacy).

(** ** Theorems *)

(** The identifier a payload gives the agent event built from it. *)
Definition carried_id (p : RuntimePayload) : option pystr :=
  match p with
  | AssistantStreamInterrupted i _ | ToolCallStarted i _ _ | ToolOutputDelta i _ _
  | ToolCallFinished i _ _ | ApprovalRequested i _ _ | ApprovalResolved i _ _ _ _ _ _ => Some i
  | UserSteeringApplied _ s _ _ => s
  | _ => None
  end.

Definition correlated (e : RuntimeEvent) : RuntimeEvent :=
  {| payload := payload e;
     env := let v := env e in
       {| event_id := event_id v; timestamp := timestamp v; agent_id := agent_id v;
          session_generation := session_generation v; session_id := session_id v;
          turn_id := turn_id v;
          correlation_id := opt_or (correlation_id v) (carried_id (payload e)) |} |}.

Lemma opt_or_none s : opt_or None s = s.
Proof. done. Qed.

Lemma typed_opt_str_of s : typed_opt_str (of_optional_str s) = Ok s.
Proof. by destruct s. Qed.
Lemma typed_opt_int_of n : typed_opt_int (of_optional_int n) = Ok n.
Proof. by destruct n. Qed.

Lemma text_or_default s t : text_or (Some (text_or s t)) t = text_or s t.
Proof. unfold text_or. destruct s as [[|c s]|]; cbn; destruct t; done. Qed.

Lemma dict_of_items l : mapM dict_of (map VDict l) = Ok l.
Proof. induction l as [|d l IH]; [done|]. cbn in *. by rewrite IH. Qed.

Create Rewrite HintDb events.
#[export] Hint Rewrite typed_opt_str_of typed_opt_int_of text_or_default dict_of_items opt_or_none
  : events.

Section RoundTrip.
Context `{PyCoercions}.

Lemma py_int_or_zero n : py_int (py_or (VInt n) (VInt 0)) = Ok n.
Proof. unfold py_or. cbn [truthy]. by destruct (Z.eqb_spec n 0) as [->|]. Qed.

Lemma py_str_or s v : s <> [] -> py_str (py_or (VStr s) v) = s.
Proof. intros. unfold py_or. cbn [truthy]. by rewrite bool_decide_eq_false_2. Qed.

(** Every true value prints as some text; Python has no exception to this. *)
Definition printable (a : AgentEvent) : Prop :=
  forall k v, dget (data a) k = Some v -> truthy v = true -> py_str v <> [].

Lemma str_or_stable a k s :
  printable a ->
  let i := py_str (py_or (dget_none (data a) k) (VStr s)) in
  py_str (py_or (VStr i) (VStr s)) = i.
Proof.
  intros Hp i. destruct (decide (i = [])) as [Hi|Hi]; [|by rewrite py_str_or].
  assert (Hs : s = []).
  { unfold i, py_or, dget_none in Hi. destruct (dget (data a) k) as [v|] eqn:E; cbn in Hi; [|done].
    destruct (truthy v) eqn:Ev; [|done]. by destruct (Hp k v E Ev). }
  by rewrite Hi, Hs.
Qed.

(** A payload read from an agent event survives the trip through the event built
    from it, in an envelope with the same identifier. *)
Definition survives (st : Stamp) (a : AgentEvent) (p : RuntimePayload) : Prop :=
  exists a', legacy_event st p = Ok a' /\ correlation_id (ae_env a') = carried_id p /\
    forall v, event_id v = event_id (ae_env a) ->
      correlation_id v = opt_or (correlation_id (ae_env a)) (carried_id p) ->
      payload_of (with_envelope v a') = Ok p.

Lemma required_again a v a' :
  event_id v = event_id (ae_env a) ->
  correlation_id v = opt_or (correlation_id (ae_env a)) (Some (required_correlation_id a)) ->
  required_correlation_id (with_envelope v a') = required_correlation_id a.
Proof.
  intros Hi Hc. unfold required_correlation_id at 1. cbn [with_envelope ae_env]. rewrite Hc, Hi.
  unfold required_correlation_id. destruct (correlation_id (ae_env a)) as [[|c r]|]; cbn; try done;
    by destruct (event_id (ae_env a)).
Qed.

Ltac bind_ok H :=
  repeat (unfold mbind, result_bind in H; cbv beta in H;
          lazymatch type of H with
          | match ?m with Ok _ => _ | Raise _ => _ end = Ok _ =>
            let E := fresh "E" in destruct m eqn:E; [|discriminate H]; cbv beta iota in H
          end).

Ltac read_back :=
  cbn [payload_of with_envelope with_data event_type data tool_name tool_args tool_outcome
       error_message base_event];
  unfold dget_none, dget_or; autorewrite with pydict events; cbn [default]; unfold id;
  autorewrite with pydict events;
  unfold mbind, result_bind; cbn [typed_str typed_bool py_str py_int py_iter truthy].

Lemma subagent_job_back st j : subagent_job_of (data (subagent_completed st j)) = Ok j.
Proof.
  unfold subagent_job_of, subagent_completed. cbn [base_event data]. unfold dget_none, dget_or.
  autorewrite with pydict. cbn [default]. unfold id.
  rewrite !py_int_or_zero. autorewrite with events. by destruct j.
Qed.

Lemma plain_payload_survives st a p :
  payload_of a = Ok p ->
  match event_type a with
  | CHAT_START | CHAT_END | STREAM_TOKEN | STREAM_REASONING | SUBAGENT_COMPLETED | USER_STEERING
  | PROGRESS_REPORTED | PLAN_UPDATED => survives st a p
  | _ => True
  end.
Proof.
  intros Hp. destruct a as [ty v d name args res succ out err]. unfold payload_of in Hp.
  cbn [event_type data] in *.
  destruct ty; try done; bind_ok Hp; injection Hp as <-;
    (eexists; split_and!; [reflexivity|reflexivity|]); intros v' _ _.
  5: { change (payload_of _) with
         (j ← subagent_job_of (data (subagent_completed st a)); Ok (SubagentJobChanged j)).
       by rewrite subagent_job_back. }
  all: unfold chat_start, chat_end, stream_token, stream_reasoning, user_steering, plan_updated,
         progress_reported; read_back; autorewrite with events; try done.
  destruct a0; by autorewrite with pydict.
Qed.

Lemma dict_or_empty d : dict_of (py_or (VDict d) (VDict [])) = Ok d.
Proof. by destruct d. Qed.

Lemma attempt_id_stable a v :
  printable a ->
  let i := py_str (py_or (dget_none (data a) $"attempt_id")
                     (py_or (of_optional_str (correlation_id (ae_env a))) (VStr []))) in
  correlation_id v = opt_or (correlation_id (ae_env a)) (Some i) ->
  py_str (py_or (VStr i) (py_or (of_optional_str (correlation_id v)) (VStr []))) = i.
Proof.
  intros Hp i Hc. destruct (decide (i = [])) as [Hi|Hi]; [|by rewrite py_str_or].
  assert (Hcor : forall c r, correlation_id (ae_env a) <> Some (c :: r)).
  { intros c r Hcr. unfold i, py_or, dget_none in Hi. rewrite Hcr in Hi.
    destruct (dget (data a) _) as [x|] eqn:E; cbn in Hi; [|done].
    destruct (truthy x) eqn:Ex; [|done]. by destruct (Hp _ x E Ex). }
  rewrite Hc, Hi. by destruct (correlation_id (ae_env a)) as [[|c r]|]; [..|]; try naive_solver.
Qed.

Lemma identified_payload_survives st a p :
  printable a -> payload_of a = Ok p ->
  match event_type a with
  | CHAT_START | CHAT_END | STREAM_TOKEN | STREAM_REASONING | SUBAGENT_COMPLETED | USER_STEERING
  | PROGRESS_REPORTED | PLAN_UPDATED => True
  | _ => survives st a p
  end.
Proof.
  intros Hpr Hp. unfold payload_of in Hp.
  destruct (event_type a) eqn:Ety; try done; bind_ok Hp; simplify_eq;
    (eexists; split_and!; [reflexivity|reflexivity|]); intros v' Hi Hc; cbn [carried_id] in Hc;
    unfold assistant_stream_interrupted, tool_call_start, tool_output_delta, error_event,
      diagnostic_event, approval_requested, approval_resolved; read_back;
    rewrite ?py_int_or_zero, ?dict_or_empty; autorewrite with events;
    rewrite ?(required_again a) by done; try done.
  - cbn [with_envelope ae_env]. f_equal. f_equal. by apply attempt_id_stable.
  - cbn [with_envelope ae_env]. rewrite Hi. f_equal. f_equal; by apply str_or_stable.
  - cbn [with_envelope ae_env]. rewrite Hi. f_equal. f_equal. by apply str_or_stable.
Qed.

Lemma payload_survives st a p : printable a -> payload_of a = Ok p -> survives st a p.
Proof.
  intros Hpr Hp. pose proof (plain_payload_survives st a p Hp) as H1.
  pose proof (identified_payload_survives st a p Hpr Hp) as H2. by destruct (event_type a).
Qed.

(** C28: An event survives the trip to a worker and back.  Whatever an agent
    event is converted to, that runtime event can be adapted back, and the event
    so obtained converts to the same runtime event, with the correlation
    identifier filled from the payload when it had none; so identifiers, routes
    and payload are stable across any number of processes. *)
Theorem event_trip_stable st a agent generation session turn e :
  printable a ->
  agent_event_to_runtime_event agent generation session turn a = Ok e ->
  exists a', runtime_event_to_agent_event st e = Ok a' /\
    agent_event_to_runtime_event None None None None a' = Ok (correlated e) /\
    runtime_event_to_agent_event st (correlated e) = Ok a'.
Proof.
  intros Hpr He. unfold agent_event_to_runtime_event in He. bind_ok He. injection He as <-.
  destruct (payload_survives st a a0 Hpr E) as (a' & Hl & Hcar & Hback).
  unfold runtime_event_to_agent_event. cbn [payload env correlated]. rewrite Hl.
  unfold mbind, result_bind. rewrite Hcar. eexists. split; [reflexivity|]. split.
  - unfold agent_event_to_runtime_event. rewrite Hback by done. reflexivity.
  - cbn. f_equal. f_equal. f_equal. by destruct (correlation_id (ae_env a)) as [[|]|], (carried_id a0) as [[|]|].
Qed.

(** The kinds that have no agent event are refused, and nothing else is. *)
Lemma legacy_event_kinds st p :
  is_ok (legacy_event st p) = false <->
  match p with
  | DiagnosticsPublished _ _ _ _ _ | DiagnosticsCleared _ _ _ _ | SessionChanged _ _
  | RuntimeStateChanged _ _ | OperationPhaseChanged _ | ProcessSessionChanged _
  | ViewRequested _ _ | ViewRefreshed _ _ _ => True
  | _ => False
  end.
Proof. by destruct p; cbn. Qed.
End RoundTrip.

Lemma event_trip_stable_witness :
  let _ := strict_coercions in
  let st := {| fresh_event_id := $"n"; stamp_now := 9 |} in
  let a := tool_call_start {| fresh_event_id := $"e1"; stamp_now := 1 |} $"bash" [] None in
  printable a /\
  exists e a', agent_event_to_runtime_event None None None None a = Ok e /\
    payload e = ToolCallStarted $"e1" $"bash" [] /\
    runtime_event_to_agent_event st e = Ok a' /\
    agent_event_to_runtime_event None None None None a' = Ok (correlated e).
Proof.
  intros C st a. assert (Hp : printable a) by (intros k v [=]). split; [exact Hp|].
  destruct (event_trip_stable st a None None None None _ Hp eq_refl) as (a' & H1 & H2 & _).
  eexists _, a'. split; [reflexivity|]. split; [reflexivity|]. split; [exact H1|exact H2].
Defined.
