(* ===== verification/Transcript.v ===== *)
(** * Transcript cells and their bounded store (presentation/models.py)

    A cell has an identifier, a revision and a group, and a body of one of eight
    kinds.  [TranscriptModel] keeps the cells in order with an index from
    identifiers to positions, a running total of text, a revision counter and a
    cached snapshot; appending and replacing evict the oldest cells until both
    limits hold. *)

From S2P Require Import Prelude PyValue ToolOutcome RuntimeEvents.

Inductive ToolCellStatus := TS_RUNNING | TS_SUCCEEDED | TS_FAILED.

Inductive ApprovalSectionKind := SK_TEXT | SK_DIFF | SK_JSON.

Record ApprovalSection := {
  sec_id : pystr; sec_title : pystr; sec_kind : ApprovalSectionKind; sec_content : pyval;
}.

Record ToolBody := {
  tc_call_id : pystr; tc_name : pystr; tc_arguments : option pydict; tc_output : pystr;
  tc_status : ToolCellStatus; tc_outcome : option ToolOutcome; tc_orphaned : bool;
}.

Record ApprovalBody := {
  ap_request_id : pystr; ap_title : pystr; ap_status : pystr; ap_preview : option pystr;
  ap_summary : pystr; ap_sections : list ApprovalSection; ap_reason : option pystr;
  ap_mode : option pystr; ap_grant_label : option pystr; ap_released_count : Z;
  ap_resolution_source : option pystr;
}.

Inductive CellBody :=
| AssistantCell (text : pystr) (complete interrupted : bool)
| UserCell (text : pystr)
| ToolCell (tool : ToolBody)
| DiffCell (path : option pystr) (diff : pystr)
| DiagnosticCell (path batch_id : pystr) (document_version diagnostic_generation : Z)
                 (diagnostics : list RuntimeDiagnostic)
| SubagentCell (job_id mode task status : pystr) (result error : option pystr)
| NoticeCell (message level category : pystr)
| ApprovalCell (approval : ApprovalBody).

Record TranscriptCell := {
  cell_id : pystr;
  cell_body : CellBody;
  cell_revision : Z;
  group_id : option pystr;
}.

(** A new cell, and [next_revision], which replaces fields and counts up. *)
Definition new_cell (i : pystr) (b : CellBody) (g : option pystr) : TranscriptCell :=
  {| cell_id := i; cell_body := b; cell_revision := 0; group_id := g |}.

Definition next_revision (c : TranscriptCell) (b : CellBody) : TranscriptCell :=
  {| cell_id := cell_id c; cell_body := b; cell_revision := cell_revision c + 1;
     group_id := group_id c |}.

Definition with_group (g : option pystr) (c : TranscriptCell) : TranscriptCell :=
  {| cell_id := cell_id c; cell_body := cell_body c; cell_revision := cell_revision c;
     group_id := g |}.

(** [_cell_text_chars]. *)
Definition cell_text_chars (c : TranscriptCell) : Z :=
  match cell_body c with
  | UserCell text | AssistantCell text _ _ => len text
  | ToolCell t => match tc_outcome t with Some o => len (display_text o) | None => 0 end
  | NoticeCell message _ _ => len message
  | SubagentCell _ _ _ _ r e => len (or_empty r) + len (or_empty e)
  | DiffCell _ d => len d
  | DiagnosticCell _ _ _ _ _ | ApprovalCell _ => 0
  end.

Record TranscriptModel := {
  max_cells : Z;
  max_text_chars : Z;
  cells : list TranscriptCell;
  indexes : gmap pystr nat;
  text_chars_total : Z;
  revision : Z;
  cells_snapshot : list TranscriptCell;
}.

Definition new_transcript (cells_limit text_limit : Z) : result TranscriptModel :=
  if cells_limit <? 1 then Raise (ValueError $"max_cells must be positive")
  else if text_limit <? 1 then Raise (ValueError $"max_text_chars must be positive")
  else Ok {| max_cells := cells_limit; max_text_chars := text_limit; cells := [];
             indexes := ∅; text_chars_total := 0; revision := 0; cells_snapshot := [] |}.

(** The [cells] property, which refreshes the cached tuple. *)
Definition snapshot (t : TranscriptModel) : list TranscriptCell * TranscriptModel :=
  let kept := if bool_decide (length (cells_snapshot t) = length (cells t))
              then cells_snapshot t else cells t in
  (kept, {| max_cells := max_cells t; max_text_chars := max_text_chars t; cells := cells t;
            indexes := indexes t; text_chars_total := text_chars_total t;
            revision := revision t; cells_snapshot := kept |}).

Definition get (i : pystr) (t : TranscriptModel) : option TranscriptCell :=
  match indexes t !! i with Some n => cells t !! n | None => None end.

(** New contents, with the revision counted up and the snapshot dropped. *)
Definition changed (l : list TranscriptCell) (ix : gmap pystr nat) (total : Z)
    (t : TranscriptModel) : TranscriptModel :=
  {| max_cells := max_cells t; max_text_chars := max_text_chars t; cells := l; indexes := ix;
     text_chars_total := total; revision := revision t + 1; cells_snapshot := [] |}.

(** [_reindex]. *)
Fixpoint index_from (n : nat) (l : list TranscriptCell) : gmap pystr nat :=
  match l with
  | [] => ∅
  | c :: l' => let m := index_from (S n) l' in
               match m !! cell_id c with Some _ => m | None => <[cell_id c := n]> m end
  end.

(** The loop of [_enforce_retention]: the evicted cells, what is left and its
    total; popping an empty list would raise. *)
Fixpoint evict_loop (cells_limit text_limit : Z) (l : list TranscriptCell) (total : Z)
    : result () * (list TranscriptCell * list TranscriptCell * Z) :=
  if (len l >? cells_limit) || (total >? text_limit) then
    match l with
    | [] => (Raise (OtherError $"pop from empty list"), ([], [], total))
    | c :: l' =>
      let '(r, (evicted, kept, total')) :=
        evict_loop cells_limit text_limit l' (total - cell_text_chars c) in
      (r, (c :: evicted, kept, total'))
    end
  else (Ok (), ([], l, total)).

Definition enforce_retention : stm TranscriptModel (list TranscriptCell) := fun t =>
  let '(r, (evicted, kept, total)) :=
    evict_loop (max_cells t) (max_text_chars t) (cells t) (text_chars_total t) in
  let t' ix := {| max_cells := max_cells t; max_text_chars := max_text_chars t; cells := kept;
                  indexes := ix; text_chars_total := total; revision := revision t;
                  cells_snapshot := cells_snapshot t |} in
  match r with
  | Ok _ => (Ok evicted, t' (match evicted with [] => indexes t | _ => index_from 0 kept end))
  | Raise e => (Raise e, t' (indexes t))
  end.

Definition append (c : TranscriptCell) : stm TranscriptModel (list TranscriptCell) := fun t =>
  if bool_decide (is_Some (indexes t !! cell_id c))
  then (Raise (ValueError ($"Duplicate transcript cell id: " ++ cell_id c)), t)
  else enforce_retention
         (changed (cells t ++ [c]) (<[cell_id c := length (cells t)]> (indexes t))
            (text_chars_total t + cell_text_chars c) t).

Definition replace (c : TranscriptCell) : stm TranscriptModel TranscriptCell := fun t =>
  match indexes t !! cell_id c with
  | None => (Raise (KeyError (cell_id c)), t)
  | Some n =>
    match cells t !! n with
    | None => (Raise (OtherError $"list index out of range"), t)
    | Some previous =>
      match enforce_retention
              (changed (<[n := c]> (cells t)) (indexes t)
                 (text_chars_total t + (cell_text_chars c - cell_text_chars previous)) t) with
      | (Ok _, t') => (Ok previous, t')
      | (Raise e, t') => (Raise e, t')
      end
    end
  end.

Definition clear (t : TranscriptModel) : TranscriptModel :=
  match cells t with [] => t | _ => changed [] ∅ 0 t end.

(** ** The abstract transcript

    A list of cells with distinct identifiers; retention keeps the longest end
    of it that is within both limits. *)

Definition ids (l : list TranscriptCell) : list pystr := map cell_id l.

Definition text_sum (l : list TranscriptCell) : Z := foldr (fun c n => cell_text_chars c + n) 0 l.

Definition fits (t : TranscriptModel) (l : list TranscriptCell) : Prop :=
  len l <= max_cells t /\ text_sum l <= max_text_chars t.

(** [kept] is the longest end of [l] within the limits, [evicted] the rest. *)
Definition retained (t : TranscriptModel) (l evicted kept : list TranscriptCell) : Prop :=
  l = evicted ++ kept /\ fits t kept /\
  forall k, k `suffix_of` l -> fits t k -> (length k <= length kept)%nat.

Definition find_cell (l : list TranscriptCell) (i : pystr) : option TranscriptCell :=
  head (filter (fun c => cell_id c = i) l).

(** The cell with the identifier of [c] becomes [c]. *)
Definition put_cell (c : TranscriptCell) (l : list TranscriptCell) : list TranscriptCell :=
  map (fun d => if decide (cell_id d = cell_id c) then c else d) l.

Record wf (t : TranscriptModel) : Prop := {
  wf_limits : 1 <= max_cells t /\ 1 <= max_text_chars t;
  wf_ids : NoDup (ids (cells t));
  wf_indexes : forall i n, indexes t !! i = Some n <-> ids (cells t) !! n = Some i;
  wf_total : text_chars_total t = text_sum (cells t);
  wf_fits : fits t (cells t);
  wf_snapshot : length (cells_snapshot t) = length (cells t) -> cells_snapshot t = cells t;
}.

(** ** Lemmas *)

Lemma cell_text_chars_nonneg c : 0 <= cell_text_chars c.
Proof. unfold cell_text_chars. repeat case_match; unfold len; lia. Qed.

Lemma text_sum_cons c l : text_sum (c :: l) = cell_text_chars c + text_sum l.
Proof. done. Qed.

Lemma text_sum_nonneg l : 0 <= text_sum l.
Proof.
  induction l as [|c l IH]; [done|]. rewrite text_sum_cons.
  pose proof (cell_text_chars_nonneg c). lia.
Qed.

Lemma text_sum_app k l : text_sum (k ++ l) = text_sum k + text_sum l.
Proof. induction k as [|c k IH]; [done|]. cbn [app]. rewrite !text_sum_cons. lia. Qed.

Lemma text_sum_insert l n c d :
  l !! n = Some d -> text_sum (<[n := c]> l) = text_sum l + (cell_text_chars c - cell_text_chars d).
Proof.
  revert n. induction l as [|x l IH]; intros [|n] H; cbn in H; simplify_eq;
    cbn [insert list_insert]; rewrite !text_sum_cons; [lia|]. rewrite IH by done. lia.
Qed.

Lemma suffix_of_cons {A} (k : list A) c l : k `suffix_of` c :: l -> k = c :: l \/ k `suffix_of` l.
Proof. destruct k as [|d k]; [right; apply suffix_nil|apply suffix_cons_inv]. Qed.

Lemma evict_loop_spec cm tm l :
  0 <= cm -> 0 <= tm ->
  exists evicted kept, evict_loop cm tm l (text_sum l) = (Ok (), (evicted, kept, text_sum kept)) /\
    l = evicted ++ kept /\ len kept <= cm /\ text_sum kept <= tm /\
    forall k, k `suffix_of` l -> len k <= cm -> text_sum k <= tm -> (length k <= length kept)%nat.
Proof.
  intros Hc Ht. induction l as [|c l IH]; cbn [evict_loop]; rewrite !Z.gtb_ltb.
  - exists [], []. destruct (_ || _) eqn:E.
    { apply orb_true_iff in E as [E|E]; zbool; rewrite ?len_nil in E; [lia|].
      change (text_sum []) with 0 in E. lia. }
    split_and!; try done. intros k Hk _ _. apply suffix_nil_inv in Hk. by subst.
  - destruct (_ || _) eqn:E.
    + replace (text_sum (c :: l) - cell_text_chars c) with (text_sum l) by (rewrite text_sum_cons; lia).
      destruct IH as (ev & kept & -> & Hl & Hk1 & Hk2 & Hmax).
      exists (c :: ev), kept. split_and!; [done|by rewrite Hl|done|done|].
      intros k Hk Hk3 Hk4. apply suffix_of_cons in Hk as [->|Hk]; [|by apply Hmax].
      apply orb_true_iff in E as [E|E]; zbool; lia.
    + apply orb_false_iff in E as [E1 E2]. zbool. exists [], (c :: l).
      split_and!; [done|done|lia|lia|]. intros k Hk _ _. by apply suffix_length.
Qed.

Lemma index_from_lookup l n i m :
  NoDup (ids l) -> index_from n l !! i = Some m <-> exists k, ids l !! k = Some i /\ m = (n + k)%nat.
Proof.
  revert n i m. induction l as [|c l IH]; intros n i m Hnd; cbn.
  - rewrite lookup_empty. split; [done|]. by intros ([|k] & ? & _).
  - apply NoDup_cons in Hnd as [Hni Hnd].
    assert (Hnone : index_from (S n) l !! cell_id c = None).
    { destruct (index_from (S n) l !! cell_id c) as [x|] eqn:E; [|done].
      apply IH in E as (k & Hk & _); [|done]. apply list_elem_of_lookup_2 in Hk. done. }
    rewrite Hnone. destruct (decide (cell_id c = i)) as [<-|Hne].
    + rewrite lookup_insert_eq. split.
      * intros [= <-]. exists 0%nat. split; [done|lia].
      * intros ([|k] & Hk & ->); cbn in Hk; [by rewrite Nat.add_0_r|].
        apply list_elem_of_lookup_2 in Hk. done.
    + rewrite lookup_insert_ne, IH by done. split.
      * intros (k & Hk & ->). exists (S k). split; [done|lia].
      * intros ([|k] & Hk & ->); cbn in Hk; [congruence|]. exists k. split; [done|lia].
Qed.

Lemma ids_app k l : ids (k ++ l) = ids k ++ ids l.
Proof. apply map_app. Qed.

Lemma get_find t i : wf t -> get i t = find_cell (cells t) i.
Proof.
  intros Hwf. unfold get. pose proof (wf_ids t Hwf) as Hnd. pose proof (wf_indexes t Hwf i) as Hix.
  destruct (indexes t !! i) as [n|].
  - specialize (proj1 (Hix n) eq_refl) as Hn. clear Hix. revert n Hn Hnd.
    unfold find_cell. induction (cells t) as [|c l IH]; intros [|n] Hn Hnd; cbn in Hn; [done..| |].
    + injection Hn as <-. rewrite filter_cons_True by done. done.
    + apply NoDup_cons in Hnd as [Hni Hnd]. rewrite filter_cons_False.
      * by apply IH.
      * intros Hc. apply list_elem_of_lookup_2 in Hn. by rewrite <- Hc in Hn.
  - assert (Hni : i ∉ ids (cells t)).
    { intros [n Hn]%list_elem_of_lookup. by apply Hix in Hn. }
    clear Hix. unfold find_cell. induction (cells t) as [|c l IH]; [done|].
    cbn in Hni, Hnd. apply NoDup_cons in Hnd as [_ Hnd]. apply not_elem_of_cons in Hni as [Hne Hni].
    rewrite filter_cons_False by done. by apply IH.
Qed.

Lemma find_cell_Some l i c : find_cell l i = Some c -> c ∈ l /\ cell_id c = i.
Proof.
  unfold find_cell. destruct (filter _ l) as [|d k] eqn:E; [done|]. intros [= ->].
  assert (Hin : c ∈ filter (fun c => cell_id c = i) l) by (rewrite E; left).
  by apply list_elem_of_filter in Hin as [? ?].
Qed.

(** Retention on a state whose index and total are exact restores [wf]. *)
Lemma enforce_retention_spec t :
  1 <= max_cells t /\ 1 <= max_text_chars t -> NoDup (ids (cells t)) ->
  (forall i n, indexes t !! i = Some n <-> ids (cells t) !! n = Some i) ->
  text_chars_total t = text_sum (cells t) -> cells_snapshot t = [] ->
  exists evicted t', enforce_retention t = (Ok evicted, t') /\ wf t' /\
    retained t (cells t) evicted (cells t') /\ revision t' = revision t /\
    max_cells t' = max_cells t /\ max_text_chars t' = max_text_chars t.
Proof.
  intros [Hc Ht] Hnd Hix Htot Hsn. unfold enforce_retention. rewrite Htot.
  destruct (evict_loop_spec (max_cells t) (max_text_chars t) (cells t)) as
    (ev & kept & Heq & Hl & H1 & H2 & Hmax); [lia..|].
  rewrite Heq. eexists ev, _. split; [reflexivity|].
  assert (Hndk : NoDup (ids kept)).
  { rewrite Hl, ids_app in Hnd. by apply NoDup_app in Hnd as (_ & _ & ?). }
  split_and!; cbn; try done; [|split_and!; [done|done|]; intros k Hk [Hk1 Hk2]; by apply Hmax].
  constructor; cbn; try done.
  - intros i n. destruct ev as [|c ev].
    + cbn in Hl. rewrite <- Hl. apply Hix.
    + rewrite index_from_lookup by done. split; [by intros (k & ? & ->)|by eexists].
  - rewrite Hsn. by destruct kept.
Qed.


(** ** The operations refine the list *)

Lemma empty_wf t :
  1 <= max_cells t /\ 1 <= max_text_chars t -> cells t = [] -> indexes t = ∅ ->
  text_chars_total t = 0 -> wf t.
Proof.
  intros [Hc Ht] Hl Hix Htot. constructor.
  - done.
  - rewrite Hl. apply NoDup_nil_2.
  - intros i n. rewrite Hix, Hl, lookup_empty. split; [done|]. by destruct n.
  - by rewrite Hl, Htot.
  - unfold fits. rewrite Hl, len_nil. change (text_sum []) with 0. lia.
  - rewrite Hl. apply nil_length_inv.
Qed.

Lemma new_transcript_wf cm tm t : new_transcript cm tm = Ok t -> wf t /\ cells t = [].
Proof.
  unfold new_transcript. destruct (Z.ltb_spec cm 1), (Z.ltb_spec tm 1); try done.
  intros [= <-]. split; [|done]. by apply empty_wf.
Qed.

Lemma snapshot_spec t : wf t -> (snapshot t).1 = cells t /\ wf (snapshot t).2 /\ cells (snapshot t).2 = cells t.
Proof.
  intros Hwf. assert (H1 : (snapshot t).1 = cells t).
  { unfold snapshot. cbn. case_bool_decide as H; [|done]. by apply (wf_snapshot t Hwf). }
  split_and!; [done| |done].
  destruct Hwf. by constructor.
Qed.

Lemma clear_wf t : wf t -> wf (clear t) /\ cells (clear t) = [].
Proof.
  intros Hwf. unfold clear. destruct (cells t) eqn:E; [done|]. split; [|done].
  apply empty_wf; [apply (wf_limits t Hwf)|done..].
Qed.

Lemma snoc_lookup (l : list pystr) x n i :
  x ∉ l -> (l ++ [x]) !! n = Some i <-> (i = x /\ n = length l) \/ (i <> x /\ l !! n = Some i).
Proof.
  intros Hx. split.
  - intros [H|[Hn H]]%lookup_app_Some.
    + right. split; [|done]. intros ->. by apply list_elem_of_lookup_2 in H.
    + apply list_lookup_singleton_Some in H as [H <-]. left. split; [done|lia].
  - intros [[-> ->]|[_ H]]; [by apply list_lookup_middle|by apply lookup_app_l_Some].
Qed.

(** Appending: a known identifier is refused; otherwise the cell joins the end
    and the oldest cells make room. *)
Lemma append_spec c t :
  wf t ->
  if decide (cell_id c ∈ ids (cells t)) then
    append c t = (Raise (ValueError ($"Duplicate transcript cell id: " ++ cell_id c)), t)
  else exists evicted t', append c t = (Ok evicted, t') /\ wf t' /\
    retained t (cells t ++ [c]) evicted (cells t') /\ revision t' = revision t + 1 /\
    max_cells t' = max_cells t /\ max_text_chars t' = max_text_chars t.
Proof.
  intros Hwf. unfold append. pose proof (wf_indexes t Hwf (cell_id c)) as Hix. case_decide as Hin.
  - apply list_elem_of_lookup in Hin as [n Hn]. apply Hix in Hn. by rewrite bool_decide_eq_true_2.
  - rewrite bool_decide_eq_false_2.
    2: { intros [n Hn]. apply Hix, list_elem_of_lookup_2 in Hn. done. }
    destruct (enforce_retention_spec (changed (cells t ++ [c])
      (<[cell_id c := length (cells t)]> (indexes t)) (text_chars_total t + cell_text_chars c) t))
      as (ev & t' & Heq & Hw & Hr & Hrev & Hm & Hmt); cbn.
    + apply (wf_limits t Hwf).
    + rewrite ids_app. apply NoDup_app. split_and!; [apply (wf_ids t Hwf)| |apply NoDup_singleton].
      intros x Hx Hx'%list_elem_of_singleton. cbn in Hx'. by subst.
    + intros i n. rewrite ids_app. cbn [ids map]. fold (ids (cells t)).
      rewrite (snoc_lookup (ids (cells t)) (cell_id c)) by done.
      assert (Hlen : length (ids (cells t)) = length (cells t)) by apply length_map. rewrite Hlen.
      destruct (decide (i = cell_id c)) as [->|Hne].
      * rewrite lookup_insert_eq. naive_solver.
      * rewrite lookup_insert_ne, (wf_indexes t Hwf) by done. naive_solver.
    + rewrite text_sum_app, text_sum_cons, (wf_total t Hwf). cbn. lia.
    + done.
    + exists ev, t'. cbn in *. by split_and!.
Qed.

Lemma ids_put c l : ids (put_cell c l) = ids l.
Proof.
  unfold ids, put_cell. rewrite map_map. apply map_ext. intros d. by case_decide.
Qed.

Lemma insert_put c l n :
  NoDup (ids l) -> ids l !! n = Some (cell_id c) -> <[n := c]> l = put_cell c l.
Proof.
  revert n. induction l as [|d l IH]; intros [|n] Hnd Hn; cbn in *; [done..| |];
    apply NoDup_cons in Hnd as [Hni Hnd].
  - injection Hn as Hd. rewrite decide_True by done. f_equal.
    rewrite <- (map_id l) at 1. apply map_ext_in. intros e He. rewrite decide_False; [done|].
    intros Hc. apply Hni. rewrite Hd, <- Hc. apply list_elem_of_In, in_map. done.
  - rewrite decide_False; [f_equal; by apply IH|].
    intros Hc. apply Hni. apply list_elem_of_lookup_2 in Hn. by rewrite Hc.
Qed.

(** Replacing: an unknown identifier is refused; otherwise the cell takes the
    place of its predecessor and the oldest cells make room. *)
Lemma replace_spec c t :
  wf t ->
  match find_cell (cells t) (cell_id c) with
  | None => replace c t = (Raise (KeyError (cell_id c)), t)
  | Some previous => exists evicted t', replace c t = (Ok previous, t') /\ wf t' /\
      retained t (put_cell c (cells t)) evicted (cells t') /\ revision t' = revision t + 1 /\
      max_cells t' = max_cells t /\ max_text_chars t' = max_text_chars t
  end.
Proof.
  intros Hwf. rewrite <- get_find by done. unfold get, replace.
  destruct (indexes t !! cell_id c) as [n|] eqn:Hn; [|done].
  apply (wf_indexes t Hwf) in Hn as Hid.
  assert (exists d, cells t !! n = Some d) as [d Hd].
  { unfold ids in Hid. apply list_lookup_fmap_Some in Hid as (d & _ & ?). by exists d. }
  rewrite Hd.
  pose proof (insert_put c (cells t) n (wf_ids t Hwf) Hid) as Hput.
  destruct (enforce_retention_spec (changed (<[n := c]> (cells t)) (indexes t)
    (text_chars_total t + (cell_text_chars c - cell_text_chars d)) t))
    as (ev & t' & Heq & Hw & Hr & Hrev & Hm & Hmt).
  - apply (wf_limits t Hwf).
  - cbn [changed cells]. rewrite Hput, ids_put. apply (wf_ids t Hwf).
  - cbn [changed cells indexes]. rewrite Hput, ids_put. apply (wf_indexes t Hwf).
  - cbn [changed cells text_chars_total]. rewrite (text_sum_insert _ _ _ d) by done.
    by rewrite (wf_total t Hwf).
  - done.
  - rewrite Heq. exists ev, t'. cbn [changed cells] in Hr. rewrite Hput in Hr. by split_and!.
Qed.

(** ** Whole histories *)

Inductive TOp :=
| TAppend (c : TranscriptCell)
| TReplace (c : TranscriptCell)
| TClear
| TCells.

Definition run_op (t : TranscriptModel) (op : TOp) : TranscriptModel :=
  match op with
  | TAppend c => (append c t).2
  | TReplace c => (replace c t).2
  | TClear => clear t
  | TCells => (snapshot t).2
  end.

(** The longest end within the limits, as a function. *)
Fixpoint retain (cm tm : Z) (l : list TranscriptCell) : list TranscriptCell :=
  match l with
  | [] => []
  | _ :: l' => if (len l <=? cm) && (text_sum l <=? tm) then l else retain cm tm l'
  end.

Definition list_op (cm tm : Z) (l : list TranscriptCell) (op : TOp) : list TranscriptCell :=
  match op with
  | TAppend c => if decide (cell_id c ∈ ids l) then l else retain cm tm (l ++ [c])
  | TReplace c => if decide (cell_id c ∈ ids l) then retain cm tm (put_cell c l) else l
  | TClear => []
  | TCells => l
  end.

Lemma retained_retain t l evicted kept :
  retained t l evicted kept -> kept = retain (max_cells t) (max_text_chars t) l.
Proof.
  intros (-> & [Hc Ht] & Hmax). induction evicted as [|c ev IH]; cbn [app].
  - destruct kept as [|c kept]; [done|]. cbn [retain].
    by rewrite (proj2 (Z.leb_le _ _) Hc), (proj2 (Z.leb_le _ _) Ht).
  - cbn [retain app]. destruct (_ && _) eqn:E.
    + apply andb_true_iff in E as [E1 E2]. zbool.
      exfalso. assert (Hle : (length (c :: ev ++ kept) <= length kept)%nat) by (apply Hmax; done).
      cbn in Hle. rewrite length_app in Hle. lia.
    + apply IH. intros k Hk. apply Hmax. by apply suffix_cons_r.
Qed.

Lemma find_cell_ids l i : is_Some (find_cell l i) <-> i ∈ ids l.
Proof.
  split.
  - intros [c Hc]. apply find_cell_Some in Hc as [Hin <-]. apply list_elem_of_In, in_map.
    by apply list_elem_of_In.
  - intros Hin. apply list_elem_of_In, in_map_iff in Hin as (c & Hc & Hin).
    unfold find_cell. destruct (filter _ l) as [|d k] eqn:E; [|by eexists].
    exfalso. apply list_elem_of_In in Hin.
    assert (Hf : c ∈ filter (fun c => cell_id c = i) l) by by apply list_elem_of_filter.
    rewrite E in Hf. by apply elem_of_nil in Hf.
Qed.

Lemma run_op_spec op t :
  wf t ->
  wf (run_op t op) /\ cells (run_op t op) = list_op (max_cells t) (max_text_chars t) (cells t) op /\
  max_cells (run_op t op) = max_cells t /\ max_text_chars (run_op t op) = max_text_chars t /\
  revision t <= revision (run_op t op).
Proof.
  intros Hwf. destruct op as [c|c| |]; cbn [run_op list_op].
  - pose proof (append_spec c t Hwf) as H. case_decide.
    + rewrite H. split_and!; try done; lia.
    + destruct H as (ev & t' & -> & Hw & Hr & Hrev & Hm & Hmt). cbn [snd].
      split_and!; [done|by eapply retained_retain|done|done|lia].
  - pose proof (replace_spec c t Hwf) as H. pose proof (find_cell_ids (cells t) (cell_id c)) as Hid.
    destruct (find_cell (cells t) (cell_id c)) as [d|].
    + rewrite decide_True by (apply Hid; by eexists).
      destruct H as (ev & t' & -> & Hw & Hr & Hrev & Hm & Hmt). cbn [snd].
      split_and!; [done|by eapply retained_retain|done|done|lia].
    + rewrite decide_False by (intros Hin; apply Hid in Hin as [? [=]]).
      rewrite H. split_and!; try done; lia.
  - destruct (clear_wf t Hwf) as [Hw Hl]. split_and!; [done|done|..];
      unfold clear; destruct (cells t); cbn; lia || done.
  - destruct (snapshot_spec t Hwf) as (_ & Hw & Hl). split_and!; [done|done|done|done|cbn; lia].
Qed.

(** C25: The transcript is a bounded list.  After any appends, replacements, reads
    and clears of a new transcript, the cells are those of the plain list
    operations followed by keeping the longest end within both limits; the index
    finds exactly the cell with an identifier, identifiers are distinct, the text
    total is exact, the cached snapshot is current, both limits hold, and the
    revision never decreases. *)
Theorem transcript_refines cm tm t0 ops :
  new_transcript cm tm = Ok t0 ->
  let t := foldl run_op t0 ops in
  cells t = foldl (list_op cm tm) [] ops /\
  (forall i, get i t = find_cell (cells t) i) /\ NoDup (ids (cells t)) /\
  text_chars_total t = text_sum (cells t) /\ (snapshot t).1 = cells t /\
  len (cells t) <= cm /\ text_sum (cells t) <= tm /\
  forall op, revision t <= revision (run_op t op).
Proof.
  intros Hnew. destruct (new_transcript_wf _ _ _ Hnew) as [Hw Hl].
  assert (Hlim : max_cells t0 = cm /\ max_text_chars t0 = tm).
  { unfold new_transcript in Hnew. destruct (cm <? 1), (tm <? 1); by simplify_eq. }
  rewrite <- Hl. clear Hnew Hl. cbv zeta.
  assert (H : wf (foldl run_op t0 ops) /\ cells (foldl run_op t0 ops) = foldl (list_op cm tm) (cells t0) ops
              /\ max_cells (foldl run_op t0 ops) = cm /\ max_text_chars (foldl run_op t0 ops) = tm).
  { revert t0 Hw Hlim. induction ops as [|op ops IH]; intros t0 Hw [Hc Ht]; [done|].
    destruct (run_op_spec op t0 Hw) as (Hw' & Hl' & Hc' & Ht' & _). cbn [foldl].
    destruct (IH (run_op t0 op) Hw') as (? & -> & ? & ?); [by rewrite Hc', Ht'|].
    split_and!; [done| |done|done]. by rewrite Hl', Hc, Ht. }
  destruct H as (Hwt & Hlt & Hct & Htt). set (t := foldl run_op t0 ops) in *.
  destruct (wf_fits t Hwt) as [Hf1 Hf2]. rewrite Hct in Hf1. rewrite Htt in Hf2.
  split_and!; [done|intros; by apply get_find|apply (wf_ids t Hwt)|apply (wf_total t Hwt)
              |exact (proj1 (snapshot_spec t Hwt))|done|done|].
  intros op. by destruct (run_op_spec op t Hwt) as (_ & _ & _ & _ & ?).
Qed.

Lemma transcript_refines_witness :
  let c n := new_cell [n] (UserCell [n; n]) None in
  let ops := [TAppend (c 1); TAppend (c 2); TCells; TAppend (c 1); TAppend (c 3);
              TReplace (next_revision (c 2) (UserCell $"abc"))] in
  exists t0, new_transcript 2 4 = Ok t0 /\
    ids (cells (foldl run_op t0 ops)) = [[3]] /\ text_chars_total (foldl run_op t0 ops) = 2.
Proof.
  eexists. split; [reflexivity|].
  destruct (transcript_refines 2 4 _
    [TAppend (new_cell [1] (UserCell [1; 1]) None); TAppend (new_cell [2] (UserCell [2; 2]) None);
     TCells; TAppend (new_cell [1] (UserCell [1; 1]) None); TAppend (new_cell [3] (UserCell [3; 3]) None);
     TReplace (next_revision (new_cell [2] (UserCell [2; 2]) None) (UserCell $"abc"))] eq_refl)
    as (Hl & _ & _ & Ht & _).
  cbv zeta in Hl, Ht |- *. rewrite Ht, Hl. by vm_compute.
Defined.
