(* ===== verification/Policy.v ===== *)
(** * Presentation policy (presentation/policy.py)

    What an interface shows of a tool result and which notifications it shows.
    Previews are projections of the outcome's interface text, cut by [fold_text]
    to a number of lines and characters. *)

From S2P Require Import Prelude PyValue Lines ToolOutcome.

Inductive Verbosity := COMPACT | STANDARD | V_DEBUG.
Inductive ToolOutputMode := ERRORS | SUMMARY | PREVIEW | FULL.
Inductive ReasoningDisplay := HIDDEN | INDICATOR | INLINE.
Inductive NotificationThreshold := T_DEBUG | T_INFO | T_WARNING | T_ERROR.

Record PresentationPolicy := {
  verbosity : Verbosity;
  tool_output_mode : ToolOutputMode;
  tool_preview_chars : Z;
  tool_preview_lines : Z;
  show_tool_args : bool;
  reasoning_display : ReasoningDisplay;
  notification_threshold : NotificationThreshold;
}.

Definition default_policy : PresentationPolicy :=
  {| verbosity := COMPACT; tool_output_mode := SUMMARY; tool_preview_chars := 1200;
     tool_preview_lines := 20; show_tool_args := true; reasoning_display := INDICATOR;
     notification_threshold := T_INFO |}.

(** [s.lstrip()]. *)
Definition lstrip (s : pystr) : pystr := drop_while is_space s.

Definition fold_marker (lines chars : Z) : pystr :=
  $"… (output folded; " ++ z_str lines ++ $" lines, " ++ z_str chars
  ++ $" chars total; set ui.tool_output=full to show all)".

Definition fold_text (text : pystr) (max_lines max_chars : Z) : pystr :=
  let lines := splitlines text in
  if (len lines <=? max_lines) && (len text <=? max_chars) then text
  else
    let line_budget := Z.max 1 max_lines in
    let head_lines := Z.max 1 ((line_budget + 1) / 2) in
    let tail_lines := Z.max 0 (line_budget - head_lines) in
    let tail := if tail_lines =? 0 then [] else slice_last tail_lines lines in
    let selected_text := join [10] (slice_to head_lines lines ++ tail) in
    let marker := fold_marker (len lines) (len text) in
    let char_budget := Z.max 1 max_chars in
    if len selected_text <=? char_budget then
      if tail_lines =? 0 then selected_text ++ 10 :: marker
      else join [10] (slice_to head_lines lines) ++ 10 :: marker ++ 10 :: join [10] tail
    else
      let head_chars := Z.max 1 ((char_budget + 1) / 2) in
      let tail_chars := Z.max 0 (char_budget - head_chars) in
      let head := rstrip (slice_to head_chars selected_text) in
      let tail := if tail_chars =? 0 then [] else lstrip (slice_last tail_chars selected_text) in
      match tail with
      | [] => head ++ 10 :: marker
      | _ => head ++ 10 :: marker ++ 10 :: tail
      end.

Definition tool_preview (p : PresentationPolicy) (o : ToolOutcome) : pystr :=
  let folded := fold_text (ui_text true o) (tool_preview_lines p) (tool_preview_chars p) in
  match tool_output_mode p, success o with
  | ERRORS, true => []
  | FULL, _ => ui_text true o
  | _, _ =>
    if bool_decide (status o = TIMED_OUT) || bool_decide (status o = CANCELLED) then
      let lines := splitlines (ui_text true o) in
      match reverse lines with
      | [] => []
      | l :: before => join [10] (slice_last 5 (reverse before) ++ [l])
      end
    else match strategy (retention_hint o) with
    | TAIL =>
      if text_true (summary o) then
        join [10] (slice_last 5 (splitlines (ui_text true o)) ++ [$"└ " ++ or_empty (summary o)])
      else folded
    | _ =>
      match tool_output_mode p with
      | SUMMARY => if text_true (summary o) then or_empty (summary o) else folded
      | _ => folded
      end
    end
  end.

Definition threshold_rank (t : NotificationThreshold) : Z :=
  match t with T_DEBUG => 0 | T_INFO => 1 | T_WARNING => 2 | T_ERROR => 3 end.

Definition level_rank (level : pystr) : Z :=
  if bool_decide (level = $"debug") then 0
  else if bool_decide (level = $"info") then 1
  else if bool_decide (level = $"success") then 1
  else if bool_decide (level = $"warning") then 2
  else if bool_decide (level = $"error") then 3 else 1.

Definition should_render_notification (p : PresentationPolicy) (level : pystr) : bool :=
  level_rank level >=? threshold_rank (notification_threshold p).

Definition tool_diff_preview (p : PresentationPolicy) (o : ToolOutcome) : pystr :=
  match tool_output_mode p, diff o with
  | SUMMARY, Some d =>
    if truthy (dget_none (metadata o) $"show_diff_by_default")
       && negb (truthy (dget_none (metadata o) $"diff_reviewed"))
    then fold_text (unified d) (tool_preview_lines p) (tool_preview_chars p)
    else []
  | _, _ => []
  end.

(** ** Theorems *)

Lemma slice_last_len {A} n (l : list A) : 0 < n -> len (slice_last n l) = Z.min n (len l).
Proof.
  intros Hn. unfold slice_last. destruct (Z.ltb_spec 0 n); [|lia]. rewrite len_drop.
  unfold len. lia.
Qed.

Lemma slice_to_len {A} n (l : list A) : 0 <= n -> len (slice_to n l) = Z.min n (len l).
Proof. intros. unfold slice_to. rewrite len_take. lia. Qed.

Lemma rstrip_len s : len (rstrip s) <= len s.
Proof. unfold len, rstrip. pose proof (rdrop_while_length is_space s). lia. Qed.

Lemma lstrip_len s : len (lstrip s) <= len s.
Proof. unfold len, lstrip. pose proof (drop_while_length is_space s). lia. Qed.

Lemma join_cons sep s t l : join sep (s :: t :: l) = s ++ sep ++ join sep (t :: l).
Proof. done. Qed.

Lemma join_len_app sep k l : len (join sep k) + len (join sep l) <= len (join sep (k ++ l)).
Proof.
  induction k as [|s k IH]; cbn [app]; [change (len (join sep [])) with 0; lia|].
  destruct k as [|s' k]; cbn [app] in *.
  - change (join sep [s]) with s. destruct l as [|t l]; [change (len (join sep [])) with 0; change (join sep [s]) with s; lia|].
    rewrite join_cons, !len_app. pose proof (len_nonneg sep). lia.
  - rewrite !join_cons, !len_app. lia.
Qed.

(** A preview is bounded.  A text within both limits is shown unchanged; any
    other text is cut to at most [max_chars] of its characters (one, for a smaller
    limit) plus the marker line, however long its lines are. *)
Theorem fold_text_bounded text max_lines max_chars :
  (len (splitlines text) <= max_lines -> len text <= max_chars ->
     fold_text text max_lines max_chars = text) /\
  (len (splitlines text) <= max_lines /\ len text <= max_chars \/
   len (fold_text text max_lines max_chars)
   <= Z.max 1 max_chars + 2 + len (fold_marker (len (splitlines text)) (len text))).
Proof.
  split.
  - intros Hl Hc. unfold fold_text. by rewrite (proj2 (Z.leb_le _ _) Hl), (proj2 (Z.leb_le _ _) Hc).
  - unfold fold_text. set (marker := fold_marker _ _).
    destruct (_ && _) eqn:Hfit; [left; apply andb_true_iff in Hfit as [? ?]; by zbool|right].
    clear Hfit.
    set (head := slice_to _ (splitlines text)).
    set (tail_lines := Z.max 0 _). set (tail := if tail_lines =? 0 then [] else _).
    pose proof (join_len_app [10] head tail) as Hj.
    destruct (Z.leb_spec (len (join [10] (head ++ tail))) (Z.max 1 max_chars)) as [Hs|Hs].
    + destruct (tail_lines =? 0); rewrite !len_app, !len_cons, ?len_app, ?len_cons; try lia.
    + set (selected := join [10] (head ++ tail)) in *.
      set (head_chars := Z.max 1 ((Z.max 1 max_chars + 1) / 2)).
      set (tail_chars := Z.max 0 (Z.max 1 max_chars - head_chars)).
      assert (Hh : len (rstrip (slice_to head_chars selected)) <= head_chars).
      { pose proof (rstrip_len (slice_to head_chars selected)) as Hr.
        rewrite slice_to_len in Hr by lia. lia. }
      assert (Hsum : head_chars + tail_chars <= Z.max 1 max_chars).
      { unfold tail_chars, head_chars. pose proof (Z.div_le_upper_bound (Z.max 1 max_chars + 1) 2 (Z.max 1 max_chars)). lia. }
      set (last := if tail_chars =? 0 then [] else _).
      assert (Ht : len last <= tail_chars).
      { unfold last. destruct (Z.eqb_spec tail_chars 0) as [|Hne]; [rewrite len_nil; lia|].
        pose proof (lstrip_len (slice_last tail_chars selected)) as Hr.
        rewrite slice_last_len in Hr by lia. lia. }
      clearbody last. destruct last; rewrite !len_app, !len_cons, ?len_app, ?len_cons in *; lia.
Qed.
