(* ===== verification/Reducer.v ===== *)
(** * The presentation reducer (presentation/reducer.py)

    [apply] folds runtime events into the transcript and the correlation state of
    a view, and returns the changes a renderer must make.  Every dictionary of
    [RuntimeViewState] is a finite map; an exception keeps the changes made
    before it. *)

From S2P Require Import Prelude PyValue Lines ToolOutcome RuntimeEvents Transcript Policy.

Abbreviation Route := (option pystr * option pystr * option Z * option pystr)%type.
Abbreviation TurnRoute := (option pystr * option pystr * option Z)%type.

Inductive PresentationChange :=
| PC_APPEND (cell : TranscriptCell)
| PC_UPDATE (cell previous : TranscriptCell)
| PC_EVICT (cell : TranscriptCell)
| PC_RESET.

Record RuntimeViewState := {
  transcript : TranscriptModel;
  seen_event_ids : gset pystr;
  session_generations : gmap (option pystr * option pystr) Z;
  active_session_id : option pystr;
  runtime_state : pystr;
  view_revisions : gmap (pystr * pystr) Z;
  active_assistant_cells : gmap Route pystr;
  active_turn_groups : gmap TurnRoute pystr;
}.

Definition new_view (t : TranscriptModel) : RuntimeViewState :=
  {| transcript := t; seen_event_ids := ∅; session_generations := ∅; active_session_id := None;
     runtime_state := $"idle"; view_revisions := ∅; active_assistant_cells := ∅;
     active_turn_groups := ∅ |}.

(** ** Field updates *)

Definition set_transcript (t : TranscriptModel) (s : RuntimeViewState) : RuntimeViewState :=
  {| transcript := t; seen_event_ids := seen_event_ids s;
     session_generations := session_generations s; active_session_id := active_session_id s;
     runtime_state := runtime_state s; view_revisions := view_revisions s;
     active_assistant_cells := active_assistant_cells s;
     active_turn_groups := active_turn_groups s |}.

Definition set_seen (i : pystr) (s : RuntimeViewState) : RuntimeViewState :=
  {| transcript := transcript s; seen_event_ids := {[i]} ∪ seen_event_ids s;
     session_generations := session_generations s; active_session_id := active_session_id s;
     runtime_state := runtime_state s; view_revisions := view_revisions s;
     active_assistant_cells := active_assistant_cells s;
     active_turn_groups := active_turn_groups s |}.

Definition set_generation (k : option pystr * option pystr) (n : Z) (s : RuntimeViewState)
    : RuntimeViewState :=
  {| transcript := transcript s; seen_event_ids := seen_event_ids s;
     session_generations := <[k := n]> (session_generations s);
     active_session_id := active_session_id s;
     runtime_state := runtime_state s; view_revisions := view_revisions s;
     active_assistant_cells := active_assistant_cells s;
     active_turn_groups := active_turn_groups s |}.

Definition set_session (i : option pystr) (s : RuntimeViewState) : RuntimeViewState :=
  {| transcript := transcript s; seen_event_ids := seen_event_ids s;
     session_generations := session_generations s; active_session_id := i;
     runtime_state := runtime_state s; view_revisions := view_revisions s;
     active_assistant_cells := active_assistant_cells s;
     active_turn_groups := active_turn_groups s |}.

Definition set_runtime_state (r : pystr) (s : RuntimeViewState) : RuntimeViewState :=
  {| transcript := transcript s; seen_event_ids := seen_event_ids s;
     session_generations := session_generations s; active_session_id := active_session_id s;
     runtime_state := r; view_revisions := view_revisions s;
     active_assistant_cells := active_assistant_cells s;
     active_turn_groups := active_turn_groups s |}.

Definition set_view_revision (k : pystr * pystr) (n : Z) (s : RuntimeViewState) : RuntimeViewState :=
  {| transcript := transcript s; seen_event_ids := seen_event_ids s;
     session_generations := session_generations s; active_session_id := active_session_id s;
     runtime_state := runtime_state s; view_revisions := <[k := n]> (view_revisions s);
     active_assistant_cells := active_assistant_cells s;
     active_turn_groups := active_turn_groups s |}.

Definition set_assistants (m : gmap Route pystr) (s : RuntimeViewState) : RuntimeViewState :=
  {| transcript := transcript s; seen_event_ids := seen_event_ids s;
     session_generations := session_generations s; active_session_id := active_session_id s;
     runtime_state := runtime_state s; view_revisions := view_revisions s;
     active_assistant_cells := m; active_turn_groups := active_turn_groups s |}.

Definition set_turn_groups (m : gmap TurnRoute pystr) (s : RuntimeViewState) : RuntimeViewState :=
  {| transcript := transcript s; seen_event_ids := seen_event_ids s;
     session_generations := session_generations s; active_session_id := active_session_id s;
     runtime_state := runtime_state s; view_revisions := view_revisions s;
     active_assistant_cells := active_assistant_cells s; active_turn_groups := m |}.

(** A transcript operation on the state. *)
Definition on_transcript {A} (m : stm TranscriptModel A) : stm RuntimeViewState A := fun s =>
  let '(r, t) := m (transcript s) in (r, set_transcript t s).

Abbreviation Changes := (list PresentationChange).
Abbreviation RM A := (stm RuntimeViewState A).

(** [_append] and [_replace]. *)
Definition append_cell (c : TranscriptCell) : RM Changes :=
  evicted ← on_transcript (append c);
  mret (PC_APPEND c :: map PC_EVICT evicted).

Definition replace_cell (c : TranscriptCell) : RM Changes :=
  previous ← on_transcript (replace c);
  mret [PC_UPDATE c previous].

(** ** Routes, groups and identifiers *)

Definition assistant_route (e : RuntimeEvent) : Route :=
  (agent_id (env e), session_id (env e), session_generation (env e), turn_id (env e)).

Definition turn_route (e : RuntimeEvent) : TurnRoute :=
  (agent_id (env e), session_id (env e), session_generation (env e)).

Definition event_identity (e : RuntimeEvent) : pystr := text_or (turn_id (env e)) (event_id (env e)).

(** [str(event.session_generation or 0)]. *)
Definition group_identity (e : RuntimeEvent) (identity : pystr) : pystr :=
  join $":" [text_or (agent_id (env e)) $"agent"; text_or (session_id (env e)) $"session";
             z_str (default 0 (session_generation (env e))); identity].

Definition start_turn_group (e : RuntimeEvent) : RM pystr := fun s =>
  let g := group_identity e (event_identity e) in
  (Ok g, set_turn_groups (<[turn_route e := g]> (active_turn_groups s)) s).

Definition event_group (e : RuntimeEvent) (s : RuntimeViewState) : option pystr :=
  match turn_id (env e) with
  | Some ((_ :: _) as t) => Some (group_identity e t)
  | _ => active_turn_groups s !! turn_route e
  end.

(** [f"{prefix}:{agent_id}:{identity}"], without the agent when it is empty. *)
Definition agent_scoped (prefix : pystr) (e : RuntimeEvent) : pystr :=
  match agent_id (env e) with
  | Some ((_ :: _) as a) => prefix ++ $":" ++ a ++ $":" ++ event_identity e
  | _ => prefix ++ $":" ++ event_identity e
  end.

Definition next_assistant_cell_id (e : RuntimeEvent) (s : RuntimeViewState) : pystr :=
  let i := agent_scoped $"assistant" e in
  match get i (transcript s) with
  | Some _ => i ++ $":" ++ event_id (env e)
  | None => i
  end.

(** [_visible_user_input]: the text after the first blank line of a lifecycle
    message. *)
Fixpoint after_blank_line (t : pystr) : option pystr :=
  match t with
  | c :: ((d :: r) as t') => if (c =? 10) && (d =? 10) then Some r else after_blank_line t'
  | _ => None
  end.

Definition visible_user_input (t : pystr) : pystr :=
  if startswith t $"[SESSION_RESUME]" || startswith t $"[SESSION_EXIT]"
  then default [] (after_blank_line t)
  else t.

Definition tool_output_tail (t : pystr) (max_chars : Z) : pystr :=
  slice_last max_chars (concat (slice_last 5 (lines_keep t))).

(** ** Assistant streams *)

(** The route's active cell, when it is an assistant cell. *)
Definition active_assistant (e : RuntimeEvent) (s : RuntimeViewState)
    : option (TranscriptCell * (pystr * bool * bool)) :=
  match active_assistant_cells s !! assistant_route e with
  | Some ((_ :: _) as i) =>
    match get i (transcript s) with
    | Some c => match cell_body c with
                | AssistantCell t complete interrupted => Some (c, (t, complete, interrupted))
                | _ => None
                end
    | None => None
    end
  | _ => None
  end.

Definition drop_active (e : RuntimeEvent) (s : RuntimeViewState) : RuntimeViewState :=
  set_assistants (delete (assistant_route e) (active_assistant_cells s)) s.

Definition append_stream (e : RuntimeEvent) (t : pystr) : RM Changes :=
  s ← st_get;
  match active_assistant e s with
  | Some (c, (t0, false, interrupted)) =>
    replace_cell (next_revision c (AssistantCell (t0 ++ t) false interrupted))
  | _ =>
    let i := next_assistant_cell_id e s in
    let c := new_cell i (AssistantCell t false false) (event_group e s) in
    _ ← st_modify (set_assistants (<[assistant_route e := i]> (active_assistant_cells s)));
    append_cell c
  end.

Definition complete_chat (e : RuntimeEvent) (response : pystr) : RM Changes :=
  s ← st_get;
  match active_assistant e s with
  | Some (c, (_, false, interrupted)) =>
    _ ← st_modify (drop_active e);
    replace_cell (next_revision c (AssistantCell response true interrupted))
  | _ =>
    _ ← st_modify (drop_active e);
    match response with
    | [] => mret []
    | _ => append_cell (new_cell (next_assistant_cell_id e s) (AssistantCell response true false)
                          (event_group e s))
    end
  end.

Definition complete_active_assistant (e : RuntimeEvent) : RM () :=
  s ← st_get;
  match active_assistant e s with
  | Some (c, (t, false, interrupted)) =>
    _ ← on_transcript (replace (next_revision c (AssistantCell t true interrupted)));
    st_modify (drop_active e)
  | _ => st_modify (drop_active e)
  end.

Definition interrupt_active_assistant (e : RuntimeEvent) : RM Changes :=
  s ← st_get;
  _ ← st_modify (drop_active e);
  match active_assistant e s with
  | Some (c, (t, false, _)) => replace_cell (next_revision c (AssistantCell t true true))
  | _ => mret []
  end.

(** ** Tools, diffs and diagnostics *)

Definition record_diff (e : RuntimeEvent) (call : pystr) (o : ToolOutcome) : RM Changes :=
  s ← st_get;
  if truthy (dget_none (metadata o) $"diff_reviewed") then mret []
  else match diff o with
  | Some d =>
    match unified d with
    | [] => mret []
    | _ =>
      let i := $"diff:" ++ call in
      match get i (transcript s) with
      | Some ({| cell_body := DiffCell _ _ |} as c) =>
        replace_cell (next_revision c (DiffCell (Some (d_path d)) (unified d)))
      | _ => append_cell (new_cell i (DiffCell (Some (d_path d)) (unified d)) (event_group e s))
      end
    end
  | None => mret []
  end.

Definition finish_tool (e : RuntimeEvent) (call name : pystr) (o : ToolOutcome) : RM Changes :=
  s ← st_get;
  let i := $"tool:" ++ call in
  let status := if success o then TS_SUCCEEDED else TS_FAILED in
  changes ← match get i (transcript s) with
    | Some ({| cell_body := ToolCell b |} as c) =>
      replace_cell (next_revision c (ToolCell
        {| tc_call_id := tc_call_id b; tc_name := tc_name b; tc_arguments := tc_arguments b;
           tc_output := tc_output b; tc_status := status; tc_outcome := Some o;
           tc_orphaned := tc_orphaned b |}))
    | _ => append_cell (new_cell i (ToolCell
        {| tc_call_id := call; tc_name := name; tc_arguments := None; tc_output := [];
           tc_status := status; tc_outcome := Some o; tc_orphaned := true |}) (event_group e s))
    end;
  more ← record_diff e call o;
  mret (changes ++ more).

Definition append_tool_output (p : PresentationPolicy) (e : RuntimeEvent) (call t : pystr)
    : RM Changes :=
  s ← st_get;
  let i := $"tool:" ++ call in
  match get i (transcript s) with
  | Some ({| cell_body := ToolCell b |} as c) =>
    replace_cell (next_revision c (ToolCell
      {| tc_call_id := tc_call_id b; tc_name := tc_name b; tc_arguments := tc_arguments b;
         tc_output := tool_output_tail (tc_output b ++ t) (tool_preview_chars p);
         tc_status := tc_status b; tc_outcome := tc_outcome b; tc_orphaned := tc_orphaned b |}))
  | _ => append_cell (new_cell i (ToolCell
      {| tc_call_id := call; tc_name := $"unknown_tool"; tc_arguments := None;
         tc_output := tool_output_tail t (tool_preview_chars p);
         tc_status := TS_RUNNING; tc_outcome := None; tc_orphaned := true |}) (event_group e s))
  end.

Definition diagnostic_cell_id (e : RuntimeEvent) (file_path : pystr) : pystr :=
  $"diagnostic:" ++ text_or (agent_id (env e)) $"unknown" ++ $":" ++ file_path.

Definition publish_diagnostics (e : RuntimeEvent) (batch file : pystr) (version generation : Z)
    (l : list RuntimeDiagnostic) : RM Changes :=
  s ← st_get;
  let i := diagnostic_cell_id e file in
  match get i (transcript s) with
  | Some ({| cell_body := DiagnosticCell path _ _ _ _ |} as c) =>
    replace_cell (next_revision c (DiagnosticCell path batch version generation l))
  | _ => append_cell (new_cell i (DiagnosticCell file batch version generation l) (event_group e s))
  end.

Definition clear_diagnostics (e : RuntimeEvent) (batch file : pystr) (version generation : Z)
    : RM Changes := publish_diagnostics e batch file version generation [].

Definition change_subagent (e : RuntimeEvent) (j : SubagentJob) : RM Changes :=
  s ← st_get;
  let i := $"subagent:" ++ job_id j in
  match get i (transcript s) with
  | Some ({| cell_body := SubagentCell job _ _ _ _ _ |} as c) =>
    replace_cell (next_revision c
      (SubagentCell job (mode j) (task j) (job_status j) (job_result j) (job_error j)))
  | _ => append_cell (new_cell i
      (SubagentCell (job_id j) (mode j) (task j) (job_status j) (job_result j) (job_error j))
      (event_group e s))
  end.

(** ** Approvals and notices *)

Definition request_approval (e : RuntimeEvent) (request title : pystr) (preview : option pystr)
    : RM Changes :=
  s ← st_get;
  let i := $"approval:" ++ request in
  let g := event_group e s in
  match get i (transcript s) with
  | Some ({| cell_body := ApprovalCell b |} as c) =>
    replace_cell (with_group (opt_or (group_id c) g) (next_revision c (ApprovalCell
      {| ap_request_id := ap_request_id b; ap_title := title; ap_status := $"pending";
         ap_preview := preview; ap_summary := ap_summary b; ap_sections := ap_sections b;
         ap_reason := None; ap_mode := ap_mode b; ap_grant_label := ap_grant_label b;
         ap_released_count := ap_released_count b;
         ap_resolution_source := ap_resolution_source b |})))
  | _ => append_cell (new_cell i (ApprovalCell
      {| ap_request_id := request; ap_title := title; ap_status := $"pending";
         ap_preview := preview; ap_summary := []; ap_sections := []; ap_reason := None;
         ap_mode := None; ap_grant_label := None; ap_released_count := 0;
         ap_resolution_source := None |}) g)
  end.

Definition resolve_approval (e : RuntimeEvent) (request : pystr) (approved : bool)
    (reason mode grant_label : option pystr) (released : Z) (src : option pystr) : RM Changes :=
  s ← st_get;
  let i := $"approval:" ++ request in
  let status := if approved then $"approved" else $"denied" in
  match get i (transcript s) with
  | Some ({| cell_body := ApprovalCell b |} as c) =>
    replace_cell (next_revision c (ApprovalCell
      {| ap_request_id := ap_request_id b; ap_title := ap_title b; ap_status := status;
         ap_preview := ap_preview b; ap_summary := ap_summary b; ap_sections := ap_sections b;
         ap_reason := reason; ap_mode := mode; ap_grant_label := grant_label;
         ap_released_count := released; ap_resolution_source := src |}))
  | _ => append_cell (new_cell i (ApprovalCell
      {| ap_request_id := request; ap_title := $"Approval"; ap_status := status;
         ap_preview := None; ap_summary := []; ap_sections := []; ap_reason := reason;
         ap_mode := mode; ap_grant_label := grant_label; ap_released_count := released;
         ap_resolution_source := src |}) (event_group e s))
  end.

Definition hydrate_approval (request title summary : pystr) (sections : list ApprovalSection)
    : RM Changes :=
  s ← st_get;
  let i := $"approval:" ++ request in
  match get i (transcript s) with
  | Some ({| cell_body := ApprovalCell b |} as c) =>
    replace_cell (next_revision c (ApprovalCell
      {| ap_request_id := ap_request_id b; ap_title := title; ap_status := ap_status b;
         ap_preview := ap_preview b; ap_summary := summary; ap_sections := sections;
         ap_reason := ap_reason b; ap_mode := ap_mode b; ap_grant_label := ap_grant_label b;
         ap_released_count := ap_released_count b;
         ap_resolution_source := ap_resolution_source b |}))
  | _ => append_cell (new_cell i (ApprovalCell
      {| ap_request_id := request; ap_title := title; ap_status := $"pending";
         ap_preview := None; ap_summary := summary; ap_sections := sections; ap_reason := None;
         ap_mode := None; ap_grant_label := None; ap_released_count := 0;
         ap_resolution_source := None |}) None)
  end.

Definition append_notice (notice message level category : pystr) (g : option pystr) : RM Changes :=
  s ← st_get;
  let i := $"notice:" ++ notice in
  match get i (transcript s) with
  | Some _ => mret []
  | None => append_cell (new_cell i (NoticeCell message level category) g)
  end.

(** ** One event *)

Definition start_chat (e : RuntimeEvent) (user_input : pystr) : RM Changes :=
  _ ← complete_active_assistant e;
  g ← start_turn_group e;
  match user_input with
  | [] => mret []
  | _ => append_cell (new_cell (agent_scoped $"user" e) (UserCell (visible_user_input user_input))
                        (Some g))
  end.

Definition apply_payload (p : PresentationPolicy) (e : RuntimeEvent) : RM Changes :=
  s ← st_get;
  match payload e with
  | TurnStarted user_input _ | ChatStarted user_input => start_chat e user_input
  | UserSteeringApplied user_input _ _ _ =>
    append_cell (new_cell ($"user-steer:" ++ event_id (env e))
                   (UserCell (visible_user_input user_input)) (event_group e s))
  | AssistantContentDelta t => append_stream e t
  | AssistantStreamInterrupted _ _ => interrupt_active_assistant e
  | ReasoningDelta _ _ => mret []
  | StreamChunk t reasoning _ => if reasoning then mret [] else append_stream e t
  | TurnFinished response _ | ChatCompleted response _ =>
    changes ← complete_chat e response;
    _ ← st_modify (fun s => set_turn_groups (delete (turn_route e) (active_turn_groups s)) s);
    mret changes
  | ToolCallStarted call name args =>
    _ ← complete_active_assistant e;
    s ← st_get;
    append_cell (new_cell ($"tool:" ++ call) (ToolCell
      {| tc_call_id := call; tc_name := name; tc_arguments := Some args; tc_output := [];
         tc_status := TS_RUNNING; tc_outcome := None; tc_orphaned := false |}) (event_group e s))
  | ToolCallFinished call name o => finish_tool e call name o
  | ToolOutputDelta call t _ => append_tool_output p e call t
  | SubagentJobChanged j => change_subagent e j
  | ErrorOccurred message =>
    append_cell (new_cell ($"notice:" ++ event_id (env e)) (NoticeCell message $"error" $"agent")
                   (event_group e s))
  | NotificationRaised message code severity _ =>
    append_cell (new_cell ($"notice:" ++ event_id (env e)) (NoticeCell message severity code)
                   (event_group e s))
  | DiagnosticsPublished batch file version generation l =>
    publish_diagnostics e batch file version generation l
  | DiagnosticsCleared batch file version generation =>
    clear_diagnostics e batch file version generation
  | ApprovalRequested request title preview => request_approval e request title preview
  | ApprovalResolved request approved reason mode label released src =>
    resolve_approval e request approved reason mode label released src
  | SessionChanged _ i => _ ← st_modify (set_session i); mret []
  | RuntimeStateChanged state _ => _ ← st_modify (set_runtime_state state); mret []
  | OperationPhaseChanged _ | PlanUpdated _ _ _ | ProgressReported _ _ _ _
  | ProcessSessionChanged _ => mret []
  | ViewRequested request view => _ ← st_modify (set_view_revision (request, view) 0); mret []
  | ViewRefreshed request view n => _ ← st_modify (set_view_revision (request, view) n); mret []
  end.

(** [_is_stale_generation], which records the newest generation. *)
Definition is_stale_generation (e : RuntimeEvent) (s : RuntimeViewState) : bool * RuntimeViewState :=
  match agent_id (env e), session_generation (env e) with
  | Some a, Some n =>
    let k := (Some a, session_id (env e)) in
    match session_generations s !! k with
    | Some current =>
      if n <? current then (true, s)
      else if n >? current then (false, set_generation k n s)
      else (false, s)
    | None => (false, set_generation k n s)
    end
  | _, _ => (false, s)
  end.

Definition apply (p : PresentationPolicy) (e : RuntimeEvent) : RM Changes := fun s =>
  let transient := is_transient_runtime_payload (payload e) in
  if negb transient && bool_decide (event_id (env e) ∈ seen_event_ids s) then (Ok [], s)
  else
    let s := if transient then s else set_seen (event_id (env e)) s in
    let '(stale, s) := is_stale_generation e s in
    if stale then (Ok [], s) else apply_payload p e s.

Definition apply_all (p : PresentationPolicy) (l : list RuntimeEvent) (s : RuntimeViewState)
    : RuntimeViewState := foldl (fun s e => (apply p e s).2) s l.

(** ** Lemmas: what one event can do to the state

    [Keeps s m]: run in [s], [m] keeps the transcript well formed and within the
    same limits, leaves the correlation of events alone, and raises nothing but a
    duplicate identifier. *)

Definition duplicate_error (e : exn) : Prop :=
  exists i, e = ValueError ($"Duplicate transcript cell id: " ++ i).

Definition same_limits (t t' : TranscriptModel) : Prop :=
  max_cells t' = max_cells t /\ max_text_chars t' = max_text_chars t.

Definition Keeps {A} (s : RuntimeViewState) (m : RM A) : Prop :=
  let '(r, s') := m s in
  wf (transcript s') /\ same_limits (transcript s) (transcript s') /\
  seen_event_ids s' = seen_event_ids s /\ session_generations s' = session_generations s /\
  match r with Ok _ => True | Raise e => duplicate_error e end.

Section Keeps.
Context (s : RuntimeViewState) (Hwf : wf (transcript s)).

Lemma view_ret {A} (a : A) : Keeps s (mret a).
Proof. by split_and!. Qed.

Lemma keeps_modify f :
  transcript (f s) = transcript s -> seen_event_ids (f s) = seen_event_ids s ->
  session_generations (f s) = session_generations s -> Keeps s (st_modify f).
Proof. intros Ht Hs Hg. unfold Keeps. cbn. rewrite Ht, Hs, Hg. by split_and!. Qed.

Lemma keeps_append c : Keeps s (append_cell c).
Proof.
  pose proof (append_spec c (transcript s) Hwf) as H.
  unfold Keeps, append_cell, mbind, stm_bind, on_transcript. case_decide.
  - rewrite H. cbn. split_and!; try done. by eexists.
  - destruct H as (ev & t' & -> & Hw & _ & _ & Hm & Hmt). by split_and!.
Qed.

Lemma keeps_transcript_replace c d :
  find_cell (cells (transcript s)) (cell_id c) = Some d -> Keeps s (on_transcript (replace c)).
Proof.
  intros Hd. pose proof (replace_spec c (transcript s) Hwf) as H. rewrite Hd in H.
  destruct H as (ev & t' & Heq & Hw & _ & _ & Hm & Hmt).
  unfold Keeps, on_transcript. rewrite Heq. by split_and!.
Qed.

(** The cell an operation updates is the one it has just looked up. *)
Lemma keeps_transcript_update i c b :
  get i (transcript s) = Some c -> Keeps s (on_transcript (replace (next_revision c b))).
Proof.
  intros Hc. rewrite get_find in Hc by done. pose proof (find_cell_Some _ _ _ Hc) as [_ Hi].
  apply (keeps_transcript_replace _ c). cbn [next_revision cell_id]. by rewrite Hi.
Qed.
End Keeps.

Lemma view_bind {A B} s (m : RM A) (f : A -> RM B) :
  Keeps s m -> (forall a s', m s = (Ok a, s') -> wf (transcript s') -> Keeps s' (f a)) ->
  Keeps s (m ≫= f).
Proof.
  unfold Keeps, mbind, stm_bind. intros Hm Hf. destruct (m s) as [[a|e] s'].
  - destruct Hm as (Hw & [Hl1 Hl2] & Hs & Hg & _). specialize (Hf a s' eq_refl Hw).
    destruct (f a s') as [r s2]. destruct Hf as (? & [? ?] & ? & ? & ?).
    split_and!; try done; try congruence. split; congruence.
  - done.
Qed.

Lemma keeps_get {B} s (f : RuntimeViewState -> RM B) : Keeps s (f s) -> Keeps s (st_get ≫= f).
Proof. done. Qed.

Lemma keeps_update s i c b :
  wf (transcript s) -> get i (transcript s) = Some c -> Keeps s (replace_cell (next_revision c b)).
Proof.
  intros Hwf Hc. apply view_bind; [by eapply keeps_transcript_update|]. intros. by apply view_ret.
Qed.

Lemma keeps_group_update s i c b g :
  wf (transcript s) -> get i (transcript s) = Some c ->
  Keeps s (replace_cell (with_group g (next_revision c b))).
Proof.
  intros Hwf Hc. apply view_bind; [|intros; by apply view_ret].
  rewrite get_find in Hc by done. pose proof (find_cell_Some _ _ _ Hc) as [_ Hi].
  apply (keeps_transcript_replace _ Hwf _ c). cbn [with_group next_revision cell_id]. by rewrite Hi.
Qed.

Lemma active_assistant_get e s c r :
  active_assistant e s = Some (c, r) -> exists i, get i (transcript s) = Some c.
Proof. unfold active_assistant. intros. repeat case_match; simplify_eq; by eexists. Qed.

Lemma keeps_active_update e s s' c r b :
  wf (transcript s') -> active_assistant e s = Some (c, r) -> transcript s' = transcript s ->
  Keeps s' (replace_cell (next_revision c b)).
Proof.
  intros Hwf Ha Ht. destruct (active_assistant_get e s c r Ha) as [i Hi].
  apply (keeps_update s' i); [done|]. by rewrite Ht.
Qed.

Lemma keeps_active_transcript e s c r b :
  wf (transcript s) -> active_assistant e s = Some (c, r) ->
  Keeps s (on_transcript (replace (next_revision c b))).
Proof.
  intros Hwf Ha. destruct (active_assistant_get e s c r Ha) as [i Hi].
  by apply (keeps_transcript_update s Hwf i).
Qed.

Create HintDb keeps.
#[export] Hint Resolve view_ret keeps_append keeps_update keeps_group_update keeps_active_update
  keeps_active_transcript : keeps.
#[export] Hint Extern 2 (Keeps _ (st_modify _)) => apply keeps_modify : keeps.

(** Walks through a handler, one call at a time. *)
Ltac keeps :=
  intros;
  lazymatch goal with
  | H : st_modify _ _ = (Ok _, _) |- _ => unfold st_modify in H; simplify_eq; keeps
  | |- Keeps _ (st_get ≫= _) => apply keeps_get; keeps
  | |- Keeps _ (_ ≫= _) => apply view_bind; keeps
  | |- Keeps _ (match ?x with _ => _ end) => let E := fresh "E" in destruct x eqn:E; keeps
  | |- Keeps _ (let _ := _ in _) => cbv zeta; keeps
  | |- _ => try solve [eauto with keeps]
  end.

Lemma keeps_append_stream e t s : wf (transcript s) -> Keeps s (append_stream e t).
Proof. intros Hwf. unfold append_stream. keeps. Qed.

Lemma keeps_complete_active e s : wf (transcript s) -> Keeps s (complete_active_assistant e).
Proof. intros Hwf. unfold complete_active_assistant. keeps. Qed.

Lemma keeps_complete_chat e r s : wf (transcript s) -> Keeps s (complete_chat e r).
Proof. intros Hwf. unfold complete_chat. keeps. Qed.

Lemma keeps_interrupt e s : wf (transcript s) -> Keeps s (interrupt_active_assistant e).
Proof. intros Hwf. unfold interrupt_active_assistant. keeps. Qed.

Lemma keeps_record_diff e call o s : wf (transcript s) -> Keeps s (record_diff e call o).
Proof. intros Hwf. unfold record_diff. keeps. Qed.
#[export] Hint Resolve keeps_append_stream keeps_complete_active keeps_complete_chat
  keeps_interrupt keeps_record_diff : keeps.

Lemma keeps_finish_tool e call name o s : wf (transcript s) -> Keeps s (finish_tool e call name o).
Proof. intros Hwf. unfold finish_tool. keeps. Qed.

Lemma keeps_tool_output p e call t s : wf (transcript s) -> Keeps s (append_tool_output p e call t).
Proof. intros Hwf. unfold append_tool_output. keeps. Qed.

Lemma keeps_diagnostics e b f v g l s :
  wf (transcript s) -> Keeps s (publish_diagnostics e b f v g l).
Proof. intros Hwf. unfold publish_diagnostics. keeps. Qed.

Lemma keeps_subagent e j s : wf (transcript s) -> Keeps s (change_subagent e j).
Proof. intros Hwf. unfold change_subagent. keeps. Qed.

Lemma keeps_request e i t v s : wf (transcript s) -> Keeps s (request_approval e i t v).
Proof. intros Hwf. unfold request_approval. keeps. Qed.

Lemma keeps_resolve e i a r m l n c s : wf (transcript s) -> Keeps s (resolve_approval e i a r m l n c).
Proof. intros Hwf. unfold resolve_approval. keeps. Qed.

Lemma keeps_hydrate i t u l s : wf (transcript s) -> Keeps s (hydrate_approval i t u l).
Proof. intros Hwf. unfold hydrate_approval. keeps. Qed.

Lemma keeps_notice i m l c g s : wf (transcript s) -> Keeps s (append_notice i m l c g).
Proof. intros Hwf. unfold append_notice. keeps. Qed.

Lemma keeps_turn_group e s : wf (transcript s) -> Keeps s (start_turn_group e).
Proof. intros Hwf. by split_and!. Qed.
#[export] Hint Resolve keeps_finish_tool keeps_tool_output keeps_diagnostics keeps_subagent
  keeps_request keeps_resolve keeps_hydrate keeps_notice keeps_turn_group : keeps.

Lemma keeps_start_chat e t s : wf (transcript s) -> Keeps s (start_chat e t).
Proof. intros Hwf. unfold start_chat. keeps. Qed.
#[export] Hint Resolve keeps_start_chat : keeps.

Lemma keeps_apply_payload p e s : wf (transcript s) -> Keeps s (apply_payload p e).
Proof. intros Hwf. unfold apply_payload, clear_diagnostics. keeps. Qed.

(** ** Correlation along a run *)

Lemma stale_spec e s :
  let '(b, s') := is_stale_generation e s in
  transcript s' = transcript s /\ seen_event_ids s' = seen_event_ids s /\
  (b = true -> s' = s) /\
  (forall k n, session_generations s !! k = Some n ->
     exists n', session_generations s' !! k = Some n' /\ n <= n') /\
  (forall a n, agent_id (env e) = Some a -> session_generation (env e) = Some n ->
     exists n', session_generations s' !! (Some a, session_id (env e)) = Some n' /\ n <= n').
Proof.
  unfold is_stale_generation.
  assert (Hrefl : forall k n, session_generations s !! k = Some n ->
            exists n', session_generations s !! k = Some n' /\ n <= n') by (intros k n ?; by exists n).
  destruct (agent_id (env e)) as [a|]; [|by split_and!].
  destruct (session_generation (env e)) as [n|]; [|by split_and!].
  assert (Hset : forall k m, session_generations s !! k = Some m ->
            (k = (Some a, session_id (env e)) -> m <= n) ->
            exists n', <[(Some a, session_id (env e)) := n]> (session_generations s) !! k = Some n' /\ m <= n').
  { intros k m Hk Hle. destruct (decide (k = (Some a, session_id (env e)))) as [->|Hne].
    - exists n. rewrite lookup_insert_eq. auto.
    - exists m. by rewrite lookup_insert_ne. }
  destruct (session_generations s !! (Some a, session_id (env e))) as [c|] eqn:E.
  - destruct (Z.ltb_spec n c).
    + split_and!; try done. intros ? ? [= <-] [= <-]. exists c. split; [done|lia].
    + rewrite Z.gtb_ltb. destruct (Z.ltb_spec c n).
      * split_and!; try done.
        -- intros k m Hk. apply Hset; [done|]. intros ->. simplify_eq. lia.
        -- intros ? ? [= <-] [= <-]. exists n. cbn. by rewrite lookup_insert_eq.
      * split_and!; try done. intros ? ? [= <-] [= <-]. by exists c.
  - split_and!; try done.
    + intros k m Hk. apply Hset; [done|]. intros ->. simplify_eq.
    + intros ? ? [= <-] [= <-]. exists n. cbn. by rewrite lookup_insert_eq.
Qed.

(** The event was not ignored as a repetition. *)
Definition fresh (e : RuntimeEvent) (s : RuntimeViewState) : Prop :=
  is_transient_runtime_payload (payload e) = true \/ event_id (env e) ∉ seen_event_ids s.

Lemma apply_spec p e s :
  wf (transcript s) ->
  let '(r, s') := apply p e s in
  wf (transcript s') /\ same_limits (transcript s) (transcript s') /\
  match r with Ok _ => True | Raise err => duplicate_error err end /\
  seen_event_ids s ⊆ seen_event_ids s' /\
  (is_transient_runtime_payload (payload e) = false -> event_id (env e) ∈ seen_event_ids s') /\
  (forall k n, session_generations s !! k = Some n ->
     exists n', session_generations s' !! k = Some n' /\ n <= n') /\
  (fresh e s -> forall a n, agent_id (env e) = Some a -> session_generation (env e) = Some n ->
     exists n', session_generations s' !! (Some a, session_id (env e)) = Some n' /\ n <= n').
Proof.
  intros Hwf. unfold apply, fresh. set (tr := is_transient_runtime_payload (payload e)).
  destruct (negb tr && bool_decide (event_id (env e) ∈ seen_event_ids s)) eqn:Edup.
  - apply andb_true_iff in Edup as [Htr%negb_true_iff Hin%bool_decide_eq_true].
    rewrite Htr. split_and!; try done; [intros k n ?; by exists n|]. naive_solver.
  - set (s1 := if tr then s else set_seen (event_id (env e)) s).
    assert (Hs1 : transcript s1 = transcript s /\ session_generations s1 = session_generations s /\
                  seen_event_ids s ⊆ seen_event_ids s1 /\
                  (tr = false -> event_id (env e) ∈ seen_event_ids s1)).
    { unfold s1. destruct tr; split_and!; try done; cbn; set_solver. }
    destruct Hs1 as (Ht1 & Hg1 & Hsub & Hin).
    pose proof (stale_spec e s1) as Hst. destruct (is_stale_generation e s1) as [b s2].
    destruct Hst as (Ht2 & Hs2 & Hb & Hmono & Hgen). rewrite Hg1 in Hmono.
    assert (Hwf2 : wf (transcript s2)) by by rewrite Ht2, Ht1.
    assert (Hlim : same_limits (transcript s) (transcript s2)) by by rewrite Ht2, Ht1.
    destruct b.
    + split_and!; try done; rewrite ?Hs2; auto.
    + pose proof (keeps_apply_payload p e s2 Hwf2) as Hk. unfold Keeps in Hk.
      destruct (apply_payload p e s2) as [r s3]. destruct Hk as (Hw3 & [Hl1 Hl2] & Hs3 & Hg3 & Hr).
      destruct Hlim as [Hm1 Hm2].
      split_and!; try done; rewrite ?Hs3, ?Hs2, ?Hg3; auto.
      split; congruence.
Qed.

Lemma apply_all_spec p l s :
  wf (transcript s) ->
  wf (transcript (apply_all p l s)) /\ same_limits (transcript s) (transcript (apply_all p l s)) /\
  seen_event_ids s ⊆ seen_event_ids (apply_all p l s) /\
  (forall e, e ∈ l -> is_transient_runtime_payload (payload e) = false ->
     event_id (env e) ∈ seen_event_ids (apply_all p l s)) /\
  (forall k n, session_generations s !! k = Some n ->
     exists n', session_generations (apply_all p l s) !! k = Some n' /\ n <= n').
Proof.
  revert s. induction l as [|e l IH]; intros s Hwf; cbn.
  - split_and!; try done; [intros e He; by apply elem_of_nil in He|intros k n ?; by exists n].
  - pose proof (apply_spec p e s Hwf) as H. destruct (apply p e s) as [r s1]. cbn [snd] in *.
    destruct H as (Hw & [Hl1 Hl2] & _ & Hsub & Hin & Hmono & _).
    destruct (IH s1 Hw) as (Hw' & [Hm1 Hm2] & Hsub' & Hin' & Hmono'). fold (apply_all p l s1).
    split_and!; [done|split; congruence|set_solver| |].
    + intros e' [->|He']%elem_of_cons Htr; [|by apply Hin']. apply Hsub'. by apply Hin.
    + intros k n Hk. destruct (Hmono k n Hk) as (n1 & Hk1 & ?).
      destruct (Hmono' k n1 Hk1) as (n2 & ? & ?). exists n2. split; [done|lia].
Qed.

(** Replays and late events do not disturb a view.  A control event that was
    applied before is ignored, without changing anything, however many events
    came in between, so replaying any part of a log of control events is the
    identity; and once an event of a generation was applied, an event of an older
    generation of the same agent and session only marks its identifier. *)
Theorem replay_and_stale_ignored p cm tm t0 l e l' e' a n n' :
  new_transcript cm tm = Ok t0 ->
  fresh e (apply_all p l (new_view t0)) ->
  agent_id (env e) = Some a -> agent_id (env e') = Some a ->
  session_id (env e') = session_id (env e) ->
  session_generation (env e) = Some n -> session_generation (env e') = Some n' -> n' < n ->
  let s := apply_all p (l ++ e :: l') (new_view t0) in
  (forall replay, Forall (fun d => d ∈ l ++ e :: l' /\ is_transient_runtime_payload (payload d) = false) replay ->
     apply_all p replay s = s /\ Forall (fun d => apply p d s = (Ok [], s)) replay) /\
  (apply p e' s = (Ok [], s) \/ apply p e' s = (Ok [], set_seen (event_id (env e')) s)).
Proof.
  intros Hnew Hfresh Ha Ha' Hsess Hn Hn' Hlt s.
  destruct (new_transcript_wf _ _ _ Hnew) as [Hw _].
  pose proof (apply_all_spec p (l ++ e :: l') (new_view t0) Hw) as (Hws & _ & _ & Hseen & _).
  fold s in Hws, Hseen. split.
  - intros replay Hrep.
    assert (Hone : Forall (fun d => apply p d s = (Ok [], s)) replay).
    { eapply Forall_impl; [exact Hrep|]. intros d [Hd Htr]. unfold apply.
      rewrite Htr. rewrite bool_decide_eq_true_2; [done|]. by apply Hseen. }
    split; [|done]. clear Hrep. induction Hone as [|d replay Hd _ IH]; [done|].
    cbn [apply_all foldl]. rewrite Hd. exact IH.
  - assert (Hs : s = apply_all p l' (apply p e (apply_all p l (new_view t0))).2).
    { unfold s, apply_all. by rewrite foldl_app. }
    destruct (apply_all_spec p l (new_view t0) Hw) as (Hw1 & _).
    pose proof (apply_spec p e _ Hw1) as H. destruct (apply p e _) as [r s1]. cbn [snd] in Hs.
    destruct H as (Hws1 & _ & _ & _ & _ & _ & Hgen).
    destruct (Hgen Hfresh a n Ha Hn) as (c & Hc & Hle).
    destruct (apply_all_spec p l' s1 Hws1) as (_ & _ & _ & _ & Hmono).
    destruct (Hmono _ _ Hc) as (c' & Hc' & Hle'). rewrite <- Hs in Hc'.
    unfold apply. destruct (negb _ && _); [by left|].
    assert (Hst : forall s2, session_generations s2 = session_generations s ->
                    is_stale_generation e' s2 = (true, s2)).
    { intros s2 Hg. unfold is_stale_generation. rewrite Ha', Hn', Hg, Hsess, Hc'.
      destruct (Z.ltb_spec n' c'); [done|lia]. }
    destruct (is_transient_runtime_payload (payload e')); rewrite Hst by done; auto.
Qed.

(** A view stays consistent.  Whatever events a new view is given, its
    transcript keeps distinct identifiers, an exact index and text total, and
    both limits; and an event either is applied or is refused for a duplicate
    cell identifier, never for a missing cell. *)
Theorem view_consistent p cm tm t0 l e :
  new_transcript cm tm = Ok t0 ->
  let s := apply_all p l (new_view t0) in
  let t := transcript s in
  NoDup (ids (cells t)) /\ (forall i, get i t = find_cell (cells t) i) /\
  text_chars_total t = text_sum (cells t) /\ len (cells t) <= cm /\ text_sum (cells t) <= tm /\
  match (apply p e s).1 with
  | Ok _ => True
  | Raise err => exists i, err = ValueError ($"Duplicate transcript cell id: " ++ i)
  end.
Proof.
  intros Hnew s t. destruct (new_transcript_wf _ _ _ Hnew) as [Hw _].
  pose proof (apply_all_spec p l (new_view t0) Hw) as (Hws & [Hc Ht] & _).
  fold s in Hws, Hc, Ht. fold t in Hws, Hc, Ht.
  assert (max_cells t0 = cm /\ max_text_chars t0 = tm) as [Hc0 Ht0].
  { unfold new_transcript in Hnew. destruct (cm <? 1), (tm <? 1); by simplify_eq. }
  destruct (wf_fits t Hws) as [Hf1 Hf2]. cbn [new_view transcript] in Hc, Ht.
  rewrite Hc, Hc0 in Hf1. rewrite Ht, Ht0 in Hf2.
  split_and!; [apply (wf_ids t Hws)|intros; by apply get_find|apply (wf_total t Hws)|done|done|].
  pose proof (apply_spec p e s Hws) as H. destruct (apply p e s) as [r s']. by destruct H as (_ & _ & ? & _).
Qed.

Lemma view_consistent_witness :
  let started c := {| payload := ToolCallStarted c $"bash" [];
                      env := {| event_id := 101 :: c; timestamp := 0; agent_id := None;
                                session_generation := None; session_id := None; turn_id := None;
                                correlation_id := None |} |} in
  exists t0, new_transcript 500 1000000 = Ok t0 /\
    len (cells (transcript (apply_all default_policy [started $"a"; started $"b"; started $"a"] (new_view t0)))) <= 500.
Proof.
  intros started. eexists. split; [reflexivity|].
  destruct (view_consistent default_policy 500 1000000 _
              [started $"a"; started $"b"; started $"a"] (started $"c") eq_refl) as (_ & _ & _ & H & _).
  exact H.
Defined.

Lemma replay_and_stale_ignored_witness :
  let ev i n := {| payload := RuntimeStateChanged $"running" None;
                   env := {| event_id := i; timestamp := 0; agent_id := Some $"main";
                             session_generation := Some n; session_id := None; turn_id := None;
                             correlation_id := None |} |} in
  exists t0, new_transcript 500 1000000 = Ok t0 /\
    let s := apply_all default_policy [ev $"1" 2] (new_view t0) in
    apply default_policy (ev $"1" 2) s = (Ok [], s) /\
    (apply default_policy (ev $"0" 1) s = (Ok [], s) \/
     apply default_policy (ev $"0" 1) s = (Ok [], set_seen $"0" s)).
Proof.
  intros ev. eexists. split; [reflexivity|]. cbv zeta.
  destruct (replay_and_stale_ignored default_policy 500 1000000 _ [] (ev $"1" 2) [] (ev $"0" 1)
              $"main" 2 1 eq_refl) as [H1 H2]; try reflexivity.
  - right. cbn. apply not_elem_of_empty.
  - split; [|exact H2]. destruct (H1 [ev $"1" 2]) as [_ H3].
    + constructor; [split; [left|reflexivity]|constructor].
    + by inversion H3.
Defined.

(** ** Streamed text *)

Section Stream.
Context (p : PresentationPolicy) (v : Envelope).

Definition delta (t : pystr) : RuntimeEvent := {| payload := AssistantContentDelta t; env := v |}.

(** The last cell of the transcript is the open cell of the route, with the
    given text and revision, and events of this envelope are current. *)
Definition streaming (i t : pystr) (n : Z) (s : RuntimeViewState) : Prop :=
  wf (transcript s) /\ active_assistant_cells s !! assistant_route (delta []) = Some i /\ i <> [] /\
  is_stale_generation (delta []) s = (false, s) /\
  exists l c, cells (transcript s) = l ++ [c] /\ cell_id c = i /\ cell_revision c = n /\
    cell_body c = AssistantCell t false false.

Lemma find_cell_last l c : NoDup (ids (l ++ [c])) -> find_cell (l ++ [c]) (cell_id c) = Some c.
Proof.
  intros Hnd. rewrite ids_app in Hnd. apply NoDup_app in Hnd as (_ & Hdisj & _). unfold find_cell.
  rewrite filter_app, filter_cons_True by done.
  replace (filter (fun d => cell_id d = cell_id c) l) with (@nil TranscriptCell); [done|].
  symmetry. induction l as [|d l IH]; [done|]. rewrite filter_cons_False.
  - apply IH. intros x Hx. apply Hdisj. by right.
  - intros Hd. apply (Hdisj (cell_id d)); [by left|]. rewrite Hd. by left.
Qed.

Lemma put_cell_last l c d :
  NoDup (ids (l ++ [c])) -> cell_id d = cell_id c -> put_cell d (l ++ [c]) = l ++ [d].
Proof.
  intros Hnd Hd. rewrite <- (insert_put d (l ++ [c]) (length l)).
  - by rewrite insert_app_r_alt, Nat.sub_diag by done.
  - done.
  - rewrite ids_app, Hd. unfold ids at 1. rewrite lookup_app_r by by rewrite length_map.
    by rewrite length_map, Nat.sub_diag.
Qed.

(** A last cell that fits alone is never evicted. *)
Lemma retained_last t l c evicted kept :
  1 <= max_cells t -> cell_text_chars c <= max_text_chars t ->
  retained t (l ++ [c]) evicted kept -> exists k, kept = k ++ [c].
Proof.
  intros Hc Ht (Heq & _ & Hmax). destruct kept as [|x kept] using rev_ind.
  - assert (Hle : (length [c] <= length (@nil TranscriptCell))%nat).
    { apply Hmax; [by exists l|]. split; [rewrite len_cons, len_nil; lia|].
      rewrite text_sum_cons. change (text_sum []) with 0. lia. }
    cbn in Hle. lia.
  - exists kept. rewrite app_assoc in Heq. apply app_inj_tail in Heq as [_ ->]. done.
Qed.

Lemma stale_set_transcript e t s :
  is_stale_generation e (set_transcript t s) =
  let '(b, s') := is_stale_generation e s in (b, set_transcript t s').
Proof. unfold is_stale_generation. cbn [set_transcript session_generations]. by repeat case_match; simplify_eq. Qed.

Lemma stale_set_assistants e m s :
  is_stale_generation e (set_assistants m s) =
  let '(b, s') := is_stale_generation e s in (b, set_assistants m s').
Proof. unfold is_stale_generation. cbn [set_assistants session_generations]. by repeat case_match; simplify_eq. Qed.

Lemma streaming_active i t n s e :
  streaming i t n s -> env e = v ->
  exists l c, cells (transcript s) = l ++ [c] /\ cell_id c = i /\ cell_revision c = n /\
    active_assistant e s = Some (c, (t, false, false)).
Proof.
  intros (Hw & Ha & Hi & _ & l & c & Hl & Hci & Hr & Hb) He. exists l, c. split_and!; [done..|].
  unfold active_assistant, assistant_route. rewrite He.
  change (agent_id v, session_id v, session_generation v, turn_id v) with (assistant_route (delta [])).
  rewrite Ha. destruct i as [|x i]; [done|].
  rewrite get_find, Hl, <- Hci, find_cell_last by (done || rewrite <- Hl; apply (wf_ids _ Hw)).
  by rewrite Hb.
Qed.

(** The open cell takes a new body that fits. *)
Lemma streaming_update i t n s b :
  streaming i t n s ->
  cell_text_chars (new_cell i b None) <= max_text_chars (transcript s) ->
  exists l c s', cells (transcript s) = l ++ [c] /\ cell_id c = i /\
    replace_cell (next_revision c b) s = (Ok [PC_UPDATE (next_revision c b) c], s') /\
    wf (transcript s') /\ same_limits (transcript s) (transcript s') /\
    (exists t', s' = set_transcript t' s) /\
    exists k, cells (transcript s') = k ++ [next_revision c b] /\ cell_revision c = n.
Proof.
  intros Hst Hfit. destruct (streaming_active i t n s (delta []) Hst eq_refl) as (l & c & Hl & Hci & Hr & _).
  destruct Hst as (Hw & _). exists l, c.
  pose proof (replace_spec (next_revision c b) _ Hw) as Hrep.
  pose proof (wf_ids _ Hw) as Hnd. rewrite Hl in Hnd.
  cbn [next_revision cell_id] in Hrep. rewrite Hl, find_cell_last in Hrep by done.
  destruct Hrep as (ev & t' & Heq & Hw' & Hret & _ & Hm & Hmt).
  rewrite put_cell_last in Hret by done.
  assert (Hfit' : cell_text_chars (next_revision c b) <= max_text_chars (transcript s)) by exact Hfit.
  destruct (retained_last _ _ _ _ _ (proj1 (wf_limits _ Hw)) Hfit' Hret) as [k Hk].
  exists (set_transcript t' s). unfold replace_cell, mbind, stm_bind, on_transcript.
  cbn [next_revision cell_id] in *. rewrite Heq.
  split_and!; try done; [by exists t'|]. by exists k.
Qed.

Lemma streaming_step i t n s u :
  streaming i t n s -> len (t ++ u) <= max_text_chars (transcript s) ->
  exists s', (apply p (delta u) s).2 = s' /\ is_ok (apply p (delta u) s).1 = true /\
    streaming i (t ++ u) (n + 1) s' /\ same_limits (transcript s) (transcript s').
Proof.
  intros Hst Hfit. destruct (streaming_active i t n s (delta u) Hst eq_refl) as (l0 & c0 & Hl0 & _ & _ & Hact).
  destruct (streaming_update i t n s (AssistantCell (t ++ u) false false) Hst Hfit)
    as (l & c & s' & Hl & Hci & Heq & Hw' & Hlim & [t' Hs'] & k & Hk & Hr).
  rewrite Hl in Hl0. apply app_inj_tail in Hl0 as [_ <-].
  destruct Hst as (_ & Ha & Hi & Hstale & _).
  assert (Happ : apply p (delta u) s = (Ok [PC_UPDATE (next_revision c (AssistantCell (t ++ u) false false)) c], s')).
  { unfold apply. cbn [delta payload is_transient_runtime_payload negb andb].
    change (is_stale_generation (delta u) s) with (is_stale_generation (delta []) s).
    rewrite Hstale. unfold apply_payload, append_stream. cbn [delta payload].
    unfold mbind, stm_bind, st_get. cbv beta iota. fold (delta u). rewrite Hact. exact Heq. }
  rewrite Happ. exists s'. split_and!; [done|done| |done]. subst s'.
  split_and!; try done.
  - by rewrite stale_set_transcript, Hstale.
  - exists k, (next_revision c (AssistantCell (t ++ u) false false)). split_and!; [done|done|cbn; lia|done].
Qed.
Lemma stale_again e s s' :
  is_stale_generation e s = (false, s') -> is_stale_generation e s' = (false, s').
Proof.
  unfold is_stale_generation. destruct (agent_id (env e)) as [a|]; [|by intros [= <-]].
  destruct (session_generation (env e)) as [n|]; [|by intros [= <-]].
  destruct (session_generations s !! _) as [c|] eqn:E.
  - destruct (Z.ltb_spec n c); [done|]. destruct (n >? c) eqn:Eg; intros [= <-].
    + cbn [set_generation session_generations]. rewrite lookup_insert_eq, Z.ltb_irrefl.
      by rewrite Z.gtb_ltb, Z.ltb_irrefl.
    + rewrite E. destruct (Z.ltb_spec n c); [lia|]. by rewrite Eg.
  - intros [= <-]. cbn [set_generation session_generations].
    rewrite lookup_insert_eq, Z.ltb_irrefl. by rewrite Z.gtb_ltb, Z.ltb_irrefl.
Qed.

(** No cell of the route is open. *)
Definition closed (e : RuntimeEvent) (s : RuntimeViewState) : Prop :=
  match active_assistant e s with Some (_, (_, false, _)) => False | _ => True end.

Lemma agent_scoped_nonempty e s : next_assistant_cell_id e s <> [].
Proof. unfold next_assistant_cell_id, agent_scoped. by repeat case_match. Qed.

Lemma active_assistant_stale e e' s b s' :
  is_stale_generation e s = (b, s') ->
  active_assistant e' s' = active_assistant e' s /\ event_group e' s' = event_group e' s /\
  active_assistant_cells s' = active_assistant_cells s /\ transcript s' = transcript s.
Proof. unfold is_stale_generation. intros. by repeat case_match; simplify_eq. Qed.

Lemma streaming_start u s :
  wf (transcript s) -> closed (delta u) s -> (is_stale_generation (delta u) s).1 = false ->
  get (next_assistant_cell_id (delta u) s) (transcript s) = None ->
  len u <= max_text_chars (transcript s) ->
  is_ok (apply p (delta u) s).1 = true /\
  streaming (next_assistant_cell_id (delta u) s) u 0 (apply p (delta u) s).2 /\
  same_limits (transcript s) (transcript (apply p (delta u) s).2).
Proof.
  intros Hw Hcl Hst Hget Hfit. destruct (is_stale_generation (delta u) s) as [b s1] eqn:Es.
  cbn [fst] in Hst. subst b.
  destruct (active_assistant_stale _ (delta u) _ _ _ Es) as (Ha1 & Hg1 & Hm1 & Ht1).
  set (i := next_assistant_cell_id (delta u) s) in *.
  assert (Hi : next_assistant_cell_id (delta u) s1 = i).
  { unfold i, next_assistant_cell_id. by rewrite Ht1. }
  set (c := new_cell i (AssistantCell u false false) (event_group (delta u) s1)).
  set (s2 := set_assistants (<[assistant_route (delta u) := i]> (active_assistant_cells s1)) s1).
  assert (Happ : apply p (delta u) s = append_cell c s2).
  { unfold apply. cbn [delta payload is_transient_runtime_payload negb andb]. fold (delta u).
    rewrite Es. unfold apply_payload, append_stream. cbn [delta payload].
    unfold mbind, stm_bind, st_get. cbv beta iota. fold (delta u). rewrite Ha1.
    unfold closed in Hcl. unfold st_modify.
    destruct (active_assistant (delta u) s) as [[d [[t1 []] b]]|]; [|done|];
      by rewrite Hi. }
  rewrite Happ. unfold append_cell, mbind, stm_bind, on_transcript.
  assert (Hw1 : wf (transcript s1)) by by rewrite Ht1.
  pose proof (append_spec c (transcript s1) Hw1) as Hap.
  rewrite decide_False in Hap.
  2: { intros Hin%find_cell_ids. rewrite <- get_find, Ht1 in Hin by done. cbn in Hin. rewrite Hget in Hin.
       by destruct Hin. }
  destruct Hap as (ev & t' & Heq & Hw' & Hret & _ & Hl1 & Hl2).
  change (transcript s2) with (transcript s1). rewrite Heq. cbn [fst snd is_ok mret stm_ret].
  assert (Hfit' : cell_text_chars c <= max_text_chars (transcript s1)) by by rewrite Ht1.
  destruct (retained_last _ _ _ _ _ (proj1 (wf_limits _ Hw1)) Hfit' Hret) as [k Hk].
  split_and!; [done| |by rewrite <- Ht1].
  split_and!; [done| |apply agent_scoped_nonempty| |].
  - cbn. apply lookup_insert_eq.
  - rewrite stale_set_transcript.
    unfold s2. rewrite stale_set_assistants.
    change (is_stale_generation (delta []) s1) with (is_stale_generation (delta u) s1).
    by rewrite (stale_again _ _ _ Es).
  - by exists k, c.
Qed.

Lemma streaming_run i t n s us :
  streaming i t n s -> len (t ++ concat us) <= max_text_chars (transcript s) ->
  streaming i (t ++ concat us) (n + len us) (apply_all p (map delta us) s) /\
  same_limits (transcript s) (transcript (apply_all p (map delta us) s)).
Proof.
  revert t n s. induction us as [|u us IH]; intros t n s Hst Hfit.
  - cbn. rewrite app_nil_r, Z.add_0_r. done.
  - cbn [concat map apply_all foldl] in *. rewrite app_assoc in *.
    assert (Hfit1 : len (t ++ u) <= max_text_chars (transcript s)).
    { rewrite len_app in Hfit. pose proof (len_nonneg (concat us)). lia. }
    destruct (streaming_step i t n s u Hst Hfit1) as (s1 & Hs1 & _ & Hst1 & [Hl1 Hl2]).
    rewrite Hs1. fold (apply_all p (map delta us) s1). rewrite <- Hl2 in Hfit.
    destruct (IH _ _ _ Hst1 Hfit) as [H1 [Hl3 Hl4]]. split; [|split; congruence].
    rewrite len_cons. by replace (n + (1 + len us)) with (n + 1 + len us) by lia.
Qed.

Lemma complete_streaming i t n s e r :
  streaming i t n s -> env e = v -> len r <= max_text_chars (transcript s) ->
  exists l c s', cells (transcript s) = l ++ [c] /\ cell_revision c = n /\
    complete_chat e r s = (Ok [PC_UPDATE (next_revision c (AssistantCell r true false)) c], s') /\
    cell_id c = i /\ cell_body c = AssistantCell t false false /\
    (exists k, cells (transcript s') = k ++ [next_revision c (AssistantCell r true false)]) /\
    active_assistant e s' = None.
Proof.
  intros Hst He Hfit. destruct (streaming_active i t n s e Hst He) as (l0 & c0 & Hl0 & _ & _ & Hact).
  destruct Hst as (Hw & Ha & Hi & Hstale & l & c & Hl & Hci & Hr & Hb).
  rewrite Hl in Hl0. apply app_inj_tail in Hl0 as [_ <-].
  pose proof (replace_spec (next_revision c (AssistantCell r true false)) _ Hw) as Hrep.
  pose proof (wf_ids _ Hw) as Hnd. rewrite Hl in Hnd.
  cbn [next_revision cell_id] in Hrep. rewrite Hl, find_cell_last in Hrep by done.
  destruct Hrep as (ev & t' & Heq & Hw' & Hret & _ & Hm & Hmt).
  rewrite put_cell_last in Hret by done.
  assert (Hfit' : cell_text_chars (next_revision c (AssistantCell r true false))
                  <= max_text_chars (transcript s)) by exact Hfit.
  destruct (retained_last _ _ _ _ _ (proj1 (wf_limits _ Hw)) Hfit' Hret) as [k Hk].
  exists l, c. eexists. split_and!; [done|done| |done|done| |].
  - unfold complete_chat, mbind, stm_bind, st_get. cbv beta iota. rewrite Hact.
    unfold st_modify, replace_cell, mbind, stm_bind, on_transcript.
    cbn [drop_active set_assistants transcript next_revision cell_id] in *. rewrite Heq. reflexivity.
  - by exists k.
  - unfold active_assistant, set_transcript, drop_active. cbn. by rewrite lookup_delete_eq.
Qed.

(** A streamed answer is one cell.  When a route has no open cell, any pieces
    of text that arrive on it build one new cell at the end of the transcript,
    holding exactly their concatenation and one revision more per further piece;
    finishing the turn then puts the final response into that same cell, marks it
    complete and closes the route, so that later text starts another cell.  (The
    answer must fit the transcript's text limit, and the cell's identifier must
    be free.) *)
Theorem stream_is_one_cell u us s e response :
  wf (transcript s) -> closed (delta u) s -> (is_stale_generation (delta u) s).1 = false ->
  get (next_assistant_cell_id (delta u) s) (transcript s) = None ->
  len (concat (u :: us)) <= max_text_chars (transcript s) ->
  env e = v -> len response <= max_text_chars (transcript s) ->
  let s' := apply_all p (map delta (u :: us)) s in
  exists l c s'', cells (transcript s') = l ++ [c] /\
    cell_id c = next_assistant_cell_id (delta u) s /\
    cell_body c = AssistantCell (concat (u :: us)) false false /\ cell_revision c = len us /\
    complete_chat e response s' = (Ok [PC_UPDATE (next_revision c (AssistantCell response true false)) c], s'') /\
    (exists k, cells (transcript s'') = k ++ [next_revision c (AssistantCell response true false)]) /\
    closed e s''.
Proof.
  intros Hw Hcl Hst Hget Hfit He Hr s'. cbn [concat] in Hfit.
  assert (Hu : len u <= max_text_chars (transcript s)).
  { rewrite len_app in Hfit. pose proof (len_nonneg (concat us)). lia. }
  destruct (streaming_start u s Hw Hcl Hst Hget Hu) as (_ & Hstr & [_ Hl2]).
  rewrite <- Hl2 in Hfit. destruct (streaming_run _ _ _ _ us Hstr Hfit) as [Hrun [_ Hl4]].
  change (apply_all p (map delta us) (apply p (delta u) s).2) with s' in Hrun, Hl4.
  rewrite <- Hl2, <- Hl4 in Hr.
  destruct (complete_streaming _ _ _ _ e response Hrun He Hr)
    as (l & c & s'' & Hl & Hrev & Hc & Hci & Hb & Hk & Hnone).
  exists l, c, s''. split_and!; try done. unfold closed. by rewrite Hnone.
Qed.

End Stream.

Lemma stream_is_one_cell_witness :
  let v := {| event_id := $"e"; timestamp := 0; agent_id := Some $"main"; session_generation := Some 1;
              session_id := None; turn_id := Some $"t1"; correlation_id := None |} in
  exists t0, new_transcript 500 1000000 = Ok t0 /\
    exists l c, cells (transcript (apply_all default_policy (map (delta v) [$"Hel"; $"lo"]) (new_view t0))) = l ++ [c] /\
      cell_body c = AssistantCell $"Hello" false false.
Proof.
  intros v. eexists. split; [reflexivity|].
  destruct (stream_is_one_cell default_policy v $"Hel" [$"lo"] (new_view
      {| max_cells := 500; max_text_chars := 1000000; cells := []; indexes := ∅;
         text_chars_total := 0; revision := 0; cells_snapshot := [] |})
      {| payload := TurnFinished $"Hello!" true; env := v |} $"Hello!")
    as (l & c & _ & H1 & _ & H2 & _); try reflexivity.
  - by apply (new_transcript_wf 500 1000000).
  - vm_compute. discriminate.
  - vm_compute. discriminate.
  - exists l, c. split; [exact H1|exact H2].
Defined.

(** Replacing a cell may evict others, and [_replace] does not report them: a
    renderer that follows the changes keeps a cell the transcript has dropped. *)
Definition mirror (l : list pystr) (ch : PresentationChange) : list pystr :=
  match ch with
  | PC_APPEND c => l ++ [cell_id c]
  | PC_UPDATE _ _ => l
  | PC_EVICT c => filter (fun i => i <> cell_id c) l
  | PC_RESET => []
  end.

Lemma update_evicts_silently :
  let v := {| event_id := $"e"; timestamp := 0; agent_id := None; session_generation := None;
              session_id := None; turn_id := Some $"t"; correlation_id := None |} in
  let steer := {| payload := UserSteeringApplied $"abcd" None None None; env := v |} in
  exists t0, new_transcript 10 6 = Ok t0 /\
    let s1 := (apply default_policy steer (new_view t0)).2 in
    let s2 := (apply default_policy (delta v $"xy") s1).2 in
    match (apply default_policy (delta v $"z") s2) with
    | (Ok changes, s3) => foldl mirror (ids (cells (transcript s2))) changes <> ids (cells (transcript s3))
    | _ => False
    end.
Proof. intros v steer. eexists. split; [reflexivity|]. vm_compute. discriminate. Qed.
