(* ===== verification/ExecutionView.v ===== *)
(** * The execution panel (presentation/execution.py)

    [ExecutionViewReducer.apply] folds runtime events into the status shown next
    to the conversation: the plan, the agents, pending attention, and background
    processes.  [execution_panel_view] projects that state.

    Dictionaries whose order is shown or searched are association lists.  Agents
    are mutable objects that only the agents dictionary refers to, so changing
    one is changing its entry.  Instants are integers of one millisecond.
    Upper-casing and rendering with one decimal are parameters. *)

From S2P Require Import Prelude PyValue Lines ToolOutcome RuntimeEvents.

Record ExecutionPlanItem := { step : pystr; active_form : pystr; item_status : pystr }.

Record ExecutionAgentState := {
  ag_id : pystr;
  label : pystr;
  ag_task : pystr;
  ag_status : pystr;
  ag_activity : pystr;
  last_activity_at : option Z;
  animation_lease_until : Z;
  output_tail : list pystr;
  budget : pystr;
  ag_blocker : option pystr;
  ag_child_agent_id : option pystr;
  is_subagent : bool;
  operation_started_at : option Z;
  operation_cancelable : bool;
}.

Record AttentionItem := {
  at_request_id : pystr; at_title : pystr; source_agent_id : option pystr; at_preview : option pystr;
}.

Record ExecutionProcessState := {
  ep_session_id : pystr; ep_state : pystr; ep_command : pystr; ep_exit_code : option Z;
  ep_termination_reason : option pystr; ep_output_truncated : bool;
  ep_output_decode_replaced : bool; ep_output_tail : list pystr;
}.

Record ExecutionViewState := {
  phase : pystr;
  plan_revision : Z;
  plan : list ExecutionPlanItem;
  plan_explanation : option pystr;
  plan_updated_at : Z;
  progress_summary : pystr;
  progress_next : option pystr;
  progress_revision : Z;
  agents : list (pystr * ExecutionAgentState);
  attention : list (pystr * AttentionItem);
  runtime_state : pystr;
  seen_event_ids : gset pystr;
  session_generations : gmap (option pystr * option pystr) Z;
  processes : list (pystr * ExecutionProcessState);
}.

Definition initial_view : ExecutionViewState :=
  {| phase := $"investigating"; plan_revision := 0; plan := []; plan_explanation := None;
     plan_updated_at := 0; progress_summary := []; progress_next := None; progress_revision := 0;
     agents := []; attention := []; runtime_state := $"idle"; seen_event_ids := ∅;
     session_generations := ∅; processes := [] |}.

(** [d.pop(k, None)]. *)
Definition assoc_pop {V} (l : list (pystr * V)) (k : pystr) : list (pystr * V) :=
  filter (fun kv => kv.1 <> k) l.

(** [deque(maxlen=5)] after appending. *)
Definition last5 {A} (l : list A) : list A := slice_last 5 l.

Definition set_agents (l : list (pystr * ExecutionAgentState)) (s : ExecutionViewState)
    : ExecutionViewState :=
  {| phase := phase s; plan_revision := plan_revision s; plan := plan s;
     plan_explanation := plan_explanation s; plan_updated_at := plan_updated_at s;
     progress_summary := progress_summary s; progress_next := progress_next s;
     progress_revision := progress_revision s; agents := l; attention := attention s;
     runtime_state := runtime_state s; seen_event_ids := seen_event_ids s;
     session_generations := session_generations s; processes := processes s |}.

Definition set_attention (l : list (pystr * AttentionItem)) (s : ExecutionViewState)
    : ExecutionViewState :=
  {| phase := phase s; plan_revision := plan_revision s; plan := plan s;
     plan_explanation := plan_explanation s; plan_updated_at := plan_updated_at s;
     progress_summary := progress_summary s; progress_next := progress_next s;
     progress_revision := progress_revision s; agents := agents s; attention := l;
     runtime_state := runtime_state s; seen_event_ids := seen_event_ids s;
     session_generations := session_generations s; processes := processes s |}.

Definition set_runtime (r : pystr) (s : ExecutionViewState) : ExecutionViewState :=
  {| phase := phase s; plan_revision := plan_revision s; plan := plan s;
     plan_explanation := plan_explanation s; plan_updated_at := plan_updated_at s;
     progress_summary := progress_summary s; progress_next := progress_next s;
     progress_revision := progress_revision s; agents := agents s; attention := attention s;
     runtime_state := r; seen_event_ids := seen_event_ids s;
     session_generations := session_generations s; processes := processes s |}.

Definition set_processes (l : list (pystr * ExecutionProcessState)) (s : ExecutionViewState)
    : ExecutionViewState :=
  {| phase := phase s; plan_revision := plan_revision s; plan := plan s;
     plan_explanation := plan_explanation s; plan_updated_at := plan_updated_at s;
     progress_summary := progress_summary s; progress_next := progress_next s;
     progress_revision := progress_revision s; agents := agents s; attention := attention s;
     runtime_state := runtime_state s; seen_event_ids := seen_event_ids s;
     session_generations := session_generations s; processes := l |}.

Definition set_plan (revision : Z) (l : list ExecutionPlanItem) (explanation : option pystr) (at_ : Z)
    (s : ExecutionViewState) : ExecutionViewState :=
  {| phase := phase s; plan_revision := revision; plan := l; plan_explanation := explanation;
     plan_updated_at := at_; progress_summary := progress_summary s;
     progress_next := progress_next s; progress_revision := progress_revision s;
     agents := agents s; attention := attention s; runtime_state := runtime_state s;
     seen_event_ids := seen_event_ids s; session_generations := session_generations s;
     processes := processes s |}.

Definition set_progress (revision : Z) (ph summary : pystr) (next : option pystr)
    (s : ExecutionViewState) : ExecutionViewState :=
  {| phase := ph; plan_revision := plan_revision s; plan := plan s;
     plan_explanation := plan_explanation s; plan_updated_at := plan_updated_at s;
     progress_summary := summary; progress_next := next; progress_revision := revision;
     agents := agents s; attention := attention s; runtime_state := runtime_state s;
     seen_event_ids := seen_event_ids s; session_generations := session_generations s;
     processes := processes s |}.

Definition set_correlation (seen : gset pystr) (g : gmap (option pystr * option pystr) Z)
    (s : ExecutionViewState) : ExecutionViewState :=
  {| phase := phase s; plan_revision := plan_revision s; plan := plan s;
     plan_explanation := plan_explanation s; plan_updated_at := plan_updated_at s;
     progress_summary := progress_summary s; progress_next := progress_next s;
     progress_revision := progress_revision s; agents := agents s; attention := attention s;
     runtime_state := runtime_state s; seen_event_ids := seen; session_generations := g;
     processes := processes s |}.

(** ** Texts *)

Section View.
Context (upper : pystr -> pystr) (one_decimal : Z -> Z -> pystr).
Context (lease : Z) (root_agent_id : option pystr).

Definition short_agent_label (i : pystr) : pystr :=
  let compact := py_replace $"job-" [] (py_replace $"subagent-" [] i) in
  text_or (Some (upper (take 8 compact))) $"AGENT".

Definition subagent_activity (status : pystr) : pystr :=
  default status (assoc_get
    [($"completed", $"complete"); ($"failed", $"failed"); ($"cancelled", $"cancelled");
     ($"running", $"working"); ($"queued", $"queued")] status).

Definition budget_text (j : SubagentJob) : pystr :=
  $"tools " ++ z_str (tool_calls j)
  ++ match max_tool_calls j with Some n => $"/" ++ z_str n | None => [] end
  ++ $" · tok " ++ z_str (tokens j)
  ++ match max_tokens j with Some n => $"/" ++ z_str n | None => [] end.

Definition phase_labels : list (pystr * pystr) :=
  [ ($"accepted", $"request accepted"); ($"mcp_wait", $"waiting for MCP");
    ($"context_prepare", $"preparing context"); ($"context_compact", $"compacting context");
    ($"request_build", $"building request"); ($"connect", $"connecting to model");
    ($"retry_backoff", $"retrying model request");
    ($"await_first_chunk", $"waiting for first response"); ($"streaming", $"generating response");
    ($"cancel_active_operation", $"cancelling active work"); ($"save_session", $"saving session");
    ($"stop_interactions", $"closing pending interactions");
    ($"stop_remote_chat", $"stopping remote chat");
    ($"stop_subagents", $"stopping sub-agent workers");
    ($"stop_processes", $"stopping shell processes");
    ($"dispose_extensions", $"disposing runtime extensions");
    ($"stop_remote_relay", $"stopping remote relay");
    ($"disconnect_mcp", $"disconnecting MCP servers"); ($"stop_lsp", $"stopping language servers");
    ($"release_monitors", $"releasing workspace monitors"); ($"completed", $"complete") ].

Definition operation_phase_activity (o : OperationPhase) : pystr :=
  let ph := match assoc_get phase_labels (op_phase o) with
            | Some t => t
            | None => py_replace $"_" $" " (op_phase o)
            end in
  let ph := match op_detail o with Some ((_ :: _) as d) => ph ++ $" · " ++ d | _ => ph end in
  match attempt o with
  | Some n => ph ++ $" · attempt " ++ z_str n
              ++ match max_attempts o with Some m => $"/" ++ z_str m | None => [] end
  | None => ph
  end.

(** [f"{seconds:.1f}s" if seconds < 60 else f"{seconds / 60:.1f}m"]. *)
Definition format_elapsed (ms : Z) : pystr :=
  if ms <? 60000 then one_decimal ms 1000 ++ $"s" else one_decimal ms 60000 ++ $"m".

Definition first_target (args : pydict) : pystr :=
  match filter (fun v => truthy v = true)
          (map (dget_none args) [$"file_path"; $"path"; $"pattern"; $"command"; $"cmd"]) with
  | v :: _ => py_str v
  | [] => []
  end.

Definition tool_activity (name : pystr) (args : pydict) : pystr :=
  rdrop_while is_space (name ++ $" " ++ take 80 (py_replace [10] $" " (first_target args))).

(** ** Agents *)

Definition state_key_for_agent (l : list (pystr * ExecutionAgentState)) (i : pystr) : pystr :=
  match filter (fun ka => ag_child_agent_id ka.2 = Some i) l with
  | (k, _) :: _ => k
  | [] => if startswith i $"sa_" && bool_decide (is_Some (assoc_get l (drop 3 i)))
          then drop 3 i else i
  end.

Definition new_agent (i lbl : pystr) : ExecutionAgentState :=
  {| ag_id := i; label := lbl; ag_task := []; ag_status := $"idle"; ag_activity := [];
     last_activity_at := None; animation_lease_until := 0; output_tail := []; budget := [];
     ag_blocker := None; ag_child_agent_id := None; is_subagent := false;
     operation_started_at := None; operation_cancelable := false |}.

Definition touched (activity status : pystr) (now : Z) (a : ExecutionAgentState)
    : ExecutionAgentState :=
  {| ag_id := ag_id a; label := label a; ag_task := ag_task a; ag_status := status;
     ag_activity := activity; last_activity_at := Some now; animation_lease_until := now + lease;
     output_tail := output_tail a; budget := budget a; ag_blocker := ag_blocker a;
     ag_child_agent_id := ag_child_agent_id a; is_subagent := is_subagent a;
     operation_started_at := None; operation_cancelable := false |}.

Definition with_operation (started : option Z) (cancelable : bool) (a : ExecutionAgentState)
    : ExecutionAgentState :=
  {| ag_id := ag_id a; label := label a; ag_task := ag_task a; ag_status := ag_status a;
     ag_activity := ag_activity a; last_activity_at := last_activity_at a;
     animation_lease_until := animation_lease_until a; output_tail := output_tail a;
     budget := budget a; ag_blocker := ag_blocker a; ag_child_agent_id := ag_child_agent_id a;
     is_subagent := is_subagent a; operation_started_at := started;
     operation_cancelable := cancelable |}.

Definition with_output (lines : list pystr) (a : ExecutionAgentState) : ExecutionAgentState :=
  {| ag_id := ag_id a; label := label a; ag_task := ag_task a; ag_status := ag_status a;
     ag_activity := ag_activity a; last_activity_at := last_activity_at a;
     animation_lease_until := animation_lease_until a;
     output_tail := foldl (fun q x => last5 (q ++ [x])) (output_tail a) lines;
     budget := budget a; ag_blocker := ag_blocker a; ag_child_agent_id := ag_child_agent_id a;
     is_subagent := is_subagent a; operation_started_at := operation_started_at a;
     operation_cancelable := operation_cancelable a |}.

(** [_touch], with what the caller then does to the agent it returns. *)
Definition touch (e : RuntimeEvent) (activity status : pystr)
    (f : ExecutionAgentState -> ExecutionAgentState) (s : ExecutionViewState) : ExecutionViewState :=
  let i := text_or (agent_id (env e)) $"main" in
  let k := state_key_for_agent (agents s) i in
  let a := match assoc_get (agents s) k with
           | Some a => a
           | None => new_agent i (if bool_decide (i = $"main") || bool_decide (Some i = root_agent_id)
                                  then $"MAIN" else short_agent_label i)
           end in
  set_agents (assoc_set (agents s) k (f (touched activity status (timestamp (env e)) a))) s.

Definition terminal_statuses : list pystr :=
  [$"completed"; $"succeeded"; $"failed"; $"cancelled"; $"killed"; $"timed_out";
   $"indeterminate"; $"stale"].

Definition retired (a : ExecutionAgentState) : bool :=
  is_subagent a && bool_decide (ag_status a ∈ terminal_statuses).

Definition remove_terminal_subagents (s : ExecutionViewState) : ExecutionViewState :=
  let keys := map fst (filter (fun ka => retired ka.2 = true) (agents s)) in
  set_attention (foldl (fun l k => assoc_pop l ($"job:" ++ k)) (attention s) keys)
    (set_agents (foldl (fun l k => assoc_pop l k) (agents s) keys) s).

Definition is_stale_generation (e : RuntimeEvent) (s : ExecutionViewState) : bool * ExecutionViewState :=
  match agent_id (env e), session_generation (env e) with
  | Some a, Some n =>
    let k := (Some a, session_id (env e)) in
    let record := set_correlation (seen_event_ids s) (<[k := n]> (session_generations s)) s in
    match session_generations s !! k with
    | Some current =>
      if n <? current then (true, s) else if n >? current then (false, record) else (false, s)
    | None => (false, record)
    end
  | _, _ => (false, s)
  end.

(** ** Handlers *)

Definition plan_item (item : pydict) : ExecutionPlanItem :=
  {| step := py_str (dget_or item $"step" (VStr []));
     active_form := py_str (py_or (dget_none item $"active_form") (dget_or item $"step" (VStr [])));
     item_status := py_str (dget_or item $"status" (VStr $"pending")) |}.

Definition clip_line (line : pystr) : pystr :=
  if len line >? 240 then take 239 line ++ $"…" else line.

Definition process_lines (p : ProcessSession) : list pystr :=
  map (fun l => clip_line ($"stdout: " ++ l)) (splitlines (ps_stdout p))
  ++ map (fun l => clip_line ($"stderr: " ++ l)) (splitlines (ps_stderr p)).

Definition change_process (p : ProcessSession) (s : ExecutionViewState) : ExecutionViewState :=
  let previous := assoc_get (processes s) (process_session_id p) in
  let tail := match previous with Some q => ep_output_tail q | None => [] end ++ process_lines p in
  set_processes (assoc_set (processes s) (process_session_id p)
    {| ep_session_id := process_session_id p; ep_state := ps_state p; ep_command := command p;
       ep_exit_code := ps_exit_code p; ep_termination_reason := termination_reason p;
       ep_output_truncated := output_truncated p;
       ep_output_decode_replaced := output_decode_replaced p; ep_output_tail := last5 tail |}) s.

Definition attention_statuses : list pystr :=
  [$"failed"; $"stale"; $"blocked"; $"killed"; $"timed_out"; $"indeterminate"].

Definition job_agent (j : SubagentJob) (child : pystr) (now : Z) (a : ExecutionAgentState)
    : ExecutionAgentState :=
  {| ag_id := job_id j; label := short_agent_label (job_id j); ag_task := task j;
     ag_status := job_status j;
     ag_activity := or_empty (opt_or (match current_tool j with
                                      | Some ((_ :: _) as t) => Some ($"running " ++ t)
                                      | _ => None
                                      end)
                    (opt_or (activity j) (opt_or (job_error j) (Some (subagent_activity (job_status j))))));
     last_activity_at := Some now; animation_lease_until := now + lease;
     output_tail := output_tail a; budget := budget_text j; ag_blocker := blocker j;
     ag_child_agent_id := Some child; is_subagent := true;
     operation_started_at := operation_started_at a; operation_cancelable := operation_cancelable a |}.

Definition child_of (j : SubagentJob) : pystr := text_or (child_agent_id j) ($"sa_" ++ job_id j).

Definition change_job (e : RuntimeEvent) (j : SubagentJob) (s : ExecutionViewState)
    : ExecutionViewState :=
  let is_new := negb (bool_decide (is_Some (assoc_get (agents s) (job_id j)))) in
  let s := if is_new && bool_decide (job_status j ∈ [$"queued"; $"running"])
           then remove_terminal_subagents s else s in
  let agent := assoc_get (agents s) (job_id j) in
  let child := child_of j in
  let duplicate := assoc_get (agents s) child in
  let l := assoc_pop (agents s) child in
  let a := match agent, duplicate with
           | Some a, _ => a
           | None, Some d => d
           | None, None => new_agent (job_id j) (short_agent_label (job_id j))
           end in
  let a := job_agent j child (timestamp (env e)) a in
  let s := set_agents (assoc_set l (job_id j) a) s in
  let i := $"job:" ++ job_id j in
  if bool_decide (job_status j ∈ attention_statuses) then
    set_attention (assoc_set (attention s) i
      {| at_request_id := i;
         at_title := label a ++ $": " ++ text_or (job_error j) (job_status j);
         source_agent_id := agent_id (env e); at_preview := None |}) s
  else if bool_decide (job_status j ∈ [$"completed"; $"cancelled"]) then
    set_attention (assoc_pop (attention s) i) s
  else s.

Definition operation_status (status : pystr) : pystr :=
  default $"working" (assoc_get [($"failed", $"failed"); ($"cancelled", $"cancelling");
                                 ($"completed", $"working")] status).

Definition generating (e : RuntimeEvent) (s : ExecutionViewState) : ExecutionViewState :=
  touch e $"generating response" $"thinking" (with_operation None false) s.

Definition keep (a : ExecutionAgentState) : ExecutionAgentState := a.

Definition apply_payload (e : RuntimeEvent) (s : ExecutionViewState) : bool * ExecutionViewState :=
  match payload e with
  | PlanUpdated revision items explanation =>
    if revision <? plan_revision s then (false, s)
    else (true, set_plan revision (map plan_item items) explanation (timestamp (env e)) s)
  | ProgressReported revision ph summary next =>
    if revision <? progress_revision s then (false, s)
    else (true, touch e summary $"working" keep (set_progress revision ph summary next s))
  | TurnStarted _ _ | ChatStarted _ =>
    (true, touch e $"preparing request" $"working" keep (set_runtime $"running" s))
  | OperationPhaseChanged o =>
    let running := bool_decide (op_status o = $"running") in
    (true, touch e (operation_phase_activity o) (operation_status (op_status o))
             (with_operation (if running then started_at o else None) (cancelable o && running)) s)
  | AssistantContentDelta _ | ReasoningDelta _ _ | StreamChunk _ _ _ => (true, generating e s)
  | ToolCallStarted _ name args => (true, touch e (tool_activity name args) $"tool" keep s)
  | ToolOutputDelta _ text _ => (true, touch e $"tool output" $"tool" (with_output (splitlines text)) s)
  | ToolCallFinished _ name o =>
    (true, touch e (name ++ (if success o then $" done" else $" failed"))
             (if success o then $"working" else $"failed") keep s)
  | ProcessSessionChanged p => (true, change_process p s)
  | SubagentJobChanged j => (true, change_job e j s)
  | ApprovalRequested request title preview =>
    (true, touch e $"waiting for approval" $"waiting_approval" keep
       (set_attention (assoc_set (attention s) request
          {| at_request_id := request; at_title := title; source_agent_id := agent_id (env e);
             at_preview := preview |}) s))
  | ApprovalResolved request _ _ _ _ _ _ =>
    (true, touch e $"approval resolved" $"working" keep
       (set_attention (assoc_pop (attention s) request) s))
  | TurnFinished _ _ | ChatCompleted _ _ =>
    (true, touch e $"ready" $"idle" keep (set_runtime $"idle" s))
  | ErrorOccurred message =>
    (true, touch e message $"failed" keep (set_runtime $"failed" s))
  | NotificationRaised message code _ _ =>
    if bool_decide (code = $"subagent.conflict") then
      let i := $"notice:" ++ event_id (env e) in
      (true, set_attention (assoc_set (attention s) i
         {| at_request_id := i; at_title := message; source_agent_id := agent_id (env e);
            at_preview := None |}) s)
    else (false, s)
  | RuntimeStateChanged state reason =>
    (true, touch e (text_or reason state) state keep (set_runtime state s))
  | _ => (false, s)
  end.

Definition apply (e : RuntimeEvent) (s : ExecutionViewState) : bool * ExecutionViewState :=
  let transient := is_transient_runtime_payload (payload e) in
  if negb transient && bool_decide (event_id (env e) ∈ seen_event_ids s) then (false, s)
  else
    let s := if transient then s
             else set_correlation ({[event_id (env e)]} ∪ seen_event_ids s) (session_generations s) s in
    let '(stale, s) := is_stale_generation e s in
    if stale then (false, s) else apply_payload e s.

(** ** The panel *)

Record ExecutionPanelAgent := {
  pa_label : pystr; pa_status : pystr; pa_task : pystr; pa_activity : pystr; pa_budget : pystr;
  marker : pystr; pa_is_subagent : bool;
}.

Record ExecutionPanelView := {
  pv_phase : pystr; plan_completed : Z; plan_total : Z; pv_runtime_state : pystr; is_live : bool;
  active_plan : pystr; pv_plan : list ExecutionPlanItem; main : ExecutionPanelAgent;
  subagents : list ExecutionPanelAgent; pv_attention : list AttentionItem;
  pv_progress_summary : pystr; pv_progress_next : option pystr; process_running : Z;
  process_unknown : Z;
}.

(** [int(now * 8) % 4] picks the frame of the running marker. *)
Definition panel_agent (now : Z) (a : ExecutionAgentState) : ExecutionPanelAgent :=
  {| pa_label := label a; pa_status := ag_status a; pa_task := ag_task a;
     pa_activity :=
       match operation_started_at a with
       | Some t => ag_activity a ++ $" · " ++ format_elapsed (Z.max 0 (now - t))
                   ++ (if operation_cancelable a then $" · Ctrl+C cancels" else [])
       | None => ag_activity a
       end;
     pa_budget := budget a;
     marker :=
       if now <? animation_lease_until a then
         nth (Z.to_nat (now * 8 / 1000 mod 4)) [$"◐"; $"◓"; $"◑"; $"◒"] []
       else if bool_decide (ag_status a ∈ [$"completed"; $"succeeded"]) then $"✓"
       else if bool_decide (ag_status a ∈ [$"failed"; $"blocked"; $"stale"; $"indeterminate"; $"timed_out"])
       then $"!" else $"○";
     pa_is_subagent := is_subagent a |}.

Definition count_where {A} (f : A -> bool) (l : list A) : Z := len (filter (fun x => f x = true) l).

Definition active_plan_item (s : ExecutionViewState) : option ExecutionPlanItem :=
  head (filter (fun i => item_status i = $"in_progress") (plan s)).

Definition active_statuses : list pystr :=
  [$"thinking"; $"tool"; $"working"; $"running"; $"queued"; $"waiting_approval"; $"cancelling"].

Definition execution_panel_view (now : Z) (s : ExecutionViewState) : ExecutionPanelView :=
  let projected := map (panel_agent now) (agents s).*2 in
  let main := default
    {| pa_label := $"MAIN"; pa_status := runtime_state s; pa_task := [];
       pa_activity := text_or (Some (progress_summary s)) $"ready"; pa_budget := [];
       marker := $"○"; pa_is_subagent := false |}
    (head (filter (fun a => pa_is_subagent a = false) projected)) in
  let subs := filter (fun a => pa_is_subagent a = true) projected in
  let active a := bool_decide (pa_status a ∈ active_statuses) in
  {| pv_phase := upper (phase s);
     plan_completed := count_where (fun i => bool_decide (item_status i = $"completed")) (plan s);
     plan_total := len (plan s); pv_runtime_state := runtime_state s;
     is_live := negb (bool_decide (runtime_state s = $"idle")) || active main || existsb active subs;
     active_plan := match active_plan_item s with Some i => active_form i | None => $"no active step" end;
     pv_plan := plan s; main := main; subagents := subs; pv_attention := (attention s).*2;
     pv_progress_summary := progress_summary s; pv_progress_next := progress_next s;
     process_running := count_where (fun p => bool_decide (ep_state p = $"running")) (processes s).*2;
     process_unknown := count_where (fun p => bool_decide (ep_state p = $"unknown")) (processes s).*2 |}.

Definition apply_all (l : list RuntimeEvent) (s : ExecutionViewState) : ExecutionViewState :=
  foldl (fun s e => (apply e s).2) s l.
End View.

(** ** Lemmas on ordered dictionaries *)

Lemma assoc_pop_elem {V} (l : list (pystr * V)) k kv : kv ∈ assoc_pop l k <-> kv ∈ l /\ kv.1 <> k.
Proof. unfold assoc_pop. rewrite list_elem_of_filter. naive_solver. Qed.

Lemma filter_keys_NoDup {V} (P : pystr * V -> Prop) `{forall x, Decision (P x)} l :
  NoDup l.*1 -> NoDup (filter P l).*1.
Proof. intros Hnd. eapply sublist_NoDup; [done|]. apply fmap_sublist, sublist_filter. Qed.

Lemma assoc_get_pop {V} (l : list (pystr * V)) k k' :
  assoc_get (assoc_pop l k) k' = if decide (k' = k) then None else assoc_get l k'.
Proof.
  unfold assoc_pop. induction l as [|[k0 v0] l IH]; [by case_decide|].
  rewrite filter_cons. cbn in *. repeat case_decide; cbn; repeat case_decide; congruence.
Qed.

Lemma pops_elem {V} ks : forall (l : list (pystr * V)) kv,
  kv ∈ foldl (fun l k => assoc_pop l k) l ks <-> kv ∈ l /\ kv.1 ∉ ks.
Proof.
  induction ks as [|k ks IH]; intros l kv; cbn [foldl].
  - split; [intros; split; [done|apply not_elem_of_nil]|by intros [? _]].
  - rewrite IH, assoc_pop_elem, elem_of_cons. naive_solver.
Qed.

Lemma pops_NoDup {V} ks : forall l : list (pystr * V),
  NoDup l.*1 -> NoDup (foldl (fun l k => assoc_pop l k) l ks).*1.
Proof.
  induction ks as [|k ks IH]; intros l Hnd; cbn [foldl]; [done|]. by apply IH, filter_keys_NoDup.
Qed.

Lemma assoc_get_In {V} (l : list (pystr * V)) k v : NoDup l.*1 -> (k, v) ∈ l -> assoc_get l k = Some v.
Proof.
  induction l as [|[k' v'] l IH]; cbn; intros Hnd Hin; [by apply elem_of_nil in Hin|].
  apply NoDup_cons in Hnd as [Hni Hnd]. apply elem_of_cons in Hin as [[= -> ->]|Hin].
  - by rewrite decide_True.
  - rewrite decide_False; [by apply IH|]. intros ->. apply Hni. apply list_elem_of_fmap. by exists (k', v).
Qed.

Section Theorems.
Context (upper : pystr -> pystr) (one_decimal : Z -> Z -> pystr).
Context (lease : Z) (root : option pystr).

(** An ignored event leaves what is shown alone; any other is handled in a state
    that differs only in the correlation of events. *)
Definition same_display (s s' : ExecutionViewState) : Prop :=
  agents s' = agents s /\ attention s' = attention s /\ processes s' = processes s /\
  plan_revision s' = plan_revision s /\ progress_revision s' = progress_revision s /\
  plan s' = plan s.

Lemma apply_cases e s :
  ((apply upper lease root e s).1 = false /\ same_display s (apply upper lease root e s).2) \/
  exists s1, same_display s s1 /\ apply upper lease root e s = apply_payload upper lease root e s1.
Proof.
  unfold apply. destruct (negb _ && _); [by left|].
  set (s1 := if is_transient_runtime_payload (payload e) then s else _).
  assert (H1 : same_display s s1) by (unfold s1; by case_match).
  destruct (is_stale_generation e s1) as [b s2] eqn:E.
  assert (H2 : same_display s s2).
  { unfold is_stale_generation in E. destruct H1 as (? & ? & ? & ? & ? & ?).
    repeat case_match; simplify_eq; by split_and!. }
  destruct b; [by left|]. right. by exists s2.
Qed.

(** ** One row per worker

    A job's worker reports under its own agent identifier.  [is_child] tells the
    identifiers of workers from those of jobs, and [owner] gives a worker's job. *)
Section Rows.
Context (is_child : pystr -> Prop) (owner : pystr -> pystr).

Definition names_ok (e : RuntimeEvent) : Prop :=
  match payload e with
  | SubagentJobChanged j =>
    is_child (child_of j) /\ ~ is_child (job_id j) /\ owner (child_of j) = job_id j
  | _ => True
  end.

Record rows_ok (l : list (pystr * ExecutionAgentState)) : Prop := {
  rows_keys : NoDup l.*1;
  rows_child : forall k a c, (k, a) ∈ l -> ag_child_agent_id a = Some c ->
    is_child c /\ owner c = k /\ ~ is_child k;
  rows_free : forall k a c, (k, a) ∈ l -> ag_child_agent_id a = Some c -> c ∉ l.*1;
}.

Lemma rows_ok_sub l l' :
  rows_ok l -> NoDup l'.*1 -> (forall kv, kv ∈ l' -> kv ∈ l) -> rows_ok l'.
Proof.
  intros [Hk Hc Hf] Hnd Hsub. constructor; [done|eauto|].
  intros k a c Hin Ha (kv & -> & Hkv)%list_elem_of_fmap. apply (Hf k a kv.1); [auto..|].
  apply list_elem_of_fmap. eauto.
Qed.

Lemma rows_ok_touch l k a :
  rows_ok l ->
  (forall c, ag_child_agent_id a = Some c -> exists a0, (k, a0) ∈ l /\ ag_child_agent_id a0 = Some c) ->
  (k ∈ l.*1 \/ forall k' a' c, (k', a') ∈ l -> ag_child_agent_id a' = Some c -> c <> k) ->
  rows_ok (assoc_set l k a).
Proof.
  intros [Hk Hc Hf] Ha Hnew.
  assert (Hold : forall k' a' c, (k', a') ∈ assoc_set l k a -> ag_child_agent_id a' = Some c ->
            exists a0, (k', a0) ∈ l /\ ag_child_agent_id a0 = Some c).
  { intros k' a' c Hin Hac. apply assoc_set_elem in Hin as [[= -> ->]|[Hin _]]; eauto. }
  constructor.
  - by apply assoc_set_NoDup.
  - intros k' a' c Hin Hac. destruct (Hold _ _ _ Hin Hac) as (a0 & ? & ?). eauto.
  - intros k' a' c Hin Hac. destruct (Hold _ _ _ Hin Hac) as (a0 & Hin0 & Ha0).
    rewrite assoc_set_keys. case_decide as Hd; [by eapply Hf|].
    intros [Hx|Hx%list_elem_of_singleton]%elem_of_app; [by eapply Hf|].
    destruct Hnew as [|Hnew]; [done|]. by eapply Hnew.
Qed.

Lemma state_key_spec l i :
  let k := state_key_for_agent l i in
  (exists a, (k, a) ∈ l /\ ag_child_agent_id a = Some i) \/
  ((forall k' a', (k', a') ∈ l -> ag_child_agent_id a' <> Some i) /\ (k ∈ l.*1 \/ k = i)).
Proof.
  unfold state_key_for_agent. destruct (filter _ l) as [|[k a] r] eqn:E.
  - right. split.
    + intros k' a' Hin Ha. assert (Hf : (k', a') ∈ filter (fun ka => ag_child_agent_id ka.2 = Some i) l)
        by by apply list_elem_of_filter. rewrite E in Hf. by apply elem_of_nil in Hf.
    + case_match eqn:Hs; [|by right]. left. apply andb_true_iff in Hs as [_ Hs].
      apply bool_decide_eq_true in Hs as [a Ha]. apply assoc_get_elem in Ha.
      apply list_elem_of_fmap. by exists (drop 3 i, a).
  - left. exists a. assert (Hf : (k, a) ∈ filter (fun ka => ag_child_agent_id ka.2 = Some i) l) by (rewrite E; left).
    by apply list_elem_of_filter in Hf as [? ?].
Qed.

Definition keeps_child (f : ExecutionAgentState -> ExecutionAgentState) : Prop :=
  forall a, ag_child_agent_id (f a) = ag_child_agent_id a.

Lemma touch_rows e activity status f s :
  keeps_child f -> rows_ok (agents s) -> rows_ok (agents (touch upper lease root e activity status f s)).
Proof.
  intros Hf Hr. unfold touch. cbn [set_agents agents].
  set (i := text_or _ _). pose proof (state_key_spec (agents s) i) as Hk.
  set (k := state_key_for_agent (agents s) i) in *. cbv zeta in Hk.
  apply rows_ok_touch; [done| |].
  - intros c. rewrite Hf. cbn [touched ag_child_agent_id].
    destruct (assoc_get (agents s) k) as [a|] eqn:Ea; [|done].
    intros Hc. exists a. split; [by apply assoc_get_elem|done].
  - destruct Hk as [(a & Hin & _)|[Hno [Hin| ->]]].
    + left. apply list_elem_of_fmap. by exists (k, a).
    + by left.
    + right. intros k' a' c Hin Hc ->. by apply (Hno k' a').
Qed.

Lemma remove_terminal_rows s :
  rows_ok (agents s) -> rows_ok (agents (remove_terminal_subagents s)).
Proof.
  intros Hr. unfold remove_terminal_subagents. cbn [set_attention set_agents agents].
  eapply rows_ok_sub; [done|apply pops_NoDup, (rows_keys _ Hr)|]. by intros kv [? _]%pops_elem.
Qed.

Lemma change_job_rows e j s :
  is_child (child_of j) -> ~ is_child (job_id j) -> owner (child_of j) = job_id j ->
  rows_ok (agents s) -> rows_ok (agents (change_job upper lease e j s)).
Proof.
  intros Hc Hj Ho Hr. unfold change_job.
  set (s1 := if _ && _ then remove_terminal_subagents s else s).
  assert (Hr1 : rows_ok (agents s1)) by (unfold s1; case_match; [by apply remove_terminal_rows|done]).
  clearbody s1. clear Hr. set (a := job_agent _ _ _ _ _ _).
  assert (Ha : ag_child_agent_id a = Some (child_of j)) by done. clearbody a.
  set (l := assoc_pop (agents s1) (child_of j)).
  assert (Hne : job_id j <> child_of j) by (intros Heq; apply Hj; by rewrite Heq).
  assert (Hl : rows_ok l).
  { eapply rows_ok_sub; [done|apply filter_keys_NoDup, (rows_keys _ Hr1)|]. by intros kv [? _]%assoc_pop_elem. }
  assert (Hnl : child_of j ∉ l.*1).
  { intros (kv & Heq & Hin)%list_elem_of_fmap. apply assoc_pop_elem in Hin as [_ Hkv]. by apply Hkv. }
  assert (Hset : rows_ok (assoc_set l (job_id j) a)).
  { destruct Hl as [Hk Hch Hf]. constructor.
    - by apply assoc_set_NoDup.
    - intros k b c Hin Hb. apply assoc_set_elem in Hin as [[= -> ->]|[Hin _]]; [|by eapply Hch|done].
      rewrite Ha in Hb. by injection Hb as <-.
    - intros k b c Hin Hb. apply assoc_set_elem in Hin as [[= -> ->]|[Hin _]]; [..|done].
      + rewrite Ha in Hb. injection Hb as <-. rewrite assoc_set_keys. case_decide; [done|].
        by intros [?|?%list_elem_of_singleton]%elem_of_app.
      + destruct (Hch _ _ _ Hin Hb) as (Hci & _ & _). rewrite assoc_set_keys.
        case_decide; [by eapply Hf|].
        intros [?| ->%list_elem_of_singleton]%elem_of_app; [by eapply Hf|done]. }
  by repeat case_match.
Qed.

Lemma apply_payload_rows e s :
  names_ok e -> rows_ok (agents s) -> rows_ok (agents (apply_payload upper lease root e s).2).
Proof.
  intros He Hr. unfold apply_payload, generating, names_ok in *.
  destruct (payload e);
    repeat lazymatch goal with
    | |- rows_ok (agents (if ?b then _ else _).2) => destruct b
    end; cbn [snd]; try exact Hr; try (by apply touch_rows).
  destruct He as (? & ? & ?). by apply change_job_rows.
Qed.

Lemma apply_rows e s :
  names_ok e -> rows_ok (agents s) -> rows_ok (agents (apply upper lease root e s).2).
Proof.
  intros He Hr. destruct (apply_cases e s) as [(_ & -> & _)|(s1 & (Ha & _) & ->)]; [done|].
  apply apply_payload_rows; [done|]. by rewrite Ha.
Qed.

Lemma apply_all_rows es s :
  Forall names_ok es -> rows_ok (agents s) -> rows_ok (agents (apply_all upper lease root es s)).
Proof.
  intros Hes. revert s. induction Hes as [|e es He _ IH]; intros s Hr; [done|].
  by apply IH, apply_rows.
Qed.

(** The row shows the agent [c]: under its own identifier, or as a job's worker. *)
Definition stands_for (c k : pystr) (a : ExecutionAgentState) : Prop :=
  k = c \/ ag_child_agent_id a = Some c.

(** The panel has one row per agent.  When the identifiers of workers are not
    those of jobs and each worker has one job, then after any events no two rows
    show the same agent, whether its own events or its job's came first; and an
    event of a worker lands on the row of its job. *)
Theorem one_row_per_agent es :
  Forall names_ok es ->
  let l := agents (apply_all upper lease root es initial_view) in
  NoDup l.*1 /\
  (forall c k1 a1 k2 a2, (k1, a1) ∈ l -> (k2, a2) ∈ l ->
     stands_for c k1 a1 -> stands_for c k2 a2 -> k1 = k2 /\ a1 = a2) /\
  (forall k a c, (k, a) ∈ l -> ag_child_agent_id a = Some c -> state_key_for_agent l c = k).
Proof.
  intros Hes l. assert (Hr : rows_ok l).
  { apply apply_all_rows; [done|]. constructor; [apply NoDup_nil_2|..]; intros k a c Hin;
      by apply elem_of_nil in Hin. }
  destruct Hr as [Hnd Hch Hfree].
  assert (Hkey : forall c k1 a1 k2 a2, (k1, a1) ∈ l -> (k2, a2) ∈ l ->
     stands_for c k1 a1 -> stands_for c k2 a2 -> k1 = k2).
  { intros c k1 a1 k2 a2 H1 H2 [->|Hc1] [->|Hc2]; [done|..].
    - exfalso. apply (Hfree _ _ _ H2 Hc2). apply list_elem_of_fmap. by exists (c, a1).
    - exfalso. apply (Hfree _ _ _ H1 Hc1). apply list_elem_of_fmap. by exists (c, a2).
    - destruct (Hch _ _ _ H1 Hc1) as (_ & <- & _). by destruct (Hch _ _ _ H2 Hc2) as (_ & <- & _). }
  split_and!; [done| |].
  - intros c k1 a1 k2 a2 H1 H2 Hs1 Hs2. pose proof (Hkey _ _ _ _ _ H1 H2 Hs1 Hs2) as ->.
    split; [done|]. apply (assoc_get_In _ _ _ Hnd) in H1. apply (assoc_get_In _ _ _ Hnd) in H2.
    congruence.
  - intros k a c Hin Hc. pose proof (state_key_spec l c) as Hk. cbv zeta in Hk.
    destruct Hk as [(a' & Hin' & Ha')|[Hno _]]; [|by destruct (Hno _ _ Hin)].
    eapply Hkey; [exact Hin'|exact Hin|by right|by right].
Qed.
End Rows.

(** ** Bounded tails *)

Definition process_ok (p : ExecutionProcessState) : Prop :=
  len (ep_output_tail p) <= 5 /\ Forall (fun l => len l <= 240) (ep_output_tail p).

Definition tails_ok (s : ExecutionViewState) : Prop :=
  Forall (fun ka => len (output_tail ka.2) <= 5) (agents s) /\
  Forall (fun kp => process_ok kp.2) (processes s).

Lemma assoc_set_Forall {V} (P : pystr * V -> Prop) l k v :
  Forall P l -> (forall k', P (k', v)) -> Forall P (assoc_set l k v).
Proof.
  intros Hl Hv. induction Hl as [|[k' v'] l Hx Hl IH]; cbn [assoc_set]; [by constructor|].
  case_decide; constructor; auto.
Qed.

Lemma assoc_get_Forall {V} (P : pystr * V -> Prop) l k v : Forall P l -> assoc_get l k = Some v -> P (k, v).
Proof. intros Hl Hv%assoc_get_elem. rewrite Forall_forall in Hl. auto. Qed.

Lemma last5_len {A} (l : list A) : len (last5 l) <= 5.
Proof. unfold last5, slice_last. change (0 <? 5) with true. cbv iota. rewrite len_drop. unfold len. lia. Qed.

Lemma push5_len {A} (lines q : list A) :
  len q <= 5 -> len (foldl (fun q x => last5 (q ++ [x])) q lines) <= 5.
Proof. revert q. induction lines as [|x lines IH]; intros q Hq; cbn [foldl]; [done|]. apply IH, last5_len. Qed.

Definition keeps_tail (f : ExecutionAgentState -> ExecutionAgentState) : Prop :=
  forall a, len (output_tail a) <= 5 -> len (output_tail (f a)) <= 5.

Lemma touch_tails e activity status f s :
  keeps_tail f -> tails_ok s -> tails_ok (touch upper lease root e activity status f s).
Proof.
  intros Hf [Ha Hp]. split; [|done]. unfold touch. cbn [set_agents agents].
  apply assoc_set_Forall; [done|]. intros k0. cbn [snd]. apply Hf. cbn [touched output_tail].
  destruct (assoc_get _ _) eqn:E; [|done].
  by apply (assoc_get_Forall _ _ _ _ Ha) in E.
Qed.

Lemma pops_Forall {V} (P : pystr * V -> Prop) ks l :
  Forall P l -> Forall P (foldl (fun l k => assoc_pop l k) l ks).
Proof. intros Hl. apply Forall_forall. intros kv [Hin _]%pops_elem. rewrite Forall_forall in Hl. auto. Qed.

Lemma change_job_tails e j s : tails_ok s -> tails_ok (change_job upper lease e j s).
Proof.
  intros Hs. unfold change_job. set (s1 := if _ && _ then remove_terminal_subagents s else s).
  assert (H1 : tails_ok s1).
  { unfold s1. case_match; [|done]. destruct Hs as [Ha Hp]. split; [|done].
    unfold remove_terminal_subagents. cbn [set_attention set_agents agents]. by apply pops_Forall. }
  clearbody s1. destruct H1 as [Ha Hp].
  set (a := job_agent _ _ _ _ _ _).
  assert (Hl : len (output_tail a) <= 5).
  { unfold a. cbn [job_agent output_tail].
    destruct (assoc_get (agents s1) (job_id j)) as [b|] eqn:Eb; [by apply (assoc_get_Forall _ _ _ _ Ha) in Eb|].
    destruct (assoc_get (agents s1) (child_of j)) as [b|] eqn:Ec; [|done].
    by apply (assoc_get_Forall _ _ _ _ Ha) in Ec. }
  clearbody a.
  assert (Hset : Forall (fun ka => len (output_tail ka.2) <= 5)
                   (assoc_set (assoc_pop (agents s1) (child_of j)) (job_id j) a)).
  { apply assoc_set_Forall; [|done]. apply (pops_Forall _ [child_of j]). done. }
  by repeat case_match.
Qed.

Lemma clip_line_len l : len (clip_line l) <= 240.
Proof.
  unfold clip_line. rewrite Z.gtb_ltb. destruct (Z.ltb_spec 240 (len l)); [|done].
  rewrite len_app, len_take. change (len $"…") with 1. lia.
Qed.

Lemma change_process_tails p s : tails_ok s -> tails_ok (change_process p s).
Proof.
  intros [Ha Hp]. split; [done|]. unfold change_process. cbn [set_processes processes].
  apply assoc_set_Forall; [done|]. intros k0. split; cbn [snd ep_output_tail]; [apply last5_len|].
  unfold last5, slice_last. change (0 <? 5) with true. cbv iota. apply Forall_drop, Forall_app. split.
  - destruct (assoc_get _ _) eqn:E; [|constructor]. by apply (assoc_get_Forall _ _ _ _ Hp) in E as [_ ?].
  - unfold process_lines. apply Forall_app. split; apply Forall_fmap, Forall_true; intros; apply clip_line_len.
Qed.

Lemma apply_payload_tails e s : tails_ok s -> tails_ok (apply_payload upper lease root e s).2.
Proof.
  intros Hs. unfold apply_payload, generating.
  destruct (payload e);
    repeat lazymatch goal with |- tails_ok (if ?b then _ else _).2 => destruct b end;
    cbn [snd]; try exact Hs; try (apply touch_tails; [intros a Ha; exact Ha|exact Hs]).
  - apply touch_tails; [|done]. intros a Ha. by apply push5_len.
  - by apply change_job_tails.
  - by apply change_process_tails.
Qed.

(** What the panel keeps of outputs is bounded.  After any events every agent
    row holds at most five lines, and every process at most five lines of at most
    240 characters. *)
Theorem panel_tails_bounded es :
  let s := apply_all upper lease root es initial_view in
  Forall (fun ka => len (output_tail ka.2) <= 5) (agents s) /\
  Forall (fun kp => len (ep_output_tail kp.2) <= 5 /\
                    Forall (fun l => len l <= 240) (ep_output_tail kp.2)) (processes s).
Proof.
  intros s. assert (Hs : tails_ok s); [|done]. unfold s, apply_all.
  assert (H0 : tails_ok initial_view) by (by split; constructor). revert H0.
  generalize initial_view. induction es as [|e es IH]; intros s0 H0; [done|]. cbn [foldl]. apply IH.
  destruct (apply_cases e s0) as [(_ & Ha & _ & Hp & _)|(s1 & (Ha & _ & Hp & _) & ->)].
  - unfold tails_ok. by rewrite Ha, Hp.
  - apply apply_payload_tails. unfold tails_ok. by rewrite Ha, Hp.
Qed.

(** ** Attention *)

Definition pending (r : pystr) (s : ExecutionViewState) : Prop := is_Some (assoc_get (attention s) r).

Lemma pending_set (r k : pystr) v (l : list (pystr * AttentionItem)) :
  is_Some (assoc_get l r) -> is_Some (assoc_get (assoc_set l k v) r).
Proof. intros H. rewrite assoc_get_set. by case_decide; [eexists|]. Qed.

Lemma pending_pop_job r k (l : list (pystr * AttentionItem)) :
  startswith r $"job:" = false -> is_Some (assoc_get l r) -> is_Some (assoc_get (assoc_pop l ($"job:" ++ k)) r).
Proof.
  intros Hr H. rewrite assoc_get_pop. case_decide as E; [|done].
  subst r. by rewrite startswith_app in Hr.
Qed.

Lemma pending_pop_jobs r ks : forall l : list (pystr * AttentionItem),
  startswith r $"job:" = false -> is_Some (assoc_get l r) ->
  is_Some (assoc_get (foldl (fun l k => assoc_pop l ($"job:" ++ k)) l ks) r).
Proof.
  induction ks as [|k ks IH]; intros l Hr H; cbn [foldl]; [done|]. apply IH; [done|].
  by apply pending_pop_job.
Qed.

Lemma change_job_pending r e j s :
  startswith r $"job:" = false -> pending r s -> pending r (change_job upper lease e j s).
Proof.
  intros Hr Hp. unfold change_job. set (s1 := if _ && _ then remove_terminal_subagents s else s).
  assert (H1 : pending r s1).
  { unfold s1. case_match; [|done]. unfold pending, remove_terminal_subagents.
    cbn [set_attention set_agents attention]. by apply pending_pop_jobs. }
  clearbody s1. unfold pending in *. cbv zeta.
  destruct (bool_decide (job_status j ∈ attention_statuses));
    [|destruct (bool_decide (job_status j ∈ [$"completed"; $"cancelled"]))];
    cbn [set_attention set_agents attention].
  - by apply pending_set.
  - by apply pending_pop_job.
  - done.
Qed.

Lemma apply_payload_pending r e s :
  startswith r $"job:" = false ->
  (forall a b c d n x, payload e <> ApprovalResolved r a b c d n x) ->
  pending r s -> pending r (apply_payload upper lease root e s).2.
Proof.
  intros Hr Hne Hp. unfold apply_payload, generating.
  destruct (payload e);
    repeat lazymatch goal with |- pending _ (if ?b then _ else _).2 => destruct b end;
    cbn [snd]; try exact Hp.
  - by apply change_job_pending.
  - by apply pending_set.
  - unfold pending, touch. cbn [set_agents set_attention attention]. rewrite assoc_get_pop.
    case_decide as E; [|exact Hp]. subst. by edestruct Hne.
  - by apply pending_set.
Qed.

Lemma same_display_pending r s s' : same_display s s' -> pending r s -> pending r s'.
Proof. unfold pending. by intros (_ & -> & _). Qed.

(** A pending approval stays visible until it is resolved.  Once a request is
    accepted, its attention item remains through any events that do not resolve
    that request, whatever happens to agents, jobs and other requests; and an
    accepted resolution removes it.  (Identifiers that start with "job:" belong
    to job items.) *)
Theorem attention_until_resolved r title preview es e d s a b c g n x :
  startswith r $"job:" = false ->
  payload e = ApprovalRequested r title preview -> (apply upper lease root e s).1 = true ->
  Forall (fun e' => forall a b c d n x, payload e' <> ApprovalResolved r a b c d n x) es ->
  payload d = ApprovalResolved r a b c g n x ->
  let s' := apply_all upper lease root es (apply upper lease root e s).2 in
  pending r s' /\
  ((apply upper lease root d s').1 = true -> ~ pending r (apply upper lease root d s').2).
Proof.
  intros Hr He Hacc Hes Hd s'. split.
  - unfold s'. assert (H1 : pending r (apply upper lease root e s).2).
    { destruct (apply_cases e s) as [[Hno _]|(s1 & _ & Heq)]; [by rewrite Hno in Hacc|].
      rewrite Heq. unfold apply_payload. rewrite He. cbn [snd]. unfold pending, touch.
        cbn [set_agents set_attention attention]. rewrite assoc_get_set, decide_True by done. by eexists. }
    clear Hd. revert H1. generalize (apply upper lease root e s).2. clear s' e He Hacc s.
    induction Hes as [|e es He _ IH]; intros s Hp; [done|]. apply IH.
    destruct (apply_cases e s) as [[_ Hsame]|(s1 & Hsame & ->)].
    + by eapply same_display_pending.
    + apply apply_payload_pending; [done..|]. by eapply same_display_pending.
  - intros Hok. destruct (apply_cases d s') as [[Hno _]|(s1 & _ & Heq)]; [by rewrite Hno in Hok|].
    rewrite Heq. unfold apply_payload. rewrite Hd. cbn [snd]. unfold pending, touch.
    cbn [set_agents set_attention attention]. rewrite assoc_get_pop, decide_True by done.
    by intros [? [=]].
Qed.
End Theorems.

Lemma one_row_per_agent_witness :
  let v a := {| event_id := $"e"; timestamp := 0; agent_id := a; session_generation := None;
                session_id := None; turn_id := None; correlation_id := None |} in
  let child_event := {| payload := AssistantContentDelta $"x"; env := v (Some $"sa_1") |} in
  let job_event := {| payload := SubagentJobChanged
      {| job_id := $"1"; mode := []; task := []; job_status := $"running"; job_result := None;
         job_error := None; activity := None; current_tool := None; tool_calls := 0;
         max_tool_calls := None; tokens := 0; max_tokens := None; blocker := None;
         child_agent_id := None |}; env := v None |} in
  let l := agents (apply_all id 800 None [child_event; job_event; child_event] initial_view) in
  l.*1 = [$"1"] /\ NoDup l.*1.
Proof.
  intros v child_event job_event l. split; [by vm_compute|].
  refine (proj1 (one_row_per_agent id 800 None (fun i => startswith i $"sa_" = true) (drop 3)
                   [child_event; job_event; child_event] _)).
  repeat constructor. cbn. discriminate.
Defined.

Lemma attention_until_resolved_witness :
  let v i := {| event_id := i; timestamp := 0; agent_id := None; session_generation := None;
                session_id := None; turn_id := None; correlation_id := None |} in
  let e := {| payload := ApprovalRequested $"r1" $"Run?" None; env := v $"1" |} in
  let d := {| payload := ApprovalResolved $"r1" true None None None 0 None; env := v $"2" |} in
  (apply id 800 None e initial_view).1 = true /\
  pending $"r1" (apply id 800 None e initial_view).2 /\
  ~ pending $"r1" (apply id 800 None d (apply id 800 None e initial_view).2).2.
Proof.
  intros v e d. assert (Hacc : (apply id 800 None e initial_view).1 = true) by by vm_compute.
  split; [exact Hacc|].
  destruct (attention_until_resolved id 800 None $"r1" $"Run?" None [] e d initial_view
              true None None None 0 None) as [H1 H2]; try reflexivity; [constructor|].
  split; [exact H1|]. apply H2. by vm_compute.
Defined.
