(* ===== verification/OutputJournal.v ===== *)
(** * Unfinished output (domain/output_journal.py)

    [OutputJournal] collects streamed text and checkpoints it in the session's
    event log ([EventLog], implemented by the ledger), without putting it into
    provider messages.  [interrupted_output] reads the streams back that no
    committed message acknowledged.

    The lock makes every operation atomic.  A timer is its identity; starting
    and cancelling it are the state of [timer].  The random stream identifier,
    the identity of a new timer, and the tick of every append are inputs. *)

From S2P Require Import Prelude PyValue ContextMessages Ledger RuntimeEvents.

Record Stream := {
  stream_id : pystr;
  s_kind : pystr;
  s_turn_id : option pystr;
  s_tool_call_id : option pystr;
  s_tool_name : option pystr;
  parts : list pystr;
  s_replace : bool;
}.

(** [(kind, event.correlation_id)]. *)
Abbreviation StreamKey := (pystr * option pystr)%type.

Record Journal (S : Type) := {
  j_ledger : S;
  j_agent_id : pystr;
  streams : list (StreamKey * Stream);
  timer : option Z;
  pending_chars : Z;
}.
Arguments j_ledger {S}.
Arguments j_agent_id {S}.
Arguments streams {S}.
Arguments timer {S}.
Arguments pending_chars {S}.

Definition FLUSH_CHARS : Z := 65536.

Section Journal.
Context {S : Type} `{EventLog S}.

Definition new_journal (l : S) (agent : pystr) : Journal S :=
  {| j_ledger := l; j_agent_id := agent; streams := []; timer := None; pending_chars := 0 |}.

Definition set_streams (l : list (StreamKey * Stream)) (n : Z) (j : Journal S) : Journal S :=
  {| j_ledger := j_ledger j; j_agent_id := j_agent_id j; streams := l; timer := timer j;
     pending_chars := n |}.

Definition set_timer (t : option Z) (j : Journal S) : Journal S :=
  {| j_ledger := j_ledger j; j_agent_id := j_agent_id j; streams := streams j; timer := t;
     pending_chars := pending_chars j |}.

Definition checkpoint_payload (st : Stream) : pydict :=
  [ ($"stream_id", VStr (stream_id st)); ($"kind", VStr (s_kind st));
    ($"text", VStr (concat (parts st)));
    ($"tool_call_id", of_optional_str (s_tool_call_id st));
    ($"tool_name", of_optional_str (s_tool_name st)); ($"replace", VBool (s_replace st)) ].

Definition checkpoint_attribution (agent : pystr) (st : Stream) : Attribution :=
  {| at_agent_id := Some agent; at_parent_agent_id := None; at_job_id := None;
     at_turn_id := s_turn_id st; at_api_round_id := None; at_role := None;
     at_artifact_refs := []; at_supersedes := [] |}.

Definition flushed (st : Stream) : Stream :=
  {| stream_id := stream_id st; s_kind := s_kind st; s_turn_id := s_turn_id st;
     s_tool_call_id := s_tool_call_id st; s_tool_name := s_tool_name st; parts := [];
     s_replace := false |}.

(** The loop of [_flush_locked] over the streams; [ticks n] is met by the [n]th
    append.  An exception leaves the rest unflushed. *)
Fixpoint flush_loop (agent : pystr) (ticks : nat -> Tick) (n : nat)
    (l : list (StreamKey * Stream)) (ledger : S) (pending : Z)
    : result () * (list (StreamKey * Stream) * S * Z) :=
  match l with
  | [] => (Ok (), ([], ledger, pending))
  | (k, st) :: l' =>
    match parts st with
    | [] =>
      let '(r, (l', ledger, pending)) := flush_loop agent ticks n l' ledger pending in
      (r, ((k, st) :: l', ledger, pending))
    | _ =>
      match log_append $"output_checkpoint" (checkpoint_payload st)
              (checkpoint_attribution agent st) (ticks n) ledger with
      | (Ok _, ledger) =>
        let '(r, (l', ledger, pending)) :=
          flush_loop agent ticks (Datatypes.S n) l' ledger (pending - len (concat (parts st))) in
        (r, ((k, flushed st) :: l', ledger, pending))
      | (Raise e, ledger) => (Raise e, ((k, st) :: l', ledger, pending))
      end
    end
  end.

Definition flush (ticks : nat -> Tick) : stm (Journal S) () := fun j =>
  let '(r, (l, ledger, pending)) :=
    flush_loop (j_agent_id j) ticks 0 (streams j) (j_ledger j) (pending_chars j) in
  (r, {| j_ledger := ledger; j_agent_id := j_agent_id j; streams := l; timer := None;
         pending_chars := pending |}).

(** [self._streams.clear()]: characters still pending stay counted. *)
Definition clear_streams : stm (Journal S) () := st_modify (fun j => set_streams [] (pending_chars j) j).

Definition output_kind (t : AgentEventType) : option pystr :=
  match t with
  | STREAM_TOKEN => Some $"response"
  | STREAM_REASONING => Some $"reasoning"
  | TOOL_OUTPUT_DELTA | TOOL_CALL_END => Some $"tool"
  | _ => None
  end.

(** The flush that a turn boundary or an interruption forces. *)
Definition boundary (t : AgentEventType) (ticks : nat -> Tick) : stm (Journal S) () :=
  match t with
  | CHAT_START | CHAT_END => _ ← flush ticks; clear_streams
  | ASSISTANT_STREAM_INTERRUPTED =>
    _ ← flush ticks;
    st_modify (fun j => set_streams (filter (fun ks => s_kind ks.2 = $"tool") (streams j))
                          (pending_chars j) j)
  | _ => mret ()
  end.

(** The text of an event, and whether it is the whole output. *)
Definition event_text (a : AgentEvent) (kind : pystr) : result (bool * pystr) :=
  match event_type a with
  | TOOL_CALL_END => Ok (true, or_empty (tool_result a))
  | _ =>
    text ← typed_str (dget_or (data a) (if bool_decide (kind = $"tool") then $"text" else $"token")
                        (VStr []));
    Ok (false, text)
  end.

Definition new_stream (fresh kind : pystr) (a : AgentEvent) : Stream :=
  {| stream_id := fresh; s_kind := kind; s_turn_id := turn_id (ae_env a);
     s_tool_call_id := correlation_id (ae_env a); s_tool_name := tool_name a; parts := [];
     s_replace := false |}.

Definition add_part (final : bool) (text : pystr) (st : Stream) : Stream :=
  {| stream_id := stream_id st; s_kind := s_kind st; s_turn_id := s_turn_id st;
     s_tool_call_id := s_tool_call_id st; s_tool_name := s_tool_name st;
     parts := (if final then [] else parts st) ++ [text];
     s_replace := final || s_replace st |}.

(** The text joins its stream. *)
Definition collect (fresh kind : pystr) (a : AgentEvent) (final : bool) (text : pystr)
    (j : Journal S) : Journal S :=
  let key := (kind, correlation_id (ae_env a)) in
  let st := default (new_stream fresh kind a) (assoc_get (streams j) key) in
  let dropped := if final then len (concat (parts st)) else 0 in
  set_streams (assoc_set (streams j) key (add_part final text st))
    (pending_chars j - dropped + len text) j.

(** [record]; [ticks] serves the boundary flush, [ticks'] the size flush. *)
Definition record (a : AgentEvent) (fresh : pystr) (new_timer : Z) (ticks ticks' : nat -> Tick)
    : stm (Journal S) () :=
  j ← st_get;
  if negb (bool_decide (agent_id (ae_env a) = Some (j_agent_id j))) then mret ()
  else
    _ ← boundary (event_type a) ticks;
    match output_kind (event_type a) with
    | None => mret ()
    | Some kind =>
      text ← st_lift (event_text a kind);
      let '(final, text) := text in
      if bool_decide (text = []) && negb final then mret ()
      else
        _ ← st_modify (collect fresh kind a final text);
        j ← st_get;
        if final || (pending_chars j >=? FLUSH_CHARS) then flush ticks'
        else match timer j with
             | None => st_modify (set_timer (Some new_timer))
             | Some _ => mret ()
             end
    end.

(** [_flush_scheduled]: a timer that was replaced or cancelled does nothing; an
    exception goes to [on_error]. *)
Definition flush_scheduled (t : Z) (ticks : nat -> Tick) (j : Journal S) : option exn * Journal S :=
  if bool_decide (timer j = Some t) then
    match flush ticks j with
    | (Ok _, j) => (None, j)
    | (Raise e, j) => (Some e, j)
    end
  else (None, j).

(** The streams a message acknowledges. *)
Definition acknowledged (m : pydict) (st : Stream) : bool :=
  (is_str (dget_none m $"role") $"assistant" && negb (bool_decide (s_kind st = $"tool")))
  || (is_str (dget_none m $"role") $"tool" && bool_decide (s_kind st = $"tool")
      && bool_decide (of_optional_str (s_tool_call_id st) = dget_none m $"tool_call_id")).

(** A call on the ledger alone. *)
Definition on_ledger {A} (m : stm S A) : stm (Journal S) A := fun j =>
  let '(r, l) := m (j_ledger j) in
  (r, {| j_ledger := l; j_agent_id := j_agent_id j; streams := streams j; timer := timer j;
         pending_chars := pending_chars j |}).

(** [commit] around [body], which appends the message with the metadata it
    receives. *)
Definition commit {A} (m : pydict) (ticks : nat -> Tick) (body : pydict -> stm S A)
    : stm (Journal S) A :=
  j ← st_get;
  let keys := map fst (filter (fun ks => acknowledged m ks.2 = true) (streams j)) in
  _ ← flush ticks;
  j ← st_get;
  r ← on_ledger (body (match keys with
            | [] => []
            | _ => [($"output_stream_ids",
                     VList (omap (fun k => VStr ∘ stream_id <$> assoc_get (streams j) k) keys))]
            end));
  _ ← st_modify (fun j => set_streams (filter (fun ks => ks.1 ∉ keys) (streams j)) (pending_chars j) j);
  mret r.

Definition close (ticks : nat -> Tick) : stm (Journal S) () := _ ← flush ticks; clear_streams.
End Journal.

(** ** Recovery *)

(** [data[key]] for a text. *)
Definition dget_text (d : pydict) (k : pystr) : result pystr :=
  match dget d k with
  | Some v => typed_str v
  | None => Raise (KeyError k)
  end.

(** The identifiers some committed message acknowledges. *)
Fixpoint completed_ids (l : list HistoryEvent) : result (list pyval) :=
  match l with
  | [] => Ok []
  | e :: l' =>
    ids ← (if bool_decide (Ledger.kind e = $"message_committed")
           then py_iter (dget_or (Ledger.payload e) $"output_stream_ids" (VList [])) else Ok []);
    rest ← completed_ids l';
    Ok (ids ++ rest)
  end.

Record Recovered := { r_seq : Z; r_label : pystr; r_parts : list pystr }.

Definition recover_event (completed : list pyval) (acc : list (pystr * Recovered)) (e : HistoryEvent)
    : result (list (pystr * Recovered)) :=
  if negb (bool_decide (Ledger.kind e = $"output_checkpoint")) then Ok acc
  else
    let d := Ledger.payload e in
    i ← dget_text d $"stream_id";
    if bool_decide (VStr i ∈ completed) then Ok acc
    else
      kind ← dget_text d $"kind";
      let name := dget_none d $"tool_name" in
      let label := kind ++ (if truthy name then $" / " ++ py_str name else []) in
      let entry := default {| r_seq := Ledger.seq e; r_label := label; r_parts := [] |} (assoc_get acc i) in
      text ← dget_text d $"text";
      let old := if truthy (dget_none d $"replace") then [] else r_parts entry in
      Ok (assoc_set acc i {| r_seq := r_seq entry; r_label := r_label entry;
                             r_parts := old ++ [text] |}).

Fixpoint recover_events (completed : list pyval) (acc : list (pystr * Recovered))
    (l : list HistoryEvent) : result (list (pystr * Recovered)) :=
  match l with
  | [] => Ok acc
  | e :: l' => acc ← recover_event completed acc e; recover_events completed acc l'
  end.

Definition interrupted_output (l : list HistoryEvent) : result (list (Z * pystr)) :=
  completed ← completed_ids l;
  entries ← recover_events completed [] l;
  Ok (map (fun ir : pystr * Recovered =>
             (r_seq ir.2, $"[Recovered " ++ r_label ir.2 ++ $" — session interrupted]"
                          ++ 10 :: concat (r_parts ir.2))) entries).

(** ** What a stream's text is

    [text_of l i] is the text the checkpoints of stream [i] in [l] amount to. *)

Definition checkpoint_of (e : HistoryEvent) : option (pystr * bool * pystr) :=
  if bool_decide (Ledger.kind e = $"output_checkpoint") then
    match dget (Ledger.payload e) $"stream_id", dget (Ledger.payload e) $"text" with
    | Some (VStr i), Some (VStr t) => Some (i, truthy (dget_none (Ledger.payload e) $"replace"), t)
    | _, _ => None
    end
  else None.

Definition add_checkpoint (i : pystr) (acc : option pystr) (e : HistoryEvent) : option pystr :=
  match checkpoint_of e with
  | Some (i', replace, t) =>
    if decide (i' = i) then Some ((if replace then [] else default [] acc) ++ t) else acc
  | None => acc
  end.

Definition text_of (l : list HistoryEvent) (i : pystr) : option pystr := foldl (add_checkpoint i) None l.

Lemma text_of_snoc l e i : text_of (l ++ [e]) i = add_checkpoint i (text_of l i) e.
Proof. unfold text_of. by rewrite foldl_app. Qed.

Section Lemmas.
Context {S : Type} `{EventLogLaws S}.

(** The complete text of a stream: what is in the log, then what is pending. *)
Definition live (l : list HistoryEvent) (st : Stream) : pystr :=
  (if s_replace st then [] else default [] (text_of l (stream_id st))) ++ concat (parts st).

Definition stream_ids (l : list (StreamKey * Stream)) : list pystr := map (fun ks => stream_id ks.2) l.

Definition pending_sum (l : list (StreamKey * Stream)) : Z :=
  foldr (fun ks n => len (concat (parts ks.2)) + n) 0 l.

Definition written (ticks : nat -> Tick) : Prop := forall n, io (ticks n) = Written.

Lemma checkpoint_event st e :
  Ledger.kind e = $"output_checkpoint" -> Ledger.payload e = checkpoint_payload st ->
  checkpoint_of e = Some (stream_id st, s_replace st, concat (parts st)).
Proof.
  intros Hk Hp. unfold checkpoint_of. rewrite Hk, Hp, bool_decide_eq_true_2 by done.
  unfold checkpoint_payload, dget_none. autorewrite with pydict. cbn [default truthy]. done.
Qed.

Lemma append_checkpoint agent st t (ledger : S) :
  io t = Written ->
  exists e ledger', log_append $"output_checkpoint" (checkpoint_payload st)
      (checkpoint_attribution agent st) t ledger = (Ok e, ledger') /\
    (forall i, text_of (log_events ledger') i =
       if decide (i = stream_id st) then Some (live (log_events ledger) st)
       else text_of (log_events ledger) i).
Proof.
  intros Ht.
  destruct (log_append_spec $"output_checkpoint" (checkpoint_payload st)
              (checkpoint_attribution agent st) t ledger) as (e & Hk & Hp & Hl & Hok & _).
  specialize (Hok Ht). destruct (log_append _ _ _ _ _) as [r ledger']. cbn [fst snd] in *. subst r.
  exists e, ledger'. split; [done|]. intros i. rewrite Hl, text_of_snoc. unfold add_checkpoint.
  rewrite (checkpoint_event st e Hk Hp). unfold live. repeat case_decide; subst; try done.
Qed.

(** Flushing with writes that succeed: every stream's pending text is in the log. *)
Lemma flush_loop_spec agent ticks :
  written ticks -> forall l n (ledger : S) pending,
  NoDup (stream_ids l) ->
  exists l' ledger', flush_loop agent ticks n l ledger pending
      = (Ok (), (l', ledger', pending - pending_sum l)) /\
    l' = map (fun ks => (ks.1, match parts ks.2 with [] => ks.2 | _ => flushed ks.2 end)) l /\
    (forall i, i ∉ stream_ids l -> text_of (log_events ledger') i = text_of (log_events ledger) i) /\
    (forall k st, (k, st) ∈ l -> text_of (log_events ledger') (stream_id st) =
       match parts st with
       | [] => text_of (log_events ledger) (stream_id st)
       | _ => Some (live (log_events ledger) st)
       end).
Proof.
  intros Hw. induction l as [|[k st] l IH]; intros n ledger pending Hnd.
  - exists [], ledger. cbn. rewrite Z.sub_0_r. split_and!; try done. intros k st Hin. by apply elem_of_nil in Hin.
  - cbn in Hnd. apply NoDup_cons in Hnd as [Hni Hnd].
    assert (Hne : forall k' st', (k', st') ∈ l -> stream_id st' <> stream_id st).
    { intros k' st' Hin Heq. apply Hni. rewrite <- Heq. apply list_elem_of_In, in_map_iff.
      exists (k', st'). split; [done|]. by apply list_elem_of_In. }
    cbn [flush_loop pending_sum foldr snd]. destruct (parts st) as [|p ps] eqn:Ep.
    + destruct (IH n ledger pending Hnd) as (l' & ledger' & -> & -> & Hout & Hin).
      eexists _, ledger'. split_and!.
      * by rewrite Z.add_0_l.
      * cbn. by rewrite Ep.
      * intros i Hi. apply Hout. intros ?. apply Hi. by right.
      * intros k' st' [[= -> ->]|Hin']%elem_of_cons; [rewrite Ep; by apply Hout|by eapply Hin].
    + destruct (append_checkpoint agent st (ticks n) ledger (Hw n)) as (e & ledger1 & -> & H1).
      destruct (IH (Datatypes.S n) ledger1 (pending - len (concat (p :: ps))) Hnd)
        as (l' & ledger' & -> & -> & Hout & Hin).
      eexists _, ledger'. split_and!.
      * f_equal. f_equal. fold (pending_sum l). lia.
      * cbn. by rewrite Ep.
      * intros i Hi. cbn in Hi. apply not_elem_of_cons in Hi as [Hi1 Hi2]. rewrite Hout, H1 by done.
        by rewrite decide_False.
      * intros k' st' [[= -> ->]|Hin']%elem_of_cons.
        -- rewrite Ep, Hout, H1 by done. by rewrite decide_True.
        -- rewrite (Hin _ _ Hin'), H1, decide_False by (by eapply Hne).
           destruct (parts st'); [done|]. unfold live. rewrite H1, decide_False by (by eapply Hne). done.
Qed.

(** ** The texts told to the journal

    [told] maps a stream to everything recorded on it so far: pieces are
    appended, a complete output replaces them. *)

Abbreviation Told := (pystr -> option pystr).

Definition tell (i : pystr) (final : bool) (text : pystr) (told : Told) : Told := fun i' =>
  if decide (i' = i) then Some ((if final then [] else default [] (told i')) ++ text) else told i'.

Record tracked (j : Journal S) (told : Told) : Prop := {
  t_ids : NoDup (stream_ids (streams j));
  t_open : forall k st, (k, st) ∈ streams j ->
    told (stream_id st) = Some (live (log_events (j_ledger j)) st);
  t_closed : forall i, i ∉ stream_ids (streams j) -> text_of (log_events (j_ledger j)) i = told i;
  t_empty : forall k st, (k, st) ∈ streams j -> parts st = [] ->
    s_replace st = false /\ is_Some (text_of (log_events (j_ledger j)) (stream_id st));
  t_pending : pending_chars j = pending_sum (streams j);
}.

(** Everything told is in the log, and nothing is pending. *)
Definition settled (j : Journal S) (told : Told) : Prop :=
  (forall i, text_of (log_events (j_ledger j)) i = told i) /\
  Forall (fun ks => parts ks.2 = []) (streams j) /\ pending_chars j = 0.

Lemma stream_ids_elem l k st : (k, st) ∈ l -> stream_id st ∈ stream_ids l.
Proof.
  intros Hin. apply list_elem_of_In, in_map_iff. exists (k, st). split; [done|]. by apply list_elem_of_In.
Qed.

Lemma stream_ids_inv l i : i ∈ stream_ids l -> exists k st, (k, st) ∈ l /\ stream_id st = i.
Proof.
  intros Hin. apply list_elem_of_In, in_map_iff in Hin as ([k st] & <- & Hin).
  exists k, st. split; [by apply list_elem_of_In|done].
Qed.

Lemma pending_sum_empty l : Forall (fun ks => parts ks.2 = []) l -> pending_sum l = 0.
Proof. induction 1 as [|[k st] l Hst _ IH]; [done|]. cbn [pending_sum foldr snd] in *. by rewrite Hst. Qed.

Lemma flush_tracked ticks j told :
  written ticks -> tracked j told ->
  exists j', flush ticks j = (Ok (), j') /\ tracked j' told /\ settled j' told /\
    timer j' = None /\ j_agent_id j' = j_agent_id j.
Proof.
  intros Hw [Hnd Hopen Hclosed Hempty Hpend]. unfold flush.
  destruct (flush_loop_spec (j_agent_id j) ticks Hw (streams j) 0 (j_ledger j) (pending_chars j) Hnd)
    as (l' & ledger' & -> & Hl' & Hout & Hin).
  eexists. split; [reflexivity|].
  assert (Hids : stream_ids l' = stream_ids (streams j)).
  { rewrite Hl'. unfold stream_ids. rewrite map_map. apply map_ext. intros [k st]. cbn. by case_match. }
  assert (Hall : Forall (fun ks => parts ks.2 = []) l').
  { rewrite Hl'. apply Forall_fmap, Forall_true. intros [k st]. cbn. by destruct (parts st) eqn:E; cbn. }
  assert (Htext : forall i, text_of (log_events ledger') i = told i).
  { intros i. destruct (decide (i ∈ stream_ids (streams j))) as [Hi|Hi]; [|by rewrite Hout; auto].
    apply stream_ids_inv in Hi as (k & st & Hst & <-). rewrite (Hin _ _ Hst), (Hopen _ _ Hst).
    destruct (parts st) eqn:Ep; [|done]. destruct (Hempty _ _ Hst Ep) as [Hr [x Hx]].
    unfold live. by rewrite Hr, Ep, Hx, app_nil_r. }
  split_and!; try done; [|split_and!; try done; cbn; lia].
  constructor; cbn [streams j_ledger pending_chars].
  - by rewrite Hids.
  - intros k st Hst. rewrite <- Htext. assert (Hst' := Hst). rewrite Hl' in Hst.
    apply list_elem_of_fmap in Hst as ([k0 st0] & [= -> ->] & Hst0). cbn [snd] in *.
    pose proof (Hopen _ _ Hst0) as Ho. unfold live.
    destruct (parts st0) eqn:Ep.
    + destruct (Hempty _ _ Hst0 Ep) as [-> _]. rewrite Htext, Ho, Ep, app_nil_r. done.
    + cbn. rewrite Htext, Ho. by rewrite app_nil_r.
  - intros i _. apply Htext.
  - intros k st Hst _. rewrite Htext. rewrite Hl' in Hst.
    apply list_elem_of_fmap in Hst as ([k0 st0] & [= -> ->] & Hst0). cbn [snd].
    pose proof (Hopen _ _ Hst0) as Ho.
    destruct (parts st0) eqn:Ep; cbn; rewrite ?Ho; split; try done; try (by eexists).
    by destruct (Hempty _ _ Hst0 Ep).
  - rewrite (pending_sum_empty l') by done. lia.
Qed.

(** Streams can be dropped once everything is in the log. *)
Lemma settled_drop j told (P : StreamKey * Stream -> Prop) `{forall x, Decision (P x)} :
  tracked j told -> settled j told ->
  tracked (set_streams (filter P (streams j)) (pending_chars j) j) told /\
  settled (set_streams (filter P (streams j)) (pending_chars j) j) told.
Proof.
  intros [Hnd Hopen Hclosed Hempty Hpend] (Htext & Hall & Hzero).
  assert (Hall' : Forall (fun ks => parts ks.2 = []) (filter P (streams j))).
  { apply Forall_forall. intros x [_ Hx]%list_elem_of_filter. rewrite Forall_forall in Hall. auto. }
  split; [|by split_and!]. constructor; cbn [set_streams streams j_ledger pending_chars].
  - eapply sublist_NoDup; [exact Hnd|]. apply fmap_sublist, sublist_filter.
  - intros k st [_ Hst]%list_elem_of_filter. by eapply Hopen.
  - intros i _. apply Htext.
  - intros k st [_ Hst]%list_elem_of_filter. by eapply Hempty.
  - by rewrite pending_sum_empty.
Qed.

Lemma stream_split (l : list (StreamKey * Stream)) k st' :
  match assoc_get l k with
  | Some st => exists l1 l2, l = l1 ++ (k, st) :: l2 /\ assoc_set l k st' = l1 ++ (k, st') :: l2
  | None => assoc_set l k st' = l ++ [(k, st')]
  end.
Proof.
  induction l as [|[k0 s0] l IH]; cbn; [done|]. case_decide as E.
  - subst. by exists [], l.
  - destruct (assoc_get l k) as [st|].
    + destruct IH as (l1 & l2 & -> & ->). by exists ((k0, s0) :: l1), l2.
    + by rewrite IH.
Qed.

Lemma pending_sum_cons ks l : pending_sum (ks :: l) = len (concat (parts ks.2)) + pending_sum l.
Proof. done. Qed.

Lemma pending_sum_app l l' : pending_sum (l ++ l') = pending_sum l + pending_sum l'.
Proof. induction l as [|ks l IH]; [done|]. cbn [app]. rewrite !pending_sum_cons, IH. lia. Qed.

Lemma stream_ids_app l l' : stream_ids (l ++ l') = stream_ids l ++ stream_ids l'.
Proof. apply map_app. Qed.

(** The stream an event belongs to, existing or new. *)
Definition stream_for (fresh kind : pystr) (a : AgentEvent) (j : Journal S) : Stream :=
  default (new_stream fresh kind a) (assoc_get (streams j) (kind, correlation_id (ae_env a))).

Lemma live_add_part l st final text :
  live l (add_part final text st) = (if final then [] else live l st) ++ text.
Proof.
  unfold live. destruct final; cbn [add_part s_replace stream_id parts orb app].
  - cbn. by rewrite app_nil_r.
  - rewrite concat_app. cbn. by rewrite app_nil_r, app_assoc.
Qed.

Lemma collect_tracked fresh kind a final text j told :
  tracked j told -> told fresh = None ->
  tracked (collect fresh kind a final text j)
    (tell (stream_id (stream_for fresh kind a j)) final text told).
Proof.
  intros [Hnd Hopen Hclosed Hempty Hpend] Hfresh. unfold collect, stream_for.
  set (key := (kind, correlation_id (ae_env a))). cbv zeta.
  pose proof (stream_split (streams j) key
    (add_part final text (default (new_stream fresh kind a) (assoc_get (streams j) key)))) as Hsplit.
  destruct (assoc_get (streams j) key) as [st|] eqn:Eget; cbn [default from_option id] in *.
  - destruct Hsplit as (l1 & l2 & Hl & Hset). unfold id in *.
    assert (Hst : (key, st) ∈ streams j) by (rewrite Hl; apply elem_of_app; right; left).
    assert (Hother : forall k0 st0, (k0, st0) ∈ l1 ++ l2 -> stream_id st0 <> stream_id st).
    { intros k0 st0 Hin Heq. rewrite Hl, stream_ids_app in Hnd. cbn in Hnd.
      apply NoDup_app in Hnd as (_ & Hdis & Hnd2). apply NoDup_cons in Hnd2 as [Hni _].
      apply elem_of_app in Hin as [Hin|Hin]; apply stream_ids_elem in Hin; rewrite Heq in Hin.
      - apply (Hdis _ Hin). left.
      - done. }
    constructor; cbn [set_streams streams j_ledger pending_chars]; rewrite Hset.
    + rewrite Hl, stream_ids_app in Hnd. by rewrite stream_ids_app.
    + intros k0 st0 Hin. unfold tell. apply elem_of_app in Hin as [Hin|[[= -> ->]|Hin]%elem_of_cons].
      * rewrite decide_False by (eapply Hother; apply elem_of_app; by left).
        eapply (Hopen k0). rewrite Hl. apply elem_of_app. by left.
      * cbn [add_part stream_id]. rewrite decide_True by done.
        rewrite (Hopen _ _ Hst). cbn [default from_option]. unfold id. by rewrite live_add_part.
      * rewrite decide_False by (eapply Hother; apply elem_of_app; by right).
        eapply (Hopen k0). rewrite Hl. apply elem_of_app. right. by right.
    + intros i Hi. unfold tell. rewrite stream_ids_app in Hi. cbn in Hi.
      rewrite decide_False by (intros ->; apply Hi, elem_of_app; right; left).
      apply Hclosed. by rewrite Hl, stream_ids_app.
    + intros k0 st0 Hin Hp. apply elem_of_app in Hin as [Hin|[[= -> ->]|Hin]%elem_of_cons].
      * apply (Hempty k0); [|done]. rewrite Hl. apply elem_of_app. by left.
      * cbn in Hp. by destruct final, (parts st).
      * apply (Hempty k0); [|done]. rewrite Hl. apply elem_of_app. right. by right.
    + rewrite Hpend, Hl, !pending_sum_app, !pending_sum_cons. cbn [snd add_part parts].
      destruct final; cbn [app concat]; rewrite ?concat_app, ?len_app; cbn [concat];
        rewrite ?app_nil_r; change (len (@nil Z)) with 0; lia.
  - assert (Hfi : fresh ∉ stream_ids (streams j)).
    { intros (k0 & st0 & Hin & Heq)%stream_ids_inv. pose proof (Hopen _ _ Hin) as Ho. by rewrite Heq, Hfresh in Ho. }
    constructor; cbn [set_streams streams j_ledger pending_chars]; rewrite Hsplit.
    + rewrite stream_ids_app. apply NoDup_app. split_and!; [done| |apply NoDup_singleton].
      intros x Hx Hx'%list_elem_of_singleton. cbn in Hx'. by subst.
    + intros k0 st0 [Hin|[= -> ->]%list_elem_of_singleton]%elem_of_app; unfold tell.
      * rewrite decide_False; [by eapply Hopen|]. intros Heq. apply Hfi. cbn in Heq. rewrite <- Heq.
        by eapply stream_ids_elem.
      * rewrite decide_True by done. cbn [add_part new_stream stream_id]. rewrite Hfresh, live_add_part.
        unfold live. cbn [new_stream s_replace stream_id parts concat].
        rewrite Hclosed, Hfresh by done. by destruct final.
    + intros i Hi. unfold tell. rewrite stream_ids_app in Hi. apply not_elem_of_app in Hi as [Hi1 Hi2].
      rewrite decide_False by (intros ->; apply Hi2; left). by apply Hclosed.
    + intros k0 st0 [Hin|[= -> ->]%list_elem_of_singleton]%elem_of_app; [by apply (Hempty k0)|].
      intros Hp. cbn in Hp. by destruct final.
    + rewrite Hpend, pending_sum_app, pending_sum_cons. cbn [snd add_part new_stream parts].
      change (pending_sum []) with 0.
      destruct final; cbn [app concat]; rewrite app_nil_r; change (len (@nil Z)) with 0; lia.
Qed.

(** ** Whole runs *)

(** A commit whose body appends the message, as [append_message] of the ledger
    does; [base] is the payload without the metadata. *)
Inductive JOp :=
| JRecord (a : AgentEvent) (fresh : pystr) (new_timer : Z) (ticks ticks' : nat -> Tick)
| JTimer (t : Z) (ticks : nat -> Tick)
| JCommit (m base : pydict) (attribution : Attribution) (t : Tick) (ticks : nat -> Tick)
| JClose (ticks : nat -> Tick).

Definition run_jop (op : JOp) (j : Journal S) : Journal S :=
  match op with
  | JRecord a fresh tm ticks ticks' => (record a fresh tm ticks ticks' j).2
  | JTimer t ticks => (flush_scheduled t ticks j).2
  | JCommit m base att t ticks =>
    (commit m ticks (fun md => log_append $"message_committed" (dict_update base md) att t) j).2
  | JClose ticks => (close ticks j).2
  end.

Definition writes_succeed (op : JOp) : Prop :=
  match op with
  | JRecord _ _ _ ticks ticks' => written ticks /\ written ticks'
  | JTimer _ ticks | JCommit _ _ _ _ ticks | JClose ticks => written ticks
  end.

Definition fresh_id_of (op : JOp) : option pystr :=
  match op with JRecord _ fresh _ _ _ => Some fresh | _ => None end.

(** What one operation adds to the texts told. *)
Definition tell_op (op : JOp) (j : Journal S) (told : Told) : Told :=
  match op with
  | JRecord a fresh _ _ _ =>
    if bool_decide (agent_id (ae_env a) = Some (j_agent_id j)) then
      match output_kind (event_type a) with
      | Some kind =>
        match event_text a kind with
        | Ok (final, text) =>
          if bool_decide (text = []) && negb final then told
          else tell (stream_id (stream_for fresh kind a j)) final text told
        | Raise _ => told
        end
      | None => told
      end
    else told
  | _ => told
  end.

Definition run_told (op : JOp) (jt : Journal S * Told) : Journal S * Told :=
  (run_jop op jt.1, tell_op op jt.1 jt.2).

Definition bounded (j : Journal S) : Prop :=
  pending_chars j < FLUSH_CHARS /\ (0 < pending_chars j -> is_Some (timer j)).

Lemma settled_bounded j told : settled j told -> bounded j.
Proof. intros (_ & _ & Hz). unfold bounded, FLUSH_CHARS. rewrite Hz. lia. Qed.

Lemma clear_streams_spec j told :
  tracked j told -> settled j told ->
  tracked (set_streams [] (pending_chars j) j) told /\ settled (set_streams [] (pending_chars j) j) told.
Proof.
  intros Ht Hs. destruct (settled_drop j told (fun _ => False) Ht Hs) as [H1 H2].
  replace (filter (fun _ => False) (streams j)) with (@nil (StreamKey * Stream)) in H1, H2; [done|].
  symmetry. induction (streams j) as [|x l IH]; [done|]. rewrite filter_cons_False; auto.
Qed.

Lemma boundary_spec ty ticks j told :
  written ticks -> tracked j told -> bounded j ->
  exists j', boundary ty ticks j = (Ok (), j') /\ tracked j' told /\ bounded j' /\
    j_agent_id j' = j_agent_id j /\ (is_Some (output_kind ty) -> j' = j).
Proof.
  intros Hw Ht Hb. destruct (flush_tracked ticks j told Hw Ht) as (j1 & Hf & Ht1 & Hs1 & _ & Ha1).
  destruct (clear_streams_spec j1 told Ht1 Hs1) as [Htc Hsc].
  destruct (settled_drop j1 told (fun ks => s_kind ks.2 = $"tool") Ht1 Hs1) as [Htd Hsd].
  destruct ty; cbn [boundary output_kind]; unfold mbind, stm_bind, clear_streams, st_modify; rewrite ?Hf;
    eexists; (split; [reflexivity|]); split_and!; try done; try (by eapply settled_bounded);
    by intros [? [=]].
Qed.

Lemma record_step a fresh tm ticks ticks' j told :
  written ticks -> written ticks' -> tracked j told -> bounded j -> told fresh = None ->
  tracked (record a fresh tm ticks ticks' j).2 (tell_op (JRecord a fresh tm ticks ticks') j told) /\
  bounded (record a fresh tm ticks ticks' j).2.
Proof.
  intros Hw Hw' Ht Hb Hf. unfold record, tell_op, mbind, stm_bind, st_get. cbv beta iota.
  case_bool_decide as Ha; cbn [negb]; [|done].
  destruct (boundary_spec (event_type a) ticks j told Hw Ht Hb) as (j1 & -> & Ht1 & Hb1 & Ha1 & Hsame).
  destruct (output_kind (event_type a)) as [kind|]; [|done].
  specialize (Hsame ltac:(by eexists)). subst j1. clear Ht1 Hb1 Ha1.
  unfold st_lift. destruct (event_text a kind) as [[final text]|e]; [|done].
  destruct (bool_decide (text = []) && negb final); [done|].
  unfold st_modify. pose proof (collect_tracked fresh kind a final text j told Ht Hf) as Hc.
  set (j2 := collect fresh kind a final text j) in *.
  destruct (flush_tracked ticks' j2 _ Hw' Hc) as (j3 & Hfl & Ht3 & Hs3 & _).
  destruct (final || (pending_chars j2 >=? FLUSH_CHARS)) eqn:E.
  - rewrite Hfl. split; [done|]. by eapply settled_bounded.
  - apply orb_false_iff in E as [_ E]. rewrite Z.geb_leb in E. zbool.
    destruct (timer j2) eqn:Et; cbn [snd].
    + split; [done|]. split; [done|]. intros _. cbn [snd]. exists z. exact Et.
    + split; [by destruct Hc|]. split; [done|]. intros _. by eexists.
Qed.

(** Other events leave the texts alone. *)
Lemma append_message_text md att t (ledger : S) i :
  text_of (log_events (log_append $"message_committed" md att t ledger).2) i
  = text_of (log_events ledger) i.
Proof.
  destruct (log_append_spec $"message_committed" md att t ledger) as (e & Hk & _ & -> & _).
  rewrite text_of_snoc. unfold add_checkpoint, checkpoint_of. by rewrite Hk.
Qed.

Definition with_ledger (l : S) (j : Journal S) : Journal S :=
  {| j_ledger := l; j_agent_id := j_agent_id j; streams := streams j; timer := timer j;
     pending_chars := pending_chars j |}.

Lemma with_ledger_spec l j told :
  (forall i, text_of (log_events l) i = text_of (log_events (j_ledger j)) i) ->
  tracked j told -> settled j told ->
  tracked (with_ledger l j) told /\ settled (with_ledger l j) told.
Proof.
  intros Hl [Hnd Hopen Hclosed Hempty Hpend] (Htext & Hall & Hz).
  split; [|split_and!; [|done|done]; intros i; cbn; by rewrite Hl].
  constructor; cbn [with_ledger streams j_ledger pending_chars]; try done.
  - intros k st Hst. rewrite (Hopen _ _ Hst). unfold live. by rewrite Hl.
  - intros i Hi. rewrite Hl. by apply Hclosed.
  - intros k st Hst Hp. rewrite Hl. by eapply Hempty.
Qed.

Lemma run_jop_step op j told :
  writes_succeed op -> tracked j told -> bounded j ->
  (forall f, fresh_id_of op = Some f -> told f = None) ->
  tracked (run_jop op j) (tell_op op j told) /\ bounded (run_jop op j).
Proof.
  intros Hw Ht Hb Hf. destruct op as [a fresh tm ticks ticks'|t ticks|m base att t ticks|ticks];
    cbn [run_jop tell_op writes_succeed] in *.
  - destruct Hw as [Hw Hw']. apply record_step; auto.
  - unfold flush_scheduled. case_bool_decide; [|done].
    destruct (flush_tracked ticks j told Hw Ht) as (j1 & -> & Ht1 & Hs1 & _).
    split; [done|]. by eapply settled_bounded.
  - destruct (flush_tracked ticks j told Hw Ht) as (j1 & Hfl & Ht1 & Hs1 & _).
    unfold commit, mbind, stm_bind, st_get. cbv beta iota. rewrite Hfl. unfold on_ledger.
    set (keys := map fst _). set (md := dict_update base _).
    pose proof (fun i => append_message_text md att t (j_ledger j1) i) as Htext.
    destruct (log_append $"message_committed" md att t (j_ledger j1)) as [[e|x] l]; cbn [snd] in *;
      destruct (with_ledger_spec l j1 told Htext Ht1 Hs1) as [Ht2 Hs2].
    + destruct (settled_drop _ told (fun ks => ks.1 ∉ keys) Ht2 Hs2) as [H1 H2].
      split; [exact H1|]. eapply settled_bounded, H2.
    + split; [exact Ht2|]. eapply settled_bounded, Hs2.
  - destruct (flush_tracked ticks j told Hw Ht) as (j1 & Hfl & Ht1 & Hs1 & _).
    destruct (clear_streams_spec j1 told Ht1 Hs1) as [H1 H2].
    unfold close, mbind, stm_bind. rewrite Hfl. split; [exact H1|]. eapply settled_bounded, H2.
Qed.

Lemma tell_op_domain op j told i :
  tracked j told -> tell_op op j told i <> None -> told i <> None \/ fresh_id_of op = Some i.
Proof.
  intros Ht. destruct op as [a fresh tm ticks ticks'|t ticks|m base att t ticks|ticks]; cbn; auto.
  case_bool_decide; [|auto]. destruct (output_kind _) as [kind|]; [|auto].
  destruct (event_text a kind) as [[final text]|]; [|auto]. destruct (_ && _); [auto|].
  unfold tell. case_decide as E; [|by left]. intros _. rewrite E.
  unfold stream_for. destruct (assoc_get (streams j) _) as [st|] eqn:Eg; cbn; auto.
  left. pose proof (stream_split (streams j) (kind, correlation_id (ae_env a)) st) as Hs.
  rewrite Eg in Hs. destruct Hs as (l1 & l2 & Hl & _).
  unfold id. rewrite (t_open j told Ht (kind, correlation_id (ae_env a)) st); [done|].
  rewrite Hl. apply elem_of_app. right. left.
Qed.

(** C22: Streamed output survives an interruption.  Through any events, timer
    expiries, commits and closings whose writes succeed, the journal holds fewer
    than 65536 characters that are not in the log, and a timer is armed whenever
    it holds any; the text told on each stream is what the log amounts to, for
    streams no longer open, and what the log amounts to followed by the pending
    pieces for an open one; so a flush at any moment puts the complete text of
    every stream in the log. *)
Theorem journal_loses_nothing ops (ledger : S) agent :
  Forall writes_succeed ops -> NoDup (omap fresh_id_of ops) ->
  (forall f, f ∈ omap fresh_id_of ops -> text_of (log_events ledger) f = None) ->
  let '(j, told) := foldl (fun jt op => run_told op jt)
                      (new_journal ledger agent, text_of (log_events ledger)) ops in
  (pending_chars j = pending_sum (streams j) /\ pending_chars j < 65536 /\
   (0 < pending_chars j -> is_Some (timer j))) /\
  (forall i, text_of (log_events (j_ledger j)) i = told i \/
     exists k st, (k, st) ∈ streams j /\ stream_id st = i /\
       told i = Some (live (log_events (j_ledger j)) st)) /\
  (forall ticks, written ticks ->
     exists j', flush ticks j = (Ok (), j') /\ pending_chars j' = 0 /\
       forall i, text_of (log_events (j_ledger j')) i = told i).
Proof.
  intros Hw Hnd Hfresh.
  assert (Hinit : tracked (new_journal ledger agent) (text_of (log_events ledger))).
  { constructor; cbn; try done; try (intros k st Hin; by apply elem_of_nil in Hin). apply NoDup_nil_2. }
  assert (Hbnd : bounded (new_journal ledger agent)) by (split; cbn; [by unfold FLUSH_CHARS|lia]).
  assert (Hrun : let jt := foldl (fun jt op => run_told op jt)
                   (new_journal ledger agent, text_of (log_events ledger)) ops in
                 tracked jt.1 jt.2 /\ bounded jt.1).
  { revert Hinit Hbnd Hfresh. generalize (new_journal ledger agent), (text_of (log_events ledger)).
    induction Hw as [|op ops Hop _ IH]; intros j told Ht Hb Hfresh; [done|]. cbn [foldl].
    assert (Hf : forall f, fresh_id_of op = Some f -> told f = None).
    { intros f Hf. apply Hfresh. cbn. rewrite Hf. left. }
    destruct (run_jop_step op j told Hop Ht Hb Hf) as [Ht' Hb'].
    apply (IH ltac:(cbn in Hnd; destruct (fresh_id_of op); [by apply NoDup_cons in Hnd as [_ ?]|done])
             (run_jop op j) (tell_op op j told) Ht' Hb').
    intros f Hin. destruct (tell_op op j told f) eqn:E; [|done]. exfalso.
    destruct (tell_op_domain op j told f Ht) as [Hn|Hn]; [by rewrite E|..].
    - apply Hn, Hfresh. cbn. destruct (fresh_id_of op); [by right|done].
    - cbn in Hnd. rewrite Hn in Hnd. by apply NoDup_cons in Hnd as [? _]. }
  destruct (foldl _ _ ops) as [j told]. cbn [fst snd] in Hrun. destruct Hrun as [Ht [Hb1 Hb2]].
  split_and!; [apply (t_pending j told Ht)|exact Hb1|exact Hb2| |].
  - intros i. destruct (decide (i ∈ stream_ids (streams j))) as [Hi|Hi].
    + right. apply stream_ids_inv in Hi as (k & st & Hin & <-). exists k, st.
      split_and!; [done|done|]. by eapply (t_open j told Ht).
    + left. by apply (t_closed j told Ht).
  - intros ticks Hwt. destruct (flush_tracked ticks j told Hwt Ht) as (j' & Hfl & _ & (Htext & _ & Hz) & _).
    by exists j'.
Qed.
End Lemmas.

(** ** Recovery reads the texts back *)

(** Every checkpoint in the log was written by a journal. *)
Definition checkpoints_wf (l : list HistoryEvent) : Prop :=
  forall e, e ∈ l -> Ledger.kind e = $"output_checkpoint" ->
  exists st, Ledger.payload e = checkpoint_payload st.

Definition entry_text (acc : list (pystr * Recovered)) (i : pystr) : option pystr :=
  (fun r => concat (r_parts r)) <$> assoc_get acc i.

(** The rows hold the texts [T] of the streams not [completed]. *)
Definition recovers (completed : list pyval) (T : pystr -> option pystr)
    (acc : list (pystr * Recovered)) : Prop :=
  NoDup acc.*1 /\
  forall i, entry_text acc i = if decide (VStr i ∈ completed) then None else T i.

Lemma recover_event_spec completed T acc e :
  (Ledger.kind e = $"output_checkpoint" -> exists st, Ledger.payload e = checkpoint_payload st) ->
  recovers completed T acc ->
  exists acc', recover_event completed acc e = Ok acc' /\
    recovers completed (fun i => add_checkpoint i (T i) e) acc'.
Proof.
  intros Hwf [Hnd Hacc]. unfold recover_event, recovers, add_checkpoint, checkpoint_of.
  case_bool_decide as Hk; cbn [negb]; [|by exists acc].
  destruct (Hwf Hk) as [st ->]. unfold dget_text, checkpoint_payload, dget_none.
  autorewrite with pydict. cbn [typed_str mbind result_bind default truthy].
  unfold mbind, result_bind. case_bool_decide as Hc.
  - exists acc. split; [done|]. split; [done|]. intros i. rewrite Hacc.
    repeat case_decide; try done. by subst.
  - eexists. split; [reflexivity|]. split; [by apply assoc_set_NoDup|]. intros i.
    unfold entry_text. rewrite assoc_get_set. specialize (Hacc i). unfold entry_text in Hacc.
    destruct (decide (i = stream_id st)) as [->|Hne].
    + destruct (decide (VStr (stream_id st) ∈ completed)) as [?|_]; [done|].
      rewrite !(decide_True (P := stream_id st = _)) by done. rewrite <- Hacc. cbn. f_equal. rewrite concat_app. cbn. rewrite app_nil_r. f_equal.
      destruct (s_replace st); [done|]. by destruct (assoc_get acc (stream_id st)).
    + rewrite Hacc. by rewrite (decide_False (P := stream_id st = i)) by congruence.
Qed.

Lemma recover_events_spec completed l : forall T acc,
  checkpoints_wf l -> recovers completed T acc ->
  exists acc', recover_events completed acc l = Ok acc' /\
    recovers completed (fun i => foldl (add_checkpoint i) (T i) l) acc'.
Proof.
  induction l as [|e l IH]; intros T acc Hwf Hr; [by exists acc|]. cbn [recover_events foldl].
  destruct (recover_event_spec completed T acc e ltac:(apply Hwf; left) Hr) as (acc1 & -> & Hr1).
  unfold mbind, result_bind. apply (IH _ _ ltac:(intros e' He'; apply Hwf; by right) Hr1).
Qed.

(** Recovery reads back exactly the interrupted streams.  From a log whose
    checkpoints were written by journals, [interrupted_output] gives one row for
    each stream with a checkpoint that no committed message acknowledges, and
    the row's text is the complete text of the stream; acknowledged streams have
    none. *)
Theorem recovered_output_complete (l : list HistoryEvent) completed :
  checkpoints_wf l -> completed_ids l = Ok completed ->
  exists entries, interrupted_output l = Ok (map (fun ir : pystr * Recovered =>
      (r_seq ir.2, $"[Recovered " ++ r_label ir.2 ++ $" — session interrupted]"
                   ++ 10 :: concat (r_parts ir.2))) entries) /\
    NoDup entries.*1 /\
    forall i t, (exists r, (i, r) ∈ entries /\ concat (r_parts r) = t)
                <-> ((VStr i ∉ completed) /\ text_of l i = Some t).
Proof.
  intros Hwf Hc. unfold interrupted_output. rewrite Hc.
  destruct (recover_events_spec completed l (fun _ => None) [] Hwf) as (acc & Hr & Hnd & Hacc).
  { split; [apply NoDup_nil_2|]. intros i. by case_decide. }
  exists acc. unfold mbind, result_bind. rewrite Hr. split; [done|]. split; [done|].
  intros i t. specialize (Hacc i). fold (text_of l i) in Hacc. unfold entry_text in Hacc. split.
  - intros (r & Hin & <-). rewrite (assoc_get_of_elem acc i r) in Hacc by done. cbn in Hacc.
    by case_decide.
  - intros [Hni Ht]. rewrite decide_False, Ht in Hacc by done.
    destruct (assoc_get acc i) as [r|] eqn:E; [|done]. injection Hacc as <-.
    exists r. split; [|done]. by apply assoc_get_elem.
Qed.

(** ** Witnesses *)

Definition example_stream : Stream :=
  {| stream_id := $"s1"; s_kind := $"tool"; s_turn_id := None; s_tool_call_id := Some $"c1";
     s_tool_name := Some $"shell"; parts := [$"hel"; $"lo"]; s_replace := false |}.

Definition example_journal_ops : list JOp :=
  let a := with_envelope {| event_id := $"e1"; timestamp := 0; agent_id := Some $"main"; session_generation := None;
             session_id := None; turn_id := None;
             correlation_id := Some $"c1" |}
             (stream_token {| fresh_event_id := $"e1"; stamp_now := 0 |} $"hello") in
  [ JRecord a $"s1" 1 (fun n => example_tick (z_str (Z.of_nat n))) (fun n => example_tick (z_str (Z.of_nat n)));
    JTimer 1 (fun n => example_tick (z_str (Z.of_nat n)));
    JRecord a $"s2" 2 (fun n => example_tick (z_str (Z.of_nat n))) (fun n => example_tick (z_str (Z.of_nat n))) ].

Definition example_log : list HistoryEvent :=
  log_events (flush_loop (S := Store) $"main" (fun n => example_tick (z_str (Z.of_nat n))) 0
    [(($"tool", Some $"c1"), example_stream)] (example_ledger, ∅) 5).2.1.2.

Lemma recovered_output_complete_witness :
  text_of example_log $"s1" = Some $"hello" /\
  exists entries, interrupted_output example_log = Ok (map (fun ir : pystr * Recovered =>
      (r_seq ir.2, $"[Recovered " ++ r_label ir.2 ++ $" — session interrupted]"
                   ++ 10 :: concat (r_parts ir.2))) entries) /\
    NoDup entries.*1 /\
    forall i t, (exists r, (i, r) ∈ entries /\ concat (r_parts r) = t)
                <-> ((VStr i ∉ []) /\ text_of example_log i = Some t).
Proof.
  split; [reflexivity|]. apply (recovered_output_complete example_log []); [|reflexivity].
  intros e He _. exists example_stream. apply list_elem_of_singleton in He. by subst.
Defined.

Lemma journal_loses_nothing_witness :
  let '(j, told) := foldl (fun jt op => run_told op jt)
      (new_journal (example_ledger, ∅) $"main", text_of []) example_journal_ops in
  told $"s1" = Some $"hellohello" /\ pending_chars j = 5 /\ is_Some (timer j) /\
  forall ticks, written ticks -> exists j', flush ticks j = (Ok (), j') /\
    text_of (log_events (j_ledger j')) $"s1" = Some $"hellohello".
Proof.
  assert (Hw : written (fun n => example_tick (z_str (Z.of_nat n)))) by done.
  pose proof (journal_loses_nothing (S := Store) example_journal_ops (example_ledger, ∅) $"main"
    ltac:(repeat constructor; done) ltac:(apply (bool_decide_unpack _); by vm_compute)
    ltac:(done)) as H.
  change (text_of (log_events (example_ledger, ∅))) with (text_of []) in H.
  destruct (foldl _ _ _) as [j told] eqn:E.
  assert (Ht : told $"s1" = Some $"hellohello") by (apply (f_equal (fun p => p.2 $"s1")) in E; by vm_compute in E).
  assert (Hp : pending_chars j = 5) by (apply (f_equal (fun p => pending_chars p.1)) in E; by vm_compute in E).
  destruct H as ((_ & _ & Htimer) & _ & Hfl). split_and!; [done|done|apply Htimer; lia|].
  intros ticks Hwt. destruct (Hfl ticks Hwt) as (j' & Hj & _ & Hall). exists j'. by rewrite Hall.
Defined.
