(* ===== verification/Glob.v ===== *)
(** * Portable glob patterns (domain/workspace.py)

    [PortableGlobMatcher] matches the segments of a relative path against the
    segments of a pattern, where [**] stands for any number of segments.  The
    matcher runs all pattern prefixes at once, one Boolean each; [glob] is the
    declarative meaning, and [can_match_descendant] is the test the directory
    walk prunes with.  Matching one segment ([fnmatch.translate] compiled by
    [re]) is a parameter. *)

From S2P Require Import Prelude.

(** ** Segments *)

(** [s.split(c)]. *)
Fixpoint split_on (c : Z) (s : pystr) : list pystr :=
  match s with
  | [] => [[]]
  | d :: s' =>
    if d =? c then [] :: split_on c s'
    else match split_on c s' with
         | [] => [[d]]
         | p :: ps => (d :: p) :: ps
         end
  end.

(** [s.replace("\\", "/")]. *)
Definition slashes (s : pystr) : pystr := map (fun c => if c =? 92 then 47 else c) s.

Definition non_empty (s : pystr) : Prop := s <> [].
#[export] Instance non_empty_dec s : Decision (non_empty s).
Proof. unfold non_empty. apply _. Defined.

Definition path_parts (s : pystr) : list pystr := filter non_empty (split_on 47 (slashes s)).

(** [None] is [**]. *)
Abbreviation segment := (option pystr).

Section Glob.
Context (fnmatch : pystr -> pystr -> bool).

Record PortableGlobMatcher := { segments : list segment }.

Definition compile_portable_glob (pattern : pystr) : PortableGlobMatcher :=
  {| segments := map (fun p => if decide (p = $"**") then None else Some p) (path_parts pattern) |}.

(** ** States

    Position [i] of the states says whether the first [i] segments match the
    parts consumed so far. *)

Fixpoint initial_states (left : bool) (segs : list segment) : list bool :=
  match segs with
  | [] => []
  | s :: segs' =>
    let here := match s with None => left | Some _ => false end in
    here :: initial_states here segs'
  end.

Fixpoint next_states (part : pystr) (segs : list segment) (left_before : bool)
    (before : list bool) (left : bool) : list bool :=
  match segs, before with
  | s :: segs', b :: before' =>
    let here := match s with
                | None => left || b
                | Some g => left_before && fnmatch g part
                end in
    here :: next_states part segs' b before' here
  | _, _ => []
  end.

Definition next (segs : list segment) (previous : list bool) (part : pystr) : list bool :=
  match previous with
  | [] => []
  | b :: before => false :: next_states part segs b before false
  end.

Definition states (m : PortableGlobMatcher) (relative_path : pystr) : list bool :=
  foldl (next (segments m)) (true :: initial_states true (segments m)) (path_parts relative_path).

Definition last_state (l : list bool) : bool := default false (last l).

(** [relative_path.replace("\\", "/").strip("/")] is empty. *)
Definition only_slashes (s : pystr) : bool := forallb (Z.eqb 47) (slashes s).

Definition matches (m : PortableGlobMatcher) (relative_path : pystr) : bool :=
  negb (only_slashes relative_path)
  && match segments m with [] => false | _ => last_state (states m relative_path) end.

Definition can_match_descendant (m : PortableGlobMatcher) (directory : pystr) : bool :=
  match segments m with
  | [] => false
  | _ =>
    let l := states m directory in
    existsb id (removelast l) || (bool_decide (last (segments m) = Some None) && last_state l)
  end.

Definition portable_glob_match (relative_path pattern : pystr) : bool :=
  matches (compile_portable_glob pattern) relative_path.

(** ** Meaning

    The parts are cut into one group per segment: any group for [**], and one
    accepted part for the others. *)

Definition accepts (s : segment) (group : list pystr) : Prop :=
  match s with
  | None => True
  | Some g => exists p, group = [p] /\ fnmatch g p = true
  end.

Definition glob (segs : list segment) (parts : list pystr) : Prop :=
  exists groups, Forall2 accepts segs groups /\ concat groups = parts.

Lemma glob_nil parts : glob [] parts <-> parts = [].
Proof.
  split; [|intros ->; by exists []].
  intros (groups & Hg & <-). by apply Forall2_nil_inv_l in Hg as ->.
Qed.

Lemma glob_app segs segs' parts :
  glob (segs ++ segs') parts <-> exists p p', parts = p ++ p' /\ glob segs p /\ glob segs' p'.
Proof.
  split.
  - intros (groups & Hg & <-). apply Forall2_app_inv_l in Hg as (g & g' & Hg & Hg' & ->).
    exists (concat g), (concat g'). split; [by rewrite concat_app|]. split; [by exists g|by exists g'].
  - intros (p & p' & -> & (g & Hg & <-) & g' & Hg' & <-).
    exists (g ++ g'). split; [by apply Forall2_app|]. by rewrite concat_app.
Qed.

Lemma glob_star parts : glob [None] parts.
Proof. exists [parts]. split; [by repeat constructor|]. cbn. by rewrite app_nil_r. Qed.

Lemma glob_one g parts : glob [Some g] parts <-> exists p, parts = [p] /\ fnmatch g p = true.
Proof.
  split.
  - intros (groups & Hg & <-). apply Forall2_cons_inv_l in Hg as (q & l & (p & -> & Hp) & Hl & ->).
    apply Forall2_nil_inv_l in Hl as ->. by exists p.
  - intros (p & -> & Hp). exists [[p]]. split; [repeat constructor; by exists p|done].
Qed.

Lemma glob_snoc_star_nil segs : glob (segs ++ [None]) [] <-> glob segs [].
Proof.
  rewrite glob_app. split.
  - intros (p & p' & Heq & Hp & _). symmetry in Heq. by apply app_nil in Heq as [-> ->].
  - intros H. exists [], []. split; [done|]. split; [done|apply glob_star].
Qed.

Lemma glob_snoc_one_nil segs g : ~ glob (segs ++ [Some g]) [].
Proof.
  rewrite glob_app. intros (p & p' & Heq & _ & Hp'). symmetry in Heq. apply app_nil in Heq as [-> ->].
  apply glob_one in Hp' as (? & ? & _). done.
Qed.

Lemma glob_snoc_star segs ps p :
  glob (segs ++ [None]) (ps ++ [p]) <-> glob segs (ps ++ [p]) \/ glob (segs ++ [None]) ps.
Proof.
  rewrite !glob_app. split.
  - intros (q & q' & Heq & Hq & _). destruct q' as [|x q' _] using rev_ind.
    + left. by rewrite Heq, app_nil_r.
    + right. rewrite app_assoc in Heq. apply app_inj_tail in Heq as [-> ->].
      exists q, q'. split; [done|]. split; [done|apply glob_star].
  - intros [H|(q & q' & -> & Hq & _)].
    + exists (ps ++ [p]), []. split; [by rewrite app_nil_r|]. split; [done|apply glob_star].
    + exists q, (q' ++ [p]). split; [by rewrite app_assoc|]. split; [done|apply glob_star].
Qed.

Lemma glob_snoc_one segs g ps p :
  glob (segs ++ [Some g]) (ps ++ [p]) <-> glob segs ps /\ fnmatch g p = true.
Proof.
  rewrite glob_app. split.
  - intros (q & q' & Heq & Hq & (x & -> & Hx)%glob_one). by apply app_inj_tail in Heq as [-> ->].
  - intros [H Hp]. exists ps, [p]. split; [done|]. split; [done|]. apply glob_one. by exists p.
Qed.

(** ** The states are right *)

Definition states_right (pre segs : list segment) (parts : list pystr) (l : list bool) : Prop :=
  length l = length segs /\
  forall i b, l !! i = Some b -> b = true <-> glob (pre ++ take (S i) segs) parts.

Lemma initial_states_right segs : forall pre left,
  (left = true <-> glob pre []) -> states_right pre segs [] (initial_states left segs).
Proof.
  induction segs as [|s segs IH]; intros pre left Hleft; cbn; [split; [done|]; intros i b Hi; done|].
  set (here := match s with None => left | Some _ => false end).
  assert (Hh : here = true <-> glob (pre ++ [s]) []).
  { subst here. destruct s as [g|]; [|by rewrite glob_snoc_star_nil].
    split; [done|]. by intros ?%glob_snoc_one_nil. }
  destruct (IH (pre ++ [s]) here Hh) as [Hlen Hall]. split; [cbn; lia|].
  intros [|i] b Hi; cbn in Hi.
  - injection Hi as <-. by rewrite Hh.
  - rewrite (Hall i b Hi). cbn [take]. by rewrite <- app_assoc.
Qed.

Lemma next_states_right part segs : forall pre parts left_before before left,
  (left_before = true <-> glob pre parts) -> (left = true <-> glob pre (parts ++ [part])) ->
  states_right pre segs parts before ->
  states_right pre segs (parts ++ [part]) (next_states part segs left_before before left).
Proof.
  induction segs as [|s segs IH]; intros pre parts lb before left Hlb Hleft [Hlen Hall].
  - split; [done|]. by intros i b Hi.
  - destruct before as [|b0 before]; [done|]. cbn [next_states].
    set (here := match s with None => left || b0 | Some g => lb && fnmatch g part end).
    assert (Hb0 : b0 = true <-> glob (pre ++ [s]) parts) by (by apply (Hall 0%nat)).
    assert (Hh : here = true <-> glob (pre ++ [s]) (parts ++ [part])).
    { subst here. destruct s as [g|].
      - rewrite glob_snoc_one, andb_true_iff. by rewrite Hlb.
      - rewrite glob_snoc_star, orb_true_iff. by rewrite Hleft, Hb0. }
    destruct (IH (pre ++ [s]) parts b0 before here Hb0 Hh) as [Hlen' Hall'].
    { split; [cbn in Hlen; lia|]. intros i b Hi. rewrite (Hall (S i) b Hi). cbn [take].
      by rewrite <- app_assoc. }
    split; [cbn; lia|]. intros [|i] b Hi; cbn in Hi.
    + injection Hi as <-. by rewrite Hh.
    + rewrite (Hall' i b Hi). cbn [take]. by rewrite <- app_assoc.
Qed.

Lemma run_right segs parts : forall parts0 b l,
  (b = true <-> glob [] parts0) -> states_right [] segs parts0 l ->
  exists b' l', foldl (next segs) (b :: l) parts = b' :: l' /\
    (b' = true <-> glob [] (parts0 ++ parts)) /\ states_right [] segs (parts0 ++ parts) l'.
Proof.
  induction parts as [|p parts IH]; intros parts0 b l Hb Hl; cbn [foldl].
  - rewrite app_nil_r. by exists b, l.
  - replace (parts0 ++ p :: parts) with ((parts0 ++ [p]) ++ parts) by (by rewrite <- app_assoc).
    assert (Hf : false = true <-> glob [] (parts0 ++ [p])).
    { rewrite glob_nil. split; [done|]. intros Heq. by apply app_nil in Heq as [_ ?]. }
    apply IH; [done|]. by apply next_states_right.
Qed.

Lemma states_spec m path :
  exists b l, states m path = b :: l /\ (b = true <-> path_parts path = []) /\
    states_right [] (segments m) (path_parts path) l.
Proof.
  unfold states.
  destruct (run_right (segments m) (path_parts path) [] true (initial_states true (segments m)))
    as (b & l & H1 & H2 & H3); [by rewrite glob_nil|by apply initial_states_right; rewrite glob_nil|].
  exists b, l. split; [done|]. split; [|done]. by rewrite H2, glob_nil.
Qed.

Lemma last_state_spec m path :
  segments m <> [] -> last_state (states m path) = true <-> glob (segments m) (path_parts path).
Proof.
  intros Hne. destruct (states_spec m path) as (b & l & -> & _ & Hlen & Hall).
  destruct l as [|c l _] using rev_ind; [by destruct (segments m)|].
  unfold last_state. rewrite app_comm_cons, last_snoc. cbn [default].
  rewrite (Hall (length l) c) by apply list_lookup_middle, eq_refl. rewrite length_app in Hlen. cbn in *.
  by rewrite take_ge by lia.
Qed.

(** ** Paths *)

Lemma split_on_nonnil c s : split_on c s <> [].
Proof. destruct s as [|d s]; cbn; [done|]. case_match; [done|]. by destruct (split_on c s). Qed.

Lemma split_on_app c s s' :
  split_on c (s ++ c :: s') = split_on c s ++ split_on c s'.
Proof.
  induction s as [|d s IH]; cbn; [by rewrite Z.eqb_refl|].
  destruct (d =? c); [by rewrite IH|]. rewrite IH.
  destruct (split_on c s) eqn:E; [by apply split_on_nonnil in E|done].
Qed.

Lemma path_parts_app d e : path_parts (d ++ 47 :: e) = path_parts d ++ path_parts e.
Proof. unfold path_parts, slashes. rewrite map_app. cbn [map]. cbn. by rewrite split_on_app, filter_app. Qed.

Lemma path_parts_nil s : path_parts s = [] <-> only_slashes s = true.
Proof.
  unfold path_parts, only_slashes. induction (slashes s) as [|d l IH]; [done|].
  cbn [split_on forallb]. rewrite (Z.eqb_sym 47 d). destruct (d =? 47); cbn [andb]; [by rewrite <- IH|].
  split; [|done]. destruct (split_on 47 l) as [|q qs]; by rewrite filter_cons_True by done.
Qed.

(** The matcher decides the declarative meaning: a relative path matches
    exactly when the pattern has segments, the path has parts, and the parts can
    be cut into one group per segment, where [**] takes any group and every
    other segment takes one part it accepts. *)
Theorem matches_spec m path :
  matches m path = true <->
  segments m <> [] /\ path_parts path <> [] /\
  exists groups, Forall2 accepts (segments m) groups /\ concat groups = path_parts path.
Proof.
  unfold matches. rewrite andb_true_iff, negb_true_iff, path_parts_nil, not_true_iff_false.
  split.
  - intros [Hs Hl]. assert (Hne : segments m <> []) by (by destruct (segments m)).
    split; [done|]. split; [done|]. apply (last_state_spec m path Hne). by destruct (segments m).
  - intros (Hne & Hs & Hg). split; [done|]. destruct (segments m) eqn:E; [done|]. rewrite <- E in Hg.
    apply last_state_spec; [by rewrite E|done].
Qed.

(** ** Pruning *)

Lemma states_length m path : length (states m path) = S (length (segments m)).
Proof. destruct (states_spec m path) as (b & l & -> & _ & Hlen & _). cbn. by rewrite Hlen. Qed.

Lemma state_at m path i c :
  states m path !! i = Some c -> c = true <-> glob (take i (segments m)) (path_parts path).
Proof.
  destruct (states_spec m path) as (b & l & -> & Hb & _ & Hall). destruct i as [|i]; cbn; intros Hi.
  - injection Hi as <-. by rewrite Hb, glob_nil.
  - by apply (Hall i).
Qed.

(** Some prefix of the pattern that leaves something to match takes the parts. *)
Definition open_prefix (segs : list segment) (parts : list pystr) (i : nat) : Prop :=
  (i <= length segs)%nat /\ glob (take i segs) parts /\ (i = length segs -> last segs = Some None).

Lemma can_match_spec m directory :
  segments m <> [] ->
  can_match_descendant m directory = true <->
  exists i, open_prefix (segments m) (path_parts directory) i.
Proof.
  intros Hne. pose proof (states_length m directory) as Hlen.
  assert (Hcan : can_match_descendant m directory =
            existsb id (removelast (states m directory))
            || (bool_decide (last (segments m) = Some None) && last_state (states m directory)))
    by (unfold can_match_descendant; by destruct (segments m)).
  rewrite Hcan, orb_true_iff, andb_true_iff, bool_decide_eq_true, (last_state_spec m directory Hne).
  rewrite removelast_firstn_len, Hlen, existsb_exists. cbn [pred]. split.
  - intros [(x & Hx & Hxt)|[Hn Hl]].
    + cbn in Hxt. subst x. apply list_elem_of_In, list_elem_of_lookup in Hx as [i Hi].
      pose proof (lookup_lt_Some _ _ _ Hi) as Hlt. rewrite length_take in Hlt.
      rewrite lookup_take_lt in Hi by lia. exists i. split; [lia|]. split; [|lia].
      by apply (state_at m directory i true Hi).
    + exists (length (segments m)). split; [done|]. by rewrite firstn_all.
  - intros (i & Hi & Hg & Hlast). destruct (decide (i = length (segments m))) as [->|Hlt].
    + right. rewrite firstn_all in Hg. auto.
    + left. exists true. split; [|done]. apply list_elem_of_In, list_elem_of_lookup. exists i.
      rewrite lookup_take_lt by lia.
      destruct (lookup_lt_is_Some_2 (states m directory) i) as [c Hc]; [lia|]. rewrite Hc. f_equal.
      by apply (state_at m directory i c Hc).
Qed.

Lemma glob_open_prefix segs d e :
  e <> [] -> glob segs (d ++ e) -> exists i, open_prefix segs d i.
Proof.
  unfold open_prefix. revert d e. induction segs as [|s segs IH] using rev_ind; intros d e He Hg.
  - apply glob_nil, app_nil in Hg as [_ ?]. done.
  - apply glob_app in Hg as (p & p' & Heq & Hp & Hp'). rewrite length_app. cbn [length].
    assert (Hcut : (exists k, d = p ++ k /\ p' = k ++ e) \/ (exists x k, p = d ++ x :: k)).
    { destruct (app_eq_inv _ _ _ _ Heq) as [(k & Hk & Hk')|(k & Hk & Hk')]; subst.
      - left. by exists k.
      - destruct k as [|x k]; [left; exists []; by rewrite !app_nil_r|right; by exists x, k]. }
    destruct Hcut as [(k & -> & ->)|(x & k & ->)].
    + destruct s as [g|].
      * apply glob_one in Hp' as (x & Hx & _). exists (length segs). split; [lia|]. split; [|lia].
        destruct k as [|y [|]]; [|by destruct e..]. by rewrite take_app_length, app_nil_r.
      * exists (length (segs ++ [None])). rewrite length_app. cbn. split; [lia|].
        split; [|intros _; apply last_snoc]. rewrite take_ge by (rewrite length_app; cbn; lia).
        apply glob_app. exists p, k. split; [done|]. split; [done|apply glob_star].
    + destruct (IH d (x :: k) ltac:(done) Hp) as (i & Hi & Hgi & _).
      exists i. split; [lia|]. split; [|lia]. by rewrite take_app_le by lia.
Qed.

Definition satisfiable (segs : list segment) : Prop :=
  forall g, Some g ∈ segs -> exists p, fnmatch g p = true.

Lemma glob_nonempty segs : satisfiable segs -> segs <> [] -> exists r, r <> [] /\ glob segs r.
Proof.
  induction segs as [|s segs IH]; [done|]. intros Ha _.
  assert (Hs : exists p, glob [s] [p]).
  { destruct s as [g|]; [|exists []; apply glob_star].
    destruct (Ha g) as [p Hp]; [left|]. exists p. apply glob_one. by exists p. }
  destruct Hs as [p Hp]. destruct segs as [|s' segs]; [by exists [p]|].
  destruct IH as (r & _ & Hr); [intros g Hg; apply Ha; by right|done|].
  exists (p :: r). split; [done|]. apply (glob_app [s]). by exists [p], r.
Qed.

Lemma open_prefix_glob segs d i :
  satisfiable segs -> open_prefix segs d i -> exists r, r <> [] /\ glob segs (d ++ r).
Proof.
  intros Hsat (Hle & Hg & Hlast). destruct (decide (i = length segs)) as [->|Hlt].
  - rewrite firstn_all in Hg. exists [[]]. split; [done|].
    apply last_Some in Hlast as [l0 ->]; [|done].
    apply glob_app in Hg as (p & p' & -> & Hp & _). apply glob_app. exists p, (p' ++ [[]]).
    split; [by rewrite app_assoc|]. split; [done|apply glob_star].
  - destruct (glob_nonempty (drop i segs)) as (r & Hr & Hgr).
    + intros g Hin. apply Hsat. rewrite <- (take_drop i segs). apply elem_of_app. by right.
    + intros Hd%(f_equal length). rewrite length_drop in Hd. cbn in Hd. lia.
    + exists r. split; [done|]. rewrite <- (take_drop i segs). apply glob_app. by exists d, r.
Qed.

(** Pruning is exact.  The walk enters every directory with a matching
    descendant; and when every segment of the pattern accepts some part, it
    enters only directories below which some path would match. *)
Theorem pruning_exact m directory :
  (forall rest, matches m (directory ++ 47 :: rest) = true -> path_parts rest <> [] ->
     can_match_descendant m directory = true) /\
  (satisfiable (segments m) -> can_match_descendant m directory = true ->
   exists rest, rest <> [] /\ glob (segments m) (path_parts directory ++ rest)).
Proof.
  split.
  - intros rest Hm Hrest. unfold matches in Hm. apply andb_true_iff in Hm as [_ Hm].
    assert (Hne : segments m <> []) by (by destruct (segments m)).
    apply can_match_spec; [done|]. eapply glob_open_prefix; [exact Hrest|]. rewrite <- path_parts_app.
    apply last_state_spec; [done|]. by destruct (segments m).
  - intros Hsat Hcan. assert (Hne : segments m <> []) by (unfold can_match_descendant in Hcan; by destruct (segments m)).
    apply can_match_spec in Hcan as [i Hi]; [|done]. by eapply open_prefix_glob.
Qed.
End Glob.

Example glob_example :
  portable_glob_match (fun g p => bool_decide (g = $"*") || bool_decide (g = p)) $"src/a/b/x.py" $"src/**/x.py" = true
  /\ portable_glob_match (fun g p => bool_decide (g = $"*") || bool_decide (g = p)) $"src/x.py" $"src/*/x.py" = false.
Proof. by vm_compute. Qed.
