(* ===== verification/Workspace.v ===== *)
(** * Verified workspace writes (domain/workspace.py, infrastructure/workspace/local.py)

    The revisions and receipts of the workspace contract, and the writes of
    [LocalWorkspacePort], which replace a file and observe the result.  Other
    programs may change the disk between the steps of a write: an [Env] gives
    the changes they make before each step, what reading returns, and whether
    the replacement succeeds.  Path normalisation ([pathlib]), UTF-8 decoding
    with replacement and SHA-256 are parameters; encoding is written out. *)

From S2P Require Import Prelude PyValue Glob.

(** ** Errors *)

Inductive WorkspaceErrorCode :=
| INVALID_PATH | PATH_OUTSIDE_WORKSPACE | NOT_FOUND | NOT_A_FILE | NOT_A_DIRECTORY | NOT_UNIQUE
| REVISION_CONFLICT | IO_ERROR.

#[export] Instance error_code_dec : EqDecision WorkspaceErrorCode.
Proof. solve_decision. Defined.

Definition error_code_value (c : WorkspaceErrorCode) : pystr :=
  match c with
  | INVALID_PATH => $"invalid_path"
  | PATH_OUTSIDE_WORKSPACE => $"path_outside_workspace"
  | NOT_FOUND => $"not_found"
  | NOT_A_FILE => $"not_a_file"
  | NOT_A_DIRECTORY => $"not_a_directory"
  | NOT_UNIQUE => $"not_unique"
  | REVISION_CONFLICT => $"revision_conflict"
  | IO_ERROR => $"io_error"
  end.

Inductive WorkspaceMutationVerification := APPLIED_VERIFIED | FAILED_UNCHANGED | DIVERGED | UNKNOWN.

#[export] Instance verification_dec : EqDecision WorkspaceMutationVerification.
Proof. solve_decision. Defined.

Definition verification_value (v : WorkspaceMutationVerification) : pystr :=
  match v with
  | APPLIED_VERIFIED => $"applied_verified"
  | FAILED_UNCHANGED => $"failed_unchanged"
  | DIVERGED => $"diverged"
  | UNKNOWN => $"unknown"
  end.

Definition parse_verification (s : pystr) : result WorkspaceMutationVerification :=
  if bool_decide (s = $"applied_verified") then Ok APPLIED_VERIFIED
  else if bool_decide (s = $"failed_unchanged") then Ok FAILED_UNCHANGED
  else if bool_decide (s = $"diverged") then Ok DIVERGED
  else if bool_decide (s = $"unknown") then Ok UNKNOWN
  else Raise (ValueError (repr_str s ++ $" is not a valid WorkspaceMutationVerification")).

(** ** Revisions and receipts *)

Record WorkspaceRevision := {
  r_exists : bool;
  r_sha256 : option pystr;
  r_size_bytes : Z;
  r_mtime_ns : option Z;
  r_authoritative : bool;
}.

Definition same_content (r r' : WorkspaceRevision) : bool :=
  bool_decide (r_exists r = r_exists r') && bool_decide (r_sha256 r = r_sha256 r')
  && (r_size_bytes r =? r_size_bytes r').

Definition short_sha256 (r : WorkspaceRevision) : pystr :=
  match r_sha256 r with
  | Some ((_ :: _) as s) => take 12 s
  | _ => $"missing"
  end.

Definition of_optional_int (n : option Z) : pyval := match n with Some n => VInt n | None => VNone end.

Definition revision_to_dict (r : WorkspaceRevision) : pydict :=
  [ ($"exists", VBool (r_exists r)); ($"sha256", of_optional_str (r_sha256 r));
    ($"size_bytes", VInt (r_size_bytes r)); ($"mtime_ns", of_optional_int (r_mtime_ns r));
    ($"authoritative", VBool (r_authoritative r)) ].

(** [_payload_int]; an overflow is not caught. *)
Definition zero_if_invalid (r : result Z) : result Z :=
  match r with
  | Raise (TypeError _) | Raise (ValueError _) => Ok 0
  | _ => r
  end.

Definition payload_int `{PyCoercions} (v : pyval) : result Z :=
  match v with
  | VBool b => Ok (if b then 1 else 0)
  | VInt _ | VFloat _ | VStr _ => zero_if_invalid (py_int v)
  | _ => Ok 0
  end.

Definition revision_from_dict `{PyCoercions} (d : pydict) : result WorkspaceRevision :=
  size ← payload_int (dget_none d $"size_bytes");
  Ok {| r_exists := truthy (dget_none d $"exists");
        r_sha256 := optional_str (dget_none d $"sha256");
        r_size_bytes := size;
        r_mtime_ns := match dget_none d $"mtime_ns" with
                      | VInt n => Some n
                      | VBool b => Some (if b then 1 else 0)
                      | _ => None
                      end;
        r_authoritative := truthy (dget_or d $"authoritative" (VBool true)) |}.

Record WorkspaceDocumentSnapshot := {
  sn_resolved_path : pystr;
  sn_content : option pystr;
  sn_revision : WorkspaceRevision;
}.

Record WorkspaceMutationReceipt := {
  m_resolved_path : pystr;
  before : WorkspaceRevision;
  intended_after_sha256 : pystr;
  intended_size_bytes : Z;
  observed_after : option WorkspaceRevision;
  atomic_replace : bool;
  verification : WorkspaceMutationVerification;
  expected_before : option WorkspaceRevision;
  external_change_before_write : bool;
}.

Definition optional_revision (r : option WorkspaceRevision) : pyval :=
  match r with Some r => VDict (revision_to_dict r) | None => VNone end.

Definition receipt_to_dict (m : WorkspaceMutationReceipt) : pydict :=
  [ ($"resolved_path", VStr (m_resolved_path m)); ($"before", VDict (revision_to_dict (before m)));
    ($"intended_after_sha256", VStr (intended_after_sha256 m));
    ($"intended_size_bytes", VInt (intended_size_bytes m));
    ($"observed_after", optional_revision (observed_after m));
    ($"atomic_replace", VBool (atomic_replace m));
    ($"verification", VStr (verification_value (verification m)));
    ($"expected_before", optional_revision (expected_before m));
    ($"external_change_before_write", VBool (external_change_before_write m)) ].

Definition optional_revision_from `{PyCoercions} (v : pyval) : result (option WorkspaceRevision) :=
  match v with
  | VDict d => r ← revision_from_dict d; Ok (Some r)
  | _ => Ok None
  end.

Definition receipt_from_dict `{PyCoercions} (d : pydict) : result WorkspaceMutationReceipt :=
  match dget_none d $"before" with
  | VDict b =>
    before ← revision_from_dict b;
    size ← payload_int (dget_none d $"intended_size_bytes");
    observed ← optional_revision_from (dget_none d $"observed_after");
    v ← parse_verification (py_str (py_or (dget_none d $"verification") (VStr $"unknown")));
    expected ← optional_revision_from (dget_none d $"expected_before");
    Ok {| m_resolved_path := str_or_empty (dget_none d $"resolved_path");
          before := before;
          intended_after_sha256 := str_or_empty (dget_none d $"intended_after_sha256");
          intended_size_bytes := size;
          observed_after := observed;
          atomic_replace := truthy (dget_none d $"atomic_replace");
          verification := v;
          expected_before := expected;
          external_change_before_write := truthy (dget_none d $"external_change_before_write") |}
  | _ => Raise (ValueError $"mutation receipt is missing before revision")
  end.

Record WorkspaceError := {
  e_code : WorkspaceErrorCode;
  e_message : pystr;
  mutation_receipt : option WorkspaceMutationReceipt;
}.

Definition workspace_error (c : WorkspaceErrorCode) (m : pystr) : WorkspaceError :=
  {| e_code := c; e_message := m; mutation_receipt := None |}.

Record WorkspaceMutationResult := {
  old_content : option pystr;
  new_content : pystr;
  receipt : WorkspaceMutationReceipt;
}.

(** ** Calls on the workspace

    A call returns, raises a [WorkspaceError], or raises another exception. *)

Inductive wresult (A : Type) :=
| WOk (a : A)
| WError (e : WorkspaceError)
| WRaise (x : exn).
Arguments WOk {A} a.
Arguments WError {A} e.
Arguments WRaise {A} x.

Definition wst (W A : Type) : Type := W -> wresult A * W.

#[export] Instance wst_ret {W} : MRet (wst W) := fun A a w => (WOk a, w).
#[export] Instance wst_bind {W} : MBind (wst W) := fun A B f m w =>
  match m w with
  | (WOk a, w) => f a w
  | (WError e, w) => (WError e, w)
  | (WRaise x, w) => (WRaise x, w)
  end.

Definition w_lift {W A} (r : wresult A) : wst W A := fun w => (r, w).
Definition w_read {W A} (f : W -> wresult A) : wst W A := fun w => (f w, w).
Definition w_modify {W} (f : W -> W) : wst W () := fun w => (WOk (), f w).

(** ** UTF-8 *)

Definition utf8_char (c : Z) : list Z :=
  if c <? 128 then [c]
  else if c <? 2048 then [192 + c / 64; 128 + c mod 64]
  else if c <? 65536 then [224 + c / 4096; 128 + c / 64 mod 64; 128 + c mod 64]
  else [240 + c / 262144; 128 + c / 4096 mod 64; 128 + c / 64 mod 64; 128 + c mod 64].

(** Characters [str.encode("utf-8")] accepts: surrogates raise. *)
Definition encodable (s : pystr) : bool :=
  forallb (fun c => ((0 <=? c) && (c <? 55296)) || ((57344 <=? c) && (c <? 1114112))) s.

Definition utf8_encode (s : pystr) : result (list Z) :=
  if encodable s then Ok (concat (map utf8_char s))
  else Raise (ValueError $"surrogates not allowed").

(** [bytes.decode("utf-8", errors="replace")] and [hashlib.sha256(data).hexdigest()]. *)
Class Codec := {
  decode_replace : list Z -> pystr;
  sha256_hex : list Z -> pystr;
}.

Class CodecLaws `{Codec} := {
  decode_encode s b : utf8_encode s = Ok b -> decode_replace b = s;
  sha256_inj b b' : sha256_hex b = sha256_hex b' -> b = b';
}.

(** [Path(path).expanduser()], made absolute and resolved; [inl] is the
    message of the exception. *)
Class Paths := {
  normalize : pystr -> pystr + pystr;
}.

(** A resolved path is absolute and resolves to itself. *)
Class PathsLaws `{Paths} := {
  normalize_idem p r : normalize p = inr r -> r <> [] /\ normalize r = inr r;
}.

(** ** The disk and the other programs *)

(** Contents and modification times by resolved path. *)
Abbreviation Disk := (gmap pystr (list Z * Z)).

Inductive ReadOutcome := Reads | ReadsDirectory | ReadFails (message : pystr).
Inductive WriteIO := Replaced (mtime : Z) | WriteFails (message : pystr).

Record Env := {
  on_snapshot : Disk -> Disk;
  read_before : ReadOutcome;
  on_replace : Disk -> Disk;
  write_io : WriteIO;
  on_observe : Disk -> Disk;
  read_after : ReadOutcome;
}.

Section Local.
Context `{Codec} `{Paths} (root : pystr) (grants : list pystr).

Definition parts (p : pystr) : list pystr := filter non_empty (split_on 47 p).

Definition is_inside_root (resolved : pystr) : bool := bool_decide (parts root `prefix_of` parts resolved).

Definition resolve_candidate (p : pystr) : wresult pystr :=
  if bool_decide (p = []) then WError (workspace_error INVALID_PATH $"path must be a non-empty string")
  else match normalize p with
       | inr r => WOk r
       | inl m => WError (workspace_error INVALID_PATH ($"failed to resolve path " ++ p ++ $": " ++ m))
       end.

Definition resolve (p : pystr) : wresult pystr :=
  match resolve_candidate p with
  | WOk r =>
    if is_inside_root r || bool_decide (r ∈ grants) then WOk r
    else WError (workspace_error PATH_OUTSIDE_WORKSPACE ($"path escapes workspace root: " ++ p))
  | e => e
  end.

Definition missing_revision : WorkspaceRevision :=
  {| r_exists := false; r_sha256 := None; r_size_bytes := 0; r_mtime_ns := None;
     r_authoritative := true |}.

Definition file_revision (data : list Z) (mtime : Z) : WorkspaceRevision :=
  {| r_exists := true; r_sha256 := Some (sha256_hex data); r_size_bytes := len data;
     r_mtime_ns := Some mtime; r_authoritative := true |}.

Definition disk_revision (d : Disk) (p : pystr) : WorkspaceRevision :=
  match d !! p with
  | Some (data, mtime) => file_revision data mtime
  | None => missing_revision
  end.

Definition snapshot_text (p : pystr) (ro : ReadOutcome) : wst Disk WorkspaceDocumentSnapshot :=
  resolved ← w_lift (resolve p);
  w_read (fun d =>
    match ro with
    | Reads => WOk {| sn_resolved_path := resolved;
                      sn_content := decode_replace ∘ fst <$> d !! resolved;
                      sn_revision := disk_revision d resolved |}
    | ReadsDirectory => WError (workspace_error NOT_A_FILE (p ++ $" is not a file"))
    | ReadFails m => WError (workspace_error IO_ERROR ($"failed to read " ++ p ++ $": " ++ m))
    end).

Definition observed_verification (observed : option WorkspaceRevision) (intended_sha256 : pystr)
    (intended_size : Z) (before : WorkspaceRevision) (write_failed : bool)
    : WorkspaceMutationVerification :=
  match observed with
  | None => UNKNOWN
  | Some o =>
    let intended := {| r_exists := true; r_sha256 := Some intended_sha256;
                       r_size_bytes := intended_size; r_mtime_ns := None;
                       r_authoritative := true |} in
    if same_content o intended then APPLIED_VERIFIED
    else if write_failed && same_content o before then FAILED_UNCHANGED
    else DIVERGED
  end.

(** [_mutation_receipt]. *)
Definition mutation_receipt_of (resolved : pystr) (before : WorkspaceRevision) (intended : list Z)
    (expected : option WorkspaceRevision) (replaced write_failed : bool) (env : Env)
    : wst Disk WorkspaceMutationReceipt := fun d =>
  let '(r, d) := (_ ← w_modify (on_observe env); snapshot_text resolved (read_after env)) d in
  let observed := match r with WOk s => Some (sn_revision s) | _ => None end in
  (WOk {| m_resolved_path := resolved; before := before;
          intended_after_sha256 := sha256_hex intended; intended_size_bytes := len intended;
          observed_after := observed; atomic_replace := replaced;
          verification := observed_verification observed (sha256_hex intended) (len intended)
                            before write_failed;
          expected_before := expected;
          external_change_before_write :=
            match expected with Some e => negb (same_content e before) | None => false end |}, d).

(** [_write_text_verified]. *)
Definition write_base (p content : pystr) (expected required : option WorkspaceRevision) (env : Env)
    : wst Disk WorkspaceMutationResult :=
  resolved ← w_lift (resolve p);
  _ ← w_modify (on_snapshot env);
  s ← snapshot_text resolved (read_before env);
  if match required with Some q => negb (same_content (sn_revision s) q) | None => false end
  then w_lift (WError (workspace_error REVISION_CONFLICT
                         (p ++ $" changed before the prepared edit could be committed")))
  else
    encoded ← w_lift (match utf8_encode content with Ok b => WOk b | Raise x => WRaise x end);
    _ ← w_modify (on_replace env);
    match write_io env with
    | WriteFails m =>
      m' ← mutation_receipt_of resolved (sn_revision s) encoded expected false true env;
      w_lift (WError {| e_code := IO_ERROR; e_message := $"failed to write " ++ p ++ $": " ++ m;
                        mutation_receipt := Some m' |})
    | Replaced mtime =>
      _ ← w_modify (<[resolved := (encoded, mtime)]>);
      m' ← mutation_receipt_of resolved (sn_revision s) encoded expected true false env;
      mret {| old_content := sn_content s; new_content := content; receipt := m' |}
    end.

Definition write_text_verified (p content : pystr) (expected : option WorkspaceRevision) (env : Env)
    : wst Disk WorkspaceMutationResult := write_base p content expected None env.

(** ** Exact replacement *)

(** [s.count(old)]: occurrences that do not overlap. *)
Fixpoint count_from (o : pystr) (skip : nat) (s : pystr) : Z :=
  match s with
  | [] => 0
  | _ :: s' =>
    match skip with
    | S k => count_from o k s'
    | O => if startswith s o then 1 + count_from o (length o - 1) s' else count_from o 0 s'
    end
  end.

Definition py_count (s o : pystr) : Z :=
  match o with [] => len s + 1 | _ => count_from o 0 s end.

(** [s.replace(old, new, 1)]. *)
Fixpoint replace_first (o n s : pystr) : pystr :=
  if startswith s o then n ++ drop (length o) s
  else match s with [] => [] | c :: s' => c :: replace_first o n s' end.

(** The snapshot an attempt starts from, and the write. *)
Record AttemptEnv := { before_attempt : Disk -> Disk; attempt_read : ReadOutcome; attempt_write : Env }.

Definition replace_attempt (p o n : pystr) (expected : option WorkspaceRevision) (env : AttemptEnv)
    : wst Disk WorkspaceMutationResult :=
  _ ← w_modify (before_attempt env);
  s ← snapshot_text p (attempt_read env);
  match sn_content s with
  | None => w_lift (WError (workspace_error NOT_FOUND (p ++ $" not found")))
  | Some content =>
    let occurrences := py_count content o in
    if occurrences =? 0 then w_lift (WError (workspace_error NOT_FOUND $"old text was not found"))
    else if 1 <? occurrences
    then w_lift (WError (workspace_error NOT_UNIQUE ($"old text occurs " ++ z_str occurrences ++ $" times")))
    else write_base p (replace_first o n content) expected (Some (sn_revision s)) (attempt_write env)
  end.

Fixpoint replace_attempts (p o n : pystr) (expected : option WorkspaceRevision)
    (envs : list AttemptEnv) : wst Disk WorkspaceMutationResult :=
  match envs with
  | [] => w_lift (WError (workspace_error REVISION_CONFLICT
                            (p ++ $" kept changing while the edit was being prepared")))
  | env :: envs => fun d =>
    match replace_attempt p o n expected env d with
    | (WError e, d) =>
      if bool_decide (e_code e = REVISION_CONFLICT) then replace_attempts p o n expected envs d
      else (WError e, d)
    | r => r
    end
  end.

(** Three attempts. *)
Definition replace_exact_verified (p o n : pystr) (expected : option WorkspaceRevision)
    (env1 env2 env3 : AttemptEnv) : wst Disk WorkspaceMutationResult :=
  if bool_decide (o = n)
  then w_lift (WError (workspace_error INVALID_PATH $"old and new values must differ"))
  else replace_attempts p o n expected [env1; env2; env3].
End Local.

(** ** Receipts survive the wire *)

Lemma revision_trip `{PyCoercions} r : revision_from_dict (revision_to_dict r) = Ok r.
Proof.
  unfold revision_from_dict, revision_to_dict, dget_none, dget_or. autorewrite with pydict.
  cbn [default from_option id payload_int py_int zero_if_invalid mbind result_bind truthy].
  rewrite optional_str_of. by destruct r as [e s n [m|] a].
Qed.

Lemma verification_trip v : parse_verification (verification_value v) = Ok v.
Proof. by destruct v. Qed.

Lemma optional_revision_trip `{PyCoercions} r : optional_revision_from (optional_revision r) = Ok r.
Proof. destruct r as [r|]; [|done]. cbn [optional_revision optional_revision_from]. by rewrite revision_trip. Qed.

(** A mutation receipt is read back exactly as it was written, whatever the
    revisions and the verification are. *)
Theorem receipt_round_trip `{PyCoercions} m : receipt_from_dict (receipt_to_dict m) = Ok m.
Proof.
  unfold receipt_from_dict, receipt_to_dict, dget_none. autorewrite with pydict. cbn [default from_option id].
  rewrite revision_trip, !optional_revision_trip, !str_or_empty_str.
  cbn [mbind result_bind payload_int py_int zero_if_invalid truthy].
  replace (py_str (py_or (VStr (verification_value (verification m))) (VStr $"unknown")))
    with (verification_value (verification m)) by (by destruct (verification m)).
  rewrite verification_trip. cbn [mbind result_bind]. by destruct m.
Qed.

(** ** What a write does *)

Section Laws.
Context `{CodecLaws} `{PathsLaws} (root : pystr) (grants : list pystr).
Local Abbreviation resolve := (resolve root grants).
Local Abbreviation snapshot_text := (snapshot_text root grants).
Local Abbreviation write_base := (write_base root grants).

Lemma resolve_spec p r :
  resolve p = WOk r -> normalize p = inr r /\ resolve r = WOk r.
Proof.
  unfold resolve, resolve_candidate. case_bool_decide as Hp; [done|].
  destruct (normalize p) as [m|r'] eqn:Hn; [done|].
  destruct (is_inside_root root r' || bool_decide (r' ∈ grants)) eqn:E; [|done]. intros [= ->].
  split; [done|]. destruct (normalize_idem p r Hn) as [Hne Hr].
  by rewrite bool_decide_eq_false_2, Hr, E.
Qed.

Lemma same_content_spec d d' p :
  same_content (disk_revision d p) (disk_revision d' p) = true <-> fst <$> d !! p = fst <$> d' !! p.
Proof.
  unfold same_content, disk_revision. rewrite !andb_true_iff, !bool_decide_eq_true, Z.eqb_eq.
  destruct (d !! p) as [[b m]|], (d' !! p) as [[b' m']|]; cbn; split; try naive_solver.
  intros [[_ [= Hs]] _]. by apply sha256_inj in Hs as ->.
Qed.

Lemma same_intended d p b :
  same_content (disk_revision d p)
    {| r_exists := true; r_sha256 := Some (sha256_hex b); r_size_bytes := len b; r_mtime_ns := None;
       r_authoritative := true |} = true <-> fst <$> d !! p = Some b.
Proof.
  unfold same_content, disk_revision. rewrite !andb_true_iff, !bool_decide_eq_true, Z.eqb_eq.
  destruct (d !! p) as [[b' m']|]; cbn; split; try naive_solver.
  intros [[_ [= Hs]] _]. by apply sha256_inj in Hs as ->.
Qed.

(** What a receipt says of the disk [d] that was there before the write and the
    disk [d'] left after it. *)
Definition truthful (m : WorkspaceMutationReceipt) (content : pystr) (d d' : Disk) : Prop :=
  let t := m_resolved_path m in
  before m = disk_revision d t /\
  (verification m = APPLIED_VERIFIED -> exists b, utf8_encode content = Ok b /\ fst <$> d' !! t = Some b) /\
  (verification m = FAILED_UNCHANGED -> atomic_replace m = false /\ fst <$> d' !! t = fst <$> d !! t) /\
  (verification m = DIVERGED -> forall b, utf8_encode content = Ok b -> fst <$> d' !! t <> Some b) /\
  (verification m = UNKNOWN <-> observed_after m = None).

Lemma receipt_spec resolved before0 b expected replaced failed env d content d0 :
  resolve resolved = WOk resolved -> utf8_encode content = Ok b ->
  before0 = disk_revision d0 resolved -> (failed = true -> replaced = false) ->
  exists m, mutation_receipt_of root grants resolved before0 b expected replaced failed env d
      = (WOk m, on_observe env d) /\
    m_resolved_path m = resolved /\ atomic_replace m = replaced /\
    expected_before m = expected /\
    external_change_before_write m =
      match expected with Some e => negb (same_content e before0) | None => false end /\
    truthful m content d0 (on_observe env d).
Proof.
  intros Hr Hb -> Hf. unfold mutation_receipt_of.
  assert (Hobs : exists r, (_ ← w_modify (on_observe env); snapshot_text resolved (read_after env)) d
              = (r, on_observe env d) /\
            (match r with WOk s => Some (sn_revision s) | _ => None end = None \/
             match r with WOk s => Some (sn_revision s) | _ => None end
             = Some (disk_revision (on_observe env d) resolved))).
  { unfold Workspace.snapshot_text. cbn [mbind wst_bind w_modify w_lift w_read]. rewrite Hr.
    destruct (read_after env); eexists; (split; [reflexivity|]); auto. }
  destruct Hobs as (r & -> & Hobs). eexists. split; [reflexivity|].
  cbn [m_resolved_path atomic_replace expected_before external_change_before_write].
  do 4 (split; [done|]). unfold truthful, observed_verification.
  cbn [before m_resolved_path verification atomic_replace observed_after].
  destruct Hobs as [-> | ->]; [by split_and!|].
  destruct (same_content (disk_revision (on_observe env d) resolved) _) eqn:E.
  - split_and!; try done. intros _. exists b. split; [done|]. by apply same_intended.
  - destruct (failed && same_content (disk_revision (on_observe env d) resolved) (disk_revision d0 resolved)) eqn:E2.
    + apply andb_true_iff in E2 as [-> E2]. split_and!; try done. intros _. split; [auto|]. by apply same_content_spec.
    + split_and!; try done. intros _ b' [= <-]%(eq_trans (eq_sym Hb)) Hd. apply same_intended in Hd. congruence.
Qed.

(** Everything a write can do: it fails before touching the disk, or it leaves a
    truthful receipt. *)
Inductive write_outcome (p content : pystr) (expected : option WorkspaceRevision) (env : Env) (d : Disk)
    : wresult WorkspaceMutationResult -> Disk -> Prop :=
| write_refused r d' :
    match r with WOk _ => False | WError e => mutation_receipt e = None | WRaise _ => True end ->
    d' = d \/ d' = on_snapshot env d ->
    write_outcome p content expected env d r d'
| write_done t b mtime m :
    normalize p = inr t -> utf8_encode content = Ok b -> write_io env = Replaced mtime ->
    m_resolved_path m = t -> atomic_replace m = true -> expected_before m = expected ->
    external_change_before_write m = match expected with
      | Some e => negb (same_content e (disk_revision (on_snapshot env d) t)) | None => false end ->
    truthful m content (on_snapshot env d)
      (on_observe env (<[t := (b, mtime)]> (on_replace env (on_snapshot env d)))) ->
    write_outcome p content expected env d
      (WOk {| old_content := decode_replace ∘ fst <$> on_snapshot env d !! t; new_content := content;
              receipt := m |})
      (on_observe env (<[t := (b, mtime)]> (on_replace env (on_snapshot env d))))
| write_failed t e m :
    normalize p = inr t -> mutation_receipt e = Some m -> e_code e = IO_ERROR ->
    m_resolved_path m = t -> atomic_replace m = false -> expected_before m = expected ->
    external_change_before_write m = match expected with
      | Some e => negb (same_content e (disk_revision (on_snapshot env d) t)) | None => false end ->
    truthful m content (on_snapshot env d) (on_observe env (on_replace env (on_snapshot env d))) ->
    write_outcome p content expected env d (WError e)
      (on_observe env (on_replace env (on_snapshot env d))).

Lemma write_base_spec p content expected required env d :
  let '(r, d') := write_base p content expected required env d in
  write_outcome p content expected env d r d' /\
  (forall q t, required = Some q -> is_ok (match r with WOk _ => Ok () | _ => Raise (OtherError []) end) = true ->
     normalize p = inr t -> same_content (disk_revision (on_snapshot env d) t) q = true).
Proof.
  unfold write_base, Workspace.write_base, Workspace.snapshot_text, mbind, wst_bind, w_lift, w_modify,
    w_read, mret, wst_ret. cbv beta iota.
  destruct (resolve p) as [t|e|x] eqn:Hr.
  2:{ split; [|done]. apply write_refused; [|by left]. unfold resolve, resolve_candidate in Hr.
      repeat (case_match; simplify_eq/=); done. }
  2:{ split; [|done]. by apply write_refused; [|left]. }
  destruct (resolve_spec p t Hr) as [Hn Hrt]. cbv beta iota. rewrite Hrt.
  destruct (read_before env); cbn [sn_revision sn_content];
    [|split; [|done]; apply write_refused; [done|by right]..].
  destruct (match required with Some q => _ | None => false end) eqn:Hq.
  { split; [|done]. apply write_refused; [done|by right]. }
  destruct (utf8_encode content) as [b|x] eqn:Hb; [|split; [|done]; apply write_refused; [done|by right]].
  assert (Hreq : forall q t', required = Some q -> normalize p = inr t' ->
            same_content (disk_revision (on_snapshot env d) t') q = true).
  { intros q t' -> Hn'. rewrite Hn in Hn'. injection Hn' as <-. by apply negb_false_iff in Hq. }
  destruct (write_io env) as [mtime|msg] eqn:Hio.
  - destruct (receipt_spec t _ b expected true false env (<[t := (b, mtime)]> (on_replace env (on_snapshot env d)))
      content (on_snapshot env d) Hrt Hb eq_refl ltac:(done)) as (m & -> & Ht & Ha & He & Hx & Htr).
    split; [|intros; by eapply Hreq]. by eapply write_done.
  - destruct (receipt_spec t _ b expected false true env (on_replace env (on_snapshot env d))
      content (on_snapshot env d) Hrt Hb eq_refl ltac:(done)) as (m & -> & Ht & Ha & He & Hx & Htr).
    split; [|done]. by eapply (write_failed _ _ _ _ _ t _ m).
Qed.

(** C23: A verified write tells the truth about the disk, whatever other programs
    do meanwhile.  A receipt that says applied means the file now holds the
    content; unchanged means the write failed and the file holds what it held;
    diverged means it does not hold the content; unknown means it could not be
    read; and an external change is reported exactly when the file was not at
    the expected revision.  Without a receipt the write touched nothing. *)
Theorem write_truthful p content expected env d :
  let '(r, d') := write_text_verified root grants p content expected env d in
  let told m := truthful m content (on_snapshot env d) d' /\
    normalize p = inr (m_resolved_path m) /\ expected_before m = expected /\
    (external_change_before_write m = true <->
     exists e, expected = Some e /\ same_content e (before m) = false) in
  match r with
  | WOk x => new_content x = content /\ atomic_replace (receipt x) = true /\ told (receipt x)
  | WError e =>
    match mutation_receipt e with
    | Some m => atomic_replace m = false /\ told m
    | None => d' = d \/ d' = on_snapshot env d
    end
  | WRaise _ => d' = d \/ d' = on_snapshot env d
  end.
Proof.
  pose proof (write_base_spec p content expected None env d) as Hw. unfold write_text_verified.
  destruct (write_base p content expected None env d) as [r d']. destruct Hw as [Hw _].
  assert (Hx : forall m, before m = disk_revision (on_snapshot env d) (m_resolved_path m) ->
            external_change_before_write m = match expected with
              | Some e => negb (same_content e (disk_revision (on_snapshot env d) (m_resolved_path m))) | None => false end ->
            external_change_before_write m = true <->
            exists e, expected = Some e /\ same_content e (before m) = false).
  { intros m -> ->. destruct expected as [e|]; [|by split; [|intros (? & ? & _)]].
    rewrite negb_true_iff. split; [intros Hf; by exists e|intros (e' & [= <-] & Hf); done]. }
  destruct Hw as [r d' Hr Hd|t b mtime m Hn Hb Hio Ht Ha He Hc Htr|t e m Hn Hm Hcode Ht Ha He Hc Htr].
  - destruct r as [x|e|x]; [done| |done]. by rewrite Hr.
  - cbn [receipt new_content]. subst t. split; [done|]. split; [done|]. split; [done|]. split; [done|].
    split; [done|]. apply Hx; [by destruct Htr|done].
  - rewrite Hm. subst t. split; [done|]. split; [done|]. split; [done|]. split; [done|].
    apply Hx; [by destruct Htr|done].
Qed.

(** ** Exact replacement *)

(** [pre] ends where the first occurrence of [o] starts. *)
Definition first_occurrence (o s pre post : pystr) : Prop :=
  s = pre ++ o ++ post /\
  forall pre' post', s = pre' ++ o ++ post' -> (length pre <= length pre')%nat.

Lemma count_from_nonneg o s : forall skip, 0 <= count_from o skip s.
Proof.
  induction s as [|c s IH]; intros skip; cbn; [done|]. destruct skip; [|done].
  destruct (startswith _ _); [|done]. specialize (IH (length o - 1)%nat). lia.
Qed.

Lemma replace_first_spec o n s :
  py_count s o <> 0 -> exists pre post, first_occurrence o s pre post /\
    replace_first o n s = pre ++ n ++ post.
Proof.
  intros Hc. assert (Hcnt : o = [] \/ count_from o 0 s <> 0) by (destruct o; auto). clear Hc.
  induction s as [|c s IH].
  - destruct Hcnt as [->|Hcnt]; [|done]. exists [], []. split; [split; [done|cbn; lia]|by cbn].
  - cbn [replace_first]. destruct (startswith (c :: s) o) eqn:E.
    + unfold startswith in E. apply bool_decide_eq_true in E as [k ->]. exists [], k.
      split; [split; [done|cbn; lia]|]. by rewrite drop_app_length.
    + assert (Hne : forall post', c :: s <> o ++ post').
      { intros post' Heq. unfold startswith in E. apply bool_decide_eq_false in E. apply E. by exists post'. }
      destruct IH as (pre & post & [-> Hmin] & ->).
      { destruct Hcnt as [->|Hcnt]; [by left|right]. cbn in Hcnt. by rewrite E in Hcnt. }
      exists (c :: pre), post. split; [split; [done|]|done].
      intros [|x pre'] post' Heq; [by apply Hne in Heq|]. cbn. injection Heq as _ Heq. specialize (Hmin pre' post' Heq). lia.
Qed.

Lemma py_count_nonneg s o : 0 <= py_count s o.
Proof. destruct o; [pose proof (len_nonneg s); cbn; lia|apply count_from_nonneg]. Qed.

(** What a successful edit did. *)
Definition edited (o n : pystr) (x : WorkspaceMutationResult) : Prop :=
  exists content pre post, old_content x = Some content /\ py_count content o = 1 /\
    first_occurrence o content pre post /\ new_content x = pre ++ n ++ post.

Lemma replace_attempt_spec p o n expected env d :
  let '(r, d') := replace_attempt root grants p o n expected env d in
  forall x, r = WOk x -> edited o n x /\
    truthful (receipt x) (new_content x) (on_snapshot (attempt_write env) (before_attempt env d)) d'.
Proof.
  unfold replace_attempt, Workspace.snapshot_text, mbind, wst_bind, w_lift, w_modify, w_read. cbv beta iota.
  destruct (resolve p) as [t| |] eqn:Hr; [|done..]. destruct (attempt_read env); [|done..].
  cbn [sn_content sn_revision]. set (d1 := before_attempt env d).
  destruct (decode_replace ∘ fst <$> d1 !! t) as [content|] eqn:Hcont; [|done].
  destruct (py_count content o =? 0) eqn:E0; [done|]. destruct (1 <? py_count content o) eqn:E1; [done|].
  apply Z.eqb_neq in E0. apply Z.ltb_ge in E1.
  pose proof (write_base_spec p (replace_first o n content) expected (Some (disk_revision d1 t))
    (attempt_write env) d1) as Hw.
  destruct (write_base p _ _ _ _ d1) as [r d']. destruct Hw as [Hw Hreq]. intros x ->.
  destruct (resolve_spec p t Hr) as [Hn _]. specialize (Hreq _ t eq_refl eq_refl Hn).
  apply same_content_spec in Hreq.
  inversion Hw as [? ? Hf|t' b mtime m Hn' Hb Hio Ht Ha He Hc Htr|]; subst; [done|].
  rewrite Hn in Hn'. injection Hn' as Ht'. split; [|exact Htr].
  destruct (replace_first_spec o n content E0) as (pre & post & Hfirst & Heq).
  exists content, pre, post. cbn [old_content new_content]. pose proof (py_count_nonneg content o).
  split_and!; [|lia|done|done]. rewrite <- Hcont, <- Ht'.
  assert (Hfst : forall q : option (list Z * Z), decode_replace ∘ fst <$> q = decode_replace <$> (fst <$> q))
    by (by intros [[]|]).
  by rewrite !Hfst, Hreq.
Qed.

(** A successful edit replaces the one occurrence that was counted.  However
    often the file changes between the attempts, the content the edit was
    computed from is the content the file had when it was checked for the write:
    the old text was counted once in it, and the new content differs from it in
    the first occurrence only; the receipt is truthful. *)
Theorem edit_replaces_counted_occurrence p o n expected env1 env2 env3 d :
  let '(r, d') := replace_exact_verified root grants p o n expected env1 env2 env3 d in
  forall x, r = WOk x ->
    (exists content pre post, old_content x = Some content /\ py_count content o = 1 /\
       first_occurrence o content pre post /\ new_content x = pre ++ n ++ post) /\
    exists d0, truthful (receipt x) (new_content x) d0 d'.
Proof.
  unfold replace_exact_verified. case_bool_decide; [done|].
  generalize [env1; env2; env3]. intros envs. revert d. induction envs as [|env envs IH]; intros d; [done|].
  cbn [replace_attempts]. pose proof (replace_attempt_spec p o n expected env d) as Ha.
  destruct (replace_attempt root grants p o n expected env d) as [[x|e|x] d1].
  - intros x' [= <-]. destruct (Ha x eq_refl) as [He Ht]. split; [exact He|]. by eexists.
  - destruct (bool_decide (e_code e = REVISION_CONFLICT)); [apply IH|done].
  - done.
Qed.

(** ** Without interference *)

Definition quiet (mtime : Z) : Env :=
  {| on_snapshot := id; read_before := Reads; on_replace := id; write_io := Replaced mtime;
     on_observe := id; read_after := Reads |}.

Lemma write_quiet p t content b expected mtime d :
  resolve p = WOk t -> utf8_encode content = Ok b ->
  exists x, write_text_verified root grants p content expected (quiet mtime) d
      = (WOk x, <[t := (b, mtime)]> d) /\
    new_content x = content /\ m_resolved_path (receipt x) = t /\
    verification (receipt x) = APPLIED_VERIFIED /\
    before (receipt x) = disk_revision d t /\ atomic_replace (receipt x) = true.
Proof.
  intros Hr Hb. destruct (resolve_spec p t Hr) as [_ Hrt].
  destruct (receipt_spec t (disk_revision d t) b expected true false (quiet mtime) (<[t := (b, mtime)]> d)
    content d Hrt Hb eq_refl ltac:(done)) as (m & Hm & Ht & Ha & _ & _ & Htr).
  unfold write_text_verified, Workspace.write_base, Workspace.snapshot_text, mbind, wst_bind, w_lift,
    w_modify, w_read, mret, wst_ret. cbv beta iota. rewrite Hr, Hrt.
  cbn [quiet on_snapshot read_before on_replace write_io sn_revision sn_content id]. rewrite Hb.
  fold (quiet mtime). rewrite Hm. eexists. split; [reflexivity|]. cbn [receipt new_content].
  destruct Htr as (Hbef & _ & Hfail & Hdiv & Hunk). rewrite Ht in *. split_and!; try done.
  cbn [quiet on_observe id] in *. rewrite lookup_insert_eq in *.
  destruct (verification m) eqn:Ev; [done|..].
  - destruct (Hfail eq_refl) as [? _]. congruence.
  - exfalso. by apply (Hdiv eq_refl b Hb).
  - exfalso. destruct Hunk as [Hu _]. specialize (Hu eq_refl). revert Hm.
    unfold mutation_receipt_of, Workspace.snapshot_text, mbind, wst_bind, w_lift, w_modify, w_read. cbv beta iota.
    rewrite Hrt. cbn [quiet read_after on_observe id]. intros [= <-]. done.
Qed.
End Laws.

(** ** Concrete parameters *)

(** A decoder for well-formed input, identity as digest, and paths that are
    already normal. *)
Fixpoint decode_valid (l : list Z) : pystr :=
  match l with
  | [] => []
  | a :: l1 =>
    if a <? 128 then a :: decode_valid l1 else
    match l1 with
    | [] => [65533]
    | b :: l2 =>
      if a <? 224 then ((a - 192) * 64 + (b - 128)) :: decode_valid l2 else
      match l2 with
      | [] => [65533]
      | c :: l3 =>
        if a <? 240 then ((a - 224) * 4096 + (b - 128) * 64 + (c - 128)) :: decode_valid l3 else
        match l3 with
        | [] => [65533]
        | d :: l4 =>
          ((a - 240) * 262144 + (b - 128) * 4096 + (c - 128) * 64 + (d - 128)) :: decode_valid l4
        end
      end
    end
  end.

Lemma decode_valid_char c l : 0 <= c < 1114112 -> decode_valid (utf8_char c ++ l) = c :: decode_valid l.
Proof.
  intros Hc. unfold utf8_char.
  assert (H64 : 64 * (c / 64) + c mod 64 = c /\ 0 <= c mod 64 < 64).
  { split; [symmetry; apply Z.div_mod|apply Z.mod_pos_bound]; lia. }
  assert (H4096 : 64 * (c / 4096) + c / 64 mod 64 = c / 64 /\ 0 <= c / 64 mod 64 < 64).
  { change 4096 with (64 * 64). rewrite <- Z.div_div by lia. split; [symmetry; apply Z.div_mod|apply Z.mod_pos_bound]; lia. }
  assert (H262144 : 64 * (c / 262144) + c / 4096 mod 64 = c / 4096 /\ 0 <= c / 4096 mod 64 < 64).
  { change 262144 with (4096 * 64). rewrite <- Z.div_div by lia. split; [symmetry; apply Z.div_mod|apply Z.mod_pos_bound]; lia. }
  destruct (c <? 128) eqn:E1; cbn [app decode_valid]; [by rewrite E1|]. zbool.
  destruct (c <? 2048) eqn:E2; zbool; cbn [app decode_valid].
  { rewrite (proj2 (Z.ltb_ge _ _)), (proj2 (Z.ltb_lt _ _)) by lia. f_equal. lia. }
  destruct (c <? 65536) eqn:E3; zbool; cbn [app decode_valid].
  { rewrite !(proj2 (Z.ltb_ge _ _)), (proj2 (Z.ltb_lt _ _)) by lia. f_equal. lia. }
  rewrite !(proj2 (Z.ltb_ge _ _)) by lia. f_equal. lia.
Qed.

#[local] Instance example_codec : Codec := {| decode_replace := decode_valid; sha256_hex := fun b => b |}.

#[local] Instance example_codec_laws : @CodecLaws example_codec.
Proof.
  split; [|done]. cbn. unfold utf8_encode. intros s b. destruct (encodable s) eqn:E; [|done]. intros [= <-].
  induction s as [|c s IH]; [done|]. cbn in E. apply andb_true_iff in E as [Hc E].
  cbn [map concat]. rewrite decode_valid_char, IH; [done|done|].
  apply orb_true_iff in Hc as [[? ?]%andb_true_iff|[? ?]%andb_true_iff]; zbool; lia.
Qed.

#[local] Instance example_paths : Paths :=
  {| normalize p := match p with [] => inl [] | _ => inr p end |}.

#[local] Instance example_paths_laws : @PathsLaws example_paths.
Proof. constructor. intros [|c p] r; cbn; [done|]. by intros [= <-]. Qed.

Definition example_disk : Disk := {[ $"/w/a" := ($"old text", 1) ]}.

(** The expected revision is stale, so the write reports the external change. *)
Definition stale : WorkspaceRevision :=
  {| r_exists := true; r_sha256 := Some $"other"; r_size_bytes := 5; r_mtime_ns := None;
     r_authoritative := true |}.

Local Abbreviation example_write :=
  (write_text_verified (H := example_codec) (H0 := example_paths) $"/w" [] $"/w/a" $"new" (Some stale)
     (quiet 2) example_disk).

Lemma write_truthful_witness :
  match example_write with
  | (WOk x, d') => truthful (receipt x) $"new" example_disk d' /\
                   external_change_before_write (receipt x) = true
  | _ => False
  end.
Proof.
  pose proof (write_truthful (H := example_codec) (H1 := example_paths) $"/w" [] $"/w/a" $"new"
    (Some stale) (quiet 2) example_disk) as Hw.
  destruct example_write as [r d'] eqn:E. vm_compute in E. injection E as Er Ed. subst r.
  destruct Hw as (_ & _ & Ht & _). split; [exact Ht|reflexivity].
Defined.

Lemma edit_replaces_counted_occurrence_witness :
  let env := {| before_attempt := id; attempt_read := Reads; attempt_write := quiet 2 |} in
  match replace_exact_verified (H := example_codec) (H0 := example_paths) $"/w" [] $"/w/a" $"old" $"new"
          None env env env example_disk with
  | (WOk x, d') => new_content x = $"new text" /\
    exists content pre post, old_content x = Some content /\ py_count content $"old" = 1 /\
      first_occurrence $"old" content pre post /\ new_content x = pre ++ $"new" ++ post
  | _ => False
  end.
Proof.
  intros env. pose proof (edit_replaces_counted_occurrence (H := example_codec) (H1 := example_paths)
    $"/w" [] $"/w/a" $"old" $"new" None env env env example_disk) as Hw.
  destruct (replace_exact_verified _ _ _ _ _ _ _ _ _ _) as [r d'] eqn:E. vm_compute in E.
  injection E as Er Ed. subst r. destruct (Hw _ eq_refl) as [He _]. split; [reflexivity|exact He].
Defined.

(** Occurrences that overlap are counted once, so a text that stands twice can
    be replaced as if it were unique. *)
Lemma overlapping_occurrences_count_once : py_count $"aaa" $"aa" = 1.
Proof. reflexivity. Qed.

(** The expected revision does not stop a write: it only marks the receipt. *)
Lemma stale_write_goes_through :
  match example_write with (WOk x, d') => fst <$> d' !! $"/w/a" = Some $"new" | _ => False end.
Proof. by vm_compute. Qed.
