(* ===== verification/PatchText.v ===== *)
(** * Patch documents (extensions/tools/builtin/patch.py)

    The text side of the [apply_patch] tool: [parse_patch] reads a document of
    the format the tool describes, and [apply_hunks] applies the hunks of one
    file to its content.  The loops of the parser run on fuel; the number of
    lines is enough, since every round consumes one. *)

From S2P Require Import Prelude PyValue Lines.

Record Hunk := { old : list pystr; new : list pystr }.
Record PatchFile := { path : pystr; add : bool; hunks : list Hunk }.

#[export] Instance hunk_dec : EqDecision Hunk.
Proof. solve_decision. Defined.

Definition BEGIN_PATCH : pystr := $"*** Begin Patch".
Definition END_PATCH : pystr := $"*** End Patch".
Definition ADD_FILE : pystr := $"*** Add File: ".
Definition UPDATE_FILE : pystr := $"*** Update File: ".

(** ** The parser *)

(** [header.split(": ", 1)[1]]. *)
Fixpoint after_colon (s : pystr) : pystr :=
  match s with
  | [] => []
  | c :: s' => if startswith s $": " then drop 2 s else after_colon s'
  end.

Definition is_header (l : pystr) : bool := startswith l UPDATE_FILE || startswith l ADD_FILE.

(** The lines of an Add File section, and the lines after it. *)
Fixpoint take_added (p : pystr) (lines : list pystr) : result (list pystr * list pystr) :=
  match lines with
  | [] => Ok ([], [])
  | l :: rest =>
    if startswith l $"*** " then Ok ([], lines)
    else if negb (startswith l $"+")
    then Raise (ValueError ($"Add File " ++ p ++ $" accepts only + lines"))
    else r ← take_added p rest; Ok (drop 1 l :: r.1, r.2)
  end.

(** The lines of a hunk, and the lines after it. *)
Fixpoint take_hunk (p : pystr) (lines : list pystr)
    : result (list pystr * list pystr * list pystr) :=
  match lines with
  | [] => Ok ([], [], [])
  | l :: rest =>
    if startswith l $"@@" || startswith l $"*** " then Ok ([], [], lines)
    else
      let marker := take 1 l in
      let text := drop 1 l in
      if negb (bool_decide (marker ∈ [$" "; $"-"; $"+"]))
      then Raise (ValueError ($"invalid hunk line in " ++ p ++ $": " ++ repr_str l))
      else
        r ← take_hunk p rest;
        let '(o, n, rest') := r in
        Ok (if bool_decide (marker ∈ [$" "; $"-"]) then text :: o else o,
            if bool_decide (marker ∈ [$" "; $"+"]) then text :: n else n, rest')
  end.

Definition out_of_fuel : exn := OtherError $"fuel".

(** The hunks of an Update File section.  [last] is the index of the last line
    of the patch, so that a line is numbered by what follows it. *)
Definition line_number (last : Z) (lines : list pystr) : pystr := z_str (last - len lines + 1).

Fixpoint take_hunks (fuel : nat) (p : pystr) (last : Z) (lines : list pystr)
    : result (list Hunk * list pystr) :=
  match lines with
  | [] => Ok ([], [])
  | l :: rest =>
    if is_header l then Ok ([], lines)
    else if negb (startswith l $"@@")
    then Raise (ValueError ($"expected @@ hunk in " ++ p ++ $" at patch line " ++ line_number last lines))
    else match fuel with
    | O => Raise out_of_fuel
    | S fuel =>
      r ← take_hunk p rest;
      let '(o, n, rest') := r in
      _ ← raise_if (bool_decide (o = []))
        (ValueError ($"each update hunk in " ++ p ++ $" needs context or removed lines"));
      _ ← raise_if (bool_decide (o = n))
        (ValueError ($"hunk in " ++ p ++ $" does not change anything"));
      more ← take_hunks fuel p last rest';
      Ok ({| old := o; new := n |} :: more.1, more.2)
    end
  end.

(** One section: the file and the lines after it. *)
Definition parse_file (files : list PatchFile) (last : Z) (lines : list pystr)
    : result (PatchFile * list pystr) :=
  match lines with
  | [] => Raise out_of_fuel
  | header :: rest =>
    let is_add := startswith header ADD_FILE in
    if negb is_add && negb (startswith header UPDATE_FILE)
    then Raise (ValueError ($"expected Update File or Add File at patch line " ++ line_number last lines))
    else
      let p := strip (after_colon header) in
      _ ← raise_if (bool_decide (p = [])) (ValueError $"patch file path must not be empty");
      _ ← raise_if (existsb (fun f => bool_decide (path f = p)) files)
        (ValueError ($"duplicate patch file: " ++ p));
      r ← (if is_add
           then r ← take_added p rest; Ok ([{| old := []; new := r.1 |}], r.2)
           else
             r ← take_hunks (length rest) p last rest;
             _ ← raise_if (bool_decide (r.1 = []))
               (ValueError ($"Update File " ++ p ++ $" needs at least one @@ hunk"));
             Ok r);
      _ ← raise_if (200 <? len r.1) (ValueError $"a file may contain at most 200 hunks");
      Ok ({| path := p; add := is_add; hunks := r.1 |}, r.2)
  end.

Fixpoint parse_files (fuel : nat) (files : list PatchFile) (last : Z) (lines : list pystr)
    : result (list PatchFile) :=
  match lines with
  | [] => Ok files
  | _ =>
    match fuel with
    | O => Raise out_of_fuel
    | S fuel =>
      r ← parse_file files last lines;
      let files := files ++ [r.1] in
      _ ← raise_if (20 <? len files) (ValueError $"a patch may contain at most 20 files");
      parse_files fuel files last r.2
    end
  end.

Definition parse_patch (patch : pystr) : result (list PatchFile) :=
  if 256000 <? len patch
  then Raise (ValueError $"patch must be a string of at most 256000 characters")
  else
    let lines := splitlines patch in
    if (len lines <? 3) || negb (bool_decide (head lines = Some BEGIN_PATCH))
       || negb (bool_decide (last lines = Some END_PATCH))
    then Raise (ValueError $"patch must start with *** Begin Patch and end with *** End Patch")
    else
      let body := removelast (drop 1 lines) in
      parse_files (length body) [] (len lines - 1) body.

(** ** Applying hunks *)

(** The positions of [range(cursor, len(lines) - len(old) + 1)] where [old] stands. *)
Definition match_positions (lines o : list pystr) (cursor : nat) : list nat :=
  filter (fun i => take (length o) (drop i lines) = o)
    (seq cursor (length lines + 1 - length o - cursor)).

Fixpoint apply_loop (p : pystr) (lines : list pystr) (cursor : nat) (hs : list Hunk)
    : result (list pystr) :=
  match hs with
  | [] => Ok lines
  | h :: hs =>
    match match_positions lines (old h) cursor with
    | [start] =>
      let lines := take start lines ++ new h ++ drop (start + length (old h)) lines in
      apply_loop p lines (start + length (new h)) hs
    | [] => Raise (ValueError ($"hunk not found in " ++ p ++ $"; include more exact context"))
    | _ => Raise (ValueError ($"hunk not unique in " ++ p ++ $"; include more exact context"))
    end
  end.

Definition apply_hunks (content : pystr) (hs : list Hunk) (p : pystr) : result pystr :=
  let newline := if py_contains [13; 10] content then [13; 10] else [10] in
  lines ← apply_loop p (splitlines content) 0 hs;
  Ok (join newline lines
      ++ if endswith content [10] || endswith content [13] then newline else []).

Example parse_example :
  parse_patch (join [10] [BEGIN_PATCH; $"*** Update File: a.py"; $"@@"; $" x"; $"-y"; $"+z"; END_PATCH])
  = Ok [{| path := $"a.py"; add := false; hunks := [{| old := [$"x"; $"y"]; new := [$"x"; $"z"] |}] |}].
Proof. by vm_compute. Qed.

Example apply_example :
  apply_hunks (file_text [10] [$"x"; $"y"; $"w"] true) [{| old := [$"x"; $"y"]; new := [$"x"; $"z"] |}] $"a"
  = Ok (file_text [10] [$"x"; $"z"; $"w"] true).
Proof. by vm_compute. Qed.

(** ** What a parsed patch is *)

Definition valid_path (p : pystr) : Prop := p <> [] /\ strip p = p /\ no_eol p.

Definition valid_hunk (h : Hunk) : Prop :=
  old h <> [] /\ old h <> new h /\ Forall no_eol (old h) /\ Forall no_eol (new h).

Definition valid_file (f : PatchFile) : Prop :=
  valid_path (path f) /\
  if add f
  then exists ls, hunks f = [{| old := []; new := ls |}] /\ Forall no_eol ls
  else hunks f <> [] /\ len (hunks f) <= 200 /\ Forall valid_hunk (hunks f).

Definition valid_patch (files : list PatchFile) : Prop :=
  files <> [] /\ len files <= 20 /\ NoDup (map path files) /\ Forall valid_file files.

(** The document of a patch: every removed line of a hunk before the added ones. *)
Definition render_hunk (h : Hunk) : list pystr :=
  $"@@" :: map (fun l => 45 :: l) (old h) ++ map (fun l => 43 :: l) (new h).

Definition render_file (f : PatchFile) : list pystr :=
  if add f
  then (ADD_FILE ++ path f) :: concat (map (fun h => map (fun l => 43 :: l) (new h)) (hunks f))
  else (UPDATE_FILE ++ path f) :: concat (map render_hunk (hunks f)).

Definition render_lines (files : list PatchFile) : list pystr :=
  BEGIN_PATCH :: concat (map render_file files) ++ [END_PATCH].

Definition render_patch (files : list PatchFile) : pystr := join [10] (render_lines files).

(** ** The parser always finishes *)

(** A result the callers handle: a value or a [ValueError]. *)
Definition handled {A} (r : result A) : Prop :=
  match r with Ok _ | Raise (ValueError _) => True | _ => False end.

Lemma handled_bind {A B} (r : result A) (f : A -> result B) :
  handled r -> (forall a, r = Ok a -> handled (f a)) -> handled (a ← r; f a).
Proof. destruct r as [a|e]; cbn; auto. Qed.

Lemma handled_raise_if c m : handled (raise_if c (ValueError m)).
Proof. by destruct c. Qed.

Lemma take_added_spec p lines :
  handled (take_added p lines) /\
  forall r, take_added p lines = Ok r ->
    lines = map (fun l => 43 :: l) r.1 ++ r.2.
Proof.
  induction lines as [|l lines [IH1 IH2]]; cbn; [split; [done|by intros r [= <-]]|].
  destruct (startswith l $"*** "); [split; [done|by intros r [= <-]]|].
  destruct (startswith l $"+") eqn:Ep; cbn [negb]; [|by split].
  split; [by apply handled_bind|]. intros r Hr. ok_inv Hr. injection Hr as <-. cbn.
  rewrite <- (IH2 _ Hr0). unfold startswith in Ep. apply bool_decide_eq_true in Ep as [k ->]. done.
Qed.

Lemma take_hunk_spec p lines :
  handled (take_hunk p lines) /\
  forall r, take_hunk p lines = Ok r ->
    exists k, lines = k ++ r.2 /\ r.1.1 ⊆ map (drop 1) k /\ r.1.2 ⊆ map (drop 1) k.
Proof.
  induction lines as [|l lines [IH1 IH2]]; cbn [take_hunk].
  { split; [done|]. intros r [= <-]. by exists []. }
  destruct (startswith l $"@@" || startswith l $"*** ").
  { split; [done|]. intros r [= <-]. by exists []. }
  case_bool_decide; cbn [negb]; [|by split].
  split; [by apply handled_bind; [|intros [[o n] r] _]|].
  intros r Hr. ok_inv Hr. destruct r0 as [[o n] rest]. injection Hr as <-.
  destruct (IH2 _ Hr0) as (k & -> & Ho & Hn). exists (l :: k). cbn in *.
  split; [done|]. split; case_bool_decide; set_solver.
Qed.

Lemma take_hunks_spec p last : forall fuel lines, (length lines <= fuel)%nat ->
  handled (take_hunks fuel p last lines) /\
  forall r, take_hunks fuel p last lines = Ok r ->
    (length r.2 <= length lines)%nat /\
    (Forall no_eol lines -> Forall valid_hunk r.1 /\ Forall no_eol r.2).
Proof.
  induction fuel as [|fuel IH]; intros [|l lines] Hf; cbn [take_hunks]; cbn in Hf;
    try lia; try (split; [done|]; intros r [= <-]; split; [done|]; intros _; split; constructor).
  destruct (is_header l).
  { split; [done|]. intros r [= <-]. split; [done|]. intros Hl. by split. }
  destruct (startswith l $"@@"); cbn [negb]; [|by split].
  destruct (take_hunk_spec p lines) as [Hh Hsub]. split.
  - apply handled_bind; [done|]. intros [[o n] rest] Hr. destruct (Hsub _ Hr) as (k & Hk & _).
    apply handled_bind; [apply handled_raise_if|]. intros _ _.
    apply handled_bind; [apply handled_raise_if|]. intros _ _.
    apply handled_bind; [|by intros]. apply IH. cbn in Hk. rewrite Hk, length_app in Hf. lia.
  - intros r Hr. ok_inv Hr. destruct r0 as [[o n] rest]. destruct (Hsub _ Hr0) as (k & -> & Ho & Hn).
    cbn in Ho, Hn. ok_inv Hr. ok_inv Hr. ok_inv Hr. injection Hr as <-. cbn [fst snd] in *.
    rewrite length_app in Hf. destruct (IH rest ltac:(lia)) as [_ IH']. destruct (IH' _ Hr3) as [Hlen Hall].
    split; [cbn; rewrite length_app; lia|]. intros [_ [Hk Hrest]%Forall_app]%Forall_cons.
    destruct (Hall Hrest) as [Hv Hr']. split; [|done]. constructor; [|done].
    assert (Hd : forall l', l' ⊆ map (drop 1) k -> Forall no_eol l').
    { intros l' Hl'. apply Forall_forall. intros x Hx%Hl'. apply list_elem_of_fmap in Hx as (y & -> & Hy).
      rewrite Forall_forall in Hk. apply Forall_drop. by apply Hk. }
    split_and!; cbn; [by apply bool_decide_eq_false in Hr1|by apply bool_decide_eq_false in Hr2|by apply Hd..].
Qed.

Lemma after_colon_suffix s : after_colon s `suffix_of` s.
Proof.
  induction s as [|c s IH]; cbn [after_colon]; [done|].
  destruct (startswith (c :: s) $": "); [|by apply suffix_cons_r].
  exists (take 2 (c :: s)). by rewrite take_drop.
Qed.

Lemma no_eol_strip s : no_eol s -> no_eol (strip s).
Proof.
  intros Hs. unfold strip. destruct (rdrop_while_prefix is_space (drop_while is_space s)) as [k Hk].
  destruct (drop_while_suffix is_space s) as [k' Hk']. unfold no_eol in *.
  rewrite Hk' in Hs. apply Forall_app in Hs as [_ Hs]. rewrite Hk in Hs. by apply Forall_app in Hs as [? _].
Qed.

Lemma parse_file_spec files last lines :
  lines <> [] ->
  handled (parse_file files last lines) /\
  forall r, parse_file files last lines = Ok r ->
    (length r.2 < length lines)%nat /\ (path r.1 ∉ map path files) /\
    (Forall no_eol lines -> valid_file r.1 /\ Forall no_eol r.2).
Proof.
  destruct lines as [|h rest]; [done|]. intros _. cbn [parse_file].
  destruct (negb _ && negb _); [by split|]. set (p := strip (after_colon h)).
  destruct (take_added_spec p rest) as [Ha Ha']. destruct (take_hunks_spec p last (length rest) rest) as [Hh Hh']; [done|].
  split.
  - repeat (apply handled_bind; [apply handled_raise_if|]; intros _ _).
    apply handled_bind; [|intros r _; apply handled_bind; [apply handled_raise_if|done]].
    destruct (startswith h ADD_FILE); apply handled_bind; try done.
    intros r _. by apply handled_bind; [apply handled_raise_if|].
  - intros r Hr. ok_inv Hr. ok_inv Hr. ok_inv Hr. ok_inv Hr. injection Hr as <-. cbn [fst snd path].
    apply bool_decide_eq_false in Hr0. apply Z.ltb_ge in Hr3.
    assert (Hp : p ∉ map path files).
    { intros (f & -> & Hf)%list_elem_of_fmap. apply not_true_iff_false in Hr1. apply Hr1.
      apply existsb_exists. exists f. split; [by apply list_elem_of_In|by apply bool_decide_eq_true]. }
    assert (Hv : Forall no_eol (h :: rest) -> valid_path p).
    { intros [Hn _]%Forall_cons. split; [done|]. split; [apply strip_idemp|]. apply no_eol_strip.
      destruct (after_colon_suffix h) as [k Hk]. unfold no_eol in *. rewrite Hk in Hn. by apply Forall_app in Hn as [_ ?]. }
    destruct (startswith h ADD_FILE).
    + apply bind_ok in Hr2 as (x & Hx & Hr2). injection Hr2 as <-. cbn [fst snd]. specialize (Ha' _ Hx). split; [|split; [done|]].
      * rewrite Ha'. cbn. rewrite length_app. lia.
      * intros Hn. pose proof (Hv Hn). apply Forall_cons in Hn as [_ Hn]. rewrite Ha' in Hn.
        apply Forall_app in Hn as [Hn1 Hn2]. split; [|done]. split; [done|]. cbn. eexists. split; [done|].
        apply (List.Forall_map (cons 43) no_eol) in Hn1. eapply Forall_impl; [exact Hn1|].
        intros y Hy. by apply Forall_cons in Hy as [_ ?].
    + apply bind_ok in Hr2 as (x & Hx & Hr2). apply bind_ok in Hr2 as (u & Hu & Hr2).
      injection Hr2 as <-. destruct (Hh' _ Hx) as [Hlen Hall]. apply raise_if_ok, bool_decide_eq_false in Hu. split; [cbn; lia|]. split; [done|]. intros Hn. pose proof (Hv Hn).
      apply Forall_cons in Hn as [_ Hn]. destruct (Hall Hn). split; [|done]. split; [done|]. by cbn.
Qed.

Lemma parse_files_spec last : forall fuel files lines, (length lines <= fuel)%nat ->
  handled (parse_files fuel files last lines) /\
  forall out, parse_files fuel files last lines = Ok out ->
    Forall no_eol lines -> len files <= 20 -> NoDup (map path files) -> Forall valid_file files ->
    (lines <> [] \/ files <> []) -> valid_patch out.
Proof.
  induction fuel as [|fuel IH]; intros files [|l lines] Hf; cbn [parse_files]; cbn in Hf; try lia;
    try (split; [done|]; intros out [= <-] _ Hlen Hnd Hv [?|?]; [done|by split_and!]).
  destruct (parse_file_spec files last (l :: lines)) as [Hh Hok]; [done|]. split.
  - apply handled_bind; [done|]. intros r Hr. destruct (Hok _ Hr) as (Hlt & _). cbn in Hlt.
    apply handled_bind; [apply handled_raise_if|]. intros _ _. apply IH. lia.
  - intros out Hr Hn Hlen Hnd Hv _. ok_inv Hr. ok_inv Hr. apply Z.ltb_ge in Hr1.
    destruct (Hok _ Hr0) as (Hlt & Hni & Hvf). cbn in Hlt. destruct (Hvf Hn) as [Hf' Hn'].
    apply (proj2 (IH (files ++ [r.1]) r.2 ltac:(lia)) _ Hr); try done.
    + rewrite map_app. apply NoDup_app. split_and!; [done| |apply NoDup_singleton].
      intros x Hx ->%list_elem_of_singleton. done.
    + apply Forall_app. split; [done|by apply Forall_singleton].
    + right. by destruct files.
Qed.

(** Parsing a patch always finishes: on every text the parser returns the
    files of the patch or raises [ValueError], the exception every caller
    handles; the fuel given to its loops is never used up. *)
Theorem parse_patch_total patch :
  match parse_patch patch with
  | Ok _ => True
  | Raise e => exists message, e = ValueError message
  end.
Proof.
  assert (H : handled (parse_patch patch)).
  { unfold parse_patch. destruct (_ <? _); [done|]. destruct (_ || _); [done|]. by apply parse_files_spec. }
  destruct (parse_patch patch) as [|[]]; try done. by eexists.
Qed.

Lemma parse_patch_valid patch files : parse_patch patch = Ok files -> valid_patch files.
Proof.
  unfold parse_patch. destruct (_ <? _); [done|]. destruct (_ || _) eqn:E; [done|]. intros Hp.
  apply orb_false_iff in E as [[E _]%orb_false_iff _]. apply Z.ltb_ge in E.
  set (lines := splitlines patch) in *. assert (Hl : Forall no_eol lines) by apply splitlines_no_eol.
  assert (Hb : (1 <= length (removelast (drop 1 lines)))%nat).
  { rewrite removelast_firstn_len, length_take, length_drop. unfold len in E. lia. }
  eapply (parse_files_spec (len lines - 1)); [done|exact Hp|..]; try (by constructor || done).
  - rewrite removelast_firstn_len. by apply Forall_take, Forall_drop.
  - left. intros Heq. rewrite Heq in Hb. cbn in Hb. lia.
Qed.

(** ** Round trip *)

Lemma after_colon_header k p : (k = ADD_FILE \/ k = UPDATE_FILE) -> after_colon (k ++ p) = p.
Proof. by intros [->| ->]. Qed.

(** Where a section ends: the end of the body or the next header. *)
Definition section_end (rest : list pystr) : Prop :=
  rest = [] \/ exists h rest', rest = h :: rest' /\ is_header h = true.

Lemma header_stars h : is_header h = true -> startswith h $"*** " = true.
Proof.
  unfold is_header, startswith. rewrite orb_true_iff, !bool_decide_eq_true. intros [H|H]; etrans; try exact H.
  - by exists $"Update File: ".
  - by exists $"Add File: ".
Qed.

Lemma take_added_render p ls rest :
  section_end rest -> take_added p (map (cons 43) ls ++ rest) = Ok (ls, rest).
Proof.
  intros Hrest. induction ls as [|l ls IH]; cbn [map app take_added].
  - destruct Hrest as [->|(h & rest' & -> & Hh)]; [done|]. cbn. by rewrite (header_stars h Hh).
  - change (startswith (43 :: l) $"*** ") with false. change (startswith (43 :: l) $"+") with true.
    cbn [negb]. by rewrite IH.
Qed.

(** Where a hunk ends. *)
Definition hunk_end (rest : list pystr) : Prop :=
  rest = [] \/ exists h rest', rest = h :: rest' /\ (startswith h $"@@" || startswith h $"*** ") = true.

Lemma take_hunk_render p o n rest :
  hunk_end rest ->
  take_hunk p (map (cons 45) o ++ map (cons 43) n ++ rest) = Ok (o, n, rest).
Proof.
  intros Hrest. induction o as [|l o IH]; cbn [map app].
  - induction n as [|l n IH]; cbn [map app take_hunk].
    + destruct Hrest as [->|(h & rest' & -> & Hh)]; [done|]. cbn. by rewrite Hh.
    + change (startswith (43 :: l) $"@@" || startswith (43 :: l) $"*** ") with false.
      change (take 1 (43 :: l)) with $"+". change (drop 1 (43 :: l)) with l. cbv zeta.
      rewrite IH. done.
  - cbn [take_hunk].
    change (startswith (45 :: l) $"@@" || startswith (45 :: l) $"*** ") with false.
    change (take 1 (45 :: l)) with $"-". change (drop 1 (45 :: l)) with l. cbv zeta.
    rewrite IH. done.
Qed.

Lemma section_hunk_end rest : section_end rest -> hunk_end rest.
Proof.
  intros [->|(h & rest' & -> & Hh)]; [by left|right]. exists h, rest'. split; [done|].
  by rewrite (header_stars h Hh), orb_true_r.
Qed.

Lemma take_hunks_render p last hs rest : section_end rest -> Forall valid_hunk hs ->
  forall fuel, (length (concat (map render_hunk hs) ++ rest) <= fuel)%nat ->
  take_hunks fuel p last (concat (map render_hunk hs) ++ rest) = Ok (hs, rest).
Proof.
  intros Hrest Hhs. induction Hhs as [|h hs (Ho & Hne & _) Hhs IH]; intros fuel Hf.
  - cbn. destruct Hrest as [->|(x & rest' & -> & Hx)]; [by destruct fuel|]. destruct fuel; cbn; by rewrite Hx.
  - cbn [map concat render_hunk app] in *. destruct fuel as [|fuel]; [cbn in Hf; lia|].
    cbn [take_hunks]. change (is_header $"@@") with false. change (startswith $"@@" $"@@") with true. cbn [negb].
    rewrite <- !app_assoc in *. rewrite take_hunk_render.
    + cbn [mbind result_bind]. rewrite !bool_decide_eq_false_2 by done. cbn [raise_if mbind result_bind].
      rewrite IH; [by destruct h|]. cbn in Hf. rewrite !length_app in Hf. rewrite length_app. lia.
    + destruct hs as [|h' hs]; [by apply section_hunk_end|]. right. cbn. by eexists _, _.
Qed.

Lemma render_file_end files : section_end (concat (map render_file files)).
Proof.
  destruct files as [|f files]; [by left|right]. cbn [map concat]. unfold render_file, is_header.
  destruct (add f); cbn [app]; eexists _, _; (split; [reflexivity|]); by rewrite startswith_app, ?orb_true_r.
Qed.

Lemma add_not_update p : startswith (UPDATE_FILE ++ p) ADD_FILE = false.
Proof. apply bool_decide_eq_false. intros [k Hk]. done. Qed.

Lemma parse_file_render files last f rest :
  section_end rest -> valid_file f -> path f ∉ map path files ->
  parse_file files last (render_file f ++ rest) = Ok (f, rest).
Proof.
  intros Hrest [(Hp & Hs & _) Hf] Hni. unfold render_file, parse_file.
  assert (Hdup : existsb (fun g => bool_decide (path g = path f)) files = false).
  { apply not_true_iff_false. rewrite existsb_exists. intros (g & Hg & Heq%bool_decide_eq_true).
    apply Hni, list_elem_of_fmap. exists g. split; [done|by apply list_elem_of_In]. }
  destruct f as [p a hs]. cbn [path add hunks] in *. destruct a; cbn [app].
  - destruct Hf as (ls & -> & _). rewrite startswith_app, after_colon_header, Hs by auto. cbn [negb andb].
    rewrite bool_decide_eq_false_2, Hdup by done. cbn [raise_if mbind result_bind map concat].
    rewrite app_nil_r. change (fun l => 43 :: l) with (cons 43). by rewrite take_added_render.
  - destruct Hf as (Hne & Hlen & Hhs). rewrite add_not_update, startswith_app, after_colon_header, Hs by auto.
    cbn [negb andb]. rewrite bool_decide_eq_false_2, Hdup by done. cbn [raise_if mbind result_bind].
    rewrite take_hunks_render by done. cbn [mbind result_bind fst snd].
    rewrite bool_decide_eq_false_2 by done. cbn [raise_if mbind result_bind fst snd].
    replace (200 <? len hs) with false by (symmetry; apply Z.ltb_ge; lia). done.
Qed.

Lemma parse_files_render last todo : forall fuel files,
  (length (concat (map render_file todo)) <= fuel)%nat ->
  Forall valid_file todo -> NoDup (map path (files ++ todo)) -> len (files ++ todo) <= 20 ->
  parse_files fuel files last (concat (map render_file todo)) = Ok (files ++ todo).
Proof.
  induction todo as [|f todo IH]; intros fuel files Hf Hv Hnd Hlen; cbn [map concat] in *.
  - rewrite app_nil_r. by destruct fuel.
  - apply Forall_cons in Hv as [Hv Hvs].
    assert (Hne : render_file f ++ concat (map render_file todo) <> []) by (unfold render_file; by destruct (add f)).
    destruct fuel as [|fuel]; [destruct (render_file f ++ _); [done|cbn in Hf; lia]|].
    assert (Hf1 : (1 <= length (render_file f))%nat) by (unfold render_file; destruct (add f); cbn; lia).
    cbn [parse_files]. rewrite parse_file_render; [|apply render_file_end|done|].
    2:{ rewrite map_app, NoDup_app in Hnd. destruct Hnd as (_ & Hd & _). intros Hin. apply (Hd _ Hin). left. }
    destruct (render_file f ++ _) as [|x xs] eqn:E; [done|]. cbn [mbind result_bind fst snd].
    replace (20 <? len (files ++ [f])) with false.
    + cbn [raise_if mbind result_bind]. change (f :: todo) with ([f] ++ todo) in *.
      rewrite (app_assoc files [f] todo) in *. apply IH; try done. rewrite <- E, length_app in Hf. lia.
    + symmetry. apply Z.ltb_ge. autorewrite with len in *. pose proof (len_nonneg todo). lia.
Qed.

Lemma render_file_no_eol f : valid_file f -> Forall no_eol (render_file f).
Proof.
  assert (Hcons : forall c ls, is_eol c = false -> Forall no_eol ls -> Forall no_eol (map (cons c) ls)).
  { intros c ls Hc Hls. apply List.Forall_map. eapply Forall_impl; [exact Hls|]. intros. by constructor. }
  intros [(_ & _ & Hp) Hf]. unfold render_file. destruct (add f).
  - destruct Hf as (ls & -> & Hls). constructor.
    + apply Forall_app. split; [by apply (bool_decide_unpack _)|done].
    + cbn. rewrite app_nil_r. by apply Hcons.
  - destruct Hf as (_ & _ & Hhs). constructor; [apply Forall_app; split; [by apply (bool_decide_unpack _)|done]|].
    apply Forall_concat, List.Forall_map. eapply Forall_impl; [exact Hhs|]. intros h (_ & _ & Ho & Hn).
    constructor; [by apply (bool_decide_unpack _)|]. apply Forall_app. split; by apply Hcons.
Qed.

Lemma splitlines_render files :
  Forall valid_file files -> splitlines (render_patch files) = render_lines files.
Proof.
  intros Hv. unfold render_patch. rewrite <- (app_nil_r (join _ _)).
  apply (splitlines_file [10] (render_lines files) false); [by left|]. split.
  - unfold render_lines. constructor; [by apply (bool_decide_unpack _)|]. apply Forall_app. split.
    + apply Forall_concat, List.Forall_map. eapply Forall_impl; [exact Hv|]. apply render_file_no_eol.
    + constructor; [by apply (bool_decide_unpack _)|constructor].
  - unfold render_lines. by rewrite app_comm_cons, last_snoc.
Qed.

Lemma render_lines_length files : files <> [] -> 3 <= len (render_lines files).
Proof.
  destruct files as [|f files]; [done|]. intros _. unfold render_lines. cbn [map concat].
  autorewrite with len. pose proof (len_nonneg (concat (map render_file files))).
  assert (1 <= len (render_file f)).
  { unfold render_file. destruct (add f); rewrite len_cons; match goal with |- _ <= _ + len ?l => pose proof (len_nonneg l) end; lia. }
  change (len [END_PATCH]) with 1. lia.
Qed.

(** The patch format round-trips.  Rendering valid files (at most 20 with
    distinct paths, at most 200 hunks each, hunks that change something) and
    parsing the document gives the files back; and everything the parser accepts
    is a valid patch. *)
Theorem patch_round_trip :
  (forall patch files, parse_patch patch = Ok files -> valid_patch files) /\
  forall files, valid_patch files -> len (render_patch files) <= 256000 ->
    parse_patch (render_patch files) = Ok files.
Proof.
  split; [apply parse_patch_valid|]. intros files (Hne & Hlen & Hnd & Hv) Hmax.
  unfold parse_patch. rewrite (proj2 (Z.ltb_ge _ _) Hmax), splitlines_render by done.
  rewrite (proj2 (Z.ltb_ge _ _) (render_lines_length files Hne)).
  assert (Hlast : last (render_lines files) = Some END_PATCH).
  { unfold render_lines. by rewrite app_comm_cons, last_snoc. }
  assert (Hbody : removelast (drop 1 (render_lines files)) = concat (map render_file files)).
  { unfold render_lines. cbn [drop]. apply removelast_last. }
  rewrite Hlast, Hbody, !bool_decide_eq_true_2 by done. cbn [negb orb].
  by apply (parse_files_render _ files _ []).
Qed.

(** ** What applying hunks does *)

(** [applies hs before after]: from the top, each hunk finds its old lines
    exactly once in what is left, and they become its new lines; all other lines
    stay. *)
Inductive applies : list Hunk -> list pystr -> list pystr -> Prop :=
| applies_done ls : applies [] ls ls
| applies_hunk h hs pre post after :
    (forall pre' post', pre ++ old h ++ post = pre' ++ old h ++ post' -> pre' = pre) ->
    applies hs post after ->
    applies (h :: hs) (pre ++ old h ++ post) (pre ++ new h ++ after).

Lemma applies_inv h hs ls out :
  applies (h :: hs) ls out ->
  exists pre post after, ls = pre ++ old h ++ post /\ out = pre ++ new h ++ after /\
    (forall pre' post', ls = pre' ++ old h ++ post' -> pre' = pre) /\ applies hs post after.
Proof. inversion 1; subst. by eexists _, _, _. Qed.

Lemma match_positions_elem lines o cursor i :
  (cursor <= length lines)%nat ->
  i ∈ match_positions lines o cursor <->
  exists pre post, drop cursor lines = pre ++ o ++ post /\ i = (cursor + length pre)%nat.
Proof.
  intros Hc. unfold match_positions. rewrite list_elem_of_filter, elem_of_seq. split.
  - intros [Ht Hi]. exists (take (i - cursor) (drop cursor lines)), (drop (length o) (drop i lines)).
    split.
    + rewrite <- Ht at 1. rewrite take_drop. replace i with (cursor + (i - cursor))%nat at 2 by lia.
      by rewrite <- drop_drop, take_drop.
    + rewrite length_take, length_drop. lia.
  - intros (pre & post & Hd & ->). rewrite <- drop_drop, Hd, drop_app_length, take_app_length.
    split; [done|]. apply (f_equal length) in Hd. rewrite length_drop, !length_app in Hd. lia.
Qed.

Lemma match_positions_one lines o cursor start :
  (cursor <= length lines)%nat ->
  match_positions lines o cursor = [start] <->
  exists pre post, drop cursor lines = pre ++ o ++ post /\ start = (cursor + length pre)%nat /\
    forall pre' post', drop cursor lines = pre' ++ o ++ post' -> pre' = pre.
Proof.
  intros Hc. pose proof (fun i => match_positions_elem lines o cursor i Hc) as Hin.
  assert (Hnd : NoDup (match_positions lines o cursor)) by apply NoDup_filter, NoDup_seq.
  assert (Hpre : forall pre post pre' post', pre ++ o ++ post = pre' ++ o ++ post' ->
            length pre = length pre' -> pre = pre').
  { intros pre post pre' post' Heq Hlen. by apply app_inj_1 in Heq as [? _]. }
  split.
  - intros Hm. rewrite Hm in Hin. destruct (proj1 (Hin start)) as (pre & post & Hd & ->); [left|].
    exists pre, post. split; [done|]. split; [done|]. intros pre' post' Hd'.
    assert (Hx : (cursor + length pre')%nat ∈ [(cursor + length pre)%nat]) by (apply Hin; by exists pre', post').
    apply list_elem_of_singleton in Hx. rewrite Hd in Hd'. symmetry. apply (Hpre _ _ _ _ Hd'). lia.
  - intros (pre & post & Hd & -> & Huniq).
    assert (Hall : forall i, i ∈ match_positions lines o cursor <-> i = (cursor + length pre)%nat).
    { intros i. rewrite Hin. split; [|intros ->; by exists pre, post].
      intros (pre' & post' & Hd' & ->). by rewrite (Huniq _ _ Hd'). }
    apply Permutation_singleton_r, NoDup_Permutation; [done|apply NoDup_singleton|].
    intros i. by rewrite Hall, list_elem_of_singleton.
Qed.

Lemma apply_loop_spec p hs : forall lines cursor out, (cursor <= length lines)%nat ->
  apply_loop p lines cursor hs = Ok out <->
  exists after, applies hs (drop cursor lines) after /\ out = take cursor lines ++ after.
Proof.
  induction hs as [|h hs IH]; intros lines cursor out Hc; cbn [apply_loop].
  - split; [intros [= <-]; eexists; split; [constructor|by rewrite take_drop]|].
    intros (after & Ha & ->). inversion Ha; subst. by rewrite take_drop.
  - assert (Hstep : forall pre post start, drop cursor lines = pre ++ old h ++ post ->
        start = (cursor + length pre)%nat ->
        apply_loop p (take start lines ++ new h ++ drop (start + length (old h)) lines)
          (start + length (new h)) hs = Ok out <->
        exists after, applies hs post after /\ out = take cursor lines ++ pre ++ new h ++ after).
    { intros pre post start Hd ->.
      assert (Ht : take (cursor + length pre) lines = take cursor lines ++ pre).
      { rewrite <- (take_drop cursor lines) at 1. rewrite Hd, take_app_ge; rewrite length_take; [|lia].
        f_equal. replace (cursor + length pre - cursor `min` length lines)%nat with (length pre) by lia.
        apply take_app_length. }
      rewrite Ht, <- !drop_drop, Hd, !drop_app_length.
      rewrite IH by (rewrite !length_app, length_take; lia).
      assert (Hlen : (cursor + length pre + length (new h))%nat = length ((take cursor lines ++ pre) ++ new h)).
      { rewrite !length_app, length_take. lia. }
      rewrite Hlen, (app_assoc _ (new h)), drop_app_length, take_app_length.
      by repeat setoid_rewrite <- app_assoc. }
    split.
    + intros H. destruct (match_positions lines (old h) cursor) as [|start [|]] eqn:Hm; try done.
      apply match_positions_one in Hm as (pre & post & Hd & Hs & Hu); [|done].
      apply (Hstep pre post start Hd Hs) in H as (after & Ha & ->).
      exists (pre ++ new h ++ after). split; [|done]. rewrite Hd. constructor; [|done].
      intros pre' post' Heq. apply (Hu pre' post'). by rewrite Hd.
    + intros (after & Ha & ->). apply applies_inv in Ha as (pre & post & after' & Hd & -> & Hu & Ha).
      rewrite Hd in Hu.
      rewrite (proj2 (match_positions_one lines (old h) cursor (cursor + length pre) Hc)).
      * apply (Hstep pre post _ Hd); [done|]. by exists after'.
      * exists pre, post. split; [done|]. split; [done|]. rewrite Hd. apply Hu.
Qed.

Lemma py_contains_spec sub s : py_contains sub s = true <-> exists a b, s = a ++ sub ++ b.
Proof.
  induction s as [|c s IH]; cbn [py_contains]; unfold startswith; rewrite orb_true_iff, bool_decide_eq_true.
  - split; [intros [[k Hk]|?]; [by exists [], k|done]|]. intros (a & b & Hab). left.
    symmetry in Hab. apply app_nil in Hab as [_ Hab]. by exists b.
  - rewrite IH. split.
    + intros [[k Hk]|(a & b & ->)]; [by exists [], k|by exists (c :: a), b].
    + intros ([|x a] & b & Hab); [left; by exists b|]. injection Hab as -> ->. right. by exists a, b.
Qed.

(** Texts that show which line ending they use. *)
Definition shows_ending (nl : pystr) (ls : list pystr) (trailing : bool) : Prop :=
  nl = [13; 10] -> (1 < length ls)%nat \/ trailing = true.

Lemma file_text_crlf nl ls trailing :
  newline nl -> file_lines ls trailing -> shows_ending nl ls trailing ->
  py_contains [13; 10] (file_text nl ls trailing) = bool_decide (nl = [13; 10]).
Proof.
  intros [->| ->] [Hls _] Hshow.
  - rewrite bool_decide_eq_false_2 by done. apply not_true_iff_false. rewrite py_contains_spec.
    intros (a & b & Hab). assert (Hno : 13 ∉ file_text [10] ls trailing).
    { unfold file_text. intros [Hin|Hin]%elem_of_app.
      - clear Hshow Hab. induction Hls as [|l ls Hl _ IH]; [by apply elem_of_nil in Hin|].
        assert (Hl13 : 13 ∉ l) by (intros H13; unfold no_eol in Hl; rewrite Forall_forall in Hl; by specialize (Hl _ H13)).
        destruct ls; [done|]. cbn in Hin. apply elem_of_app in Hin as [?|[?|Hin]%elem_of_cons]; [done|done|auto].
      - destruct trailing; [by apply list_elem_of_singleton in Hin|by apply elem_of_nil in Hin]. }
    apply Hno. rewrite Hab. apply elem_of_app. right. left.
  - rewrite bool_decide_eq_true_2 by done. apply py_contains_spec. unfold file_text.
    destruct (Hshow eq_refl) as [Hlen| ->].
    + destruct ls as [|l [|l' ls]]; cbn in Hlen; try lia. cbn [join].
      eexists l, _. by rewrite <- !app_assoc.
    + exists (join [13; 10] ls), []. by rewrite app_nil_r.
Qed.

Lemma ends_with_char s c d : endswith (s ++ [c]) [d] = bool_decide (c = d).
Proof.
  unfold endswith. apply bool_decide_ext. split; [|intros ->; by exists s].
  intros [k Hk]. by apply app_inj_tail in Hk as [_ ?].
Qed.

Lemma join_last nl l ls c : last (l :: ls) = Some c -> exists a, join nl (l :: ls) = a ++ c.
Proof.
  revert l. induction ls as [|l' ls IH]; intros l Hc; [by injection Hc as ->; exists []|].
  destruct (IH l' Hc) as [a Ha]. exists (l ++ nl ++ a). change (join nl (l :: l' :: ls)) with (l ++ nl ++ join nl (l' :: ls)).
  by rewrite Ha, <- !app_assoc.
Qed.

Lemma file_text_ends nl ls trailing :
  newline nl -> file_lines ls trailing ->
  endswith (file_text nl ls trailing) [10] || endswith (file_text nl ls trailing) [13] = trailing.
Proof.
  intros Hnl [Hls Ht]. unfold file_text. destruct trailing.
  - apply orb_true_iff. left. destruct Hnl as [->| ->].
    + by rewrite ends_with_char, bool_decide_eq_true_2.
    + replace (join [13; 10] ls ++ [13; 10]) with ((join [13; 10] ls ++ [13]) ++ [10]) by (by rewrite <- app_assoc).
      by rewrite ends_with_char, bool_decide_eq_true_2.
  - rewrite app_nil_r. destruct ls as [|l ls]; [done|].
    destruct (last (l :: ls)) as [c|] eqn:Hc; [|by apply last_None in Hc].
    destruct (join_last nl l ls c Hc) as [a ->].
    destruct c as [|x c _] using rev_ind; [done|].
    rewrite app_assoc, !ends_with_char.
    assert (Hx : is_eol x = false).
    { apply last_Some_elem_of in Hc. rewrite Forall_forall in Hls. specialize (Hls _ Hc).
      unfold no_eol in Hls. apply Forall_app in Hls as [_ Hls]. by apply Forall_cons in Hls as [Hls _]. }
    apply orb_false_iff. split; apply bool_decide_eq_false; by intros ->.
Qed.

(** C31: Applying the hunks of a file edits exactly the lines they name.  On a
    text with one kind of line ending, [apply_hunks] succeeds exactly when from
    the top each hunk's old lines stand exactly once in what is left, and the
    result is the same text with those lines replaced: every other line, the
    line endings and the final ending are kept. *)
Theorem apply_hunks_spec nl ls trailing hs p out :
  newline nl -> file_lines ls trailing -> shows_ending nl ls trailing ->
  apply_hunks (file_text nl ls trailing) hs p = Ok out <->
  exists after, applies hs ls after /\ out = file_text nl after trailing.
Proof.
  intros Hnl Hls Hshow. unfold apply_hunks.
  rewrite splitlines_file, file_text_crlf, file_text_ends by done.
  replace (if bool_decide (nl = [13; 10]) then [13; 10] else [10]) with nl
    by (destruct Hnl as [->| ->]; by vm_compute).
  split.
  - intros (lines & Hl & [= <-])%bind_ok. apply apply_loop_spec in Hl as (after & Ha & ->); [|lia].
    by exists after.
  - intros (after & Ha & ->).
    assert (Hl : apply_loop p ls 0 hs = Ok after) by (apply apply_loop_spec; [lia|]; by exists after).
    by rewrite Hl.
Qed.

Lemma apply_hunks_spec_witness :
  apply_hunks (file_text [10] [$"a"; $"b"; $"c"] true) [{| old := [$"b"]; new := [$"x"; $"y"] |}] $"f"
  = Ok (file_text [10] [$"a"; $"x"; $"y"; $"c"] true).
Proof.
  apply (apply_hunks_spec [10] [$"a"; $"b"; $"c"] true); [by left| |done|].
  - split; [by apply (bool_decide_unpack _)|done].
  - exists [$"a"; $"x"; $"y"; $"c"]. split; [|done].
    apply (applies_hunk {| old := [$"b"]; new := [$"x"; $"y"] |} [] [$"a"] [$"c"] [$"c"]); [|constructor].
    intros [|l1 [|l2 [|l3 [|]]]] post'; cbn; intros H; simplify_eq; done.
Defined.

(** On other texts untouched lines change: a form feed or another line ending
    Python knows becomes a newline, and of two kinds of ending one remains. *)
Lemma untouched_endings_change :
  apply_hunks ($"a" ++ [12] ++ $"b" ++ [10] ++ $"c" ++ [10]) [{| old := [$"c"]; new := [$"d"] |}] $"f"
  = Ok ($"a" ++ [10] ++ $"b" ++ [10] ++ $"d" ++ [10]) /\
  apply_hunks ($"a" ++ [10] ++ $"b" ++ [13; 10] ++ $"c" ++ [10]) [{| old := [$"c"]; new := [$"d"] |}] $"f"
  = Ok ($"a" ++ [13; 10] ++ $"b" ++ [13; 10] ++ $"d" ++ [13; 10]).
Proof. by vm_compute. Qed.
