(* ===== verification/WorkspaceTools.v ===== *)
(** * File tools (extensions/tools/builtin: edit.py, write.py, patch.py, _workspace_mutation.py)

    The file-changing tools run against the workspace interface [WorkspacePort],
    which the local workspace of Workspace.v implements, and turn receipts and
    errors into structured outcomes.  [difflib.unified_diff] is a parameter. *)

From S2P Require Import Prelude PyValue Lines ToolOutcome Glob Workspace PatchText.

(** What the tools need of a workspace. *)
Class WorkspacePort (W : Type) := {
  port_resolve : pystr -> wresult pystr;
  port_snapshot_text : pystr -> wst W WorkspaceDocumentSnapshot;
  port_write_text_verified :
    pystr -> pystr -> option WorkspaceRevision -> wst W WorkspaceMutationResult;
  port_replace_exact_verified :
    pystr -> pystr -> pystr -> option WorkspaceRevision -> wst W WorkspaceMutationResult;
}.

(** ** Diffs (domain/diff.py) *)

Class Difflib := {
  unified_diff : list pystr -> list pystr -> pystr -> pystr -> Z -> list pystr;
}.

Definition normalize_newlines (content : pystr) : pystr :=
  py_replace [13] [10] (py_replace [13; 10] [10] content).

Section Diff.
Context `{Difflib}.

Definition build_unified_diff (o n fromfile tofile : pystr) (context : Z) : pystr :=
  concat (unified_diff (lines_keep (normalize_newlines o)) (lines_keep (normalize_newlines n))
            fromfile tofile context).

Definition diff_counts (u : pystr) : Z * Z :=
  foldl (fun '(a, d) l =>
    if startswith l $"+++" || startswith l $"---" then (a, d)
    else if startswith l $"+" then (a + 1, d)
    else if startswith l $"-" then (a, d + 1) else (a, d)) (0, 0) (splitlines u).

Definition build_tool_diff (o n filename : pystr) : ToolDiff :=
  let u := build_unified_diff o n ($"a/" ++ filename) ($"b/" ++ filename) 3 in
  {| d_path := filename; unified := u; additions := Some (diff_counts u).1;
     deletions := Some (diff_counts u).2; original_chars := Some (len (normalize_newlines o));
     d_truncated := false |}.
End Diff.

(** ** Receipts as outcomes (_workspace_mutation.py) *)

Definition short (r : option WorkspaceRevision) : pystr :=
  match r with Some r => short_sha256 r | None => $"unknown" end.

Definition append_notice (content notice : pystr) : pystr :=
  match content with [] => notice | _ => content ++ [10; 10] ++ notice end.

Definition external_change_lines (m : WorkspaceMutationReceipt) (operation : pystr) : list pystr :=
  if bool_decide (operation = $"edit")
  then [ $"Warning: the file changed externally after this edit was prepared. The requested exact replacement was reapplied to the latest contents.";
         $"Prepared revision: " ++ short (expected_before m);
         $"Applied against: " ++ short_sha256 (before m) ]
  else [ $"Warning: the file changed externally after this write was prepared. write_file performed the requested full-file replacement and overwrote that newer revision.";
         $"Prepared revision: " ++ short (expected_before m);
         $"Overwritten revision: " ++ short_sha256 (before m) ].

Definition successful_mutation_warning (m : WorkspaceMutationReceipt) (operation : pystr) : pystr :=
  let lines := if external_change_before_write m then external_change_lines m operation else [] in
  let lines := lines ++ if negb (atomic_replace m)
    then [$"Warning: the backend did not confirm an atomic replacement for this write."] else [] in
  join [10] (lines ++ match verification m with
    | APPLIED_VERIFIED =>
      match lines with [] => [] | _ => [$"Verified result: " ++ short (observed_after m)] end
    | DIVERGED =>
      [ $"The target does not match the intended contents after the write.";
        $"Intended revision: " ++ take 12 (intended_after_sha256 m);
        $"Observed revision: " ++ short (observed_after m);
        $"Read " ++ m_resolved_path m ++ $" before making further edits." ]
    | UNKNOWN =>
      [ $"The target's final contents could not be verified.";
        $"Intended revision: " ++ take 12 (intended_after_sha256 m);
        $"Read " ++ m_resolved_path m ++ $" before making further edits." ]
    | FAILED_UNCHANGED => []
    end).

Definition failed_mutation_notice (m : WorkspaceMutationReceipt) (operation file_path : pystr) : pystr :=
  join [10] match verification m with
  | APPLIED_VERIFIED =>
    [ $"The " ++ operation ++ $" reported an error, but the intended contents are visible and were verified.";
      $"Before: " ++ short_sha256 (before m);
      $"Verified result: " ++ short (observed_after m);
      $"Do not retry blindly; inspect the file if later work depends on it." ]
  | FAILED_UNCHANGED =>
    [ $"The target was re-checked and still matches its pre-write contents.";
      $"Unchanged revision: " ++ short_sha256 (before m) ]
  | DIVERGED =>
    [ $"The target changed while the write was failing. It may have been partially modified or changed externally.";
      $"Before: " ++ short_sha256 (before m);
      $"Observed after failure: " ++ short (observed_after m);
      $"Read " ++ file_path ++ $" before making further edits." ]
  | UNKNOWN =>
    [ $"The target's final state could not be verified after the write failed.";
      $"Before: " ++ short_sha256 (before m);
      $"Read " ++ file_path ++ $" before making further edits." ]
  end.

Definition receipt_metadata (m : WorkspaceMutationReceipt) : pydict :=
  [ ($"mutation_receipt", VDict (receipt_to_dict m));
    ($"mutation_verification", VStr (verification_value (verification m)));
    ($"external_change_before_write", VBool (external_change_before_write m));
    ($"atomic_replace", VBool (atomic_replace m)) ].

(** [dataclasses.replace] on the fields the projections change. *)
Definition replace_outcome (s : ToolOutcomeStatus) (k : option ToolErrorKind) (c : option pystr)
    (md : pydict) (o : ToolOutcome) : result ToolOutcome :=
  check_outcome
  {| status := s; summary := summary o; content := c; stdout := stdout o; stderr := stderr o;
     diff := diff o; diagnostics := diagnostics o; exit_code := exit_code o;
     duration_seconds := duration_seconds o; truncation := truncation o;
     archive_reference := archive_reference o; metadata := md; error_kind := k;
     model_content := model_content o; retention_hint := retention_hint o; images := images o |}.

Definition project_successful_mutation (o : ToolOutcome) (m : WorkspaceMutationReceipt)
    (operation : pystr) : result ToolOutcome :=
  let warning := successful_mutation_warning m operation in
  projected ← replace_outcome (status o) (error_kind o) (content o)
    (dict_update (metadata o) (receipt_metadata m)) o;
  projected ← (if bool_decide (verification m = DIVERGED)
    then replace_outcome FAILED (Some KExecution) (content projected) (metadata projected) projected
    else Ok projected);
  match warning with
  | [] => Ok projected
  | _ =>
    let text := if text_true (content projected) then or_empty (content projected)
                else or_empty (summary projected) in
    projected ← replace_outcome (status projected) (error_kind projected)
      (Some (append_notice text warning)) (metadata projected) projected;
    with_model_projection (model_text projected) None None projected
  end.

Definition workspace_mutation_failure (e : WorkspaceError) (operation file_path : pystr) : ToolOutcome :=
  let kind := if bool_decide (e_code e = NOT_FOUND) then KNotFound else KExecution in
  let text := $"Error [" ++ error_code_value (e_code e) ++ $"]: " ++ e_message e in
  let md := [($"workspace_error_code", VStr (error_code_value (e_code e)))] in
  match mutation_receipt e with
  | None => plain_outcome FAILED None (Some text) md (Some kind)
  | Some m =>
    let text := append_notice text (failed_mutation_notice m operation file_path) in
    {| status := FAILED; summary := None; content := Some text; stdout := []; stderr := [];
       diff := None; diagnostics := []; exit_code := None; duration_seconds := None;
       truncation := None; archive_reference := None;
       metadata := dict_update md (receipt_metadata m); error_kind := Some kind;
       model_content := Some text; retention_hint := default_hint; images := [] |}
  end.

Definition of_result {A} (r : result A) : wresult A :=
  match r with Ok a => WOk a | Raise x => WRaise x end.

(** [expected_revisions]: hashes by patch path. *)
Abbreviation Revisions := (list (pystr * pystr)).

Section Tools.
Context {W : Type} `{WorkspacePort W} `{Difflib}.

(** The handlers around the bodies of edit and write. *)
Definition catch_mutation (operation file_path : pystr) (body : wst W ToolOutcome) (w : W)
    : ToolOutcome * W :=
  match body w with
  | (WOk o, w) => (o, w)
  | (WError e, w) => (workspace_mutation_failure e operation file_path, w)
  | (WRaise x, w) =>
    (plain_outcome FAILED None (Some ($"Error: " ++ exn_text x)) [] (Some KExecution), w)
  end.

Definition with_diff (d : ToolDiff) (o : ToolOutcome) : ToolOutcome :=
  {| status := status o; summary := summary o; content := content o; stdout := stdout o;
     stderr := stderr o; diff := Some d; diagnostics := diagnostics o; exit_code := exit_code o;
     duration_seconds := duration_seconds o; truncation := truncation o;
     archive_reference := archive_reference o; metadata := metadata o; error_kind := error_kind o;
     model_content := model_content o; retention_hint := retention_hint o; images := images o |}.

(** ** edit_file *)

Definition edit_file (file_path old_string new_string : pystr) (current : option WorkspaceRevision)
    : W -> ToolOutcome * W :=
  catch_mutation $"edit" file_path (
    r ← port_replace_exact_verified file_path old_string new_string current;
    resolved ← w_lift (port_resolve file_path);
    let d := build_tool_diff (or_empty (old_content r)) (new_content r) resolved in
    let text := Some ($"Edited " ++ file_path) in
    w_lift (of_result (project_successful_mutation
      (with_diff d (plain_outcome SUCCEEDED text text
        [ ($"operation", VStr $"edit"); ($"file_path", VStr file_path);
          ($"resolved_path", VStr resolved); ($"show_diff_by_default", VBool true) ] None))
      (receipt r) $"edit"))).

(** ** write_file *)

Definition line_count (content : pystr) : Z :=
  count_from [10] 0 content
  + (if negb (bool_decide (content = [])) && negb (endswith content [10]) then 1 else 0).

Definition write_file (file_path content : pystr) (current : option WorkspaceRevision)
    : W -> ToolOutcome * W :=
  catch_mutation $"write" file_path (
    r ← port_write_text_verified file_path content current;
    resolved ← w_lift (port_resolve file_path);
    let d := build_tool_diff (or_empty (old_content r)) content resolved in
    let n := line_count content in
    let text := Some ($"Wrote " ++ z_str n ++ $" lines to " ++ file_path) in
    w_lift (of_result (project_successful_mutation
      (with_diff d (plain_outcome SUCCEEDED text text
        [ ($"operation", VStr $"write"); ($"file_path", VStr file_path);
          ($"resolved_path", VStr resolved); ($"line_count", VInt n);
          ($"show_diff_by_default", VBool true) ] None))
      (receipt r) $"write"))).

(** ** apply_patch *)

Record PreparedFile := {
  pr_path : pystr;
  pr_old_content : pystr;
  pr_new_content : pystr;
  pr_expected_revision : WorkspaceRevision;
}.

(** [re.fullmatch(r"[0-9a-fA-F]{64}", value)]. *)
Definition is_hex64 (s : pystr) : bool :=
  (len s =? 64)
  && forallb (fun c => ((48 <=? c) && (c <=? 57)) || ((97 <=? c) && (c <=? 102))
                       || ((65 <=? c) && (c <=? 70))) s.

(** [s.lower()] on the hexadecimal digits. *)
Definition lower_hex (s : pystr) : pystr :=
  map (fun c => if (65 <=? c) && (c <=? 70) then c + 32 else c) s.

Definition check_revisions (files : list PatchFile) (expected : Revisions) : result () :=
  let unknown := filter (fun k => k ∉ map path files) expected.*1 in
  _ ← raise_if (negb (bool_decide (unknown = [])))
    (ValueError ($"expected_revisions has unknown paths: "
                 ++ py_repr (VList (map VStr (stable_sort text_leb unknown)))));
  raise_if (negb (forallb is_hex64 expected.*2))
    (ValueError $"expected revision hashes must contain 64 hexadecimal characters").

Definition absent : WorkspaceRevision :=
  {| r_exists := false; r_sha256 := None; r_size_bytes := 0; r_mtime_ns := None;
     r_authoritative := true |}.

(** The body of the loop of [_prepare]. *)
Definition prepare_file (expected : Revisions) (f : PatchFile) (s : WorkspaceDocumentSnapshot)
    : result PreparedFile :=
  if add f then
    if r_exists (sn_revision s)
    then Raise (ValueError ($"Add File target already exists: " ++ path f))
    else
      let lines := match hunks f with h :: _ => new h | [] => [] end in
      Ok {| pr_path := path f; pr_old_content := []; pr_new_content := join [10] lines ++ [10];
            pr_expected_revision := absent |}
  else
    match sn_content s with
    | None => Raise (ValueError ($"Update File target does not exist: " ++ path f))
    | Some o =>
      _ ← match assoc_get expected (path f) with
          | Some wanted =>
            raise_if (negb (bool_decide (r_sha256 (sn_revision s) = Some (lower_hex wanted))))
              (ValueError ($"expected revision mismatch for " ++ path f ++ $": wanted "
                 ++ take 12 (lower_hex wanted) ++ $", found " ++ short_sha256 (sn_revision s)))
          | None => Ok ()
          end;
      c ← apply_hunks o (hunks f) (path f);
      Ok {| pr_path := path f; pr_old_content := o; pr_new_content := c;
            pr_expected_revision := sn_revision s |}
    end.

Fixpoint prepare_files (expected : Revisions) (files : list PatchFile) : wst W (list PreparedFile) :=
  match files with
  | [] => mret []
  | f :: files =>
    s ← port_snapshot_text (path f);
    p ← w_lift (of_result (prepare_file expected f s));
    ps ← prepare_files expected files;
    mret (p :: ps)
  end.

Definition prepare (patch : pystr) (expected_revisions : option Revisions) : wst W (list PreparedFile) :=
  files ← w_lift (of_result (parse_patch patch));
  let expected := default [] expected_revisions in
  _ ← w_lift (of_result (check_revisions files expected));
  prepare_files expected files.

(** [_preflight_validate]: the message of the error, if any. *)
Definition preflight_validate (patch : pystr) (expected : option Revisions) : wst W (option pystr) := fun w =>
  match prepare patch expected w with
  | (WOk _, w) => (WOk None, w)
  | (WError e, w) => (WOk (Some ($"Error: " ++ e_message e)), w)
  | (WRaise (ValueError m), w) | (WRaise (TypeError m), w) => (WOk (Some ($"Error: " ++ m)), w)
  | (WRaise x, w) => (WRaise x, w)
  end.

(** [message.removeprefix("Error: ")]. *)
Definition remove_error_prefix (s : pystr) : pystr :=
  if startswith s $"Error: " then drop 7 s else s.

Definition patch_failure (message : pystr) : ToolOutcome :=
  plain_outcome FAILED None (Some ($"Error: " ++ message)) [] (Some KInvalidArguments).

Record Completed := { c_file : PreparedFile; c_outcome : ToolOutcome; c_receipt : WorkspaceMutationReceipt }.

(** The outcome of a patch that stopped. *)
Definition stopped_outcome (completed : list Completed) (item : PreparedFile) (e : WorkspaceError)
    (rest : list PreparedFile) : ToolOutcome :=
  let failure := workspace_mutation_failure e $"apply_patch" (pr_path item) in
  let remaining := map pr_path rest in
  plain_outcome FAILED None
    (Some ($"Patch stopped at " ++ pr_path item ++ $"; " ++ z_str (len completed)
           ++ $" file(s) were already written and " ++ z_str (len remaining)
           ++ $" were not attempted." ++ [10; 10] ++ or_empty (content failure)))
    (dict_update (metadata failure)
      [ ($"operation", VStr $"apply_patch");
        ($"applied_files", VList (map (fun c => VStr (pr_path (c_file c))) completed));
        ($"failed_file", VStr (pr_path item));
        ($"unattempted_files", VList (map VStr remaining)) ])
    (error_kind failure).

(** One file of the writing loop. *)
Definition written_file (item : PreparedFile) (m : WorkspaceMutationReceipt) (resolved : pystr)
    : result Completed :=
  let text := Some ($"Patched " ++ pr_path item) in
  let d := build_tool_diff (pr_old_content item) (pr_new_content item) resolved in
  o ← project_successful_mutation
    (with_diff d (plain_outcome SUCCEEDED text text
      [ ($"operation", VStr $"apply_patch"); ($"file_path", VStr (pr_path item));
        ($"resolved_path", VStr resolved) ] None)) m $"apply_patch";
  Ok {| c_file := item; c_outcome := o; c_receipt := m |}.

Definition diff_text (o : ToolOutcome) : pystr :=
  match diff o with Some d => unified d | None => [] end.

Definition applied_outcome (completed : list Completed) : ToolOutcome :=
  let head_text := $"Applied patch to " ++ z_str (len completed) ++ $" file(s)" in
  let resolved_of c := dget_none (metadata (c_outcome c)) $"resolved_path" in
  let resolved_paths := VList (map resolved_of completed) in
  let file_results := VList (map (fun c => VDict
    [ ($"file_path", VStr (pr_path (c_file c))); ($"resolved_path", resolved_of c);
      ($"mutation_receipt", VDict (receipt_to_dict (c_receipt c)));
      ($"diff", VStr (diff_text (c_outcome c))) ]) completed) in
  let base := [ ($"operation", VStr $"apply_patch"); ($"file_count", VInt (len completed));
                ($"resolved_paths", resolved_paths); ($"file_results", file_results);
                ($"show_diff_by_default", VBool true) ] in
  let md := match completed with
    | [only] => dset (dset (dict_update base (metadata (c_outcome only)))
                  $"resolved_paths" resolved_paths) $"file_results" file_results
    | _ => base
    end in
  let o := plain_outcome SUCCEEDED (Some head_text)
    (Some (head_text ++ [10; 10] ++ join [10; 10] (map (fun c =>
       model_text (c_outcome c) ++ match diff (c_outcome c) with
         | Some d => 10 :: unified d | None => [] end) completed))) md None in
  match completed with
  | [only] => match diff (c_outcome only) with Some d => with_diff d o | None => o end
  | _ => o
  end.

Fixpoint write_prepared (completed : list Completed) (rest : list PreparedFile) : wst W ToolOutcome :=
  match rest with
  | [] => mret (applied_outcome completed)
  | item :: rest => fun w =>
    match port_write_text_verified (pr_path item) (pr_new_content item)
            (Some (pr_expected_revision item)) w with
    | (WError e, w) => (WOk (stopped_outcome completed item e rest), w)
    | (WRaise x, w) => (WRaise x, w)
    | (WOk r, w) =>
      (resolved ← w_lift (port_resolve (pr_path item));
       c ← w_lift (of_result (written_file item (receipt r) resolved));
       write_prepared (completed ++ [c]) rest) w
    end
  end.

(** [_execute_local]: the second preparation is not guarded. *)
Definition apply_patch (patch : pystr) (expected : option Revisions) : wst W ToolOutcome :=
  v ← preflight_validate patch expected;
  match v with
  | Some message => mret (patch_failure (remove_error_prefix message))
  | None => prepared ← prepare patch expected; write_prepared [] prepared
  end.
End Tools.

(** ** What a patch reports *)

Section Report.
Context {W : Type} `{WorkspacePort W} `{Difflib}.

(** The files of a list were written, one after the other. *)
Inductive wrote : list PreparedFile -> W -> W -> Prop :=
| wrote_nil w : wrote [] w w
| wrote_cons f fs w r w1 w2 :
    port_write_text_verified (pr_path f) (pr_new_content f) (Some (pr_expected_revision f)) w = (WOk r, w1) ->
    wrote fs w1 w2 -> wrote (f :: fs) w w2.

Lemma written_file_file item m resolved c : written_file item m resolved = Ok c -> c_file c = item.
Proof. unfold written_file. intros Hc. ok_inv Hc. by injection Hc as <-. Qed.

Lemma write_prepared_spec rest : forall completed w o w',
  write_prepared completed rest w = (WOk o, w') ->
  exists done w1, wrote done w w1 /\
    ((rest = done /\ w' = w1 /\ exists all, map c_file all = map c_file completed ++ done /\
        o = applied_outcome all) \/
     (exists item left e, rest = done ++ item :: left /\
        port_write_text_verified (pr_path item) (pr_new_content item)
          (Some (pr_expected_revision item)) w1 = (WError e, w') /\
        exists all, map c_file all = map c_file completed ++ done /\ o = stopped_outcome all item e left)).
Proof.
  induction rest as [|item rest IH]; intros completed w o w'; cbn [write_prepared].
  - intros [= <- <-]. exists [], w. split; [constructor|left]. split; [done|]. split; [done|].
    exists completed. by rewrite app_nil_r.
  - destruct (port_write_text_verified _ _ _ w) as [[r|e|x] w1] eqn:Hw; [| |done].
    + unfold mbind, wst_bind, w_lift. destruct (port_resolve (pr_path item)) as [resolved|e|x]; [|done..].
      destruct (written_file item (receipt r) resolved) as [c|x] eqn:Hc; cbn [of_result]; [|done].
      intros Hrest. destruct (IH _ _ _ _ Hrest) as (don & w2 & Hwr & Hcase).
      exists (item :: don), w2. split; [by econstructor|].
      rewrite map_app in Hcase. cbn [map] in Hcase. rewrite (written_file_file _ _ _ _ Hc) in Hcase.
      destruct Hcase as [(-> & -> & all & Hall & ->)|(item' & lft & e & -> & Hw' & all & Hall & ->)].
      * left. split; [done|]. split; [done|]. exists all. by rewrite Hall, <- app_assoc.
      * right. exists item', lft, e. split; [done|]. split; [done|]. exists all. by rewrite Hall, <- app_assoc.
    + intros [= <- <-]. exists [], w. split; [constructor|right]. exists item, rest, e.
      split; [done|]. split; [done|]. exists completed. by rewrite app_nil_r.
Qed.

(** A patch writes all or says exactly what it wrote.  Nothing is written
    unless every file of the patch was prepared; the files are then written in
    order; and when a write fails the outcome names the files written before it,
    the failed one, and those not attempted, and these are the facts. *)
Theorem patch_report_exact patch expected w o w' :
  apply_patch patch expected w = (WOk o, w') ->
  (exists message, o = patch_failure message /\ w' = (prepare patch expected w).2) \/
  exists ps w1 prepared w2 done w3,
    prepare patch expected w = (WOk ps, w1) /\ prepare patch expected w1 = (WOk prepared, w2) /\
    wrote done w2 w3 /\
    ((prepared = done /\ w' = w3 /\ status o = SUCCEEDED) \/
     exists item left e, prepared = done ++ item :: left /\ status o = FAILED /\
       port_write_text_verified (pr_path item) (pr_new_content item)
         (Some (pr_expected_revision item)) w3 = (WError e, w') /\
       dget (metadata o) $"applied_files" = Some (VList (map (VStr ∘ pr_path) done)) /\
       dget (metadata o) $"failed_file" = Some (VStr (pr_path item)) /\
       dget (metadata o) $"unattempted_files" = Some (VList (map (VStr ∘ pr_path) left))).
Proof.
  unfold apply_patch, preflight_validate, mbind, wst_bind. intros Hp.
  destruct (prepare patch expected w) as [[ps|e|x] w1] eqn:Hprep.
  - destruct (prepare patch expected w1) as [[prepared|e|x] w2] eqn:Hprep2; [|done..].
    destruct (write_prepared_spec _ _ _ _ _ Hp) as (don & w3 & Hwr & Hcase). right.
    exists ps, w1, prepared, w2, don, w3. split; [done|]. split; [done|]. split; [done|].
    cbn [map app] in Hcase.
    destruct Hcase as [(-> & -> & all & Hall & ->)|(item & lft & e & -> & Hw & all & Hall & ->)].
    + left. split; [done|]. split; [done|]. unfold applied_outcome. destruct all as [|c [|]]; try done.
      by destruct (diff (c_outcome c)).
    + right. exists item, lft, e. split; [done|]. split; [done|]. split; [done|].
      unfold stopped_outcome. cbn [plain_outcome metadata]. unfold dict_update. cbn [foldl fst snd].
      autorewrite with pydict. rewrite <- Hall, !map_map. done.
  - injection Hp as <- <-. left. eexists. by split.
  - destruct x; try done; injection Hp as <- <-; left; eexists; by split.
Qed.
End Report.

(** ** Patches on a local workspace nobody else changes *)

Section Quiet.
Context `{CodecLaws} `{PathsLaws} `{Difflib} (root : pystr) (grants : list pystr) (mtime : Z).

Definition quiet_attempt : AttemptEnv :=
  {| before_attempt := id; attempt_read := Reads; attempt_write := quiet mtime |}.

#[local] Instance quiet_port : WorkspacePort Disk := {
  port_resolve := resolve root grants;
  port_snapshot_text p := snapshot_text root grants p Reads;
  port_write_text_verified p c r := write_text_verified root grants p c r (quiet mtime);
  port_replace_exact_verified p o n r :=
    replace_exact_verified root grants p o n r quiet_attempt quiet_attempt quiet_attempt;
}.

Lemma snapshot_quiet p d s d' :
  port_snapshot_text p d = (WOk s, d') ->
  exists t, resolve root grants p = WOk t /\ d' = d /\
    sn_content s = decode_replace ∘ fst <$> d !! t /\ sn_revision s = disk_revision d t.
Proof.
  cbn [port_snapshot_text quiet_port]. unfold snapshot_text, mbind, wst_bind, w_lift, w_read.
  destruct (resolve root grants p) as [t| |]; [|done..]. intros [= <- <-]. by exists t.
Qed.

(** What the preparation of one file read and computed. *)
Definition prepared_from (expected : Revisions) (d : Disk) (f : PatchFile) (p : PreparedFile) : Prop :=
  exists t s, resolve root grants (path f) = WOk t /\
    sn_content s = decode_replace ∘ fst <$> d !! t /\ sn_revision s = disk_revision d t /\
    prepare_file expected f s = Ok p.

Lemma prepare_files_quiet expected files : forall d ps d',
  prepare_files expected files d = (WOk ps, d') ->
  d' = d /\ Forall2 (prepared_from expected d) files ps.
Proof.
  induction files as [|f files IH]; intros d ps d'; cbn [prepare_files].
  - by intros [= <- <-].
  - unfold mbind, wst_bind, w_lift. destruct (port_snapshot_text (path f) d) as [[s| |] d1] eqn:Hs; [|done..].
    destruct (snapshot_quiet _ _ _ _ Hs) as (t & Ht & -> & Hc & Hr).
    destruct (prepare_file expected f s) as [p|x] eqn:Hp; cbn [of_result]; [|done].
    destruct (prepare_files expected files d) as [[ps'| |] d2] eqn:Hps; [|done..].
    intros [= <- <-]. destruct (IH _ _ _ Hps) as [-> Hall]. split; [done|].
    constructor; [|done]. by exists t, s.
Qed.

Lemma prepare_quiet patch expected d ps d' :
  prepare patch expected d = (WOk ps, d') ->
  exists files, parse_patch patch = Ok files /\ d' = d /\
    Forall2 (prepared_from (default [] expected) d) files ps.
Proof.
  unfold prepare, mbind, wst_bind, w_lift. destruct (parse_patch patch) as [files|]; cbn [of_result]; [|done].
  destruct (check_revisions _ _); cbn [of_result]; [|done]. intros [-> Hall]%prepare_files_quiet. by exists files.
Qed.

Lemma prepared_path expected d f p : prepared_from expected d f p -> pr_path p = path f.
Proof.
  intros (t & s & _ & _ & _ & Hp). unfold prepare_file in Hp. destruct (add f).
  - destruct (r_exists (sn_revision s)); [done|]. by injection Hp as <-.
  - destruct (sn_content s); [|done]. apply bind_ok in Hp as (u & _ & Hp). apply bind_ok in Hp as (c & _ & Hp).
    by injection Hp as <-.
Qed.

Definition put (d : Disk) (tb : pystr * list Z) : Disk := <[tb.1 := (tb.2, mtime)]> d.

Lemma wrote_quiet fs d d' :
  wrote fs d d' ->
  exists tbs, Forall2 (fun f tb => normalize (pr_path f) = inr tb.1 /\
                                   utf8_encode (pr_new_content f) = Ok tb.2) fs tbs /\
    d' = foldl put d tbs.
Proof.
  induction 1 as [d|f fs d r d1 d2 Hw _ (tbs & Hall & ->)]; [by exists []|].
  cbn [port_write_text_verified quiet_port] in Hw.
  pose proof (write_base_spec root grants (pr_path f) (pr_new_content f) (Some (pr_expected_revision f)) None
    (quiet mtime) d) as Hs. unfold write_text_verified in Hw. rewrite Hw in Hs. destruct Hs as [Hs _].
  inversion Hs as [? ? Hf|t b mt m Hn Hb Hio|]; subst; [done|].
  cbn in Hio. injection Hio as <-. eexists ((_, _) :: tbs). split; [constructor; [split; [exact Hn|exact Hb]|exact Hall]|done].
Qed.

Lemma foldl_put tbs : forall d,
  NoDup tbs.*1 ->
  (forall t b, (t, b) ∈ tbs -> foldl put d tbs !! t = Some (b, mtime)) /\
  forall t, t ∉ tbs.*1 -> foldl put d tbs !! t = d !! t.
Proof.
  induction tbs as [|[t0 b0] tbs IH]; intros d Hnd; cbn [foldl].
  - split; [intros t b Hin; by apply elem_of_nil in Hin|done].
  - cbn in Hnd. apply NoDup_cons in Hnd as [Hni Hnd]. destruct (IH (put d (t0, b0)) Hnd) as [Hput Hkeep].
    split.
    + intros t b [[= -> ->]|Hin]%elem_of_cons; [|by apply Hput]. rewrite Hkeep by done. apply lookup_insert_eq.
    + intros t Hni'. cbn in Hni'. apply not_elem_of_cons in Hni' as [Hne Hni']. rewrite Hkeep by done.
      by apply lookup_insert_ne.
Qed.

(** What a file of the patch asks for. *)
Definition requested (d : Disk) (f : PatchFile) (t text : pystr) : Prop :=
  if add f
  then d !! t = None /\ text = join [10] (match hunks f with h :: _ => new h | [] => [] end) ++ [10]
  else exists b m, d !! t = Some (b, m) /\ apply_hunks (decode_replace b) (hunks f) (path f) = Ok text.

Lemma prepared_requested expected d f p :
  prepared_from expected d f p ->
  exists t, resolve root grants (path f) = WOk t /\ normalize (path f) = inr t /\
    requested d f t (pr_new_content p).
Proof.
  intros (t & s & Ht & Hc & Hr & Hp). exists t. split; [done|]. destruct (resolve_spec root grants _ _ Ht) as [Hn _].
  split; [done|]. unfold requested, prepare_file in *. destruct (add f).
  - rewrite Hr in Hp. unfold disk_revision in Hp. destruct (d !! t) as [[b m]|]; [done|]. cbn in Hp.
    by injection Hp as <-.
  - rewrite Hc in Hp. destruct (d !! t) as [[b m]|]; [|done]. cbn in Hp.
    apply bind_ok in Hp as (u & _ & Hp). apply bind_ok in Hp as (c & Hh & Hp). injection Hp as <-.
    by exists b, m.
Qed.

(** Preparing only reads. *)
Lemma prepare_reads patch expected d : (prepare patch expected d).2 = d.
Proof.
  assert (Hfiles : forall ex files d, (prepare_files ex files d).2 = d).
  { intros ex files. induction files as [|f files IH]; intros d0; [done|]. cbn [prepare_files].
    unfold mbind, wst_bind, w_lift. cbn [port_snapshot_text quiet_port].
    unfold snapshot_text, mbind, wst_bind, w_lift, w_read.
    destruct (resolve root grants (path f)); [|done..]. destruct (prepare_file ex f _); cbn [of_result]; [|done].
    specialize (IH d0). destruct (prepare_files ex files d0) as [[ps| |] d1]; cbn in *; by subst. }
  unfold prepare, mbind, wst_bind, w_lift. destruct (parse_patch patch); cbn [of_result]; [|done].
  destruct (check_revisions _ _); cbn [of_result]; [|done]. apply Hfiles.
Qed.

Lemma write_quiet_no_error p t c r d :
  resolve root grants p = WOk t ->
  match (port_write_text_verified p c r d).1 with WError _ => False | _ => True end.
Proof.
  intros Hr. cbn [port_write_text_verified quiet_port]. destruct (utf8_encode c) as [b|x] eqn:Hb.
  - by destruct (write_quiet root grants p t c b r mtime d Hr Hb) as (y & -> & _).
  - destruct (resolve_spec root grants _ _ Hr) as [_ Hrt].
    unfold write_text_verified, write_base, snapshot_text, mbind, wst_bind, w_lift, w_modify, w_read.
    cbv beta iota. rewrite Hr, Hrt. cbn [quiet on_snapshot read_before sn_revision sn_content id]. by rewrite Hb.
Qed.

Lemma prepared_targets expected d files ps :
  Forall2 (prepared_from expected d) files ps ->
  exists targets, Forall2 (fun f t => resolve root grants (path f) = WOk t) files targets /\
    Forall2 (fun p t => normalize (pr_path p) = inr t /\ resolve root grants (pr_path p) = WOk t) ps targets /\
    forall i f p t, files !! i = Some f -> ps !! i = Some p -> targets !! i = Some t ->
      requested d f t (pr_new_content p).
Proof.
  induction 1 as [|f p files ps Hf Hfs (ts & Hput & Hkeep & Hreqs)].
  - exists []. split_and!; try constructor. intros i f p t Hi; done.
  - destruct (prepared_requested _ _ _ _ Hf) as (t & Ht & Hn & Hreq). exists (t :: ts).
    split_and!; [by constructor| |].
    + constructor; [|done]. by rewrite (prepared_path _ _ _ _ Hf).
    + intros [|i] f' p' t' Hf' Hp' Ht'; cbn in *; [by simplify_eq|by eapply Hreqs].
Qed.

(** C21: A successful patch does what it says.  On a local workspace that nobody
    else changes, when the files of the patch are different files, every file
    then holds exactly the new content the patch asks for (the added lines, or
    its old content with the hunks applied) and all other files are as before;
    a patch that does not succeed changes nothing. *)
Theorem patch_applied patch expected d o d' :
  apply_patch patch expected d = (WOk o, d') ->
  (status o <> SUCCEEDED -> d' = d) /\
  (status o = SUCCEEDED ->
   exists files targets, parse_patch patch = Ok files /\
     Forall2 (fun f t => resolve root grants (path f) = WOk t) files targets /\
     (NoDup targets ->
      (forall i f t, files !! i = Some f -> targets !! i = Some t ->
         exists text b, requested d f t text /\ utf8_encode text = Ok b /\ d' !! t = Some (b, mtime)) /\
      forall t, t ∉ targets -> d' !! t = d !! t)).
Proof.
  intros Hp. unfold apply_patch, preflight_validate, mbind, wst_bind in Hp.
  pose proof (prepare_reads patch expected d) as Hd.
  destruct (prepare patch expected d) as [[ps|e|x] d1] eqn:Hprep; cbn [snd] in Hd; subst d1.
  2:{ by injection Hp as <- <-. }
  2:{ destruct x; try done; by injection Hp as <- <-. }
  rewrite Hprep in Hp. destruct (prepare_quiet _ _ _ _ _ Hprep) as (files & Hparse & _ & Hall).
  destruct (prepared_targets _ _ _ _ Hall) as (targets & Hres & Hnorm & Hreq).
  destruct (write_prepared_spec _ _ _ _ _ Hp) as (don & w1 & Hwr & Hcase).
  destruct (wrote_quiet _ _ _ Hwr) as (tbs & Htbs & ->).
  destruct Hcase as [(-> & -> & all & _ & ->)|(item & lft & e & -> & Hw & _)].
  - assert (Hst : status (applied_outcome all) = SUCCEEDED).
    { unfold applied_outcome. destruct all as [|c [|]]; try done. by destruct (diff (c_outcome c)). }
    split; [done|]. intros _. exists files, targets. split; [done|]. split; [done|]. intros Hnd.
    assert (Hfst : tbs.*1 = targets).
    { clear -Htbs Hnorm. revert targets Hnorm. induction Htbs as [|f tb fs tbs [Hn _] _ IH]; intros [|t ts] Hts;
        inversion Hts as [|? ? ? ? [Hn' _] Hts']; subst; [done|]. cbn. f_equal; [congruence|by apply IH]. }
    rewrite <- Hfst in Hnd. destruct (foldl_put tbs d Hnd) as [Hput Hkeep]. split; [|intros t Hni; apply Hkeep; by rewrite Hfst].
    intros i f t Hf Ht.
    destruct (Forall2_lookup_l _ _ _ _ _ Hall Hf) as (p & Hpi & _).
    destruct (Forall2_lookup_l _ _ _ _ _ Htbs Hpi) as ([t' b] & Hb & Hn' & Hb').
    rewrite <- Hfst, list_lookup_fmap, Hb in Ht. injection Ht as <-. cbn [fst snd] in *.
    exists (pr_new_content p), b. split_and!; [|done|apply Hput; by eapply list_elem_of_lookup_2].
    eapply Hreq; [exact Hf|exact Hpi|]. rewrite <- Hfst, list_lookup_fmap, Hb. done.
  - exfalso. apply Forall2_app_inv_l in Hnorm as (k1 & k2 & _ & Hk & _).
    apply Forall2_cons_inv_l in Hk as (t & k' & [_ Ht] & _ & _).
    pose proof (write_quiet_no_error _ _ (pr_new_content item) (Some (pr_expected_revision item)) (foldl put d tbs) Ht) as Hno.
    by rewrite Hw in Hno.
Qed.
End Quiet.

(** ** Witnesses *)

Definition no_difflib : Difflib := {| unified_diff _ _ _ _ _ := [] |}.

Definition example_patch : pystr :=
  join [10] [BEGIN_PATCH; $"*** Update File: /w/a"; $"@@"; $"-old"; $"+new"; $"*** Add File: /w/b"; $"+one";
             END_PATCH].

Definition two_line_disk : Disk := {[ $"/w/a" := ($"old" ++ [10] ++ $"text" ++ [10], 1) ]}.

Local Abbreviation example_run :=
  (apply_patch (H := quiet_port (H := example_codec) (H1 := example_paths) $"/w" [] 2) (H0 := no_difflib)
     example_patch None two_line_disk).

Lemma example_run_succeeds :
  match fst example_run with WOk o => bool_decide (status o = SUCCEEDED) | _ => false end = true.
Proof. vm_compute. reflexivity. Qed.

Lemma patch_applied_witness :
  match example_run with
  | (WOk o, d') => status o = SUCCEEDED /\
      fst <$> d' !! $"/w/a" = Some ($"new" ++ [10] ++ $"text" ++ [10]) /\
      exists files targets, parse_patch example_patch = Ok files /\
        Forall2 (fun f t => resolve (H0 := example_paths) $"/w" [] (path f) = WOk t) files targets /\
        (NoDup targets -> forall t, t ∉ targets -> d' !! t = two_line_disk !! t)
  | _ => False
  end.
Proof.
  destruct example_run as [r d'] eqn:E.
  assert (Hr : exists o, r = WOk o /\ status o = SUCCEEDED).
  { apply (f_equal fst) in E. cbn [fst] in E. pose proof example_run_succeeds as Hb. rewrite E in Hb.
    destruct r as [o| |]; try discriminate Hb. exists o. split; [done|]. by apply bool_decide_eq_true in Hb. }
  assert (Hd : fst <$> d' !! $"/w/a" = Some ($"new" ++ [10] ++ $"text" ++ [10])).
  { apply (f_equal snd) in E. cbn [snd] in E. rewrite <- E. by vm_compute. }
  destruct Hr as (o & -> & Hs). split; [exact Hs|]. split; [exact Hd|].
  pose proof (patch_applied (H0 := example_codec_laws) (H2 := example_paths_laws) (H3 := no_difflib) $"/w" [] 2
    example_patch None two_line_disk o d' E) as [_ Hok].
  destruct (Hok Hs) as (files & targets & Hp & Ht & Hall). exists files, targets.
  split; [exact Hp|]. split; [exact Ht|]. intros Hnd. by destruct (Hall Hnd).
Defined.

Lemma patch_report_exact_witness :
  match example_run with
  | (WOk o, d') => status o = SUCCEEDED /\
    ((exists message, o = patch_failure message) \/
     exists prepared d2 d3, wrote (H := quiet_port (H := example_codec) (H1 := example_paths) $"/w" [] 2)
       prepared d2 d3)
  | _ => False
  end.
Proof.
  destruct example_run as [r d'] eqn:E.
  assert (Hr : exists o, r = WOk o /\ status o = SUCCEEDED).
  { apply (f_equal fst) in E. cbn [fst] in E. pose proof example_run_succeeds as Hb. rewrite E in Hb.
    destruct r as [o| |]; try discriminate Hb. exists o. split; [done|]. by apply bool_decide_eq_true in Hb. }
  destruct Hr as (o & -> & Hs). split; [exact Hs|].
  destruct (patch_report_exact (H := quiet_port (H := example_codec) (H1 := example_paths) $"/w" [] 2)
    (H0 := no_difflib) example_patch None two_line_disk o d' E)
    as [(m & Hm & _)|(ps & w1 & prepared & w2 & don & w3 & _ & _ & Hw & _)]; [left; by exists m|right].
  by exists don, w2, w3.
Defined.

(** ** Behaviours the texts of the tool do not promise *)

(** Two spellings of one path are two files to the patch: the second write puts
    back the first one's lines, and the patch reports success. *)
Definition aliasing_paths : Paths :=
  {| normalize p := if bool_decide (p = $"./a") then inr $"/w/a" else match p with [] => inl [] | _ => inr p end |}.

Definition aliased_patch : pystr :=
  join [10] [BEGIN_PATCH; $"*** Update File: /w/a"; $"@@"; $"-old"; $"+new";
             $"*** Update File: ./a"; $"@@"; $"-text"; $"+words"; END_PATCH].

Lemma aliased_paths_lose_an_edit :
  match apply_patch (H := quiet_port (H := example_codec) (H1 := aliasing_paths) $"/w" [] 2)
          (H0 := no_difflib) aliased_patch None two_line_disk with
  | (WOk o, d') => status o = SUCCEEDED /\
                   fst <$> d' !! $"/w/a" = Some ($"old" ++ [10] ++ $"words" ++ [10])
  | _ => False
  end.
Proof. by vm_compute. Qed.

(** A workspace where another program writes at the given moments. *)
Definition racing_port (before after : Disk -> Disk) : WorkspacePort Disk :=
  {| port_resolve := resolve (H0 := example_paths) $"/w" [];
     port_snapshot_text p := snapshot_text (H := example_codec) (H0 := example_paths) $"/w" [] p Reads;
     port_write_text_verified p c r :=
       write_text_verified (H := example_codec) (H0 := example_paths) $"/w" [] p c r
         {| on_snapshot := before; read_before := Reads; on_replace := id; write_io := Replaced 2;
            on_observe := after; read_after := Reads |};
     port_replace_exact_verified p o n r := w_lift (WRaise (OtherError [])) |}.

Definition one_file_patch : pystr :=
  join [10] [BEGIN_PATCH; $"*** Update File: /w/a"; $"@@"; $"-old"; $"+new"; END_PATCH].

(** A change made after the preparation is overwritten by a successful patch. *)
Lemma prepared_revision_not_checked :
  match apply_patch (H := racing_port (<[ $"/w/a" := ($"theirs", 7) ]>) id) (H0 := no_difflib)
          one_file_patch None two_line_disk with
  | (WOk o, d') => status o = SUCCEEDED /\
                   fst <$> d' !! $"/w/a" = Some ($"new" ++ [10] ++ $"text" ++ [10])
  | _ => False
  end.
Proof. by vm_compute. Qed.

(** A file that does not hold the new content after the write leaves the patch
    successful, while [write_file] reports a failure for the same receipt. *)
Lemma diverged_patch_succeeds :
  let port := racing_port id (<[ $"/w/a" := ($"theirs", 7) ]>) in
  match apply_patch (H := port) (H0 := no_difflib) one_file_patch None two_line_disk with
  | (WOk o, d') => status o = SUCCEEDED /\ fst <$> d' !! $"/w/a" = Some $"theirs"
  | _ => False
  end /\
  status (write_file (H := port) (H0 := no_difflib) $"/w/a" $"new" None two_line_disk).1 = FAILED.
Proof. by vm_compute. Qed.
