(* ===== verification/Replay.v ===== *)
(** * Replay envelopes (domain/context/replay.py)

    A replay envelope is the exact request sent to the model, in canonical form
    with two hashes, so that a restored session can prove it sends the same
    again; [ItemProvenanceIndex] traces every item of a request to the ledger
    event it came from, reusing the hashes of earlier requests.

    Unicode normalisation ([unicodedata.normalize("NFC", ...)]) and SHA-256 of
    the encoded text are parameters; fresh identifiers are inputs. *)

From S2P Require Import Prelude PyValue Json Lines ToolHistory Sanitizer Ledger Workspace.

(** [nfc_inert]: a control character neither combines with its neighbours nor
    appears from nothing. *)
Class Unicode := { nfc : pystr -> pystr }.
Class UnicodeLaws `{Unicode} := {
  nfc_idem s : nfc (nfc s) = nfc s;
  nfc_nonempty s : nfc s = [] -> s = [];
  nfc_inert s c t : 0 <= c < 32 -> nfc (s ++ c :: t) = nfc s ++ c :: nfc t;
  nfc_control s c : 0 <= c < 32 -> c ∈ nfc s -> c ∈ s;
}.

(** [hashlib.sha256(text.encode("utf-8")).hexdigest()] on encodable texts. *)
Class TextDigest := { text_digest : pystr -> pystr }.

(** [for x in l: f(x)], where [f] may raise. *)
Definition each {A} (f : A -> result ()) : list A -> result () :=
  fix go l := match l with [] => Ok () | x :: l' => _ ← f x; go l' end.

Lemma each_ok {A} (f : A -> result ()) l : each f l = Ok () <-> Forall (fun x => f x = Ok ()) l.
Proof.
  induction l as [|x l IH]; cbn; [by split; [constructor|]|]. unfold mbind, result_bind.
  rewrite Forall_cons, <- IH. destruct (f x) as [[]|e]; [tauto|]. split; [done|intros [? _]; done].
Qed.

(** ** Canonical values *)

Section Canonical.
Context `{Unicode} `{TextDigest}.

Definition canonical_text (s : pystr) : pystr := nfc (py_replace [13; 10] [10] s).

Definition key_leb (p q : pystr * pyval) : bool := text_leb p.1 q.1.

(** Keys sorted, the token count dropped, texts in one form. *)
Definition canonical_items (d : pydict) : pydict :=
  filter (fun kv : pystr * pyval => kv.1 <> $"_rc_token_count") (stable_sort key_leb d).

Fixpoint canonicalize (v : pyval) : pyval :=
  match v with
  | VDict d => VDict (canonical_items (map (fun kv => (kv.1, canonicalize kv.2)) d))
  | VList l => VList (map canonicalize l)
  | VStr s => VStr (canonical_text s)
  | _ => v
  end.

Definition canonical_dict (d : pydict) : pydict :=
  canonical_items (map (fun kv => (kv.1, canonicalize kv.2)) d).

Definition canonical_json (v : pyval) : pystr := json_compact (sort_keys (canonicalize v)).

Definition content_hash (v : pyval) : result pystr :=
  let s := canonical_json v in
  if encodable s then Ok (text_digest s) else Raise (ValueError $"surrogates not allowed").

(** ** Validation of persisted values *)

Definition MAX_REPLAY_COUNTER : Z := Z.shiftl 1 63 - 1.

Definition is_finite (r : pystr) : bool := negb (bool_decide (r ∈ [$"nan"; $"inf"; $"-inf"])).

(** [_validate_json_value]; the keys of an object are texts by its type. *)
Fixpoint validate_json_value (v : pyval) (depth : Z) : result () :=
  if 32 <? depth then Raise (ValueError $"provider value nesting is too deep")
  else match v with
  | VNone | VBool _ | VInt _ | VStr _ => Ok ()
  | VFloat r => raise_if (negb (is_finite r)) (ValueError $"provider value contains a non-finite number")
  | VList l => each (fun x => validate_json_value x (depth + 1)) l
  | VDict d => each (fun kv => validate_json_value kv.2 (depth + 1)) d
  end.

Definition PROVIDER_MESSAGE_ROLES : list pystr :=
  [$"system"; $"developer"; $"user"; $"assistant"; $"tool"].

(** [isinstance(v, str)], and [isinstance(v, str) and v]. *)
Definition is_text (v : pyval) : bool := match v with VStr _ => true | _ => false end.
Definition is_filled_text (v : pyval) : bool := match v with VStr (_ :: _) => true | _ => false end.
Definition is_none (v : pyval) : bool := match v with VNone => true | _ => false end.
Definition is_dict (v : pyval) : bool := match v with VDict _ => true | _ => false end.
Definition is_list (v : pyval) : bool := match v with VList _ => true | _ => false end.

(** [role in roles]: lists and objects are not hashable. *)
Definition check_role (v : pyval) : result () :=
  match v with
  | VStr s => raise_if (negb (bool_decide (s ∈ PROVIDER_MESSAGE_ROLES)))
                (ValueError $"provider message role is invalid")
  | VList _ | VDict _ => Raise (TypeError $"unhashable type")
  | _ => Raise (ValueError $"provider message role is invalid")
  end.

Definition check_content_part (v : pyval) : result () :=
  match v with
  | VDict part =>
    _ ← raise_if (negb (is_filled_text (dget_none part $"type")))
      (ValueError $"provider content part type is invalid");
    _ ← raise_if (existsb (is_str (dget_none part $"type")) [$"text"; $"input_text"; $"output_text"]
                  && negb (is_text (dget_none part $"text")))
      (TypeError $"provider text content is invalid");
    validate_json_value v 0
  | _ => Raise (TypeError $"provider content part must be an object")
  end.

Definition check_content (role : pyval) (content : option pyval) : result () :=
  match content with
  | None => Raise (ValueError $"provider message content is missing")
  | Some c =>
    _ ← raise_if (negb (is_none c || is_text c || is_list c))
      (TypeError $"provider message content is invalid");
    _ ← raise_if (is_none c && negb (is_str role $"assistant"))
      (ValueError $"only assistant content may be null");
    match c with VList l => each check_content_part l | _ => Ok () end
  end.

Definition check_tool_call (v : pyval) : result () :=
  match v with
  | VDict call =>
    let fn := match dget_none call $"function" with VDict f => f | _ => [] end in
    _ ← raise_if (negb (is_filled_text (dget_none call $"id")
                        && is_str (dget_or call $"type" (VStr $"function")) $"function"
                        && is_dict (dget_none call $"function")
                        && is_filled_text (dget_none fn $"name") && is_text (dget_none fn $"arguments")))
      (ValueError $"provider function tool call is invalid");
    validate_json_value v 0
  | _ => Raise (TypeError $"provider tool call must be an object")
  end.

Definition check_tool_calls (role calls : pyval) : result () :=
  match calls with
  | VNone => Ok ()
  | VList l =>
    _ ← raise_if (negb (is_str role $"assistant")) (TypeError $"provider tool_calls is invalid");
    each check_tool_call l
  | _ => Raise (TypeError $"provider tool_calls is invalid")
  end.

Definition validate_provider_message (v : pyval) : result () :=
  match v with
  | VDict m =>
    let role := dget_none m $"role" in
    _ ← check_role role;
    _ ← check_content role (dget m $"content");
    let id := dget_none m $"tool_call_id" in
    _ ← raise_if (negb (is_none id) && negb (is_filled_text id))
      (ValueError $"provider tool_call_id is invalid");
    _ ← raise_if (is_str role $"tool" && negb (is_text id))
      (ValueError $"tool message requires tool_call_id");
    let name := dget_none m $"name" in
    _ ← raise_if (negb (is_none name) && negb (is_filled_text name))
      (ValueError $"provider message name is invalid");
    _ ← check_tool_calls role (dget_none m $"tool_calls");
    validate_json_value v 0
  | _ => Raise (TypeError $"provider message must be an object")
  end.

(** ** Validation of a persisted envelope *)

Definition REQUIRED_FIELDS : list pystr :=
  [$"schema_version"; $"session_id"; $"view_id"; $"cache_epoch"; $"history_version"; $"model_profile";
   $"provider_family"; $"request_mode"; $"instructions"; $"tools"; $"items"; $"stable_prefix_hash";
   $"canonical_payload_hash"].

Definition required_fields (version : Z) : list pystr :=
  REQUIRED_FIELDS ++ (if 2 <=? version then [$"request_settings"] else [])
  ++ (if 3 <=? version then [$"item_provenance"] else []).

Definition check_version (v : pyval) : result Z :=
  match v with
  | VInt n => if bool_decide (n ∈ [1; 2; 3]) then Ok n
              else Raise (ValueError $"replay schema version is unsupported")
  | _ => Raise (ValueError $"replay schema version is unsupported")
  end.

Definition check_session_id (version : Z) (id : pyval) (expected : option pystr) : result () :=
  _ ← (if 3 <=? version
       then raise_if (negb (is_filled_text id)) (ValueError $"replay session id is invalid")
       else raise_if (negb (is_none id) && negb (is_filled_text id))
              (ValueError $"legacy replay session id is invalid"));
  match expected with
  | None => Ok ()
  | Some e =>
    raise_if (negb (is_str id e) && negb ((version <? 3) && is_none id))
      (ValueError $"replay session id does not match")
  end.

Definition check_counter (v : pyval) : result () :=
  raise_if (negb match v with VInt n => (0 <=? n) && (n <=? MAX_REPLAY_COUNTER) | _ => false end)
    (ValueError $"replay counter is invalid").

Definition check_text_field (v : pyval) : result () :=
  raise_if (negb match v with VStr s => negb (bool_decide (s = [])) && (len s <=? 256) | _ => false end)
    (ValueError $"replay text field is invalid").

(** [re.fullmatch(r"[0-9a-f]{64}", value)]. *)
Definition is_sha256_hex (s : pystr) : bool :=
  (len s =? 64)
  && forallb (fun c => ((48 <=? c) && (c <=? 57)) || ((97 <=? c) && (c <=? 102))) s.

Definition check_hash (v : pyval) : result () :=
  raise_if (negb match v with VStr s => is_sha256_hex s | _ => false end)
    (ValueError $"replay hash is invalid").

Definition check_messages (v : pyval) : result () :=
  match v with
  | VList l => each validate_provider_message l
  | _ => Raise (TypeError $"replay messages must be a list")
  end.

Definition check_optional (ok : pyval -> bool) (v : pyval) (e : exn) : result () :=
  raise_if (negb (is_none v) && negb (ok v)) e.

Definition check_tool (v : pyval) : result () :=
  match v with
  | VDict tool =>
    let type := dget_none tool $"type" in
    _ ← check_optional is_filled_text type (ValueError $"replay tool type is invalid");
    if is_str type $"function" || dmem tool $"function" then
      match dget_none tool $"function" with
      | VDict fn =>
        _ ← raise_if (negb (is_filled_text (dget_none fn $"name")))
          (ValueError $"replay function tool is invalid");
        _ ← check_optional is_text (dget_none fn $"description")
          (TypeError $"replay tool description is invalid");
        _ ← check_optional is_dict (dget_none fn $"parameters")
          (TypeError $"replay tool parameters are invalid");
        check_optional (fun v => match v with VBool _ => true | _ => false end) (dget_none fn $"strict")
          (TypeError $"replay tool strict flag is invalid")
      | _ => Raise (ValueError $"replay function tool is invalid")
      end
    else Ok ()
  | _ => Raise (AttributeError $"get")
  end.

Definition check_tools (v : pyval) : result () :=
  match v with
  | VList l =>
    _ ← raise_if (negb (forallb is_dict l)) (TypeError $"replay tools must be a list of objects");
    _ ← each check_tool l;
    validate_json_value v 0
  | _ => Raise (TypeError $"replay tools must be a list of objects")
  end.

Definition check_references (v : pyval) : result () :=
  raise_if (negb match v with VList l => forallb is_filled_text l | _ => false end)
    (ValueError $"replay provenance references are invalid").

Definition check_provenance_item (v : pyval) : result () :=
  match v with
  | VDict item =>
    _ ← check_references (dget_or item $"source_event_ids" (VList []));
    _ ← check_references (dget_or item $"artifact_refs" (VList []));
    _ ← check_optional is_filled_text (dget_none item $"checkpoint_id")
      (ValueError $"replay checkpoint id is invalid");
    validate_json_value v 0
  | _ => Raise (TypeError $"replay provenance item must be an object")
  end.

Definition check_provenance (version : Z) (items provenance : pyval) : result () :=
  match provenance with
  | VList l =>
    _ ← raise_if ((3 <=? version)
                  && negb (len l =? len (match items with VList i => i | _ => [] end)))
      (ValueError $"replay provenance does not align with items");
    each check_provenance_item l
  | _ => Raise (TypeError $"replay provenance must be a list")
  end.

Definition validate_replay_payload (v : pyval) (expected_session_id : option pystr) : result () :=
  match v with
  | VDict p =>
    version ← check_version (dget_none p $"schema_version");
    _ ← raise_if (negb (forallb (dmem p) (required_fields version)))
      (ValueError $"replay required field is missing");
    _ ← check_session_id version (dget_none p $"session_id") expected_session_id;
    _ ← each (fun k => check_counter (dget_none p k)) [$"cache_epoch"; $"history_version"];
    _ ← each (fun k => check_text_field (dget_none p k))
      [$"view_id"; $"model_profile"; $"provider_family"; $"request_mode"];
    _ ← each (fun k => check_hash (dget_none p k)) [$"stable_prefix_hash"; $"canonical_payload_hash"];
    let settings := dget_or p $"request_settings" (VDict []) in
    _ ← raise_if (negb (is_dict settings)) (TypeError $"replay request settings must be an object");
    _ ← validate_json_value settings 0;
    _ ← each (fun k => check_messages (dget_none p k)) [$"instructions"; $"items"];
    _ ← check_tools (dget_none p $"tools");
    check_provenance version (dget_none p $"items") (dget_or p $"item_provenance" (VList []))
  | _ => Raise (TypeError $"replay must be an object")
  end.

(** ** The envelope *)

Record ReplayEnvelope := {
  schema_version : Z;
  session_id : pyval;
  view_id : pystr;
  cache_epoch : Z;
  history_version : Z;
  model_profile : pystr;
  provider_family : pystr;
  request_mode : pystr;
  request_settings : pyval;
  instructions : list pydict;
  tools : list pydict;
  items : list pydict;
  item_provenance : list pydict;
  stable_prefix_hash : pystr;
  canonical_payload_hash : pystr;
}.

(** The arguments of [create]. *)
Record ReplayInput := {
  i_session_id : pyval;
  i_cache_epoch : Z;
  i_history_version : Z;
  i_model_profile : pystr;
  i_provider_family : pystr;
  i_request_mode : pystr;
  i_request_settings : pyval;
  i_instructions : list pydict;
  i_tools : list pydict;
  i_items : list pydict;
  i_item_provenance : option (list pydict);
}.

Definition dicts (l : list pydict) : pyval := VList (map VDict l).

(** What the two hashes cover; [version] and the presence of the settings and
    the provenance follow the schema. *)
Definition stable_core (model family mode : pystr) (settings : option pyval)
    (instructions tools items : list pydict) : pyval :=
  VDict ([ ($"model_profile", VStr model); ($"provider_family", VStr family);
           ($"request_mode", VStr mode) ]
         ++ match settings with Some s => [($"request_settings", s)] | None => [] end
         ++ [ ($"instructions", dicts instructions); ($"tools", dicts tools); ($"items", dicts items) ]).

Definition payload_core (version : Z) (session : pyval) (epoch history : Z) (model family mode : pystr)
    (settings : option pyval) (instructions tools items : list pydict)
    (provenance : option (list pydict)) : pyval :=
  VDict ([ ($"schema_version", VInt version); ($"session_id", session); ($"cache_epoch", VInt epoch);
           ($"history_version", VInt history); ($"model_profile", VStr model);
           ($"provider_family", VStr family); ($"request_mode", VStr mode) ]
         ++ match settings with Some s => [($"request_settings", s)] | None => [] end
         ++ [ ($"instructions", dicts instructions); ($"tools", dicts tools); ($"items", dicts items) ]
         ++ match provenance with Some p => [($"item_provenance", dicts p)] | None => [] end).

(** [list(item_provenance or ({} for _ in items))]. *)
Definition given_provenance (i : ReplayInput) : list pydict :=
  match i_item_provenance i with
  | Some ((_ :: _) as l) => l
  | _ => map (fun _ => []) (i_items i)
  end.

Definition create (fresh : pystr) (i : ReplayInput) : result ReplayEnvelope :=
  let provenance := given_provenance i in
  if negb (len provenance =? len (i_items i))
  then Raise (ValueError $"item_provenance must align one-to-one with items")
  else
    let settings := canonicalize (py_or (i_request_settings i) (VDict [])) in
    stable ← content_hash (stable_core (i_model_profile i) (i_provider_family i) (i_request_mode i)
                             (Some settings) (i_instructions i) (i_tools i) (i_items i));
    payload ← content_hash (payload_core 3 (i_session_id i) (i_cache_epoch i) (i_history_version i)
                             (i_model_profile i) (i_provider_family i) (i_request_mode i) (Some settings)
                             (i_instructions i) (i_tools i) (i_items i) (Some provenance));
    Ok {| schema_version := 3; session_id := i_session_id i; view_id := $"rv_" ++ fresh;
          cache_epoch := i_cache_epoch i; history_version := i_history_version i;
          model_profile := i_model_profile i; provider_family := i_provider_family i;
          request_mode := i_request_mode i; request_settings := settings;
          instructions := map canonical_dict (i_instructions i); tools := map canonical_dict (i_tools i);
          items := map canonical_dict (i_items i); item_provenance := map canonical_dict provenance;
          stable_prefix_hash := stable; canonical_payload_hash := payload |}.

Definition to_dict (e : ReplayEnvelope) : pydict :=
  [ ($"schema_version", VInt (schema_version e)); ($"session_id", session_id e);
    ($"view_id", VStr (view_id e)); ($"cache_epoch", VInt (cache_epoch e));
    ($"history_version", VInt (history_version e)); ($"model_profile", VStr (model_profile e));
    ($"provider_family", VStr (provider_family e)); ($"request_mode", VStr (request_mode e));
    ($"request_settings", request_settings e); ($"instructions", dicts (instructions e));
    ($"tools", dicts (tools e)); ($"items", dicts (items e));
    ($"item_provenance", dicts (item_provenance e));
    ($"stable_prefix_hash", VStr (stable_prefix_hash e));
    ($"canonical_payload_hash", VStr (canonical_payload_hash e)) ].

(** [tuple(dict(item) for item in value)]. *)
Fixpoint dict_each (l : list pyval) : result (list pydict) :=
  match l with
  | [] => Ok []
  | x :: l' => d ← dict_of x; ds ← dict_each l'; Ok (d :: ds)
  end.

Definition dict_tuple (v : pyval) : result (list pydict) := l ← py_iter v; dict_each l.

(** [str(value or default)]. *)
Definition text_or_str (v : pyval) (s : pystr) : pystr := py_str (py_or v (VStr s)).

Definition from_dict `{PyCoercions} (d : pydict) : result ReplayEnvelope :=
  version ← py_int (dget_or d $"schema_version" (VInt 1));
  epoch ← py_int (dget_or d $"cache_epoch" (VInt 0));
  history ← py_int (dget_or d $"history_version" (VInt 0));
  ins ← dict_tuple (dget_or d $"instructions" (VList []));
  ts ← dict_tuple (dget_or d $"tools" (VList []));
  its ← dict_tuple (dget_or d $"items" (VList []));
  prov ← dict_tuple (dget_or d $"item_provenance" (VList []));
  Ok {| schema_version := version; session_id := dget_none d $"session_id";
        view_id := text_or_str (dget_none d $"view_id") $"legacy";
        cache_epoch := epoch; history_version := history;
        model_profile := text_or_str (dget_none d $"model_profile") $"unknown";
        provider_family := text_or_str (dget_none d $"provider_family") $"openai-compatible";
        request_mode := text_or_str (dget_none d $"request_mode") $"chat-completions";
        request_settings := canonicalize (py_or (dget_none d $"request_settings") (VDict []));
        instructions := ins; tools := ts; items := its; item_provenance := prov;
        stable_prefix_hash := text_or_str (dget_none d $"stable_prefix_hash") [];
        canonical_payload_hash := text_or_str (dget_none d $"canonical_payload_hash") [] |}.

(** [content_hash(stable) == ... and content_hash(core) == ...]: the second hash
    is computed only when the first agrees. *)
Definition hashes_agree (e : ReplayEnvelope) (stable core : pyval) : result bool :=
  s ← content_hash stable;
  if negb (bool_decide (s = stable_prefix_hash e)) then Ok false
  else c ← content_hash core; Ok (bool_decide (c = canonical_payload_hash e)).

Definition validate (e : ReplayEnvelope) : result bool :=
  let legacy version settings :=
    hashes_agree e
      (stable_core (model_profile e) (provider_family e) (request_mode e) settings
         (instructions e) (tools e) (items e))
      (payload_core version (session_id e) (cache_epoch e) (history_version e) (model_profile e)
         (provider_family e) (request_mode e) settings (instructions e) (tools e) (items e) None) in
  if schema_version e <? 2 then legacy 1 None
  else if schema_version e =? 2 then legacy 2 (Some (request_settings e))
  else if negb (len (item_provenance e) =? len (items e)) then Ok false
  else
    rebuilt ← create []
      {| i_session_id := session_id e; i_cache_epoch := cache_epoch e;
         i_history_version := history_version e; i_model_profile := model_profile e;
         i_provider_family := provider_family e; i_request_mode := request_mode e;
         i_request_settings := request_settings e; i_instructions := instructions e;
         i_tools := tools e; i_items := items e; i_item_provenance := Some (item_provenance e) |};
    Ok (bool_decide (stable_prefix_hash rebuilt = stable_prefix_hash e)
        && bool_decide (canonical_payload_hash rebuilt = canonical_payload_hash e)).

Definition validate_protocol (e : ReplayEnvelope) : result bool :=
  r ← reconcile_tool_call_adjacency None (items e);
  let '(repaired, synthesized, _) := r in
  Ok ((synthesized =? 0)
      && bool_decide (canonical_json (dicts repaired) = canonical_json (dicts (items e)))).
End Canonical.

(** ** The audit record of one request *)

Record RequestEnvelope := {
  q_schema_version : Z;
  request_id : pystr;
  replay_envelope_hash : pystr;
  execution_overlay_revision : Z;
  execution_overlay_hash : pystr;
  execution_overlay_tokens : Z;
  canonical_request_hash : pystr;
  plan_revision : Z;
}.

Section Request.
Context `{Unicode} `{TextDigest}.

Definition create_request (fresh : pystr) (replay : ReplayEnvelope) (overlay : pydict)
    (overlay_revision overlay_tokens plan_revision : Z) (request_payload : option pydict)
    : result RequestEnvelope :=
  overlay_hash ← content_hash (VDict overlay);
  request_hash ← content_hash (match request_payload with
    | Some p => VDict p
    | None => VDict [($"replay", VDict (to_dict replay)); ($"overlay", VDict overlay)]
    end);
  Ok {| q_schema_version := 1; request_id := $"rq_" ++ fresh;
        replay_envelope_hash := canonical_payload_hash replay;
        execution_overlay_revision := overlay_revision; execution_overlay_hash := overlay_hash;
        execution_overlay_tokens := overlay_tokens; canonical_request_hash := request_hash;
        plan_revision := Z.max 0 plan_revision |}.
End Request.

(** ** Item provenance *)

Record ProvenanceSource := {
  ps_event_id : pystr;
  ps_artifact_refs : list pystr;
  ps_checkpoint_id : pyval;
}.

Definition provenance_to_dict (s : ProvenanceSource) : pydict :=
  [ ($"source_event_ids", VList [VStr (ps_event_id s)]);
    ($"artifact_refs", VList (map VStr (ps_artifact_refs s)));
    ($"checkpoint_id", ps_checkpoint_id s) ].

(** Events with the identity of their object. *)
Abbreviation LoggedEvent := (Z * HistoryEvent)%type.

Record ItemProvenanceIndex := {
  p_events : list LoggedEvent;
  p_messages : gmap pystr (list ProvenanceSource);
  p_view_hashes : list pystr;
  p_view_source : option ProvenanceSource;
}.

Definition empty_index : ItemProvenanceIndex :=
  {| p_events := []; p_messages := ∅; p_view_hashes := []; p_view_source := None |}.

Section Provenance.
Context `{Unicode} `{TextDigest}.

(** [_provenance_hash]: internal metadata is not sent. *)
Definition provenance_hash (m : pydict) : result pystr :=
  content_hash (VDict (filter (fun kv : pystr * pyval => startswith kv.1 $"_rc_" = false) m)).

Definition event_source (e : HistoryEvent) (checkpoint : pyval) : ProvenanceSource :=
  {| ps_event_id := Ledger.event_id e; ps_artifact_refs := Ledger.artifact_refs e;
     ps_checkpoint_id := checkpoint |}.

(** The message an event commits. *)
Definition committed_message (e : HistoryEvent) : option pydict :=
  if bool_decide (Ledger.kind e = $"message_committed") then
    match dget_none (Ledger.payload e) $"message" with VDict m => Some m | _ => None end
  else None.

Definition is_view (e : HistoryEvent) : bool := bool_decide (Ledger.kind e = $"context_view_committed").

(** The loop over new events: their messages, and the latest view. *)
Fixpoint sync_events (l : list LoggedEvent) (messages : gmap pystr (list ProvenanceSource))
    (view : option HistoryEvent)
    : result (gmap pystr (list ProvenanceSource) * option HistoryEvent) :=
  match l with
  | [] => Ok (messages, view)
  | (_, e) :: l =>
    match committed_message e with
    | Some m =>
      h ← provenance_hash m;
      sync_events l (<[h := default [] (messages !! h) ++ [event_source e VNone]]> messages) view
    | None => sync_events l messages (if is_view e then Some e else view)
    end
  end.

Fixpoint provenance_hashes (l : list pyval) : result (list pystr) :=
  match l with
  | [] => Ok []
  | x :: l => m ← as_dict x; h ← provenance_hash m; hs ← provenance_hashes l; Ok (h :: hs)
  end.

Definition view_hashes (e : HistoryEvent) : result (list pystr) :=
  l ← iter_or_empty (dget_none (Ledger.payload e) $"items");
  provenance_hashes l.

(** The new state, from the events kept and those of the ledger. *)
Definition sync_from (st : ItemProvenanceIndex) (current : list LoggedEvent)
    : result ItemProvenanceIndex :=
  r ← sync_events (drop (length (p_events st)) current) (p_messages st) None;
  let '(messages, view) := r in
  match view with
  | None => Ok {| p_events := current; p_messages := messages; p_view_hashes := p_view_hashes st;
                  p_view_source := p_view_source st |}
  | Some e =>
    hs ← view_hashes e;
    Ok {| p_events := current; p_messages := messages; p_view_hashes := hs;
          p_view_source := Some (event_source e (dget_none (Ledger.payload e) $"checkpoint_id")) |}
  end.

(** The events kept are the first of the ledger, object by object. *)
Definition is_prefix (kept current : list LoggedEvent) : bool :=
  (len kept <=? len current)
  && forallb (fun p : LoggedEvent * LoggedEvent => bool_decide (p.1.1 = p.2.1)) (zip kept current).

Definition sync (current : list LoggedEvent) : stm ItemProvenanceIndex () := fun st =>
  let st := if is_prefix (p_events st) current then st else empty_index in
  match sync_from st current with
  | Ok st => (Ok (), st)
  | Raise e => (Raise e, empty_index)
  end.

(** The view hashes from the cursor on: whether [h] is among them, and what is
    left behind it. *)
Fixpoint advance (h : pystr) (hashes : list pystr) : bool * list pystr :=
  match hashes with
  | [] => (false, [])
  | c :: rest => if bool_decide (c = h) then (true, rest) else advance h rest
  end.

Fixpoint view_pass (source : ProvenanceSource) (hashes cursor : list pystr) : list (option pydict) :=
  match hashes with
  | [] => []
  | h :: hashes =>
    let '(found, cursor) := advance h cursor in
    (if found then Some (provenance_to_dict source) else None) :: view_pass source hashes cursor
  end.

(** The newest candidate below [position] whose event is not used yet. *)
Fixpoint pick (candidates : list ProvenanceSource) (used : gset pystr) (position : nat)
    : option ProvenanceSource * nat :=
  match position with
  | O => (None, O)
  | S position =>
    match candidates !! position with
    | Some s => if bool_decide (ps_event_id s ∈ used) then pick candidates used position
                else (Some s, position)
    | None => pick candidates used position
    end
  end.

Definition fallback_provenance (fallback : option pystr) : pydict :=
  [ ($"source_event_ids", VList match fallback with Some (_ :: _ as e) => [VStr e] | _ => [] end);
    ($"artifact_refs", VList []); ($"checkpoint_id", VNone) ].

Fixpoint message_pass (messages : gmap pystr (list ProvenanceSource)) (fallback : option pystr)
    (rows : list (pystr * option pydict)) (used : gset pystr) (positions : gmap pystr nat)
    : list pydict :=
  match rows with
  | [] => []
  | (_, Some row) :: rows => row :: message_pass messages fallback rows used positions
  | (h, None) :: rows =>
    let candidates := default [] (messages !! h) in
    let '(s, position) := pick candidates used (default (length candidates) (positions !! h)) in
    let positions := <[h := position]> positions in
    match s with
    | Some s => provenance_to_dict s
                :: message_pass messages fallback rows ({[ps_event_id s]} ∪ used) positions
    | None => fallback_provenance fallback :: message_pass messages fallback rows used positions
    end
  end.

Definition align (its : list pydict) (current : list LoggedEvent) (fallback : option pystr)
    : stm ItemProvenanceIndex (list pydict) :=
  _ ← sync current;
  st ← st_get;
  hashes ← st_lift (provenance_hashes (map VDict its));
  let of_view := match p_view_source st with
                | Some s => view_pass s hashes (p_view_hashes st)
                | None => map (fun _ => None) hashes
                end in
  mret (message_pass (p_messages st) fallback (zip hashes of_view) ∅ ∅).

Definition align_item_provenance (its : list pydict) (current : list LoggedEvent)
    (fallback : option pystr) : result (list pydict) := (align its current fallback empty_index).1.
End Provenance.

(** ** Lemmas on canonical values *)

Section CanonicalLemmas.
Context `{Unicode} `{!UnicodeLaws} `{TextDigest}.

(** No line feed right after a carriage return. *)
Definition crlf_free (s : pystr) : Prop := py_contains [13; 10] s = false.

(** What the canonical form keeps fixed: no ["\r\r\n"]. *)
Definition settled (s : pystr) : bool := negb (py_contains [13; 13; 10] s).

Lemma crlf_free_cons c s :
  crlf_free (c :: s) <-> ~ (c = 13 /\ head s = Some 10) /\ crlf_free s.
Proof.
  unfold crlf_free. cbn [py_contains]. rewrite orb_false_iff. unfold startswith.
  rewrite bool_decide_eq_false. split; intros [Hp Hs]; (split; [|done]); intros Hc; apply Hp.
  - destruct Hc as [-> Hc]. destruct s as [|d s]; [done|]. injection Hc as ->. by exists s.
  - destruct Hc as [t Ht]. injection Ht as -> ->. done.
Qed.

Lemma crlf_free_app s c t :
  13 ∉ s -> crlf_free (s ++ c :: t) <-> crlf_free (c :: t).
Proof.
  induction s as [|d s IH]; [done|]. rewrite not_elem_of_cons. intros [Hd Hs].
  rewrite <- app_comm_cons, crlf_free_cons, IH by done. naive_solver.
Qed.

Lemma crlf_free_absent s : 13 ∉ s -> crlf_free s.
Proof.
  induction s as [|d s IH]; [done|]. rewrite not_elem_of_cons. intros [Hd Hs].
  apply crlf_free_cons. naive_solver.
Qed.

(** The first occurrence of a character. *)
Lemma elem_of_first (c : Z) s : c ∈ s -> exists u v, s = u ++ c :: v /\ c ∉ u.
Proof.
  induction s as [|d s IH]; [by intros ?%elem_of_nil|]. intros Hc.
  destruct (decide (c = d)) as [->|Hne]; [exists [], s; split; [done|by intros ?%elem_of_nil]|].
  apply elem_of_cons in Hc as [->|Hc]; [done|]. destruct (IH Hc) as (u & v & -> & Hu).
  exists (d :: u), v. split; [done|]. apply not_elem_of_cons. by split.
Qed.

Lemma nfc_head_control s c : 0 <= c < 32 -> head (nfc s) = Some c -> head s = Some c.
Proof.
  intros Hc Hh. assert (Hin : c ∈ nfc s) by (destruct (nfc s); [done|]; injection Hh as ->; left).
  destruct (elem_of_first c s) as (u & v & -> & Hu); [by apply nfc_control|].
  rewrite nfc_inert in Hh by done. destruct (nfc u) as [|d w] eqn:E.
  - by rewrite (nfc_nonempty u E).
  - injection Hh as ->. exfalso. apply Hu, nfc_control; [done|]. rewrite E. left.
Qed.

Lemma nfc_crlf_free s : crlf_free s -> crlf_free (nfc s).
Proof.
  remember (length s) as n eqn:En. revert s En.
  induction n as [n IH] using lt_wf_ind. intros s -> Hs.
  destruct (decide (13 ∈ s)) as [Hin|Hn].
  - destruct (elem_of_first 13 s Hin) as (u & v & -> & Hu). rewrite nfc_inert by lia.
    apply crlf_free_app, crlf_free_cons in Hs as [Hh Hs]; [|done].
    apply crlf_free_app, crlf_free_cons; [intros ?%nfc_control; [done|lia]|]. split.
    + intros [_ Hv]. apply Hh. split; [done|]. by apply nfc_head_control in Hv; [|lia].
    + eapply IH; [|done|done]. rewrite length_app. cbn. lia.
  - apply crlf_free_absent. intros ?%nfc_control; [done|lia].
Qed.

(** The equations of [s.replace("\r\n", "\n")]. *)
Lemma startswith_crlf c s : startswith (c :: s) [13; 10] = true <-> c = 13 /\ head s = Some 10.
Proof.
  unfold startswith. rewrite bool_decide_eq_true. split.
  - intros [t Ht]. injection Ht as -> ->. done.
  - intros [-> Hs]. destruct s as [|d s]; [done|]. injection Hs as ->. by exists s.
Qed.

Lemma crlf_replaced_id s : crlf_free s -> py_replace [13; 10] [10] s = s.
Proof.
  unfold py_replace. induction s as [|c s IH]; [done|]. intros [Hc Hs]%crlf_free_cons.
  cbn [replace_from]. destruct (startswith (c :: s) [13; 10]) eqn:E.
  - by apply startswith_crlf in E.
  - f_equal. auto.
Qed.

Lemma settled_cons c s : settled (c :: s) = true -> settled s = true.
Proof.
  unfold settled. cbn [py_contains]. rewrite negb_orb, andb_true_iff. by intros [_ ?].
Qed.

(** A replaced text starts with a line feed only when the text does, up to one
    carriage return. *)
Lemma replaced_head s :
  head (py_replace [13; 10] [10] s) = Some 10 ->
  head s = Some 10 \/ exists t, s = 13 :: 10 :: t.
Proof.
  unfold py_replace. destruct s as [|c s]; [done|]. cbn [replace_from].
  destruct (startswith (c :: s) [13; 10]) eqn:E.
  - apply startswith_crlf in E as [-> Hs]. destruct s as [|d s]; [done|]. injection Hs as ->.
    right. by exists s.
  - cbn. intros [= ->]. by left.
Qed.

Lemma replaced_crlf_free s : settled s = true -> crlf_free (py_replace [13; 10] [10] s).
Proof.
  remember (length s) as n eqn:En. revert s En.
  induction n as [n IH] using lt_wf_ind. intros s -> Hs. destruct s as [|c s]; [done|].
  unfold py_replace. cbn [replace_from]. pose proof (settled_cons _ _ Hs) as Hs'.
  destruct (startswith (c :: s) [13; 10]) eqn:E.
  - apply startswith_crlf in E as [-> Ht]. destruct s as [|d s]; [done|]. injection Ht as ->.
    cbn [length Nat.sub replace_from app]. apply crlf_free_cons. split; [naive_solver|].
    eapply (IH (length s)); [cbn; lia|done|]. by apply settled_cons in Hs'.
  - apply crlf_free_cons. split; [|eapply (IH (length s)); [cbn; lia|done|done]].
    intros [-> Hh]. apply replaced_head in Hh as [Hh|(t & ->)].
    + assert (startswith (13 :: s) [13; 10] = true) by (by apply startswith_crlf). congruence.
    + revert Hs. unfold settled. cbn [py_contains]. rewrite negb_orb. unfold startswith at 1.
      rewrite bool_decide_true; [done|]. by exists t.
Qed.

Lemma canonical_text_idem s : settled s = true -> canonical_text (canonical_text s) = canonical_text s.
Proof.
  intros Hs. unfold canonical_text at 1.
  rewrite crlf_replaced_id by (by apply nfc_crlf_free, replaced_crlf_free). apply nfc_idem.
Qed.

(** Every text of the value is settled. *)
Fixpoint settled_value (v : pyval) : bool :=
  match v with
  | VStr s => settled s
  | VList l => forallb settled_value l
  | VDict d => forallb (fun kv => settled_value kv.2) d
  | _ => true
  end.

Lemma canonical_items_map (f : pyval -> pyval) d :
  canonical_items (map (fun kv => (kv.1, f kv.2)) d)
  = map (fun kv => (kv.1, f kv.2)) (canonical_items d).
Proof.
  unfold canonical_items. set (g := fun kv : pystr * pyval => (kv.1, f kv.2)).
  assert (Hins : forall x l, insert_sorted key_leb (g x) (map g l) = map g (insert_sorted key_leb x l)).
  { intros x. induction l as [|y l IH]; [done|]. cbn [map insert_sorted].
    change (key_leb (g x) (g y)) with (key_leb x y). destruct (key_leb x y); [done|]. cbn. by rewrite IH. }
  assert (Hs : stable_sort key_leb (map g d) = map g (stable_sort key_leb d)).
  { unfold stable_sort. induction d as [|x d IH]; [done|]. cbn. by rewrite IH, Hins. }
  rewrite Hs. generalize (stable_sort key_leb d) as l.
  induction l as [|y l IH]; [done|]. cbn [map]. rewrite !filter_cons. cbn [g fst].
  case_decide; [cbn [map]; by rewrite IH|done].
Qed.

End CanonicalLemmas.

(** ** The round trip of an envelope *)

Section RoundTrip.
Context `{Unicode} `{!UnicodeLaws} `{TextDigest}.

Lemma key_leb_sorted d : StronglySorted (fun x y => key_leb x y = true) (canonical_items d).
Proof.
  unfold canonical_items.
  assert (Hs : StronglySorted (fun x y => key_leb x y = true) (stable_sort key_leb d)).
  { apply stable_sort_sorted; unfold key_leb; eauto using text_leb_trans, text_leb_total. }
  induction Hs as [|x l Hl IH Hx]; [constructor|]. rewrite filter_cons. case_decide; [|done].
  constructor; [done|]. rewrite Forall_forall in *. intros y [_ Hy]%list_elem_of_filter. by apply Hx.
Qed.

Lemma canonical_items_idem d : canonical_items (canonical_items d) = canonical_items d.
Proof.
  unfold canonical_items at 1. rewrite stable_sort_id by apply key_leb_sorted.
  unfold canonical_items. by rewrite list_filter_filter_l by tauto.
Qed.

Lemma canonicalize_idem v : settled_value v = true -> canonicalize (canonicalize v) = canonicalize v.
Proof.
  induction v as [| | | |s|l IH|d IH] using pyval_nested_ind; try done.
  - intros Hs. cbn [canonicalize]. by rewrite canonical_text_idem.
  - cbn [settled_value canonicalize]. rewrite forallb_forall. intros Hs. f_equal. rewrite map_map.
    apply map_ext_in. intros x Hx. rewrite Forall_forall in IH. apply IH; [by apply list_elem_of_In|auto].
  - cbn [settled_value canonicalize]. rewrite forallb_forall. intros Hs.
    rewrite canonical_items_map, canonical_items_idem, <- canonical_items_map, map_map.
    f_equal. f_equal. apply map_ext_in. intros kv Hkv. cbn [fst snd]. rewrite Forall_forall in IH.
    f_equal. apply IH; [by apply list_elem_of_In|auto].
Qed.

Lemma canonical_dict_eq d : VDict (canonical_dict d) = canonicalize (VDict d).
Proof. done. Qed.

(** Two values with one canonical form have one digest. *)
Lemma content_hash_canonical v w : canonicalize v = canonicalize w -> content_hash v = content_hash w.
Proof. intros He. unfold content_hash, canonical_json. by rewrite He. Qed.

Definition settled_dicts (l : list pydict) : Prop := Forall (fun d => settled_value (VDict d) = true) l.

Lemma canonicalize_dicts l :
  settled_dicts l -> canonicalize (dicts (map canonical_dict l)) = canonicalize (dicts l).
Proof.
  intros Hl. unfold dicts. cbn [canonicalize]. f_equal. rewrite !map_map.
  induction Hl as [|d l Hd Hl IH]; [done|]. cbn [map]. rewrite IH. f_equal.
  rewrite canonical_dict_eq. by apply canonicalize_idem.
Qed.

(** Objects with the same keys and values of the same canonical forms. *)
Definition same_canonical (p q : pystr * pyval) : Prop := p.1 = q.1 /\ canonicalize p.2 = canonicalize q.2.

Lemma canonicalize_fields d d' :
  Forall2 same_canonical d d' -> canonicalize (VDict d) = canonicalize (VDict d').
Proof.
  intros Hd. cbn [canonicalize]. f_equal. f_equal.
  induction Hd as [|[k v] [k' v'] d d' [Hk Hv] Hd IH]; [done|]. cbn in *. by subst; rewrite IH, Hv.
Qed.

(** The content of an input the theorem covers: the settings are an object, no
    text holds ["\r\r\n"], and the names that [from_dict] defaults are given. *)
Record input_settled (i : ReplayInput) : Prop := {
  s_settings : (i_request_settings i = VNone \/ exists d, i_request_settings i = VDict d)
               /\ settled_value (i_request_settings i) = true;
  s_instructions : settled_dicts (i_instructions i);
  s_tools : settled_dicts (i_tools i);
  s_items : settled_dicts (i_items i);
  s_provenance : settled_dicts (given_provenance i);
  s_model : i_model_profile i <> [];
  s_family : i_provider_family i <> [];
  s_mode : i_request_mode i <> [];
}.

(** The settings [create] keeps are an object in canonical form. *)
Lemma settings_kept v :
  (v = VNone \/ exists d, v = VDict d) -> settled_value v = true ->
  exists d, canonicalize (py_or v (VDict [])) = VDict d /\
    canonicalize (py_or (VDict d) (VDict [])) = VDict d.
Proof.
  intros Hv Hs.
  assert (Hc : exists d, py_or v (VDict []) = VDict d /\ settled_value (VDict d) = true).
  { destruct Hv as [->|[[|kv d] ->]]; [exists []; done|exists []; done|by exists (kv :: d)]. }
  destruct Hc as (d & -> & Hd). exists (canonical_dict d). split; [done|].
  assert (Hor : forall e : pydict, py_or (VDict e) (VDict []) = VDict e) by (by intros [|? ?]).
  rewrite Hor, canonical_dict_eq. by apply canonicalize_idem.
Qed.

Lemma given_provenance_kept i :
  len (given_provenance i) = len (i_items i) ->
  forall j, i_item_provenance j = Some (map canonical_dict (given_provenance i)) ->
    i_items j = map canonical_dict (i_items i) ->
    given_provenance j = map canonical_dict (given_provenance i).
Proof.
  intros Hl j Hp Hi. unfold given_provenance at 1. rewrite Hp.
  destruct (given_provenance i) as [|p l]; [|done]. cbn [map].
  symmetry in Hl. apply len_zero in Hl. by rewrite Hi, Hl.
Qed.

Lemma len_map {A B} (f : A -> B) l : len (map f l) = len l.
Proof. unfold len. by rewrite length_map. Qed.

Lemma dict_each_dicts l : dict_each (map VDict l) = Ok l.
Proof. induction l as [|d l IH]; [done|]. cbn [map dict_each]. cbn. by rewrite IH. Qed.

Lemma text_or_str_filled s t : s <> [] -> text_or_str (VStr s) t = s.
Proof. by destruct s. Qed.

Lemma text_or_str_empty s : text_or_str (VStr s) [] = s.
Proof. by destruct s. Qed.

(** What [from_dict] reads of an envelope with all its names. *)
Lemma from_to_dict `{PyCoercions} e :
  view_id e <> [] -> model_profile e <> [] -> provider_family e <> [] -> request_mode e <> [] ->
  canonicalize (py_or (request_settings e) (VDict [])) = request_settings e ->
  from_dict (to_dict e) = Ok e.
Proof.
  intros Hv Hm Hf Hmode Hs.
  unfold from_dict, dget_or, dget_none, dict_tuple, to_dict. autorewrite with pydict.
  unfold mbind, result_bind. cbn [default id py_int dicts py_iter].
  rewrite !dict_each_dicts, Hs, !text_or_str_empty, !text_or_str_filled by done. by destruct e.
Qed.

(** C24: an envelope [create] returns survives the file: reading what [to_dict]
    wrote gives the envelope back, and [validate] confirms both of its hashes,
    for every input whose texts hold no ["\r\r\n"]. *)
Theorem replay_round_trip `{PyCoercions} fresh i e :
  create fresh i = Ok e -> input_settled i ->
  from_dict (to_dict e) = Ok e /\ validate e = Ok true.
Proof.
  intros Hc [[Hset Hss] Hins Htools Hitems Hprov Hm Hf Hmode].
  unfold create, mbind, result_bind in Hc. destruct (negb _) eqn:El in Hc; [done|].
  apply negb_false_iff, Z.eqb_eq in El.
  destruct (settings_kept _ Hset Hss) as (s & Hs & Hs'). rewrite Hs in Hc.
  destruct (content_hash _) as [h1|?] eqn:E1 in Hc; [|done].
  destruct (content_hash _) as [h2|?] eqn:E2 in Hc; [|done].
  injection Hc as <-. split.
  - apply from_to_dict; cbn [view_id model_profile provider_family request_mode request_settings]; try done.
  - unfold validate. cbn [schema_version item_provenance items Z.ltb Z.eqb Z.compare Pos.compare
      Pos.compare_cont Pos.eqb]. rewrite !len_map, El, Z.eqb_refl. cbn [negb].
    unfold create, mbind, result_bind. erewrite given_provenance_kept; [|exact El|done|done].
    cbn [i_items i_request_settings i_model_profile i_provider_family i_request_mode i_instructions
      i_tools i_session_id i_cache_epoch i_history_version session_id cache_epoch history_version
      model_profile provider_family request_mode request_settings instructions tools items
      item_provenance]. rewrite !len_map, El, Z.eqb_refl, Hs'. cbn [negb].
    erewrite content_hash_canonical, E1.
    + erewrite content_hash_canonical, E2; [cbn; by rewrite !bool_decide_true by done|].
      apply canonicalize_fields. cbn [app]. repeat constructor; by apply canonicalize_dicts.
    + apply canonicalize_fields. cbn [app]. repeat constructor; by apply canonicalize_dicts.
Qed.
End RoundTrip.

(** ** What validation establishes *)

Section Validated.
Context `{Unicode} `{TextDigest} `{PyCoercions}.

Lemma is_str_eq v s : is_str v s = true <-> v = VStr s.
Proof. unfold is_str. apply bool_decide_eq_true. Qed.

Lemma filled_text v : is_filled_text v = true <-> exists s, v = VStr s /\ s <> [].
Proof.
  split; [destruct v as [| | | |[|c s]| |]; try done; by exists (c :: s)|].
  intros (s & -> & Hs). by destruct s.
Qed.

Lemma text_value v : is_text v = true <-> exists s, v = VStr s.
Proof. split; [destruct v; try done; eauto|by intros [s ->]]. Qed.

(** A call of a persisted message. *)
Definition provider_call (v : pyval) : Prop :=
  exists call fn id name args, v = VDict call /\ dget call $"id" = Some (VStr id) /\ id <> [] /\
    dget call $"function" = Some (VDict fn) /\ dget fn $"name" = Some (VStr name) /\ name <> [] /\
    dget fn $"arguments" = Some (VStr args).

(** A persisted message. *)
Record provider_message (m : pydict) : Prop := {
  pm_role : exists role, dget m $"role" = Some (VStr role) /\ role ∈ PROVIDER_MESSAGE_ROLES;
  pm_content : (exists s, dget m $"content" = Some (VStr s)) \/ (exists l, dget m $"content" = Some (VList l))
    \/ (dget m $"content" = Some VNone /\ dget m $"role" = Some (VStr $"assistant"));
  pm_answer : dget m $"role" = Some (VStr $"tool") ->
    exists id, dget m $"tool_call_id" = Some (VStr id) /\ id <> [];
  pm_calls : dget_none m $"tool_calls" = VNone \/
    (dget m $"role" = Some (VStr $"assistant") /\
     exists l, dget_none m $"tool_calls" = VList l /\ Forall provider_call l);
}.

Lemma dget_none_some d k v : v <> VNone -> dget_none d k = v <-> dget d k = Some v.
Proof. intros Hv. unfold dget_none. destruct (dget d k); cbn; naive_solver. Qed.

Lemma check_tool_call_ok v : check_tool_call v = Ok () -> provider_call v.
Proof.
  unfold check_tool_call. destruct v as [| | | | | |call]; try done. cbn zeta. intros Hc. checks Hc.
  apply negb_false_iff in C. rewrite !andb_true_iff in C. destruct C as [[[[Hi _] Hf] Hn] Ha].
  apply filled_text in Hi as (id & Hi & Hid). destruct (dget_none call $"function") as [| | | | | |fn] eqn:Ef; try done.
  apply filled_text in Hn as (name & Hn & Hne). apply text_value in Ha as [args Ha].
  exists call, fn, id, name, args. rewrite <- !dget_none_some by done. done.
Qed.

Lemma validate_provider_message_ok v :
  validate_provider_message v = Ok () -> exists m, v = VDict m /\ provider_message m.
Proof.
  unfold validate_provider_message. destruct v as [| | | | | |m]; try done. cbn zeta. intros Hc.
  exists m. split; [done|]. checks Hc.
  assert (Hrole : exists role, dget m $"role" = Some (VStr role) /\ role ∈ PROVIDER_MESSAGE_ROLES).
  { destruct (dget_none m $"role") as [| | | |role| |] eqn:E; try done. cbn in C. apply raise_if_ok in C.
    apply negb_false_iff, bool_decide_eq_true in C. exists role. by rewrite <- dget_none_some. }
  split; [done| | |].
  - unfold check_content in C0. destruct (dget m $"content") as [c|]; [|done]. checks C0.
    apply negb_false_iff in C5. rewrite !orb_true_iff in C5. destruct C5 as [[Hn|Ht]|Hl].
    + right; right. destruct c; try done. cbn in C6. apply negb_false_iff, is_str_eq in C6.
      by rewrite <- dget_none_some.
    + apply text_value in Ht as [s ->]. left. eauto.
    + destruct c; try done. right; left. eauto.
  - intros Hr. apply dget_none_some in Hr; [|done]. rewrite Hr in C2. unfold is_str in C2.
    rewrite bool_decide_true in C2 by done. cbn [andb] in C2. apply negb_false_iff, text_value in C2 as [id Hid].
    rewrite Hid in C1. cbn [is_none negb andb] in C1. apply negb_false_iff, filled_text in C1 as (s & [= <-] & Hs).
    exists id. by rewrite <- dget_none_some.
  - unfold check_tool_calls in C4. destruct (dget_none m $"tool_calls") as [| | | | |l|]; try done; [by left|].
    right. checks C4. apply negb_false_iff, is_str_eq in C5. rewrite <- dget_none_some by done.
    split; [done|]. exists l. split; [done|]. apply each_ok in C4.
    eapply Forall_impl; [exact C4|apply check_tool_call_ok].
Qed.

(** Persisted messages are readable by the repair and by the sanitizer. *)
Lemma provider_message_readable m : provider_message m -> message_wf m /\ sanitize_wf m.
Proof.
  intros [_ _ _ Hc]. unfold message_wf, sanitize_wf, iter_or_empty. destruct Hc as [->|(_ & l & -> & Hl)].
  - cbn. split; [done|]. intros _. by exists [].
  - assert (Hr : Forall call_wf l /\ Forall raw_call_wf l).
    { rewrite <- Forall_and. eapply Forall_impl; [exact Hl|].
      intros v (call & fn & id & name & args & -> & Hi & Hid & Hf & Hn & Hname & _).
      assert (Hfn : py_or (dget_none call $"function") (VDict []) = VDict fn).
      { unfold dget_none. rewrite Hf. destruct fn; [done|]. done. }
      split; [right; by rewrite Hfn|]. exists call, fn, id. split_and!; [done| |done].
      unfold dget_none. rewrite Hi. by destruct id. }
    destruct l as [|v l]; cbn.
    + split; [done|]. intros _. by exists [].
    + split; [intros _ _; apply Hr|]. intros _. exists (v :: l). split; [done|apply Hr].
Qed.
End Validated.

Section Persisted.
Context `{Unicode} `{TextDigest} `{PyCoercions}.

(** What a reader may assume of a persisted envelope that passed validation. *)
Record envelope_typed (expected : option pystr) (e : ReplayEnvelope) : Prop := {
  et_version : schema_version e ∈ [1; 2; 3];
  et_session : forall s, expected = Some s ->
    session_id e = VStr s \/ (session_id e = VNone /\ schema_version e < 3);
  et_counters : 0 <= cache_epoch e <= MAX_REPLAY_COUNTER /\ 0 <= history_version e <= MAX_REPLAY_COUNTER;
  et_names : Forall (fun s => s <> [] /\ len s <= 256)
    [view_id e; model_profile e; provider_family e; request_mode e];
  et_hashes : is_sha256_hex (stable_prefix_hash e) = true /\ is_sha256_hex (canonical_payload_hash e) = true;
  et_settings : exists d, request_settings e = VDict d;
  et_messages : Forall provider_message (instructions e ++ items e);
  et_provenance : schema_version e = 3 -> len (item_provenance e) = len (items e);
}.

Lemma each_dicts (f : pyval -> result ()) l :
  (forall v, f v = Ok () -> exists d, v = VDict d) -> each f l = Ok () ->
  exists ds, dict_each l = Ok ds /\ l = map VDict ds /\ Forall (fun d => f (VDict d) = Ok ()) ds.
Proof.
  intros Hf Hl%each_ok. induction Hl as [|v l Hv Hl (ds & Hd & -> & Hds)]; [by exists []|].
  destruct (Hf v Hv) as [d ->]. exists (d :: ds). cbn. rewrite Hd. split_and!; [done..|by constructor].
Qed.

Lemma check_messages_ok v :
  check_messages v = Ok () ->
  exists l ds, v = VList l /\ dict_each l = Ok ds /\ Forall provider_message ds.
Proof.
  destruct v as [| | | | |l|]; try done. cbn. intros Hl.
  apply each_dicts in Hl as (ds & Hd & -> & Hds).
  - exists (map VDict ds), ds. split_and!; [done..|]. eapply Forall_impl; [exact Hds|].
    intros d (m & [= ->] & Hm)%validate_provider_message_ok. done.
  - intros w (m & -> & _)%validate_provider_message_ok. by exists m.
Qed.

Lemma check_tools_ok v :
  check_tools v = Ok () -> exists l ds, v = VList l /\ dict_each l = Ok ds.
Proof.
  destruct v as [| | | | |l|]; try done. cbn. intros Hl. checks Hl. clear - C0.
  apply each_dicts in C0 as (ds & Hd & -> & _); [by exists (map VDict ds), ds|].
  intros [] ?; try done. by eexists.
Qed.

Lemma dict_each_length l ds : dict_each l = Ok ds -> len ds = len l.
Proof.
  revert ds. induction l as [|v l IH]; intros ds; cbn; [by intros [= <-]|].
  intros Hd. ok_inv Hd. ok_inv Hd. injection Hd as <-. rewrite !len_cons. by rewrite (IH _ Hr0).
Qed.

Lemma check_provenance_ok version l v :
  check_provenance version (VList l) v = Ok () ->
  exists p ds, v = VList p /\ dict_each p = Ok ds /\ (version = 3 -> len ds = len l).
Proof.
  destruct v as [| | | | |p|]; try done. unfold check_provenance. intros Hl. checks Hl.
  apply each_dicts in Hl as (ds & Hd & -> & _).
  - exists (map VDict ds), ds. split_and!; [done..|]. intros ->. cbn in C.
    apply negb_false_iff, Z.eqb_eq in C. apply dict_each_length in Hd. congruence.
  - intros [] ?; try done. by eexists.
Qed.

Lemma check_counter_ok v :
  check_counter v = Ok () -> exists n, v = VInt n /\ 0 <= n <= MAX_REPLAY_COUNTER.
Proof.
  unfold check_counter. intros Hc%raise_if_ok. apply negb_false_iff in Hc. destruct v as [| |n| | | |]; try done.
  exists n. split; [done|]. lia.
Qed.

Lemma check_text_field_ok v :
  check_text_field v = Ok () -> exists s, v = VStr s /\ s <> [] /\ len s <= 256.
Proof.
  unfold check_text_field. intros Hc%raise_if_ok. apply negb_false_iff in Hc. destruct v as [| | | |s| |]; try done.
  apply andb_true_iff in Hc as [Hs Hl]. apply negb_true_iff, bool_decide_eq_false in Hs.
  exists s. split_and!; [done..|lia].
Qed.

Lemma check_hash_ok v : check_hash v = Ok () -> exists s, v = VStr s /\ is_sha256_hex s = true.
Proof.
  unfold check_hash. intros Hc%raise_if_ok. apply negb_false_iff in Hc. destruct v as [| | | |s| |]; try done.
  by exists s.
Qed.

Lemma check_version_ok v n : check_version v = Ok n -> v = VInt n /\ n ∈ [1; 2; 3].
Proof. unfold check_version. destruct v as [| |k| | | |]; try done. case_bool_decide as E; [by intros [= <-]|done]. Qed.

Lemma check_session_id_ok version id expected :
  check_session_id version id expected = Ok () ->
  forall s, expected = Some s -> id = VStr s \/ (id = VNone /\ version < 3).
Proof.
  unfold check_session_id. intros Hc s ->. checks Hc.
  apply andb_false_iff in Hc as [Hc|Hc]; apply negb_false_iff in Hc.
  - left. by apply is_str_eq.
  - right. apply andb_true_iff in Hc as [Hv Hn]. zbool. split; [by destruct id|done].
Qed.

Lemma dget_or_none d k v w : dget_none d k = v -> v <> VNone -> dget_or d k w = v.
Proof. intros Hd Hv. apply dget_none_some in Hd; [|done]. unfold dget_or. by rewrite Hd. Qed.

Lemma settings_object p :
  is_dict (dget_or p $"request_settings" (VDict [])) = true ->
  exists d, canonicalize (py_or (dget_none p $"request_settings") (VDict [])) = VDict d.
Proof.
  unfold dget_or, dget_none. destruct (dget p $"request_settings") as [v|]; cbn; [|eauto].
  destruct v as [| | | | | |[|kv d]]; try done; cbn; eauto.
Qed.

Lemma protocol_checked e : Forall provider_message (items e) -> exists b, validate_protocol e = Ok b.
Proof.
  intros Hm. unfold validate_protocol.
  destruct (reconcile_spec None (items e)) as (out & st & -> & _).
  - eapply Forall_impl; [exact Hm|]. intros m Hpm. apply (provider_message_readable m Hpm).
  - cbn. eauto.
Qed.

(** C32: a persisted replay that passes validation is read without an error, and
    the envelope is well typed: a supported version, the expected session,
    counters within 63 bits, names of 1 to 256 characters, two hexadecimal
    digests, settings that are an object, provider messages only, and (version 3)
    one provenance row per item; the check of its protocol then returns. *)
Theorem validated_replay_typed v expected :
  validate_replay_payload v expected = Ok () ->
  exists p e, v = VDict p /\ from_dict p = Ok e /\ envelope_typed expected e /\
    exists b, validate_protocol e = Ok b.
Proof.
  unfold validate_replay_payload. destruct v as [| | | | | |p]; try done. intros Hv.
  apply bind_ok in Hv as (n & [Hn Hsup]%check_version_ok & Hv). cbn zeta in Hv. checks Hv.
  pose proof (check_session_id_ok _ _ _ C0) as Hsess.
  apply each_ok in C1, C2, C3, C6. rewrite !Forall_cons in C1. rewrite !Forall_cons in C2.
  rewrite !Forall_cons in C3. rewrite !Forall_cons in C6.
  destruct C1 as (C1 & C1' & _), C2 as (Cv & Cm & Cf & Cr & _), C3 as (C3 & C3' & _), C6 as (C6 & C6' & _).
  apply check_counter_ok in C1 as (epoch & He & Hep), C1' as (history & Hh & Hhi).
  apply check_text_field_ok in Cv as (view & Hview & ?), Cm as (model & Hm & ?), Cf as (family & Hf & ?),
    Cr as (mode & Hmode & ?).
  apply check_hash_ok in C3 as (stable & Hst & Hsth), C3' as (payload & Hpl & Hplh).
  apply check_messages_ok in C6 as (il & ins & Hil & Hins & Hinst), C6' as (tl & its & Htl & Hits & Hitst).
  apply check_tools_ok in C7 as (ol & ts & Hol & Hts).
  rewrite Htl in Hv. apply check_provenance_ok in Hv as (pl & prov & Hp & Hprov & Hplen).
  apply negb_false_iff, settings_object in C4 as [settings Hset].
  eexists p, _. split; [done|]. split.
  - unfold from_dict, dict_tuple.
    rewrite (dget_or_none _ _ _ _ Hn), (dget_or_none _ _ _ _ He),
      (dget_or_none _ _ _ _ Hh), (dget_or_none _ _ _ _ Hil),
      (dget_or_none _ _ _ _ Htl), (dget_or_none _ _ _ _ Hol), Hp by done.
    unfold mbind, result_bind. cbn [py_int py_iter]. rewrite Hins, Hits, Hts, Hprov. reflexivity.
  - split; [|by apply protocol_checked; cbn].
    rewrite Hset, Hview, Hm, Hf, Hmode, Hst, Hpl, !text_or_str_empty, !text_or_str_filled by tauto.
    split; cbn; try done.
    + repeat (constructor; [tauto|]). constructor.
    + eauto.
    + by apply Forall_app.
    + intros ->. rewrite Hplen by done. symmetry. by apply dict_each_length.
Qed.
End Persisted.

(** ** A concrete instance: texts already in form C, the digest the text itself *)

#[local] Instance sample_unicode : Unicode := {| nfc s := s |}.
#[local] Instance sample_unicode_laws : UnicodeLaws.
Proof. by constructor. Qed.
#[local] Instance sample_digest : TextDigest := {| text_digest s := s |}.
#[local] Instance sample_coercions : PyCoercions := strict_coercions.

Definition sample_message (text : pystr) : pydict :=
  [($"role", VStr $"user"); ($"content", VStr text); ($"_rc_token_count", VInt 3)].

Definition sample_input (text : pystr) : ReplayInput := {|
  i_session_id := VStr $"s1"; i_cache_epoch := 2; i_history_version := 7; i_model_profile := $"default";
  i_provider_family := $"openai-compatible"; i_request_mode := $"chat-completions";
  i_request_settings := VDict [($"temperature", VInt 0)];
  i_instructions := []; i_tools := []; i_items := [sample_message text]; i_item_provenance := None;
|}.

Definition sample_envelope (text : pystr) : ReplayEnvelope :=
  match create $"0123456789ab" (sample_input text) with
  | Ok e => e
  | Raise _ => {| schema_version := 0; session_id := VNone; view_id := []; cache_epoch := 0;
                  history_version := 0; model_profile := []; provider_family := []; request_mode := [];
                  request_settings := VNone; instructions := []; tools := []; items := [];
                  item_provenance := []; stable_prefix_hash := []; canonical_payload_hash := [] |}
  end.

Lemma replay_round_trip_witness :
  create $"0123456789ab" (sample_input ($"one" ++ [13; 10] ++ $"two"))
    = Ok (sample_envelope ($"one" ++ [13; 10] ++ $"two")) /\
  input_settled (sample_input ($"one" ++ [13; 10] ++ $"two")) /\
  validate (sample_envelope ($"one" ++ [13; 10] ++ $"two")) = Ok true.
Proof.
  assert (Hs : input_settled (sample_input ($"one" ++ [13; 10] ++ $"two"))).
  { split; try done; try (by repeat constructor). split; [right; eauto|done]. }
  split; [reflexivity|]. split; [exact Hs|].
  by apply (replay_round_trip $"0123456789ab" (sample_input ($"one" ++ [13; 10] ++ $"two"))).
Defined.

(** The canonical form of ["\r\r\n"] is ["\r\n"], which has another canonical
    form: an envelope with such a text does not validate when it is created. *)
Lemma fresh_envelope_rejected :
  canonicalize (canonicalize (VStr [13; 13; 10])) <> canonicalize (VStr [13; 13; 10]) /\
  create $"0123456789ab" (sample_input [13; 13; 10]) = Ok (sample_envelope [13; 13; 10]) /\
  validate (sample_envelope [13; 13; 10]) = Ok false.
Proof. split; [by vm_compute|]. split; reflexivity. Qed.

Definition sample_payload : pydict :=
  [ ($"schema_version", VInt 2); ($"session_id", VStr $"s1"); ($"view_id", VStr $"rv_1");
    ($"cache_epoch", VInt 0); ($"history_version", VInt 4); ($"model_profile", VStr $"default");
    ($"provider_family", VStr $"openai-compatible"); ($"request_mode", VStr $"chat-completions");
    ($"request_settings", VDict []); ($"instructions", VList []); ($"tools", VList []);
    ($"items", VList [VDict (sample_message $"hello")]);
    ($"stable_prefix_hash", VStr (replicate 64 97)); ($"canonical_payload_hash", VStr (replicate 64 48)) ].

Lemma validated_replay_typed_witness :
  validate_replay_payload (VDict sample_payload) (Some $"s1") = Ok () /\
  exists p e, VDict sample_payload = VDict p /\ from_dict p = Ok e /\ envelope_typed (Some $"s1") e /\
    exists b, validate_protocol e = Ok b.
Proof.
  split; [reflexivity|]. apply (validated_replay_typed (VDict sample_payload) (Some $"s1")). reflexivity.
Defined.

(** ** Lemmas on item provenance *)

Section ProvenanceLemmas.
Context `{Unicode} `{TextDigest}.

Lemma sync_events_app k l ms v :
  sync_events (k ++ l) ms v = (r ← sync_events k ms v; sync_events l r.1 r.2).
Proof.
  revert ms v. induction k as [|[i e] k IH]; intros ms v; [done|]. cbn [app sync_events].
  destruct (committed_message e) as [m|]; [|by apply IH].
  destruct (provenance_hash m) as [h|x]; [|done]. cbn. apply IH.
Qed.

(** A view already seen is kept when no newer one comes. *)
Lemma sync_events_view l ms v :
  sync_events l ms v
  = (r ← sync_events l ms None; Ok (r.1, match r.2 with Some e => Some e | None => v end)).
Proof.
  revert ms v. induction l as [|[i e] l IH]; intros ms v; [done|]. cbn [sync_events].
  destruct (committed_message e) as [m|].
  - destruct (provenance_hash m) as [h|x]; [|done]. cbn. apply IH.
  - destruct (is_view e); [|by apply IH]. rewrite (IH ms (Some e)).
    destruct (sync_events l ms None) as [[ms' [e'|]]|x]; done.
Qed.

(** The index is the one its own events give. *)
Definition built (st : ItemProvenanceIndex) : Prop := sync_from empty_index (p_events st) = Ok st.

Lemma built_empty : built empty_index.
Proof. reflexivity. Qed.

Lemma sync_from_events st current st' : sync_from st current = Ok st' -> p_events st' = current.
Proof.
  unfold sync_from. intros Hs. ok_inv Hs. destruct r as [ms [e|]].
  - ok_inv Hs. by injection Hs as <-.
  - by injection Hs as <-.
Qed.

(** Continuing a built index is building it on all the events. *)
Lemma sync_from_continue st new :
  built st -> sync_from st (p_events st ++ new) = sync_from empty_index (p_events st ++ new).
Proof.
  unfold built, sync_from. destruct st as [kept ms0 hs0 src0].
  cbn [p_events p_messages p_view_hashes p_view_source empty_index length].
  rewrite drop_app_length, !drop_0, sync_events_app.
  destruct (sync_events kept ∅ None) as [[ms v]|x]; [|done].
  unfold mbind, result_bind. cbn [fst snd]. rewrite (sync_events_view new ms v).
  unfold mbind, result_bind. destruct v as [e|].
  - destruct (view_hashes e) as [hs|x] eqn:Ev; [|done]. intros [= <- <- <-].
    destruct (sync_events new ms None) as [[ms' [e'|]]|x]; cbn [fst snd]; [done| |done]. by rewrite Ev.
  - intros [= <- <- <-]. by destruct (sync_events new ms None) as [[ms' [e'|]]|x].
Qed.

(** Object identities name one event each. *)
Definition owned (heap : Z -> HistoryEvent) (l : list LoggedEvent) : Prop := Forall (fun p => p.2 = heap p.1) l.

Lemma is_prefix_owned heap kept current :
  owned heap kept -> owned heap current -> is_prefix kept current = true ->
  exists new, current = kept ++ new.
Proof.
  unfold is_prefix. intros Hk Hc. rewrite andb_true_iff. intros [Hl Hz]. zbool. revert current Hc Hl Hz.
  induction Hk as [|[i e] kept He Hk IH]; intros current Hc Hl Hz; [by exists current|].
  destruct Hc as [|[j e'] current He' Hc]; [rewrite len_cons, len_nil in Hl; pose proof (len_nonneg kept); lia|].
  cbn [zip zip_with forallb fst] in Hz. apply andb_true_iff in Hz as [Hij Hz].
  apply bool_decide_eq_true in Hij. cbn in *. subst. rewrite !len_cons in Hl.
  destruct (IH current Hc) as [new ->]; [lia|done|]. by exists new.
Qed.

Lemma sync_rebuilds heap st current :
  built st -> owned heap (p_events st) -> owned heap current ->
  sync current st = sync current empty_index /\
  built (sync current st).2 /\ owned heap (p_events (sync current st).2).
Proof.
  intros Hb Hst Hc.
  assert (He : sync current st = sync current empty_index).
  { unfold sync. replace (is_prefix (p_events empty_index) current) with true
      by (unfold is_prefix; cbn; symmetry; apply andb_true_iff; split; [apply Z.leb_le, len_nonneg|done]).
    destruct (is_prefix _ _) eqn:Ep; [|done].
    destruct (is_prefix_owned _ _ _ Hst Hc Ep) as [new ->]. by rewrite sync_from_continue. }
  split; [done|]. rewrite He. unfold sync.
  replace (is_prefix (p_events empty_index) current) with true
    by (unfold is_prefix; cbn; symmetry; apply andb_true_iff; split; [apply Z.leb_le, len_nonneg|done]).
  destruct (sync_from empty_index current) as [st'|x] eqn:Es; cbn [snd].
  - pose proof (sync_from_events _ _ _ Es) as Hev. unfold built. by rewrite Hev.
  - split; [apply built_empty|constructor].
Qed.

Lemma align_state its current fb st : (align its current fb st).2 = (sync current st).2.
Proof.
  unfold align, mbind, stm_bind, st_get, st_lift. destruct (sync current st) as [[[]|x] st'] eqn:E; [|done].
  by destruct (provenance_hashes (map VDict its)).
Qed.

Lemma align_sync its current fb st st' :
  sync current st = sync current st' -> align its current fb st = align its current fb st'.
Proof. intros He. unfold align, mbind, stm_bind. by rewrite He. Qed.

(** Earlier calls of [align]: items, ledger, fallback. *)
Abbreviation AlignCall := (list pydict * list LoggedEvent * option pystr)%type.

Definition run_aligns (calls : list AlignCall) : ItemProvenanceIndex :=
  foldl (fun st (c : AlignCall) => (align c.1.1 c.1.2 c.2 st).2) empty_index calls.

(** the incremental index is exact: whatever requests it answered before,
    over whatever ledgers (growing, truncated, replaced) and with whatever
    failures, [align] returns what a new index computes from all the events,
    and leaves the same state. *)
Theorem incremental_index_exact heap calls its current fb :
  Forall (fun c : AlignCall => owned heap c.1.2) calls -> owned heap current ->
  align its current fb (run_aligns calls) = align its current fb empty_index.
Proof.
  intros Hcalls Hc. apply align_sync.
  assert (Hrun : built (run_aligns calls) /\ owned heap (p_events (run_aligns calls))).
  { unfold run_aligns. assert (Hbe : built empty_index /\ owned heap (p_events empty_index)) by (split; [apply built_empty|constructor]).
    revert Hbe. generalize empty_index as st. induction Hcalls as [|c calls Hc0 Hcalls IH]; intros st [Hb Ho]; [done|].
    cbn [foldl]. apply IH. rewrite align_state. by apply sync_rebuilds. }
  by apply (sync_rebuilds heap); [apply Hrun..|].
Qed.
End ProvenanceLemmas.

(** ** What a row says *)

Section Tracing.
Context `{Unicode} `{TextDigest}.

Inductive origin :=
| FromView (s : ProvenanceSource)
| FromMessage (s : ProvenanceSource)
| Untraced.

Definition render (fallback : option pystr) (o : origin) : pydict :=
  match o with
  | FromView s | FromMessage s => provenance_to_dict s
  | Untraced => fallback_provenance fallback
  end.

(** The events used as messages. *)
Definition message_ids : list origin -> list pystr :=
  omap (fun o => match o with FromMessage s => Some (ps_event_id s) | _ => None end).

(** The sources the ledger has for a hash, in order, and its latest view. *)
Definition commits (h : pystr) (l : list LoggedEvent) : list ProvenanceSource :=
  omap (fun p : LoggedEvent =>
    m ← committed_message p.2;
    match provenance_hash m with
    | Ok h' => if decide (h = h') then Some (event_source p.2 VNone) else None
    | Raise _ => None
    end) l.

Definition latest_view (l : list LoggedEvent) (v : option HistoryEvent) : option HistoryEvent :=
  foldl (fun v (p : LoggedEvent) => if is_view p.2 then Some p.2 else v) v l.

Lemma committed_not_view e m : committed_message e = Some m -> is_view e = false.
Proof.
  unfold committed_message, is_view. case_bool_decide as E; [|done]. intros _. by rewrite E.
Qed.

Lemma sync_events_spec l ms v ms' v' :
  sync_events l ms v = Ok (ms', v') ->
  v' = latest_view l v /\ forall h, default [] (ms' !! h) = default [] (ms !! h) ++ commits h l.
Proof.
  revert ms v. induction l as [|[i e] l IH]; intros ms v; cbn [sync_events].
  - intros [= <- <-]. split; [done|]. intros h. by rewrite app_nil_r.
  - destruct (committed_message e) as [m|] eqn:Em.
    + destruct (provenance_hash m) as [h0|x] eqn:Eh; [|done]. intros Hs.
      apply IH in Hs as [-> Hms]. split; [cbn; by rewrite (committed_not_view _ _ Em)|].
      intros h. rewrite Hms. unfold commits at 2. cbn [omap list_omap fst snd]. rewrite Em. cbn.
      rewrite Eh. destruct (decide (h = h0)) as [->|Hn].
      * rewrite lookup_insert_eq. cbn. by rewrite <- app_assoc.
      * by rewrite lookup_insert_ne.
    + intros Hs. apply IH in Hs as [-> Hms]. split; [done|]. intros h. rewrite Hms. unfold commits at 2.
      cbn [omap list_omap fst snd]. by rewrite Em.
Qed.

(** The index of a ledger. *)
Lemma sync_from_spec current st :
  sync_from empty_index current = Ok st ->
  (forall h, default [] (p_messages st !! h) = commits h current) /\
  match latest_view current None with
  | None => p_view_source st = None
  | Some e => view_hashes e = Ok (p_view_hashes st) /\
      p_view_source st = Some (event_source e (dget_none (Ledger.payload e) $"checkpoint_id"))
  end.
Proof.
  unfold sync_from. cbn [p_events p_messages p_view_hashes p_view_source empty_index length].
  rewrite drop_0. intros Hs. apply bind_ok in Hs as ([ms v] & Hev & Hs).
  apply sync_events_spec in Hev as [-> Hms].
  assert (Hm : forall h, default [] (ms !! h) = commits h current).
  { intros h. rewrite Hms, lookup_empty. done. }
  destruct (latest_view current None) as [e|].
  - ok_inv Hs. by injection Hs as <-.
  - by injection Hs as <-.
Qed.

(** ** The view pass *)

Lemma advance_sublist h c : forall b c', advance h c = (b, c') -> if b then h :: c' `sublist_of` c else c' = [].
Proof.
  induction c as [|x c IH]; intros b c'; cbn; [by intros [= <- <-]|]. case_bool_decide as E.
  - intros [= <- <-]. by subst.
  - intros Ha. specialize (IH _ _ Ha). destruct b; [by apply sublist_cons|done].
Qed.

(** The hashes of the items traced to the view, in their order. *)
Definition viewed (hashes : list pystr) (rows : list (option pydict)) : list pystr :=
  omap (fun p : pystr * option pydict => match p.2 with Some _ => Some p.1 | None => None end) (zip hashes rows).

Lemma view_pass_spec s hashes cursor :
  length (view_pass s hashes cursor) = length hashes /\
  Forall (fun r => r = None \/ r = Some (provenance_to_dict s)) (view_pass s hashes cursor) /\
  viewed hashes (view_pass s hashes cursor) `sublist_of` cursor.
Proof.
  revert cursor. induction hashes as [|h hashes IH]; intros cursor; cbn [view_pass].
  { split_and!; [done|constructor|apply sublist_nil_l]. }
  destruct (advance h cursor) as [b c] eqn:E. apply advance_sublist in E.
  destruct (IH c) as (Hl & Hf & Hv). split_and!; [cbn; by rewrite Hl|constructor; [by destruct b; auto|done]|].
  unfold viewed in *. cbn [zip zip_with omap list_omap fst snd]. destruct b; cbn.
  - etrans; [by apply sublist_skip|exact E].
  - subst. etrans; [exact Hv|apply sublist_nil_l].
Qed.

(** ** The message pass *)

Section MessagePass.
Context (ms : gmap pystr (list ProvenanceSource)).

Definition candidates (h : pystr) : list ProvenanceSource := default [] (ms !! h).

(** Candidates from the position of their hash on are used. *)
Definition passed (used : gset pystr) (positions : gmap pystr nat) : Prop :=
  forall h i s, candidates h !! i = Some s ->
    (default (length (candidates h)) (positions !! h) <= i)%nat -> ps_event_id s ∈ used.

Lemma pick_spec cs used n s n' :
  pick cs used n = (s, n') ->
  (forall i c, cs !! i = Some c -> (n' <= i < n)%nat -> s = Some c \/ ps_event_id c ∈ used) /\
  match s with Some c => c ∈ cs /\ (ps_event_id c ∉ used) | None => n' = O end.
Proof.
  revert s n'. induction n as [|n IH]; intros s n'; cbn; [by intros [= <- <-]; split; [lia|]|].
  assert (Hrest : pick cs used n = (s, n') -> (forall c, cs !! n = Some c -> ps_event_id c ∈ used) ->
    (forall i c, cs !! i = Some c -> (n' <= i < S n)%nat -> s = Some c \/ ps_event_id c ∈ used) /\
    match s with Some c => c ∈ cs /\ (ps_event_id c ∉ used) | None => n' = O end).
  { intros Hp Hn. destruct (IH _ _ Hp) as [Hu Hs]. split; [|done]. intros i c Hi Hb.
    destruct (decide (i = n)) as [->|]; [right; by apply Hn|apply (Hu i); [done|lia]]. }
  destruct (cs !! n) as [c|] eqn:En; [|intros Hp; by apply Hrest].
  case_bool_decide as Eu.
  - intros Hp. apply Hrest; [done|]. by intros ? [= <-].
  - intros [= <- <-]. split; [|split; [by eapply list_elem_of_lookup_2|done]]. intros i c' Hi Hb.
    left. replace i with n in Hi by lia. congruence.
Qed.

(** The event of a message row is new, and nothing is left for an item that is
    not traced. *)
Definition traces (view : option ProvenanceSource) (used : gset pystr)
    (r : pystr * option pydict) (o : origin) : Prop :=
  match o with
  | FromView s => view = Some s /\ r.2 = Some (provenance_to_dict s)
  | FromMessage s => r.2 = None /\ s ∈ candidates r.1
  | Untraced => r.2 = None /\ forall s, s ∈ candidates r.1 -> ps_event_id s ∈ used
  end.

Lemma traces_mono view used used' r o : used ⊆ used' -> traces view used r o -> traces view used' r o.
Proof. intros Hu. destruct o; cbn; naive_solver. Qed.

Lemma message_pass_spec fallback view rows used positions :
  Forall (fun r : pystr * option pydict => r.2 = None \/
            exists s, view = Some s /\ r.2 = Some (provenance_to_dict s)) rows ->
  passed used positions ->
  exists os, message_pass ms fallback rows used positions = map (render fallback) os /\
    Forall2 (traces view (list_to_set (message_ids os) ∪ used)) rows os /\
    NoDup (message_ids os) /\ Forall (fun id => id ∉ used) (message_ids os).
Proof.
  intros Hrows. revert used positions. induction Hrows as [|[h v] rows Hr Hrows IH]; intros used positions Hp.
  { exists []. split_and!; [done|constructor|constructor|constructor]. }
  cbn [message_pass]. destruct v as [row|].
  { destruct Hr as [?|(s & Hv & [= ->])]; [done|].
    destruct (IH used positions Hp) as (os & -> & Ht & Hn & Hf). exists (FromView s :: os).
    split_and!; [done|by constructor|done|done]. }
  fold (candidates h). destruct (pick _ _ _) as [s n] eqn:E. apply pick_spec in E as [Hu Hs].
  destruct s as [s|].
  - destruct Hs as [Hin Hnew].
    destruct (IH ({[ps_event_id s]} ∪ used) (<[h:=n]> positions)) as (os & -> & Ht & Hn & Hf).
    { intros h' i c Hi Hle. destruct (decide (h' = h)) as [->|Hne].
      - rewrite lookup_insert_eq in Hle. cbn in Hle.
        destruct (decide (i < default (length (candidates h)) (positions !! h))%nat).
        + destruct (Hu i c Hi) as [[= ->]|?]; [lia|set_solver..].
        + apply elem_of_union_r, (Hp h i c); [done|lia].
      - rewrite lookup_insert_ne in Hle by done. apply elem_of_union_r. by apply (Hp h' i c). }
    exists (FromMessage s :: os). cbn [message_ids omap list_omap]. fold (message_ids os).
    rewrite Forall_forall in Hf. split_and!; [done| | |].
    + constructor; [by split|]. eapply Forall2_impl; [exact Ht|]. intros r o. apply traces_mono. set_solver.
    + constructor; [|done]. intros Hid. apply (Hf _ Hid). set_solver.
    + constructor; [done|]. rewrite Forall_forall. intros id Hid. specialize (Hf _ Hid). set_solver.
  - subst n. destruct (IH used (<[h:=0%nat]> positions)) as (os & -> & Ht & Hn & Hf).
    { intros h' i c Hi Hle. destruct (decide (h' = h)) as [->|Hne].
      - destruct (decide (i < default (length (candidates h)) (positions !! h))%nat).
        + by destruct (Hu i c Hi) as [?|?]; [lia|..].
        + apply (Hp h i c); [done|lia].
      - rewrite lookup_insert_ne in Hle by done. by apply (Hp h' i c). }
    exists (Untraced :: os). split_and!; [done| |done|done]. constructor; [|done]. split; [done|].
    intros c [i Hi]%list_elem_of_lookup. apply elem_of_union_r.
    destruct (decide (i < default (length (candidates h)) (positions !! h))%nat).
    + by destruct (Hu i c Hi) as [?|?]; [lia|..].
    + apply (Hp h i c); [done|lia].
Qed.
End MessagePass.
End Tracing.

Section Soundness.
Context `{Unicode} `{TextDigest}.

(** The hashes of the items traced to the view, in their order. *)
Definition view_items (hashes : list pystr) (os : list origin) : list pystr :=
  omap (fun p : pystr * origin => match p.2 with FromView _ => Some p.1 | _ => None end) (zip hashes os).

Lemma view_items_viewed ms view used hashes vs os :
  length vs = length hashes -> Forall2 (traces ms view used) (zip hashes vs) os ->
  view_items hashes os = viewed hashes vs.
Proof.
  intros Hl Ht. revert vs os Hl Ht. induction hashes as [|h hashes IH]; intros [|v vs] os Hl Ht; try done.
  cbn [zip zip_with] in Ht. inversion Ht as [|? o ? os' Ho Hos]; subst. injection Hl as Hl.
  unfold view_items, viewed in *. cbn [zip zip_with omap list_omap fst snd].
  specialize (IH vs os' Hl Hos). destruct o as [s|s|]; cbn in Ho; destruct Ho as [Hv Hr]; cbn in Hr.
  - subst v. cbn. by f_equal.
  - cbn in Hv. subst v. done.
  - cbn in Hv. subst v. done.
Qed.

(** The evidence for one row. *)
Definition evidence (current : list LoggedEvent) (used : list pystr) (h : pystr) (o : origin) : Prop :=
  match o with
  | FromView s => exists e, latest_view current None = Some e /\
      s = event_source e (dget_none (Ledger.payload e) $"checkpoint_id")
  | FromMessage s => s ∈ commits h current
  | Untraced => forall s, s ∈ commits h current -> ps_event_id s ∈ used
  end.

(** The rows of a built index. *)
Lemma rows_traced current st fallback hashes :
  (forall h, default [] (p_messages st !! h) = commits h current) ->
  match latest_view current None with
  | None => p_view_source st = None
  | Some e => view_hashes e = Ok (p_view_hashes st) /\
      p_view_source st = Some (event_source e (dget_none (Ledger.payload e) $"checkpoint_id"))
  end ->
  let of_view := match p_view_source st with
                 | Some s => view_pass s hashes (p_view_hashes st)
                 | None => map (fun _ => None) hashes
                 end in
  exists os, message_pass (p_messages st) fallback (zip hashes of_view) ∅ ∅ = map (render fallback) os /\
    Forall2 (evidence current (message_ids os)) hashes os /\ NoDup (message_ids os) /\
    match latest_view current None with
    | Some e => exists vh, view_hashes e = Ok vh /\ view_items hashes os `sublist_of` vh
    | None => view_items hashes os = []
    end.
Proof.
  intros Hms Hview of_view.
  assert (Hov : length of_view = length hashes /\
    Forall (fun r => r = None \/ exists s, p_view_source st = Some s /\ r = Some (provenance_to_dict s)) of_view /\
    match p_view_source st with
    | Some _ => viewed hashes of_view `sublist_of` p_view_hashes st
    | None => viewed hashes of_view = []
    end).
  { unfold of_view. destruct (p_view_source st) as [s|].
    - destruct (view_pass_spec s hashes (p_view_hashes st)) as (Hl & Hf & Hs). split_and!; [done| |done].
      eapply Forall_impl; [exact Hf|]. naive_solver.
    - split_and!; [apply length_map|apply Forall_map, Forall_true; by left|].
      unfold viewed. clear. induction hashes as [|h hashes IH]; done. }
  destruct Hov as (Hl & Hf & Hs).
  destruct (message_pass_spec (p_messages st) fallback (p_view_source st) (zip hashes of_view) ∅ ∅)
    as (os & Hos & Ht & Hn & _).
  { apply Forall_forall. intros [h r] Hr%elem_of_zip_r. rewrite Forall_forall in Hf. exact (Hf r Hr). }
  { intros h i s Hi. rewrite lookup_empty. cbn. apply lookup_lt_Some in Hi. lia. }
  exists os. split_and!; [done| |done|].
  - assert (Ht' : Forall2 (fun r o => evidence current (message_ids os) r.1 o) (zip hashes of_view) os).
    { eapply Forall2_impl; [exact Ht|]. intros [h r] o. unfold traces, evidence, candidates. cbn [fst].
      destruct o as [s|s|].
      - intros [Hv _]. rewrite Hv in Hview. destruct (latest_view current None) as [e|]; [|done].
        exists e. split; [done|]. destruct Hview as [_ Hview]. congruence.
      - rewrite Hms. by intros [_ ?].
      - rewrite Hms. intros [_ Hc] s Hs'. specialize (Hc s Hs'). set_solver. }
    replace hashes with (zip hashes of_view).*1 at 1 by (apply fst_zip; lia). by apply Forall2_fmap_l.
  - rewrite (view_items_viewed _ _ _ _ _ _ Hl Ht). destruct (latest_view current None) as [e|].
    + destruct Hview as [Hvh Hvs]. rewrite Hvs in Hs. eauto.
    + by rewrite Hview in Hs.
Qed.

(** provenance is sound and complete: every row names the ledger's latest
    view or an event that committed a message with the item's hash, no event
    stands for two items, the items of the view are traced in the view's order,
    and an item is left untraced only when every event that could explain it is
    used by another item. *)
Theorem provenance_sound its current fallback rows :
  align_item_provenance its current fallback = Ok rows ->
  exists hashes os,
    provenance_hashes (map VDict its) = Ok hashes /\ rows = map (render fallback) os /\
    Forall2 (evidence current (message_ids os)) hashes os /\ NoDup (message_ids os) /\
    match latest_view current None with
    | Some e => exists vh, view_hashes e = Ok vh /\ view_items hashes os `sublist_of` vh
    | None => view_items hashes os = []
    end.
Proof.
  unfold align_item_provenance, align, sync, mbind, stm_bind, st_get, st_lift.
  destruct (is_prefix _ _); cbv zeta;
    (destruct (sync_from empty_index current) as [st|x] eqn:Es; [|done]);
    apply sync_from_spec in Es as [Hms Hview]; cbn [fst];
    (destruct (provenance_hashes (map VDict its)) as [hashes|x]; [|done]);
    unfold mret, stm_ret; cbn [fst]; intros [= <-]; exists hashes;
    destruct (rows_traced current st fallback hashes Hms Hview) as (os & Hos); by exists os.
Qed.
End Soundness.

(** ** A concrete ledger *)

Definition sample_event (n : Z) (id kind : pystr) (payload : pydict) : HistoryEvent := {|
  Ledger.schema_version := 2; Ledger.seq := n; Ledger.event_id := id; Ledger.kind := kind;
  Ledger.created_at := $"0.0"; Ledger.session_generation := 1; Ledger.payload := payload;
  Ledger.session_id := None; Ledger.agent_id := None; Ledger.parent_agent_id := None;
  Ledger.job_id := None; Ledger.turn_id := None; Ledger.api_round_id := None; Ledger.role := None;
  Ledger.artifact_refs := []; Ledger.supersedes_event_ids := [] |}.

Definition commit_event (n : Z) (id text : pystr) : HistoryEvent :=
  sample_event n id $"message_committed" [($"message", VDict (sample_message text))].

Definition sample_heap (i : Z) : HistoryEvent :=
  if i =? 1 then commit_event 1 $"e1" $"again"
  else if i =? 2 then commit_event 2 $"e2" $"again"
  else sample_event 3 $"e3" $"context_view_committed"
         [($"items", VList [VDict (sample_message $"summary")]); ($"checkpoint_id", VStr $"c1")].

Definition sample_ledger : list LoggedEvent := map (fun i => (i, sample_heap i)) [1; 2; 3].

(** Two equal messages take the newest event first; the summary comes from the
    view; nothing explains the last item. *)
Example sample_alignment :
  align_item_provenance (map sample_message [$"summary"; $"again"; $"again"; $"again"]) sample_ledger None
  = Ok [ provenance_to_dict (event_source (sample_heap 3) (VStr $"c1"));
         provenance_to_dict (event_source (sample_heap 2) VNone);
         provenance_to_dict (event_source (sample_heap 1) VNone); fallback_provenance None ].
Proof. vm_compute. reflexivity. Qed.

Lemma provenance_sound_witness :
  exists hashes os,
    provenance_hashes (map VDict (map sample_message [$"summary"; $"again"; $"other"])) = Ok hashes /\
    Forall2 (evidence sample_ledger (message_ids os)) hashes os.
Proof.
  destruct (provenance_sound (map sample_message [$"summary"; $"again"; $"other"]) sample_ledger (Some $"e3")
    [ provenance_to_dict (event_source (sample_heap 3) (VStr $"c1"));
      provenance_to_dict (event_source (sample_heap 2) VNone); fallback_provenance (Some $"e3") ])
    as (hashes & os & Hh & _ & He & _); [vm_compute; reflexivity|].
  by exists hashes, os.
Defined.

Lemma incremental_index_exact_witness :
  owned sample_heap sample_ledger /\
  align [sample_message $"again"] sample_ledger None
    (run_aligns [([sample_message $"again"], take 1 sample_ledger, None)])
  = align [sample_message $"again"] sample_ledger None empty_index.
Proof.
  split; [by repeat constructor|].
  apply (incremental_index_exact sample_heap); by repeat constructor.
Defined.
