(* ===== verification/RuntimeIssues.v ===== *)
(** * Runtime issues (domain/agent/agent.py)

    Failures of observers must reach the model as facts, but never as content:
    the agent keeps a bounded table of counters keyed by three identifiers,
    cleared with each session generation.  Operations hold the issue lock for
    their whole effect. *)

From S2P Require Import Prelude PyValue.

Definition MAX_RUNTIME_ISSUE_KEYS : Z := 8.
Definition MAX_RUNTIME_ISSUE_COUNT : Z := 1000000.

Record RuntimeIssue := { phase : pystr; error_type : pystr; ref : pystr; count : Z }.

(** [str.isalnum] on an ASCII text. *)
Definition is_ascii_alnum (c : Z) : bool :=
  ((48 <=? c) && (c <=? 57)) || ((65 <=? c) && (c <=? 90)) || ((97 <=? c) && (c <=? 122)).
Definition ascii_isalnum (s : pystr) : bool := negb (bool_decide (s = [])) && forallb is_ascii_alnum s.

Definition safe_runtime_issue_field (value : pyval) (fallback : pystr) : pystr :=
  match value with
  | VStr v =>
    if bool_decide (v = []) || (64 <? len v) || negb (forallb (fun c => c <? 128) v) then fallback
    else if negb (ascii_isalnum (filter (fun c => c <> 95) v)) then fallback
    else v
  | _ => fallback
  end.

Definition IssueKey : Type := pystr * pystr * pystr.

Record Issues := {
  agent_id : pystr;
  session_generation : Z;
  issue_counts : list (IssueKey * Z);
  issue_overflow : Z;
}.

(** [min(count, MAX)] for a positive integer, else 1. *)
Definition safe_count (v : pyval) : Z :=
  match v with VInt n => if 0 <? n then Z.min n MAX_RUNTIME_ISSUE_COUNT else 1 | _ => 1 end.

(** The optional owner and generation of the fact. *)
Definition record_runtime_issue (phase error_type ref count : pyval) (agent : option pystr)
    (generation : pyval) (s : Issues) : bool * Issues :=
  if match agent with Some a => negb (bool_decide (a = agent_id s)) | None => false end then (false, s)
  else if match generation with VNone | VInt _ => false | _ => true end then (false, s)
  else
    let key := (safe_runtime_issue_field phase $"runtime", safe_runtime_issue_field error_type $"Exception",
                safe_runtime_issue_field ref $"observer") in
    let n := safe_count count in
    if match generation with VInt g => negb (g =? session_generation s) | _ => false end then (false, s)
    else
      let set counts overflow := {| agent_id := agent_id s; session_generation := session_generation s;
                                    issue_counts := counts; issue_overflow := overflow |} in
      (true,
       match assoc_get (issue_counts s) key with
       | Some c => set (assoc_set (issue_counts s) key (Z.min (c + n) MAX_RUNTIME_ISSUE_COUNT)) (issue_overflow s)
       | None =>
         if len (issue_counts s) <? MAX_RUNTIME_ISSUE_KEYS - 1
         then set (assoc_set (issue_counts s) key n) (issue_overflow s)
         else set (issue_counts s) (Z.min (issue_overflow s + n) MAX_RUNTIME_ISSUE_COUNT)
       end).

Definition overflow_issue (n : Z) : RuntimeIssue :=
  {| phase := $"runtime_issue"; error_type := $"Overflow"; ref := $"capacity"; count := n |}.

Definition issue_of (p : IssueKey * Z) : RuntimeIssue :=
  {| phase := p.1.1.1; error_type := p.1.1.2; ref := p.1.2; count := p.2 |}.

Definition runtime_issue_snapshot (s : Issues) : list RuntimeIssue :=
  map issue_of (issue_counts s)
  ++ (if issue_overflow s =? 0 then [] else [overflow_issue (issue_overflow s)]).

(** The part of [reset] that starts a generation. *)
Definition reset_issues (s : Issues) : Issues :=
  {| agent_id := agent_id s; session_generation := session_generation s + 1;
     issue_counts := []; issue_overflow := 0 |}.

(** ** Histories *)

Inductive IssueOp :=
| RecordIssue (phase error_type ref count : pyval) (agent : option pystr) (generation : pyval)
| ResetIssues.

Definition run_issue (s : Issues) (op : IssueOp) : Issues :=
  match op with
  | RecordIssue p e r c a g => (record_runtime_issue p e r c a g s).2
  | ResetIssues => reset_issues s
  end.

Definition no_issues (agent : pystr) : Issues :=
  {| agent_id := agent; session_generation := 0; issue_counts := []; issue_overflow := 0 |}.

(** ** Bounds *)

(** A field that can carry no content: an identifier of at most 64 characters. *)
Definition safe_field (s : pystr) : Prop :=
  s <> [] /\ len s <= 64 /\ Forall (fun c => is_ascii_alnum c = true \/ c = 95) s.

Lemma safe_literal s :
  negb (bool_decide (s = [])) && (len s <=? 64) && forallb (fun c => is_ascii_alnum c || (c =? 95)) s = true ->
  safe_field s.
Proof.
  rewrite !andb_true_iff, negb_true_iff, bool_decide_eq_false, forallb_forall. intros [[Hs Hl] Hf].
  split_and!; [done|lia|]. apply Forall_forall. intros c Hc%list_elem_of_In. specialize (Hf c Hc).
  apply orb_true_iff in Hf as [?|?]; [by left|right; lia].
Qed.

Lemma safe_field_ok v fallback : safe_field fallback -> safe_field (safe_runtime_issue_field v fallback).
Proof.
  intros Hf. unfold safe_runtime_issue_field. destruct v as [| | | |s| |]; try done.
  destruct (bool_decide (s = [])) eqn:E1; [done|]. destruct (64 <? len s) eqn:E2; [done|]. cbn [orb].
  destruct (negb (forallb (fun c => c <? 128) s)); [done|].
  destruct (ascii_isalnum (filter (fun c => c <> 95) s)) eqn:E3; [|done]. cbn [negb].
  apply bool_decide_eq_false in E1. zbool. split_and!; [done..|].
  apply andb_true_iff in E3 as [_ E3]. rewrite forallb_forall in E3. apply Forall_forall. intros c Hc.
  destruct (decide (c = 95)); [by right|left]. apply E3, list_elem_of_In, list_elem_of_filter. by split.
Qed.

Definition bounded_count (n : Z) : Prop := 1 <= n <= MAX_RUNTIME_ISSUE_COUNT.

Record issues_bounded (s : Issues) : Prop := {
  ib_keys : NoDup (issue_counts s).*1;
  ib_size : len (issue_counts s) <= MAX_RUNTIME_ISSUE_KEYS - 1;
  ib_counts : Forall (fun p : IssueKey * Z => bounded_count p.2 /\
    safe_field p.1.1.1 /\ safe_field p.1.1.2 /\ safe_field p.1.2) (issue_counts s);
  ib_overflow : 0 <= issue_overflow s <= MAX_RUNTIME_ISSUE_COUNT;
}.

Lemma safe_count_bounded v : bounded_count (safe_count v).
Proof.
  unfold safe_count, bounded_count, MAX_RUNTIME_ISSUE_COUNT. destruct v as [| |n| | | |]; try lia.
  destruct (0 <? n) eqn:E; zbool; lia.
Qed.

Lemma assoc_set_len {K V} `{EqDecision K} (l : list (K * V)) k v :
  len (assoc_set l k v) = if decide (k ∈ l.*1) then len l else len l + 1.
Proof.
  assert (Hl : forall l' : list (K * V), len l' = len l'.*1) by (intros; unfold len; by rewrite length_fmap).
  rewrite (Hl (assoc_set l k v)), assoc_set_keys. case_decide; [by rewrite <- Hl|].
  by rewrite len_app, len_cons, len_nil, <- Hl.
Qed.

Lemma Forall_assoc_set {K V} `{EqDecision K} (P : K * V -> Prop) l k v :
  Forall P l -> P (k, v) -> Forall P (assoc_set l k v).
Proof.
  intros Hl Hp. induction Hl as [|[k' v'] l Hx Hl IH]; cbn; [by repeat constructor|].
  case_decide as E; constructor; try done. by subst.
Qed.

Lemma record_bounded p e r c a g s : issues_bounded s -> issues_bounded (record_runtime_issue p e r c a g s).2.
Proof.
  intros Hb. unfold record_runtime_issue.
  destruct (match a with Some _ => _ | None => false end); [done|].
  destruct (match g with VNone | VInt _ => false | _ => true end); [done|]. cbv zeta.
  destruct (match g with VInt _ => _ | _ => false end); [done|].
  set (key := (_, _, _)).
  assert (Hk : safe_field key.1.1 /\ safe_field key.1.2 /\ safe_field key.2).
  { split_and!; apply safe_field_ok, safe_literal; reflexivity. }
  pose proof (safe_count_bounded c) as Hn. destruct Hb as [Hkeys Hsize Hcounts Hover].
  unfold bounded_count, MAX_RUNTIME_ISSUE_KEYS, MAX_RUNTIME_ISSUE_COUNT in *.
  destruct (assoc_get (issue_counts s) key) as [c0|] eqn:Eg; cbn [snd].
  - apply assoc_get_elem in Eg. pose proof Hcounts as Hall. rewrite Forall_forall in Hall.
    destruct (Hall _ Eg) as [Hc0 _]. cbn in Hc0. split; cbn.
    + by apply assoc_set_NoDup.
    + rewrite assoc_set_len, decide_True; [done|]. apply list_elem_of_fmap. by exists (key, c0).
    + apply Forall_assoc_set; [done|]. split; [unfold bounded_count, MAX_RUNTIME_ISSUE_COUNT; cbn; lia|exact Hk].
    + done.
  - destruct (len (issue_counts s) <? 8 - 1) eqn:El; zbool; split; cbn; try done.
    + by apply assoc_set_NoDup.
    + rewrite assoc_set_len. unfold MAX_RUNTIME_ISSUE_KEYS. case_decide; lia.
    + apply Forall_assoc_set; [done|]. split; [unfold bounded_count, MAX_RUNTIME_ISSUE_COUNT; cbn; lia|exact Hk].
    + unfold MAX_RUNTIME_ISSUE_COUNT. lia.
Qed.

(** failure reports stay bounded and free of content.  Whatever failures
    are recorded, by whomever and with whatever values, a snapshot holds at
    most eight issues under distinct names, each with a count between 1 and one
    million and made of identifiers of at most 64 letters, digits and
    underscores. *)
Theorem runtime_issues_bounded agent ops :
  let s := foldl run_issue (no_issues agent) ops in
  len (runtime_issue_snapshot s) <= MAX_RUNTIME_ISSUE_KEYS /\
  NoDup (issue_counts s).*1 /\
  Forall (fun i => bounded_count (count i) /\ safe_field (phase i) /\ safe_field (error_type i) /\ safe_field (ref i))
    (runtime_issue_snapshot s).
Proof.
  assert (Hb : forall s, issues_bounded s -> issues_bounded (foldl run_issue s ops)).
  { induction ops as [|op ops IH]; intros s Hs; [done|]. apply IH. destruct op; [by apply record_bounded|].
    by split; cbn; try constructor. }
  specialize (Hb (no_issues agent)). destruct Hb as [Hk Hs Hc Ho].
  { by split; cbn; try constructor. }
  intros s. fold s in Hk, Hs, Hc, Ho. unfold runtime_issue_snapshot, MAX_RUNTIME_ISSUE_KEYS in *. split_and!; [|done|].
  - rewrite len_app. unfold len at 1. rewrite length_map. fold (len (issue_counts s)).
    destruct (issue_overflow s =? 0); [rewrite len_nil|rewrite len_cons, len_nil]; lia.
  - apply Forall_app. split; [by apply Forall_map|]. destruct (issue_overflow s =? 0) eqn:E; zbool; [constructor|]. constructor; [|constructor].
    split; [unfold bounded_count; cbn; lia|]. cbn. split_and!; apply safe_literal; reflexivity.
Qed.
