(* ===== verification/Steering.v ===== *)
(** * User steering (domain/agent/agent.py, domain/cancellation.py, domain/images.py)

    While a turn runs, other threads may admit user directions, promote them
    to an immediate interrupt, or stop the turn.  The agent queues admitted
    directions and applies them to the model's history only at the boundary
    between two requests.  Every step is recorded in the event log first; after
    a crash the log tells which directions were never applied.

    Each operation holds the steering lock for its whole effect, so a history
    of the component is a sequence of operations.  The log is any implementation
    of [MessageLog]; fresh identifiers, the log's clocks and write results and
    the result of [persist_runtime_snapshot] are inputs.  Emitted events are
    collected; their display form ([display_content]) is left out. *)

From S2P Require Import Prelude PyValue ToolHistory ContextMessages ToolOutcome Ledger.

(** ** Chat input *)

Record ChatInput := {
  text : pystr;
  images : list ImageReference;
  image_labels : list pystr;
  submission_id : option pystr;
}.

(** [s.index(t)]: the first position of [t], which occurs in [s]. *)
Fixpoint py_index (t s : pystr) : Z :=
  if startswith s t then 0 else match s with [] => 0 | _ :: s => 1 + py_index t s end.

Definition text_part (s : pystr) : pyval := VDict [($"type", VStr $"text"); ($"text", VStr s)].

(** [replace(image, turn_id=turn_id)]. *)
Definition with_turn (turn_id : pystr) (i : ImageReference) : ImageReference :=
  {| attachment_id := attachment_id i; variant_id := variant_id i; mime_type := mime_type i;
     width := width i; height := height i; size_bytes := size_bytes i;
     original_width := original_width i; original_height := original_height i; i_name := i_name i;
     i_turn_id := Some turn_id; i_path := i_path i |}.

(** Labels in the order of their position; positions of distinct labels differ. *)
Definition placed_images (c : ChatInput) : list (Z * (pystr * ImageReference)) :=
  stable_sort (fun p q => p.1 <=? q.1)
    (map (fun p : pystr * ImageReference => (py_index p.1 (text c), p)) (zip (image_labels c) (images c))).

Fixpoint labelled_parts (turn_id s : pystr) (cursor : Z) (l : list (Z * (pystr * ImageReference)))
    : list pyval :=
  match l with
  | [] => if cursor <? len s then [text_part (slice_from cursor s)] else []
  | (position, (label, image)) :: l =>
    let end_ := position + len label in
    text_part (slice_to (end_ - cursor) (slice_from cursor s))
    :: VDict (to_part (with_turn turn_id image)) :: labelled_parts turn_id s end_ l
  end.

(** [ChatInput.content]. *)
Definition chat_content (turn_id : pystr) (c : ChatInput) : pyval :=
  match images c, image_labels c with
  | [], _ => VStr (text c)
  | _, _ :: _ => VList (labelled_parts turn_id (text c) 0 (placed_images c))
  | l, [] => VList ((if bool_decide (text c = []) then [] else [text_part (text c)])
                    ++ map (fun i => VDict (to_part (with_turn turn_id i))) l)
  end.

Inductive SteeringInput := SteerText (s : pystr) | SteerChat (c : ChatInput).

Definition input_content (turn_id : pystr) (i : SteeringInput) : pyval :=
  match i with SteerText s => VStr (strip s) | SteerChat c => chat_content turn_id c end.

Definition input_submission (i : SteeringInput) : option pystr :=
  match i with SteerText _ => None | SteerChat c => submission_id c end.

(** ** The state *)

Record PendingUserSteering := {
  steering_id : pystr;
  content : pyval;
  p_generation : Z;
  p_turn_id : pystr;
  p_submission_id : option pystr;
}.

Inductive InterruptIntentOutcome :=
  PROMOTED | ALREADY_PROMOTED | NOTHING_PENDING | STOP_REQUESTED | ALREADY_STOPPING.

Record InterruptIntentResult := {
  outcome : InterruptIntentOutcome;
  steering_ids : list pystr;
  discarded_count : Z;
  r_epoch : Z;
}.

(** A [user_steering] event. *)
Record SteeringNotice := { n_steering_id : pystr; n_content : pyval; n_attempt_id : option pystr }.

Definition IMAGE_TURN_KEY : pystr := $"_rc_image_turn_id".

(** What the log writes for one direction meet. *)
Record ItemIO := { t_event : Tick; t_message : Tick; t_kind : Tick; w_batch : WriteOutcome }.

Definition item_written (i : ItemIO) : Prop :=
  io (t_event i) = Written /\ io (t_message i) = Written /\ io (t_kind i) = Written /\ w_batch i = Written.

Section Steering.
Context {S : Type} `{MessageLog S}.

Record Agent := {
  history_ledger : S;
  messages : list message;
  context_revision : Z;
  pending_user_steering : list PendingUserSteering;
  accepting_user_steering : bool;
  current_turn_id : option pystr;
  image_turn_id : option pystr;
  session_generation : Z;
  agent_id : option pystr;
  current_round : Z;
  round_interrupt_epoch : Z;
  round_interrupt_pending : bool;
  stop_event : bool;
  turn_attempt_counter : Z;
  snapshots : Z;
  notices : list SteeringNotice;
}.

Definition set_ledger (l : S) (a : Agent) : Agent :=
  {| history_ledger := l; messages := messages a; context_revision := context_revision a;
     pending_user_steering := pending_user_steering a; accepting_user_steering := accepting_user_steering a;
     current_turn_id := current_turn_id a; image_turn_id := image_turn_id a;
     session_generation := session_generation a; agent_id := agent_id a; current_round := current_round a;
     round_interrupt_epoch := round_interrupt_epoch a; round_interrupt_pending := round_interrupt_pending a;
     stop_event := stop_event a; turn_attempt_counter := turn_attempt_counter a; snapshots := snapshots a;
     notices := notices a |}.

Definition set_pending (l : list PendingUserSteering) (a : Agent) : Agent :=
  {| history_ledger := history_ledger a; messages := messages a; context_revision := context_revision a;
     pending_user_steering := l; accepting_user_steering := accepting_user_steering a;
     current_turn_id := current_turn_id a; image_turn_id := image_turn_id a;
     session_generation := session_generation a; agent_id := agent_id a; current_round := current_round a;
     round_interrupt_epoch := round_interrupt_epoch a; round_interrupt_pending := round_interrupt_pending a;
     stop_event := stop_event a; turn_attempt_counter := turn_attempt_counter a; snapshots := snapshots a;
     notices := notices a |}.

(** The epoch, whether it was reached, and the stop event. *)
Definition set_signals (epoch : Z) (waiting stop : bool) (a : Agent) : Agent :=
  {| history_ledger := history_ledger a; messages := messages a; context_revision := context_revision a;
     pending_user_steering := pending_user_steering a; accepting_user_steering := accepting_user_steering a;
     current_turn_id := current_turn_id a; image_turn_id := image_turn_id a;
     session_generation := session_generation a; agent_id := agent_id a; current_round := current_round a;
     round_interrupt_epoch := epoch; round_interrupt_pending := waiting;
     stop_event := stop; turn_attempt_counter := turn_attempt_counter a; snapshots := snapshots a;
     notices := notices a |}.

Definition set_turn (accepting : bool) (turn image : option pystr) (attempts : Z) (a : Agent) : Agent :=
  {| history_ledger := history_ledger a; messages := messages a; context_revision := context_revision a;
     pending_user_steering := pending_user_steering a; accepting_user_steering := accepting;
     current_turn_id := turn; image_turn_id := image;
     session_generation := session_generation a; agent_id := agent_id a; current_round := current_round a;
     round_interrupt_epoch := round_interrupt_epoch a; round_interrupt_pending := round_interrupt_pending a;
     stop_event := stop_event a; turn_attempt_counter := attempts; snapshots := snapshots a;
     notices := notices a |}.

(** The model's history with [l] added. *)
Definition extend_messages (l : list message) (a : Agent) : Agent :=
  {| history_ledger := history_ledger a; messages := messages a ++ l;
     context_revision := context_revision a + 1;
     pending_user_steering := pending_user_steering a; accepting_user_steering := accepting_user_steering a;
     current_turn_id := current_turn_id a; image_turn_id := image_turn_id a;
     session_generation := session_generation a; agent_id := agent_id a; current_round := current_round a;
     round_interrupt_epoch := round_interrupt_epoch a; round_interrupt_pending := round_interrupt_pending a;
     stop_event := stop_event a; turn_attempt_counter := turn_attempt_counter a; snapshots := snapshots a;
     notices := notices a |}.

Definition set_outputs (saved : Z) (l : list SteeringNotice) (a : Agent) : Agent :=
  {| history_ledger := history_ledger a; messages := messages a; context_revision := context_revision a;
     pending_user_steering := pending_user_steering a; accepting_user_steering := accepting_user_steering a;
     current_turn_id := current_turn_id a; image_turn_id := image_turn_id a;
     session_generation := session_generation a; agent_id := agent_id a; current_round := current_round a;
     round_interrupt_epoch := round_interrupt_epoch a; round_interrupt_pending := round_interrupt_pending a;
     stop_event := stop_event a; turn_attempt_counter := turn_attempt_counter a; snapshots := saved;
     notices := l |}.

(** A call of the ledger. *)
Definition st_ledger {A} (m : stm S A) : stm Agent A := fun a =>
  let '(r, l) := m (history_ledger a) in (r, set_ledger l a).

(** [persist_runtime_snapshot()], which may raise. *)
Definition persist_runtime_snapshot (r : result ()) : stm Agent () := fun a =>
  (r, set_outputs (snapshots a + 1) (notices a) a).

Definition attribution (agent turn round : option pystr) : Attribution :=
  {| at_agent_id := agent; at_parent_agent_id := None; at_job_id := None; at_turn_id := turn;
     at_api_round_id := round; at_role := None; at_artifact_refs := []; at_supersedes := [] |}.

(** [f"{turn_id}:{self.state.current_round}"]. *)
Definition round_id (turn : pystr) (a : Agent) : pystr := turn ++ $":" ++ z_str (current_round a).

(** ** Admission *)

Definition admitted_payload (p : PendingUserSteering) : pydict :=
  [ ($"steering_id", VStr (steering_id p)); ($"turn_id", VStr (p_turn_id p));
    ($"generation", VInt (p_generation p)); ($"content", content p);
    ($"submission_id", of_optional_str (p_submission_id p)) ].

(** [admit_user_steering]; [fresh] is the hexadecimal text of the identifier. *)
Definition admit_user_steering (input : SteeringInput) (fresh : pystr) (t : Tick)
    (persist : option (result ())) : stm Agent (option pystr) := fun a =>
  let c := input_content (or_empty (opt_or (image_turn_id a) (current_turn_id a))) input in
  if negb (truthy c) then (Ok None, a)
  else match accepting_user_steering a, current_turn_id a with
  | true, Some turn =>
    let p := {| steering_id := $"steer_" ++ fresh; content := c; p_generation := session_generation a;
                p_turn_id := turn; p_submission_id := input_submission input |} in
    (_ ← st_ledger (log_append $"steering_admitted" (admitted_payload p)
                      (attribution (agent_id a) (Some turn) (Some (round_id turn a))) t);
     _ ← st_modify (fun a => set_pending (pending_user_steering a ++ [p]) a);
     _ ← match persist with Some r => persist_runtime_snapshot r | None => mret () end;
     mret (Some (steering_id p))) a
  | _, _ => (Ok None, a)
  end.

(** ** Application *)

(** The message one direction becomes. *)
Definition steering_message (a : Agent) (p : PendingUserSteering) : message :=
  [($"role", VStr $"user"); ($"content", content p)]
  ++ match image_turn_id a, content p with
     | Some turn, VList _ => [(IMAGE_TURN_KEY, VStr turn)]
     | _, _ => []
     end.

Definition discarded_payload (id reason : pystr) : pydict :=
  [($"steering_id", VStr id); ($"reason", VStr reason)].

Definition attempt_value (attempt : option pystr) : pyval := of_optional_str attempt.

Definition drain_item (attempt : option pystr) (i : ItemIO) (p : PendingUserSteering)
    : stm Agent bool := fun a =>
  if negb (p_generation p =? session_generation a) then
    (_ ← st_ledger (log_append $"steering_discarded" (discarded_payload (steering_id p) $"stale_generation")
                      (attribution (agent_id a) (Some (p_turn_id p)) None) (t_event i));
     mret false) a
  else
    (_ ← st_ledger (log_append $"steering_applied"
                      [($"steering_id", VStr (steering_id p)); ($"attempt_id", attempt_value attempt)]
                      (attribution (agent_id a) (Some (p_turn_id p)) None) (t_event i));
     _ ← st_ledger (log_message (steering_message a p) $"user_steering" (agent_id a) (Some (p_turn_id p))
                      attempt
                      [($"steering_id", VStr (steering_id p)); ($"attempt_id", attempt_value attempt)]
                      (t_message i) (t_kind i) (w_batch i));
     mret true) a.

Fixpoint drain_loop (attempt : option pystr) (ios : PendingUserSteering -> ItemIO)
    (l : list PendingUserSteering) : stm Agent (list PendingUserSteering) :=
  match l with
  | [] => mret []
  | p :: l =>
    applied ← drain_item attempt (ios p) p;
    rest ← drain_loop attempt ios l;
    mret (if applied : bool then p :: rest else rest)
  end.

Definition notice (attempt : option pystr) (p : PendingUserSteering) : SteeringNotice :=
  {| n_steering_id := steering_id p; n_content := content p; n_attempt_id := attempt |}.

Definition drain_user_steering (attempt : option pystr) (ios : PendingUserSteering -> ItemIO)
    (persist : result ()) : stm Agent Z :=
  a ← st_get;
  _ ← st_modify (set_pending []);
  applied ← drain_loop attempt ios (pending_user_steering a);
  _ ← st_modify (fun b =>
        let b := match applied with [] => b | _ => extend_messages (map (steering_message b) applied) b end in
        set_signals (round_interrupt_epoch b) false (stop_event b) b);
  match applied with
  | [] => mret 0
  | _ =>
    _ ← persist_runtime_snapshot persist;
    _ ← st_modify (fun b => set_outputs (snapshots b) (notices b ++ map (notice attempt) applied) b);
    mret (len applied)
  end.

(** ** Discarding *)

Fixpoint discard_loop (reason : pystr) (ts : PendingUserSteering -> Tick) (l : list PendingUserSteering)
    : stm Agent () :=
  match l with
  | [] => mret ()
  | p :: l => fun a =>
    (_ ← st_ledger (log_append $"steering_discarded" (discarded_payload (steering_id p) reason)
                      (attribution (agent_id a) (Some (p_turn_id p)) None) (ts p));
     discard_loop reason ts l) a
  end.

Definition discard_pending_locked (reason : pystr) (ts : PendingUserSteering -> Tick) : stm Agent Z :=
  a ← st_get;
  _ ← st_modify (set_pending []);
  _ ← discard_loop reason ts (pending_user_steering a);
  mret (len (pending_user_steering a)).

Definition discard_pending_user_steering (reason : pystr) (ts : PendingUserSteering -> Tick)
    (persist : option (result ())) : stm Agent Z :=
  n ← discard_pending_locked reason ts;
  _ ← st_modify (fun a => set_signals (round_interrupt_epoch a) false (stop_event a) a);
  _ ← match persist with
      | Some r => if n =? 0 then mret () else persist_runtime_snapshot r
      | None => mret ()
      end;
  mret n.

(** ** Interrupts *)

(** [pending_user_steering_entries]. *)
Definition current_entries (a : Agent) : list PendingUserSteering :=
  filter (fun p => p_generation p = session_generation a) (pending_user_steering a).

Definition has_user_steering (a : Agent) : bool :=
  existsb (fun p => p_generation p =? session_generation a) (pending_user_steering a).

Definition intent (o : InterruptIntentOutcome) (ids : list pystr) (n epoch : Z) : InterruptIntentResult :=
  {| outcome := o; steering_ids := ids; discarded_count := n; r_epoch := epoch |}.

Definition request_interrupt_intent (steering_only : bool) (ts : PendingUserSteering -> Tick)
    : stm Agent InterruptIntentResult := fun a =>
  let epoch := round_interrupt_epoch a in
  if stop_event a then (Ok (intent ALREADY_STOPPING [] 0 epoch), a)
  else if round_interrupt_pending a then
    if steering_only then (Ok (intent ALREADY_PROMOTED [] 0 epoch), a)
    else
      (n ← discard_pending_locked $"turn_stop" ts;
       _ ← st_modify (fun a => set_signals (round_interrupt_epoch a) false true a);
       mret (intent STOP_REQUESTED [] n epoch)) a
  else match map steering_id (current_entries a) with
  | (_ :: _) as ids => (Ok (intent PROMOTED ids 0 (epoch + 1)), set_signals (epoch + 1) true false a)
  | [] =>
    if steering_only then (Ok (intent NOTHING_PENDING [] 0 epoch), a)
    else (Ok (intent STOP_REQUESTED [] 0 epoch), set_signals epoch false true a)
  end.

Definition request_stop (a : Agent) : Agent :=
  set_signals (round_interrupt_epoch a) (round_interrupt_pending a) true a.
Definition clear_stop_request (a : Agent) : Agent :=
  set_signals (round_interrupt_epoch a) (round_interrupt_pending a) false a.

(** [CancellationView.is_set]. *)
Definition cancelled (baseline : Z) (include_round_interrupt : bool) (a : Agent) : bool :=
  stop_event a || (include_round_interrupt && (baseline <? round_interrupt_epoch a)).

(** ** Turns *)

Definition next_request_attempt_id (round_num : Z) : stm Agent pystr := fun a =>
  let n := turn_attempt_counter a + 1 in
  let turn := match current_turn_id a with Some ((_ :: _) as t) => t | _ => $"turn" end in
  (Ok (turn ++ $":" ++ z_str round_num ++ $":" ++ z_str n),
   set_turn (accepting_user_steering a) (current_turn_id a) (image_turn_id a) n a).

(** The start of a turn, [fresh] its identifier. *)
Definition begin_turn (fresh : pystr) (goal_continuation clear_stop : bool) (a : Agent) : Agent :=
  let a := if clear_stop then clear_stop_request a else a in
  let image := if goal_continuation then image_turn_id a else Some fresh in
  let a := set_turn true (Some fresh) image 0 a in
  set_signals (round_interrupt_epoch a) false (stop_event a) a.

(** After the loop returned: whether it runs again for directions that came
    too late for it. *)
Definition settle_turn (a : Agent) : bool * Agent :=
  if has_user_steering a && negb (stop_event a) then (true, a)
  else (false, set_turn false (current_turn_id a) (image_turn_id a) (turn_attempt_counter a) a).

(** ** Recovery *)

(** [event.payload.get("steering_id")], a text that is not empty. *)
Definition steering_of (e : HistoryEvent) : option pystr :=
  match dget_none (payload e) $"steering_id" with VStr ((_ :: _) as s) => Some s | _ => None end.

Definition is_admission (e : HistoryEvent) : bool := bool_decide (kind e = $"steering_admitted").
Definition is_terminal (e : HistoryEvent) : bool :=
  bool_decide (kind e = $"steering_discarded") || bool_decide (kind e = $"message_committed").

Definition recover_event (acc : list (pystr * HistoryEvent) * gset pystr) (e : HistoryEvent)
    : list (pystr * HistoryEvent) * gset pystr :=
  match steering_of e with
  | None => acc
  | Some id =>
    if is_admission e then (assoc_set acc.1 id e, acc.2)
    else if is_terminal e then (acc.1, {[id]} ∪ acc.2)
    else acc
  end.

Definition open_admissions (events : list HistoryEvent) : list (pystr * HistoryEvent) :=
  let '(admitted, terminal) := foldl recover_event ([], ∅) events in
  filter (fun p : pystr * HistoryEvent => p.1 ∉ terminal) admitted.

Fixpoint close_admissions (ts : pystr -> Tick) (l : list (pystr * HistoryEvent)) : stm Agent () :=
  match l with
  | [] => mret ()
  | (id, e) :: l => fun a =>
    (_ ← st_ledger (log_append $"steering_discarded" (discarded_payload id $"session_recovery")
                      (attribution (opt_or (Ledger.agent_id e) (agent_id a)) (Ledger.turn_id e) None) (ts id));
     close_admissions ts l) a
  end.

(** [events] is the argument, or the log itself. *)
Definition discard_recovered_steering (events : option (list HistoryEvent)) (ts : pystr -> Tick)
    : stm Agent Z := fun a =>
  let l := open_admissions (default (log_events (history_ledger a)) events) in
  (_ ← close_admissions ts l; mret (len l)) a.
End Steering.

(** ** Histories of operations *)

Inductive SteeringOp :=
| Admit (input : SteeringInput) (fresh : pystr) (t : Tick) (persist : option (result ()))
| Drain (attempt : option pystr) (ios : PendingUserSteering -> ItemIO) (persist : result ())
| Discard (reason : pystr) (ts : PendingUserSteering -> Tick) (persist : option (result ()))
| Interrupt (steering_only : bool) (ts : PendingUserSteering -> Tick)
| NextAttempt (round_num : Z)
| Stop
| ClearStop
| Begin (fresh : pystr) (goal_continuation clear_stop : bool)
| Settle
| Advance (generation : Z)
| OtherEvent (k : pystr) (p : pydict) (at_ : Attribution) (t : Tick).

Section Histories.
Context {S : Type} `{MessageLog S}.

Definition advance_generation (n : Z) (a : Agent (S := S)) : Agent :=
  {| history_ledger := history_ledger a; messages := messages a; context_revision := context_revision a;
     pending_user_steering := pending_user_steering a; accepting_user_steering := accepting_user_steering a;
     current_turn_id := current_turn_id a; image_turn_id := image_turn_id a;
     session_generation := n; agent_id := agent_id a; current_round := current_round a;
     round_interrupt_epoch := round_interrupt_epoch a; round_interrupt_pending := round_interrupt_pending a;
     stop_event := stop_event a; turn_attempt_counter := turn_attempt_counter a; snapshots := snapshots a;
     notices := notices a |}.

(** The state an operation leaves, whether it returns or raises. *)
Definition run_op (op : SteeringOp) (a : Agent) : Agent :=
  match op with
  | Admit i fresh t p => (admit_user_steering i fresh t p a).2
  | Drain attempt ios p => (drain_user_steering attempt ios p a).2
  | Discard reason ts p => (discard_pending_user_steering reason ts p a).2
  | Interrupt only ts => (request_interrupt_intent only ts a).2
  | NextAttempt n => (next_request_attempt_id n a).2
  | Stop => request_stop a
  | ClearStop => clear_stop_request a
  | Begin fresh goal clear => begin_turn fresh goal clear a
  | Settle => (settle_turn a).2
  | Advance n => advance_generation n a
  | OtherEvent k p at_ t => (st_ledger (log_append k p at_ t) a).2
  end.

Definition run_ops (ops : list SteeringOp) (a : Agent) : Agent := foldl (fun a op => run_op op a) a ops.

(** Other events carry no steering identifier. *)
Definition op_ok (op : SteeringOp) : Prop :=
  match op with OtherEvent k p _ _ => dget p $"steering_id" = None | _ => True end.

(** The identifiers admissions draw. *)
Definition fresh_ids (ops : list SteeringOp) : list pystr :=
  omap (fun op => match op with Admit _ fresh _ _ => Some ($"steer_" ++ fresh) | _ => None end) ops.

(** Every write of the operation succeeds. *)
Definition op_written (op : SteeringOp) : Prop :=
  match op with
  | Admit _ _ t _ => io t = Written
  | Drain _ ios _ => forall p, item_written (ios p)
  | Discard _ ts _ | Interrupt _ ts => forall p, io (ts p) = Written
  | _ => True
  end.
End Histories.

(** ** What the log says of the directions *)

Definition admission_of (e : HistoryEvent) : option (pystr * pyval) :=
  if is_admission e then id ← steering_of e; Some (id, dget_none (payload e) $"content") else None.

(** The directions admitted, with their content. *)
Definition admissions : list HistoryEvent -> list (pystr * pyval) := omap admission_of.

Definition commit_of (e : HistoryEvent) : option (pystr * pyval) :=
  if bool_decide (kind e = $"message_committed") then
    id ← steering_of e;
    match dget_none (payload e) $"message" with
    | VDict m => Some (id, dget_none m $"content")
    | _ => None
    end
  else None.

(** The directions made part of the model's history, with what it reads. *)
Definition commits : list HistoryEvent -> list (pystr * pyval) := omap commit_of.

(** The directions applied or discarded. *)
Definition closed : list HistoryEvent -> list pystr :=
  omap (fun e => if is_terminal e then steering_of e else None).

Definition entry (p : PendingUserSteering) : pystr * pyval := (steering_id p, content p).

(** An event that says nothing of directions. *)
Definition silent (e : HistoryEvent) : Prop := steering_of e = None.

Lemma silent_reads l :
  Forall silent l -> admissions l = [] /\ commits l = [] /\ closed l = [].
Proof.
  induction 1 as [|e l He Hl (Ha & Hc & Ht)]; [done|].
  assert (admission_of e = None) by (unfold admission_of; rewrite He; by case_match).
  assert (commit_of e = None) by (unfold commit_of; rewrite He; by case_match).
  unfold admissions, commits, closed in *. cbn [omap list_omap]. rewrite He.
  replace (admission_of e) with (@None (pystr * pyval)). replace (commit_of e) with (@None (pystr * pyval)).
  by destruct (is_terminal e).
Qed.

Lemma reads_app k l :
  admissions (k ++ l) = admissions k ++ admissions l /\ commits (k ++ l) = commits k ++ commits l /\
  closed (k ++ l) = closed k ++ closed l.
Proof. unfold admissions, commits, closed. by rewrite !omap_app. Qed.

Section Log.
Context {S : Type} `{MessageLogLaws S}.

Definition log_of (a : Agent (S := S)) : list HistoryEvent := log_events (history_ledger a).

(** A ledger call that adds the events [l]. *)
Lemma append_reads k p at_ t (a : Agent (S := S)) :
  exists e, kind e = k /\ payload e = p /\
    (st_ledger (log_append k p at_ t) a).2 = set_ledger (log_append k p at_ t (history_ledger a)).2 a /\
    log_of (st_ledger (log_append k p at_ t) a).2 = log_of a ++ [e] /\
    (io t = Written -> (st_ledger (log_append k p at_ t) a).1 = Ok e).
Proof.
  destruct (log_append_spec k p at_ t (history_ledger a)) as (e & Hk & Hp & Hl & Hw & _).
  exists e. unfold st_ledger, log_of. destruct (log_append k p at_ t (history_ledger a)) as [r s]. cbn in *.
  by split_and!.
Qed.

Lemma discarded_reads id reason e :
  kind e = $"steering_discarded" -> payload e = discarded_payload id reason -> id <> [] ->
  admissions [e] = [] /\ commits [e] = [] /\ closed [e] = [id].
Proof.
  intros Hk Hp Hid. unfold admissions, commits, closed, admission_of, commit_of, is_admission, is_terminal, steering_of.
  cbn [omap list_omap]. rewrite Hk, Hp. by destruct id.
Qed.

Lemma applied_reads id attempt e :
  kind e = $"steering_applied" ->
  payload e = [($"steering_id", VStr id); ($"attempt_id", attempt_value attempt)] ->
  admissions [e] = [] /\ commits [e] = [] /\ closed [e] = [].
Proof.
  intros Hk Hp. unfold admissions, commits, closed, admission_of, commit_of, is_admission, is_terminal.
  cbn [omap list_omap]. rewrite Hk. done.
Qed.

Lemma admitted_reads p e :
  kind e = $"steering_admitted" -> payload e = admitted_payload p -> steering_id p <> [] ->
  admissions [e] = [entry p] /\ commits [e] = [] /\ closed [e] = [].
Proof.
  intros Hk Hp Hid. unfold admissions, commits, closed, admission_of, commit_of, is_admission, is_terminal, steering_of.
  cbn [omap list_omap]. rewrite Hk, Hp. unfold entry. cbn. by destruct (steering_id p).
Qed.

Lemma committed_reads (a : Agent (S := S)) p attempt c rest :
  message_recorded (steering_message a p) $"user_steering"
    [($"steering_id", VStr (steering_id p)); ($"attempt_id", attempt_value attempt)] c rest ->
  steering_id p <> [] ->
  admissions (c :: rest) = [] /\ commits (c :: rest) = [entry p] /\ closed (c :: rest) = [steering_id p].
Proof.
  intros (Hk & Hp & Hrest) Hid.
  assert (Hs : Forall silent rest).
  { eapply Forall_impl; [exact Hrest|]. intros e [_ [ids He]]. unfold silent, steering_of. by rewrite He. }
  destruct (silent_reads rest Hs) as (Ha & Hc & Hx).
  destruct (reads_app [c] rest) as (Ha' & Hc' & Hx'). cbn [app] in Ha', Hc', Hx'.
  rewrite Ha', Hc', Hx', Ha, Hc, Hx, !app_nil_r.
  assert (Hst : steering_of c = Some (steering_id p)).
  { unfold steering_of. rewrite Hp. unfold message_payload, dict_update. cbn. by destruct (steering_id p). }
  assert (Hm : dget_none (payload c) $"message" = VDict (canonical_message (steering_message a p))).
  { rewrite Hp. unfold message_payload, dict_update, dget_none. cbn. done. }
  unfold admissions, commits, closed, admission_of, commit_of, is_admission, is_terminal.
  cbn [omap list_omap]. rewrite Hk, Hst, Hm. cbn. unfold canonical_message.
  by split_and!.
Qed.

Lemma steering_message_calls (a : Agent (S := S)) p :
  is_ok (message_tool_call_ids (steering_message a p)) = true.
Proof. unfold steering_message. by destruct (image_turn_id a), (content p). Qed.

(** ** One pass over the queue *)

(** What one item adds to the log: nothing, or its closing (with a commit when
    it was applied). *)
Lemma drain_item_spec attempt i p (a : Agent (S := S)) :
  steering_id p <> [] ->
  let '(r, b) := drain_item attempt i p a in
  b = set_ledger (history_ledger b) a /\
  exists new, log_of b = log_of a ++ new /\ admissions new = [] /\
    (closed new = [] /\ commits new = [] /\ is_ok r = false \/
     closed new = [steering_id p] /\ commits new = (if p_generation p =? session_generation a then [entry p] else [])) /\
    (forall x, r = Ok x -> x = (p_generation p =? session_generation a) /\ closed new = [steering_id p]) /\
    (item_written i -> is_ok r = true).
Proof.
  intros Hid. unfold drain_item. destruct (p_generation p =? session_generation a); cbn [negb].
  - set (pl := [($"steering_id", VStr (steering_id p)); ($"attempt_id", attempt_value attempt)]). set (at1 := attribution _ _ _).
    destruct (append_reads $"steering_applied" pl at1 (t_event i) a) as (e & Hk & Hp & Hb & Hl & Hw).
    destruct (applied_reads _ attempt e Hk Hp) as (A1 & A2 & A3).
    unfold mbind, stm_bind. destruct (st_ledger (log_append _ pl at1 (t_event i)) a) as [r1 b1]. cbn [fst snd] in *.
    destruct r1 as [e1|x].
    + unfold st_ledger. set (m := steering_message a p).
      pose proof (log_message_spec m $"user_steering" (agent_id a) (Some (p_turn_id p)) attempt pl
        (t_message i) (t_kind i) (w_batch i) (history_ledger b1)) as Hm.
      destruct (log_message m _ _ _ _ _ _ _ _ (history_ledger b1)) as [r2 s2].
      destruct Hm as (c & rest & Hrec & Hl2 & Hok & _).
      destruct (committed_reads a p attempt c rest Hrec Hid) as (B1 & B2 & B3).
      assert (Hlog : log_of (set_ledger s2 b1) = log_of a ++ e :: c :: rest).
      { unfold log_of at 1. cbn [history_ledger set_ledger]. rewrite Hl2. fold (log_of b1). rewrite Hl.
        by rewrite <- app_assoc. }
      destruct (reads_app [e] (c :: rest)) as (C1 & C2 & C3). cbn [app] in C1, C2, C3.
      rewrite A1, B1 in C1. rewrite A2, B2 in C2. rewrite A3, B3 in C3.
      assert (Hset : set_ledger s2 b1 = set_ledger (history_ledger (set_ledger s2 b1)) a) by (rewrite Hb; done).
      assert (Hwr : item_written i -> r2 = Ok c).
      { intros (? & ? & ? & ?). apply Hok; [done..|apply steering_message_calls]. }
      destruct r2 as [c2|x]; cbn; (split; [exact Hset|]); exists (e :: c :: rest);
        (split_and!; [exact Hlog|exact C1|right; done| |]); try done.
      * intros ? [= <-]. done.
      * intros Hi. by specialize (Hwr Hi).
    + split; [by rewrite Hb|]. exists [e]. split_and!; [done..|left; done|done|].
      intros (Hi & _). by specialize (Hw Hi).
  - set (pl := discarded_payload _ _). set (at1 := attribution _ _ _).
    destruct (append_reads $"steering_discarded" pl at1 (t_event i) a) as (e & Hk & Hp & Hb & Hl & Hw).
    destruct (discarded_reads _ _ e Hk Hp Hid) as (A1 & A2 & A3).
    unfold mbind, stm_bind. destruct (st_ledger (log_append _ pl at1 (t_event i)) a) as [r1 b1]. cbn [fst snd] in *.
    destruct r1 as [e1|x]; cbn; (split; [by rewrite Hb|]); exists [e]; (split_and!; [done..|right; done| |]); try done.
    + by intros ? [= <-].
    + intros (Hi & _). by specialize (Hw Hi).
Qed.
End Log.

Section Passes.
Context {S : Type} `{MessageLogLaws S}.
Implicit Types a b : Agent (S := S).

Definition ids (l : list PendingUserSteering) : list pystr := map steering_id l.
Definition named (l : list PendingUserSteering) : Prop := Forall (fun p => steering_id p <> []) l.

(** A pass over the queue [l] closes some of its items in order, and all of
    them when it returns. *)
Definition passed_over (a b : Agent (S := S)) (l applied : list PendingUserSteering) (ok : bool) : Prop :=
  b = set_ledger (history_ledger b) a /\
  exists new, log_of b = log_of a ++ new /\ admissions new = [] /\
    closed new `sublist_of` ids l /\ commits new `sublist_of` map entry l /\
    (ok = true -> closed new = ids l /\ commits new = map entry applied).

Lemma drain_loop_spec attempt ios l a :
  named l ->
  let '(r, b) := drain_loop attempt ios l a in
  (forall applied, r = Ok applied -> applied = filter (fun p => p_generation p = session_generation a) l) /\
  passed_over a b l (filter (fun p => p_generation p = session_generation a) l) (is_ok r) /\
  ((forall p, item_written (ios p)) -> is_ok r = true).
Proof.
  intros Hl. revert a. induction Hl as [|p l Hp Hl IH]; intros a; cbn [drain_loop].
  { split; [by intros ? [= <-]|]. split; [|done]. split; [by destruct a|]. exists []. by rewrite app_nil_r. }
  pose proof (drain_item_spec attempt (ios p) p a Hp) as Hi. unfold mbind, stm_bind.
  destruct (drain_item attempt (ios p) p a) as [r1 b1]. destruct Hi as (Hb1 & n1 & L1 & A1 & C1 & R1 & W1).
  assert (Hc1 : closed n1 `sublist_of` [steering_id p] /\ commits n1 `sublist_of` [entry p]).
  { destruct C1 as [(-> & -> & _)|(-> & ->)]; split; try apply sublist_nil_l; try done.
    case_match; [done|apply sublist_nil_l]. }
  destruct r1 as [x|e].
  - destruct (R1 x eq_refl) as [-> Hcl]. specialize (IH b1).
    destruct C1 as [(? & ? & ?)|(_ & Hco)]; [done|].
    assert (Hg : session_generation b1 = session_generation a) by (by rewrite Hb1).
    destruct (drain_loop attempt ios l b1) as [r2 b2]. rewrite Hg in IH. destruct IH as (R2 & (Hb2 & n2 & L2 & A2 & C2 & D2 & O2) & W2).
    assert (Hpass : passed_over a b2 (p :: l)
      (filter (fun p => p_generation p = session_generation a) (p :: l)) (is_ok r2)).
    { split; [by rewrite Hb2, Hb1|]. exists (n1 ++ n2). destruct (reads_app n1 n2) as (E1 & E2 & E3).
      rewrite E1, E2, E3, A1, A2, Hcl, Hco, L2, L1, <- app_assoc. split_and!; [done..| | |].
      - by apply sublist_skip.
      - destruct (_ =? _); cbn [app]; [by apply sublist_skip|by apply sublist_cons].
      - intros Hok. destruct (O2 Hok) as [-> ->]. rewrite filter_cons.
        destruct (p_generation p =? session_generation a) eqn:E; zbool;
          [rewrite decide_True by done|rewrite decide_False by done]; done. }
    destruct r2 as [rest|e]; unfold mret, stm_ret; (split; [|split; [exact Hpass|intros Hw; by apply W2]]); [|done].
    intros applied [= <-]. rewrite (R2 rest eq_refl), filter_cons.
    destruct (p_generation p =? session_generation a) eqn:E; zbool;
      [rewrite decide_True by done|rewrite decide_False by done]; done.
  - split; [done|]. split; [|intros Hw; by specialize (W1 (Hw p))]. split; [done|]. exists n1.
    split_and!; try done; etrans; try apply Hc1; apply sublist_skip, sublist_nil_l.
Qed.

Lemma discard_loop_spec reason ts l a :
  named l ->
  let '(r, b) := discard_loop reason ts l a in
  passed_over a b l [] (is_ok r) /\ ((forall p, io (ts p) = Written) -> is_ok r = true).
Proof.
  intros Hl. revert a. induction Hl as [|p l Hp Hl IH]; intros a; cbn [discard_loop].
  { split; [|done]. split; [by destruct a|]. exists []. by rewrite app_nil_r. }
  unfold mbind, stm_bind.
  destruct (append_reads $"steering_discarded" (discarded_payload (steering_id p) reason)
    (attribution (agent_id a) (Some (p_turn_id p)) None) (ts p) a) as (e & Hk & Hpl & Hb1 & L1 & W1).
  destruct (discarded_reads _ _ e Hk Hpl Hp) as (A1 & C1 & D1).
  destruct (st_ledger _ a) as [r1 b1]. cbn [fst snd] in *. destruct r1 as [x|x].
  - specialize (IH b1). destruct (discard_loop reason ts l b1) as [r2 b2].
    destruct IH as ((Hb2 & n2 & L2 & A2 & C2 & E2 & O2) & W2). split; [|done].
    split; [by rewrite Hb2, Hb1|]. exists (e :: n2). destruct (reads_app [e] n2) as (F1 & F2 & F3). cbn [app] in *.
    rewrite F1, F2, F3, A1, A2, C1, D1, L2, L1, <- app_assoc. split_and!; [done..| | |].
    + by apply sublist_skip.
    + by apply sublist_cons.
    + intros Hok. by destruct (O2 Hok) as [-> ->].
  - split; [|intros Hw; by specialize (W1 (Hw p))]. split; [by rewrite Hb1|]. exists [e].
    rewrite A1, C1, D1. split_and!; [done..| |apply sublist_nil_l|done]. apply sublist_skip, sublist_nil_l.
Qed.
End Passes.

(** ** The accounting of directions *)

Section Accounting.
Context {S : Type} `{MessageLogLaws S}.
Implicit Types a b : Agent (S := S).

(** Every direction that was applied, discarded or still waits was admitted;
    nothing is counted twice and the order of admission is kept. *)
Record accounted (a : Agent (S := S)) : Prop := {
  ac_unique : NoDup (admissions (log_of a)).*1;
  ac_named : named (pending_user_steering a);
  ac_closed : closed (log_of a) ++ ids (pending_user_steering a) `sublist_of` (admissions (log_of a)).*1;
  ac_commits : commits (log_of a) ++ map entry (pending_user_steering a) `sublist_of` admissions (log_of a);
}.

(** Nothing is lost: every admitted direction was closed or waits. *)
Definition complete (a : Agent (S := S)) : Prop :=
  closed (log_of a) ++ ids (pending_user_steering a) = (admissions (log_of a)).*1.

(** Fields outside the log and the queue do not matter. *)
Lemma accounted_same a b :
  log_of b = log_of a -> pending_user_steering b = pending_user_steering a -> accounted a -> accounted b.
Proof. intros Hl Hp [? ? ? ?]. by split; rewrite ?Hl, ?Hp. Qed.

Lemma complete_same a b :
  log_of b = log_of a -> pending_user_steering b = pending_user_steering a -> complete a -> complete b.
Proof. unfold complete. by intros -> ->. Qed.

(** A pass over the whole queue keeps the accounts, and closes everything when
    it returns. *)
Lemma passed_accounted a b applied ok :
  passed_over (set_pending [] a) b (pending_user_steering a) applied ok -> accounted a ->
  accounted b /\ pending_user_steering b = [] /\ (ok = true -> complete a -> complete b).
Proof.
  intros (Hb & new & Hl & Ha & Hc & Hd & Ho) [Hu Hn Hcl Hco].
  assert (Hp : pending_user_steering b = []) by (by rewrite Hb).
  change (log_of (set_pending [] a)) with (log_of a) in Hl.
  destruct (reads_app (log_of a) new) as (E1 & E2 & E3).
  split; [|split; [done|]].
  - split; rewrite ?Hp, ?Hl, ?E1, ?E2, ?E3, ?Ha, ?app_nil_r; cbn [ids map]; rewrite ?app_nil_r; [done|constructor| |].
    + etrans; [|exact Hcl]. by apply sublist_app.
    + etrans; [|exact Hco]. by apply sublist_app.
  - intros Hok Hcomp. destruct (Ho Hok) as [Hnew _]. unfold complete in *.
    rewrite Hp, Hl, E1, E3, Ha, Hnew, app_nil_r. cbn [ids map]. by rewrite app_nil_r.
Qed.
End Accounting.

Section Theorems.
Context {S : Type} `{MessageLogLaws S}.
Implicit Types a b : Agent (S := S).

(** The model reads exactly what was committed, after [base]. *)
Definition visible (base : list message) (a : Agent (S := S)) : Prop :=
  exists new, messages a = base ++ new /\
    map (fun m => dget_none m $"content") new = (commits (log_of a)).*2.

(** What an operation keeps; [names] are the identifiers it may admit. *)
Record kept (names : list pystr) (written : Prop) (a b : Agent (S := S)) : Prop := {
  k_accounted : accounted a -> accounted b;
  k_names : forall id, id ∈ (admissions (log_of b)).*1 -> id ∈ (admissions (log_of a)).*1 \/ id ∈ names;
  k_complete : accounted a -> written -> complete a -> complete b;
  k_visible : accounted a -> written -> forall base, visible base a -> visible base b;
}.

Lemma kept_same names written a b :
  log_of b = log_of a -> pending_user_steering b = pending_user_steering a -> messages b = messages a ->
  kept names written a b.
Proof.
  intros Hl Hp Hm. split.
  - by apply accounted_same.
  - rewrite Hl. by left.
  - intros _ _. by apply complete_same.
  - intros _ _ base. unfold visible. by rewrite Hl, Hm.
Qed.

Lemma kept_trans n1 n2 w1 w2 a b c :
  kept n1 w1 a b -> kept n2 w2 b c -> kept (n1 ++ n2) (w1 /\ w2) a c.
Proof.
  intros [A1 N1 C1 V1] [A2 N2 C2 V2]. split; [auto| |intros ? []; auto|intros ? [] base ?; auto].
  intros id [Hid|Hid]%N2; [|right; by apply elem_of_app; right].
  destruct (N1 id Hid) as [?|?]; [by left|right; by apply elem_of_app; left].
Qed.

Lemma kept_weaken n1 n2 (w1 w2 : Prop) a b : n1 ⊆ n2 -> (w2 -> w1) -> kept n1 w1 a b -> kept n2 w2 a b.
Proof. intros Hn Hw [A1 N1 C1 V1]. split; auto. intros id Hid. destruct (N1 id Hid); auto. Qed.

Lemma kept_after names written a b c :
  kept names written a b -> log_of c = log_of b -> pending_user_steering c = pending_user_steering b ->
  messages c = messages b -> kept names written a c.
Proof.
  intros Hk Hl Hp Hm. eapply (kept_weaken (names ++ []) _ (written /\ True)); [by rewrite app_nil_r|by split|].
  eapply kept_trans; [exact Hk|by apply kept_same].
Qed.

(** Admission with a new identifier. *)
Lemma admit_kept input fresh t persist a :
  (accounted a -> $"steer_" ++ fresh ∉ (admissions (log_of a)).*1) ->
  kept [$"steer_" ++ fresh] (io t = Written) a (admit_user_steering input fresh t persist a).2.
Proof.
  intros Hnew. unfold admit_user_steering. destruct (negb (truthy _)); [by apply kept_same|].
  destruct (accepting_user_steering a), (current_turn_id a) as [turn|] eqn:Et; try by apply kept_same.
  set (p := {| steering_id := _ |}). unfold mbind, stm_bind.
  destruct (append_reads $"steering_admitted" (admitted_payload p)
    (attribution (agent_id a) (Some turn) (Some (round_id turn a))) t a) as (e & Hk & Hpl & Hb & Hl & Hw).
  destruct (admitted_reads p e Hk Hpl ltac:(done)) as (A1 & C1 & D1).
  destruct (st_ledger _ a) as [r1 b1]. cbn [fst snd] in *.
  destruct (reads_app (log_of a) [e]) as (E1 & E2 & E3). rewrite A1, C1, D1, ?app_nil_r in *.
  assert (Hids : (admissions (log_of a) ++ [entry p]).*1 = (admissions (log_of a)).*1 ++ [steering_id p])
    by (by rewrite fmap_app).
  assert (Hpend : pending_user_steering b1 = pending_user_steering a) by (by rewrite Hb).
  assert (Hmsg : messages b1 = messages a) by (by rewrite Hb).
  assert (Hnd : accounted a -> NoDup ((admissions (log_of a)).*1 ++ [steering_id p])).
  { intros Ha. apply NoDup_app. split_and!; [apply Ha| |apply NoDup_singleton].
    intros id Hid ->%list_elem_of_singleton. by apply (Hnew Ha). }
  destruct r1 as [x|x].
  - assert (Hkept : kept [steering_id p] (io t = Written) a (set_pending (pending_user_steering b1 ++ [p]) b1)).
    { split.
      - intros Ha. pose proof (Hnd Ha) as Hnd'. destruct Ha as [Hu Hn Hcl Hco].
        split; change (log_of (set_pending _ b1)) with (log_of b1); cbn [pending_user_steering set_pending];
          rewrite ?Hl, ?E1, ?E2, ?E3, ?Hids, ?Hpend.
        + done.
        + apply Forall_app. split; [done|]. constructor; [done|constructor].
        + unfold ids. rewrite map_app, app_assoc. by apply sublist_app.
        + rewrite map_app, app_assoc. by apply sublist_app.
      - change (log_of (set_pending _ b1)) with (log_of b1). intros id.
        rewrite Hl, E1, Hids, elem_of_app. done.
      - intros _ _ Hcomp. unfold complete in *. change (log_of (set_pending _ b1)) with (log_of b1).
        cbn [pending_user_steering set_pending]. rewrite Hl, E1, E3, Hids, Hpend, <- Hcomp. unfold ids.
        rewrite map_app. by rewrite app_assoc.
      - intros _ _ base (new & Hm & Hc). exists new. change (log_of (set_pending _ b1)) with (log_of b1).
        cbn [messages set_pending]. by rewrite Hmsg, Hl, E2. }
    unfold st_modify. destruct persist as [r|]; cbn; [destruct r; cbn|]; by eapply kept_after; [exact Hkept|..].
  - cbn [snd]. split.
    + intros Ha. pose proof (Hnd Ha) as Hnd'. destruct Ha as [Hu Hn Hcl Hco].
      split; rewrite ?Hl, ?E1, ?E2, ?E3, ?Hids, ?Hpend; [done..| |].
      * etrans; [exact Hcl|]. by apply sublist_inserts_r.
      * etrans; [exact Hco|]. by apply sublist_inserts_r.
    + intros id. rewrite Hl, E1, Hids, elem_of_app. done.
    + intros _ Hio. by specialize (Hw Hio).
    + intros _ Hio. by specialize (Hw Hio).
Qed.

(** A pass over the queue that shows the model the contents of [applied]. *)
Lemma pass_kept a b c applied new ok :
  passed_over (set_pending [] a) b (pending_user_steering a) applied ok ->
  (ok = true -> messages c = messages a ++ new /\ map (fun m => dget_none m $"content") new = map content applied) ->
  log_of c = log_of b -> pending_user_steering c = pending_user_steering b ->
  kept [] (ok = true) a c.
Proof.
  intros Hpass Hm Hl Hp. split.
  - intros Ha. destruct (passed_accounted _ _ _ _ Hpass Ha) as (Hb & _). by eapply accounted_same.
  - intros id. rewrite Hl. (* the pass admits nothing *)
    destruct Hpass as (_ & ev & -> & Ha & _).
    change (log_of (set_pending [] a)) with (log_of a). destruct (reads_app (log_of a) ev) as (-> & _).
    rewrite Ha, app_nil_r. by left.
  - intros Ha Hok Hc. destruct (passed_accounted _ _ _ _ Hpass Ha) as (_ & _ & Hb).
    eapply complete_same; [done..|]. by apply Hb.
  - intros Ha Hok base (old & Ho & Hc). destruct (Hm Hok) as [Hmsg Hnew]. exists (old ++ new).
    destruct Hpass as (_ & ev & Hlog & _ & _ & _ & Hcl). destruct (Hcl Hok) as [_ Hco].
    rewrite Hmsg, Ho, app_assoc, Hl, Hlog. split; [done|].
    change (log_of (set_pending [] a)) with (log_of a).
    destruct (reads_app (log_of a) ev) as (_ & -> & _). rewrite map_app, fmap_app, Hc, Hnew, Hco. f_equal.
    clear. by induction applied as [|p l IH]; [|cbn; rewrite IH].
Qed.

Lemma drain_kept attempt ios persist a :
  named (pending_user_steering a) ->
  kept [] (forall p, item_written (ios p)) a (drain_user_steering attempt ios persist a).2.
Proof.
  intros Hn. unfold drain_user_steering, mbind, stm_bind, st_get, st_modify.
  pose proof (drain_loop_spec attempt ios (pending_user_steering a) (set_pending [] a) Hn) as Hp.
  cbn [session_generation set_pending] in Hp.
  destruct (drain_loop attempt ios (pending_user_steering a) (set_pending [] a)) as [r b].
  destruct Hp as (Happ & Hpass & Hw). apply (kept_weaken [] _ (is_ok r = true)); [done|exact Hw|].
  destruct r as [applied|x]; cbn [is_ok] in *.
  - rewrite <- (Happ applied eq_refl) in Hpass. assert (Hm : messages b = messages a) by (by destruct Hpass as [-> _]).
    destruct applied as [|p l].
    + cbn. eapply (pass_kept a b _ [] []); [exact Hpass|by intros _; cbn; rewrite Hm, app_nil_r|done..].
    + assert (Hc : forall c, messages c = messages b ++ map (steering_message b) (p :: l) -> log_of c = log_of b ->
        pending_user_steering c = pending_user_steering b -> kept [] (true = true) a c).
      { intros c Hmc Hl Hpd. eapply (pass_kept a b c (p :: l)); [exact Hpass| |done..].
        intros _. split; [by rewrite Hmc, Hm|]. rewrite map_map. done. }
      by destruct persist; apply Hc.
  - eapply (pass_kept a b _ _ []); [exact Hpass|done..].
Qed.

Lemma discard_locked_spec reason ts a :
  named (pending_user_steering a) ->
  let '(r, b) := discard_pending_locked reason ts a in
  passed_over (set_pending [] a) b (pending_user_steering a) [] (is_ok r) /\
  ((forall p, io (ts p) = Written) -> is_ok r = true) /\
  (forall n, r = Ok n -> n = len (pending_user_steering a)).
Proof.
  intros Hn. unfold discard_pending_locked, mbind, stm_bind, st_get, st_modify.
  pose proof (discard_loop_spec reason ts (pending_user_steering a) (set_pending [] a) Hn) as Hl.
  destruct (discard_loop reason ts (pending_user_steering a) (set_pending [] a)) as [[u|x] b];
    destruct Hl as [Hp Hw]; cbn in *.
  - split_and!; [done..|by intros ? [= <-]].
  - done.
Qed.

Lemma discard_kept reason ts persist a :
  named (pending_user_steering a) ->
  kept [] (forall p, io (ts p) = Written) a (discard_pending_user_steering reason ts persist a).2.
Proof.
  intros Hn. unfold discard_pending_user_steering, mbind, stm_bind, st_modify.
  pose proof (discard_locked_spec reason ts a Hn) as Hd.
  destruct (discard_pending_locked reason ts a) as [r b]. destruct Hd as (Hpass & Hw & _).
  apply (kept_weaken [] _ (is_ok r = true)); [done|exact Hw|].
  assert (Hm : messages b = messages a) by (by destruct Hpass as [-> _]).
  assert (Hc : forall c, messages c = messages b -> log_of c = log_of b ->
    pending_user_steering c = pending_user_steering b -> kept [] (is_ok r = true) a c).
  { intros c Hmc Hl Hpd. eapply (pass_kept a b c [] []); [exact Hpass| |done..].
    intros _. by rewrite Hmc, Hm, app_nil_r. }
  destruct r as [n|x]; [|by apply Hc]. destruct persist as [[u|x]|]; cbn; try destruct (n =? 0); by apply Hc.
Qed.

Lemma interrupt_kept only ts a :
  named (pending_user_steering a) ->
  kept [] (forall p, io (ts p) = Written) a (request_interrupt_intent only ts a).2.
Proof.
  intros Hn. unfold request_interrupt_intent. destruct (stop_event a); [by apply kept_same|].
  destruct (round_interrupt_pending a).
  - destruct only; [by apply kept_same|]. unfold mbind, stm_bind, st_modify.
    pose proof (discard_locked_spec $"turn_stop" ts a Hn) as Hd.
    destruct (discard_pending_locked $"turn_stop" ts a) as [r b]. destruct Hd as (Hpass & Hw & _).
    apply (kept_weaken [] _ (is_ok r = true)); [done|exact Hw|].
    assert (Hm : messages b = messages a) by (by destruct Hpass as [-> _]).
    destruct r; (eapply (pass_kept a b _ [] []); [exact Hpass|by intros _; cbn; rewrite Hm, app_nil_r|done..]).
  - destruct (map steering_id (current_entries a)); [destruct only|]; by apply kept_same.
Qed.

Lemma op_kept op a :
  op_ok op -> accounted a -> (forall id, id ∈ fresh_ids [op] -> id ∉ (admissions (log_of a)).*1) ->
  kept (fresh_ids [op]) (op_written op) a (run_op op a).
Proof.
  intros Hok Ha Hnew. pose proof (ac_named a Ha) as Hn.
  destruct op; cbn [run_op op_ok op_written] in *; try by apply kept_same.
  - apply admit_kept. intros _. apply Hnew. by left.
  - by apply drain_kept.
  - by apply discard_kept.
  - by apply interrupt_kept.
  - unfold begin_turn. destruct clear_stop; by apply kept_same.
  - unfold settle_turn. destruct (_ && _); by apply kept_same.
  - destruct (append_reads k p at_ t a) as (e & Hk & Hp & Hb & Hl & _).
    assert (Hs : Forall silent [e]).
    { constructor; [|constructor]. unfold silent, steering_of, dget_none. by rewrite Hp, Hok. }
    destruct (silent_reads _ Hs) as (A & C & D). destruct (reads_app (log_of a) [e]) as (E1 & E2 & E3).
    rewrite A, C, D, ?app_nil_r in *. set (b := (st_ledger _ a).2) in *.
    assert (Hpb : pending_user_steering b = pending_user_steering a) by (by rewrite Hb).
    assert (Hmb : messages b = messages a) by (by rewrite Hb).
    split.
    + intros [? ? ? ?]. split; by rewrite ?Hl, ?Hpb, ?E1, ?E2, ?E3.
    + rewrite Hl, E1. by left.
    + intros _ _. unfold complete. by rewrite Hl, Hpb, E1, E3.
    + intros _ _ base. unfold visible. by rewrite Hl, Hmb, E2.
Qed.

(** C15: directions are applied exactly once, in the order of admission.
    Through any interleaving of admissions, drains, discards, interrupts, stops
    and turns, whatever the log's writes and the snapshots do, no admitted
    direction is closed or committed twice or out of order; and as long as the
    writes succeed every admitted direction was committed, discarded or still
    waits, and the model's history grew by exactly the committed contents. *)
Theorem steering_exactly_once base ops a :
  accounted a -> Forall op_ok ops -> NoDup (fresh_ids ops) ->
  (forall id, id ∈ fresh_ids ops -> id ∉ (admissions (log_of a)).*1) ->
  accounted (run_ops ops a) /\
  (Forall op_written ops -> complete a -> visible base a ->
   complete (run_ops ops a) /\ visible base (run_ops ops a)).
Proof.
  intros Ha Hok. revert a Ha. induction Hok as [|op ops Ho Hok IH]; intros a Ha Hnd Hnew; [done|].
  change (op :: ops) with ([op] ++ ops) in Hnd, Hnew. unfold fresh_ids in Hnd, Hnew.
  rewrite omap_app in Hnd, Hnew. fold (fresh_ids [op]) (fresh_ids ops) in Hnd, Hnew.
  apply NoDup_app in Hnd as (_ & Hdis & Hnd).
  destruct (op_kept op a Ho Ha) as [K1 K2 K3 K4].
  { intros id Hid. apply Hnew, elem_of_app. by left. }
  destruct (IH (run_op op a) (K1 Ha) Hnd) as [IH1 IH2].
  { intros id Hid Hin. destruct (K2 id Hin) as [?|?]; [|by apply (Hdis id)].
    eapply Hnew; [|done]. apply elem_of_app. by right. }
  split; [exact IH1|]. intros [Hw Hws]%Forall_cons Hc Hv. apply IH2; [done|by apply K3|by apply K4].
Qed.
End Theorems.

(** ** Recovery *)

Section Recovery.
Context {S : Type} `{MessageLogLaws S}.
Implicit Types a b : Agent (S := S).

Lemma admission_ids_cons e l :
  (admissions (e :: l)).*1
  = match steering_of e with Some id => if is_admission e then [id] else [] | None => [] end ++ (admissions l).*1.
Proof.
  unfold admissions. cbn [omap list_omap]. unfold admission_of.
  by destruct (is_admission e), (steering_of e).
Qed.

Lemma closed_cons e l :
  closed (e :: l) = match steering_of e with Some id => if is_terminal e then [id] else [] | None => [] end ++ closed l.
Proof. unfold closed. cbn [omap list_omap]. by destruct (is_terminal e), (steering_of e). Qed.

Lemma admission_not_terminal e : is_admission e = true -> is_terminal e = false.
Proof. unfold is_admission, is_terminal. intros ->%bool_decide_eq_true. done. Qed.

Lemma recover_scan_spec l acc :
  NoDup acc.1.*1 ->
  let acc' := foldl recover_event acc l in
  NoDup acc'.1.*1 /\
  (forall id, id ∈ acc'.1.*1 <-> id ∈ acc.1.*1 \/ id ∈ (admissions l).*1) /\
  (forall id, id ∈ acc'.2 <-> id ∈ acc.2 \/ id ∈ closed l).
Proof.
  revert acc. induction l as [|e l IH]; intros acc Hnd; cbn [foldl].
  { split_and!; [done|..]; intros id; unfold admissions, closed; cbn; rewrite elem_of_nil; tauto. }
  rewrite admission_ids_cons, closed_cons. unfold recover_event at 2 4 6.
  destruct (steering_of e) as [id0|]; [|by apply IH].
  destruct (is_admission e) eqn:Ea.
  - rewrite (admission_not_terminal e Ea). cbn [app].
    destruct (IH (assoc_set acc.1 id0 e, acc.2)) as (H1' & H2' & H3'); [by apply assoc_set_NoDup|].
    split_and!; [done| |done]. intros id. rewrite H2'. cbn [fst]. rewrite assoc_set_keys, elem_of_cons.
    case_decide; rewrite ?elem_of_app, ?list_elem_of_singleton; [|tauto]. naive_solver.
  - destruct (is_terminal e); [|by apply IH]. cbn [app].
    destruct (IH (acc.1, {[id0]} ∪ acc.2)) as (H1' & H2' & H3'); [done|].
    split_and!; [done..|]. intros id. rewrite H3'. cbn [snd]. rewrite elem_of_cons. set_solver.
Qed.

Lemma open_admissions_spec l :
  NoDup (open_admissions l).*1 /\
  forall id, id ∈ (open_admissions l).*1 <-> id ∈ (admissions l).*1 /\ id ∉ closed l.
Proof.
  unfold open_admissions. destruct (recover_scan_spec l ([], ∅)) as (Hn & Ha & Hc); [constructor|].
  destruct (foldl recover_event ([], ∅) l) as [admitted terminal]. cbn [fst snd] in *. split.
  - eapply sublist_NoDup; [exact Hn|]. apply fmap_sublist, sublist_filter.
  - intros id. rewrite list_elem_of_fmap. split.
    + intros ([k e] & -> & [Hk Hin]%list_elem_of_filter). cbn in *. split.
      * destruct (Ha k) as [Ha1 _]. destruct Ha1 as [?%elem_of_nil|?]; [|done..].
        apply list_elem_of_fmap. by exists (k, e).
      * intros Hcl. apply Hk, Hc. by right.
    + intros [Hin Hcl]. assert (Hk : id ∈ admitted.*1) by (apply Ha; by right).
      apply list_elem_of_fmap in Hk as ([k e] & -> & He). exists (k, e). split; [done|].
      apply list_elem_of_filter. split; [|done]. cbn. intros [?%elem_of_empty|?]%Hc; done.
Qed.

Lemma close_admissions_spec ts l a :
  Forall (fun p : pystr * HistoryEvent => p.1 <> []) l -> (forall id, io (ts id) = Written) ->
  exists b, close_admissions ts l a = (Ok (), b) /\ admissions (log_of b) = admissions (log_of a) /\
    commits (log_of b) = commits (log_of a) /\ closed (log_of b) = closed (log_of a) ++ l.*1.
Proof.
  intros Hl Hw. revert a. induction Hl as [|[id e] l Hid Hl IH]; intros a; cbn [close_admissions].
  { exists a. by rewrite app_nil_r. }
  cbn in Hid. unfold mbind, stm_bind. set (at_ := attribution _ _ _).
  destruct (append_reads $"steering_discarded" (discarded_payload id $"session_recovery") at_ (ts id) a)
    as (ev & Hk & Hpl & Hb & Hlog & Hok).
  destruct (discarded_reads _ _ ev Hk Hpl Hid) as (A & C & D).
  destruct (st_ledger _ a) as [r b]. cbn [fst snd] in *. rewrite Hok by done.
  destruct (IH b) as (c & -> & E1 & E2 & E3). exists c. destruct (reads_app (log_of a) [ev]) as (F1 & F2 & F3).
  rewrite E1, E2, E3, Hlog, F1, F2, F3, A, C, D, !app_nil_r, <- app_assoc. done.
Qed.

Lemma steering_of_named l : Forall (fun id => id <> []) (admissions l).*1.
Proof.
  induction l as [|e l IH]; [constructor|]. rewrite admission_ids_cons. apply Forall_app. split; [|done].
  unfold steering_of. destruct (dget_none (payload e) _) as [| | | |[|c s]| |]; try constructor.
  destruct (is_admission e); repeat constructor. done.
Qed.

(** recovery closes exactly the open directions.  Whatever a crash left in
    the log, every admitted direction that was neither committed nor discarded
    is discarded once, the others are left alone, the number is reported, and
    a second recovery finds nothing. *)
Theorem recovery_closes_admissions ts a :
  (forall id, io (ts id) = Written) ->
  exists opened b, discard_recovered_steering None ts a = (Ok (len opened), b) /\
    NoDup opened /\
    (forall id, id ∈ opened <-> id ∈ (admissions (log_of a)).*1 /\ id ∉ closed (log_of a)) /\
    closed (log_of b) = closed (log_of a) ++ opened /\
    admissions (log_of b) = admissions (log_of a) /\ commits (log_of b) = commits (log_of a) /\
    discard_recovered_steering None ts b = (Ok 0, b).
Proof.
  intros Hw. destruct (open_admissions_spec (log_of a)) as [Hnd Hin].
  destruct (close_admissions_spec ts (open_admissions (log_of a)) a) as (b & Hb & Ea & Ec & Ed); [|done|].
  { apply Forall_forall. intros [id e] He. cbn.
    assert (Hid : id ∈ (open_admissions (log_of a)).*1) by (apply list_elem_of_fmap; by exists (id, e)).
    apply Hin in Hid as [Hid _]. pose proof (steering_of_named (log_of a)) as Hn. rewrite Forall_forall in Hn. by apply Hn. }
  exists (open_admissions (log_of a)).*1, b.
  assert (Hlen : len (open_admissions (log_of a)).*1 = len (open_admissions (log_of a))) by (unfold len; by rewrite length_fmap).
  split_and!; try done.
  - unfold discard_recovered_steering. fold (log_of a). cbn [default]. unfold id.
    unfold mbind, stm_bind. rewrite Hb. unfold mret, stm_ret. by rewrite Hlen.
  - assert (Hempty : open_admissions (log_of b) = []).
    { destruct (open_admissions_spec (log_of b)) as [_ Hin']. destruct (open_admissions (log_of b)) as [|[k e] l]; [done|].
      destruct (proj1 (Hin' k)) as [Hk1 Hk2]; [left|]. exfalso. apply Hk2. rewrite Ed. rewrite Ea in Hk1.
      apply elem_of_app. destruct (decide (k ∈ closed (log_of a))) as [?|Hn]; [by left|right]. by apply Hin. }
    unfold discard_recovered_steering. fold (log_of b). cbn [default]. unfold id. by rewrite Hempty.
Qed.
End Recovery.

(** ** Interrupts *)

Section Interrupts.
Context {S : Type} `{MessageLog S}.
Implicit Types a b : Agent (S := S).

Lemma ledger_signals {A} (m : stm S A) a :
  let b := (st_ledger m a).2 in
  round_interrupt_epoch b = round_interrupt_epoch a /\ stop_event b = stop_event a.
Proof. unfold st_ledger. by destruct (m (history_ledger a)). Qed.

Definition signals_kept {A} (m : stm Agent A) : Prop := forall a,
  round_interrupt_epoch (m a).2 = round_interrupt_epoch a /\ stop_event (m a).2 = stop_event a.

Lemma signals_bind {A B} (m : stm Agent A) (f : A -> stm Agent B) :
  signals_kept m -> (forall x, signals_kept (f x)) -> signals_kept (m ≫= f).
Proof.
  intros Hm Hf a. unfold mbind, stm_bind. specialize (Hm a). destruct (m a) as [[x|e] b]; cbn in *; [|done].
  destruct (Hf x b) as [-> ->]. done.
Qed.

Lemma signals_ledger {A} (m : stm S A) : signals_kept (st_ledger m).
Proof. intros a. apply ledger_signals. Qed.

Lemma signals_ret {A} (x : A) : signals_kept (mret x).
Proof. done. Qed.

Lemma drain_loop_signals attempt ios l : signals_kept (drain_loop attempt ios l).
Proof.
  induction l as [|p l IH]; [apply signals_ret|]. cbn [drain_loop].
  apply signals_bind; [|intros x; apply signals_bind; [exact IH|intros y; apply signals_ret]].
  intros a. unfold drain_item. destruct (negb _).
  - refine (signals_bind _ _ (signals_ledger _) (fun _ => signals_ret _) a).
  - refine (signals_bind _ _ (signals_ledger _) (fun _ => signals_bind _ _ (signals_ledger _) (fun _ => signals_ret _)) a).
Qed.

Lemma discard_loop_signals reason ts l : signals_kept (discard_loop reason ts l).
Proof.
  induction l as [|p l IH]; [apply signals_ret|]. intros a. cbn [discard_loop].
  refine (signals_bind _ _ (signals_ledger _) (fun _ => IH) a).
Qed.

Lemma discard_locked_signals reason ts : signals_kept (discard_pending_locked reason ts).
Proof.
  intros a. unfold discard_pending_locked, mbind, stm_bind, st_get, st_modify.
  pose proof (discard_loop_signals reason ts (pending_user_steering a) (set_pending [] a)) as Hd.
  by destruct (discard_loop _ _ _ _) as [[u|x] b].
Qed.

(** The epoch never goes back, and only two operations clear the stop event. *)
Lemma op_signals op a :
  round_interrupt_epoch a <= round_interrupt_epoch (run_op op a) /\
  (stop_event a = true -> match op with ClearStop | Begin _ _ true => True | _ => stop_event (run_op op a) = true end).
Proof.
  assert (Hsame : forall b, round_interrupt_epoch b = round_interrupt_epoch a /\ stop_event b = stop_event a ->
    round_interrupt_epoch a <= round_interrupt_epoch b /\ (stop_event a = true -> stop_event b = true)).
  { intros b [-> ->]. by split. }
  destruct op; cbn [run_op]; try (by apply Hsame).
  - apply Hsame. unfold admit_user_steering. destruct (negb _); [done|].
    destruct (accepting_user_steering a), (current_turn_id a); try done.
    refine (signals_bind _ _ (signals_ledger _) (fun _ => signals_bind _ _ _ (fun _ => signals_bind _ _ _ (fun _ => signals_ret _))) a);
      [by intros b|]. destruct persist; by intros b.
  - apply Hsame. unfold drain_user_steering, mbind, stm_bind, st_get, st_modify.
    pose proof (drain_loop_signals attempt ios (pending_user_steering a) (set_pending [] a)) as Hd.
    destruct (drain_loop _ _ _ _) as [[applied|x] b]; [|done]. destruct applied; [done|]. by destruct persist.
  - apply Hsame. unfold discard_pending_user_steering, mbind, stm_bind, st_modify.
    pose proof (discard_locked_signals reason ts a) as Hd.
    destruct (discard_pending_locked reason ts a) as [[n|x] b]; [|done].
    destruct persist as [[|]|]; cbn; try destruct (n =? 0); done.
  - unfold request_interrupt_intent. destruct (stop_event a) eqn:Es; [cbn; rewrite Es; by split|].
    split; [|done]. destruct (round_interrupt_pending a).
    + destruct steering_only; [done|]. unfold mbind, stm_bind, st_modify.
      pose proof (discard_locked_signals $"turn_stop" ts a) as [Hd _].
      destruct (discard_pending_locked $"turn_stop" ts a) as [[n|x] b]; cbn in *; lia.
    + destruct (map steering_id (current_entries a)); [destruct steering_only|]; cbn; lia.
  - split; [cbn; lia|done].
  - split; [cbn; lia|done].
  - unfold begin_turn. destruct clear_stop; cbn; (split; [lia|done]).
  - apply Hsame. unfold settle_turn. by destruct (_ && _).
  - apply Hsame. apply ledger_signals.
Qed.

(** Operations after which a cancellation stays. *)
Definition keeps_cancellation (op : SteeringOp) : Prop :=
  match op with ClearStop | Begin _ _ true => False | _ => True end.

Lemma cancelled_stays baseline ops a :
  Forall keeps_cancellation ops -> cancelled baseline true a = true -> cancelled baseline true (run_ops ops a) = true.
Proof.
  intros Hops. revert a. induction Hops as [|op ops Hop Hops IH]; intros a Ha; [done|]. apply IH.
  destruct (op_signals op a) as [He Hs]. unfold cancelled in *. cbn [andb] in *.
  apply orb_true_iff in Ha as [Ha|Ha].
  - specialize (Hs Ha). destruct op; try done; try (by rewrite Hs). destruct clear_stop; [done|by rewrite Hs].
  - zbool. apply orb_true_iff. right. apply Z.ltb_lt. lia.
Qed.

(** an interrupt reaches the request in flight.  A user's interrupt that
    may stop the turn either promotes every waiting direction to an immediate
    one or stops the turn, and the cancellation view of any request dispatched
    before it is set and stays set until the stop is cleared for a new turn;
    an interrupt for steering only never stops the turn and never drops a
    direction; only a second interrupt, which stops the turn, discards. *)
Theorem interrupt_reaches_request only ts a r b :
  request_interrupt_intent only ts a = (Ok r, b) ->
  match outcome r with
  | PROMOTED => stop_event b = false /\ steering_ids r = map steering_id (current_entries a) /\
      steering_ids r <> [] /\ round_interrupt_epoch b = round_interrupt_epoch a + 1 /\
      pending_user_steering b = pending_user_steering a
  | ALREADY_PROMOTED => only = true /\ b = a /\ round_interrupt_pending a = true
  | NOTHING_PENDING => only = true /\ b = a /\ current_entries a = []
  | ALREADY_STOPPING => b = a
  | STOP_REQUESTED => only = false /\ stop_event b = true /\
      (round_interrupt_pending a = true /\ discarded_count r = len (pending_user_steering a) \/
       current_entries a = [] /\ pending_user_steering b = pending_user_steering a)
  end /\
  (only = false -> forall baseline ops, baseline <= round_interrupt_epoch a -> Forall keeps_cancellation ops ->
   cancelled baseline true (run_ops ops b) = true).
Proof.
  intros Hi.
  assert (Hout : match outcome r with
    | PROMOTED => stop_event b = false /\ steering_ids r = map steering_id (current_entries a) /\
        steering_ids r <> [] /\ round_interrupt_epoch b = round_interrupt_epoch a + 1 /\
        pending_user_steering b = pending_user_steering a
    | ALREADY_PROMOTED => only = true /\ b = a /\ round_interrupt_pending a = true
    | NOTHING_PENDING => only = true /\ b = a /\ current_entries a = []
    | ALREADY_STOPPING => b = a /\ stop_event a = true
    | STOP_REQUESTED => only = false /\ stop_event b = true /\
        (round_interrupt_pending a = true /\ discarded_count r = len (pending_user_steering a) \/
         current_entries a = [] /\ pending_user_steering b = pending_user_steering a)
    end).
  { unfold request_interrupt_intent in Hi. destruct (stop_event a) eqn:Es; [by injection Hi as <- <-|].
    destruct (round_interrupt_pending a) eqn:Ep.
    - destruct only; [by injection Hi as <- <-|]. unfold discard_pending_locked, mbind, stm_bind, st_modify, st_get in Hi.
      destruct (discard_loop _ _ _ _) as [[u|x] c]; [|done]. injection Hi as <- <-. cbn. by split_and!; [..|left].
    - destruct (map steering_id (current_entries a)) as [|i l] eqn:Ec.
      + apply map_eq_nil in Ec. destruct only; injection Hi as <- <-; cbn; [done|]. by split_and!; [..|right].
      + injection Hi as <- <-. cbn. by split_and!. }
  split; [by destruct (outcome r); try tauto|].
  intros -> baseline ops Hb Hops. apply cancelled_stays; [done|]. unfold cancelled. cbn [andb]. apply orb_true_iff.
  destruct (outcome r).
  - right. apply Z.ltb_lt. destruct Hout as (_ & _ & _ & -> & _). lia.
  - by destruct Hout.
  - by destruct Hout.
  - left. apply Hout.
  - left. destruct Hout as [-> ->]. done.
Qed.
End Interrupts.

(** ** Concrete histories *)

Definition sample_agent : Agent (S := Store) := {|
  history_ledger := (example_ledger, ∅); messages := []; context_revision := 0; pending_user_steering := [];
  accepting_user_steering := true; current_turn_id := Some $"t1"; image_turn_id := Some $"t1";
  session_generation := 0; agent_id := Some $"main"; current_round := 0; round_interrupt_epoch := 0;
  round_interrupt_pending := false; stop_event := false; turn_attempt_counter := 0; snapshots := 0;
  notices := [] |}.

Definition sample_io (p : PendingUserSteering) : ItemIO :=
  {| t_event := example_tick $"x"; t_message := example_tick $"y"; t_kind := example_tick $"z"; w_batch := Written |}.

Definition sample_ops : list SteeringOp :=
  [ Admit (SteerText $" first ") $"1" (example_tick $"a") (Some (Ok ()));
    Admit (SteerText $"second") $"2" (example_tick $"b") None;
    Interrupt false (fun _ => example_tick $"c");
    NextAttempt 0; Drain (Some $"t1:0:1") sample_io (Ok ());
    Admit (SteerText $"third") $"3" (example_tick $"d") None;
    Stop; Settle; Discard $"turn_stop" (fun _ => example_tick $"e") (Some (Ok ())) ].

Example sample_history :
  messages (run_ops sample_ops sample_agent)
    = [ [($"role", VStr $"user"); ($"content", VStr $"first")];
        [($"role", VStr $"user"); ($"content", VStr $"second")] ] /\
  closed (log_of (run_ops sample_ops sample_agent)) = [$"steer_1"; $"steer_2"; $"steer_3"] /\
  round_interrupt_epoch (run_ops sample_ops sample_agent) = 1.
Proof. vm_compute. done. Qed.

Lemma sample_accounted : accounted sample_agent.
Proof. split; [constructor|constructor|apply sublist_nil_l|apply sublist_nil_l]. Qed.

Lemma steering_exactly_once_witness :
  accounted (run_ops sample_ops sample_agent) /\ complete (run_ops sample_ops sample_agent) /\
  visible [] (run_ops sample_ops sample_agent).
Proof.
  destruct (steering_exactly_once [] sample_ops sample_agent) as [Ha Hc].
  - exact sample_accounted.
  - by repeat constructor.
  - apply (bool_decide_unpack _). vm_compute. exact I.
  - intros id _ ?%elem_of_nil. done.
  - split; [exact Ha|]. apply Hc; [|done|by exists []]. repeat constructor; intros; by split_and?.
Defined.

Lemma recovery_closes_admissions_witness :
  exists opened b, discard_recovered_steering None (fun _ => example_tick $"r") (run_ops (take 4 sample_ops) sample_agent)
      = (Ok (len opened), b) /\
    closed (log_of b) = closed (log_of (run_ops (take 4 sample_ops) sample_agent)) ++ opened.
Proof.
  destruct (recovery_closes_admissions (fun _ => example_tick $"r") (run_ops (take 4 sample_ops) sample_agent))
    as (opened & b & Hb & _ & _ & Hc & _); [done|]. by exists opened, b.
Defined.

Lemma interrupt_reaches_request_witness :
  request_interrupt_intent (S := Store) false (fun _ => example_tick $"c") sample_agent
    = (Ok (intent STOP_REQUESTED [] 0 0), request_stop sample_agent) /\
  cancelled 0 true (run_ops [NextAttempt 1; Settle] (request_stop sample_agent)) = true.
Proof.
  split; [reflexivity|].
  destruct (interrupt_reaches_request false (fun _ => example_tick $"c") sample_agent
    (intent STOP_REQUESTED [] 0 0) (request_stop sample_agent)) as [_ Hc]; [reflexivity|].
  apply (Hc eq_refl); [done|by repeat constructor].
Defined.

(** The queue is taken before the log is written, and the model's history grows
    only after all of it: a write that fails at the second direction leaves the
    first one committed in the log and absent from the history, and the second
    one neither waiting nor closed. *)
Lemma interrupted_drain_hides_commit :
  let a := run_ops (take 2 sample_ops) sample_agent in
  let io p := if decide (steering_id p = $"steer_2")
              then {| t_event := {| fresh_id := $"x"; now := $"1.0"; io := WriteFails (OSError $"full") 0 |};
                      t_message := example_tick $"y"; t_kind := example_tick $"z"; w_batch := Written |}
              else sample_io p in
  let '(r, b) := drain_user_steering (Some $"t1:0:1") io (Ok ()) a in
  is_ok r = false /\ commits (log_of b) = [($"steer_1", VStr $"first")] /\ messages b = [] /\
  pending_user_steering b = [] /\ closed (log_of b) = [$"steer_1"].
Proof. vm_compute. done. Qed.
