(* ===== verification/ProcessOutput.v ===== *)
(** * What a process's output may show (domain/process_manager.py,
      domain/process_output.py)

    Output of a managed process passes a filter per consumer and stream that
    replaces hidden input which the process echoes, across chunk boundaries; a
    bounded tail may be retained for a consumer; and text shown in a terminal
    has its control characters made visible. *)

From S2P Require Import Prelude.

(** ** Hidden input *)

Definition HIDDEN_INPUT_MARKER : pystr := $"[hidden input redacted]".

(** [sorted((v for v in values if v), key=len, reverse=True)]. *)
Definition longest_first (values : list pystr) : list pystr :=
  stable_sort (fun a b : pystr => len b <=? len a) (filter (fun v => v <> []) values).

(** The value that starts the text, the longest when several do. *)
Definition hidden_at (values : list pystr) (s : pystr) : option pystr :=
  List.find (fun v => startswith s v) values.

(** The loop of [_SensitiveOutputFilter.apply] on the text from [index] on: the
    output, and the rest that may still become a hidden value. *)
Fixpoint scan (fuel : nat) (values : list pystr) (final : bool) (s : pystr) : pystr * pystr :=
  match fuel, s with
  | S fuel, c :: rest =>
    match hidden_at values s with
    | Some v =>
      let '(out, pending) := scan fuel values final (slice_from (len v) s) in
      (HIDDEN_INPUT_MARKER ++ out, pending)
    | None =>
      if negb final && existsb (fun v => startswith v s) values then ([], s)
      else let '(out, pending) := scan fuel values final rest in (c :: out, pending)
    end
  | _, _ => ([], [])
  end.

(** [_SensitiveOutputFilter.apply]: the output and the new [pending]. *)
Definition filter_apply (values : list pystr) (pending chunk : pystr) (final : bool) : pystr * pystr :=
  let text := pending ++ chunk in
  match text, values with
  | [], _ | _, [] => (text, [])
  | _, _ => scan (length text) (longest_first values) final text
  end.

(** A stream of chunks, the last one final. *)
Fixpoint filter_stream (values : list pystr) (pending : pystr) (chunks : list pystr) (last : pystr) : pystr :=
  match chunks with
  | [] => (filter_apply values pending last true).1
  | c :: chunks =>
    let '(out, pending) := filter_apply values pending c false in
    out ++ filter_stream values pending chunks last
  end.

(** ** Retained tails *)

Record OutputTail := { limit : Z; tail_stdout : pystr; tail_stderr : pystr }.

(** [s[-n:]] for a positive [n]. *)
Definition last_chars (n : Z) (s : pystr) : pystr := slice_from (len s - n) s.

(** [_ConsumerOutputTail.append]. *)
Definition tail_append (t : OutputTail) (stdout stderr : pystr) : OutputTail :=
  {| limit := limit t; tail_stdout := last_chars (limit t) (tail_stdout t ++ stdout);
     tail_stderr := last_chars (limit t) (tail_stderr t ++ stderr) |}.

(** ** Terminal display *)

(** [f"{n:02x}"] and [f"{n:04x}"]. *)
Definition hex_of (digits : nat) (n : Z) : pystr :=
  map (fun i => let d := n / 16 ^ Z.of_nat (digits - 1 - i) mod 16 in if d <? 10 then 48 + d else 87 + d)
    (seq 0 digits).

Definition is_control (c : Z) : bool := (c <? 32) || (c =? 127) || ((128 <=? c) && (c <=? 159)).

Definition escape_control (c : Z) : pystr :=
  if c =? 13 then $"\r" else if c <=? 255 then $"\x" ++ hex_of 2 c else $"\u" ++ hex_of 4 c.

Fixpoint escape_terminal_controls (text : pystr) : pystr * bool :=
  match text with
  | [] => ([], false)
  | c :: text =>
    let '(out, filtered) := escape_terminal_controls text in
    if (c =? 10) || (c =? 9) then (c :: out, filtered)
    else if is_control c then (escape_control c ++ out, true)
    else (c :: out, filtered)
  end.

Definition terminal_safe_display (text : pystr) : pystr :=
  let '(safe, filtered) := escape_terminal_controls text in
  if filtered then safe ++ [10] ++ $"[terminal control bytes escaped for display]" ++ [10] else safe.

(** ** Lemmas *)

Lemma startswith_true s p : startswith s p = true <-> exists t, s = p ++ t.
Proof. unfold startswith. rewrite bool_decide_eq_true. done. Qed.

(** Two beginnings of one text are comparable. *)
Lemma prefixes_comparable (a b s t u : pystr) : a ++ s = b ++ t ->
  (exists v, b = a ++ v) \/ (exists v, a = b ++ v).
Proof.
  revert b. induction a as [|x a IH]; intros b Heq; [left; by exists b|].
  destruct b as [|y b]; [right; by exists (x :: a)|]. injection Heq as -> Heq.
  destruct (IH b Heq) as [[v ->]|[v ->]]; [left|right]; by exists v.
Qed.

Section Redaction.
Context (values : list pystr).
Hypothesis Hnonempty : Forall (fun v => v <> []) values.

Lemma hidden_at_Some s v : hidden_at values s = Some v -> v ∈ values /\ startswith s v = true.
Proof. intros Hv. apply List.find_some in Hv as [Hin Hs]. split; [by apply list_elem_of_In|done]. Qed.

Lemma hidden_at_None s v : hidden_at values s = None -> v ∈ values -> startswith s v = false.
Proof. intros Hn Hin. apply (List.find_none _ _ Hn). by apply list_elem_of_In. Qed.

Lemma hidden_shrinks s v fuel : hidden_at values s = Some v -> (length s <= S fuel)%nat ->
  exists t, s = v ++ t /\ slice_from (len v) s = t /\ (length t <= fuel)%nat.
Proof.
  intros Hv Hlen. destruct (hidden_at_Some s v Hv) as [Hin Hs]. apply startswith_true in Hs as [t ->].
  rewrite Forall_forall in Hnonempty. specialize (Hnonempty v Hin).
  exists t. split; [done|]. unfold slice_from, len. rewrite Nat2Z.id, drop_app_length. split; [done|].
  rewrite length_app in Hlen. destruct v; [done|cbn in Hlen; lia].
Qed.

(** The fuel is enough: more changes nothing. *)
Lemma scan_fuel final fuel : forall fuel' s, (length s <= fuel)%nat -> (length s <= fuel')%nat ->
  scan fuel values final s = scan fuel' values final s.
Proof.
  induction fuel as [|fuel IH]; intros [|fuel'] [|c s] H1 H2; cbn in H1, H2; try lia; try done.
  cbn [scan]. destruct (hidden_at values (c :: s)) as [v|] eqn:Hv.
  - destruct (hidden_shrinks _ _ fuel Hv) as (t & Hs & -> & Ht1); [cbn; lia|].
    destruct (hidden_shrinks _ _ fuel' Hv) as (t2 & Hs2 & _ & Ht2); [cbn; lia|].
    rewrite Hs in Hs2. apply app_inv_head in Hs2 as <-. by rewrite (IH fuel' t).
  - by rewrite (IH fuel' s) by lia.
Qed.
End Redaction.

(** A text and what is shown of it: hidden values become the marker, a plain
    character stands where no value starts. *)
Inductive redacted (values : list pystr) : pystr -> pystr -> Prop :=
| redacted_nil : redacted values [] []
| redacted_hidden v s out : v ∈ values -> redacted values s out ->
    redacted values (v ++ s) (HIDDEN_INPUT_MARKER ++ out)
| redacted_plain c s out : (forall v, v ∈ values -> startswith (c :: s) v = false) ->
    redacted values s out -> redacted values (c :: s) (c :: out).

(** No value is a proper beginning of another. *)
Definition prefix_free (values : list pystr) : Prop :=
  forall a b, a ∈ values -> b ∈ values -> startswith b a = true -> a = b.

(** The whole text at once. *)
Definition redact (values : list pystr) (s : pystr) : pystr := (scan (length s) values true s).1.

Section Streaming.
Context (values : list pystr).
Hypothesis Hnonempty : Forall (fun v => v <> []) values.

Lemma redact_hidden v s : hidden_at values s = Some v ->
  redact values s = HIDDEN_INPUT_MARKER ++ redact values (slice_from (len v) s).
Proof.
  intros Hv. unfold redact. destruct s as [|c s].
  { destruct (hidden_at_Some _ _ _ Hv) as [Hin Hs]. apply startswith_true in Hs as [t Ht].
    rewrite Forall_forall in Hnonempty. specialize (Hnonempty v Hin). by destruct v. }
  cbn [length scan]. rewrite Hv. destruct (hidden_shrinks _ Hnonempty _ _ (length s) Hv) as (t & _ & -> & Ht); [done|].
  rewrite (scan_fuel _ Hnonempty true (length s) (length t) t) by lia. by destruct (scan _ _ _ t).
Qed.

Lemma redact_plain c s : hidden_at values (c :: s) = None -> redact values (c :: s) = c :: redact values s.
Proof. intros Hv. unfold redact. cbn [length scan]. rewrite Hv. cbn [negb andb]. by destruct (scan _ _ _ s). Qed.

Lemma redact_redacted s : redacted values s (redact values s).
Proof.
  remember (length s) as n eqn:Hn. revert s Hn. induction (lt_wf n) as [n _ IH]. intros s ->.
  destruct s as [|c s]; [constructor|]. destruct (hidden_at values (c :: s)) as [v|] eqn:Hv.
  - rewrite (redact_hidden v) by done.
    destruct (hidden_shrinks _ Hnonempty _ _ (length s) Hv) as (t & Hs & -> & Ht); [done|].
    rewrite Hs. apply redacted_hidden; [by apply (hidden_at_Some _ _ _ Hv)|]. eapply IH; [|done]. cbn. lia.
  - rewrite redact_plain by done. apply redacted_plain; [by intros v; apply hidden_at_None|].
    eapply IH; [|done]. cbn. lia.
Qed.

Hypothesis Hfree : prefix_free values.

(** What starts a text starts every longer one. *)
Lemma hidden_at_app s t v : hidden_at values s = Some v -> hidden_at values (s ++ t) = Some v.
Proof.
  intros Hv. destruct (hidden_at_Some _ _ _ Hv) as [Hin Hs]. apply startswith_true in Hs as [u ->].
  destruct (hidden_at values ((v ++ u) ++ t)) as [w|] eqn:Hw.
  - f_equal. destruct (hidden_at_Some _ _ _ Hw) as [Hinw Hsw]. apply startswith_true in Hsw as [x Hx].
    rewrite <-app_assoc in Hx. destruct (prefixes_comparable _ _ _ _ [] Hx) as [[y ->]|[y ->]].
    + symmetry. apply Hfree; [done|done|apply startswith_app].
    + apply Hfree; [done|done|apply startswith_app].
  - pose proof (hidden_at_None _ _ _ Hw Hin) as Hf. by rewrite <-app_assoc, startswith_app in Hf.
Qed.

(** A text no value can still complete starts with none however it goes on. *)
Lemma hidden_at_app_None s t :
  hidden_at values s = None -> existsb (fun v => startswith v s) values = false -> hidden_at values (s ++ t) = None.
Proof.
  intros Hn Hex. destruct (hidden_at values (s ++ t)) as [v|] eqn:Hv; [|done].
  destruct (hidden_at_Some _ _ _ Hv) as [Hin Hs]. apply startswith_true in Hs as [u Hu].
  destruct (prefixes_comparable _ _ _ _ [] Hu) as [[w ->]|[w ->]].
  - assert (Ht : existsb (fun v => startswith v s) values = true); [|congruence].
    apply existsb_exists. eexists. rewrite <-list_elem_of_In. split; [exact Hin|apply startswith_app].
  - pose proof (hidden_at_None _ _ _ Hn Hin) as Hf. by rewrite startswith_app in Hf.
Qed.

(** What a chunk shows is settled: the rest follows from what is pending. *)
Lemma scan_split fuel s t : (length s <= fuel)%nat ->
  let '(out, pending) := scan fuel values false s in
  redact values (s ++ t) = out ++ redact values (pending ++ t).
Proof.
  revert s. induction fuel as [|fuel IH]; intros [|c s] Hlen; cbn in Hlen; try lia; [done..|].
  cbn [scan]. destruct (hidden_at values (c :: s)) as [v|] eqn:Hv.
  - destruct (hidden_shrinks _ Hnonempty _ _ fuel Hv) as (u & Hs & Hslice & Hu); [cbn; lia|].
    rewrite Hslice. specialize (IH u Hu). destruct (scan fuel values false u) as [out pending].
    rewrite (redact_hidden v) by (by apply hidden_at_app). rewrite Hs, <-app_assoc.
    unfold slice_from, len. rewrite Nat2Z.id, drop_app_length, IH. by rewrite app_assoc.
  - cbn [negb andb]. destruct (existsb _ values) eqn:Hex; [done|].
    specialize (IH s ltac:(lia)). destruct (scan fuel values false s) as [out pending].
    pose proof (hidden_at_app_None _ t Hv Hex) as Hn. cbn [app] in *. by rewrite redact_plain, IH.
Qed.
End Streaming.

Lemma longest_first_elem values v : v ∈ longest_first values <-> v ∈ values /\ v <> [].
Proof.
  unfold longest_first. rewrite (stable_sort_Permutation _ _), list_elem_of_filter. tauto.
Qed.

Lemma longest_first_nonempty values : Forall (fun v => v <> []) (longest_first values).
Proof. apply Forall_forall. intros v Hv. by apply longest_first_elem in Hv as []. Qed.

Lemma redact_no_values s : redact [] s = s.
Proof. induction s as [|c s IH]; [done|]. rewrite redact_plain; [|done]. by rewrite IH. Qed.

Lemma filter_apply_final values pending chunk :
  (filter_apply values pending chunk true).1 = redact (longest_first values) (pending ++ chunk).
Proof.
  unfold filter_apply. destruct (pending ++ chunk) as [|c s]; [done|]. destruct values as [|v values]; [|done].
  cbn. symmetry. apply redact_no_values.
Qed.

(** C35: redaction does not depend on how the output is cut into chunks.  When no
    hidden value is the beginning of another, the chunks a consumer receives
    join to the redaction of the whole text, in which every value is replaced
    where it starts and every character shown stands where no value starts. *)
Theorem redaction_streams values chunks last :
  prefix_free (longest_first values) ->
  let text := concat chunks ++ last in
  filter_stream values [] chunks last = redact (longest_first values) text /\
  redacted (longest_first values) text (filter_stream values [] chunks last).
Proof.
  intros Hfree text. assert (Heq : forall pending,
    filter_stream values pending chunks last = redact (longest_first values) (pending ++ text)).
  { subst text. induction chunks as [|c chunks IH]; intros pending; cbn [filter_stream concat app].
    - apply filter_apply_final.
    - replace (pending ++ (c ++ concat chunks) ++ last) with ((pending ++ c) ++ concat chunks ++ last)
        by (by rewrite <-!app_assoc).
      pose proof (scan_split (longest_first values) (longest_first_nonempty values) Hfree
        (length (pending ++ c)) (pending ++ c) (concat chunks ++ last) (Nat.le_refl _)) as Hs.
      unfold filter_apply. destruct (pending ++ c) as [|x s] eqn:E; [by rewrite IH|].
      destruct values as [|v values]; [by rewrite IH, !redact_no_values|].
      destruct (scan _ _ false (x :: s)) as [out p]. by rewrite IH, Hs. }
  split; [apply (Heq [])|]. rewrite (Heq []). apply redact_redacted, longest_first_nonempty.
Qed.

Lemma redaction_streams_witness :
  let values := [$"hunter2"; $"pw"] in
  filter_stream values [] [$"> hun"; $"ter2 p"; $"w"] $"!" = $"> [hidden input redacted] [hidden input redacted]!" /\
  redacted (longest_first values) $"> hunter2 pw!" $"> [hidden input redacted] [hidden input redacted]!".
Proof.
  split; [by vm_compute|].
  refine (proj2 (redaction_streams [$"hunter2"; $"pw"] [$"> hun"; $"ter2 p"; $"w"] $"!" _)).
  intros a b Ha Hb Hs. apply longest_first_elem in Ha as [Ha _], Hb as [Hb _].
  repeat (apply elem_of_cons in Ha as [->|Ha]); repeat (apply elem_of_cons in Hb as [->|Hb]);
    try done; by apply not_elem_of_nil in Ha || apply not_elem_of_nil in Hb.
Defined.

(** When one hidden value is the beginning of another and a chunk ends between
    them, the rest of the longer one is shown, although the whole text would
    not show it. *)
Lemma prefix_value_leaks :
  filter_stream [$"pass"; $"password"] [] [$"pass"] $"word" = HIDDEN_INPUT_MARKER ++ $"word" /\
  redact (longest_first [$"pass"; $"password"]) $"password" = HIDDEN_INPUT_MARKER.
Proof. by vm_compute. Qed.

(** A tail keeps exactly the last characters of everything appended. *)
Lemma tail_keeps_last n l : 0 < n ->
  let t := foldl (fun t o => tail_append t o.1 o.2) {| limit := n; tail_stdout := []; tail_stderr := [] |} l in
  tail_stdout t = last_chars n (concat (map fst l)) /\ tail_stderr t = last_chars n (concat (map snd l)) /\
  len (tail_stdout t) <= n /\ len (tail_stderr t) <= n.
Proof.
  intros Hn. assert (Hcut : forall a b : pystr, last_chars n (last_chars n a ++ b) = last_chars n (a ++ b)).
  { intros a b. unfold last_chars, slice_from, len. rewrite !length_app, length_drop, !drop_app, drop_drop, !length_drop.
    f_equal; [|f_equal; lia]. f_equal. lia. }
  assert (Hlen : forall a : pystr, len (last_chars n a) <= n).
  { intros a. unfold last_chars, slice_from, len. rewrite length_drop. lia. }
  assert (Hgen : forall t, limit t = n -> len (tail_stdout t) <= n -> len (tail_stderr t) <= n ->
    let u := foldl (fun t o => tail_append t o.1 o.2) t l in
    tail_stdout u = last_chars n (tail_stdout t ++ concat (map fst l)) /\
    tail_stderr u = last_chars n (tail_stderr t ++ concat (map snd l)) /\
    len (tail_stdout u) <= n /\ len (tail_stderr u) <= n).
  { induction l as [|[o e] l IH]; intros t Ht Ho He.
    - cbn. rewrite !app_nil_r. unfold last_chars, slice_from.
      replace (Z.to_nat (len (tail_stdout t) - n)) with 0%nat by lia.
      by replace (Z.to_nat (len (tail_stderr t) - n)) with 0%nat by lia.
    - cbn [foldl fst snd map concat]. destruct (IH (tail_append t o e)) as (-> & -> & H1 & H2); [done|..].
      + cbn. rewrite Ht. apply Hlen.
      + cbn. rewrite Ht. apply Hlen.
      + split_and!; [| |done|done]; cbn [tail_append tail_stdout tail_stderr limit]; rewrite Ht, Hcut; by rewrite app_assoc. }
  apply (Hgen {| limit := n; tail_stdout := []; tail_stderr := [] |}); [done|unfold len; cbn; lia..].
Qed.

(** *** Terminal display *)

Definition displayable (c : Z) : Prop := is_control c = false \/ c = 10 \/ c = 9.

Lemma hex_of_displayable n l : Forall displayable (hex_of n l).
Proof.
  unfold hex_of. apply Forall_map, Forall_forall. intros i _. left. unfold is_control.
  set (d := l / _ mod 16). assert (0 <= d < 16) by (apply Z.mod_pos_bound; lia).
  destruct (d <? 10) eqn:E; zbool; rewrite !orb_false_iff, andb_false_iff, !Z.ltb_ge, Z.eqb_neq, !Z.leb_gt; lia.
Qed.

Lemma escape_control_displayable c : Forall displayable (escape_control c).
Proof.
  unfold escape_control. destruct (c =? 13); [|destruct (c <=? 255)].
  - repeat constructor; by left.
  - apply Forall_app. split; [repeat constructor; by left|apply hex_of_displayable].
  - apply Forall_app. split; [repeat constructor; by left|apply hex_of_displayable].
Qed.

(** nothing a process prints controls the terminal.  The text displayed has
    no control character other than line feeds and tabs; a text without any
    others is displayed as it is, and any other is marked as escaped. *)
Theorem terminal_display_safe text :
  Forall displayable (terminal_safe_display text) /\
  (Forall displayable text <-> terminal_safe_display text = text).
Proof.
  assert (Hesc : Forall displayable (escape_terminal_controls text).1 /\
    (Forall displayable text -> escape_terminal_controls text = (text, false)) /\
    ((escape_terminal_controls text).2 = false -> (escape_terminal_controls text).1 = text)).
  { induction text as [|c text (IH1 & IH2 & IH3)]; [by split_and!|]. cbn [escape_terminal_controls].
    destruct (escape_terminal_controls text) as [out filtered]. cbn [fst snd] in *.
    destruct ((c =? 10) || (c =? 9)) eqn:Ew; [|destruct (is_control c) eqn:Ec]; cbn [fst snd].
    - split_and!.
      + constructor; [right; apply orb_true_iff in Ew as [Ew|Ew]; zbool; auto|done].
      + intros Hd. inversion_clear Hd as [|? ? _ Ht]. by injection (IH2 Ht) as -> ->.
      + intros ->. by rewrite IH3.
    - apply orb_false_iff in Ew as [E1 E2]. zbool. split_and!; [|intros Hd|done].
      + apply Forall_app. split; [apply escape_control_displayable|done].
      + inversion_clear Hd as [|? ? [Hc|[Hc|Hc]] Ht]; congruence.
    - split_and!.
      + constructor; [by left|done].
      + intros Hd. inversion_clear Hd as [|? ? _ Ht]. by injection (IH2 Ht) as -> ->.
      + intros ->. by rewrite IH3. }
  destruct Hesc as (H1 & H2 & H3). unfold terminal_safe_display.
  assert (Hsafe : Forall displayable (let '(safe, filtered) := escape_terminal_controls text in
    if filtered then safe ++ [10] ++ $"[terminal control bytes escaped for display]" ++ [10] else safe)).
  { destruct (escape_terminal_controls text) as [safe filtered]. destruct filtered; [|done].
    apply Forall_app. split; [done|]. constructor; [by right; left|].
    apply Forall_app. split; [repeat constructor; by left|constructor; [by right; left|constructor]]. }
  split; [exact Hsafe|]. split.
  - intros Hd. by rewrite (H2 Hd).
  - intros Heq. by rewrite <-Heq.
Qed.
