(* ===== verification/ToolExecution.v ===== *)
(** * Tool execution (domain/agent/tool_execution.py)

    [execute] takes one call of the model through a fixed pipeline -- lookup,
    schema, subjects, authorization, environment, approval, contribution, last
    checks, effects, secondary processing, publication -- and returns one
    authoritative result.

    Everything the pipeline asks of others -- the agent, the tool, its backend,
    the extension runtime, the approval provider, monitors and sinks -- is a
    [call], whose answer is any value of its type or any exception, and may
    depend on all that happened before ([Environment]).  The state keeps the
    calls made and their answers ([tape]), which is what the theorems speak
    about.

    Attributes of a tool that are read but not called are fields of [Tool].
    Contexts are handed to extensions as deep copies, so an extension can change
    only the copy, and the answer says what it left in it.  A resource is bound
    and entered in one call.  The compatibility path that swaps a backend's
    stream handler by assignment is left out. *)

From S2P Require Import Prelude PyValue TextBuffer Models Hooks ToolOutcome ToolFacts Approval ProcessOutput.

(** ** Data *)

Inductive InterruptMode := LET_FINISH | CANCEL_WITH_PARTIAL | DETACH.

#[export] Instance interrupt_mode_dec : EqDecision InterruptMode.
Proof. solve_decision. Defined.

(** Attributes of a tool and of its backend; a flag says that the optional
    method is there. *)
Record Tool := {
  t_name : pystr;
  t_source : pyval;
  t_server_name : pyval;
  t_description : pyval;
  t_parameters : pyval;
  t_effect_class : pyval;
  t_profile : pyval;
  t_parallel_safe : bool;
  t_interrupt_mode : InterruptMode;
  has_approval_subjects : bool;
  has_approval_grant_scopes : bool;
  has_approval_preview : bool;
  has_execution_scope : bool;
  has_cancellation_scope : bool;
  has_stream_handler_scope : bool;
  has_workspace_revision_scope : bool;
  has_bind_execution : bool;
  has_workspace : bool;
  has_external_paths : bool;
  has_stream_observer : bool;
  workspace_root : pystr;
}.

(** What the pipeline reads of the agent, besides its methods. *)
Record AgentInfo := {
  a_facts : ContextFacts;
  active_mode : option pystr;
  subagent_job_id : pyval;
  subagent_mode : pyval;
  subagent_task : pyval;
}.

Record BeforeContext := { b_facts : ContextFacts; b_tool_call : ToolCall; b_metadata : pydict }.
Record AfterContext := { x_facts : ContextFacts; x_tool_call : ToolCall; x_result : pystr; x_outcome : ToolOutcome }.

(** A document under review: its path, and the revision that identifies its
    content. *)
Record Document := { doc_path : pystr; doc_missing : bool; doc_content_id : pystr; doc_revision : pystr }.
Definition same_document (a b : Document) : bool :=
  bool_decide (doc_path a = doc_path b) && bool_decide (doc_content_id a = doc_content_id b).

(** A preview, by its sections: whether one is a diff, and its content. *)
Record Preview := { sections : list (bool * pystr) }.

Record ApprovalRequest := {
  q_tool_name : pystr;
  q_tool_args : pydict;
  q_tool_source : pystr;
  q_mcp_server : option pystr;
  q_reason : option pystr;
  q_effect_class : pyval;
  q_profile : option pystr;
  q_subjects : list pystr;
  q_scope_key : pystr;
  q_grant_candidates : list ApprovalGrantCandidate;
  q_metadata : pydict;
  q_preview : option Preview;
}.

Record ApprovalDecision := {
  d_mode : pystr;
  d_reason : option pystr;
  d_reviewed : bool;
  d_grant : option ApprovalGrantCandidate;
}.
Definition approved (d : ApprovalDecision) : bool := bool_decide (d_mode d ∈ [$"allow_once"; $"allow_session"]).

(** What a preflight returns. *)
Inductive Preflight := PreflightPassed | PreflightOutcome (o : ToolOutcome) | PreflightOther.

(** A piece of streamed output: the tool it names, its text and its stream. *)
Record Chunk := { chunk_tool : pystr; chunk_data : pystr; chunk_stream : pystr }.

(** Events for the interface. *)
Inductive ToolEvent :=
| Diagnostic (message : pystr) (code : pystr) (details : pydict)
| OutputDelta (tool_name text stream tool_call_id : pystr)
| ToolCallEnd (tool_name text tool_call_id : pystr) (o : ToolOutcome).

(** A scope held around a piece of work. *)
Inductive Scope :=
| WorkspaceAccess (target : pystr)
| ToolScope | BackendScope | StreamScope
| RevisionScope (revision : option pystr).

(** ** Calls *)

Inductive call : Type -> Type :=
| StopRequested : call bool
| RoundInterruptEpoch : call Z
| RequestStop : call ()
| EmitEvent (e : ToolEvent) : call ()
| MonitorRecord (label status : pystr) : call ()
| GetMonitor : call bool
| GitInvalidate : call ()
| ReadAgent : call AgentInfo
| GetTool (name : pystr) : call (option Tool)
| ActiveToolNames : call (list pystr)
| HasRegisteredTool (name : pystr) : call bool
| IsToolAllowedInMode (name : pystr) : call bool
| SuggestModes (name : pystr) : call (list pystr)
| PreflightValidate (t : Tool) (args : pydict) (schema_only : bool) : call Preflight
| ApprovalSubjects (t : Tool) (args : pydict) : call (option (list pystr))
| ApprovalGrantScopes (t : Tool) (args : pydict) (subjects : list pystr) : call (option (list ApprovalGrantScope))
| ApprovalScopeKey (t : Tool) (session_id : option pystr) : call (option pystr)
| AuthorizeTool (c : BeforeContext) : call (option ToolCall * option (list GuardDecision))
| ExternalPath (t : Tool) (path : pystr) : call (option pystr)
| EnterScope (k : Scope) : call ()
| ExitScope (k : Scope) (e : option exn) : call bool
| CaptureDocument (tool_name : pystr) (args : pydict) : call (option Document)
| DiffDocuments (before after : Document) : call pystr
| ApprovalProvider : call bool
| CustomPreview (t : Tool) (args : pydict) : call (option (option Preview))
| BuildPreview (q : ApprovalRequest) (d : option Document) : call (option Preview)
| RequestApproval (q : ApprovalRequest) : call (option ApprovalDecision)
| ContributeContext (c : BeforeContext) : call (option (option ToolCall * ContextFacts * pydict))
| Observe (p : HookPoint) (facts : ContextFacts) (tc : ToolCall) (o : option ToolOutcome)
    : call (option (list (option HookDiagnostic)))
| HasDocumentGuard : call bool
| ResolvePath (path : pystr) : call pystr
| DocumentGuard (path : pystr) : call pystr
| BindExecution (tool_call_id : pystr) (session_generation : option Z) : call ()
| ToolExecute (t : Tool) (args : pydict) : call (list Chunk * (exn + RawResult))
| StreamObserver (c : Chunk) : call ()
| SyncWorkingDirectory : call ()
| ProcessOutcome (c : AfterContext) : call (option TransformedContext)
| StoreArtifact (tool_call_id tool_name : pystr) (a : ToolArchiveReference) (tr : option ToolTruncation) : call ()
| RecordRuntimeIssue (phase error_type scope : pystr) (count : Z) : call bool.

(** A call with its answer. *)
Inductive event :=
| Ev (A : Type) (c : call A) (r : result A).
Arguments Ev {A} c r.

(** The rest of the program: it answers every call, in its own state. *)
Class Environment (W : Type) := {
  respond : forall A : Type, call A -> stm W A;
  elapsed : W -> Z;
  close_matches : pystr -> list pystr -> list pystr;
}.

(** ** State *)

Record Exec (W : Type) := {
  failures : Collector;
  pre_phase : pystr;
  effect_started : bool;
  primary_error : option exn;
  raw_result : option RawResult;
  execution_seconds : Z;
  scope_error : bool;
  authoritative : option ToolOutcome;
  pending : Collector;
  tape : list event;
  world : W;
}.
Arguments failures {W}. Arguments pre_phase {W}. Arguments effect_started {W}. Arguments primary_error {W}.
Arguments raw_result {W}. Arguments execution_seconds {W}. Arguments scope_error {W}. Arguments authoritative {W}. Arguments pending {W}.
Arguments tape {W}. Arguments world {W}.

(** Sequencing, and sequencing of stages that may return an outcome at once. *)
Definition seq {S A B} (m : stm S A) (k : A -> stm S B) : stm S B := m ≫= k.
Definition stage {S A B R} (m : stm S (R + A)) (k : A -> stm S (R + B)) : stm S (R + B) :=
  seq m (fun r => match r with inl o => mret (inl o) | inr a => k a end).

Declare Scope exec_scope.
Notation "'let!' x := m 'in' k" := (seq m (fun x => k)) (at level 10, x name, k at level 200) : exec_scope.
Notation "'let!' '_' := m 'in' k" := (seq m (fun _ => k)) (at level 10, k at level 200) : exec_scope.
Notation "'let?' x := m 'in' k" := (stage m (fun x => k)) (at level 10, x name, k at level 200) : exec_scope.
Notation "'let?' '_' := m 'in' k" := (stage m (fun _ => k)) (at level 10, k at level 200) : exec_scope.
Open Scope exec_scope.

Section Executor.
Context {W : Type} `{Environment W}.

Abbreviation M := (stm (Exec W)).

(** The local variables of the pipeline. *)
Definition set_locals (c : Collector) (ph : pystr) (started : bool) (s : Exec W) : Exec W :=
  {| failures := c; pre_phase := ph; effect_started := started; primary_error := primary_error s;
     raw_result := raw_result s; execution_seconds := execution_seconds s; scope_error := scope_error s; authoritative := authoritative s;
     pending := pending s; tape := tape s; world := world s |}.
Definition set_execution (e : option exn) (r : option RawResult) (b : bool) (s : Exec W) : Exec W :=
  {| failures := failures s; pre_phase := pre_phase s; effect_started := effect_started s; primary_error := e;
     raw_result := r; execution_seconds := execution_seconds s; scope_error := b; authoritative := authoritative s;
     pending := pending s; tape := tape s; world := world s |}.
Definition set_authoritative (o : option ToolOutcome) (s : Exec W) : Exec W :=
  {| failures := failures s; pre_phase := pre_phase s; effect_started := effect_started s;
     primary_error := primary_error s; raw_result := raw_result s; execution_seconds := execution_seconds s; scope_error := scope_error s; authoritative := o;
     pending := pending s; tape := tape s; world := world s |}.
Definition set_seconds (n : Z) (s : Exec W) : Exec W :=
  {| failures := failures s; pre_phase := pre_phase s; effect_started := effect_started s;
     primary_error := primary_error s; raw_result := raw_result s; execution_seconds := n; scope_error := scope_error s;
     authoritative := authoritative s; pending := pending s; tape := tape s; world := world s |}.
Definition set_pending (c : Collector) (s : Exec W) : Exec W :=
  {| failures := failures s; pre_phase := pre_phase s; effect_started := effect_started s;
     primary_error := primary_error s; raw_result := raw_result s; execution_seconds := execution_seconds s; scope_error := scope_error s;
     authoritative := authoritative s; pending := c; tape := tape s; world := world s |}.
Definition set_world (l : list event) (w : W) (s : Exec W) : Exec W :=
  {| failures := failures s; pre_phase := pre_phase s; effect_started := effect_started s;
     primary_error := primary_error s; raw_result := raw_result s; execution_seconds := execution_seconds s; scope_error := scope_error s;
     authoritative := authoritative s; pending := pending s; tape := l; world := w |}.

Definition set_phase (ph : pystr) : M () := st_modify (fun s => set_locals (failures s) ph (effect_started s) s).
Definition set_failures (f : Collector -> Collector) : M () :=
  st_modify (fun s => set_locals (f (failures s)) (pre_phase s) (effect_started s) s).
Definition get {A} (f : Exec W -> A) : M A := fun s => (Ok (f s), s).
Definition lift {A} (r : result A) : M A := st_lift r.
Definition fail {A} (name : pystr) : M A := lift (Raise (OtherError name)).

Definition ask {A} (c : call A) : M A := fun s =>
  let '(r, w) := respond A c (world s) in (r, set_world (tape s ++ [Ev c r]) w s).

(** What follows a call that returns, or raises. *)
Definition after {A B} (m : M A) (k : A -> M B) (h : exn -> M B) : M B := fun s =>
  match m s with
  | (Ok a, s') => k a s'
  | (Raise e, s') => h e s'
  end.

(** [try: m except BaseException as e: h]. *)
Definition try_ {A} (m : M A) (h : exn -> M A) : M A := after m mret h.

(** ** Failures of secondary processing *)

(** [_request_stop_safely]. *)
Definition request_stop_safely : M () :=
  let noted (e : exn) := set_failures (record $"post_effect" (safe_exception_type e) 1) in
  let! already := try_ (ask StopRequested) (fun e => let! _ := noted e in mret false) in
  if already then mret () else try_ (ask RequestStop) noted.

(** [_capture_post_effect_failure]. *)
Definition capture (ph : pystr) (e : exn) : M () :=
  let! _ := set_failures (record ph (safe_exception_type e) 1) in
  if is_exception e then mret () else request_stop_safely.

(** [try: m except BaseException as error: capture(phase, error)]. *)
Definition secondary (ph : pystr) (m : M ()) : M () := try_ m (capture ph).

(** ** Outcomes of the runtime *)

(** [_pre_effect_failure_outcome]. *)
Definition pre_effect_failure_outcome (ph : pystr) (e : exn) (cancelled : bool) : result ToolOutcome :=
  let et := safe_exception_type e in
  let action := if cancelled then $"interrupted" else $"failed" in
  let message := $"Tool execution " ++ action ++ $" before effects began (phase=" ++ ph ++ $", error_type=" ++ et
    ++ $", effect_state=not_started, completion_state=not_started, retry_safety=safe_to_retry)." in
  o ← told_outcome (if cancelled then CANCELLED else FAILED) ($"Tool pre-execution " ++ action) message []
        (if cancelled then KInterrupted else KInternal);
  with_failure_facts (not_started ph et SAFE) true o.

(** [_pre_effect_denial_outcome]. *)
Definition pre_effect_denial_outcome (message ph et : pystr) : result ToolOutcome :=
  let facts := $"Tool execution denied before effects began (phase=" ++ ph ++ $", error_type=" ++ et
    ++ $", effect_state=not_started)." in
  o ← check_outcome (plain_outcome DENIED (Some $"Tool execution denied") (Some (facts ++ 10 :: 10 :: message)) [] (Some KDenied));
  with_failure_facts (not_started ph et UNSAFE) true o.

(** [_with_pre_effect_facts]. *)
Definition with_pre_effect_facts (ph et : pystr) (o : ToolOutcome) : result ToolOutcome :=
  let fact := $"Tool execution stopped before effects began (phase=" ++ ph ++ $", error_type=" ++ et
    ++ $", effect_state=not_started)." in
  o' ← with_model_projection (fact ++ 10 :: 10 :: model_text o) (truncation o) (archive_reference o) o;
  with_failure_facts (not_started ph et (if decide (status o = DENIED) then UNSAFE else SAFE)) true o'.

(** [_execution_failure_outcome]. *)
Definition execution_failure_outcome (ph : pystr) (e : exn) : result ToolOutcome :=
  let interrupted := is_keyboard_interrupt e in
  let action := if interrupted then $"interrupted" else $"failed" in
  let et := safe_exception_type e in
  let message := $"Tool execution " ++ action ++ $" (phase=" ++ ph ++ $", error_type=" ++ et
    ++ $", effect_state=started, completion_state=uncertain, retry_safety=do_not_retry_automatically). The tool may have produced partial effects; do not retry automatically." in
  o ← told_outcome (if interrupted then CANCELLED else FAILED) ($"Tool execution " ++ action) message []
        (if interrupted then KInterrupted else KExecution);
  with_failure_facts {| phase := ph; error_type := et; effect_state := $"started"; completion_state := $"uncertain";
                        retry_safety := UNSAFE |} true o.

(** The names of [_unknown_tool_outcome] in quotes. *)
Definition suggestion_text (matches : list pystr) : pystr :=
  match matches with
  | [] => []
  | _ => $" Closest available tool" ++ (if len matches =? 1 then [] else $"s") ++ $": "
         ++ join $", " (map repr_str matches) ++ $"."
  end.

Definition unknown_tool_outcome (name : pystr) (matches : list pystr) : result ToolOutcome :=
  let o := plain_outcome FAILED (Some ($"Unknown tool: " ++ name)) (Some ($"Error: unknown tool '" ++ name ++ $"'"))
    [($"preflight_code", VStr $"unknown_tool"); ($"requested_tool", VStr name);
     ($"suggested_tools", VList (map VStr matches))] (Some KNotFound) in
  o ← with_model_projection ($"Tool call rejected [unknown_tool]: '" ++ name ++ $"' is not available." ++ suggestion_text matches
        ++ 10 :: $"Retry only with an exact currently available tool name, or continue without a tool. Do not repeat the unavailable tool call.")
        None None o;
  with_failure_facts (not_started $"tool_lookup" $"UnknownTool" UNSAFE) true o.

(** [sorted({...})] of the names that are not empty. *)
Definition ask_unknown_tool (name : pystr) : M ToolOutcome :=
  let! names := ask ActiveToolNames in
  let available := stable_sort text_leb (remove_dups (filter (fun n => n <> []) names)) in
  lift (unknown_tool_outcome name (close_matches name available)).

(** ** Publication *)

Definition failure_details (tc : ToolCall) (f : fact * Z) : pydict :=
  [($"tool_name", VStr (tc_name tc)); ($"tool_call_id", VStr (tc_id tc)); ($"phase", VStr f.1.1);
   ($"error_type", VStr f.1.2); ($"count", VInt f.2)].

(** [_emit_post_effect_diagnostic]. *)
Definition emit_post_effect_diagnostic (tc : ToolCall) (f : fact * Z) : M () :=
  secondary $"post_effect_diagnostic" (ask (EmitEvent (Diagnostic
    ($"Secondary tool processing failed after the primary outcome was fixed (phase=" ++ f.1.1 ++ $", error_type=" ++ f.1.2
     ++ $", count=" ++ z_str f.2 ++ $").") $"tool.post_effect_failure" (failure_details tc f)))).

(** [_emit_batch_post_effect_diagnostic]. *)
Definition emit_batch_diagnostic (f : fact * Z) (tool_count : Z) : M () :=
  secondary $"post_effect_diagnostic" (ask (EmitEvent (Diagnostic
    ($"Secondary parallel-batch processing failed after all tool outcomes were fixed (phase=" ++ f.1.1 ++ $", error_type=" ++ f.1.2
     ++ $", count=" ++ z_str f.2 ++ $").") $"tool.post_effect_failure"
    [($"scope", VStr $"parallel_batch"); ($"tool_count", VInt tool_count); ($"phase", VStr f.1.1);
     ($"error_type", VStr f.1.2); ($"count", VInt f.2)]))).

(** [_finalize_post_effect_projection]. *)
Definition finalize_post_effect_projection (c : Collector) (o : ToolOutcome) : result ToolOutcome :=
  o ← (if success o then Ok o else
        o ← with_failure_facts {| phase := $"tool_result"; error_type := $"ToolReportedFailure"; effect_state := $"unknown";
                                  completion_state := $"uncertain"; retry_safety := UNSAFE |} false o;
        with_canonical_failure_projection o);
  with_post_effect_failures c o.

Definition finalize (o : ToolOutcome) : M ToolOutcome :=
  let! c := get failures in lift (finalize_post_effect_projection c o).

(** [_publish_post_effect_outcome]. *)
Definition publish_post_effect_outcome (tc : ToolCall) (o : ToolOutcome) : M ToolOutcome :=
  let! published := finalize o in
  try_ (let! _ := ask (EmitEvent (ToolCallEnd (tc_name tc) (model_text published) (tc_id tc) published)) in mret published)
       (fun e => let! _ := capture $"tool_end_event" e in finalize o).

(** ** Retained failures of batches *)

Definition retain_facts (facts : list (fact * Z)) (c : Collector) : Collector :=
  foldl (fun c (f : fact * Z) => if decide (f.1.2 = $"AdditionalFailuresOmitted") then omit f.2 c
                    else record f.1.1 f.1.2 f.2 c) c facts.

(** [_retain_runtime_failures]. *)
Definition retain_runtime_failures (facts : list (fact * Z)) : M () :=
  st_modify (fun s => set_pending (retain_facts facts (pending s)) s).

(** The facts of one error, as a fresh collector gives them. *)
Definition captured_facts (ph : pystr) (e : exn) : M (list (fact * Z)) :=
  let! kept := get failures in
  let! _ := set_failures (fun _ => new_collector POST_EFFECT_FAILURE_LIMIT) in
  let! _ := capture ph e in
  let! facts := get (fun s => snapshot (failures s)) in
  let! _ := set_failures (fun _ => kept) in
  mret facts.

(** [_publish_runtime_failures]: how many were published, and whether one
    failed, in which case it and the later ones are retained. *)
Fixpoint publish_runtime_failures (published : Z) (facts : list (fact * Z)) : M (Z * bool) :=
  match facts with
  | [] => mret (published, false)
  | f :: rest =>
    let! sent := try_ (let! accepted := ask (RecordRuntimeIssue f.1.1 f.1.2 $"parallel_batch" f.2) in
                       if accepted then mret None else mret (Some (OtherError $"MissingRuntimeIssueSink")))
                      (fun e => mret (Some e)) in
    match sent with
    | None => publish_runtime_failures (published + 1) rest
    | Some e =>
      let! _ := retain_runtime_failures facts in
      let! more := captured_facts $"runtime_issue_publish" e in
      let! _ := retain_runtime_failures more in
      mret (published, true)
    end
  end.

(** [_queue_batch_runtime_failure]. *)
Definition queue_batch_runtime_failure (ph : pystr) (e : exn) (tool_count : Z) : M () :=
  let! kept := get failures in
  let! _ := set_failures (fun _ => new_collector POST_EFFECT_FAILURE_LIMIT) in
  let! _ := capture ph e in
  let! first := get (fun s => head (snapshot (failures s))) in
  let! _ := match first with Some f => emit_batch_diagnostic f tool_count | None => mret () end in
  let! facts := get (fun s => snapshot (failures s)) in
  let! _ := set_failures (fun _ => kept) in
  let! _ := publish_runtime_failures 0 facts in
  mret ().

Definition RUNTIME_FAILURE_PUBLISH_ATTEMPTS : nat := 2.

(** [flush_pending_runtime_issues]: the number published, or [None] when the
    turn must stop. *)
Fixpoint flush_attempts (n : nat) (published : Z) : M (option Z) :=
  match n with
  | O =>
    let! kept := get failures in
    let! _ := set_failures (fun _ => new_collector POST_EFFECT_FAILURE_LIMIT) in
    let! _ := request_stop_safely in
    let! facts := get (fun s => snapshot (failures s)) in
    let! _ := set_failures (fun _ => kept) in
    let! _ := retain_runtime_failures facts in
    mret None
  | S n =>
    let! facts := get (fun s => snapshot (pending s)) in
    let! _ := st_modify (fun s => set_pending (clear (pending s)) s) in
    match facts with
    | [] => mret (Some published)
    | _ =>
      let! r := publish_runtime_failures 0 facts in
      if r.2 then flush_attempts n (published + r.1) else mret (Some (published + r.1))
    end
  end.
Definition flush_pending_runtime_issues : M (option Z) := flush_attempts RUNTIME_FAILURE_PUBLISH_ATTEMPTS 0.

(** ** Scopes *)

(** [try: m finally: f], where [f] learns whether [m] raised. *)
Definition finishing {A} (m : M A) (f : bool -> M ()) : M A :=
  after m (fun a => let! _ := f false in mret a) (fun e => let! _ := f true in lift (Raise e)).

Definition note_scope_error (e : exn) : M bool :=
  let! _ := st_modify (fun s => set_execution (primary_error s) (raw_result s) true s) in lift (Raise e).

(** [with scope: m]: [None] when the scope suppressed an exception. *)
Definition scoped {A} (k : Scope) (m : M A) : M (option A) :=
  let! _ := ask (EnterScope k) in
  after m
    (fun a => let! _ := try_ (ask (ExitScope k None)) note_scope_error in mret (Some a))
    (fun e => let! suppressed := try_ (ask (ExitScope k (Some e))) note_scope_error in
              if suppressed then mret None else lift (Raise e)).

Fixpoint nested {A} (ks : list Scope) (m : M A) : M (option A) :=
  match ks with
  | [] => let! a := m in mret (Some a)
  | k :: ks => let! r := scoped k (nested ks m) in mret (match r with Some (Some a) => Some a | _ => None end)
  end.

(** [_workspace_access_scope]; the workspace's scope suppresses nothing. *)
Definition with_access {A} (target : option pystr) (m : M A) : M A :=
  match target with
  | None => m
  | Some p =>
    let! _ := ask (EnterScope (WorkspaceAccess p)) in
    after m
      (fun a => let! _ := try_ (ask (ExitScope (WorkspaceAccess p) None)) note_scope_error in mret a)
      (fun e => let! _ := try_ (ask (ExitScope (WorkspaceAccess p) (Some e))) note_scope_error in lift (Raise e))
  end.

(** ** The stages before approval *)

Definition deny {A} (message ph et : pystr) : M (ToolOutcome + A) :=
  let! o := lift (pre_effect_denial_outcome message ph et) in mret (inl o).

Definition mode_name (a : AgentInfo) : pystr := or_empty (opt_or (active_mode a) (Some $"default")).

Definition unavailable (name mode : pystr) : pystr :=
  $"Tool '" ++ name ++ $"' is not available in current mode '" ++ mode ++ $"'".

(** The check of an interruption since the round began. *)
Definition initial_cancel_check (tc : ToolCall) (baseline : option Z) : M (ToolOutcome + ()) :=
  match baseline with
  | None => mret (inr ())
  | Some b =>
    let! stop := ask StopRequested in
    let! interrupted := (if stop then mret true else let! n := ask RoundInterruptEpoch in mret (b <? n)) in
    if negb interrupted then mret (inr ())
    else
      let! n := ask RoundInterruptEpoch in
      let! steering := (if b <? n then let! stop := ask StopRequested in mret (negb stop) else mret false) in
      let reason := if steering then $"user steering" else $"turn cancellation" in
      let! o := lift (cancelled_before_outcome (tc_name tc) $"initial_cancel_check"
        ($"Tool execution interrupted before execution (" ++ reason
         ++ $"; phase=initial_cancel_check, error_type=ToolExecutionCancelled, effect_state=not_started, completion_state=not_started, retry_safety=safe_to_retry).")) in
      mret (inl o)
  end.

Inductive Resolved := Unresolved | ResolvedTool (t : option Tool).

(** Finding the tool; [None] is not registered, or not for this mode. *)
Definition resolve_tool (tc : ToolCall) (resolved : Resolved) (resolution_error : option exn) : M (ToolOutcome + Tool) :=
  let! _ := set_phase $"tool_lookup" in
  let! _ := match resolution_error with Some e => lift (Raise e) | None => mret () end in
  let! found := match resolved with Unresolved => ask (GetTool (tc_name tc)) | ResolvedTool t => mret t end in
  let! _ := set_phase $"tool_scope" in
  match found with
  | Some t => mret (inr t)
  | None =>
    let! registered := ask (HasRegisteredTool (tc_name tc)) in
    let! allowed := (if registered then ask (IsToolAllowedInMode (tc_name tc)) else mret true) in
    if negb allowed then
      let! a := ask ReadAgent in
      deny (unavailable (tc_name tc) (mode_name a)) $"mode_policy" $"ToolModeDenied"
    else let! o := ask_unknown_tool (tc_name tc) in mret (inl o)
  end.

Definition check_mode (tc : ToolCall) : M (ToolOutcome + ()) :=
  let! _ := set_phase $"mode_policy" in
  let! allowed := ask (IsToolAllowedInMode (tc_name tc)) in
  if allowed then mret (inr ())
  else
    let! a := ask ReadAgent in
    let! suggested := ask (SuggestModes (tc_name tc)) in
    let message := unavailable (tc_name tc) (mode_name a) in
    deny (match suggested with
          | [] => message
          | _ => message ++ $". Ask user to switch mode first: " ++ join $", " (map (fun n => $"/mode switch " ++ n) suggested)
          end) $"mode_policy" $"ToolModeDenied".

(** [_validated_preflight_failure]. *)
Definition validated_preflight_failure (p : Preflight) : result (option ToolOutcome) :=
  let invalid := OtherError $"InvalidPreflightResult" in
  match p with
  | PreflightPassed => Ok None
  | PreflightOther => Raise invalid
  | PreflightOutcome o =>
    match normalize_tool_outcome o with
    | Raise _ => Raise invalid
    | Ok o => if success o then Raise invalid else Ok (Some o)
    end
  end.

(** A preflight, which stops the call with the tool's own failure. *)
Definition preflight (t : Tool) (tc : ToolCall) (schema_only : bool) (target : option pystr) (ph : pystr)
    : M (ToolOutcome + ()) :=
  let! _ := set_phase ph in
  let! failure := with_access target (let! p := ask (PreflightValidate t (arguments tc) schema_only) in
                                      lift (validated_preflight_failure p)) in
  match failure with
  | None => mret (inr ())
  | Some o => let! o := lift (with_pre_effect_facts ph $"ToolPreflightRejected" o) in mret (inl o)
  end.

Definition approval_subjects_of (t : Tool) (tc : ToolCall) : M (list pystr) :=
  let! _ := set_phase $"approval_subjects" in
  if negb (has_approval_subjects t) then mret []
  else
    let! built := ask (ApprovalSubjects t (arguments tc)) in
    match built with
    | Some l => if existsb (fun s => bool_decide (strip s = [])) l || negb (bool_decide (NoDup l))
                then fail $"InvalidApprovalSubjectsResult" else mret l
    | None => fail $"InvalidApprovalSubjectsResult"
    end.

Definition approval_scope_of (t : Tool) : M pystr :=
  let! _ := set_phase $"approval_scope" in
  let! a := ask ReadAgent in
  let! key := ask (ApprovalScopeKey t (session_id (a_facts a))) in
  match key with Some ((_ :: _) as k) => mret k | _ => fail $"InvalidApprovalScopeResult" end.

Definition authorization_context (t : Tool) (tc : ToolCall) (subjects : list pystr) (scope_key : pystr) : M BeforeContext :=
  let! _ := set_phase $"authorization_context" in
  let! a := ask ReadAgent in
  mret {| b_facts := a_facts a; b_tool_call := tc;
          b_metadata := [($"tool_source", t_source t); ($"mcp_server", t_server_name t);
            ($"tool_description", t_description t); ($"tool_schema", t_parameters t);
            ($"effect_class", t_effect_class t); ($"profile", t_profile t);
            ($"approval_subjects", VList (map VStr subjects)); ($"approval_scope_key", VStr scope_key)] |}.

(** The call an extension left in its copy of the context is still the call. *)
Definition unchanged_call (tc : ToolCall) (left_ : option ToolCall) (e : exn) : result () :=
  tc' ← option_result left_ InvalidContextContributionResult;
  tc' ← tool_call_signature tc';
  tc ← tool_call_signature tc;
  raise_if (negb (same_call tc' tc)) e.

Fixpoint emit_guard_warnings (tc : ToolCall) (ds : list GuardDecision) : M () :=
  match ds with
  | [] => mret ()
  | d :: ds =>
    let! _ := match g_warning d with
              | Some ((_ :: _) as w) =>
                secondary $"guard_warning_observer" (ask (EmitEvent (Diagnostic w $"tool.guard_warning"
                  [($"tool_name", VStr (tc_name tc)); ($"tool_call_id", VStr (tc_id tc))])))
              | _ => mret ()
              end in
    emit_guard_warnings tc ds
  end.

(** The guards; every one must allow the call. *)
Definition authorize (tc : ToolCall) (c : BeforeContext) : M (ToolOutcome + list GuardDecision) :=
  let! _ := set_phase $"authorize" in
  let! answer := ask (AuthorizeTool c) in
  let! _ := lift (unchanged_call tc answer.1 (OtherError $"InvalidAuthorizationResult")) in
  let! ds := lift (option_result answer.2 (OtherError $"InvalidAuthorizationResult")) in
  match list_find (fun d => allowed d = false) ds with
  | Some (_, d) => deny (or_empty (opt_or (g_reason d) (Some ($"Tool '" ++ tc_name tc ++ $"' blocked by guard hook"))))
                     $"authorize" $"ToolAuthorizationDenied"
  | None => let! _ := emit_guard_warnings tc ds in mret (inr ds)
  end.

Definition EXTERNAL_PATH_ARGUMENTS : list (pystr * pystr) :=
  [($"edit_file", $"file_path"); ($"glob", $"path"); ($"grep", $"path"); ($"list_file", $"path"); ($"lsp", $"filePath");
   ($"read_file", $"file_path"); ($"write_file", $"file_path")].
Definition EXTERNAL_MUTATION_TOOLS : list pystr := [$"edit_file"; $"write_file"].

(** [_external_workspace_target]. *)
Definition external_workspace_target (t : Tool) (args : pydict) : M (option pystr) :=
  match assoc_get EXTERNAL_PATH_ARGUMENTS (t_name t) with
  | None => mret None
  | Some argument =>
    if negb (has_external_paths t) then mret None
    else match dget_or args argument (VStr $".") with
         | VStr ((_ :: _) as p) => ask (ExternalPath t p)
         | _ => mret None
         end
  end.

(** ** Approval *)

(** [_approval_grant_candidates]. *)
Definition candidate_rules (tool_name tool_source : pystr) (mcp_server profile : option pystr) (scope_key : pystr)
    (s : ApprovalGrantScope) : list ApprovalRuleConfig :=
  map (fun p => {| r_tool_name := Some tool_name; r_tool_source := Some tool_source; r_mcp_server := mcp_server;
                   r_effect_class := None; r_profile := profile; pattern := p; r_scope_key := Some scope_key;
                   r_action := allow |})
      (match patterns s with [] => [None] | l => map Some l end).

Fixpoint scope_candidates (rules : ApprovalGrantScope -> list ApprovalRuleConfig) (scope_key : pystr) (seen : list pystr)
    (l : list ApprovalGrantScope) : result (list ApprovalGrantCandidate) :=
  match l with
  | [] => Ok []
  | s :: l =>
    if bool_decide (strip (scope_id s) = []) || bool_decide (scope_id s ∈ seen) || bool_decide (strip (label s) = [])
       || existsb (fun p => bool_decide (p = [])) (patterns s)
    then Raise (OtherError $"InvalidApprovalScopeResult")
    else
      rest ← scope_candidates rules scope_key (scope_id s :: seen) l;
      Ok ({| grant_id := scope_id s; proposed_rules := rules s; grant_scope_key := Some scope_key;
             broad := scope_broad s |} :: rest)
  end.

Definition mcp_scope (tc : ToolCall) (mcp_server : option pystr) : ApprovalGrantScope :=
  {| scope_id := $"exact_tool"; label := $"This MCP tool";
     description := match mcp_server with Some ((_ :: _) as m) => m ++ $" · " ++ tc_name tc | _ => tc_name tc end;
     patterns := []; scope_broad := false |}.

Definition approval_grant_candidates (t : Tool) (tc : ToolCall) (tool_source : pystr) (mcp_server profile : option pystr)
    (subjects : list pystr) (scope_key : pystr) : M (list ApprovalGrantCandidate) :=
  let! raw := (if has_approval_grant_scopes t then ask (ApprovalGrantScopes t (arguments tc) subjects) else mret (Some [])) in
  let! scopes := lift (option_result raw (OtherError $"InvalidApprovalScopeResult")) in
  let scopes := match scopes with
                | [] => if decide (tool_source = $"mcp") then [mcp_scope tc mcp_server] else []
                | l => l
                end in
  lift (scope_candidates (candidate_rules (tc_name tc) tool_source mcp_server profile scope_key) scope_key [] scopes).

Definition optional_text (v : pyval) : option pystr := match v with VNone => None | _ => Some (py_str v) end.

(** The request shown to the user, before its preview. *)
Definition approval_request (t : Tool) (tc : ToolCall) (c : BeforeContext) (a : AgentInfo) (subjects : list pystr)
    (scope_key : pystr) (candidates : list ApprovalGrantCandidate) (required : GuardDecision) (external : option pystr)
    (external_mutation changed : bool) (attempt : Z) : ApprovalRequest :=
  {| q_tool_name := tc_name tc; q_tool_args := arguments tc;
     q_tool_source := py_str (py_or (dget_none (b_metadata c) $"tool_source") (VStr $"unknown"));
     q_mcp_server := optional_text (dget_none (b_metadata c) $"mcp_server");
     q_reason :=
       match external_mutation, dget_none (arguments tc) $"reason" with
       | false, VStr r => Some (strip r)
       | _, _ => g_reason required
       end;
     q_effect_class := dget_none (b_metadata c) $"effect_class";
     q_profile := optional_text (dget_none (b_metadata c) $"profile");
     q_subjects := subjects; q_scope_key := scope_key; q_grant_candidates := candidates;
     q_metadata :=
       [ ($"agent_id", of_optional_str (agent_id (a_facts a)));
         ($"session_generation", match session_generation (a_facts a) with Some n => VInt n | None => VNone end);
         ($"turn_id", of_optional_str (turn_id (a_facts a))); ($"tool_call_id", VStr (tc_id tc));
         ($"approval_attempt", VInt attempt); ($"workspace_changed_during_approval", VBool changed);
         ($"invocation_reason", dget_none (arguments tc) $"reason"); ($"policy_reason", of_optional_str (g_reason required));
         ($"is_subagent", VBool (truthy (subagent_job_id a))); ($"subagent_job_id", subagent_job_id a);
         ($"subagent_mode", subagent_mode a); ($"subagent_task", subagent_task a);
         ($"external_workspace_path", of_optional_str external);
         ($"workspace_root", match external with Some _ => VStr (workspace_root t) | None => VNone end);
         ($"force_human_review", VBool external_mutation);
         ($"approval_subjects", VList (map VStr subjects)) ];
     q_preview := None |}.

Definition with_preview (metadata : pydict) (p : option Preview) (q : ApprovalRequest) : ApprovalRequest :=
  {| q_tool_name := q_tool_name q; q_tool_args := q_tool_args q; q_tool_source := q_tool_source q;
     q_mcp_server := q_mcp_server q; q_reason := q_reason q; q_effect_class := q_effect_class q;
     q_profile := q_profile q; q_subjects := q_subjects q; q_scope_key := q_scope_key q;
     q_grant_candidates := q_grant_candidates q; q_metadata := metadata; q_preview := p |}.

Definition approval_operation (name : pystr) (before : option Document) (m : pydict) : pydict :=
  match before with
  | Some d => if decide (name = $"write_file")
              then dset m $"approval_operation" (VStr (if doc_missing d then $"Create file" else $"Overwrite file")) else
              if decide (name = $"edit_file") then dset m $"approval_operation" (VStr $"Edit file") else
              if decide (name = $"shell") then dset m $"approval_operation" (VStr $"Run command") else m
  | None => if decide (name = $"edit_file") then dset m $"approval_operation" (VStr $"Edit file") else
            if decide (name = $"shell") then dset m $"approval_operation" (VStr $"Run command") else m
  end.

(** The document as it is now, and the request with its preview. *)
Definition preview_request (t : Tool) (q : ApprovalRequest) : M (option Document * ApprovalRequest) :=
  let! before := ask (CaptureDocument (q_tool_name q) (q_tool_args q)) in
  let m := approval_operation (q_tool_name q) before (q_metadata q) in
  let! custom := (if has_approval_preview t then ask (CustomPreview t (q_tool_args q)) else mret (Some None)) in
  let! p := match custom with
            | None => mret None
            | Some (Some p) => mret (Some p)
            | Some None => ask (BuildPreview (with_preview m None q) before)
            end in
  match p with
  | Some p => mret (before, with_preview m (Some p) q)
  | None => fail $"InvalidApprovalPreview"
  end.

(** The question to the user, with its wait measured. *)
Definition request_decision (q : ApprovalRequest) : M (option ApprovalDecision) :=
  let! monitor := try_ (ask GetMonitor) (fun e => let! _ := capture $"approval_monitor" e in mret false) in
  finishing (ask (RequestApproval q)) (fun raised =>
    if negb monitor then mret ()
    else secondary $"approval_monitor" (ask (MonitorRecord $"approval_wait" (if raised then $"error" else $"ok")))).

Definition valid_decision (d : option ApprovalDecision) : result ApprovalDecision :=
  let invalid := OtherError $"InvalidApprovalDecisionResult" in
  d ← option_result d invalid;
  if negb (bool_decide (d_mode d ∈ [$"allow_once"; $"allow_session"; $"deny_once"]))
     || (bool_decide (d_mode d = $"allow_session") && bool_decide (d_grant d = None))
  then Raise invalid else Ok d.

Inductive Review :=
| Settled (d : ApprovalDecision) (q : ApprovalRequest) (revision : option pystr) (changes : list pystr)
| Unstable.

(** What the attempts of one review share. *)
Record ReviewContext := {
  r_tool : Tool; r_call : ToolCall; r_before : BeforeContext; r_subjects : list pystr; r_scope : pystr;
  r_required : GuardDecision; r_external : option pystr; r_mutation : bool;
}.

(** One question: the decision, and the documents before and after it. *)
Definition ask_once (x : ReviewContext) (changed : bool) (attempt : Z)
    : M (ApprovalDecision * ApprovalRequest * option Document) :=
  let metadata_of k := dget_none (b_metadata (r_before x)) k in
  let! _ := set_phase $"approval_scope" in
  let! candidates := approval_grant_candidates (r_tool x) (r_call x)
      (py_str (py_or (metadata_of $"tool_source") (VStr $"unknown"))) (optional_text (metadata_of $"mcp_server"))
      (optional_text (metadata_of $"profile")) (r_subjects x) (r_scope x) in
  let candidates := if r_mutation x then filter (fun g => broad g = false) candidates else candidates in
  let! _ := set_phase $"approval_request" in
  let! a := ask ReadAgent in
  let q := approval_request (r_tool x) (r_call x) (r_before x) a (r_subjects x) (r_scope x) candidates (r_required x)
             (r_external x) (r_mutation x) changed attempt in
  let! _ := set_phase $"approval_preview" in
  let! previewed := with_access (r_external x) (preview_request (r_tool x) q) in
  let! _ := set_phase $"approval_provider" in
  let! d := request_decision previewed.2 in
  let! _ := set_phase $"approval_decision" in
  let! d := lift (valid_decision d) in
  mret (d, previewed.2, previewed.1).

Definition same_documents (a b : option Document) : bool :=
  match a, b with
  | None, None => true
  | Some a, Some b => same_document a b
  | _, _ => false
  end.

(** The attempts: an approval of a document that changed meanwhile is asked
    again, with a fresh preview. *)
Fixpoint review (x : ReviewContext) (n : nat) (attempt : Z) (revision : option pystr) (changes : list pystr) : M Review :=
  match n with
  | O => mret Unstable
  | S n =>
    let! answer := ask_once x (negb (bool_decide (changes = []))) attempt in
    let '(d, q, before) := answer in
    if negb (approved d) then mret (Settled d q revision changes)
    else
      let! _ := set_phase $"approval_revalidation" in
      let! after := with_access (r_external x) (ask (CaptureDocument (q_tool_name q) (q_tool_args q))) in
      if same_documents before after
      then mret (Settled d q (match after with Some a => Some (doc_revision a) | None => revision end) changes)
      else
        let! changes := match before, after with
                        | Some b, Some a => let! diff := ask (DiffDocuments b a) in mret (changes ++ [diff])
                        | _, _ => mret changes
                        end in
        review x n (attempt + 1) revision changes
  end.

Definition APPROVAL_ATTEMPTS : nat := 3.

(** What approval leaves for the execution. *)
Record Approval := { reviewed_diff : option pystr; expected_revision : option pystr; workspace_changes : list pystr }.

Definition unstable_outcome (tc : ToolCall) : result ToolOutcome :=
  o ← check_outcome (plain_outcome FAILED None (Some
    ($"Tool execution failed before effects began (phase=approval_revalidation, error_type=ApprovalTargetUnstable, effect_state=not_started)."
     ++ 10 :: 10 :: $"Tool '" ++ tc_name tc ++ $"' target kept changing during approval; retry after editor changes settle")) [] (Some KExecution));
  with_failure_facts (not_started $"approval_revalidation" $"ApprovalTargetUnstable" SAFE) true o.

Definition interrupted_outcome (tc : ToolCall) (e : exn) : result ToolOutcome :=
  o ← check_outcome (plain_outcome CANCELLED None (Some ($"Tool '" ++ tc_name tc ++ $"' approval interrupted by user")) []
        (Some KInterrupted));
  with_failure_facts (not_started $"approval_provider"
    (if is_keyboard_interrupt e then $"ApprovalInterrupted" else $"ApprovalInputClosed") SAFE) true o.

Definition is_input_closed (e : exn) : bool := bool_decide (type_name e = $"EOFError").

(** The first diff that was shown. *)
Definition shown_diff (q : ApprovalRequest) : option pystr :=
  match q_preview q with
  | Some p => snd ∘ snd <$> list_find (fun s : bool * pystr => s.1 = true) (sections p)
  | None => None
  end.

(** Asking the user, when a guard or an external target requires it. *)
Definition obtain_approval (x : ReviewContext) (revision : option pystr) : M (ToolOutcome + Approval) :=
  let tc := r_call x in
  let! _ := set_phase $"approval_provider" in
  let! provider := ask ApprovalProvider in
  if negb provider then
    deny (or_empty (opt_or (g_reason (r_required x))
            (Some ($"Tool '" ++ tc_name tc ++ $"' requires approval, but no approval provider is configured"))))
      $"approval_provider" $"ApprovalProviderUnavailable"
  else
    let? r := try_ (let! r := review x APPROVAL_ATTEMPTS 0 revision [] in
                    match r with
                    | Unstable => let! o := lift (unstable_outcome tc) in mret (inl o)
                    | Settled _ _ _ _ => mret (inr r)
                    end)
                   (fun e => if is_keyboard_interrupt e || is_input_closed e
                             then let! o := lift (interrupted_outcome tc e) in mret (inl o)
                             else lift (Raise e)) in
    match r with
    | Unstable => let! o := lift (unstable_outcome tc) in mret (inl o)
    | Settled d q revision changes =>
      let! _ := set_phase $"approval_decision" in
      if negb (approved d) then
        deny (or_empty (opt_or (d_reason d) (Some ($"Tool '" ++ tc_name tc ++ $"' denied by approval provider"))))
          $"approval_decision" $"ApprovalDenied"
      else
        let result := {| reviewed_diff := if d_reviewed d then shown_diff q else None; expected_revision := revision;
                         workspace_changes := changes |} in
        if r_mutation x then
          let? _ := preflight (r_tool x) tc false (r_external x) $"post_approval_preflight" in mret (inr result)
        else mret (inr result)
    end.

Definition external_approval (target : pystr) : GuardDecision :=
  {| allowed := true;
     g_reason := Some ($"Target is outside the workspace. Approval grants this tool call access to one exact file only: " ++ target);
     g_warning := None; requires_approval := true |}.

(** The environment of the call and, when it is required, its approval. *)
Definition approve (t : Tool) (tc : ToolCall) (before : BeforeContext) (subjects : list pystr) (scope_key : pystr)
    (guards : list GuardDecision) (external : option pystr) : M (ToolOutcome + Approval) :=
  let external_mutation := match external with Some _ => bool_decide (tc_name tc ∈ EXTERNAL_MUTATION_TOOLS) | None => false end in
  let! _ := set_phase $"tool_environment" in
  let? revision := (if external_mutation then mret (inr None)
                    else
                      let? _ := preflight t tc false external $"environment_preflight" in
                      let! _ := set_phase $"document_snapshot" in
                      let! document := with_access external (ask (CaptureDocument (tc_name tc) (arguments tc))) in
                      mret (inr (doc_revision <$> document))) in
  let! _ := set_phase $"approval_policy" in
  let required := match external_mutation, external with
                  | true, Some target => Some (external_approval target)
                  | _, _ => snd <$> list_find (fun d => requires_approval d = true) guards
                  end in
  match required with
  | None => mret (inr {| reviewed_diff := None; expected_revision := revision; workspace_changes := [] |})
  | Some required =>
    obtain_approval {| r_tool := t; r_call := tc; r_before := before; r_subjects := subjects; r_scope := scope_key;
                       r_required := required; r_external := external; r_mutation := external_mutation |} revision
  end.

(** ** The last steps before effects *)

Definition record_observer (p : HookPoint) (ph : pystr) (diagnostics : option (list (option HookDiagnostic))) : M () := fun s =>
  let '(r, c) := record_hook_diagnostics p ph diagnostics (failures s) in
  (r, set_locals c (pre_phase s) (effect_started s) s).

(** [contribute_tool_context] and the observers before the call. *)
Definition contribute (tc : ToolCall) (before : BeforeContext) : M () :=
  let! _ := set_phase $"context_contribution" in
  let! contributed := ask (ContributeContext before) in
  let invalid := InvalidContextContributionResult in
  let! c := lift (option_result contributed invalid) in
  let '(left_, facts, _) := c in
  let! _ := lift (unchanged_call tc left_ invalid) in
  let! _ := set_phase $"before_execute_observer" in
  secondary $"before_execute_observer"
    (let! diagnostics := ask (Observe BEFORE_TOOL_EXECUTE facts tc None) in
     record_observer BEFORE_TOOL_EXECUTE $"before_execute_observer" diagnostics).

Definition final_checks (t : Tool) (tc : ToolCall) (external : option pystr) : M (ToolOutcome + ()) :=
  let! _ := set_phase $"context_result" in
  let! _ := lift (unchanged_call tc (Some tc) (OtherError $"InvalidAuthorizationResult")) in
  let! _ := set_phase $"final_cancel_check" in
  let! stop := ask StopRequested in
  if stop then
    let! o := lift (cancelled_before_outcome (tc_name tc) $"final_cancel_check"
      ($"Tool '" ++ tc_name tc ++ $"' cancelled before execution (phase=final_cancel_check, error_type=ToolExecutionCancelled, effect_state=not_started, completion_state=not_started, retry_safety=safe_to_retry).")) in
    mret (inl o)
  else
    let! guarded := ask HasDocumentGuard in
    if guarded && bool_decide (tc_name tc ∈ [$"edit_file"; $"write_file"]) && has_workspace t then
      let! _ := set_phase $"editor_document_check" in
      let! blocked := with_access external
        (match dget (arguments tc) $"file_path" with
         | None => lift (Raise (KeyError $"file_path"))
         | Some (VStr p) => let! resolved := ask (ResolvePath p) in ask (DocumentGuard resolved)
         | Some _ => lift (Raise (TypeError $"path must be a string"))
         end) in
      match blocked with
      | [] => mret (inr ())
      | reason => deny reason $"editor_document_check" $"UnsavedEditorChanges"
      end
    else mret (inr ()).

(** ** Effects *)

(** [stream_handler]. *)
Definition stream_chunk (t : Tool) (tc : ToolCall) (c : Chunk) : M () :=
  let! _ := secondary $"stream_event" (ask (EmitEvent (OutputDelta (chunk_tool c) (terminal_safe_display (chunk_data c))
                                                        (chunk_stream c) (tc_id tc)))) in
  if has_stream_observer t then secondary $"stream_observer" (ask (StreamObserver c)) else mret ().

Fixpoint stream_chunks (t : Tool) (tc : ToolCall) (l : list Chunk) : M () :=
  match l with [] => mret () | c :: l => let! _ := stream_chunk t tc c in stream_chunks t tc l end.

(** [tool.execute] with the arguments, from the point where effects may begin. *)
Definition call_tool (t : Tool) (tc : ToolCall) : M () :=
  let! _ := st_modify (fun s => set_locals (failures s) $"execute" true s) in
  let! answer := try_ (ask (ToolExecute t (arguments tc))) (fun e => mret ([], inl e)) in
  let! _ := stream_chunks t tc answer.1 in
  match answer.2 with
  | inl e =>
    let! _ := st_modify (fun s => set_execution (Some e) (raw_result s) (scope_error s) s) in lift (Raise e)
  | inr raw => st_modify (fun s => set_execution (primary_error s) (Some raw) (scope_error s) s)
  end.

Definition execution_scopes (t : Tool) (revision : option pystr) : list Scope :=
  (if has_execution_scope t then [ToolScope] else []) ++ (if has_cancellation_scope t then [BackendScope] else [])
  ++ (if has_stream_handler_scope t then [StreamScope] else [])
  ++ (if has_workspace_revision_scope t then [RevisionScope revision] else []).

(** The call inside its scopes; what it returned, or its own exception, wins
    over anything the scopes do. *)
Definition run_in_scopes (t : Tool) (tc : ToolCall) (revision external : option pystr) : M () :=
  let! _ := try_
    (let! _ := nested (execution_scopes t revision)
       (let! _ := (if has_bind_execution t
                   then let! a := ask ReadAgent in ask (BindExecution (tc_id tc) (session_generation (a_facts a)))
                   else mret ()) in
        with_access external (call_tool t tc)) in
     mret ())
    (fun e =>
       let! primary := get primary_error in
       let! raised := get scope_error in
       let! raw := get raw_result in
       match primary with
       | Some p =>
         let! _ := (if raised then capture $"execution_cleanup" e else mret ()) in lift (Raise p)
       | None => match raw with None => lift (Raise e) | Some _ => capture $"execution_cleanup" e end
       end) in
  let! primary := get primary_error in
  match primary with Some p => lift (Raise p) | None => mret () end.

Definition is_effectful (t : Tool) (tc : ToolCall) : bool :=
  match t_effect_class t with VStr c => bool_decide (c ∈ [$"filesystem_mutation"; $"process_execution"]) | _ => false end
  || bool_decide (tc_name tc = $"shell_session").

Definition run_tool (t : Tool) (tc : ToolCall) (revision external : option pystr) : M () :=
  finishing (run_in_scopes t tc revision external) (fun _ =>
    let! _ := st_modify (fun s => set_seconds (elapsed (world s)) s) in
    let! _ := secondary $"execute_monitor" (ask (MonitorRecord $"execute" $"ok")) in
    if is_effectful t tc then secondary $"git_invalidate" (ask GitInvalidate) else mret ()).

(** ** Secondary processing *)

(** A change of the outcome that is dropped when it raises. *)
Definition enrich (ph : pystr) (m : M ToolOutcome) (o : ToolOutcome) : M ToolOutcome :=
  try_ (let! o' := m in let! _ := st_modify (set_authoritative (Some o')) in mret o')
       (fun e => let! _ := capture ph e in let! _ := st_modify (set_authoritative (Some o)) in mret o).

Definition changed_notice (changes : list pystr) : pystr :=
  let report := join [10; 10] (filter (fun c => c <> []) changes) in
  $"[workspace changed while approval was pending; preview was refreshed]"
  ++ match report with [] => [] | r => 10 :: r end.

Definition note_changes (changes : list pystr) (o : ToolOutcome) : M ToolOutcome :=
  match changes with
  | [] => mret o
  | _ => enrich $"approval_projection" (lift (
      o' ← with_model_projection (model_text o ++ 10 :: 10 :: changed_notice changes) (truncation o) (archive_reference o) o;
      replace_metadata (dset (metadata o) $"workspace_changed_during_approval" (VBool true)) o')) o
  end.

Definition mark_reviewed (reviewed : option pystr) (o : ToolOutcome) : result ToolOutcome :=
  match reviewed, diff o with
  | Some shown, Some d =>
    if decide (unified d = shown) then replace_metadata (dset (metadata o) $"diff_reviewed" (VBool true)) o else Ok o
  | _, _ => Ok o
  end.

Definition transform (tc : ToolCall) (facts : ContextFacts) (reviewed : option pystr) (o : ToolOutcome) : M ToolOutcome :=
  enrich $"after_tool_transform"
    (let! t := ask (ProcessOutcome {| x_facts := facts; x_tool_call := tc; x_result := model_text o; x_outcome := o |}) in
     lift (o ← accepted_after_transform facts tc o t; mark_reviewed reviewed o)) o.

Definition observe_after (tc : ToolCall) (facts : ContextFacts) (o : ToolOutcome) : M () :=
  secondary $"after_tool_observer"
    (let! diagnostics := ask (Observe AFTER_TOOL_EXECUTE facts tc (Some o)) in
     record_observer AFTER_TOOL_EXECUTE $"after_tool_observer" diagnostics).

Definition store_artifact (tc : ToolCall) (o : ToolOutcome) : M () :=
  match archive_reference o with
  | Some a => secondary $"artifact_ledger" (ask (StoreArtifact (tc_id tc) (tc_name tc) a (truncation o)))
  | None => mret ()
  end.

(** Everything after the tool has returned. *)
Definition after_return (tc : ToolCall) (p : Approval) : M ToolOutcome :=
  let! raw := get raw_result in
  let! seconds := get execution_seconds in
  let! o := lift (coerce_returned_outcome (default RawOther raw) seconds) in
  let! _ := st_modify (set_authoritative (Some o)) in
  let! o := note_changes (workspace_changes p) o in
  let! _ := secondary $"working_directory_sync" (ask SyncWorkingDirectory) in
  let! after := try_ (let! a := ask ReadAgent in mret (Some (a_facts a)))
                     (fun e => let! _ := capture $"after_tool_context" e in mret None) in
  let! o := match after with
            | None => mret o
            | Some facts =>
              let! o := transform tc facts (reviewed_diff p) o in
              let! _ := observe_after tc facts o in
              mret o
            end in
  let! _ := store_artifact tc o in
  mret o.

(** An exception that reaches the end of the execution: the result the tool
    returned is kept when there is one. *)
Definition is_result_error (e : exn) : bool :=
  bool_decide (type_name e ∈ [$"InvalidToolOutcomeProtocol"; $"InvalidToolResultProjection"]).

Definition keep_result (e : exn) : M ToolOutcome :=
  let! kept := get authoritative in
  let! raw := get raw_result in
  let returned := bool_decide (is_Some raw) in
  let result_failure := returned && (is_result_error e || (bool_decide (kept = None) && negb (is_exception e))) in
  let! kept := match kept, raw with
               | None, Some r =>
                 if result_failure then let! o := lift (completed_result_failure e) in mret (Some o)
                 else
                   let! seconds := get execution_seconds in
                   try_ (let! o := lift (coerce_returned_outcome r seconds) in mret (Some o))
                        (fun e2 => let! _ := (if is_exception e2 then mret () else request_stop_safely) in
                                   let! o := lift (completed_result_failure e2) in mret (Some o))
               | _, _ => mret kept
               end in
  match kept with
  | Some o => let! _ := (if result_failure then mret () else capture $"post_effect" e) in mret o
  | None => let! ph := get pre_phase in lift (execution_failure_outcome ph e)
  end.

Definition settle_execution_error (e : exn) : M ToolOutcome :=
  let! started := get effect_started in
  if negb started then lift (Raise e)
  else let! _ := (if is_exception e then mret () else request_stop_safely) in keep_result e.

Definition execution (t : Tool) (tc : ToolCall) (baseline : option Z) (p : Approval) (external : option pystr) : M ToolOutcome :=
  try_ (let! _ := set_phase $"execution_setup" in
        let! _ := match baseline with None => (let! _ := ask RoundInterruptEpoch in mret ()) | Some _ => mret () end in
        let! _ := run_tool t tc (expected_revision p) external in
        after_return tc p)
       settle_execution_error.

(** ** The pipeline *)

(** Everything before the effects: the tool, what was approved, and the
    external target. *)
Definition admission (tc : ToolCall) (baseline : option Z) (resolved : Resolved) (resolution_error : option exn)
    : M (ToolOutcome + (Tool * Approval * option pystr)) :=
  let! _ := lift (tool_call_signature tc) in
  let? _ := initial_cancel_check tc baseline in
  let? t := resolve_tool tc resolved resolution_error in
  let? _ := check_mode tc in
  let? _ := preflight t tc true None $"schema_validation" in
  let! subjects := approval_subjects_of t tc in
  let! scope_key := approval_scope_of t in
  let! before := authorization_context t tc subjects scope_key in
  let? guards := authorize tc before in
  let! _ := set_phase $"workspace_target" in
  let! external := external_workspace_target t (arguments tc) in
  let? p := approve t tc before subjects scope_key guards external in
  let! _ := contribute tc before in
  let? _ := final_checks t tc external in
  mret (inr (t, p, external)).

(** [_execute_pipeline]. *)
Definition pipeline (tc : ToolCall) (baseline : option Z) (resolved : Resolved) (resolution_error : option exn)
    : M (ToolOutcome + ToolOutcome) :=
  let? admitted := admission tc baseline resolved resolution_error in
  let '(t, p, external) := admitted in
  let! o := execution t tc baseline p external in
  mret (inr o).

(** ** [execute] *)

Definition begin_call (s : Exec W) : Exec W :=
  {| failures := new_collector POST_EFFECT_FAILURE_LIMIT; pre_phase := $"interrupt_check"; effect_started := false;
     primary_error := None; raw_result := None; execution_seconds := 0; scope_error := false; authoritative := None; pending := pending s;
     tape := tape s; world := world s |}.

(** The outcome of a call, whatever happens. *)
Definition settle_pipeline_error (e : exn) : M ToolOutcome :=
  let! _ := (if is_exception e then mret () else request_stop_safely) in
  let! started := get effect_started in
  let! ph := get pre_phase in
  lift (if started then execution_failure_outcome ph e else pre_effect_failure_outcome ph e (is_keyboard_interrupt e)).

Definition outcome_of (tc : ToolCall) (baseline : option Z) (resolved : Resolved) (resolution_error : option exn) : M ToolOutcome :=
  try_ (let! _ := set_phase $"tool_call_snapshot" in
        let! _ := lift (tool_call_signature tc) in
        let! r := pipeline tc baseline resolved resolution_error in
        mret (match r with inl o | inr o => o end))
       settle_pipeline_error.

Definition execute_outcome (tc : ToolCall) (baseline : option Z) (resolved : Resolved) (resolution_error : option exn) : M ToolOutcome :=
  let! _ := st_modify begin_call in
  let! o := outcome_of tc baseline resolved resolution_error in
  let! _ := secondary $"call_total_monitor" (ask (MonitorRecord $"call_total" (if success o then $"ok" else $"error"))) in
  let! facts := get (fun s => snapshot (failures s)) in
  let! _ := match facts with f :: _ => emit_post_effect_diagnostic tc f | [] => mret () end in
  publish_post_effect_outcome tc o.

(** [ToolExecutor.execute]: the content of the tool's message. *)
Definition execute (tc : ToolCall) (baseline : option Z) (resolved : Resolved) (resolution_error : option exn) : M pyval :=
  let! o := execute_outcome tc baseline resolved resolution_error in mret (model_message_content o).
End Executor.
