(* ===== verification/ToolSafety.v ===== *)
(** * Tool execution: what holds of every call

    The theorems of [ToolExecution] speak of the calls made, the [tape], in any
    environment: effects happen at most once and only with permission, every
    call ends with one result, and the result tells what happened. *)

From S2P Require Import Prelude PyValue Models Hooks ToolOutcome ToolFacts Approval ToolExecution.

(** ** Events that matter *)

Definition quiet_call {A} (c : call A) : bool :=
  match c with
  | ToolExecute _ _ => false
  | EmitEvent (ToolCallEnd _ _ _ _) => false
  | _ => true
  end.

Definition quiet_event (e : event) : bool := match e with Ev c _ => quiet_call c end.

Definition is_execution (e : event) : bool := match e with Ev c _ => match c with ToolExecute _ _ => true | _ => false end end.
Definition is_end (e : event) : bool :=
  match e with Ev c _ => match c with EmitEvent (ToolCallEnd _ _ _ _) => true | _ => false end end.

(** How often the tool was run, and results were published. *)
Definition executions (l : list event) : list event := filter (fun e => is_execution e = true) l.
Definition ends (l : list event) : list event := filter (fun e => is_end e = true) l.

Definition quiet_tape (l : list event) : Prop := Forall (fun e => quiet_event e = true) l.

Lemma quiet_executions l : quiet_tape l -> executions l = [].
Proof.
  induction 1 as [|[A c r] l He _ IH]; [done|]. unfold executions. rewrite filter_cons_False; [done|]. by destruct c.
Qed.

Lemma quiet_ends l : quiet_tape l -> ends l = [].
Proof.
  induction 1 as [|[A c r] l He _ IH]; [done|]. unfold ends. rewrite filter_cons_False; [done|].
  destruct c; try done. by destruct e.
Qed.

Section Safety.
Context {W : Type} `{Environment W}.
Abbreviation M := (stm (Exec W)).

(** ** Steps that neither run the tool nor publish *)

(** The state after a quiet step: more calls, other failures, and the record of
    the execution as it was. *)
Record frame (s s' : Exec W) : Prop := {
  frame_tape : exists l, tape s' = tape s ++ l /\ quiet_tape l;
  frame_started : effect_started s' = effect_started s;
  frame_primary : primary_error s' = primary_error s;
  frame_raw : raw_result s' = raw_result s;
  frame_authoritative : authoritative s' = authoritative s;
}.

Lemma same_tape (s s' : Exec W) : tape s' = tape s -> exists l, tape s' = tape s ++ l /\ quiet_tape l.
Proof. intros ->. exists []. split; [by rewrite app_nil_r|constructor]. Qed.

#[export] Instance frame_preorder : PreOrder frame.
Proof.
  split.
  - intros s. split; try done. by apply same_tape.
  - intros s1 s2 s3 [(l & E1 & H1) ? ? ? ?] [(l' & E2 & H2) ? ? ? ?]. split; try congruence.
    exists (l ++ l'). split; [by rewrite E2, E1, app_assoc|by apply Forall_app_2].
Qed.

Definition quiet {A} (m : M A) : Prop := forall s, frame s (m s).2.

Lemma quiet_seq {A B} (m : M A) (k : A -> M B) : quiet m -> (forall a, quiet (k a)) -> quiet (seq m k).
Proof.
  intros Hm Hk s. unfold seq, mbind, stm_bind. specialize (Hm s). destruct (m s) as [[a|e] s1]; [|exact Hm].
  etrans; [exact Hm|apply Hk].
Qed.

Lemma quiet_stage {A B R} (m : M (R + A)) (k : A -> M (R + B)) : quiet m -> (forall a, quiet (k a)) -> quiet (stage m k).
Proof. intros Hm Hk. apply quiet_seq; [done|]. intros [o|a]; [|done]. intros s. reflexivity. Qed.

Lemma quiet_after {A B} (m : M A) (k : A -> M B) h : quiet m -> (forall a, quiet (k a)) -> (forall e, quiet (h e)) -> quiet (after m k h).
Proof.
  intros Hm Hk Hh s. unfold after. specialize (Hm s). destruct (m s) as [[a|e] s1]; (etrans; [exact Hm|]); [apply Hk|apply Hh].
Qed.

Lemma quiet_ret {A} (a : A) : quiet (mret a).
Proof. intros s. reflexivity. Qed.
Lemma quiet_lift {A} (r : result A) : quiet (lift r).
Proof. intros s. reflexivity. Qed.
Lemma quiet_get {A} (f : Exec W -> A) : quiet (get f).
Proof. intros s. reflexivity. Qed.

Lemma quiet_ask {A} (c : call A) : quiet_call c = true -> quiet (ask c).
Proof.
  intros Hc s. unfold ask. destruct (respond A c (world s)) as [r w]. split; try done.
  eexists. split; [done|]. by constructor.
Qed.

Lemma quiet_set_phase ph : quiet (set_phase ph).
Proof. intros s. split; try done. by apply same_tape. Qed.
Lemma quiet_set_failures f : quiet (set_failures f).
Proof. intros s. split; try done. by apply same_tape. Qed.
Lemma quiet_set_seconds (f : Exec W -> Z) : quiet (st_modify (fun s => set_seconds (f s) s)).
Proof. intros s. split; try done. by apply same_tape. Qed.
Lemma quiet_note_scope_error e : quiet (note_scope_error e).
Proof. intros s. split; try done. by apply same_tape. Qed.
Lemma quiet_record_observer p ph d : quiet (record_observer p ph d).
Proof. intros s. unfold record_observer. destruct (record_hook_diagnostics _ _ _ _). split; try done. by apply same_tape. Qed.
Lemma quiet_fail {A} n : quiet (fail (A:=A) n).
Proof. apply quiet_lift. Qed.
End Safety.

Create HintDb quiet.
#[export] Hint Resolve quiet_ret quiet_lift quiet_get quiet_set_phase quiet_set_failures quiet_note_scope_error
  quiet_set_seconds quiet_record_observer quiet_fail : quiet.
#[export] Hint Extern 1 (quiet (ask _)) => apply quiet_ask; reflexivity : quiet.

(** Walks through a body whose calls are all quiet. *)
Ltac hush :=
  repeat (intros; lazymatch goal with
  | |- quiet (seq _ _) => apply quiet_seq
  | |- quiet (stage _ _) => apply quiet_stage
  | |- quiet (after _ _ _) => apply quiet_after
  | |- quiet (try_ _ _) => apply quiet_after
  | |- quiet (finishing _ _) => apply quiet_after
  | |- quiet (if ?b then _ else _) => destruct b
  | |- quiet (match ?x with _ => _ end) => destruct x
  | |- quiet (let '_ := ?x in _) => destruct x
  | |- quiet _ => solve [eauto with quiet]
  end).

Section Quiet.
Context {W : Type} `{Environment W}.
Abbreviation M := (stm (Exec W)).

Lemma quiet_request_stop : quiet request_stop_safely.
Proof. unfold request_stop_safely. hush. Qed.
#[local] Hint Resolve quiet_request_stop : quiet.

Lemma quiet_capture ph e : quiet (capture ph e).
Proof. unfold capture. hush. Qed.
#[local] Hint Resolve quiet_capture : quiet.

Lemma quiet_secondary ph (m : M ()) : quiet m -> quiet (secondary ph m).
Proof. intros Hm. unfold secondary. by hush. Qed.

Lemma quiet_with_access {A} target (m : M A) : quiet m -> quiet (with_access target m).
Proof. intros Hm. unfold with_access. by hush. Qed.
End Quiet.

#[export] Hint Resolve quiet_request_stop quiet_capture : quiet.
Ltac hush ::=
  repeat (intros; lazymatch goal with
  | |- quiet (seq _ _) => apply quiet_seq
  | |- quiet (stage _ _) => apply quiet_stage
  | |- quiet (after _ _ _) => apply quiet_after
  | |- quiet (try_ _ _) => apply quiet_after
  | |- quiet (finishing _ _) => apply quiet_after
  | |- quiet (secondary _ _) => apply quiet_secondary
  | |- quiet (with_access _ _) => apply quiet_with_access
  | |- quiet (if ?b then _ else _) => destruct b
  | |- quiet (match ?x with _ => _ end) => destruct x
  | |- quiet (let '_ := ?x in _) => destruct x
  | |- quiet _ => solve [eauto with quiet]
  end).

Section QuietStages.
Context {W : Type} `{Environment W}.
Abbreviation M := (stm (Exec W)).

Lemma quiet_deny {A} message ph et : quiet (deny message ph et : M (ToolOutcome + A)).
Proof. unfold deny. hush. Qed.
#[local] Hint Resolve quiet_deny : quiet.

Lemma quiet_initial_cancel_check tc b : quiet (initial_cancel_check tc b).
Proof. unfold initial_cancel_check. hush. Qed.

Lemma quiet_ask_unknown_tool name : quiet (ask_unknown_tool name).
Proof. unfold ask_unknown_tool. hush. Qed.
#[local] Hint Resolve quiet_ask_unknown_tool : quiet.

Lemma quiet_resolve_tool tc r e : quiet (resolve_tool tc r e).
Proof. unfold resolve_tool. hush. Qed.

Lemma quiet_check_mode tc : quiet (check_mode tc).
Proof. unfold check_mode. hush. Qed.

Lemma quiet_preflight t tc schema target ph : quiet (preflight t tc schema target ph).
Proof. unfold preflight. hush. Qed.
#[local] Hint Resolve quiet_preflight : quiet.

Lemma quiet_approval_subjects_of t tc : quiet (approval_subjects_of t tc).
Proof. unfold approval_subjects_of. hush. Qed.

Lemma quiet_approval_scope_of t : quiet (approval_scope_of t).
Proof. unfold approval_scope_of. hush. Qed.

Lemma quiet_authorization_context t tc l k : quiet (authorization_context t tc l k).
Proof. unfold authorization_context. hush. Qed.

Lemma quiet_emit_guard_warnings tc ds : quiet (emit_guard_warnings tc ds).
Proof. induction ds as [|d ds IH]; cbn [emit_guard_warnings]; hush. Qed.
#[local] Hint Resolve quiet_emit_guard_warnings : quiet.

Lemma quiet_authorize tc c : quiet (authorize tc c).
Proof. unfold authorize. hush. Qed.

Lemma quiet_external_workspace_target t args : quiet (external_workspace_target t args).
Proof. unfold external_workspace_target. hush. Qed.

Lemma quiet_approval_grant_candidates t tc a b c d e : quiet (approval_grant_candidates t tc a b c d e).
Proof. unfold approval_grant_candidates. hush. Qed.
#[local] Hint Resolve quiet_approval_grant_candidates : quiet.

Lemma quiet_preview_request t q : quiet (preview_request t q).
Proof. unfold preview_request. hush. Qed.
#[local] Hint Resolve quiet_preview_request : quiet.

Lemma quiet_request_decision q : quiet (request_decision q).
Proof. unfold request_decision. hush. Qed.
#[local] Hint Resolve quiet_request_decision : quiet.

Lemma quiet_ask_once x changed n : quiet (ask_once x changed n).
Proof. unfold ask_once. hush. Qed.
#[local] Hint Resolve quiet_ask_once : quiet.

Lemma quiet_review x n : forall attempt revision changes, quiet (review x n attempt revision changes).
Proof. induction n as [|n IH]; intros; cbn [review]; hush. Qed.
#[local] Hint Resolve quiet_review : quiet.

Lemma quiet_obtain_approval x revision : quiet (obtain_approval x revision).
Proof. unfold obtain_approval. hush. Qed.
#[local] Hint Resolve quiet_obtain_approval : quiet.

Lemma quiet_approve t tc b l k g x : quiet (approve t tc b l k g x).
Proof. unfold approve. hush. Qed.

Lemma quiet_contribute tc b : quiet (contribute tc b).
Proof. unfold contribute. hush. Qed.

Lemma quiet_final_checks t tc x : quiet (final_checks t tc x).
Proof. unfold final_checks. hush. Qed.

Lemma quiet_stream_chunks t tc l : quiet (stream_chunks t tc l).
Proof. induction l as [|c l IH]; cbn [stream_chunks]; unfold stream_chunk; hush. Qed.

Lemma quiet_observe_after tc facts o : quiet (observe_after tc facts o).
Proof. unfold observe_after. hush. Qed.

Lemma quiet_store_artifact tc o : quiet (store_artifact tc o).
Proof. unfold store_artifact. hush. Qed.
End QuietStages.

#[export] Hint Resolve quiet_deny quiet_initial_cancel_check quiet_resolve_tool quiet_check_mode quiet_preflight
  quiet_approval_subjects_of quiet_approval_scope_of quiet_authorization_context quiet_emit_guard_warnings quiet_authorize
  quiet_external_workspace_target quiet_approve quiet_contribute quiet_final_checks quiet_stream_chunks quiet_observe_after
  quiet_store_artifact quiet_approval_grant_candidates quiet_request_decision quiet_preview_request quiet_ask_once quiet_review
  quiet_obtain_approval : quiet.

(** ** Steps that never raise, and what stages stop with *)

Section Outcomes.
Context {W : Type} `{Environment W}.
Abbreviation M := (stm (Exec W)).

Definition total {A} (m : M A) : Prop := forall s, exists a s', m s = (Ok a, s').

Lemma total_seq {A B} (m : M A) (k : A -> M B) : total m -> (forall a, total (k a)) -> total (seq m k).
Proof.
  intros Hm Hk s. destruct (Hm s) as (a & s1 & E). destruct (Hk a s1) as (b & s2 & E2).
  exists b, s2. unfold seq, mbind, stm_bind. by rewrite E.
Qed.
Lemma total_after {A B} (m : M A) (k : A -> M B) h : (forall a, total (k a)) -> (forall e, total (h e)) -> total (after m k h).
Proof. intros Hk Hh s. unfold after. destruct (m s) as [[a|e] s1]; [apply Hk|apply Hh]. Qed.
Lemma total_ret {A} (a : A) : total (mret a).
Proof. intros s. by exists a, s. Qed.
Lemma total_get {A} (f : Exec W -> A) : total (get f).
Proof. intros s. by eexists _, _. Qed.
Lemma total_modify (f : Exec W -> Exec W) : total (st_modify f).
Proof. intros s. by eexists _, _. Qed.
Lemma total_lift {A} (r : result A) a : r = Ok a -> total (lift r : M A).
Proof. intros -> s. by eexists _, _. Qed.

Lemma total_request_stop : total request_stop_safely.
Proof.
  unfold request_stop_safely. apply total_seq.
  - apply total_after; [intros; apply total_ret|]. intros e. apply total_seq; [apply total_modify|intros; apply total_ret].
  - intros []; [apply total_ret|]. apply total_after; [intros; apply total_ret|]. intros e. apply total_modify.
Qed.

Lemma total_capture ph e : total (capture ph e).
Proof.
  unfold capture. apply total_seq; [apply total_modify|]. intros _. destruct (is_exception e); [apply total_ret|apply total_request_stop].
Qed.

Lemma total_secondary ph (m : M ()) : total (secondary ph m).
Proof. apply total_after; [intros; apply total_ret|]. intros e. apply total_capture. Qed.

(** What a step returns, when it returns. *)
Definition yields {A} (m : M A) (P : A -> Prop) : Prop := forall s a s', m s = (Ok a, s') -> P a.

Lemma yields_seq {A B} (m : M A) (k : A -> M B) P Q : yields m P -> (forall a, P a -> yields (k a) Q) -> yields (seq m k) Q.
Proof.
  intros Hm Hk s b s' E. unfold seq, mbind, stm_bind in E. destruct (m s) as [[a|e] s1] eqn:Em; [|done].
  eapply (Hk a); [by eapply Hm|done].
Qed.
Lemma yields_any {A B} (m : M A) (k : A -> M B) Q : (forall a, yields (k a) Q) -> yields (seq m k) Q.
Proof. intros Hk. by apply (yields_seq _ _ (fun _ => True)). Qed.
Lemma yields_after {A B} (m : M A) (k : A -> M B) h P Q : yields m P -> (forall a, P a -> yields (k a) Q) -> (forall e, yields (h e) Q) ->
  yields (after m k h) Q.
Proof.
  intros Hm Hk Hh s b s' E. unfold after in E. destruct (m s) as [[a|e] s1] eqn:Em; [|by eapply Hh].
  eapply (Hk a); [by eapply Hm|done].
Qed.
Lemma yields_lift {A} (r : result A) (P : A -> Prop) : (forall a, r = Ok a -> P a) -> yields (lift r : M A) P.
Proof. intros HP s a s' [= E _]. by apply HP. Qed.
Lemma yields_ret {A} (a : A) (P : A -> Prop) : P a -> yields (mret a : M A) P.
Proof. by intros HP s a' s' [= <- _]. Qed.

(** A stage that stops the call says that nothing was started. *)
Definition stopped {A} (r : ToolOutcome + A) : Prop := match r with inl o => says_not_started o | inr _ => True end.
Definition stops {A} (m : M (ToolOutcome + A)) : Prop := yields m stopped.

Lemma stops_stage {A B} (m : M (ToolOutcome + A)) (k : A -> M (ToolOutcome + B)) : stops m -> (forall a, stops (k a)) -> stops (stage m k).
Proof. intros Hm Hk. eapply yields_seq; [exact Hm|]. intros [o|a] Ho; [by apply yields_ret|apply Hk]. Qed.
Lemma stops_seq {A B} (m : M A) (k : A -> M (ToolOutcome + B)) : (forall a, stops (k a)) -> stops (seq m k).
Proof. apply yields_any. Qed.
Lemma stops_go {A} (a : A) : stops (mret (inr a) : M (ToolOutcome + A)).
Proof. by apply yields_ret. Qed.
Lemma stops_with {A} (r : result ToolOutcome) : (forall o, r = Ok o -> says_not_started o) ->
  stops (let! o := lift r in mret (inl o) : M (ToolOutcome + A)).
Proof. intros Hr. eapply yields_seq; [by apply yields_lift|]. intros o Ho. by apply yields_ret. Qed.
Lemma stops_lift_raise {A} e : stops (lift (Raise e) : M (ToolOutcome + A)).
Proof. by apply yields_lift. Qed.
Lemma stops_try {A} (m : M (ToolOutcome + A)) h : stops m -> (forall e, stops (h e)) -> stops (try_ m h).
Proof. intros Hm Hh. eapply yields_after; [exact Hm| |done]. intros r Hr. by apply yields_ret. Qed.

(** ** The outcomes that stop a call *)

Lemma not_started_says ph et retry o o' : outcome_valid o -> success o = false ->
  with_failure_facts (not_started ph et retry) true o = Ok o' -> says_not_started o'.
Proof. intros Hv Hs E. destruct (not_started_facts ph et retry o Hv Hs) as (o2 & E2 & ? & _). congruence. Qed.

(** A failure the runtime builds in one step. *)
Lemma plain_says s summary content m k ph et retry o : s <> SUCCEEDED ->
  (o' ← check_outcome (plain_outcome s summary content m (Some k)); with_failure_facts (not_started ph et retry) true o') = Ok o ->
  says_not_started o.
Proof.
  intros Hs E. assert (outcome_valid (plain_outcome s summary content m (Some k))) as Hv by by apply plain_outcome_valid.
  rewrite check_outcome_ok in E by done. eapply not_started_says; [exact Hv| |exact E].
  by apply bool_decide_eq_false_2.
Qed.

Lemma denial_says message ph et o : pre_effect_denial_outcome message ph et = Ok o -> says_not_started o.
Proof. by apply plain_says. Qed.
Lemma unstable_says tc o : unstable_outcome tc = Ok o -> says_not_started o.
Proof. by apply plain_says. Qed.
Lemma interrupted_says tc e o : interrupted_outcome tc e = Ok o -> says_not_started o.
Proof. by apply plain_says. Qed.

(** A failure whose model text is replaced first. *)
Lemma projected_says text tr ar ph et retry o o' : outcome_valid o -> success o = false ->
  (o1 ← with_model_projection text tr ar o; with_failure_facts (not_started ph et retry) true o1) = Ok o' -> says_not_started o'.
Proof.
  intros Hv Hs E. destruct (with_model_projection_derived text tr ar o Hv) as (o1 & E1 & Hv1 & Hp & _). rewrite E1 in E.
  eapply not_started_says; [exact Hv1|by rewrite (primary_success _ _ Hp)|exact E].
Qed.

Lemma pre_effect_facts_say ph et o o' : outcome_valid o -> success o = false ->
  with_pre_effect_facts ph et o = Ok o' -> says_not_started o'.
Proof. apply projected_says. Qed.
Lemma unknown_tool_says name matches o : unknown_tool_outcome name matches = Ok o -> says_not_started o.
Proof. apply projected_says; [by apply plain_outcome_valid|done]. Qed.

Lemma preflight_failure_valid p o : validated_preflight_failure p = Ok (Some o) -> outcome_valid o /\ success o = false.
Proof.
  unfold validated_preflight_failure. destruct p; try done. destruct (normalize_tool_outcome o0) as [n|] eqn:E; [|done].
  apply normalize_valid in E as (Hv & _). destruct (success n) eqn:Hs; [done|]. by intros [= <-].
Qed.

Lemma cancelled_says name ph message o : cancelled_before_outcome name ph message = Ok o -> says_not_started o.
Proof. destruct (cancelled_before_ok name ph message) as (o' & -> & ? & _). by intros [= <-]. Qed.
End Outcomes.

Create HintDb stops.
#[export] Hint Resolve stops_go stops_lift_raise denial_says unstable_says interrupted_says unknown_tool_says cancelled_says : stops.
#[export] Hint Resolve stops_with : stops.

(** Walks through a stage that stops only with outcomes that say so. *)
Ltac halt :=
  repeat (intros; lazymatch goal with
  | |- stops (stage _ _) => apply stops_stage
  | |- stops (seq (lift _) (fun o => mret (inl o))) => apply stops_with
  | |- stops (seq (ask_unknown_tool _) _) => solve [eauto with stops]
  | |- stops (seq _ _) => apply stops_seq
  | |- stops (try_ _ _) => apply stops_try
  | |- stops (if ?b then _ else _) => destruct b
  | |- stops (match ?x with _ => _ end) => destruct x
  | |- stops (let '_ := ?x in _) => destruct x
  | |- stops _ => solve [eauto with stops]
  | |- says_not_started _ => solve [eauto with stops]
  end).

Section Stops.
Context {W : Type} `{Environment W}.
Abbreviation M := (stm (Exec W)).

Lemma stops_deny {A} message ph et : stops (deny message ph et : M (ToolOutcome + A)).
Proof. unfold deny. halt. Qed.
#[local] Hint Resolve stops_deny : stops.

Lemma stops_initial_cancel_check tc b : stops (initial_cancel_check tc b).
Proof. unfold initial_cancel_check. halt. Qed.

Lemma stops_unknown_tool {A} name : stops (let! o := ask_unknown_tool name in mret (inl o) : M (ToolOutcome + A)).
Proof.
  eapply (yields_seq _ _ says_not_started); [|intros o Ho; by apply yields_ret].
  unfold ask_unknown_tool. apply yields_any. intros names. apply yields_lift. intros o. apply unknown_tool_says.
Qed.
#[local] Hint Resolve stops_unknown_tool : stops.

Lemma stops_resolve_tool tc r e : stops (resolve_tool tc r e).
Proof. unfold resolve_tool. halt. Qed.

Lemma stops_check_mode tc : stops (check_mode tc).
Proof. unfold check_mode. halt. Qed.

(** A preflight that fails returns a failure. *)
Lemma yields_with_access {A} target (m : M A) P : yields m P -> yields (with_access target m) P.
Proof.
  intros Hm. unfold with_access. destruct target as [p|]; [|done]. apply yields_any. intros _.
  eapply yields_after; [exact Hm| |].
  - intros a Ha. apply yields_any. intros _. by apply yields_ret.
  - intros e. apply yields_any. intros _. by apply yields_lift.
Qed.

Lemma stops_preflight t tc schema target ph : stops (preflight t tc schema target ph).
Proof.
  unfold preflight. apply stops_seq. intros _.
  eapply (yields_seq _ _ (fun f => match f with Some o => outcome_valid o /\ success o = false | None => True end)).
  - apply yields_with_access, yields_any. intros p. apply yields_lift. intros [o|]; [|done]. apply preflight_failure_valid.
  - intros [o|] Ho; [|apply stops_go]. destruct Ho as [Hv Hs]. apply stops_with. intros o'. by apply (pre_effect_facts_say _ _ o).
Qed.
#[local] Hint Resolve stops_preflight : stops.

Lemma stops_authorize tc c : stops (authorize tc c).
Proof. unfold authorize. halt. Qed.

Lemma stops_obtain_approval x revision : stops (obtain_approval x revision).
Proof. unfold obtain_approval. halt. Qed.
#[local] Hint Resolve stops_obtain_approval : stops.

Lemma stops_approve t tc b l k g x : stops (approve t tc b l k g x).
Proof. unfold approve. halt. Qed.

Lemma stops_final_checks t tc x : stops (final_checks t tc x).
Proof. unfold final_checks. halt. Qed.
End Stops.

#[export] Hint Resolve stops_deny stops_initial_cancel_check stops_resolve_tool stops_check_mode stops_preflight
  stops_authorize stops_approve stops_final_checks : stops.

(** ** What the tape shows of a stage that lets the call go on *)

Section Evidence.
Context {W : Type} `{Environment W}.
Abbreviation M := (stm (Exec W)).
Implicit Types s : Exec W.

Definition later (s s' : Exec W) : Prop := exists l, tape s' = tape s ++ l.
Definition seen (s s' : Exec W) (e : event) : Prop := exists l, tape s' = tape s ++ l /\ e ∈ l.

#[export] Instance later_preorder : PreOrder later.
Proof.
  split; [intros s; exists []; by rewrite app_nil_r|]. intros s1 s2 s3 [l E] [l' E']. exists (l ++ l').
  by rewrite E', E, app_assoc.
Qed.

Lemma seen_after s s1 s2 e : seen s s1 e -> later s1 s2 -> seen s s2 e.
Proof. intros (l & E & Hin) (l' & E'). exists (l ++ l'). rewrite E', E, app_assoc. split; [done|]. apply elem_of_app. by left. Qed.
Lemma seen_before s s1 s2 e : later s s1 -> seen s1 s2 e -> seen s s2 e.
Proof. intros (l & E) (l' & E' & Hin). exists (l ++ l'). rewrite E', E, app_assoc. split; [done|]. apply elem_of_app. by right. Qed.
Lemma frame_later s s' : frame s s' -> later s s'.
Proof. intros [(l & E & _) _ _ _ _]. by exists l. Qed.
Lemma quiet_later {A} (m : M A) s r s' : quiet m -> m s = (r, s') -> later s s'.
Proof. intros Hm E. apply frame_later. specialize (Hm s). by rewrite E in Hm. Qed.

Lemma seq_ok {A B} (m : M A) (k : A -> M B) s b s' : seq m k s = (Ok b, s') ->
  exists a s1, m s = (Ok a, s1) /\ k a s1 = (Ok b, s').
Proof. unfold seq, mbind, stm_bind. destruct (m s) as [[a|e] s1]; [|done]. eauto. Qed.
Lemma stage_ok {A B R} (m : M (R + A)) (k : A -> M (R + B)) s b s' : stage m k s = (Ok (inr b), s') ->
  exists a s1, m s = (Ok (inr a), s1) /\ k a s1 = (Ok (inr b), s').
Proof. intros (r & s1 & E & Ek)%seq_ok. destruct r as [o|a]; [done|]. eauto. Qed.
Lemma ask_ok {A} (c : call A) s a s' : ask c s = (Ok a, s') -> seen s s' (Ev c (Ok a)).
Proof.
  unfold ask. destruct (respond A c (world s)) as [r w]. intros [= -> <-]. eexists. split; [done|]. by left.
Qed.
Lemma lift_ok {A} (r : result A) s a s' : (lift r : M A) s = (Ok a, s') -> r = Ok a /\ s' = s.
Proof. by intros [= -> ->]. Qed.

Lemma with_access_ok {A} target (m : M A) s a s' : with_access target m s = (Ok a, s') ->
  exists s1 s2, later s s1 /\ m s1 = (Ok a, s2) /\ later s2 s'.
Proof.
  unfold with_access. destruct target as [p|].
  - intros (u & s1 & E1 & E)%seq_ok. unfold after in E. destruct (m s1) as [[b|e] s2] eqn:Em.
    + apply seq_ok in E as (v & s3 & E3 & [= <- <-]). exists s1, s2. split_and!; [|done|].
      * eapply quiet_later; [|exact E1]. by apply quiet_ask.
      * eapply quiet_later; [|exact E3]. hush.
    + apply seq_ok in E as (v & s3 & _ & [=]).
  - intros E. by exists s, s'.
Qed.

End Evidence.

(** One quiet step of a successful sequence. *)
Ltac quiet_step E :=
  let a := fresh "a" in let s1 := fresh "s" in let E1 := fresh "E" in
  apply seq_ok in E as (a & s1 & E1 & E);
  let L := fresh "L" in
  assert (L : later _ _) by (eapply quiet_later; [|exact E1]; hush).

Section StageEvidence.
Context {W : Type} `{Environment W}.
Abbreviation M := (stm (Exec W)).
Implicit Types s : Exec W.

Lemma check_mode_evidence tc s u s' : check_mode tc s = (Ok (inr u), s') -> seen s s' (Ev (IsToolAllowedInMode (tc_name tc)) (Ok true)).
Proof.
  unfold check_mode. intros E. quiet_step E. apply seq_ok in E as ([] & s1 & Ea & E).
  - injection E as <- <-. eapply seen_before; [exact L|]. by apply ask_ok.
  - quiet_step E. quiet_step E. unfold deny in E. by apply seq_ok in E as (? & ? & _ & [=]).
Qed.

Lemma deny_not_ok {A} message ph et s (a : A) s' : (deny message ph et : M _) s <> (Ok (inr a), s').
Proof. unfold deny. intros E. by apply seq_ok in E as (? & ? & _ & [=]). Qed.

Lemma resolve_tool_evidence tc r e s t s' : resolve_tool tc r e s = (Ok (inr t), s') ->
  r = ResolvedTool (Some t) \/ seen s s' (Ev (GetTool (tc_name tc)) (Ok (Some t))).
Proof.
  unfold resolve_tool. intros E. quiet_step E. quiet_step E. apply seq_ok in E as (found & s2 & Ef & E). quiet_step E.
  destruct found as [t'|].
  - injection E as <- <-. destruct r as [|[t''|]]; [right|left|].
    + eapply seen_before; [etrans; [exact L|exact L0]|]. eapply seen_after; [by apply ask_ok|done].
    + by injection Ef as -> ->.
    + by injection Ef as ? ?.
  - quiet_step E. quiet_step E. destruct (negb _).
    + quiet_step E. by apply deny_not_ok in E.
    + by apply seq_ok in E as (? & ? & _ & [=]).
Qed.

Lemma preflight_evidence t tc schema target ph s u s' : preflight t tc schema target ph s = (Ok (inr u), s') ->
  seen s s' (Ev (PreflightValidate t (arguments tc) schema) (Ok PreflightPassed)).
Proof.
  unfold preflight. intros E. quiet_step E. apply seq_ok in E as (f & s1 & Ef & E). destruct f as [o|].
  { by apply seq_ok in E as (? & ? & _ & [=]). }
  injection E as <- <-. apply with_access_ok in Ef as (s2 & s3 & L2 & Em & L3).
  apply seq_ok in Em as (p & s4 & Ep & Em). apply lift_ok in Em as [Hp ->].
  assert (p = PreflightPassed) as ->.
  { destruct p; [done| |done]. cbn in Hp. destruct (normalize_tool_outcome o); [|done]. by destruct (success _). }
  eapply seen_before; [etrans; [exact L|exact L2]|]. eapply seen_after; [by apply ask_ok|exact L3].
Qed.

Lemma authorize_evidence tc c s ds s' : authorize tc c s = (Ok (inr ds), s') ->
  exists left_, seen s s' (Ev (AuthorizeTool c) (Ok (left_, Some ds))) /\ Forall (fun d => allowed d = true) ds.
Proof.
  unfold authorize. intros E. quiet_step E. apply seq_ok in E as (answer & s1 & Ea & E). quiet_step E.
  apply seq_ok in E as (ds' & s9 & Ed & E). apply lift_ok in Ed as [Hd ->]. unfold option_result in Hd.
  destruct answer as [left_ [ds2|]]; [|done]. injection Hd as ->.
  destruct (list_find _ _) as [[i d]|] eqn:Ef; [by apply deny_not_ok in E|].
  quiet_step E. injection E as <- <-. exists left_. split.
  - eapply seen_before; [exact L|]. eapply seen_after; [by apply ask_ok|]. by etrans.
  - apply list_find_None in Ef. eapply Forall_impl; [exact Ef|]. intros d Hd. by apply not_false_is_true.
Qed.

Lemma external_evidence t args s x s' argument p : external_workspace_target t args s = (Ok x, s') ->
  assoc_get EXTERNAL_PATH_ARGUMENTS (t_name t) = Some argument -> has_external_paths t = true ->
  dget_or args argument (VStr $".") = VStr p -> p <> [] -> seen s s' (Ev (ExternalPath t p) (Ok x)).
Proof.
  unfold external_workspace_target. intros E Ha Hx Hp Hne. rewrite Ha, Hx, Hp in E. cbn in E.
  destruct p; [done|]. by apply ask_ok.
Qed.

(** ** What approval leaves on the tape *)

(** The user approved exactly this call, with a preview of the document, and the
    document was the same when it was looked at again; the execution is bound
    to the revision that was then found. *)
Definition reviewed (tc : ToolCall) (rev : option pystr) (l : list event) : Prop :=
  exists q d before after l1 l2 l3 l4,
    l = l1 ++ Ev (CaptureDocument (tc_name tc) (arguments tc)) (Ok before) :: l2 ++ Ev (RequestApproval q) (Ok (Some d))
        :: l3 ++ Ev (CaptureDocument (tc_name tc) (arguments tc)) (Ok after) :: l4
    /\ q_tool_name q = tc_name tc /\ q_tool_args q = arguments tc /\ is_Some (q_preview q)
    /\ approved d = true /\ valid_decision (Some d) = Ok d
    /\ same_documents before after = true /\ (forall doc, after = Some doc -> rev = Some (doc_revision doc)).

Lemma reviewed_grows tc rev a l b : reviewed tc rev l -> reviewed tc rev (a ++ l ++ b).
Proof.
  intros (q & d & before & after & l1 & l2 & l3 & l4 & -> & Hr). exists q, d, before, after, (a ++ l1), l2, l3, (l4 ++ b).
  split; [|done]. by rewrite <-?app_assoc; cbn; rewrite <-?app_assoc; cbn; rewrite <-?app_assoc.
Qed.

Lemma ask_tape {A} (c : call A) s a s' : ask c s = (Ok a, s') -> tape s' = tape s ++ [Ev c (Ok a)].
Proof. unfold ask. destruct (respond A c (world s)) as [r w]. by intros [= -> <-]. Qed.

Lemma preview_evidence t q s before q' s' : preview_request t q s = (Ok (before, q'), s') ->
  (exists l, tape s' = tape s ++ Ev (CaptureDocument (q_tool_name q) (q_tool_args q)) (Ok before) :: l)
  /\ q_tool_name q' = q_tool_name q /\ q_tool_args q' = q_tool_args q /\ is_Some (q_preview q').
Proof.
  unfold preview_request. intros E. apply seq_ok in E as (b & s1 & Eb & E). apply ask_tape in Eb.
  quiet_step E. quiet_step E. destruct a0 as [p|]; [|done]. injection E as <- <- <-.
  destruct L as [l1 E1'], L0 as [l2 E2']. split_and!; [|done|done|by eexists].
  exists (l1 ++ l2). by rewrite E2', E1', Eb, <-!app_assoc.
Qed.

Lemma request_evidence q s d s' : request_decision q s = (Ok d, s') ->
  exists l1 l2, tape s' = tape s ++ l1 ++ Ev (RequestApproval q) (Ok d) :: l2.
Proof.
  unfold request_decision, finishing. intros E. quiet_step E. unfold after in E.
  destruct (ask (RequestApproval q) s0) as [[d'|e] s1] eqn:Ea.
  - apply seq_ok in E as (u & s2 & E2 & [= <- <-]). apply ask_tape in Ea.
    assert (later s1 s2) as [l2 E2'] by (eapply quiet_later; [|exact E2]; hush).
    destruct L as [l1 E1']. exists l1, l2. by rewrite E2', Ea, E1', <-!app_assoc.
  - by apply seq_ok in E as (? & ? & _ & [=]).
Qed.

Lemma ask_once_evidence x changed n s d q before s' : ask_once x changed n s = (Ok (d, q, before), s') ->
  (exists l1 l2 l3, tape s' = tape s ++ l1 ++ Ev (CaptureDocument (tc_name (r_call x)) (arguments (r_call x))) (Ok before)
     :: l2 ++ Ev (RequestApproval q) (Ok (Some d)) :: l3)
  /\ q_tool_name q = tc_name (r_call x) /\ q_tool_args q = arguments (r_call x) /\ is_Some (q_preview q)
  /\ valid_decision (Some d) = Ok d.
Proof.
  unfold ask_once. intros E. quiet_step E. quiet_step E. quiet_step E. quiet_step E. quiet_step E.
  apply seq_ok in E as ([b q'] & s5 & Ep & E). quiet_step E. apply seq_ok in E as (d' & s7 & Ed & E). quiet_step E.
  apply seq_ok in E as (d2 & s9 & Ev9 & E). apply lift_ok in Ev9 as [Hv ->]. injection E as <- <- <- <-. cbn [fst snd] in *.
  apply with_access_ok in Ep as (t1 & t2 & [k1 K1] & Ep & [k2 K2]).
  apply preview_evidence in Ep as ([k3 K3] & Hn & Ha & Hpv). apply request_evidence in Ed as (k4 & k5 & K4).
  assert (d' = Some d2) as ->.
  { unfold valid_decision in Hv. destruct d' as [d'|]; [|done]. cbn in Hv. destruct (_ || _); [done|]. congruence. }
  split_and!; [|done|done|done|done].
  assert (later s t1) as [m1 M1].
  { etrans; [exact L|]. etrans; [exact L0|]. etrans; [exact L1|]. etrans; [exact L2|]. etrans; [exact L3|]. by exists k1. }
  assert (later t2 s6) as [m2 M2] by (etrans; [by exists k2|exact L4]).
  destruct L5 as [m3 M3]. exists m1, (k3 ++ m2 ++ k4), (k5 ++ m3).
  rewrite M3, K4, M2, K3, M1. by rewrite <-?app_assoc; cbn; rewrite <-?app_assoc; cbn; rewrite <-?app_assoc.
Qed.

Lemma review_evidence x n : forall attempt rev changes s d q rev' changes' s',
  review x n attempt rev changes s = (Ok (Settled d q rev' changes'), s') -> approved d = true ->
  exists l, tape s' = tape s ++ l /\ reviewed (r_call x) rev' l.
Proof.
  induction n as [|n IH]; intros attempt rev changes s d q rev' changes' s' E Hd; [done|]. cbn [review] in E.
  apply seq_ok in E as ([[d1 q1] before] & s1 & E1 & E). destruct (approved d1) eqn:Hd1; cbn [negb] in E; cycle 1.
  { injection E as <- <- <- <- <-. congruence. }
  quiet_step E. apply seq_ok in E as (after_ & s2 & E2 & E).
  apply with_access_ok in E2 as (t1 & t2 & [k1 K1] & Ea & [k2 K2]).
  destruct (same_documents before after_) eqn:Hsame.
  - injection E as <- <- <- <- <-. apply ask_once_evidence in E1 as ((l1 & l2 & l3 & K) & Hn & Hargs & Hp & Hv).
    apply ask_tape in Ea. rewrite Hn, Hargs in Ea. destruct L as [k0 K0].
    eexists. split; [by rewrite K2, Ea, K1, K0, K, <-!app_assoc|].
    exists q1, d1, before, after_, l1, l2, (l3 ++ k0 ++ k1), k2. split_and!; try done.
    + by rewrite <-?app_assoc; cbn; rewrite <-?app_assoc; cbn; rewrite <-?app_assoc.
    + intros doc ->. done.
  - quiet_step E. destruct (IH _ _ _ _ _ _ _ _ _ E Hd) as (l & K & Hr).
    assert (later s s3) as [m Hm].
    { etrans; [eapply quiet_later; [|exact E1]; hush|]. etrans; [exact L|]. etrans; [by exists k1|].
      etrans; [eapply quiet_later; [|exact Ea]; by apply quiet_ask|]. etrans; [by exists k2|exact L0]. }
    exists (m ++ l). split; [by rewrite K, Hm, app_assoc|]. pose proof (reviewed_grows _ _ m l [] Hr) as Hg.
    by rewrite app_nil_r in Hg.
Qed.

Lemma obtain_approval_evidence x rev s p s' : obtain_approval x rev s = (Ok (inr p), s') ->
  exists l, tape s' = tape s ++ l /\ reviewed (r_call x) (expected_revision p) l
    /\ (r_mutation x = true -> Ev (PreflightValidate (r_tool x) (arguments (r_call x)) false) (Ok PreflightPassed) ∈ l).
Proof.
  unfold obtain_approval. intros E. quiet_step E. quiet_step E. destruct (negb a0); [by apply deny_not_ok in E|].
  apply stage_ok in E as (r & s1' & Er & E). unfold try_, after in Er.
  destruct (seq (review _ _ _ _ _) _ s1) as [[o|e] s2] eqn:Es; cycle 1.
  { destruct (_ || _); [by apply seq_ok in Er as (? & ? & _ & [=])|done]. }
  injection Er as -> ->. apply seq_ok in Es as (r' & s3 & Erev & Es).
  destruct r' as [d q rev' changes|]; [|by apply seq_ok in Es as (? & ? & _ & [=])]. injection Es as <- <-.
  quiet_step E. destruct (approved d) eqn:Hd; cbn [negb] in E; [|by apply deny_not_ok in E].
  destruct (review_evidence _ _ _ _ _ _ _ _ _ _ _ Erev Hd) as (l & K & Hr).
  assert (Hfirst : exists l0, tape s1 = tape s ++ l0) by (change (later s s1); by etrans).
  destruct Hfirst as [l0 K0], L1 as [l2 K2].
  destruct (r_mutation x) eqn:Hm.
  - apply stage_ok in E as (u & s5 & Ep & [= <- <-]). apply preflight_evidence in Ep as (l3 & K3 & Hin).
    exists (l0 ++ l ++ l2 ++ l3). split_and!; [by rewrite K3, K2, K, K0, <-!app_assoc|by apply reviewed_grows|].
    intros _. set_solver.
  - injection E as <- <-. exists (l0 ++ l ++ l2). split_and!; [by rewrite K2, K, K0, <-!app_assoc|by apply reviewed_grows|done].
Qed.
End StageEvidence.

(** ** Permission *)

Section Permission.
Context {W : Type} `{Environment W}.
Abbreviation M := (stm (Exec W)).

(** What must have happened before the tool may run. *)
Record permission (tc : ToolCall) (t : Tool) (resolved : Resolved) (rev : option pystr) (l : list event) : Prop := {
  of_the_call : resolved = ResolvedTool (Some t) \/ Ev (GetTool (tc_name tc)) (Ok (Some t)) ∈ l;
  allowed_in_mode : Ev (IsToolAllowedInMode (tc_name tc)) (Ok true) ∈ l;
  schema_passed : Ev (PreflightValidate t (arguments tc) true) (Ok PreflightPassed) ∈ l;
  environment_passed : Ev (PreflightValidate t (arguments tc) false) (Ok PreflightPassed) ∈ l;
  guards_passed : exists c left_ ds, Ev (AuthorizeTool c) (Ok (left_, Some ds)) ∈ l /\ b_tool_call c = tc
    /\ Forall (fun d => allowed d = true) ds
    /\ ((exists d, d ∈ ds /\ requires_approval d = true) -> reviewed tc rev l);
  outside_reviewed : forall argument p, tc_name tc ∈ EXTERNAL_MUTATION_TOOLS ->
    assoc_get EXTERNAL_PATH_ARGUMENTS (t_name t) = Some argument -> has_external_paths t = true ->
    dget_or (arguments tc) argument (VStr $".") = VStr p -> p <> [] ->
    exists target, Ev (ExternalPath t p) (Ok target) ∈ l /\ (is_Some target -> reviewed tc rev l);
  still_running : Ev StopRequested (Ok false) ∈ l;
}.

Lemma approve_evidence t tc before subjects k guards external s p s' :
  approve t tc before subjects k guards external s = (Ok (inr p), s') ->
  exists l, tape s' = tape s ++ l
    /\ Ev (PreflightValidate t (arguments tc) false) (Ok PreflightPassed) ∈ l
    /\ ((exists d, d ∈ guards /\ requires_approval d = true) -> reviewed tc (expected_revision p) l)
    /\ (tc_name tc ∈ EXTERNAL_MUTATION_TOOLS -> is_Some external -> reviewed tc (expected_revision p) l).
Proof.
  unfold approve. set (mutation := match external with Some _ => _ | None => false end). intros E. quiet_step E.
  destruct L as [l0 K0]. apply stage_ok in E as (rev & s1 & Er & E). destruct mutation eqn:Hmut.
  - injection Er as <- <-. quiet_step E. destruct external as [target|]; [|done].
    apply obtain_approval_evidence in E as (l & K & Hr & Hp). destruct L as [l1 K1].
    exists (l0 ++ l1 ++ l). assert (Hg : reviewed tc (expected_revision p) (l0 ++ l1 ++ l)).
    { rewrite app_assoc. pose proof (reviewed_grows _ _ (l0 ++ l1) l [] Hr) as Hg. by rewrite app_nil_r in Hg. }
    split_and!; [by rewrite K, K1, K0, <-!app_assoc| |done|done]. specialize (Hp eq_refl). set_solver.
  - apply stage_ok in Er as (u & s2 & Ep & Er). apply preflight_evidence in Ep as (l1 & K1 & Hin).
    quiet_step Er. quiet_step Er. injection Er as <- <-. quiet_step E.
    assert (Hl : exists l2, tape s1 = tape s2 ++ l2) by (change (later s2 s1); by do 2 (etrans; [eassumption|])).
    destruct Hl as [l2 K2].
    assert (Hno : tc_name tc ∈ EXTERNAL_MUTATION_TOOLS -> ~ is_Some external).
    { intros Hn [x ->]. unfold mutation in Hmut. by apply bool_decide_eq_false in Hmut. }
    destruct (list_find _ guards) as [[i d]|] eqn:Ef; cbn in E.
    + apply obtain_approval_evidence in E as (l & K & Hr & _). exists ((l0 ++ l1 ++ l2) ++ l).
      assert (Hg : reviewed tc (expected_revision p) ((l0 ++ l1 ++ l2) ++ l)).
      { pose proof (reviewed_grows _ _ (l0 ++ l1 ++ l2) l [] Hr) as Hg. by rewrite app_nil_r in Hg. }
      split_and!; [by rewrite K, K2, K1, K0, <-!app_assoc|set_solver|done|done].
    + injection E as <- <-. exists (l0 ++ l1 ++ l2). split_and!; [by rewrite K2, K1, K0, <-!app_assoc|set_solver| |].
      * intros (d & Hd & Hr). apply list_find_None in Ef. rewrite Forall_forall in Ef. by destruct (Ef d Hd).
      * intros Hn Hx. by destruct (Hno Hn).
Qed.

Lemma final_checks_evidence t tc external s u s' : final_checks t tc external s = (Ok (inr u), s') ->
  seen s s' (Ev StopRequested (Ok false)).
Proof.
  unfold final_checks. intros E. quiet_step E. quiet_step E. quiet_step E. apply seq_ok in E as (stop & s3 & Es & E).
  destruct stop; [by apply seq_ok in E as (? & ? & _ & [=])|]. apply ask_ok in Es.
  assert (later s s2) by (etrans; [exact L|]; by etrans). eapply seen_before; [done|]. eapply seen_after; [exact Es|].
  eapply (quiet_later _ _ (Ok (inr u))); [|exact E]. hush.
Qed.

Lemma seen_in (s s' : Exec W) e l : seen s s' e -> tape s' = tape s ++ l -> e ∈ l.
Proof. intros (l' & E & Hin) E'. rewrite E in E'. by apply app_inv_head in E' as ->. Qed.

(** Widens evidence about a part of the call to the whole of it. *)
Lemma seen_within (s0 s s' s1 : Exec W) e : later s0 s -> seen s s' e -> later s' s1 -> seen s0 s1 e.
Proof. intros H1 H2 H3. eapply seen_before; [exact H1|]. by eapply seen_after. Qed.

Lemma quiet_admission tc baseline resolved err : quiet (admission tc baseline resolved err).
Proof. unfold admission. hush. Qed.

(** Follows the order of the steps. *)
Ltac chain := repeat first [assumption | reflexivity | etrans; [eassumption|]].

(** A call that is let through has its permission. *)
Lemma admission_permission tc baseline resolved err s t p external s' :
  admission tc baseline resolved err s = (Ok (inr (t, p, external)), s') ->
  exists l, tape s' = tape s ++ l /\ permission tc t resolved (expected_revision p) l.
Proof.
  intros E0. pose proof (quiet_later _ _ _ _ (quiet_admission tc baseline resolved err) E0) as [l Hl].
  exists l. split; [done|]. revert E0. unfold admission. intros E. quiet_step E.
  apply stage_ok in E as (u1 & s1 & E1 & E). apply stage_ok in E as (t' & s2 & E2 & E).
  apply stage_ok in E as (u3 & s3 & E3 & E). apply stage_ok in E as (u4 & s4 & E4 & E).
  quiet_step E. quiet_step E. quiet_step E. apply stage_ok in E as (guards & s8 & E8 & E).
  quiet_step E. apply seq_ok in E as (external' & s10 & E10 & E). apply stage_ok in E as (p' & s11 & E11 & E).
  quiet_step E. apply stage_ok in E as (u13 & s13 & E13 & [= <- <- <- <-]).
  assert (Hc : b_tool_call a2 = tc).
  { unfold authorization_context in E7. quiet_step E7. quiet_step E7. by injection E7 as <- <-. }
  assert (later s0 s1) by (eapply quiet_later; [|exact E1]; hush).
  assert (later s1 s2) by (eapply quiet_later; [|exact E2]; hush).
  assert (later s2 s3) by (eapply quiet_later; [|exact E3]; hush).
  assert (later s3 s4) by (eapply quiet_later; [|exact E4]; hush).
  assert (later s7 s8) by (eapply quiet_later; [|exact E8]; hush).
  assert (later s9 s10) by (eapply quiet_later; [|exact E10]; hush).
  assert (later s10 s11) by (eapply quiet_later; [|exact E11]; hush).
  assert (later s12 s13) by (eapply quiet_later; [|exact E13]; hush).
  assert (Hin : forall s1' s2' e, seen s1' s2' e -> later s s1' -> later s2' s13 -> e ∈ l).
  { intros x y e Hs Hx Hy. eapply seen_in; [|exact Hl]. by eapply seen_within. }
  apply approve_evidence in E11 as (l1 & K1 & Henv & Hguard & Hext).
  assert (Hpre : later s s10) by chain. assert (Hpost : later s11 s13) by chain.
  assert (exists la lb, l = la ++ l1 ++ lb) as (la & lb & ->).
  { destruct Hpre as [la Ea], Hpost as [lb Eb]. exists la, lb. rewrite Eb, K1, Ea, <-!app_assoc in Hl. by apply app_inv_head in Hl. }
  clear Hpre Hpost.
  split.
  - apply resolve_tool_evidence in E2 as [->|Hs]; [by left|right]. eapply Hin; [exact Hs|chain|chain].
  - eapply Hin; [by eapply check_mode_evidence|chain|chain].
  - eapply Hin; [by eapply preflight_evidence|chain|chain].
  - set_solver.
  - apply authorize_evidence in E8 as (left_ & Hs & Hall). exists a2, left_, guards.
    split_and!; [eapply Hin; [exact Hs|chain|chain]|done|done|]. intros Hex. by apply reviewed_grows, Hguard.
  - intros argument path Hn Ha Hx Hp Hne. exists external'. split.
    + eapply Hin; [by eapply external_evidence|chain|chain].
    + intros Hs. by apply reviewed_grows, Hext.
  - eapply Hin; [by eapply final_checks_evidence|chain|done].
Qed.
End Permission.

(** ** The execution of the tool *)

Section Effects.
Context {W : Type} `{Environment W}.
Abbreviation M := (stm (Exec W)).
Implicit Types s : Exec W.

Definition answer_of (ans : result (list Chunk * (exn + RawResult))) : exn + RawResult :=
  match ans with Ok (_, r) => r | Raise e => inl e end.

Definition entered (ks : list Scope) (l : list event) : Prop := forall k, k ∈ ks -> Ev (EnterScope k) (Ok ()) ∈ l.

(** The tool was run once, inside the scopes [ks]. *)
Definition executed (t : Tool) (tc : ToolCall) (ks : list Scope) (ans : result (list Chunk * (exn + RawResult))) (s s' : Exec W) : Prop :=
  exists la lb, tape s' = tape s ++ la ++ Ev (ToolExecute t (arguments tc)) ans :: lb /\ quiet_tape la /\ quiet_tape lb /\ entered ks la.

(** ... and the local variables tell how it ended. *)
Record ran (t : Tool) (tc : ToolCall) (ks : list Scope) (ans : result (list Chunk * (exn + RawResult))) (s s' : Exec W) : Prop := {
  ran_executed : executed t tc ks ans s s';
  ran_started : effect_started s' = true;
  ran_primary : primary_error s' = match answer_of ans with inl e => Some e | inr _ => None end;
  ran_raw : raw_result s' = match answer_of ans with inl _ => None | inr raw => Some raw end;
  ran_authoritative : authoritative s' = None;
}.

Record fresh s : Prop := {
  fresh_started : effect_started s = false;
  fresh_primary : primary_error s = None;
  fresh_raw : raw_result s = None;
  fresh_authoritative : authoritative s = None;
}.

Lemma fresh_frame s s' : fresh s -> frame s s' -> fresh s'.
Proof. intros [? ? ? ?] [_ ? ? ? ?]. split; congruence. Qed.

Lemma executed_before t tc ks ks' ans s s1 s2 l : tape s1 = tape s ++ l -> quiet_tape l -> entered ks' l ->
  executed t tc ks ans s1 s2 -> executed t tc (ks' ++ ks) ans s s2.
Proof.
  intros E Hl Hk (la & lb & E2 & Ha & Hb & He). exists (l ++ la), lb. split_and!; [|by apply Forall_app_2|done|].
  - by rewrite E2, E, <-!app_assoc.
  - intros k [Hin|Hin]%elem_of_app; apply elem_of_app; [left|right]; auto.
Qed.

Lemma executed_after t tc ks ans s s1 s2 l : executed t tc ks ans s s1 -> tape s2 = tape s1 ++ l -> quiet_tape l ->
  executed t tc ks ans s s2.
Proof.
  intros (la & lb & E & Ha & Hb & He) E2 Hl. exists la, (lb ++ l). split_and!; [|done|by apply Forall_app_2|done].
  by rewrite E2, E, <-!app_assoc.
Qed.

Lemma ran_frame t tc ks ans s s1 s2 : ran t tc ks ans s s1 -> frame s1 s2 -> ran t tc ks ans s s2.
Proof.
  intros [? ? ? ? ?] [(l & E & Hl) ? ? ? ?]. split; [by eapply executed_after|congruence..].
Qed.

Lemma entered_nil l : entered [] l.
Proof. intros k Hk. by apply elem_of_nil in Hk. Qed.

Lemma frame_ran t tc ks ans s s1 s2 : frame s s1 -> ran t tc ks ans s1 s2 -> ran t tc ks ans s s2.
Proof.
  intros [(l & E & Hl) _ _ _ _] [? ? ? ? ?]. split; [|done..]. by eapply (executed_before t tc ks []); [| |apply entered_nil|].
Qed.

(** A step that runs the tool at most once. *)
Definition attempts (t : Tool) (tc : ToolCall) (ks : list Scope) {A} (m : M A) : Prop := forall s, fresh s ->
  frame s (m s).2 \/ exists ans, ran t tc ks ans s (m s).2.

Lemma attempts_quiet t tc ks {A} (m : M A) : quiet m -> attempts t tc ks m.
Proof. intros Hm s _. left. apply Hm. Qed.

Lemma attempts_after t tc ks {A B} (m : M A) (k : A -> M B) h : attempts t tc ks m -> (forall a, quiet (k a)) -> (forall e, quiet (h e)) ->
  attempts t tc ks (after m k h).
Proof.
  intros Hm Hk Hh s Hs. unfold after. specialize (Hm s Hs). destruct (m s) as [[a|e] s1]; cbn in Hm;
    [pose proof (Hk a s1)|pose proof (Hh e s1)]; (destruct Hm as [?|[ans ?]]; [left; by etrans|right; exists ans; by eapply ran_frame]).
Qed.

Lemma attempts_seq t tc ks {A B} (m : M A) (k : A -> M B) : quiet m -> (forall a, attempts t tc ks (k a)) -> attempts t tc ks (seq m k).
Proof.
  intros Hm Hk s Hs. unfold seq, mbind, stm_bind. specialize (Hm s). destruct (m s) as [[a|e] s1]; [|by left].
  destruct (Hk a s1) as [?|[ans ?]]; [by eapply fresh_frame|left; by etrans|right; exists ans; by eapply frame_ran].
Qed.

Lemma attempts_then t tc ks {A B} (m : M A) (k : A -> M B) : attempts t tc ks m -> (forall a, quiet (k a)) -> attempts t tc ks (seq m k).
Proof.
  intros Hm Hk s Hs. unfold seq, mbind, stm_bind. specialize (Hm s Hs). destruct (m s) as [[a|e] s1]; [|done].
  cbn in Hm. specialize (Hk a s1). destruct Hm as [?|[ans ?]]; [left; by etrans|right; exists ans; by eapply ran_frame].
Qed.

(** Entering a scope first. *)
Lemma attempts_enter t tc ks k {A} (m : M A) : attempts t tc ks m ->
  attempts t tc (k :: ks) (let! _ := ask (EnterScope k) in m).
Proof.
  intros Hm s Hs. unfold seq, mbind, stm_bind. pose proof (quiet_ask (EnterScope k) eq_refl s) as Hq.
  destruct (ask (EnterScope k) s) as [[[]|e] s1] eqn:E; [|by left]. apply ask_tape in E.
  destruct (Hm s1) as [?|[ans [? ? ? ? ?]]]; [by eapply fresh_frame|left; by etrans|right; exists ans].
  split; [|done..]. eapply (executed_before t tc ks [k]); [exact E| | |done].
  - by repeat constructor.
  - intros k' ->%list_elem_of_singleton. by apply list_elem_of_singleton.
Qed.

Lemma scoped_unfold {A} k (m : M A) : scoped k m = let! _ := ask (EnterScope k) in
  after m
    (fun a => let! _ := try_ (ask (ExitScope k None)) note_scope_error in mret (Some a))
    (fun e => let! suppressed := try_ (ask (ExitScope k (Some e))) note_scope_error in
              if suppressed then mret None else lift (Raise e)).
Proof. done. Qed.

Lemma attempts_scoped t tc ks k {A} (m : M A) : attempts t tc ks m -> attempts t tc (k :: ks) (scoped k m).
Proof. intros Hm. rewrite scoped_unfold. apply attempts_enter, attempts_after; [done| |]; hush. Qed.

Lemma attempts_nested t tc ks ks' {A} (m : M A) : attempts t tc ks m -> attempts t tc (ks' ++ ks) (nested ks' m).
Proof.
  intros Hm. induction ks' as [|k ks' IH]; cbn [nested app].
  - apply attempts_then; [done|]. intros; hush.
  - apply attempts_then; [by apply attempts_scoped|]. intros; hush.
Qed.

Definition access_scopes (target : option pystr) : list Scope := match target with Some p => [WorkspaceAccess p] | None => [] end.

Lemma attempts_with_access t tc ks target {A} (m : M A) : attempts t tc ks m ->
  attempts t tc (access_scopes target ++ ks) (with_access target m).
Proof.
  intros Hm. unfold with_access. destruct target as [p|]; [|done]. cbn [access_scopes app].
  apply attempts_enter, attempts_after; [done| |]; hush.
Qed.
End Effects.

Section Running.
Context {W : Type} `{Environment W}.
Abbreviation M := (stm (Exec W)).
Implicit Types s : Exec W.

Lemma stream_chunks_total t tc l : total (stream_chunks (W:=W) t tc l).
Proof.
  induction l as [|c l IH]; cbn [stream_chunks]; [apply total_ret|]. apply total_seq; [|done].
  unfold stream_chunk. apply total_seq; [apply total_secondary|]. intros _. destruct (has_stream_observer t); [apply total_secondary|apply total_ret].
Qed.

(** What follows the tool's answer. *)
Definition after_answer (t : Tool) (tc : ToolCall) (chunks : list Chunk) (x : exn + RawResult) : M () :=
  let! _ := stream_chunks t tc chunks in
  match x with
  | inl e => let! _ := st_modify (fun s => set_execution (Some e) (raw_result s) (scope_error s) s) in lift (Raise e)
  | inr raw => st_modify (fun s => set_execution (primary_error s) (Some raw) (scope_error s) s)
  end.

Lemma after_answer_ends t tc chunks x s : exists s' l, after_answer t tc chunks x s = (match x with inl e => Raise e | inr _ => Ok () end, s')
  /\ tape s' = tape s ++ l /\ quiet_tape l /\ effect_started s' = effect_started s /\ authoritative s' = authoritative s
  /\ primary_error s' = (match x with inl e => Some e | inr _ => primary_error s end)
  /\ raw_result s' = (match x with inl _ => raw_result s | inr raw => Some raw end).
Proof.
  unfold after_answer. destruct (stream_chunks_total t tc chunks s) as (u & s3 & E3). pose proof (quiet_stream_chunks t tc chunks s) as Hf.
  rewrite E3 in Hf. destruct Hf as [(l & El & Hl) Hs3 Hp3 Hr3 Ha3]. cbn in *. unfold seq, mbind, stm_bind. rewrite E3.
  destruct x as [e|raw]; eexists _, l; split_and!; try reflexivity; cbn; done.
Qed.

(** The tool's own call. *)
Lemma call_tool_ran t tc s : fresh s -> exists r s' ans, call_tool t tc s = (r, s') /\ ran t tc [] ans s s'
  /\ r = match answer_of ans with inl e => Raise e | inr _ => Ok () end.
Proof.
  intros [Hst Hp Hr Ha]. set (s1 := set_locals (failures s) $"execute" true s).
  destruct (respond _ (ToolExecute t (arguments tc)) (world s1)) as [ans w] eqn:Ew.
  set (s2 := set_world (tape s1 ++ [Ev (ToolExecute t (arguments tc)) ans]) w s1).
  set (chunks := match ans with Ok (l, _) => l | Raise _ => [] end).
  destruct (after_answer_ends t tc chunks (answer_of ans) s2) as (s' & l & E & El & Hl & Hs' & Ha' & Hp' & Hr').
  exists (match answer_of ans with inl e => Raise e | inr _ => Ok () end), s', ans. split_and!; [|split|done].
  - transitivity (after_answer t tc chunks (answer_of ans) s2); [|exact E].
    unfold call_tool, after_answer, try_, after, ask, seq at 1 2, st_modify, mbind, stm_bind. fold s1. rewrite Ew. fold s2.
    unfold chunks. by destruct ans as [[cs x]|e].
  - exists [], l. rewrite El. cbn. rewrite <-app_assoc. split_and!; [done|constructor|done|apply entered_nil].
  - by rewrite Hs'.
  - by rewrite Hp'; cbn; rewrite Hp.
  - by rewrite Hr'; cbn; rewrite Hr.
  - by rewrite Ha'.
Qed.

Lemma attempts_call_tool t tc : attempts t tc [] (call_tool (W:=W) t tc).
Proof. intros s Hs. right. destruct (call_tool_ran t tc s Hs) as (r & s' & ans & -> & Hr & _). by exists ans. Qed.

(** The scopes of a call. *)
Definition call_scopes (t : Tool) (revision external : option pystr) : list Scope :=
  execution_scopes t revision ++ access_scopes external.

(** What a run left, and what it returned. *)
Definition outcome_known (t : Tool) (tc : ToolCall) (ks : list Scope) s (p : result () * Exec W) : Prop :=
  frame s p.2 \/ exists ans, ran t tc ks ans s p.2 /\ p.1 = match answer_of ans with inl e => Raise e | inr _ => Ok () end.

Lemma run_in_scopes_known t tc revision external s : fresh s ->
  outcome_known t tc (call_scopes t revision external) s (run_in_scopes t tc revision external s).
Proof.
  intros Hs. unfold run_in_scopes, call_scopes. set (body := seq (nested _ _) _).
  assert (Hb : attempts t tc (execution_scopes t revision ++ access_scopes external) body).
  { unfold body. apply attempts_then; [|intros; hush]. apply attempts_nested, attempts_seq; [hush|]. intros _.
    rewrite <-(app_nil_r (access_scopes external)). apply attempts_with_access, attempts_call_tool. }
  set (ks := _ ++ _) in *. unfold outcome_known, seq, mbind, stm_bind, try_, after. specialize (Hb s Hs).
  destruct (body s) as [[a|e] s1]; cbn in Hb |- *.
  - destruct Hb as [Hf|(ans & Hr)].
    + left. pose proof (fresh_primary _ (fresh_frame _ _ Hs Hf)) as ->. done.
    + right. exists ans. rewrite (ran_primary _ _ _ _ _ _ Hr). destruct (answer_of ans); cbn; done.
  - destruct Hb as [Hf|(ans & Hr)].
    + left. destruct (fresh_frame _ _ Hs Hf) as [_ Hp Hraw _]. rewrite Hp, Hraw. cbn. done.
    + rewrite (ran_primary _ _ _ _ _ _ Hr), (ran_raw _ _ _ _ _ _ Hr). right. destruct (answer_of ans) as [e'|raw] eqn:Ea.
      * destruct (scope_error s1).
        -- destruct (total_capture $"execution_cleanup" e s1) as (u & s2 & E). rewrite E. pose proof (quiet_capture $"execution_cleanup" e s1) as Hq.
           rewrite E in Hq. exists ans. rewrite Ea. split; [|done]. by eapply ran_frame.
        -- exists ans. by rewrite Ea.
      * destruct (total_capture $"execution_cleanup" e s1) as (u & s2 & E). rewrite E. pose proof (quiet_capture $"execution_cleanup" e s1) as Hq.
        rewrite E in Hq. cbn in Hq |- *. pose proof (ran_frame _ _ _ _ _ _ _ Hr Hq) as Hr2. rewrite (ran_primary _ _ _ _ _ _ Hr2), Ea. cbn.
        exists ans. by rewrite Ea.
Qed.

Lemma finishing_known t tc ks (m : M ()) f s : (forall b, quiet (f b)) -> (forall b, total (f b)) ->
  outcome_known t tc ks s (m s) -> outcome_known t tc ks s (finishing m f s).
Proof.
  intros Hq Ht Hm. unfold finishing, after. destruct (m s) as [[[]|e] s1].
  - destruct (Ht false s1) as ([] & s2 & E). pose proof (Hq false s1) as Hf. rewrite E in Hf. unfold seq, mbind, stm_bind. rewrite E.
    destruct Hm as [Hm|(ans & Hm & Hr)]; [left|right; exists ans]; cbn in *; [by etrans|]. split; [by eapply ran_frame|done].
  - destruct (Ht true s1) as ([] & s2 & E). pose proof (Hq true s1) as Hf. rewrite E in Hf. unfold seq, mbind, stm_bind. rewrite E.
    destruct Hm as [Hm|(ans & Hm & Hr)]; [left|right; exists ans]; cbn in *; [by etrans|]. split; [by eapply ran_frame|done].
Qed.

Lemma run_tool_known t tc revision external s : fresh s ->
  outcome_known t tc (call_scopes t revision external) s (run_tool t tc revision external s).
Proof.
  intros Hs. unfold run_tool. apply finishing_known; [| |by apply run_in_scopes_known].
  - intros _. hush.
  - intros _. apply total_seq; [apply total_modify|]. intros _. apply total_seq; [apply total_secondary|]. intros _.
    destruct (is_effectful t tc); [apply total_secondary|apply total_ret].
Qed.

(** ** Secondary processing *)

Definition hushed s s' : Prop := exists l, tape s' = tape s ++ l /\ quiet_tape l.

Lemma frame_hushed s s' : frame s s' -> hushed s s'.
Proof. by intros []. Qed.
#[export] Instance hushed_preorder : PreOrder hushed.
Proof.
  split; [intros s; by apply same_tape|]. intros s1 s2 s3 (l & E & Hl) (l' & E' & Hl'). exists (l ++ l').
  split; [by rewrite E', E, app_assoc|by apply Forall_app_2].
Qed.

(** Always returns, makes quiet calls only, and what it returns satisfies [P]. *)
Definition settles {A} (m : M A) (P : A -> Prop) : Prop := forall s, exists a s', m s = (Ok a, s') /\ P a /\ hushed s s'.

Lemma settles_seq {A B} (m : M A) (k : A -> M B) P Q : settles m P -> (forall a, P a -> settles (k a) Q) -> settles (seq m k) Q.
Proof.
  intros Hm Hk s. destruct (Hm s) as (a & s1 & E & Ha & H1). destruct (Hk a Ha s1) as (b & s2 & E2 & Hb & H2).
  exists b, s2. unfold seq, mbind, stm_bind. rewrite E, E2. split_and!; [done|done|by etrans].
Qed.
Lemma settles_ret {A} (a : A) (P : A -> Prop) : P a -> settles (mret a) P.
Proof. intros HP s. exists a, s. by split_and!. Qed.
Lemma settles_lift {A} (r : result A) a (P : A -> Prop) : r = Ok a -> P a -> settles (lift r) P.
Proof. intros -> HP s. exists a, s. by split_and!. Qed.
Lemma settles_quiet {A} (m : M A) : total m -> quiet m -> settles m (fun _ => True).
Proof.
  intros Ht Hq s. destruct (Ht s) as (a & s' & E). exists a, s'. split_and!; [done|done|]. apply frame_hushed. specialize (Hq s). by rewrite E in Hq.
Qed.
Lemma settles_secondary ph (m : M ()) : quiet m -> settles (secondary ph m) (fun _ => True).
Proof. intros Hm. apply settles_quiet; [apply total_secondary|]. by apply quiet_secondary. Qed.
Lemma settles_capture ph e : settles (capture ph e : M ()) (fun _ => True).
Proof. apply settles_quiet; [apply total_capture|hush]. Qed.
Lemma settles_request_stop : settles (request_stop_safely : M ()) (fun _ => True).
Proof. apply settles_quiet; [apply total_request_stop|hush]. Qed.
Lemma settles_try {A} (m : M A) h P : quiet m -> yields m P -> (forall e, settles (h e) P) -> settles (try_ m h) P.
Proof.
  intros Hq Hy Hh s. unfold try_, after. specialize (Hq s). destruct (m s) as [[a|e] s1] eqn:E.
  - exists a, s1. split_and!; [done|by eapply Hy|by apply frame_hushed].
  - destruct (Hh e s1) as (a & s2 & E2 & Ha & H2). exists a, s2. split_and!; [done..|]. etrans; [by apply frame_hushed|done].
Qed.
Lemma settles_get {A} (f : Exec W -> A) : settles (get f) (fun _ => True).
Proof. intros s. by exists (f s), s. Qed.
Lemma settles_authoritative o : settles (st_modify (set_authoritative (W:=W) o)) (fun _ => True).
Proof. intros s. eexists _, _. split_and!; [done|done|]. by apply same_tape. Qed.

Lemma settles_enrich ph (m : M ToolOutcome) o (P : ToolOutcome -> Prop) : quiet m -> yields m P -> P o -> settles (enrich ph m o) P.
Proof.
  intros Hq Hy Ho s. unfold enrich, try_, after. unfold seq at 1, mbind, stm_bind. specialize (Hq s).
  destruct (m s) as [[a|e] s1] eqn:E.
  - eexists a, _. split_and!; [done|by eapply Hy|]. etrans; [by apply frame_hushed|]. by apply same_tape.
  - destruct (settles_seq (capture ph e) (fun _ => let! _ := st_modify (set_authoritative (Some o)) in mret o) (fun _ => True) P) with (s := s1)
      as (a & s2 & E2 & Ha & H2).
    + apply settles_capture.
    + intros _ _. eapply settles_seq; [apply settles_authoritative|]. intros _ _. by apply settles_ret.
    + exists a, s2. split_and!; [done|done|]. etrans; [by apply frame_hushed|done].
Qed.
End Running.

(** ** Outcomes on their way to publication *)

(** Effects began, and nothing more is known. *)
Definition says_started (o : ToolOutcome) : Prop :=
  outcome_valid o /\ success o = false /\ effect_fact o = Some (VStr $"started").

(** A failure says where its effects stand. *)
Definition tells_effects (o : ToolOutcome) : Prop :=
  outcome_valid o /\ (success o = false -> exists s, effect_fact o = Some (VStr s) /\ s ∈ EFFECT_STATES).

Lemma not_started_tells o : says_not_started o -> tells_effects o.
Proof. intros (Hv & _ & He). split; [done|]. intros _. exists $"not_started". split; [done|set_solver]. Qed.
Lemma started_tells o : says_started o -> tells_effects o.
Proof. intros (Hv & _ & He). split; [done|]. intros _. exists $"started". split; [done|set_solver]. Qed.
Lemma ran_tells o : says_ran o -> tells_effects o.
Proof. intros (Hv & Hr). split; [done|]. intros Hs. destruct (Hr Hs) as (s & ? & ? & _). by exists s. Qed.

(** The last projection keeps the primary fields and the fact about effects. *)
Lemma finalized c o : tells_effects o -> exists o', finalize_post_effect_projection c o = Ok o'
  /\ outcome_valid o' /\ primary o' = primary o /\ effect_fact o' = effect_fact o.
Proof.
  intros [Hv He]. unfold finalize_post_effect_projection.
  assert (exists o1, (if success o then Ok o else
        o ← with_failure_facts {| phase := $"tool_result"; error_type := $"ToolReportedFailure"; effect_state := $"unknown";
                                  completion_state := $"uncertain"; retry_safety := UNSAFE |} false o;
        with_canonical_failure_projection o) = Ok o1 /\ outcome_valid o1 /\ primary o1 = primary o /\ effect_fact o1 = effect_fact o)
    as (o1 & -> & Hv1 & Hp1 & He1).
  { destruct (success o) eqn:Hs; [by exists o|]. destruct (He eq_refl) as (s & Hf & Hin).
    match goal with |- context [with_failure_facts ?f false o] =>
      destruct (filled_facts f o s Hv Hs Hf Hin) as (o1 & -> & Hv1 & Hp1 & Hpres & He1) end. cbn [mbind result_bind].
    destruct (canonical_projection_derived o1 Hv1 (fun _ => Hpres)) as (o2 & -> & Hv2 & Hp2 & Hm2).
    exists o2. split_and!; [done|done|congruence|]. unfold effect_fact in *. congruence. }
  cbn [mbind result_bind]. destruct (post_effect_derived c o1 Hv1) as (m & (o2 & -> & Hv2 & Hp2 & Hm2) & Hm).
  exists o2. split_and!; [done|done|congruence|]. unfold effect_fact. rewrite Hm2, Hm by done. exact He1.
Qed.

Lemma same_say o o' : outcome_valid o' -> primary o' = primary o -> effect_fact o' = effect_fact o ->
  (says_not_started o -> says_not_started o') /\ (says_started o -> says_started o') /\ (says_ran o -> says_ran o').
Proof.
  intros Hv Hp He. unfold says_not_started, says_started, says_ran. rewrite He, (primary_success _ _ Hp), (primary_status _ _ Hp). naive_solver.
Qed.

(** The failures of the runtime itself. *)
Lemma pre_effect_failure_says ph e cancelled : exists o, pre_effect_failure_outcome ph e cancelled = Ok o /\ says_not_started o.
Proof.
  unfold pre_effect_failure_outcome.
  match goal with |- context [told_outcome ?a ?b ?c ?d ?f] => destruct (told_outcome_ok a b c d f) as (o & -> & Hv & Hs & _) end;
    [by destruct cancelled|].
  cbn [mbind result_bind]. destruct (not_started_facts ph (safe_exception_type e) SAFE o Hv Hs) as (o' & -> & ? & _). by exists o'.
Qed.

Lemma execution_failure_says ph e : exists o, execution_failure_outcome ph e = Ok o /\ says_started o.
Proof.
  unfold execution_failure_outcome.
  match goal with |- context [told_outcome ?a ?b ?c ?d ?f] => destruct (told_outcome_ok a b c d f) as (o & -> & Hv & Hs & _) end;
    [by destruct (is_keyboard_interrupt e)|].
  cbn [mbind result_bind].
  match goal with |- context [with_failure_facts ?f true o] =>
    destruct (replaced_facts f o Hv Hs) as (o' & -> & Hv' & Hp & _ & He) end.
  exists o'. split; [done|]. split_and!; [done|by rewrite (primary_success _ _ Hp)|by rewrite He].
Qed.

(** What the published outcome says after the tool answered. *)
Definition tells (ans : result (list Chunk * (exn + RawResult))) (o : ToolOutcome) : Prop :=
  match answer_of ans with
  | inl e => says_started o /\ exists ph o0, execution_failure_outcome ph e = Ok o0 /\ primary o = primary o0
  | inr raw =>
    says_ran o
    /\ ((exists seconds o0, coerce_returned_outcome raw seconds = Ok o0 /\ primary o = primary o0)
        \/ (exists seconds e e' o0, coerce_returned_outcome raw seconds = Raise e /\ completed_result_failure e' = Ok o0
              /\ primary o = primary o0))
  end.

Lemma tells_tells_effects ans o : tells ans o -> tells_effects o.
Proof. unfold tells. destruct (answer_of ans); intros [Ho _]; [by apply started_tells|by apply ran_tells]. Qed.

Lemma tells_finalized ans o o' : outcome_valid o' -> primary o' = primary o -> effect_fact o' = effect_fact o -> tells ans o -> tells ans o'.
Proof.
  intros Hv Hp He. destruct (same_say o o' Hv Hp He) as (_ & H2 & H3). unfold tells. rewrite Hp.
  destruct (answer_of ans); intros [Ho Hrest]; (split; [auto|exact Hrest]).
Qed.

Section Settled.
Context {W : Type} `{Environment W}.
Abbreviation M := (stm (Exec W)).
Implicit Types s : Exec W.

Definition enriched (o0 o : ToolOutcome) : Prop := says_ran o /\ primary o = primary o0.

Lemma noted_changes changes o0 o : enriched o0 o -> settles (note_changes (W:=W) changes o) (enriched o0).
Proof.
  intros [Hr Hp]. unfold note_changes. destruct changes as [|c changes]; [by apply settles_ret|].
  apply settles_enrich; [hush| |done]. apply yields_lift. intros o2 E.
  match type of E with context [with_model_projection ?a ?b ?c o] =>
    destruct (with_model_projection_derived a b c o (proj1 Hr)) as (o1 & E1 & Hv1 & Hp1 & Hm1) end.
  rewrite E1 in E. cbn [mbind result_bind] in E.
  destruct (replace_metadata_derived (dset (metadata o) $"workspace_changed_during_approval" (VBool true)) o1 Hv1) as (o3 & E3 & Hv3 & Hp3 & Hm3).
  rewrite E3 in E. injection E as ->.
  assert (Hsay : effect_fact o2 = effect_fact o) by (unfold effect_fact; by rewrite Hm3, dget_dset_ne by done).
  destruct (same_say o o2 Hv3 ltac:(congruence) Hsay) as (_ & _ & H3). split; [auto|congruence].
Qed.

Lemma marked_reviewed shown o0 o o' : enriched o0 o -> mark_reviewed shown o = Ok o' -> enriched o0 o'.
Proof.
  intros [Hr Hp]. unfold mark_reviewed. destruct shown as [u|], (diff o) as [d|]; try by intros [= <-].
  case_decide; [|by intros [= <-]].
  destruct (replace_metadata_derived (dset (metadata o) $"diff_reviewed" (VBool true)) o (proj1 Hr)) as (o3 & -> & Hv3 & Hp3 & Hm3).
  intros [= <-]. assert (Hsay : effect_fact o3 = effect_fact o) by (unfold effect_fact; by rewrite Hm3, dget_dset_ne by done).
  destruct (same_say o o3 Hv3 Hp3 Hsay) as (_ & _ & H3). split; [auto|congruence].
Qed.

Lemma transformed tc facts shown o0 o : enriched o0 o -> settles (transform (W:=W) tc facts shown o) (enriched o0).
Proof.
  intros Ho. unfold transform. apply settles_enrich; [hush| |done].
  apply yields_any. intros t. apply yields_lift. intros o2 E. apply bind_ok in E as (o1 & E1 & E2).
  destruct Ho as [Hr Hp]. destruct (accepted_says_ran _ _ _ _ _ Hr E1) as [Hr1 Hp1].
  eapply marked_reviewed; [|exact E2]. split; [done|congruence].
Qed.

(** After a result that makes sense: its primary fields are fixed. *)
Definition rest_of_return (tc : ToolCall) (p : Approval) (o : ToolOutcome) : M ToolOutcome :=
  let! _ := st_modify (set_authoritative (Some o)) in
  let! o := note_changes (workspace_changes p) o in
  let! _ := secondary $"working_directory_sync" (ask SyncWorkingDirectory) in
  let! after := try_ (let! a := ask ReadAgent in mret (Some (a_facts a)))
                     (fun e => let! _ := capture $"after_tool_context" e in mret None) in
  let! o := match after with
            | None => mret o
            | Some facts =>
              let! o := transform tc facts (reviewed_diff p) o in
              let! _ := observe_after tc facts o in
              mret o
            end in
  let! _ := store_artifact tc o in
  mret o.

Lemma rest_settles tc p o : says_ran o -> settles (rest_of_return tc p o) (enriched o).
Proof.
  intros Ho. unfold rest_of_return. eapply settles_seq; [apply settles_authoritative|]. intros _ _.
  eapply settles_seq; [by apply noted_changes|]. intros o1 H1.
  eapply settles_seq; [apply settles_secondary; hush|]. intros _ _.
  eapply (settles_seq _ _ (fun _ => True)).
  { apply settles_try; [hush|by intros ? ? ? ?|]. intros e. eapply settles_seq; [apply settles_capture|]. intros _ _. by apply settles_ret. }
  intros after _. apply (settles_seq _ _ (enriched o)).
  - destruct after as [facts|]; [|by apply settles_ret]. eapply settles_seq; [by apply transformed|]. intros o2 H2.
    eapply settles_seq; [apply settles_secondary; hush|]. intros _ _. by apply settles_ret.
  - intros o2 H2. apply (settles_seq _ _ (fun _ => True)); [|intros _ _; by apply settles_ret].
    unfold store_artifact. destruct (archive_reference o2); [|by apply settles_ret]. apply settles_secondary. hush.
Qed.

Lemma after_return_ran tc p raw s : raw_result s = Some raw ->
  (exists seconds e, coerce_returned_outcome raw seconds = Raise e /\ after_return tc p s = (Raise e, s))
  \/ (exists seconds o0 o s', coerce_returned_outcome raw seconds = Ok o0 /\ after_return tc p s = (Ok o, s') /\ enriched o0 o /\ hushed s s').
Proof.
  intros Hraw.
  assert (E : after_return tc p s = seq (lift (coerce_returned_outcome (default RawOther (raw_result s)) (execution_seconds s)))
                                        (rest_of_return tc p) s) by done.
  rewrite Hraw in E. change (default RawOther (Some raw)) with raw in E. unfold seq at 1, lift, st_lift, mbind, stm_bind in E.
  destruct (coerce_returned_outcome raw (execution_seconds s)) as [o0|e] eqn:Ec.
  - right. destruct (rest_settles tc p o0 (coerced_says_ran _ _ _ Ec) s) as (o & s' & E' & Ho & Hh).
    exists (execution_seconds s), o0, o, s'. split_and!; [done|by rewrite E; exact E'|done|done].
  - left. by exists (execution_seconds s), e.
Qed.
End Settled.

Section Execution.
Context {W : Type} `{Environment W}.
Abbreviation M := (stm (Exec W)).
Implicit Types s : Exec W.

Lemma seq_get {A B} (f : Exec W -> A) (k : A -> M B) s : seq (get f) k s = k (f s) s.
Proof. done. Qed.

Lemma settle_not_started e s : effect_started s = false -> settle_execution_error e s = (Raise e, s).
Proof. intros Hs. unfold settle_execution_error, seq, get, mbind, stm_bind. by rewrite Hs. Qed.

Lemma settle_started e s : effect_started s = true -> exists s1, frame s s1 /\ settle_execution_error e s = keep_result e s1.
Proof.
  intros Hs. unfold settle_execution_error, seq, get, mbind, stm_bind. rewrite Hs. cbn [negb].
  destruct (is_exception e); [by exists s|]. destruct (total_request_stop s) as (u & s1 & E).
  pose proof (quiet_request_stop s) as Hq. rewrite E in Hq |- *. by exists s1.
Qed.

(** The tool raised: its own exception is what is reported. *)
Lemma keep_failed e s : authoritative s = None -> raw_result s = None ->
  exists ph o, keep_result e s = (Ok o, s) /\ execution_failure_outcome ph e = Ok o /\ says_started o.
Proof.
  intros Ha Hr. destruct (execution_failure_says (pre_phase s) e) as (o & E & Ho).
  exists (pre_phase s), o. split_and!; [|done|done]. unfold keep_result, seq, get, lift, st_lift, mbind, stm_bind, mret, stm_ret.
  rewrite Ha, Hr. by rewrite E.
Qed.

(** The tool returned, and what it returned could not be read. *)
Lemma keep_unreadable e raw s : authoritative s = None -> raw_result s = Some raw ->
  exists o s', keep_result e s = (Ok o, s') /\ hushed s s'
    /\ ((exists seconds, coerce_returned_outcome raw seconds = Ok o) \/ (exists e', completed_result_failure e' = Ok o)).
Proof.
  intros Ha Hr. unfold keep_result.
  rewrite (seq_get authoritative), Ha, (seq_get raw_result), Hr. cbv zeta.
  set (failed := bool_decide _ && _).
  enough (Hs : settles (if failed then let! o := lift (completed_result_failure e) in mret (Some o)
                  else
                   let! seconds := get execution_seconds in
                   try_ (let! o := lift (coerce_returned_outcome raw seconds) in mret (Some o))
                        (fun e2 => let! _ := (if is_exception e2 then mret () else request_stop_safely) in
                                   let! o := lift (completed_result_failure e2) in mret (Some o)) : M (option ToolOutcome))
            (fun r => exists o, r = Some o /\ ((exists seconds, coerce_returned_outcome raw seconds = Ok o) \/ (exists e', completed_result_failure e' = Ok o)))).
  { eapply settles_seq in Hs; [destruct (Hs s) as (o & s' & E & Ho & Hh); exists o, s'; split_and!; [exact E|exact Hh|exact Ho]|].
    intros _ (o & -> & Ho). apply (settles_seq _ _ (fun _ => True)).
    - destruct failed; [by apply settles_ret|apply settles_capture].
    - intros _ _. by apply settles_ret. }
  assert (Hc : forall e2, settles (let! o := lift (completed_result_failure e2) in mret (Some o) : M (option ToolOutcome))
    (fun r => exists o, r = Some o /\ ((exists seconds, coerce_returned_outcome raw seconds = Ok o) \/ (exists e', completed_result_failure e' = Ok o)))).
  { intros e2. destruct (completed_result_failure_ok e2) as (o & E & _). eapply (settles_seq _ _ (fun o => completed_result_failure e2 = Ok o)).
    - by eapply settles_lift.
    - intros o' Ho'. apply settles_ret. exists o'. split; [done|right; by exists e2]. }
  destruct failed; [apply Hc|]. eapply settles_seq; [apply settles_get|]. intros seconds _. apply settles_try; [hush| |].
  - eapply yields_seq; [by apply (yields_lift _ (fun o => coerce_returned_outcome raw seconds = Ok o))|].
    intros o Ho. apply yields_ret. exists o. split; [done|left; by exists seconds].
  - intros e2. apply (settles_seq _ _ (fun _ => True)); [|intros _ _; apply Hc].
    destruct (is_exception e2); [by apply settles_ret|apply settles_request_stop].
Qed.

Lemma executed_hushed t tc ks ans s s1 s2 : executed t tc ks ans s s1 -> hushed s1 s2 -> executed t tc ks ans s s2.
Proof. intros Hx (l & E & Hl). by eapply executed_after. Qed.

(** What an execution does and returns. *)
Definition execution_known (t : Tool) (tc : ToolCall) (ks : list Scope) s (r : result ToolOutcome * Exec W) : Prop :=
  (frame s r.2 /\ exists e, r.1 = Raise e)
  \/ exists ans o, executed t tc ks ans s r.2 /\ r.1 = Ok o /\ tells ans o.

(** Settling, after the tool has raised. *)
Lemma settled_failed t tc ks ans e s s2 : ran t tc ks ans s s2 -> answer_of ans = inl e ->
  execution_known t tc ks s (settle_execution_error e s2).
Proof.
  intros Hr Ha. destruct (settle_started e s2 (ran_started _ _ _ _ _ _ Hr)) as (s3 & Hf & ->).
  pose proof (ran_frame _ _ _ _ _ _ _ Hr Hf) as Hr3. pose proof (ran_raw _ _ _ _ _ _ Hr3) as Hraw. rewrite Ha in Hraw.
  destruct (keep_failed e s3 (ran_authoritative _ _ _ _ _ _ Hr3) Hraw) as (ph & o & -> & E & Ho).
  right. exists ans, o. split_and!; [by apply ran_executed|done|]. unfold tells. rewrite Ha. split; [done|by exists ph, o].
Qed.

(** Settling, after its result could not be read. *)
Lemma settled_unreadable t tc ks ans raw seconds e s s2 : ran t tc ks ans s s2 -> answer_of ans = inr raw ->
  coerce_returned_outcome raw seconds = Raise e -> execution_known t tc ks s (settle_execution_error e s2).
Proof.
  intros Hr Ha Hc. destruct (settle_started e s2 (ran_started _ _ _ _ _ _ Hr)) as (s3 & Hf & ->).
  pose proof (ran_frame _ _ _ _ _ _ _ Hr Hf) as Hr3. pose proof (ran_raw _ _ _ _ _ _ Hr3) as Hraw. rewrite Ha in Hraw.
  destruct (keep_unreadable e raw s3 (ran_authoritative _ _ _ _ _ _ Hr3) Hraw) as (o & s4 & -> & Hh & Ho).
  right. exists ans, o. split_and!; [eapply executed_hushed; [by apply ran_executed|done]|done|]. unfold tells. rewrite Ha.
  destruct Ho as [(n & E)|(e' & E)].
  - split; [by eapply coerced_says_ran|]. left. by exists n, o.
  - destruct (completed_result_failure_ok e') as (o' & E' & Ho). rewrite E in E'. injection E' as <-. split; [done|].
    right. by exists seconds, e, e', o.
Qed.

Lemma execution_is_known t tc baseline p external s : fresh s ->
  execution_known t tc (call_scopes t (expected_revision p) external) s (execution t tc baseline p external s).
Proof.
  intros Hs. unfold execution, try_, after. set (ks := call_scopes _ _ _).
  set (setup := match baseline with None => _ | Some _ => _ end).
  assert (Hq : quiet setup) by (subst setup; hush).
  unfold seq at 1, mbind, stm_bind. pose proof (quiet_set_phase $"execution_setup" s) as Hf0.
  destruct (set_phase _ s) as [[u|e] s0] eqn:E0; [|done]. cbn in Hf0.
  unfold seq at 1, mbind, stm_bind. specialize (Hq s0). destruct (setup s0) as [[v|e] s1] eqn:E1; cbn in Hq;
    assert (Hf1 : frame s s1) by (by etrans); pose proof (fresh_frame _ _ Hs Hf1) as Hs1; cycle 1.
  { rewrite settle_not_started by apply Hs1. left. by eauto. }
  unfold seq, mbind, stm_bind. pose proof (run_tool_known t tc (expected_revision p) external s1 Hs1) as Hk. fold ks in Hk.
  destruct (run_tool t tc (expected_revision p) external s1) as [r s2] eqn:E2. destruct Hk as [Hf2|(ans & Hr & Hres)]; cbn in *.
  - assert (Hf : frame s s2) by (by etrans). pose proof (fresh_frame _ _ Hs Hf) as [Hst _ Hraw _].
    assert (Hn : forall e, execution_known t tc ks s (settle_execution_error e s2)).
    { intros e. rewrite settle_not_started by done. left. by eauto. }
    destruct r as [w|e]; [|apply Hn]. unfold after_return, seq at 1 2 3, get, lift, st_lift, mbind, stm_bind. rewrite Hraw. apply Hn.
  - assert (Hr0 : ran t tc ks ans s s2) by (by eapply frame_ran). destruct (answer_of ans) as [e|raw] eqn:Ea; subst r.
    + by eapply settled_failed.
    + pose proof (ran_raw _ _ _ _ _ _ Hr0) as Hraw. rewrite Ea in Hraw.
      destruct (after_return_ran tc p raw s2 Hraw) as [(n & e & Hc & ->)|(n & o0 & o & s3 & Hc & -> & [Ho Hp] & Hh)].
      * by eapply settled_unreadable.
      * right. exists ans, o. split_and!; [eapply executed_hushed; [by apply ran_executed|done]|done|]. unfold tells. rewrite Ea.
        split; [done|]. left. by exists n, o0.
Qed.
End Execution.

(** ** The whole of a call *)

Section Whole.
Context {W : Type} `{Environment W}.
Abbreviation M := (stm (Exec W)).
Implicit Types s : Exec W.

Lemma stops_admission tc baseline resolved err : stops (admission (W:=W) tc baseline resolved err).
Proof. unfold admission. halt. Qed.

Lemma reviewed_prefix tc rev l l' : reviewed tc rev l -> reviewed tc rev (l ++ l').
Proof. apply (reviewed_grows _ _ [] l l'). Qed.

Lemma permission_grows tc t resolved rev l l' : permission tc t resolved rev l -> permission tc t resolved rev (l ++ l').
Proof.
  assert (Hin : forall e : event, e ∈ l -> e ∈ l ++ l') by (intros; apply elem_of_app; by left).
  intros [Hcall Hmode Hschema Henv (c & left_ & ds & Hc & ? & ? & Hr) Hout Hstop]. split; [destruct Hcall; auto|auto..| | |auto].
  - exists c, left_, ds. split_and!; [auto|done|done|]. intros Hd. by apply reviewed_prefix, Hr.
  - intros argument p Hn Ha Hx Hp Hne. destruct (Hout argument p Hn Ha Hx Hp Hne) as (target & Ht & Hrev).
    exists target. split; [auto|]. intros Hs. by apply reviewed_prefix, Hrev.
Qed.

(** The tool was run once, with the model's arguments, with permission, on the
    revision of its document that was permitted, and [o] tells how it ended. *)
Definition permitted_run (tc : ToolCall) (resolved : Resolved) (o : ToolOutcome) (l : list event) : Prop :=
  exists t rev ans before after, l = before ++ Ev (ToolExecute t (arguments tc)) ans :: after
    /\ quiet_tape before /\ quiet_tape after /\ permission tc t resolved rev before
    /\ (has_workspace_revision_scope t = true -> Ev (EnterScope (RevisionScope rev)) (Ok ()) ∈ before)
    /\ tells ans o.

Definition lawful (tc : ToolCall) (resolved : Resolved) (o : ToolOutcome) (l : list event) : Prop :=
  (quiet_tape l /\ says_not_started o) \/ permitted_run tc resolved o l.

Lemma lawful_after tc resolved o l l' : lawful tc resolved o l -> quiet_tape l' -> lawful tc resolved o (l ++ l').
Proof.
  intros [[Hl Ho]|(t & rev & ans & la & lb & -> & Ha & Hb & Hp & Hr & Ht)] Hl'; [left|right].
  - split; [by apply Forall_app_2|done].
  - exists t, rev, ans, la, (lb ++ l'). split_and!; try done; [by rewrite <-app_assoc|by apply Forall_app_2].
Qed.

Lemma lawful_finalized tc resolved o o' l : lawful tc resolved o l -> outcome_valid o' -> primary o' = primary o ->
  effect_fact o' = effect_fact o -> lawful tc resolved o' l.
Proof.
  intros [[Hl Ho]|(t & rev & ans & la & lb & -> & Ha & Hb & Hp & Hr & Ht)] Hv Hpr He.
  - left. split; [done|]. by apply (same_say o o').
  - right. exists t, rev, ans, la, lb. split_and!; try done. by eapply tells_finalized.
Qed.

Lemma lawful_tells tc resolved o l : lawful tc resolved o l -> tells_effects o.
Proof.
  intros [[_ Ho]|(t & rev & ans & la & lb & _ & _ & _ & _ & _ & Ho)]; [by apply not_started_tells|by eapply tells_tells_effects].
Qed.

(** The pipeline: it returns and is lawful, or raises before anything started. *)
Lemma pipeline_lawful tc baseline resolved err s : fresh s ->
  let '(r, s') := pipeline tc baseline resolved err s in
  match r with
  | Ok (inl o) | Ok (inr o) => exists l, tape s' = tape s ++ l /\ lawful tc resolved o l
  | Raise _ => frame s s'
  end.
Proof.
  intros Hs. unfold pipeline. unfold stage, seq at 1, mbind, stm_bind.
  pose proof (quiet_admission tc baseline resolved err s) as Hq. pose proof (stops_admission tc baseline resolved err s) as Hst.
  destruct (admission tc baseline resolved err s) as [[[o|[[t p] external]]|e] s1] eqn:Ea; cbn in Hq; [| |done].
  - cbn. destruct Hq as [(l & El & Hl) _ _ _ _]. exists l. split; [done|]. left. split; [done|]. by eapply (Hst (inl o)).
  - apply admission_permission in Ea as (l & El & Hp). pose proof (fresh_frame _ _ Hs Hq) as Hs1.
    pose proof (execution_is_known t tc baseline p external s1 Hs1) as Hk. unfold seq, mbind, stm_bind.
    destruct (execution t tc baseline p external s1) as [r s2]. destruct Hk as [[Hf [e He]]|(ans & o & Hx & He & Ht)]; cbn in *; subst r.
    + by etrans.
    + destruct Hx as (la & lb & E2 & Ha & Hb & Hent). exists (l ++ la ++ Ev (ToolExecute t (arguments tc)) ans :: lb).
      split; [by rewrite E2, El, <-!app_assoc|]. right. exists t, (expected_revision p), ans, (l ++ la), lb.
      destruct Hq as [(l' & El' & Hl') _ _ _ _]. rewrite El in El'. apply app_inv_head in El' as <-.
      split_and!; [by rewrite <-app_assoc|by apply Forall_app_2|done|by apply permission_grows| |done].
      intros Hrev. apply elem_of_app. right. apply Hent. unfold call_scopes, execution_scopes. rewrite Hrev. set_solver.
Qed.

Lemma outcome_of_lawful tc baseline resolved err s : fresh s ->
  exists o s' l, outcome_of tc baseline resolved err s = (Ok o, s') /\ tape s' = tape s ++ l /\ lawful tc resolved o l.
Proof.
  intros Hs. unfold outcome_of, try_, after.
  assert (Hsettle : forall e s1, frame s s1 -> exists o s' l, settle_pipeline_error e s1 = (Ok o, s') /\ tape s' = tape s ++ l /\ lawful tc resolved o l).
  { intros e s1 Hf. unfold settle_pipeline_error. set (m := if is_exception e then _ else _).
    assert (Hm : total m /\ quiet m) by (subst m; destruct (is_exception e); split; [apply total_ret|hush|apply total_request_stop|hush]).
    destruct Hm as [Ht Hq]. destruct (Ht s1) as (u & s2 & E). specialize (Hq s1). rewrite E in Hq. cbn in Hq.
    assert (Hf2 : frame s s2) by (by etrans). unfold seq at 1, mbind, stm_bind. rewrite E. rewrite (seq_get effect_started), (seq_get pre_phase).
    rewrite (frame_started _ _ Hf2), (fresh_started _ Hs).
    destruct (pre_effect_failure_says (pre_phase s2) e (is_keyboard_interrupt e)) as (o & Eo & Ho).
    destruct Hf2 as [(l & El & Hl) _ _ _ _]. exists o, s2, l. unfold lift, st_lift. rewrite Eo. split_and!; [done|done|]. by left. }
  set (s0 := set_locals (failures s) $"tool_call_snapshot" (effect_started s) s).
  assert (Hf0 : frame s s0) by apply (quiet_set_phase $"tool_call_snapshot" s).
  unfold seq at 1, set_phase, st_modify, mbind, stm_bind. fold s0.
  unfold seq at 1, lift, st_lift, mbind, stm_bind. destruct (tool_call_signature tc) as [sig|e]; [|by apply Hsettle].
  unfold seq, mbind, stm_bind. pose proof (pipeline_lawful tc baseline resolved err s0 (fresh_frame _ _ Hs Hf0)) as Hp.
  destruct (pipeline tc baseline resolved err s0) as [[[o|o]|e] s1]; [| |by apply Hsettle; etrans].
  all: destruct Hp as (l & El & Hl); exists o, s1, l; by split_and!.
Qed.
End Whole.

Section Publication.
Context {W : Type} `{Environment W}.
Abbreviation M := (stm (Exec W)).
Implicit Types s : Exec W.

(** [o'] is [o] with the last projections. *)
Definition projected (o o' : ToolOutcome) : Prop := outcome_valid o' /\ primary o' = primary o /\ effect_fact o' = effect_fact o.

Lemma finalize_projects o s : tells_effects o -> exists o', finalize o s = (Ok o', s) /\ projected o o'.
Proof.
  intros Ho. destruct (finalized (failures s) o Ho) as (o' & E & ?). exists o'. split; [|done].
  unfold finalize. rewrite (seq_get failures). unfold lift, st_lift. by rewrite E.
Qed.

Definition end_event (tc : ToolCall) (o : ToolOutcome) (ans : result ()) : event :=
  Ev (EmitEvent (ToolCallEnd (tc_name tc) (model_text o) (tc_id tc) o)) ans.

Lemma publish_once tc o s : tells_effects o -> exists published ans o' s' l,
  publish_post_effect_outcome tc o s = (Ok o', s') /\ tape s' = tape s ++ end_event tc published ans :: l /\ quiet_tape l
  /\ projected o published /\ projected o o' /\ (ans = Ok () -> o' = published).
Proof.
  intros Ho. destruct (finalize_projects o s Ho) as (published & E & Hp). unfold publish_post_effect_outcome.
  unfold seq at 1, mbind, stm_bind. rewrite E. unfold try_, after, seq at 1, mbind, stm_bind, ask.
  destruct (respond _ (EmitEvent (ToolCallEnd (tc_name tc) (model_text published) (tc_id tc) published)) (world s)) as [[[]|e] w].
  - exists published, (Ok ()), published. eexists _, []. split_and!; [done|done|constructor|done|done|done].
  - set (s1 := set_world _ w s). destruct (total_capture $"tool_end_event" e s1) as (u & s2 & E2).
    pose proof (quiet_capture $"tool_end_event" e s1) as Hq. rewrite E2 in Hq. destruct Hq as [(l & El & Hl) _ _ _ _]. cbn in El.
    destruct (finalize_projects o s2 Ho) as (o' & E3 & Hp'). exists published, (Raise e), o', s2, l.
    unfold seq, mbind, stm_bind. rewrite E2. split_and!; [exact E3| |done|done|done|done].
    rewrite El, <-app_assoc. done.
Qed.

(** A call from its beginning to its end. *)
Lemma execute_outcome_known tc baseline resolved err s : exists o published ans s' before after,
  execute_outcome tc baseline resolved err s = (Ok o, s')
  /\ tape s' = tape s ++ before ++ end_event tc published ans :: after /\ quiet_tape after
  /\ lawful tc resolved published before /\ lawful tc resolved o before /\ outcome_valid published /\ outcome_valid o
  /\ primary o = primary published /\ (ans = Ok () -> o = published).
Proof.
  set (s0 := begin_call s). assert (Hs : fresh s0) by by split.
  destruct (outcome_of_lawful tc baseline resolved err s0 Hs) as (o & s1 & l1 & E1 & El1 & Hl1).
  assert (Hmid : exists s2, hushed s1 s2 /\ execute_outcome tc baseline resolved err s = publish_post_effect_outcome tc o s2).
  { unfold execute_outcome. unfold seq at 1, st_modify, mbind, stm_bind. fold s0. unfold seq at 1, mbind, stm_bind. rewrite E1.
    destruct (settles_secondary $"call_total_monitor" (ask (MonitorRecord $"call_total" (if success o then $"ok" else $"error"))) ltac:(hush) s1)
      as (u & s2 & E2 & _ & Hh2).
    unfold seq at 1, mbind, stm_bind. rewrite E2. rewrite (seq_get (fun s => snapshot (failures s))).
    destruct (snapshot (failures s2)) as [|f fs].
    - by exists s2.
    - destruct (settles_secondary $"post_effect_diagnostic" (ask (EmitEvent (Diagnostic
        ($"Secondary tool processing failed after the primary outcome was fixed (phase=" ++ f.1.1 ++ $", error_type=" ++ f.1.2
        ++ $", count=" ++ z_str f.2 ++ $").") $"tool.post_effect_failure" (failure_details tc f)))) ltac:(hush) s2) as (v & s3 & E3 & _ & Hh3).
      exists s3. split; [by etrans|]. unfold seq at 1, mbind, stm_bind, emit_post_effect_diagnostic. by rewrite E3. }
  destruct Hmid as (s2 & (l2 & El2 & Hl2) & ->). pose proof (lawful_after _ _ _ _ _ Hl1 Hl2) as Hl.
  destruct (publish_once tc o s2 (lawful_tells _ _ _ _ Hl1)) as (published & ans & o' & s' & l3 & E & El3 & Hl3 & (Hv & Hp & He) & (Hv' & Hp' & He') & Ha).
  exists o', published, ans, s', (l1 ++ l2), l3. split_and!; try done.
  - rewrite El3, El2, El1. cbn. by rewrite <-!app_assoc.
  - by eapply lawful_finalized.
  - by eapply lawful_finalized.
  - congruence.
Qed.

(** ** The theorems *)

Lemma executions_app a b : executions (a ++ b) = executions a ++ executions b.
Proof. apply filter_app. Qed.
Lemma executions_run t args ans l : executions (Ev (ToolExecute t args) ans :: l) = Ev (ToolExecute t args) ans :: executions l.
Proof. unfold executions. by rewrite filter_cons_True. Qed.
Lemma ends_app a b : ends (a ++ b) = ends a ++ ends b.
Proof. apply filter_app. Qed.

Lemma lawful_ends tc resolved o l : lawful tc resolved o l -> ends l = [].
Proof.
  intros [[Hl _]|(t & rev & ans & la & lb & -> & Ha & Hb & _)]; [by apply quiet_ends|].
  rewrite ends_app, (quiet_ends la Ha). unfold ends. rewrite filter_cons_False by done. by apply quiet_ends.
Qed.

(** The events of a call, in order, and what each theorem reads off them. *)
Lemma whole_executions tc before published ans after : quiet_tape after ->
  executions (before ++ end_event tc published ans :: after) = executions before.
Proof. intros Ha. rewrite executions_app. unfold executions at 2. rewrite filter_cons_False by done. fold (executions after). by rewrite (quiet_executions after Ha), app_nil_r. Qed.

(** C1: a tool has effects only with permission, and at most once per call.
    Whatever the tools, extensions, guards and the approval provider answer
    or raise, a call of the executor runs a tool at most once; when it does,
    it runs the tool that was looked up under the call's name with exactly the
    model's arguments, and before that the mode allowed the tool, both
    preflights passed, every guard allowed the call, stopping was not
    requested at the last check, and, when a guard asks for approval or the
    target lies outside the workspace, the user approved this very call with a
    preview of a document that was the same when it was looked at again; the
    tool then runs inside the scope of that document's revision. *)
Theorem effects_need_permission tc baseline resolved err s :
  let '(_, s') := execute tc baseline resolved err s in
  exists l, tape s' = tape s ++ l /\
    (executions l = [] \/
     exists t rev ans before after, l = before ++ Ev (ToolExecute t (arguments tc)) ans :: after
       /\ executions before = [] /\ executions after = []
       /\ permission tc t resolved rev before
       /\ (has_workspace_revision_scope t = true -> Ev (EnterScope (RevisionScope rev)) (Ok ()) ∈ before)).
Proof.
  destruct (execute_outcome_known tc baseline resolved err s) as (o & published & ans & s' & l1 & l2 & E & El & Hl2 & Hl & _).
  unfold execute, seq, mbind, stm_bind. rewrite E. cbn. exists (l1 ++ end_event tc published ans :: l2). split; [done|].
  destruct Hl as [[Hq _]|(t & rev & ans' & la & lb & -> & Ha & Hb & Hp & Hr & _)].
  - left. rewrite whole_executions by done. by apply quiet_executions.
  - right. exists t, rev, ans', la, (lb ++ end_event tc published ans :: l2). split_and!; [by rewrite <-app_assoc| | |done|done].
    + by apply quiet_executions.
    + rewrite whole_executions by done. by apply quiet_executions.
Qed.

(** C3: every call ends with exactly one result. The executor always returns,
    whatever raises on the way, KeyboardInterrupt included, and it publishes
    exactly one end of the call, under the call's name and id, with a valid
    outcome; the message that goes back to the model is that outcome's, and
    when even publishing raised it has the same primary fields. *)
Theorem execute_publishes_once tc baseline resolved err s :
  exists o published ans s' before after,
    execute tc baseline resolved err s = (Ok (model_message_content o), s')
    /\ tape s' = tape s ++ before ++ Ev (EmitEvent (ToolCallEnd (tc_name tc) (model_text published) (tc_id tc) published)) ans :: after
    /\ ends before = [] /\ ends after = []
    /\ outcome_valid o /\ outcome_valid published /\ primary o = primary published /\ (ans = Ok () -> o = published).
Proof.
  destruct (execute_outcome_known tc baseline resolved err s) as (o & published & ans & s' & l1 & l2 & E & El & Hl2 & Hl & _ & Hvp & Hv & Hp & Ha).
  exists o, published, ans, s', l1, l2. split_and!; try done.
  - unfold execute, seq, mbind, stm_bind. by rewrite E.
  - by eapply lawful_ends.
  - by apply quiet_ends.
Qed.

(** What a result says of a run that the tool answered in any way. *)
Lemma tells_denied ans o : tells ans o -> says_not_started o -> status o = DENIED.
Proof.
  intros Ht (_ & Hs & He). revert Ht. unfold tells. destruct (answer_of ans).
  - intros [(_ & _ & Hstarted) _]. congruence.
  - intros [[_ Hran] _]. destruct (Hran Hs) as (t & Ht & _ & Hd). apply Hd. congruence.
Qed.

(** C2: the result tells what happened to the world. When the tool was not
    run, the result is a failure that says nothing was started. When it raised,
    the result says that effects were started and carries the failure of that
    exception; when it returned, the result is the tool's own, with the primary
    fields that reading it gave, whatever the transforms, observers, scopes and
    monitors did afterwards, or the failure of a result that cannot be read. A
    result that says nothing was started although the tool was run is one in
    which the tool itself denied the call. *)
Theorem result_tells_the_truth tc baseline resolved err s :
  exists o s' l, execute_outcome tc baseline resolved err s = (Ok o, s') /\ tape s' = tape s ++ l
    /\ ((executions l = [] /\ says_not_started o)
        \/ exists t ans, executions l = [Ev (ToolExecute t (arguments tc)) ans] /\ tells ans o
             /\ (says_not_started o -> status o = DENIED)).
Proof.
  destruct (execute_outcome_known tc baseline resolved err s) as (o & published & ans & s' & l1 & l2 & E & El & Hl2 & _ & Hl & _).
  exists o, s', (l1 ++ end_event tc published ans :: l2). split_and!; [done|done|]. rewrite whole_executions by done.
  destruct Hl as [[Hq Ho]|(t & rev & ans' & la & lb & -> & Ha & Hb & _ & _ & Ht)]; [left|right].
  - split; [by apply quiet_executions|done].
  - exists t, ans'. split_and!; [|done|by eapply tells_denied].
    by rewrite executions_app, (quiet_executions la Ha), executions_run, (quiet_executions lb Hb).
Qed.
End Publication.

(** ** Failures of batches, published at a safe point *)

Section Flushing.
Context {W : Type} `{Environment W}.
Abbreviation M := (stm (Exec W)).
Implicit Types s : Exec W.

Definition is_accepted (e : event) : bool :=
  match e with
  | Ev c r => match c in call A return result A -> bool with
              | RecordRuntimeIssue _ _ _ _ => fun r => match r with Ok true => true | _ => false end
              | _ => fun _ => false
              end r
  end.
Definition accepted (l : list event) : list event := filter (fun e => is_accepted e = true) l.

Lemma accepted_app a b : accepted (a ++ b) = accepted a ++ accepted b.
Proof. apply filter_app. Qed.

(** A step that publishes [n] issues, and always returns. *)
Definition publishes {A} (m : M A) (P : A -> Z -> Exec W -> Exec W -> Prop) : Prop := forall s, exists a s' l,
  m s = (Ok a, s') /\ tape s' = tape s ++ l /\ P a (len (accepted l)) s s'.

Lemma publishes_seq {A B} (m : M A) (k : A -> M B) P Q R : publishes m P -> (forall a, publishes (k a) (Q a)) ->
  (forall a n s1 b n' s2 s3, P a n s1 s2 -> Q a b n' s2 s3 -> R b (n + n') s1 s3) -> publishes (seq m k) R.
Proof.
  intros Hm Hk HR s. destruct (Hm s) as (a & s1 & l & E & El & Ha). destruct (Hk a s1) as (b & s2 & l' & E2 & El2 & Hb).
  exists b, s2, (l ++ l'). unfold seq, mbind, stm_bind. rewrite E. split_and!; [done|by rewrite El2, El, app_assoc|].
  rewrite accepted_app. unfold len. rewrite length_app, Nat2Z.inj_add. by eapply HR.
Qed.

(** A step that publishes nothing, and what it leaves pending. *)
Definition silent (a : ()) (n : Z) (s s' : Exec W) : Prop := n = 0 /\ pending s' = pending s.

Lemma silent_trans (m : M ()) (k : M ()) : publishes m silent -> publishes k silent -> publishes (seq m (fun _ => k)) silent.
Proof. intros Hm Hk. eapply publishes_seq; [exact Hm|intros; exact Hk|]. intros [] n s1 [] n' s2 s3 [-> E] [-> E']. split; [done|congruence]. Qed.
Lemma silent_modify (f : Exec W -> Exec W) : (forall s, tape (f s) = tape s /\ pending (f s) = pending s) -> publishes (st_modify f) silent.
Proof. intros Hf s. exists (), (f s), []. destruct (Hf s) as [Ht Hp]. split_and!; [done|by rewrite app_nil_r|by split]. Qed.
Lemma silent_ret : publishes (mret ()) silent.
Proof. intros s. exists (), s, []. split_and!; [done|by rewrite app_nil_r|by split]. Qed.

Lemma silent_stop : publishes request_stop_safely silent.
Proof.
  intros s. unfold request_stop_safely, try_, after, seq, ask, mbind, stm_bind, mret, stm_ret, set_failures, st_modify; cbv beta iota.
  destruct (respond _ StopRequested (world s)) as [[[]|e] w] eqn:E.
  - exists (). eexists _, [_]. by split_and!.
  - match goal with |- context [respond _ RequestStop ?x] => destruct (respond _ RequestStop x) as [[[]|e'] w'] end;
      exists (); eexists _, [_; _]; (split_and!; [reflexivity|cbn; by rewrite <-app_assoc|done]).
  - match goal with |- context [respond _ RequestStop ?x] => destruct (respond _ RequestStop x) as [[[]|e'] w'] end;
      exists (); eexists _, [_; _]; (split_and!; [reflexivity|cbn; by rewrite <-app_assoc|done]).
Qed.

Lemma silent_capture ph e : publishes (capture ph e) silent.
Proof.
  unfold capture. apply silent_trans; [by apply silent_modify|]. destruct (is_exception e); [apply silent_ret|apply silent_stop].
Qed.

Lemma seq_modify {B} (f : Exec W -> Exec W) (k : () -> M B) s : seq (st_modify f) k s = k () (f s).
Proof. done. Qed.
Lemma seq_set_failures {B} f (k : () -> M B) s : seq (set_failures f) k s = k () (set_locals (f (failures s)) (pre_phase s) (effect_started s) s).
Proof. done. Qed.

(** The facts of an error, as a fresh collector gives them. *)
Lemma silent_captured ph e : publishes (captured_facts ph e) (fun _ n s s' => n = 0 /\ pending s' = pending s).
Proof.
  intros s. unfold captured_facts. rewrite (seq_get failures), seq_set_failures.
  set (s0 := set_locals _ _ _ s). destruct (silent_capture ph e s0) as ([] & s1 & l & E & El & Hn & Hp).
  unfold seq at 1, mbind, stm_bind. rewrite E. eexists _, _, l. split_and!; [reflexivity|done|done|done].
Qed.

Definition send (f : fact * Z) : M (option exn) :=
  try_ (let! accepted := ask (RecordRuntimeIssue f.1.1 f.1.2 $"parallel_batch" f.2) in
        if accepted then mret None else mret (Some (OtherError $"MissingRuntimeIssueSink")))
       (fun e => mret (Some e)).

Lemma send_counts f : publishes (send f) (fun r n s s' => pending s' = pending s /\ n = match r with None => 1 | Some _ => 0 end).
Proof.
  intros s. unfold send, try_, after, seq, ask, mbind, stm_bind.
  destruct (respond _ (RecordRuntimeIssue f.1.1 f.1.2 $"parallel_batch" f.2) (world s)) as [[[]|e] w]; eexists _, _, [_]; by split_and!.
Qed.

Lemma publish_counts facts : forall published, publishes (publish_runtime_failures published facts)
  (fun r n s s' => r.1 = published + n /\ (r.2 = false -> pending s' = pending s)).
Proof.
  induction facts as [|f rest IH]; intros published s; cbn [publish_runtime_failures].
  { eexists _, s, []. split_and!; [done|by rewrite app_nil_r|change (len (accepted [])) with 0; cbn; lia|done]. }
  fold (send f). destruct (send_counts f s) as (sent & s1 & l & E & El & Hp & Hn). unfold seq at 1, mbind, stm_bind. rewrite E.
  destruct sent as [e|].
  - unfold retain_runtime_failures at 1. rewrite seq_modify. set (s2 := set_pending _ s1).
    destruct (silent_captured $"runtime_issue_publish" e s2) as (more & s3 & l3 & E3 & El3 & Hn3 & Hp3).
    unfold seq at 1, mbind, stm_bind. rewrite E3. eexists _, _, (l ++ l3). split_and!; [reflexivity| | |done].
    + cbn. by rewrite El3, app_assoc, <-El.
    + rewrite accepted_app. unfold len in *. rewrite length_app, Nat2Z.inj_add, Hn, Hn3. cbn. lia.
  - destruct (IH (published + 1) s1) as (r & s2 & l2 & E2 & El2 & Hr & Hk). exists r, s2, (l ++ l2). split_and!; [done| | |].
    + by rewrite El2, El, app_assoc.
    + rewrite accepted_app. unfold len in *. rewrite length_app. lia.
    + intros Hb. rewrite Hk by done. done.
Qed.

Definition stop_seen (l : list event) : Prop := Ev StopRequested (Ok true) ∈ l \/ exists r, Ev RequestStop r ∈ l.

Lemma stop_asked s : exists s' l, request_stop_safely s = (Ok (), s') /\ tape s' = tape s ++ l /\ accepted l = [] /\ stop_seen l
  /\ pending s' = pending s.
Proof.
  unfold request_stop_safely, try_, after, seq, ask, mbind, stm_bind, mret, stm_ret, set_failures, st_modify; cbv beta iota.
  destruct (respond _ StopRequested (world s)) as [[[]|e] w] eqn:E.
  - eexists _, [_]. split_and!; [done|done|done|left; by left|done].
  - match goal with |- context [respond _ RequestStop ?x] => destruct (respond _ RequestStop x) as [[[]|e'] w'] end;
      eexists _, [_; _]; (split_and!; [reflexivity|cbn; by rewrite <-app_assoc|done|right; eexists; right; by left|done]).
  - match goal with |- context [respond _ RequestStop ?x] => destruct (respond _ RequestStop x) as [[[]|e'] w'] end;
      eexists _, [_; _]; (split_and!; [reflexivity|cbn; by rewrite <-app_assoc|done|right; eexists; right; by left|done]).
Qed.

Lemma flush_attempts_ends n : forall published s, exists r s' l, flush_attempts n published s = (Ok r, s') /\ tape s' = tape s ++ l
  /\ match r with
     | Some k => k = published + len (accepted l) /\ snapshot (pending s') = []
     | None => stop_seen l
     end.
Proof.
  induction n as [|n IH]; intros published s; cbn [flush_attempts].
  - rewrite (seq_get failures), seq_set_failures. set (s0 := set_locals _ _ _ s).
    destruct (stop_asked s0) as (s1 & l & E & El & _ & Hs & _). unfold seq at 1, mbind, stm_bind. rewrite E.
    exists None. eexists _, l. by split_and!.
  - rewrite (seq_get (fun s => snapshot (pending s))), seq_modify. set (s0 := set_pending _ s).
    destruct (snapshot (pending s)) as [|f facts] eqn:Ef.
    + exists (Some published), s0, []. split_and!; [done|by rewrite app_nil_r|change (len (accepted [])) with 0; lia|done].
    + destruct (publish_counts (f :: facts) 0 s0) as ([k b] & s1 & l & E & El & Hk & Hb). cbn [fst snd] in *.
      unfold seq at 1, mbind, stm_bind. rewrite E. cbn [fst snd]. destruct b.
      * destruct (IH (published + k) s1) as (r & s2 & l2 & E2 & El2 & Hr). exists r, s2, (l ++ l2). split_and!; [done|by rewrite El2, El, app_assoc|].
        destruct r as [k'|].
        -- destruct Hr as [Hr Hp]. split; [|done]. rewrite accepted_app. unfold len in *. rewrite length_app. lia.
        -- destruct Hr as [Hr|[a Hr]]; [left|right; exists a]; apply elem_of_app; by right.
      * exists (Some (published + k)), s1, l. split_and!; [done|done|lia|]. by rewrite Hb.
Qed.

(** C36: the failures that batches left are never dropped silently at a safe
    point. Flushing always returns; it says how many were published only when
    every fact then pending was accepted by the runtime's sink and none is
    left, with that count exactly, and otherwise it has made sure that the turn
    is stopping. *)
Theorem flush_settles s : exists r s' l,
  flush_pending_runtime_issues s = (Ok r, s') /\ tape s' = tape s ++ l
  /\ match r with
     | Some n => n = len (accepted l) /\ snapshot (pending s') = []
     | None => stop_seen l
     end.
Proof. apply (flush_attempts_ends _ 0). Qed.
End Flushing.

(** ** An environment that answers everything *)

(** Whether the guards ask for approval. *)
Section ExampleEnvironment.
Variable guarded : bool.

Definition read_tool : Tool :=
  {| t_name := $"read_file"; t_source := VStr $"builtin"; t_server_name := VNone; t_description := VStr $"read"; t_parameters := VDict [];
     t_effect_class := VStr $"filesystem_read"; t_profile := VNone; t_parallel_safe := true; t_interrupt_mode := LET_FINISH;
     has_approval_subjects := false; has_approval_grant_scopes := false; has_approval_preview := false; has_execution_scope := false;
     has_cancellation_scope := false; has_stream_handler_scope := false; has_workspace_revision_scope := true; has_bind_execution := false;
     has_workspace := true; has_external_paths := false; has_stream_observer := false; workspace_root := $"/w" |}.

Definition example_facts : ContextFacts :=
  {| hook_point := BEFORE_TOOL_EXECUTE; agent_id := Some $"main"; session_generation := Some 1; session_id := Some $"s";
     turn_id := Some $"t"; trace_id := None; round_index := Some 1 |}.

Definition example_document : Document :=
  {| doc_path := $"/w/a"; doc_missing := false; doc_content_id := $"c1"; doc_revision := $"r1" |}.

Definition answer (A : Type) (c : call A) : result A :=
  match c in call A return result A with
  | StopRequested => Ok false
  | RoundInterruptEpoch => Ok 0
  | RequestStop => Ok ()
  | EmitEvent _ => Ok ()
  | MonitorRecord _ _ => Ok ()
  | GetMonitor => Ok false
  | GitInvalidate => Ok ()
  | ReadAgent => Ok {| a_facts := example_facts; active_mode := Some $"code"; subagent_job_id := VNone; subagent_mode := VNone; subagent_task := VNone |}
  | GetTool name => Ok (if decide (name = $"read_file") then Some read_tool else None)
  | ActiveToolNames => Ok [$"read_file"]
  | HasRegisteredTool name => Ok (bool_decide (name = $"read_file"))
  | IsToolAllowedInMode _ => Ok true
  | SuggestModes _ => Ok []
  | PreflightValidate _ _ _ => Ok PreflightPassed
  | ApprovalSubjects _ _ => Ok (Some [])
  | ApprovalGrantScopes _ _ _ => Ok (Some [])
  | ApprovalScopeKey _ _ => Ok (Some $"builtin:read_file")
  | AuthorizeTool c => Ok (Some (b_tool_call c), Some [{| allowed := true; g_reason := None; g_warning := None; requires_approval := guarded |}])
  | ExternalPath _ _ => Ok None
  | EnterScope _ => Ok ()
  | ExitScope _ _ => Ok false
  | CaptureDocument _ _ => Ok (Some example_document)
  | DiffDocuments _ _ => Ok []
  | ApprovalProvider => Ok true
  | CustomPreview _ _ => Ok (Some None)
  | BuildPreview _ _ => Ok (Some {| sections := [(true, $"diff")] |})
  | RequestApproval _ => Ok (Some {| d_mode := $"allow_once"; d_reason := None; d_reviewed := true; d_grant := None |})
  | ContributeContext c => Ok (Some (Some (b_tool_call c), b_facts c, []))
  | Observe _ _ _ _ => Ok (Some [])
  | HasDocumentGuard => Ok true
  | ResolvePath p => Ok p
  | DocumentGuard _ => Ok []
  | BindExecution _ _ => Ok ()
  | ToolExecute _ _ => Ok ([], inr (RawText $"1  hello"))
  | StreamObserver _ => Ok ()
  | SyncWorkingDirectory => Raise (OtherError $"RuntimeError")
  | ProcessOutcome c => Ok (Some {| t_facts := x_facts c; t_tool_call := Some (x_tool_call c); t_result := Some (x_result c); t_outcome := OriginalOutcome |})
  | StoreArtifact _ _ _ _ => Ok ()
  | RecordRuntimeIssue _ _ _ _ => Ok true
  end.

#[local] Instance example_environment : Environment unit :=
  {| respond A c w := (answer A c, w); elapsed _ := 5; close_matches _ l := l |}.

Definition begin_exec : Exec unit :=
  {| failures := new_collector 8; pre_phase := []; effect_started := false; primary_error := None; raw_result := None; execution_seconds := 0;
     scope_error := false; authoritative := None; pending := new_collector 8; tape := []; world := () |}.
Definition read_call : ToolCall := {| tc_id := $"c1"; tc_name := $"read_file"; arguments := [($"file_path", VStr $"a")] |}.
Definition example_run := execute_outcome read_call (Some 0) Unresolved None begin_exec.
End ExampleEnvironment.

(** The tool is run once, with one end published, whether or not the user is
    asked; the failure to keep the working directory changes the report only. *)
Example example_runs guarded :
  length (executions (tape (example_run guarded).2)) = 1%nat /\ length (ends (tape (example_run guarded).2)) = 1%nat
  /\ match (example_run guarded).1 with Ok o => status o = SUCCEEDED /\ content o = Some $"1  hello" | Raise _ => False end.
Proof. by destruct guarded; vm_compute. Qed.
