(* ===== verification/ToolBatch.v ===== *)
(** * A batch of tool calls (domain/agent/tool_execution.py, [execute_parallel])

    The calls of one response run in the order of the provider; only contiguous
    calls of tools that are safe in parallel overlap, in a pool of threads.
    Each call of a pool has an attempt, a future that says whether its execution
    began, so that a failure of the scheduler never runs a call whose result
    already says that nothing was started.

    The main thread and the workers take atomic steps in any order ([step]).
    A step is a fault when something raises: making the pool, submitting,
    waiting for a future -- a KeyboardInterrupt may end any wait --, the
    execution in a worker, or leaving the pool.  An unsubmitted call may have
    reached the queue all the same.  Calls that run in the main thread are
    recorded like attempts.  The bound on the workers of a pool is left out:
    more of them may run here. *)

From S2P Require Import Prelude PyValue Models Hooks ToolOutcome ToolFacts ToolExecution ToolSafety.

(** ** The tools of a batch *)

(** The tool found for a call, or the error of looking it up, and whether it is
    safe in parallel. *)
Record Resolution := { found : option Tool; lookup_error : option exn; parallel : bool }.

Definition resolution (baseline_error : option exn) (looked : result (option Tool)) : Resolution :=
  match baseline_error, looked with
  | Some e, _ => {| found := None; lookup_error := Some e; parallel := false |}
  | None, Raise e => {| found := None; lookup_error := Some e; parallel := false |}
  | None, Ok t => {| found := t; lookup_error := None;
                     parallel := match t with Some t => t_parallel_safe t | None => false end |}
  end.

Section Scheduler.
Context {W : Type} `{Environment W}.
Abbreviation M := (stm (Exec W)).

(** The tools of all calls, looked up in order. *)
Fixpoint resolve_batch (baseline_error : option exn) (tcs : list ToolCall) : M (list Resolution) :=
  match tcs with
  | [] => mret []
  | tc :: tcs =>
    let! r := match baseline_error with
              | Some _ => mret (resolution baseline_error (Ok None))
              | None => after (ask (GetTool (tc_name tc))) (fun t => mret (resolution None (Ok t))) (fun e => mret (resolution None (Raise e)))
              end in
    let! rest := resolve_batch baseline_error tcs in
    mret (r :: rest)
  end.

(** [publish_scheduler_failure]. *)
Definition publish_scheduler_failure (tc : ToolCall) (e : exn) (ph : pystr) (effect_started : bool) : M pystr :=
  let! _ := set_failures (fun _ => new_collector POST_EFFECT_FAILURE_LIMIT) in
  let! _ := (if is_exception e then mret () else request_stop_safely) in
  let! o := lift (if effect_started then execution_failure_outcome ph e
                  else pre_effect_failure_outcome ph e (is_keyboard_interrupt e)) in
  let! facts := get (fun s => snapshot (failures s)) in
  let! _ := match facts with f :: _ => emit_post_effect_diagnostic tc f | [] => mret () end in
  let! published := publish_post_effect_outcome tc o in
  mret (model_text published).

(** The scheduler's failure of a call is published once, and says whether the
    call was started. *)
Lemma scheduler_failure_published tc e ph effect_started s : exists published ans text s' before after,
  publish_scheduler_failure tc e ph effect_started s = (Ok text, s')
  /\ tape s' = tape s ++ before ++ end_event tc published ans :: after /\ quiet_tape before /\ quiet_tape after
  /\ (if effect_started then says_started published else says_not_started published).
Proof.
  assert (Ho : exists o, (if effect_started then execution_failure_outcome ph e
      else pre_effect_failure_outcome ph e (is_keyboard_interrupt e)) = Ok o /\ (if effect_started then says_started o else says_not_started o))
    by (destruct effect_started; [apply execution_failure_says|apply pre_effect_failure_says]).
  destruct Ho as (o & Eo & Ho). unfold publish_scheduler_failure. rewrite seq_set_failures. set (s0 := set_locals _ _ _ s).
  destruct (settles_quiet (W:=W) (if is_exception e then mret () else request_stop_safely)) with (s := s0) as (u & s1 & E1 & _ & l1 & El1 & Hl1);
    [destruct (is_exception e); [apply total_ret|apply total_request_stop]|destruct (is_exception e); hush|].
  unfold seq at 1, mbind, stm_bind. rewrite E1. rewrite Eo. unfold seq at 1, lift, st_lift, mbind, stm_bind.
  rewrite (seq_get (fun s => snapshot (failures s))).
  assert (Hd : settles (match snapshot (failures s1) with f :: _ => emit_post_effect_diagnostic tc f | [] => mret () end : M ()) (fun _ => True))
    by (destruct (snapshot (failures s1)); [by apply settles_ret|apply settles_secondary; hush]).
  destruct (Hd s1) as (v & s2 & E2 & _ & l2 & El2 & Hl2). unfold seq at 1, mbind, stm_bind. rewrite E2.
  destruct (publish_once tc o s2) as (published & ans & o' & s' & l3 & E & El3 & Hl3 & (Hv & Hp & He) & _).
  { destruct effect_started; [by apply started_tells|by apply not_started_tells]. }
  exists published, ans, (model_text o'), s', (l1 ++ l2), l3. split_and!; [|..|by apply Forall_app_2|done|].
  - unfold seq, mbind, stm_bind. by rewrite E.
  - rewrite El3, El2, El1. cbn. by rewrite <-!app_assoc.
  - destruct (same_say o published Hv Hp He) as (? & ? & _). destruct effect_started; auto.
Qed.
End Scheduler.

(** How many calls from the head are safe. *)
Fixpoint safe_prefix (l : list bool) : nat :=
  match l with true :: l => S (safe_prefix l) | _ => O end.

(** The end of the segment that begins at [i]. *)
Definition segment_end (safe : list bool) (i : nat) : nat :=
  match drop i safe with true :: l => S i + safe_prefix l | _ => S i end.

(** ** State *)

Inductive attempt := PENDING | RUNNING | CANCELLED | DONE (text : pystr) | FAILED.

#[export] Instance attempt_dec : EqDecision attempt.
Proof. solve_decision. Defined.

(** The text of a call, or the failure the scheduler published for it. *)
Inductive answer := Returned (text : pystr) | Failure (effect_started : bool).

Inductive entry :=
| Started (i : nat)
| Ended (i : nat)
| Published (i : nat) (effect_started : bool)
| Abandoned (i : nat)
| Queued.

#[export] Instance entry_dec : EqDecision entry.
Proof. solve_decision. Defined.

(** Where the main thread is: [todo] are the futures to wait for, [missed] the
    first offset after the submission that failed; [tried], that an attempt
    could not be cancelled, so that its own result is waited for. *)
Inductive place :=
| Next (i : nat)
| Alone (i : nat)
| Submitting (first last offset : nat)
| Settling (tried : bool) (offset first last : nat) (todo : list nat) (missed : option nat)
| Waiting (first last : nat) (todo : list nat) (missed : option nat)
| Leaving (first last : nat) (missed : option nat)
| Finished.

Record batch := {
  here : place;
  status : nat -> option attempt;
  queue : list nat;
  results : nat -> option answer;
  log : list entry;
}.

Definition upd {A} (f : nat -> option A) (i : nat) (a : A) : nat -> option A := fun j => if decide (j = i) then Some a else f j.
Definition fill {A} (f : nat -> option A) (i k : nat) (a : A) : nat -> option A :=
  fun j => if decide (i <= j < k)%nat then Some a else f j.

Definition start : batch :=
  {| here := Next 0; status := fun _ => None; queue := []; results := fun _ => None; log := [] |}.

(** [publish_scheduler_failure] for every call of a range. *)
Definition publish_range (i k : nat) : list entry := map (fun j => Published j false) (List.seq i (k - i)).

Section Batch.
Variable safe : list bool.
Abbreviation size := (length safe).

Definition go (p : place) (s : batch) : batch :=
  {| here := p; status := status s; queue := queue s; results := results s; log := log s |}.
Definition note (l : list entry) (s : batch) : batch :=
  {| here := here s; status := status s; queue := queue s; results := results s; log := log s ++ l |}.
Definition mark (i : nat) (a : attempt) (s : batch) : batch :=
  {| here := here s; status := upd (status s) i a; queue := queue s; results := results s; log := log s |}.
Definition enqueue (l : list nat) (s : batch) : batch :=
  {| here := here s; status := status s; queue := l; results := results s; log := log s |}.
Definition settle (i : nat) (a : answer) (s : batch) : batch :=
  {| here := here s; status := status s; queue := queue s; results := upd (results s) i a; log := log s |}.
Definition settle_range (i k : nat) (s : batch) : batch :=
  {| here := here s; status := status s; queue := queue s; results := fill (results s) i k (Failure false);
     log := log s ++ publish_range i k |}.

(** The first offset that no submission reached. *)
Definition missed_from (last : nat) (missed : option nat) : nat := default last missed.

(** ** Steps *)

(** [execute_submitted] in the main thread. *)
Inductive step : bool -> batch -> batch -> Prop :=
| begin_alone s i : here s = Next i -> (i < size)%nat -> segment_end safe i = S i ->
    step false s (go (Alone i) (mark i RUNNING (note [Started i] s)))
| end_alone s i text : here s = Alone i ->
    step false s (go (Next (S i)) (settle i (Returned text) (mark i (DONE text) (note [Ended i] s))))
| pool_fails s i : here s = Next i -> (i < size)%nat -> (S i < segment_end safe i)%nat ->
    step true s (go (Next (segment_end safe i)) (settle_range i (segment_end safe i) s))
| pool_opens s i : here s = Next i -> (i < size)%nat -> (S i < segment_end safe i)%nat ->
    step false s (go (Submitting i (segment_end safe i) i) s)
| submit s first last o : here s = Submitting first last o -> (o < last)%nat ->
    step false s (go (Submitting first last (S o)) (mark o PENDING (enqueue (queue s ++ [o]) s)))
| submit_raises s first last o (queued : bool) : here s = Submitting first last o -> (o < last)%nat ->
    step true s (go (Settling false o first last (List.seq first (o - first)) (Some (S o)))
                    (mark o PENDING (enqueue (queue s ++ if queued then [o] else []) s)))
| submitted s first last : here s = Submitting first last last ->
    step false s (go (Waiting first last (List.seq first (last - first)) None) s)
| wait_returns s first last o todo missed text : here s = Waiting first last (o :: todo) missed -> status s o = Some (DONE text) ->
    step false s (go (Waiting first last todo missed) (settle o (Returned text) s))
| wait_fails s first last o todo missed : here s = Waiting first last (o :: todo) missed -> status s o = Some FAILED ->
    step false s (go (Settling false o first last todo missed) s)
| wait_interrupted s first last o todo missed : here s = Waiting first last (o :: todo) missed ->
    step true s (go (Settling false o first last todo missed) s)
| settle_cancels s o first last todo missed : here s = Settling false o first last todo missed -> status s o = Some PENDING ->
    step false s (go (Waiting first last todo missed)
                     (settle o (Failure false) (mark o CANCELLED (note [Published o false] s))))
| settle_uncancelled s o first last todo missed : here s = Settling false o first last todo missed -> status s o <> Some PENDING ->
    step false s (go (Settling true o first last todo missed) (note [Queued] s))
| settle_returned s o first last todo missed text : here s = Settling true o first last todo missed -> status s o = Some (DONE text) ->
    step false s (go (Waiting first last todo missed) (settle o (Returned text) s))
| settle_failed s o first last todo missed : here s = Settling true o first last todo missed -> status s o = Some FAILED ->
    step false s (go (Waiting first last todo missed) (settle o (Failure true) (note [Published o true] s)))
| settle_interrupted s o first last todo missed : here s = Settling true o first last todo missed -> status s o = Some RUNNING ->
    step true s (go (Waiting first last todo missed) (settle o (Failure true) (note [Abandoned o; Published o true] s)))
| waited s first last missed : here s = Waiting first last [] missed ->
    step false s (go (Leaving first last missed) s)
| leave s first last missed : here s = Leaving first last missed ->
    queue s = [] -> (forall i, status s i <> Some RUNNING) ->
    step false s (go (Next last) (settle_range (missed_from last missed) last s))
| leave_raises s first last missed : here s = Leaving first last missed ->
    step true s (go (Next last) (note [Queued] (settle_range (missed_from last missed) last s)))
| finish s : here s = Next size -> step false s (go Finished s)
| take s a i b : queue s = a ++ i :: b -> status s i = Some PENDING ->
    step false s (mark i RUNNING (note [Started i] (enqueue (a ++ b) s)))
| skip s a i b : queue s = a ++ i :: b -> status s i = Some CANCELLED ->
    step false s (enqueue (a ++ b) s)
| worker_returns s i text : status s i = Some RUNNING -> here s <> Alone i ->
    step false s (mark i (DONE text) (note [Ended i] s))
| worker_raises s i : status s i = Some RUNNING -> here s <> Alone i ->
    step true s (mark i FAILED (note [Ended i] s)).

Inductive reachable : batch -> Prop :=
| reach_start : reachable start
| reach_step s s' f : reachable s -> step f s s' -> reachable s'.

(** ** The history of a call *)

Definition entry_of (e : entry) : option nat :=
  match e with Started i | Ended i | Abandoned i => Some i | Published i _ => Some i | Queued => None end.
Definition of_call (i : nat) (l : list entry) : list entry := filter (fun e => entry_of e = Some i) l.

#[global] Arguments of_call _ _ : simpl never.

(** A call of which nothing has been decided. *)
Inductive waiting_history (i : nat) : option attempt -> list entry -> Prop :=
| h_pending : waiting_history i (Some PENDING) []
| h_running : waiting_history i (Some RUNNING) [Started i]
| h_done text : waiting_history i (Some (DONE text)) [Started i; Ended i]
| h_failed : waiting_history i (Some FAILED) [Started i; Ended i].

(** A call with its result. *)
Inductive settled_history (i : nat) : option attempt -> answer -> list entry -> Prop :=
| h_returned text : settled_history i (Some (DONE text)) (Returned text) [Started i; Ended i]
| h_never st : st = None \/ st = Some CANCELLED -> settled_history i st (Failure false) [Published i false]
| h_raised : settled_history i (Some FAILED) (Failure true) [Started i; Ended i; Published i true]
| h_abandoned : settled_history i (Some RUNNING) (Failure true) [Started i; Abandoned i; Published i true]
| h_late st : st = Some FAILED \/ (exists text, st = Some (DONE text)) ->
    settled_history i st (Failure true) [Started i; Abandoned i; Published i true; Ended i].

Inductive place_of_call := Ahead | Active | Behind.

(** Where call [i] is when the main thread is at [p]. *)
Definition region (p : place) (i : nat) : place_of_call :=
  let by_range (first frontier last : nat) (active : bool) :=
    if decide (i < first)%nat then Behind
    else if decide (i < last)%nat then
      (if decide (i < frontier)%nat then (if active then Active else Behind) else Ahead)
    else Ahead in
  match p with
  | Next k => if decide (i < k)%nat then Behind else Ahead
  | Alone k => if decide (i = k) then Active else if decide (i < k)%nat then Behind else Ahead
  | Submitting first last o => by_range first o last true
  | Settling _ o first last todo missed => by_range first (missed_from last missed) last (bool_decide (i = o \/ i ∈ todo))
  | Waiting first last todo missed => by_range first (missed_from last missed) last (bool_decide (i ∈ todo))
  | Leaving first last missed => by_range first (missed_from last missed) last false
  | Finished => if decide (i < size)%nat then Behind else Ahead
  end.

Definition call_ok (p : place) (i : nat) (s : batch) : Prop :=
  match region p i with
  | Ahead => status s i = None /\ results s i = None /\ of_call i (log s) = []
  | Active => results s i = None /\ waiting_history i (status s i) (of_call i (log s))
  | Behind => exists a, results s i = Some a /\ settled_history i (status s i) a (of_call i (log s))
  end.

(** A pool serves one whole segment of two calls or more. *)
Definition pool_of (first last : nat) : Prop := last = segment_end safe first /\ (S first < last <= size)%nat.

(** The places are well formed. *)
Definition place_ok (p : place) : Prop :=
  match p with
  | Next k => (k <= size)%nat
  | Alone k => (k < size)%nat
  | Submitting first last o => (first <= o <= last)%nat /\ pool_of first last
  | Settling _ o first last todo missed =>
    (first <= o < missed_from last missed)%nat /\ (missed_from last missed <= last)%nat /\ pool_of first last
    /\ NoDup (o :: todo) /\ Forall (fun j => first <= j < missed_from last missed)%nat todo
  | Waiting first last todo missed =>
    (first <= missed_from last missed)%nat /\ (missed_from last missed <= last)%nat /\ pool_of first last
    /\ NoDup todo /\ Forall (fun j => first <= j < missed_from last missed)%nat todo
  | Leaving first last missed => (first <= missed_from last missed)%nat /\ (missed_from last missed <= last)%nat /\ (last <= size)%nat
  | Finished => True
  end.

Record inv (s : batch) : Prop := { inv_place : place_ok (here s); inv_call : forall i, call_ok (here s) i s;
  inv_alone : forall i, here s = Alone i -> status s i = Some RUNNING }.
End Batch.

(** The entries of one call that a step adds. *)
Ltac entries := unfold of_call; cbn [filter list_filter]; repeat (rewrite ?filter_cons, ?filter_nil; cbn [entry_of]); repeat case_decide; simplify_eq; cbn; try done.

Section Histories.
Variable safe : list bool.
Abbreviation size := (length safe).

Lemma of_call_app i a b : of_call i (a ++ b) = of_call i a ++ of_call i b.
Proof. apply filter_app. Qed.

Lemma of_call_range i a k : of_call i (publish_range a k) = if decide (a <= i < k)%nat then [Published i false] else [].
Proof.
  unfold publish_range. remember (k - a)%nat as n eqn:Hn. revert a k Hn. induction n as [|n IH]; intros a k Hn; cbn [List.seq map].
  - by rewrite decide_False by lia.
  - unfold of_call. rewrite filter_cons. fold (of_call i (map (fun j => Published j false) (List.seq (S a) n))).
    rewrite (IH (S a) k) by lia. cbn. destruct (decide (Some a = Some i)) as [[= ->]|Hne].
    + by rewrite decide_False, decide_True by lia.
    + destruct (decide (S a <= i < k)%nat); [by rewrite decide_True by lia|]. rewrite decide_False; [done|]. intros ?.
      apply Hne. f_equal. lia.
Qed.

Lemma upd_same {A} (f : nat -> option A) i a : upd f i a i = Some a.
Proof. unfold upd. by rewrite decide_True. Qed.
Lemma upd_other {A} (f : nat -> option A) i j a : j <> i -> upd f i a j = f j.
Proof. intros. unfold upd. by rewrite decide_False. Qed.

Lemma segment_end_bounds i : (i < size)%nat -> (S i <= segment_end safe i <= size)%nat.
Proof.
  intros Hi. unfold segment_end. destruct (drop i safe) as [|[] l] eqn:E; [lia| |lia].
  assert (Hl : (S (length l) = size - i)%nat) by (rewrite <-length_drop, E; done).
  assert (Hp : (safe_prefix l <= length l)%nat) by (clear; induction l as [|[] l IH]; cbn; lia). lia.
Qed.

Lemma of_call_other i l : Forall (fun e => entry_of e <> Some i) l -> of_call i l = [].
Proof. unfold of_call. induction 1 as [|e l He _ IH]; [done|]. by rewrite filter_cons_False. Qed.

(** A call that a step does not touch keeps its history when its region stays. *)
Lemma call_ok_untouched p p' i s s' l : call_ok safe p i s -> region safe p' i = region safe p i ->
  status s' i = status s i -> results s' i = results s i -> log s' = log s ++ l -> of_call i l = [] -> call_ok safe p' i s'.
Proof. unfold call_ok. intros H -> -> -> -> Hl. by rewrite of_call_app, Hl, app_nil_r. Qed.

(** Regions are decided by comparing offsets. *)
Ltac regions := unfold region, missed_from in *; cbn [default from_option id] in *;
  repeat first [ rewrite decide_True by (first [lia|done|congruence]) | rewrite decide_False by (first [lia|done|congruence])
               | rewrite bool_decide_eq_true_2 by (first [set_solver|done]) | rewrite bool_decide_eq_false_2 by (first [set_solver|done]) ].

Lemma in_seq i a n : i ∈ List.seq a n <-> (a <= i < a + n)%nat.
Proof. apply elem_of_seq. Qed.

(** What is known of a call before a step. *)
Lemma known_active p i s : call_ok safe p i s -> region safe p i = Active -> results s i = None /\ waiting_history i (status s i) (of_call i (log s)).
Proof. unfold call_ok. by intros H E; rewrite E in H. Qed.
Lemma known_ahead p i s : call_ok safe p i s -> region safe p i = Ahead -> status s i = None /\ results s i = None /\ of_call i (log s) = [].
Proof. unfold call_ok. by intros H E; rewrite E in H. Qed.

Lemma known_behind p i s : call_ok safe p i s -> region safe p i = Behind ->
  exists a, results s i = Some a /\ settled_history i (status s i) a (of_call i (log s)).
Proof. unfold call_ok. by intros H E; rewrite E in H. Qed.

Ltac same_region :=
  cbn [here go mark note enqueue settle settle_range]; unfold region, missed_from; cbn [default from_option id];
  repeat case_decide; try lia; try reflexivity; repeat case_bool_decide; rewrite ?in_seq, ?elem_of_cons in *;
  first [reflexivity | exfalso; first [lia | naive_solver lia | set_solver]].

(** A call that the step leaves alone. *)
Ltac untouched H :=
  eapply call_ok_untouched; [exact H|same_region|cbn; rewrite ?upd_other by done; reflexivity|cbn; rewrite ?upd_other by done; reflexivity
                            |cbn; rewrite <-?app_assoc; first [reflexivity|symmetry; apply app_nil_r]|entries].

(** The new history of the call that the step is about. *)
Ltac extended Hl := cbn; rewrite ?upd_same, ?of_call_app, ?Hl; entries; try (by constructor).

(** A running call has its history. *)
Lemma running_history i st l : waiting_history i st l -> st = Some RUNNING -> l = [Started i].
Proof. by intros [] [=]. Qed.
Lemma pending_history i st l : waiting_history i st l -> st = Some PENDING -> l = [].
Proof. by intros [] [=]. Qed.
Lemma done_history i st l text : waiting_history i st l -> st = Some (DONE text) -> l = [Started i; Ended i].
Proof. by intros [] [=]. Qed.
Lemma failed_history i st l : waiting_history i st l -> st = Some FAILED -> l = [Started i; Ended i].
Proof. by intros [] [=]. Qed.

Lemma begin_alone_inv s i : inv safe s -> here s = Next i -> (i < size)%nat ->
  inv safe (go (Alone i) (mark i RUNNING (note [Started i] s))).
Proof.
  intros [Hp Hc Ha] Hh Hi. split; [done| |intros j [= ->]; cbn; by rewrite upd_same].
  intros j. specialize (Hc j). rewrite Hh in Hc. destruct (decide (j = i)) as [->|Hne].
  - apply known_ahead in Hc as (Hs & Hr & Hl); [|by regions]. unfold call_ok; cbn [here go]; regions. split; [done|]. extended Hl.
  - untouched Hc.
Qed.

Lemma end_alone_inv s i text : inv safe s -> here s = Alone i ->
  inv safe (go (Next (S i)) (settle i (Returned text) (mark i (DONE text) (note [Ended i] s)))).
Proof.
  intros [Hp Hc Ha] Hh. specialize (Ha i Hh). rewrite Hh in *. split; [cbn in *; lia| |done].
  intros j. specialize (Hc j). destruct (decide (j = i)) as [->|Hne].
  - apply known_active in Hc as (Hr & Hw); [|by regions]. pose proof (running_history _ _ _ Hw Ha) as Hl.
    unfold call_ok; cbn [here go]; regions. exists (Returned text). split; [cbn; by rewrite upd_same|]. extended Hl.
  - untouched Hc.
Qed.

(** Publishing that nothing was started, for a range that lies ahead. *)
Lemma range_inv s s' p i k l : (forall j, call_ok safe p j s) -> (k <= size)%nat -> Forall (fun e => entry_of e = None) l ->
  (forall j, region safe p j = if decide (j < i)%nat then Behind else Ahead) -> (i <= k)%nat ->
  here s' = Next k -> status s' = status s -> results s' = fill (results s) i k (Failure false) -> log s' = log s ++ publish_range i k ++ l ->
  inv safe s'.
Proof.
  intros Hc Hk Hl Hreg Hik Eh Es Er El. split; [by rewrite Eh| |by rewrite Eh]. intros j. specialize (Hc j). specialize (Hreg j).
  assert (Hlog : of_call j (log s') = of_call j (log s) ++ if decide (i <= j < k)%nat then [Published j false] else []).
  { rewrite El, !of_call_app, of_call_range. f_equal. rewrite (of_call_other j l); [by rewrite app_nil_r|].
    eapply Forall_impl; [exact Hl|]. intros e -> [=]. }
  unfold call_ok in *. rewrite Hreg in Hc. rewrite Eh, Hlog, Er, Es. unfold region, fill. destruct (decide (j < i)%nat).
  - rewrite (decide_True (P:=(j < k)%nat)) by lia. rewrite !(decide_False (P:=(i <= j < k)%nat)) by lia. by rewrite app_nil_r.
  - destruct Hc as (Hs & Hr & H0). destruct (decide (j < k)%nat).
    + rewrite !(decide_True (P:=(i <= j < k)%nat)) by lia. exists (Failure false). split; [done|]. rewrite H0, Hs. constructor. by left.
    + rewrite !(decide_False (P:=(i <= j < k)%nat)) by lia. by rewrite app_nil_r.
Qed.

(** A worker or the main thread changes one call; all the others keep theirs. *)
Lemma moved_inv s s' o l : inv safe s -> place_ok safe (here s') -> (forall j, j <> o -> region safe (here s') j = region safe (here s) j) ->
  (forall j, j <> o -> status s' j = status s j) -> (forall j, j <> o -> results s' j = results s j) ->
  log s' = log s ++ l -> Forall (fun e => entry_of e = Some o \/ entry_of e = None) l ->
  call_ok safe (here s') o s' -> (forall i, here s' = Alone i -> status s' i = Some RUNNING) -> inv safe s'.
Proof.
  intros [Hp Hc Ha] Hp' Hreg Hst Hres El Hl Ho Ha'. split; [done| |done]. intros j. destruct (decide (j = o)) as [->|Hne]; [done|].
  eapply (call_ok_untouched (here s) (here s') j s s' l); auto. apply of_call_other. eapply Forall_impl; [exact Hl|].
  intros e [-> | ->]; congruence.
Qed.

Ltac moved o := eapply (moved_inv _ _ o _); [eassumption| | | | |cbn; first [reflexivity|symmetry; apply app_nil_r]|by repeat constructor| |];
  cbn [here go mark note enqueue settle]; try done.

Lemma worker_inv s i st l : inv safe s -> status s i = Some RUNNING -> here s <> Alone i ->
  st = FAILED \/ (exists text, st = DONE text) -> l = [Ended i] -> inv safe (mark i st (note l s)).
Proof.
  intros HI Hs Hal Hst ->. moved i.
  - apply HI.
  - intros j Hj. cbn. by rewrite upd_other.
  - pose proof (inv_call _ _ HI i) as Hc. unfold call_ok in *. cbn. rewrite upd_same, of_call_app. destruct (region safe (here s) i).
    + destruct Hc as (? & _). congruence.
    + destruct Hc as (Hr & Hw). split; [done|]. rewrite (running_history _ _ _ Hw Hs). destruct Hst as [->|[text ->]]; entries; constructor.
    + destruct Hc as (a & Hr & Hw). exists a. split; [done|]. rewrite Hs in Hw. inversion Hw as [|? [|]| | |? [|[? ?]]]; subst; try done.
      destruct Hst as [->|[text ->]]; entries; constructor; eauto.
  - intros j Hj. cbn. rewrite upd_other; [by apply (inv_alone _ _ HI)|]. by intros ->.
Qed.

Lemma take_inv s i a b : inv safe s -> queue s = a ++ i :: b -> status s i = Some PENDING ->
  inv safe (mark i RUNNING (note [Started i] (enqueue (a ++ b) s))).
Proof.
  intros HI _ Hs. moved i.
  - apply HI.
  - intros j Hj. cbn. by rewrite upd_other.
  - pose proof (inv_call _ _ HI i) as Hc. unfold call_ok in *. cbn. rewrite upd_same, of_call_app. destruct (region safe (here s) i).
    + destruct Hc as (? & _). congruence.
    + destruct Hc as (Hr & Hw). split; [done|]. rewrite (pending_history _ _ _ Hw Hs). entries. constructor.
    + destruct Hc as (a0 & Hr & Hw). rewrite Hs in Hw. by inversion Hw as [|? [|]| | |? [|[? ?]]].
  - intros j Hj. cbn. unfold upd. case_decide; [done|]. by apply (inv_alone _ _ HI).
Qed.
End Histories.

Section Preservation.
Variable safe : list bool.
Abbreviation size := (length safe).

(** The main thread moves on and touches no call. *)
Lemma walked_inv s p l : inv safe s -> place_ok safe p -> (forall j, region safe p j = region safe (here s) j) ->
  Forall (fun e => entry_of e = None) l -> (forall i, p <> Alone i) -> inv safe (go p (note l s)).
Proof.
  intros [Hp Hc Ha] Hp' Hreg Hl Hn. split; [done| |intros i E; by destruct (Hn i)]. intros j.
  eapply (call_ok_untouched safe (here s) p j s); [done|done|done|done|done|]. apply of_call_other.
  eapply Forall_impl; [exact Hl|]. intros e -> [=].
Qed.

Lemma note_nil s : note [] s = s.
Proof. destruct s. unfold note; cbn. by rewrite app_nil_r. Qed.

Lemma walked_inv' s p : inv safe s -> place_ok safe p -> (forall j, region safe p j = region safe (here s) j) ->
  (forall i, p <> Alone i) -> inv safe (go p s).
Proof. intros. rewrite <-(note_nil s). by apply walked_inv. Qed.

Lemma begun_segment i : (i < size)%nat -> (S i < segment_end safe i)%nat -> (i <= segment_end safe i <= size)%nat.
Proof. intros Hi _. pose proof (segment_end_bounds safe i Hi). lia. Qed.

Lemma submit_inv s first last o (tried_queue : list nat) p : inv safe s -> here s = Submitting first last o -> (o < last)%nat ->
  place_ok safe p -> (forall j, j <> o -> region safe p j = region safe (Submitting first last o) j) -> region safe p o = Active ->
  (forall i, p <> Alone i) -> inv safe (go p (mark o PENDING (enqueue tried_queue s))).
Proof.
  intros HI Hh Ho Hp Hreg Hact Hn. pose proof (inv_place _ _ HI) as Hpl. rewrite Hh in Hpl. cbn in Hpl.
  eapply (moved_inv safe s _ o []); [done|done|by rewrite Hh|intros j Hj; cbn; by rewrite upd_other|done|cbn; by rewrite app_nil_r|done| |].
  - pose proof (inv_call _ _ HI o) as Hc. rewrite Hh in Hc. apply known_ahead in Hc as (Hs & Hr & Hl).
    + unfold call_ok. cbn [here go]. rewrite Hact. cbn. rewrite upd_same, Hl. split; [done|constructor].
    + unfold region. by rewrite decide_False, decide_True, decide_False by lia.
  - intros i E. by destruct (Hn i).
Qed.

(** A future of the pool gets its result; [s1] is [s] with the call's status and
    the log as they are then. *)
Lemma settle_inv s s1 p o a l first last todo missed : inv safe s -> here s = p -> region safe p o = Active ->
  (forall j, j <> o -> region safe (Waiting first last todo missed) j = region safe p j) ->
  place_ok safe (Waiting first last todo missed) -> region safe (Waiting first last todo missed) o = Behind ->
  (forall j, j <> o -> status s1 j = status s j) -> results s1 = results s -> log s1 = log s ++ l ->
  Forall (fun e => entry_of e = Some o \/ entry_of e = None) l ->
  (forall h, waiting_history o (status s o) h -> settled_history o (status s1 o) a (h ++ of_call o l)) ->
  inv safe (go (Waiting first last todo missed) (settle o a s1)).
Proof.
  intros HI Hh Hact Hreg Hp Hbeh Hst Hres Hlog Hl Hset.
  eapply (moved_inv safe s _ o l); [done|done|by rewrite Hh|done|intros j Hj; cbn; by rewrite upd_other, Hres|done|done| |done].
  pose proof (inv_call _ _ HI o) as Hc. rewrite Hh in Hc. apply known_active in Hc as (Hr & Hw); [|done].
  unfold call_ok. cbn [here go]. rewrite Hbeh. exists a. cbn. rewrite upd_same, Hlog, of_call_app. split; [done|]. by apply Hset.
Qed.

(** Regions around the future that is settled. *)
Lemma settling_regions (tried : bool) o first last todo missed j : j <> o ->
  region safe (Waiting first last todo missed) j = region safe (Settling tried o first last todo missed) j.
Proof. intros Hj. unfold region. repeat case_decide; try done; repeat case_bool_decide; naive_solver. Qed.
Lemma waiting_regions o first last todo missed j : j <> o ->
  region safe (Waiting first last todo missed) j = region safe (Waiting first last (o :: todo) missed) j.
Proof. intros Hj. unfold region. repeat case_decide; try done; repeat case_bool_decide; rewrite ?elem_of_cons in *; naive_solver. Qed.
Lemma settling_head (tried : bool) o first last todo missed j :
  region safe (Settling tried o first last todo missed) j = region safe (Waiting first last (o :: todo) missed) j.
Proof. unfold region. repeat case_decide; try done; repeat case_bool_decide; rewrite ?elem_of_cons in *; naive_solver. Qed.

Lemma waiting_places o first last todo missed : place_ok safe (Waiting first last (o :: todo) missed) ->
  (forall tried, place_ok safe (Settling tried o first last todo missed)) /\ place_ok safe (Waiting first last todo missed).
Proof.
  cbn. intros (H1 & H2 & H3 & Hn & Hf). inversion Hf as [|? ? Ho Ht]; subst. apply NoDup_cons in Hn as [? ?].
  split; [intros _|]; split_and!; try done; try lia. by apply NoDup_cons.
Qed.
Lemma settling_places tried o first last todo missed : place_ok safe (Settling tried o first last todo missed) ->
  place_ok safe (Waiting first last (o :: todo) missed).
Proof. cbn. intros (H1 & H2 & H3 & Hn & Hf). split_and!; try done; try lia. by constructor. Qed.

Lemma waiting_active o first last todo missed : place_ok safe (Waiting first last (o :: todo) missed) ->
  region safe (Waiting first last (o :: todo) missed) o = Active /\ region safe (Waiting first last todo missed) o = Behind.
Proof.
  cbn. intros (H1 & H2 & H3 & Hn & Hf). inversion Hf as [|? ? Ho Ht]; subst. apply NoDup_cons in Hn as [Hno _].
  split; repeat case_decide; try lia; case_bool_decide; set_solver.
Qed.

Lemma region_submitted first last j : (first <= last)%nat ->
  region safe (Waiting first last (List.seq first (last - first)) None) j = region safe (Submitting first last last) j.
Proof.
  intros Hle. unfold region, missed_from; cbn [default from_option id]. repeat case_decide; try done.
  rewrite bool_decide_eq_true_2; [done|]. apply in_seq. lia.
Qed.

Lemma region_range first last missed j : (first <= missed_from last missed <= last)%nat ->
  region safe (Leaving first last missed) j = if decide (j < missed_from last missed)%nat then Behind else Ahead.
Proof. intros Hle. unfold region. repeat case_decide; try done; lia. Qed.

Lemma step_inv f s s' : inv safe s -> step safe f s s' -> inv safe s'.
Proof.
  intros HI St. pose proof (inv_place _ _ HI) as Hp. pose proof (inv_call _ _ HI) as Hc.
  destruct St as [s i Hh Hi He|s i text Hh|s i Hh Hi He|s i Hh Hi He|s first last o Hh Ho|s first last o queued Hh Ho|s first last Hh
    |s first last o todo missed text Hh Hs|s first last o todo missed Hh Hs|s first last o todo missed Hh
    |s o first last todo missed Hh Hs|s o first last todo missed Hh Hs|s o first last todo missed text Hh Hs|s o first last todo missed Hh Hs
    |s o first last todo missed Hh Hs|s first last missed Hh|s first last missed Hh Hq Hr|s first last missed Hh|s Hh
    |s a i b Hq Hs|s a i b Hq Hs|s i text Hs Hn|s i Hs Hn]; try rewrite Hh in Hp.
  - by apply begin_alone_inv.
  - by apply end_alone_inv.
  - eapply (range_inv safe s _ (here s) i (segment_end safe i) []); try done.
    + by apply begun_segment.
    + by rewrite Hh.
    + by apply begun_segment.
    + cbn. by rewrite app_nil_r.
  - pose proof (begun_segment i Hi He). apply walked_inv'; [done|split; [lia|by split; lia]| |done]. intros j. rewrite Hh. unfold region. repeat case_decide; try done; lia.
  - eapply submit_inv; [done|exact Hh|done|cbn in *; unfold pool_of in *; lia| | |done].
    + intros j Hj. unfold region. repeat case_decide; try done; lia.
    + unfold region. cbn in Hp. by rewrite decide_False, !decide_True by lia.
  - eapply submit_inv; [done|exact Hh|done| | | |done].
    + cbn in *. unfold pool_of in *. split_and!; try lia.
      * apply NoDup_cons. split; [rewrite in_seq; lia|apply NoDup_seq].
      * apply Forall_forall. intros j Hj. apply in_seq in Hj. lia.
    + intros j Hj. unfold region, missed_from; cbn [default from_option id]. repeat case_decide; try done; try lia.
      rewrite bool_decide_eq_true_2; [done|]. right. apply in_seq. lia.
    + cbn in *. rewrite decide_False by lia. rewrite !decide_True by lia. by rewrite bool_decide_eq_true_2 by (by left).
  - apply walked_inv'; [done| |intros j; rewrite Hh; apply region_submitted; cbn in Hp; lia|done].
    cbn in *. unfold pool_of in *. split_and!; try lia; [apply NoDup_seq|]. apply Forall_forall. intros j Hj. apply in_seq in Hj. lia.
  - destruct (waiting_active _ _ _ _ _ Hp) as [Hact Hbeh]. destruct (waiting_places _ _ _ _ _ Hp) as [_ Hpw].
    eapply (settle_inv s s _ o _ []); [done|exact Hh|done|intros; by apply waiting_regions|done|done|done|done|by rewrite app_nil_r|done|].
    intros h Hw. rewrite (done_history _ _ _ _ Hw Hs), Hs. constructor.
  - apply walked_inv'; [done|by apply (waiting_places _ _ _ _ _ Hp)|intros j; rewrite Hh; apply settling_head|done].
  - apply walked_inv'; [done|by apply (waiting_places _ _ _ _ _ Hp)|intros j; rewrite Hh; apply settling_head|done].
  - pose proof (settling_places _ _ _ _ _ _ Hp) as Hpw. destruct (waiting_active _ _ _ _ _ Hpw) as [Hact Hbeh]. destruct (waiting_places _ _ _ _ _ Hpw) as [_ Hp'].
    eapply (settle_inv s _ _ o _ [Published o false]); [done|exact Hh|by rewrite settling_head|intros; by apply settling_regions|done|done
      |intros j Hj; cbn; by rewrite upd_other|done|done|repeat constructor|].
    intros h Hw. rewrite (pending_history _ _ _ Hw Hs). cbn. rewrite upd_same. entries. constructor. by right.
  - apply walked_inv; [done|by apply (waiting_places _ _ _ _ _ (settling_places _ _ _ _ _ _ Hp))|intros j; rewrite Hh; by rewrite !settling_head|by repeat constructor|done].
  - pose proof (settling_places _ _ _ _ _ _ Hp) as Hpw. destruct (waiting_active _ _ _ _ _ Hpw) as [Hact Hbeh]. destruct (waiting_places _ _ _ _ _ Hpw) as [_ Hp'].
    eapply (settle_inv s s _ o _ []); [done|exact Hh|by rewrite settling_head|intros; by apply settling_regions|done|done
      |done|done|by rewrite app_nil_r|done|].
    intros h Hw. rewrite (done_history _ _ _ _ Hw Hs), Hs. constructor.
  - pose proof (settling_places _ _ _ _ _ _ Hp) as Hpw. destruct (waiting_active _ _ _ _ _ Hpw) as [Hact Hbeh]. destruct (waiting_places _ _ _ _ _ Hpw) as [_ Hp'].
    eapply (settle_inv s _ _ o _ [Published o true]); [done|exact Hh|by rewrite settling_head|intros; by apply settling_regions|done|done
      |done|done|done|repeat constructor|].
    intros h Hw. rewrite (failed_history _ _ _ Hw Hs). cbn. rewrite Hs. entries. constructor.
  - pose proof (settling_places _ _ _ _ _ _ Hp) as Hpw. destruct (waiting_active _ _ _ _ _ Hpw) as [Hact Hbeh]. destruct (waiting_places _ _ _ _ _ Hpw) as [_ Hp'].
    eapply (settle_inv s _ _ o _ [Abandoned o; Published o true]); [done|exact Hh|by rewrite settling_head|intros; by apply settling_regions|done|done
      |done|done|done|repeat constructor|].
    intros h Hw. rewrite (running_history _ _ _ Hw Hs). cbn. rewrite Hs. entries. constructor.
  - cbn in Hp. unfold pool_of in Hp. apply walked_inv'; [done|cbn; lia| |done]. intros j. rewrite Hh. unfold region. repeat case_decide; try done; by rewrite bool_decide_eq_false_2 by apply not_elem_of_nil.
  - cbn in Hp. eapply (range_inv safe s _ (here s) (missed_from last missed) last []); try done; try lia.
    + intros j. rewrite Hh. apply region_range. lia.
    + cbn. by rewrite app_nil_r.
  - cbn in Hp. eapply (range_inv safe s _ (here s) (missed_from last missed) last [Queued]); try done; try lia.
    + by repeat constructor.
    + intros j. rewrite Hh. apply region_range. lia.
    + cbn. by rewrite <-app_assoc.
  - apply walked_inv'; [done|done|intros j; by rewrite Hh|done].
  - by eapply take_inv.
  - split; [done|intros j; apply (Hc j)|apply (inv_alone _ _ HI)].
  - eapply worker_inv; eauto.
  - eapply worker_inv; eauto.
Qed.

Lemma start_inv : inv safe start.
Proof. split; [cbn; lia| |done]. intros i. unfold call_ok, region, start; cbn [here]. by rewrite decide_False by lia. Qed.

Lemma reachable_inv s : reachable safe s -> inv safe s.
Proof. induction 1 as [|s s' f _ IH St]; [apply start_inv|by eapply step_inv]. Qed.
End Preservation.

Section Theorems.
Variable safe : list bool.
Abbreviation size := (length safe).

Lemma elem_of_call i e l : entry_of e = Some i -> e ∈ l -> e ∈ of_call i l.
Proof. intros. unfold of_call. by apply list_elem_of_filter. Qed.

Lemma active_status p i s : call_ok safe p i s -> status s i <> None -> region safe p i <> Ahead.
Proof. unfold call_ok. intros H Hs E. rewrite E in H. by destruct H. Qed.

(** Where a running call can be, when none has been abandoned. *)
Lemma running_active s i : inv safe s -> status s i = Some RUNNING -> (Abandoned i ∉ log s) -> region safe (here s) i = Active.
Proof.
  intros HI Hs Ha. pose proof (inv_call _ _ HI i) as Hc. unfold call_ok in Hc. destruct (region safe (here s) i) eqn:E; [|done|].
  - destruct Hc as [? _]. congruence.
  - destruct Hc as (a & _ & Hw). rewrite Hs in Hw. exfalso. remember (of_call i (log s)) as h eqn:Eh.
    inversion Hw as [|? [|]| | |? [|[? ?]]]; subst; try done. apply Ha.
    assert (Hin : Abandoned i ∈ of_call i (log s)) by (match goal with E : _ = of_call _ _ |- _ => rewrite <-E end; set_solver). by apply list_elem_of_filter in Hin as [_ ?].
Qed.

Lemma segment_safe first i : (S first < segment_end safe first)%nat -> (first <= i < segment_end safe first)%nat -> safe !! i = Some true.
Proof.
  unfold segment_end. destruct (drop first safe) as [|[] l] eqn:E; try lia. intros _ Hi.
  replace i with (first + (i - first))%nat by lia. rewrite <-lookup_drop, E.
  destruct (i - first)%nat as [|n] eqn:En; [done|]. cbn.
  assert (Hn : (n < safe_prefix l)%nat) by lia. clear -Hn. revert n Hn. induction l as [|[] l IH]; intros n Hn; cbn in *; try lia.
  destruct n as [|n]; [done|]. cbn. apply IH. lia.
Qed.

Definition pool_segment (p : place) : option (nat * nat) :=
  match p with
  | Submitting first last _ | Settling _ _ first last _ _ | Waiting first last _ _ => Some (first, last)
  | _ => None
  end.

Lemma active_place p i : place_ok safe p -> region safe p i = Active ->
  p = Alone i \/ exists first last, pool_segment p = Some (first, last) /\ pool_of safe first last /\ (first <= i < last)%nat.
Proof.
  intros Hp. destruct p; cbn [region]; unfold place_ok in Hp; repeat case_decide; try done; intros E; simplify_eq; [by left|..]; right; naive_solver lia.
Qed.

(** The entry that starts a call. *)
Definition starts (i : nat) (l : list entry) : nat := length (filter (fun e => e = Started i) l).

Lemma starts_of_call i l : starts i l = starts i (of_call i l).
Proof.
  unfold starts, of_call. induction l as [|e l IH]; [done|]. rewrite !filter_cons.
  destruct (decide (entry_of e = Some i)) as [He|He].
  - rewrite filter_cons. destruct (decide (e = Started i)); cbn; by rewrite IH.
  - rewrite decide_False by (by intros ->). done.
Qed.

(** The histories that a call can have so far. *)
Definition possible_history (i : nat) (h : list entry) : Prop :=
  h ∈ [[]; [Started i]; [Started i; Ended i]; [Published i false]; [Started i; Ended i; Published i true];
       [Started i; Abandoned i; Published i true]; [Started i; Abandoned i; Published i true; Ended i]].

Lemma call_possible p i s : call_ok safe p i s -> possible_history i (of_call i (log s)).
Proof.
  unfold call_ok, possible_history. destruct (region safe p i).
  - intros (_ & _ & ->). set_solver.
  - intros (_ & []); set_solver.
  - intros (a & _ & []); set_solver.
Qed.

Lemma history_facts i h : possible_history i h ->
  (starts i h <= 1)%nat /\ (Published i false ∈ h -> Started i ∉ h).
Proof.
  unfold possible_history. rewrite !elem_of_cons, elem_of_nil. intros [->|[->|[->|[->|[->|[->|[->|[]]]]]]]];
    (split; [unfold starts; rewrite ?filter_cons, ?filter_nil; repeat case_decide; simplify_eq; cbn; lia|set_solver]).
Qed.

(** C4: a batch gives every call exactly one result, and never runs a call
    twice. In any interleaving of the main thread and the workers, with any
    failure of the pool, of a submission, of a wait or of a worker, each call
    starts at most once, and a call whose published failure says that nothing
    was started never starts, before or afterwards. When the batch is over,
    every call has its one result, in its place: its own text, when it ran to
    its end, or the scheduler's failure, which says whether it was started. *)
Theorem batch_runs_each_call_once s (Hs : reachable safe s) :
  (forall i, (starts i (log s) <= 1)%nat) /\ (forall i, Published i false ∈ log s -> Started i ∉ log s)
  /\ (here s = Finished -> forall i, (i < size)%nat -> exists a, results s i = Some a /\
        match a with
        | Returned text => status s i = Some (DONE text) /\ of_call i (log s) = [Started i; Ended i]
        | Failure false => of_call i (log s) = [Published i false]
        | Failure true => Started i ∈ log s /\ Published i true ∈ log s
        end).
Proof.
  apply reachable_inv in Hs as HI. assert (Hpos : forall i, possible_history i (of_call i (log s))) by (intros i; eapply call_possible, HI).
  split_and!.
  - intros i. rewrite starts_of_call. by apply history_facts.
  - intros i Hp Hst. apply (proj2 (history_facts i _ (Hpos i))); by apply elem_of_call.
  - intros Hh i Hi. pose proof (inv_call _ _ HI i) as Hc. rewrite Hh in Hc. apply known_behind in Hc as (a & Hr & Hw); [|cbn; by rewrite decide_True].
    exists a. split; [done|]. remember (of_call i (log s)) as h eqn:Eh.
    assert (Hin : forall e, e ∈ h -> e ∈ log s) by (intros e; rewrite Eh; unfold of_call; by intros [_ ?]%list_elem_of_filter).
    destruct Hw; try done; split; apply Hin; set_solver.
Qed.

(** C38: only calls of tools that are safe in parallel overlap, and only within
    one contiguous segment of them. Two calls that run at the same time, neither
    of them left behind by an interrupted wait, belong to the same pool: every
    other call of the batch is a barrier. *)
Theorem only_safe_calls_overlap s i j (Hs : reachable safe s) (Hij : i <> j)
    (Hi : status s i = Some RUNNING) (Hj : status s j = Some RUNNING) (Ha : Abandoned i ∉ log s) (Hb : Abandoned j ∉ log s) :
  safe !! i = Some true /\ safe !! j = Some true
  /\ exists first, (first <= i < segment_end safe first)%nat /\ (first <= j < segment_end safe first)%nat.
Proof.
  apply reachable_inv in Hs as HI. pose proof (inv_place _ _ HI) as Hp.
  destruct (active_place _ _ Hp (running_active _ _ HI Hi Ha)) as [Hal|(f & l & Ef & [-> Hl] & Hri)].
  - pose proof (running_active _ _ HI Hj Hb) as Hr. rewrite Hal in Hr. cbn in Hr. repeat case_decide; congruence.
  - destruct (active_place _ _ Hp (running_active _ _ HI Hj Hb)) as [Hal|(f' & l' & Ef' & [-> _] & Hrj)].
    + by rewrite Hal in Ef.
    + rewrite Ef in Ef'. injection Ef' as <- _. split_and!; [eapply segment_safe; [|exact Hri]; lia|eapply segment_safe; [|exact Hrj]; lia|by exists f].
Qed.

(** ** The batch comes to an end *)

Definition status_weight (st : option attempt) : nat :=
  match st with None => 5 | Some PENDING => 3 | Some RUNNING => 1 | Some _ => 0 end.
Fixpoint total_weight (f : nat -> option attempt) (n : nat) : nat :=
  match n with O => 0 | S n => status_weight (f n) + total_weight f n end.
Definition place_weight (p : place) : nat :=
  match p with
  | Next i => 6 * (size - i) + 1
  | Alone i => 6 * (size - i)
  | Submitting first last o => 6 * (size - last) + 3 * (last - first) + 5
  | Settling tried o first last todo _ => 6 * (size - last) + 3 * length todo + 4 + (if tried then 0 else 1)
  | Waiting first last todo _ => 6 * (size - last) + 3 * length todo + 3
  | Leaving first last _ => 6 * (size - last) + 2
  | Finished => 0
  end.
Definition weight (s : batch) : nat := place_weight (here s) + total_weight (status s) size + length (queue s).

Lemma total_weight_upd f i a n : total_weight (upd f i a) n = if decide (i < n)%nat
  then (total_weight f n - status_weight (f i) + status_weight (Some a))%nat else total_weight f n.
Proof.
  enough (H : ((total_weight (upd f i a) n = if decide (i < n) then total_weight f n - status_weight (f i) + status_weight (Some a) else total_weight f n)
     /\ ((i < n) -> status_weight (f i) <= total_weight f n))%nat) by apply H.
  induction n as [|n [IH1 IH2]].
  { rewrite decide_False by lia. split; [done|lia]. }
  cbn [total_weight].
  destruct (decide (n = i)) as [->|Hne].
  - rewrite decide_True by lia. rewrite IH1, decide_False by lia. rewrite upd_same. split; lia.
  - rewrite upd_other by done. rewrite IH1. split; [|lia]. repeat case_decide; lia.
Qed.

Lemma weight_moved s i a : (i < size)%nat ->
  (total_weight (upd (status s) i a) size + status_weight (status s i) = total_weight (status s) size + status_weight (Some a))%nat.
Proof.
  intros Hi. rewrite total_weight_upd, decide_True by done.
  assert (H : (status_weight (status s i) <= total_weight (status s) size)%nat); [|lia].
  revert Hi. generalize size. intros n. induction n as [|n IH]; [lia|]. cbn. intros. destruct (decide (i = n)) as [->|]; [lia|].
  specialize (IH ltac:(lia)). lia.
Qed.

Lemma beyond_size p i : place_ok safe p -> (size <= i)%nat -> region safe p i = Ahead.
Proof.
  intros Hp Hi. destruct p; unfold place_ok, pool_of in Hp; cbn [region]; repeat case_decide; try done; lia.
Qed.

Lemma known_index s i : inv safe s -> status s i <> None -> (i < size)%nat.
Proof.
  intros HI Hs. destruct (decide (i < size)%nat); [done|]. exfalso. pose proof (inv_call _ _ HI i) as Hc. unfold call_ok in Hc.
  rewrite beyond_size in Hc; [by destruct Hc|apply HI|lia].
Qed.

Lemma ahead_status s i : inv safe s -> region safe (here s) i = Ahead -> status s i = None.
Proof. intros HI E. pose proof (inv_call _ _ HI i) as Hc. unfold call_ok in Hc. rewrite E in Hc. by destruct Hc. Qed.

Lemma step_decreases f s s' : inv safe s -> step safe f s s' -> (weight s' < weight s)%nat.
Proof.
  intros HI St. pose proof (inv_place _ _ HI) as Hp.
  destruct St as [s i Hh Hi He|s i text Hh|s i Hh Hi He|s i Hh Hi He|s first last o Hh Ho|s first last o queued Hh Ho|s first last Hh
    |s first last o todo missed text Hh Hs|s first last o todo missed Hh Hs|s first last o todo missed Hh
    |s o first last todo missed Hh Hs|s o first last todo missed Hh Hs|s o first last todo missed text Hh Hs|s o first last todo missed Hh Hs
    |s o first last todo missed Hh Hs|s first last missed Hh|s first last missed Hh Hq Hr|s first last missed Hh|s Hh
    |s a i b Hq Hs|s a i b Hq Hs|s i text Hs Hn|s i Hs Hn]; unfold weight; cbn [here go mark note enqueue settle settle_range status queue];
    try rewrite Hh in *; cbn [place_weight length]; unfold place_ok, pool_of in Hp.
  - pose proof (weight_moved s i RUNNING Hi) as Hw. cbn in Hw. rewrite (ahead_status s i HI) in Hw by (rewrite Hh; unfold region; by rewrite decide_False by lia).
    cbn in Hw. lia.
  - pose proof (weight_moved s i (DONE text) Hp) as Hw. cbn in Hw. lia.
  - pose proof (begun_segment safe i Hi He). lia.
  - pose proof (begun_segment safe i Hi He). lia.
  - pose proof (weight_moved s o PENDING ltac:(lia)) as Hw. rewrite (ahead_status s o HI) in Hw.
    + cbn in Hw. rewrite length_app. cbn. lia.
    + rewrite Hh. unfold region. by rewrite decide_False, decide_True, decide_False by lia.
  - pose proof (weight_moved s o PENDING ltac:(lia)) as Hw. rewrite (ahead_status s o HI) in Hw.
    + cbn in Hw. rewrite length_app, length_seq. destruct queued; cbn; lia.
    + rewrite Hh. unfold region. by rewrite decide_False, decide_True, decide_False by lia.
  - rewrite length_seq. lia.
  - lia.
  - lia.
  - lia.
  - pose proof (weight_moved s o CANCELLED (known_index s o HI ltac:(by rewrite Hs))) as Hw. cbn in Hw. lia.
  - lia.
  - lia.
  - lia.
  - lia.
  - lia.
  - lia.
  - lia.
  - lia.
  - pose proof (weight_moved s i RUNNING (known_index s i HI ltac:(by rewrite Hs))) as Hw. rewrite Hs in Hw. cbn in Hw.
    rewrite Hq, !length_app. cbn. lia.
  - rewrite Hq, !length_app. cbn. lia.
  - pose proof (weight_moved s i (DONE text) (known_index s i HI ltac:(by rewrite Hs))) as Hw. rewrite Hs in Hw. cbn in Hw. lia.
  - pose proof (weight_moved s i FAILED (known_index s i HI ltac:(by rewrite Hs))) as Hw. rewrite Hs in Hw. cbn in Hw. lia.
Qed.

(** The queue holds submitted calls, each once; a call that waits is in it,
    unless its submission has just failed. *)
Record queue_ok (s : batch) : Prop := {
  q_once : NoDup (queue s);
  q_status : forall i, i ∈ queue s -> status s i = Some PENDING \/ status s i = Some CANCELLED;
  q_pending : forall i, status s i = Some PENDING -> i ∈ queue s \/ exists first last todo missed, here s = Settling false i first last todo missed;
}.

Lemma queue_same s s' : queue_ok s -> queue s' = queue s -> status s' = status s ->
  (forall i first last todo missed, status s i = Some PENDING -> here s = Settling false i first last todo missed -> here s' = here s) -> queue_ok s'.
Proof.
  intros [Hn Hs Hp] Eq Es Hh. split; rewrite ?Eq, ?Es; try done. intros i Hi. destruct (Hp i Hi) as [?|(f & l & t & m & E)]; [by left|right].
  exists f, l, t, m. by rewrite (Hh i f l t m Hi E).
Qed.

Lemma queue_marked s s' i a : queue_ok s -> queue s' = queue s -> status s' = upd (status s) i a -> a <> PENDING ->
  (i ∈ queue s -> a = CANCELLED) -> (forall j first last todo missed, j <> i -> status s j = Some PENDING ->
     here s = Settling false j first last todo missed -> here s' = here s) -> queue_ok s'.
Proof.
  intros [Hn Hs Hp] Eq Es Ha Hi Hh. split; rewrite ?Eq, ?Es; [done| |].
  - intros j Hj. destruct (decide (j = i)) as [->|Hne]; [rewrite upd_same, (Hi Hj); by right|rewrite upd_other by done; by apply Hs].
  - intros j Hj. destruct (decide (j = i)) as [->|Hne]; [rewrite upd_same in Hj; congruence|]. rewrite upd_other in Hj by done.
    destruct (Hp j Hj) as [?|(f & l & t & m & E)]; [by left|right]. exists f, l, t, m. by rewrite (Hh j f l t m Hne Hj E).
Qed.

Lemma queue_taken s i a b (st : option attempt) : queue_ok s -> queue s = a ++ i :: b ->
  NoDup (a ++ b) /\ (i ∉ a ++ b) /\ (forall j, j ∈ a ++ b -> j ∈ queue s) /\ (forall j, j <> i -> j ∈ queue s -> j ∈ a ++ b).
Proof.
  intros [Hn _ _] Hq. rewrite Hq in *. apply NoDup_app in Hn as (Ha & Hab & Hb). apply NoDup_cons in Hb as [Hi Hb].
  split_and!; [|set_solver..]. apply NoDup_app. split_and!; [done|set_solver|done].
Qed.

Lemma queue_submitted s o q p : inv safe s -> queue_ok s -> status s o = None -> (q = [o] \/ (q = [] /\ exists first last todo missed, p = Settling false o first last todo missed)) ->
  (forall i first last todo missed, here s <> Settling false i first last todo missed) ->
  queue_ok (go p (mark o PENDING (enqueue (queue s ++ q) s))).
Proof.
  intros HI [Hn Hs Hp] Ho Hq Hh. assert (Hno : o ∉ queue s) by (intros Hin; destruct (Hs o Hin); congruence).
  split; cbn.
  - apply NoDup_app. split_and!; [done| |destruct Hq as [->|[-> _]]; [apply NoDup_singleton|constructor]].
    intros j Hj. destruct Hq as [->|[-> _]]; set_solver.
  - intros j [Hj|Hj]%elem_of_app.
    + rewrite upd_other by congruence. by apply Hs.
    + assert (j = o) as -> by (destruct Hq as [->|[-> _]]; set_solver). left. apply upd_same.
  - intros j Hj. destruct (decide (j = o)) as [->|Hne].
    + destruct Hq as [->|(-> & f & l & t & m & ->)]; [left; set_solver|right; by exists f, l, t, m].
    + rewrite upd_other in Hj by done. destruct (Hp j Hj) as [?|(f & l & t & m & E)]; [left; set_solver|by destruct (Hh j f l t m)].
Qed.

Lemma step_queue f s s' : inv safe s -> queue_ok s -> step safe f s s' -> queue_ok s'.
Proof.
  intros HI HQ St. pose proof (inv_place _ _ HI) as Hp.
  assert (Hsame : forall s', queue s' = queue s -> status s' = status s ->
    (forall i first last todo missed, here s <> Settling false i first last todo missed) -> queue_ok s').
  { intros s2 E1 E2 Hn. eapply queue_same; [done|done|done|]. intros i fi la t m _ E. by destruct (Hn i fi la t m). }
  assert (Hmark : forall s' i a, queue s' = queue s -> status s' = upd (status s) i a -> a = RUNNING \/ a = FAILED \/ (exists text, a = DONE text) ->
    i ∉ queue s -> (forall j first last todo missed, j <> i -> here s = Settling false j first last todo missed -> here s' = here s) -> queue_ok s').
  { intros s2 i a E1 E2 Ha Hi Hn. eapply queue_marked; [done|done|exact E2|naive_solver|done|]. intros j fi la t m Hne _. by apply Hn. }
  assert (Hout : forall i, status s i <> Some PENDING -> status s i <> Some CANCELLED -> i ∉ queue s).
  { intros i H1 H2 Hin. by destruct (q_status _ HQ i Hin). }
  destruct St as [s i Hh Hi He|s i text Hh|s i Hh Hi He|s i Hh Hi He|s first last o Hh Ho|s first last o queued Hh Ho|s first last Hh
    |s first last o todo missed text Hh Hs|s first last o todo missed Hh Hs|s first last o todo missed Hh
    |s o first last todo missed Hh Hs|s o first last todo missed Hh Hs|s o first last todo missed text Hh Hs|s o first last todo missed Hh Hs
    |s o first last todo missed Hh Hs|s first last missed Hh|s first last missed Hh Hq Hr|s first last missed Hh|s Hh
    |s a i b Hq Hs|s a i b Hq Hs|s i text Hs Hn|s i Hs Hn]; try (apply Hsame; [done|done|intros; rewrite Hh; discriminate]).
  - assert (Hn : status s i = None) by (apply (ahead_status s i HI); rewrite Hh; unfold region; by rewrite decide_False by lia).
    eapply (Hmark _ i RUNNING); [done|done|by left|apply Hout; congruence|]. intros j fi la t m _ E. by rewrite Hh in E.
  - pose proof (inv_alone _ _ HI i Hh) as Hs. eapply (Hmark _ i (DONE text)); [done|done|right; right; eauto|apply Hout; congruence|].
    intros j fi la t m _ E. by rewrite Hh in E.
  - apply queue_submitted; try done; [|by left|intros; by rewrite Hh]. apply (ahead_status s o HI). rewrite Hh. rewrite Hh in Hp. cbn in Hp.
    unfold region. by rewrite decide_False, decide_True, decide_False by lia.
  - apply queue_submitted; try done; [|destruct queued; [by left|right; split; [done|eauto]]|intros; by rewrite Hh].
    apply (ahead_status s o HI). rewrite Hh. rewrite Hh in Hp. cbn in Hp. unfold region. by rewrite decide_False, decide_True, decide_False by lia.
  - eapply (queue_marked s _ o CANCELLED); [done|done|done|done|done|]. intros j fi la t m Hne _ E. rewrite Hh in E. congruence.
  - eapply (queue_same s); [done|done|done|]. intros i fi la t m Hi E. rewrite Hh in E. congruence.
  - destruct (queue_taken s i a b None HQ Hq) as (Hn & Hni & Hsub & Hoth). split; cbn.
    + done.
    + intros j Hj. assert (j <> i) by (by intros ->). rewrite upd_other by done. apply (q_status _ HQ). by apply Hsub.
    + intros j Hj. destruct (decide (j = i)) as [->|Hne]; [rewrite upd_same in Hj; congruence|]. rewrite upd_other in Hj by done.
      destruct (q_pending _ HQ j Hj) as [Hin|?]; [left; by apply Hoth|by right].
  - destruct (queue_taken s i a b None HQ Hq) as (Hn & Hni & Hsub & Hoth). split; cbn.
    + done.
    + intros j Hj. apply (q_status _ HQ). by apply Hsub.
    + intros j Hj. assert (j <> i) by congruence. destruct (q_pending _ HQ j Hj) as [Hin|?]; [left; by apply Hoth|by right].
  - eapply (Hmark _ i (DONE text)); [done|done|right; right; eauto|apply Hout; congruence|done].
  - eapply (Hmark _ i FAILED); [done|done|by right; left|apply Hout; congruence|done].
Qed.

Lemma reachable_queue s : reachable safe s -> queue_ok s.
Proof.
  induction 1 as [|s s' f Hr IH St].
  - split; [constructor|intros i Hi; by apply elem_of_nil in Hi|done].
  - eapply step_queue; [by apply reachable_inv|done|exact St].
Qed.

(** Some worker can move, unless all is quiet. *)
Lemma worker_moves s : inv safe s -> queue_ok s -> (forall i, here s <> Alone i) ->
  (exists s', step safe false s s') \/ (queue s = [] /\ forall i, status s i <> Some RUNNING).
Proof.
  intros HI HQ Hal. destruct (queue s) as [|i q] eqn:Eq.
  - destruct (decide (Exists (fun i => status s i = Some RUNNING) (List.seq 0 size))) as [Hex|Hno].
    + apply Exists_exists in Hex as (i & _ & Hi). left. eexists. by eapply (worker_returns safe s i []).
    + right. split; [done|]. intros i Hi. apply Hno, Exists_exists. exists i. split; [|done]. apply in_seq.
      pose proof (known_index s i HI ltac:(by rewrite Hi)). lia.
  - left. destruct (q_status _ HQ i) as [Hs|Hs]; [rewrite Eq; by left| |].
    + eexists. by eapply (take safe s [] i q).
    + eexists. by eapply (skip safe s [] i q).
Qed.

Lemma progress s : inv safe s -> queue_ok s -> here s <> Finished -> exists s', step safe false s s'.
Proof.
  intros HI HQ Hf. pose proof (inv_place _ _ HI) as Hp. pose proof (inv_call _ _ HI) as Hc.
  destruct (here s) as [i|i|first last o|tried o first last todo missed|first last todo missed|first last missed|] eqn:Hh; [| | | | | |done].
  - destruct (decide (i = size)) as [->|Hne]; [eexists; by apply finish|]. cbn in Hp. pose proof (segment_end_bounds safe i ltac:(lia)).
    destruct (decide (segment_end safe i = S i)); eexists; [apply begin_alone|apply pool_opens]; done || lia.
  - eexists. by apply (end_alone safe s i []).
  - destruct Hp as [Hle _]. destruct (decide (o = last)) as [->|]; eexists; [by apply submitted|apply submit; [done|lia]].
  - pose proof (settling_places safe _ _ _ _ _ _ Hp) as Hpw. destruct (waiting_active safe _ _ _ _ _ Hpw) as [Hact _].
    specialize (Hc o). apply known_active in Hc as (Hr & Hw); [|by rewrite settling_head].
    assert (Hst : status s o = Some PENDING \/ status s o = Some RUNNING \/ (exists text, status s o = Some (DONE text)) \/ status s o = Some FAILED)
      by (destruct Hw; eauto).
    destruct Hst as [Hs|[Hs|[[text Hs]|Hs]]].
    + destruct tried; [|eexists; by eapply settle_cancels].
      destruct (worker_moves s HI HQ) as [?|[Hq _]]; [intros; by rewrite Hh|done|].
      exfalso. destruct (q_pending _ HQ o Hs) as [Hin|(? & ? & ? & ? & E)]; [rewrite Hq in Hin; by apply elem_of_nil in Hin|congruence].
    + eexists. eapply (worker_returns safe s o []); [done|by rewrite Hh].
    + destruct tried; eexists; [by eapply settle_returned|by eapply settle_uncancelled; [|rewrite Hs]].
    + destruct tried; eexists; [by eapply settle_failed|by eapply settle_uncancelled; [|rewrite Hs]].
  - destruct todo as [|o todo]; [eexists; by apply waited|]. destruct (waiting_active safe _ _ _ _ _ Hp) as [Hact _].
    specialize (Hc o). apply known_active in Hc as (Hr & Hw); [|done].
    assert (Hst : status s o = Some PENDING \/ status s o = Some RUNNING \/ (exists text, status s o = Some (DONE text)) \/ status s o = Some FAILED)
      by (destruct Hw; eauto).
    destruct Hst as [Hs|[Hs|[[text Hs]|Hs]]].
    + destruct (worker_moves s HI HQ) as [?|[Hq _]]; [intros; by rewrite Hh|done|].
      exfalso. destruct (q_pending _ HQ o Hs) as [Hin|(? & ? & ? & ? & E)]; [rewrite Hq in Hin; by apply elem_of_nil in Hin|congruence].
    + eexists. eapply (worker_returns safe s o []); [done|by rewrite Hh].
    + eexists. by eapply wait_returns.
    + eexists. by eapply wait_fails.
  - destruct (worker_moves s HI HQ) as [?|[Hq Hr]]; [intros; by rewrite Hh|done|]. eexists. by eapply leave.
Qed.

(** C39: a batch always ends. Every step of the main thread or a worker brings
    it strictly nearer to its end, faults included, and until it has ended some
    step that is not a fault can be taken: the scheduler neither loops nor
    waits for a call that can no longer run. *)
Theorem batch_terminates s (Hs : reachable safe s) :
  (forall f s', step safe f s s' -> (weight s' < weight s)%nat) /\ (here s <> Finished -> exists s', step safe false s s').
Proof.
  split.
  - intros f s'. by apply step_decreases, reachable_inv.
  - apply progress; [by apply reachable_inv|by apply reachable_queue].
Qed.
End Theorems.

(** ** An example *)

(** Two calls that are safe in parallel, and one that is not. *)
Definition example_calls : list bool := [true; true; false].

(** Takes one more step. *)
Tactic Notation "advance" hyp(H) uconstr(r) := eapply reach_step in H; [|eapply r; first [reflexivity|cbn; lia|done]]; cbn in H.

(** The second submission raises after the call has reached the queue; its
    attempt is cancelled, and the worker that finds it later leaves it alone. *)
Lemma example_finished : exists s, reachable example_calls s /\ here s = Finished
  /\ results s 0%nat = Some (Returned $"a") /\ results s 1%nat = Some (Failure false) /\ results s 2%nat = Some (Returned $"c").
Proof.
  pose proof (reach_start example_calls) as H.
  advance H (pool_opens example_calls _ 0).
  advance H (submit example_calls _ 0 2 0).
  advance H (submit_raises example_calls _ 0 2 1 true).
  advance H (settle_cancels example_calls _ 1 0 2 [0%nat] (Some 2%nat)).
  advance H (take example_calls _ [] 0 [1%nat]).
  advance H (worker_returns example_calls _ 0 $"a").
  advance H (wait_returns example_calls _ 0 2 0 [] (Some 2%nat) $"a").
  advance H (waited example_calls _ 0 2 (Some 2%nat)).
  advance H (skip example_calls _ [] 1 []).
  advance H (leave_raises example_calls _ 0 2 (Some 2%nat)).
  advance H (begin_alone example_calls _ 2).
  advance H (end_alone example_calls _ 2 $"c").
  advance H (finish example_calls _).
  eexists. split; [exact H|]. by vm_compute.
Qed.

Lemma batch_runs_each_call_once_witness : exists s, reachable example_calls s /\ here s = Finished
  /\ results s 1%nat = Some (Failure false) /\ (Published 1 false ∈ log s -> Started 1 ∉ log s) /\ (starts 0 (log s) <= 1)%nat.
Proof.
  destruct example_finished as (s & Hs & Hf & _ & Hr & _). exists s. split_and!; [done|done|done| |].
  - apply (batch_runs_each_call_once example_calls s Hs).
  - apply (batch_runs_each_call_once example_calls s Hs).
Defined.

(** Both calls of the pool at work. *)
Lemma example_overlap : exists s, reachable example_calls s /\ status s 0%nat = Some RUNNING /\ status s 1%nat = Some RUNNING
  /\ (Abandoned 0 ∉ log s) /\ (Abandoned 1 ∉ log s).
Proof.
  pose proof (reach_start example_calls) as H.
  advance H (pool_opens example_calls _ 0).
  advance H (submit example_calls _ 0 2 0).
  advance H (submit example_calls _ 0 2 1).
  advance H (take example_calls _ [] 0 [1%nat]).
  advance H (take example_calls _ [] 1 []).
  eexists. split; [exact H|]. split_and!; [done|done|cbn; set_solver|cbn; set_solver].
Qed.

Lemma only_safe_calls_overlap_witness : exists s, status s 0%nat = Some RUNNING /\ status s 1%nat = Some RUNNING /\ example_calls !! 1%nat = Some true.
Proof.
  destruct example_overlap as (s & Hs & H0 & H1 & Ha & Hb). exists s. split_and!; [done|done|].
  by destruct (only_safe_calls_overlap example_calls s 0 1 Hs ltac:(done) H0 H1 Ha Hb) as (_ & ? & _).
Defined.

Lemma batch_terminates_witness : exists s, here s <> Finished /\ exists s', step example_calls false s s' /\ (weight example_calls s' < weight example_calls s)%nat.
Proof.
  exists start. split; [done|]. destruct (proj2 (batch_terminates example_calls start (reach_start _)) ltac:(done)) as [s' Hs'].
  exists s'. split; [done|]. by apply (proj1 (batch_terminates example_calls start (reach_start _)) false).
Defined.
