(* ===== verification/SubagentJobs.v ===== *)
(** * Jobs of subagents (extensions/subagent/models.py, data of manager.py)

    A job is what the manager of subagents knows of one delegated task; its
    worker ends with a [SubagentResult].  A child reports to its parent in
    communications, and receives directives.  All three are published to the
    event log as payloads, from which a later process rebuilds the jobs and the
    messages that were never delivered.

    The fields of [SubagentJob] are grouped: those fixed when the job is created
    ([Assignment]) and those of its times, report, use of tokens, guidance,
    cancellation, delivery and activity.  Times are thousandths of a second;
    their texts are a parameter ([Seconds]).  Restored fields that hold texts
    are read as texts: the log holds no other values there. *)

From S2P Require Import Prelude PyValue Lines Workspace Replay.

(** [float(v)] of a number of seconds, and the number's text. *)
Class Seconds := { seconds_of : pyval -> result Z; seconds_text : Z -> pystr }.
Class SecondsLaws `{Seconds} := {
  seconds_of_text t : seconds_of (VFloat (seconds_text t)) = Ok t;
  seconds_truthy t : truthy (VFloat (seconds_text t)) = bool_decide (t <> 0);
}.

Definition _DEFAULT_MAX_ROUNDS : Z := 50.
Definition _DEFAULT_TIMEOUT_SECONDS : Z := 300.
Definition _MAX_TIMEOUT_SECONDS : Z := 3600.
Definition _DEFAULT_GUIDANCE_TIMEOUT_SECONDS : Z := 3600.
Definition _MAX_ACTIVE_SUBAGENTS : Z := 4.

(** ** Results *)

Record SubagentResult := {
  r_status : pystr;
  r_summary : pystr;
  r_evidence : list pystr;
  r_files : list pystr;
  r_changes : list pystr;
  r_unresolved : list pystr;
  r_confidence : option pystr;
  r_tool_uses : Z;
  r_prompt_tokens : Z;
  r_completion_tokens : Z;
  r_model_calls : Z;
  r_duration : Z;
  r_transcript_ref : option pystr;
  r_partial : bool;
  r_worktree_path : option pystr;
  r_usage_uncertain : bool;
  r_resume_ready : bool;
}.

(** [SubagentResult(status=..., summary=...)]. *)
Definition simple_result (status summary : pystr) : SubagentResult :=
  {| r_status := status; r_summary := summary; r_evidence := []; r_files := []; r_changes := []; r_unresolved := [];
     r_confidence := None; r_tool_uses := 0; r_prompt_tokens := 0; r_completion_tokens := 0; r_model_calls := 0;
     r_duration := 0; r_transcript_ref := None; r_partial := false; r_worktree_path := None;
     r_usage_uncertain := false; r_resume_ready := false |}.

Definition texts (l : list pystr) : pyval := VList (map VStr l).
Definition optional_int (v : option Z) : pyval := match v with Some n => VInt n | None => VNone end.

(** The payload with the four lists as given. *)
Definition payload_with (evidence files changes unresolved : list pystr) (r : SubagentResult) : pydict :=
  [ ($"status", VStr (r_status r)); ($"summary", VStr (r_summary r)); ($"evidence", texts evidence);
    ($"files", texts files); ($"changes", texts changes); ($"unresolved", texts unresolved);
    ($"confidence", of_optional_str (r_confidence r));
    ($"usage", VDict [ ($"tool_uses", VInt (r_tool_uses r)); ($"prompt_tokens", VInt (r_prompt_tokens r));
                       ($"completion_tokens", VInt (r_completion_tokens r)); ($"model_calls", VInt (r_model_calls r)) ]);
    ($"transcript_ref", of_optional_str (r_transcript_ref r)); ($"partial", VBool (r_partial r));
    ($"worktree_path", of_optional_str (r_worktree_path r)); ($"usage_uncertain", VBool (r_usage_uncertain r)) ].

Definition canonical_payload (r : SubagentResult) : pydict :=
  payload_with (r_evidence r) (r_files r) (r_changes r) (r_unresolved r) r.

(** [json.dumps(v, ensure_ascii=False, indent=2)] at nesting [depth]. *)
Definition new_line (depth : nat) : pystr := 10 :: repeat 32 (2 * depth).
Fixpoint json_indent (depth : nat) (v : pyval) : pystr :=
  match v with
  | VList [] => $"[]"
  | VDict [] => $"{}"
  | VList l => $"[" ++ new_line (S depth) ++ join ($"," ++ new_line (S depth)) (map (json_indent (S depth)) l)
               ++ new_line depth ++ $"]"
  | VDict d => $"{" ++ new_line (S depth)
               ++ join ($"," ++ new_line (S depth))
                    (map (fun kv => json_string kv.1 ++ $": " ++ json_indent (S depth) kv.2) d)
               ++ new_line depth ++ $"}"
  | _ => json_compact v
  end.

(** The SHA-256 of the JSON text with sorted keys. *)
Definition sorted_hash `{TextDigest} (d : pydict) : result pystr :=
  let s := json_compact (sort_keys (VDict d)) in
  if encodable s then Ok (text_digest s) else Raise (ValueError $"surrogates not allowed").

Section Results.
Context `{TextDigest}.

Definition result_hash (r : SubagentResult) : result pystr := sorted_hash (canonical_payload r).

(** [SubagentResult.model_text], with [max_chars = 6_000]. *)
Definition model_text (r : SubagentResult) : result pystr :=
  h ← result_hash r;
  let text d := json_indent 0 (VDict (d ++ [($"content_hash", VStr h)])) in
  let encoded := text (canonical_payload r) in
  Ok (if len encoded <=? 6000 then encoded
      else slice_to 6000 (text (payload_with (slice_to 8 (r_evidence r)) (slice_to 30 (r_files r))
                                   (slice_to 20 (r_changes r)) (slice_to 10 (r_unresolved r)) r))).

(** What a runner returns: a text or a result. *)
Inductive Returned := RText (s : pystr) | RResult (r : SubagentResult).

Definition returned_text (v : Returned) : result pystr :=
  match v with RText s => Ok s | RResult r => model_text r end.

Definition _coerce_subagent_result (v : Returned) : SubagentResult :=
  match v with RText s => simple_result $"ok" s | RResult r => r end.
End Results.

(** ** Jobs *)

Inductive JobStatus :=
| QUEUED | RUNNING | PARKING | BLOCKED | RESUMING | CANCELLING
| COMPLETED | FAILED | CANCELLED | KILLED | TIMED_OUT | INDETERMINATE | STALE.

#[export] Instance JobStatus_dec : EqDecision JobStatus.
Proof. solve_decision. Defined.

Definition status_text (s : JobStatus) : pystr :=
  match s with
  | QUEUED => $"queued" | RUNNING => $"running" | PARKING => $"parking" | BLOCKED => $"blocked"
  | RESUMING => $"resuming" | CANCELLING => $"cancelling" | COMPLETED => $"completed" | FAILED => $"failed"
  | CANCELLED => $"cancelled" | KILLED => $"killed" | TIMED_OUT => $"timed_out"
  | INDETERMINATE => $"indeterminate" | STALE => $"stale"
  end.

(** [_TERMINAL_JOB_STATUSES]; all but [stale] are reported to the parent. *)
Definition is_terminal (s : JobStatus) : bool :=
  match s with COMPLETED | FAILED | CANCELLED | KILLED | TIMED_OUT | INDETERMINATE | STALE => true | _ => false end.
Definition is_actionable (s : JobStatus) : bool := is_terminal s && negb (bool_decide (s = STALE)).

Record Assignment := {
  id : pystr;
  mode : pystr;
  task : pystr;
  created_at : Z;
  parent_agent_id : option pystr;
  parent_session_id : option pystr;
  timeout_seconds : option Z;
  generation : Z;
  parent_job_id : option pystr;
  depth : Z;
  context_mode : pystr;
  max_tool_calls : option Z;
  max_tokens : option Z;
  verification_for : option pystr;
  working_directory : option pystr;
  goal_id : option pystr;
  max_rounds : Z;
  model_profile_name : option pystr;
  auto_verify : bool;
  agent_id : option pystr;
}.

Record Times := { started_at : option Z; finished_at : option Z; last_activity_at : option Z }.
Record Report := { job_result : option pystr; error : option pystr; structured_result : option SubagentResult;
     worktree_path : option pystr }.
Record Usage := {
  prompt_tokens : Z; completion_tokens : Z; tool_calls : Z; model_calls : Z;
  usage_uncertain : bool; active_seconds : Z
}.
Record Guidance := { guidance_request_id : option pystr; guidance_deadline_at : option Z; resume_reference : option
     pystr; resume_ready : bool }.
Record Cancellation := { cancel_requested : bool; cancellation_epoch : Z; cancellation_id : option pystr }.
Record Delivery := { injected_to_parent : bool; completion_seq : option Z; verification_job_id : option pystr }.
Record Activity := { progress : list pystr; current_tool : option pystr; worker_generation : Z }.

Record SubagentJob := { spec : Assignment; status : JobStatus; times : Times; report : Report; usage : Usage;
     guidance : Guidance; cancellation : Cancellation; delivery : Delivery; activity : Activity }.

Definition set_started_at (v : option Z) (r : Times) : Times :=
  {| started_at := v; finished_at := finished_at r; last_activity_at := last_activity_at r |}.
Definition set_finished_at (v : option Z) (r : Times) : Times :=
  {| started_at := started_at r; finished_at := v; last_activity_at := last_activity_at r |}.
Definition set_last_activity_at (v : option Z) (r : Times) : Times :=
  {| started_at := started_at r; finished_at := finished_at r; last_activity_at := v |}.
Definition set_job_result (v : option pystr) (r : Report) : Report :=
  {| job_result := v; error := error r; structured_result := structured_result r; worktree_path := worktree_path r |}.
Definition set_error (v : option pystr) (r : Report) : Report :=
  {| job_result := job_result r; error := v; structured_result := structured_result r; worktree_path := worktree_path
     r |}.
Definition set_structured_result (v : option SubagentResult) (r : Report) : Report :=
  {| job_result := job_result r; error := error r; structured_result := v; worktree_path := worktree_path r |}.
Definition set_worktree_path (v : option pystr) (r : Report) : Report :=
  {| job_result := job_result r; error := error r; structured_result := structured_result r; worktree_path := v |}.
Definition set_guidance_request_id (v : option pystr) (r : Guidance) : Guidance :=
  {| guidance_request_id := v; guidance_deadline_at := guidance_deadline_at r; resume_reference := resume_reference
     r; resume_ready := resume_ready r |}.
Definition set_guidance_deadline_at (v : option Z) (r : Guidance) : Guidance :=
  {| guidance_request_id := guidance_request_id r; guidance_deadline_at := v; resume_reference := resume_reference r;
     resume_ready := resume_ready r |}.
Definition set_resume_reference (v : option pystr) (r : Guidance) : Guidance :=
  {| guidance_request_id := guidance_request_id r; guidance_deadline_at := guidance_deadline_at r; resume_reference
     := v; resume_ready := resume_ready r |}.
Definition set_resume_ready (v : bool) (r : Guidance) : Guidance :=
  {| guidance_request_id := guidance_request_id r; guidance_deadline_at := guidance_deadline_at r; resume_reference
     := resume_reference r; resume_ready := v |}.
Definition set_progress (v : list pystr) (r : Activity) : Activity :=
  {| progress := v; current_tool := current_tool r; worker_generation := worker_generation r |}.
Definition set_current_tool (v : option pystr) (r : Activity) : Activity :=
  {| progress := progress r; current_tool := v; worker_generation := worker_generation r |}.
Definition set_worker_generation (v : Z) (r : Activity) : Activity :=
  {| progress := progress r; current_tool := current_tool r; worker_generation := v |}.
Definition set_injected_to_parent (v : bool) (r : Delivery) : Delivery :=
  {| injected_to_parent := v; completion_seq := completion_seq r; verification_job_id := verification_job_id r |}.
Definition set_completion_seq (v : option Z) (r : Delivery) : Delivery :=
  {| injected_to_parent := injected_to_parent r; completion_seq := v; verification_job_id := verification_job_id r |}.
Definition set_verification_job_id (v : option pystr) (r : Delivery) : Delivery :=
  {| injected_to_parent := injected_to_parent r; completion_seq := completion_seq r; verification_job_id := v |}.
Definition set_status (v : JobStatus) (r : SubagentJob) : SubagentJob :=
  {| spec := spec r; status := v; times := times r; report := report r; usage := usage r; guidance := guidance r;
     cancellation := cancellation r; delivery := delivery r; activity := activity r |}.
Definition set_times (v : Times) (r : SubagentJob) : SubagentJob :=
  {| spec := spec r; status := status r; times := v; report := report r; usage := usage r; guidance := guidance r;
     cancellation := cancellation r; delivery := delivery r; activity := activity r |}.
Definition set_report (v : Report) (r : SubagentJob) : SubagentJob :=
  {| spec := spec r; status := status r; times := times r; report := v; usage := usage r; guidance := guidance r;
     cancellation := cancellation r; delivery := delivery r; activity := activity r |}.
Definition set_usage (v : Usage) (r : SubagentJob) : SubagentJob :=
  {| spec := spec r; status := status r; times := times r; report := report r; usage := v; guidance := guidance r;
     cancellation := cancellation r; delivery := delivery r; activity := activity r |}.
Definition set_guidance (v : Guidance) (r : SubagentJob) : SubagentJob :=
  {| spec := spec r; status := status r; times := times r; report := report r; usage := usage r; guidance := v;
     cancellation := cancellation r; delivery := delivery r; activity := activity r |}.
Definition set_cancellation (v : Cancellation) (r : SubagentJob) : SubagentJob :=
  {| spec := spec r; status := status r; times := times r; report := report r; usage := usage r; guidance := guidance
     r; cancellation := v; delivery := delivery r; activity := activity r |}.
Definition set_delivery (v : Delivery) (r : SubagentJob) : SubagentJob :=
  {| spec := spec r; status := status r; times := times r; report := report r; usage := usage r; guidance := guidance
     r; cancellation := cancellation r; delivery := v; activity := activity r |}.
Definition set_activity (v : Activity) (r : SubagentJob) : SubagentJob :=
  {| spec := spec r; status := status r; times := times r; report := report r; usage := usage r; guidance := guidance
     r; cancellation := cancellation r; delivery := delivery r; activity := v |}.

(** ["{prefix}_{id}_{epoch}"] in the next epoch. *)
Definition request_cancellation (prefix : pystr) (j : SubagentJob) : SubagentJob :=
  let epoch := cancellation_epoch (cancellation j) + 1 in
  set_cancellation {| cancel_requested := true; cancellation_epoch := epoch;
                      cancellation_id := Some (prefix ++ $"_" ++ id (spec j) ++ $"_" ++ z_str epoch) |} j.

(** The tokens a result reports, and those with its flags and duration. *)
Definition take_counts (r : SubagentResult) (j : SubagentJob) : SubagentJob :=
  set_usage {| prompt_tokens := r_prompt_tokens r; completion_tokens := r_completion_tokens r;
               tool_calls := r_tool_uses r; model_calls := r_model_calls r;
               usage_uncertain := usage_uncertain (usage j); active_seconds := active_seconds (usage j) |} j.
Definition take_usage (r : SubagentResult) (j : SubagentJob) : SubagentJob :=
  set_guidance (set_resume_ready (r_resume_ready r) (guidance j))
    (set_report (set_structured_result (Some r) (report j))
      (set_usage {| prompt_tokens := r_prompt_tokens r; completion_tokens := r_completion_tokens r;
                    tool_calls := r_tool_uses r; model_calls := r_model_calls r;
                    usage_uncertain := r_usage_uncertain r;
                    active_seconds := active_seconds (usage j) + r_duration r |} j)).

Definition uncertain (b : bool) (u : Usage) : Usage :=
  {| prompt_tokens := prompt_tokens u; completion_tokens := completion_tokens u; tool_calls := tool_calls u;
     model_calls := model_calls u; usage_uncertain := b; active_seconds := active_seconds u |}.
Definition count_tool_call (u : Usage) : Usage :=
  {| prompt_tokens := prompt_tokens u; completion_tokens := completion_tokens u; tool_calls := tool_calls u + 1;
     model_calls := model_calls u; usage_uncertain := usage_uncertain u; active_seconds := active_seconds u |}.

Definition no_usage : Usage :=
  {| prompt_tokens := 0; completion_tokens := 0; tool_calls := 0; model_calls := 0; usage_uncertain := false;
     active_seconds := 0 |}.

Definition new_job (a : Assignment) (resume : option pystr) : SubagentJob :=
  {| spec := a; status := QUEUED;
     times := {| started_at := None; finished_at := None; last_activity_at := None |};
     report := {| job_result := None; error := None; structured_result := None; worktree_path := None |};
     usage := no_usage;
     guidance := {| guidance_request_id := None; guidance_deadline_at := None; resume_reference := resume;
                    resume_ready := false |};
     cancellation := {| cancel_requested := false; cancellation_epoch := 0; cancellation_id := None |};
     delivery := {| injected_to_parent := false; completion_seq := None; verification_job_id := None |};
     activity := {| progress := []; current_tool := None; worker_generation := 0 |} |}.

(** ** Limits *)

Definition _clamp_subagent_rounds (value : option Z) (dflt : Z) : Z :=
  let base := default dflt value in
  if base <? 1 then 1 else if base >? _DEFAULT_MAX_ROUNDS then _DEFAULT_MAX_ROUNDS else base.

Definition _clamp_timeout_seconds (value : option Z) (dflt maximum : Z) : Z :=
  let base := default dflt value in
  let maximum := Z.max 1 maximum in
  if base <? 1 then 1 else if base >? maximum then maximum else base.

(** Whole seconds left; [timeout_seconds or 300]. *)
Definition _remaining_active_timeout (j : SubagentJob) : Z :=
  let configured := match timeout_seconds (spec j) with Some 0 | None => _DEFAULT_TIMEOUT_SECONDS | Some t => t end in
  let remaining := 1000 * configured - Z.max 0 (active_seconds (usage j)) in
  if remaining <=? 0 then 0 else Z.max 1 (remaining / 1000).

(** ** Messages *)

Record SubagentCommunication := {
  item_id : pystr;
  seq : Z;
  sender_agent_id : pystr;
  sender_job_id : option pystr;
  recipient_agent_id : pystr;
  content : pystr;
  c_created_at : Z;
  c_generation : Z;
  kind : pystr;
  reply_to : option pystr;
  content_hash : pystr;
}.

Record SubagentDirective := {
  directive_id : pystr;
  d_seq : Z;
  target_job_id : pystr;
  d_sender_agent_id : pystr;
  d_content : pystr;
  d_created_at : Z;
  d_generation : Z;
  d_content_hash : pystr;
  source : pystr;
}.

(** [SubagentDirective.model_text]. *)
Definition directive_text (d : SubagentDirective) : pystr :=
  $"directive_id=" ++ directive_id d ++ [10] ++ $"sender_agent_id=" ++ d_sender_agent_id d ++ [10]
  ++ $"source=" ++ source d ++ [10; 10] ++ d_content d.

(** ** Publication *)

Section Payloads.
Context `{Seconds}.

Definition seconds (t : Z) : pyval := VFloat (seconds_text t).
Definition optional_seconds (t : option Z) : pyval := match t with Some t => seconds t | None => VNone end.

(** The payload of [_publish_job_event]. *)
Definition job_payload (j : SubagentJob) : pydict :=
  let a := spec j in let u := usage j in let g := guidance j in
  [ ($"job_id", VStr (id a)); ($"mode", VStr (mode a)); ($"task", VStr (task a));
    ($"status", VStr (status_text (status j))); ($"created_at", seconds (created_at a));
    ($"started_at", optional_seconds (started_at (times j)));
    ($"finished_at", optional_seconds (finished_at (times j)));
    ($"timeout_seconds", optional_int (timeout_seconds a));
    ($"result", of_optional_str (job_result (report j))); ($"error", of_optional_str (error (report j)));
    ($"generation", VInt (generation a)); ($"parent_session_id", of_optional_str (parent_session_id a));
    ($"parent_job_id", of_optional_str (parent_job_id a)); ($"depth", VInt (depth a));
    ($"context_mode", VStr (context_mode a)); ($"worktree_path", of_optional_str (worktree_path (report j)));
    ($"verification_job_id", of_optional_str (verification_job_id (delivery j)));
    ($"verification_for", of_optional_str (verification_for a));
    ($"working_directory", of_optional_str (working_directory a));
    ($"guidance_request_id", of_optional_str (guidance_request_id g));
    ($"guidance_deadline_at", optional_seconds (guidance_deadline_at g));
    ($"resume_reference", of_optional_str (resume_reference g));
    ($"prompt_tokens", VInt (prompt_tokens u)); ($"goal_id", of_optional_str (goal_id a));
    ($"completion_tokens", VInt (completion_tokens u)); ($"tool_calls", VInt (tool_calls u));
    ($"worker_generation", VInt (worker_generation (activity j))); ($"model_calls", VInt (model_calls u));
    ($"cancellation_epoch", VInt (cancellation_epoch (cancellation j)));
    ($"progress", texts (progress (activity j))); ($"current_tool", of_optional_str (current_tool (activity j)));
    ($"last_activity_at", optional_seconds (last_activity_at (times j))); ($"max_rounds", VInt (max_rounds a));
    ($"model_profile_name", of_optional_str (model_profile_name a)); ($"auto_verify", VBool (auto_verify a));
    ($"agent_id", of_optional_str (agent_id a));
    ($"cancellation_id", of_optional_str (cancellation_id (cancellation j)));
    ($"usage_uncertain", VBool (usage_uncertain u)); ($"resume_ready", VBool (resume_ready g));
    ($"active_seconds", seconds (active_seconds u)) ].

(** The payload of [_publish_communication_event]. *)
Definition communication_payload (c : SubagentCommunication) : pydict :=
  [ ($"item_id", VStr (item_id c)); ($"seq", VInt (seq c)); ($"sender_agent_id", VStr (sender_agent_id c));
    ($"sender_job_id", of_optional_str (sender_job_id c)); ($"recipient_agent_id", VStr (recipient_agent_id c));
    ($"content", VStr (content c)); ($"created_at", seconds (c_created_at c)); ($"generation", VInt (c_generation c));
    ($"kind", VStr (kind c)); ($"reply_to", of_optional_str (reply_to c)); ($"content_hash", VStr (content_hash c));
    ($"direction", VStr $"child_to_parent") ].

(** The payload of [_publish_directive_event]; [current] is the manager's
    generation. *)
Definition directive_payload (current : Z) (d : SubagentDirective) : pydict :=
  [ ($"item_id", VStr (directive_id d)); ($"direction", VStr $"parent_to_child");
    ($"target_job_id", VStr (target_job_id d)); ($"sender_agent_id", VStr (d_sender_agent_id d));
    ($"content", VStr (d_content d)); ($"generation", VInt current); ($"seq", VInt (d_seq d));
    ($"content_hash", VStr (d_content_hash d)); ($"source", VStr (source d)) ].
End Payloads.

(** What [_subagent_item_hash] covers of a communication. *)
Definition communication_key (sender : pystr) (sender_job : option pystr) (recipient : pystr) (current : Z)
    (kind : pystr) (reply : option pystr) (content : pystr) : pydict :=
  [ ($"sender_agent_id", VStr sender); ($"sender_job_id", of_optional_str sender_job);
    ($"recipient_agent_id", VStr recipient); ($"generation", VInt current); ($"kind", VStr kind);
    ($"reply_to", of_optional_str reply); ($"content", VStr content) ].

Definition directive_key (did : pystr) (n : Z) (target sender content : pystr) (current : Z) (source : pystr) : pydict :=
  [ ($"directive_id", VStr did); ($"seq", VInt n); ($"target_job_id", VStr target);
    ($"sender_agent_id", VStr sender); ($"content", VStr content); ($"generation", VInt current);
    ($"source", VStr source) ].
