(* ===== verification/SubagentHistory.v ===== *)
(** * Jobs rebuilt from the log (manager.py, [restore_from_history])

    The events a manager published tell a later process which jobs existed and
    which messages were queued but never delivered.  Workers do not survive, so
    a job that was neither finished nor parked is stale; of the parked jobs the
    four newest are kept.  Conversions of logged numbers may raise. *)

From S2P Require Import Prelude PyValue Lines Workspace Replay SubagentJobs.

(** What the manager reads of the agent that owns it; [directory] is its working
    directory, [conversation] the contents of its messages, joined. *)
Record ParentAgent := {
  p_agent_id : option pystr;
  session_generation : option Z;
  current_session_id : option pystr;
  active_goal : option pystr;
  directory : pystr;
  conversation : pystr;
}.

(** An event: its kind and its payload. *)
Abbreviation logged := (pystr * pydict)%type.

Section Restore.
Context `{TextDigest} `{Seconds} `{PyCoercions}.

(** [_optional_int], [_optional_float], and [float(v or d)], [int(v or d)]. *)
Definition _optional_int (v : pyval) : result (option Z) :=
  match v with VNone => Ok None | _ => n ← py_int v; Ok (Some n) end.
Definition _optional_float (v : pyval) : result (option Z) :=
  match v with VNone => Ok None | _ => t ← seconds_of v; Ok (Some t) end.
Definition int_or (v : pyval) (d : Z) : result Z := if truthy v then py_int v else Ok d.
Definition seconds_or (v : pyval) (d : Z) : result Z := if truthy v then seconds_of v else Ok d.
Definition text_or (v : pyval) (d : pystr) : pystr := if truthy v then py_str v else d.
Definition text_or_else (v : pyval) (d : option pystr) : option pystr := if truthy v then optional_str v else d.

(** ** What the events say *)

Record Collected := {
  latest : list (pystr * pydict);
  queued_messages : list (pystr * pydict);
  delivered_messages : list pystr;
  queued_directives : list (pystr * pydict);
  delivered_directives : list pystr;
}.

Definition nothing_collected : Collected :=
  {| latest := []; queued_messages := []; delivered_messages := []; queued_directives := []; delivered_directives := [] |}.

Definition to_child (p : pydict) : bool := is_str (dget_none p $"direction") $"parent_to_child".

Definition collect_event (c : Collected) (e : logged) : Collected :=
  let '(kind, p) := e in
  if bool_decide (kind = $"subagent_job_changed") then
    match str_or_empty (dget_none p $"job_id") with
    | [] => c
    | i => {| latest := assoc_set (latest c) i p; queued_messages := queued_messages c;
              delivered_messages := delivered_messages c; queued_directives := queued_directives c;
              delivered_directives := delivered_directives c |}
    end
  else if bool_decide (kind = $"subagent_communication_queued") then
    match str_or_empty (dget_none p $"item_id") with
    | [] => c
    | i => if to_child p
           then {| latest := latest c; queued_messages := queued_messages c;
                   delivered_messages := delivered_messages c; queued_directives := assoc_set (queued_directives c) i p;
                   delivered_directives := delivered_directives c |}
           else {| latest := latest c; queued_messages := assoc_set (queued_messages c) i p;
                   delivered_messages := delivered_messages c; queued_directives := queued_directives c;
                   delivered_directives := delivered_directives c |}
    end
  else if bool_decide (kind = $"subagent_communication_delivered") then
    match str_or_empty (dget_none p $"item_id") with
    | [] => c
    | i => if to_child p
           then {| latest := latest c; queued_messages := queued_messages c;
                   delivered_messages := delivered_messages c; queued_directives := queued_directives c;
                   delivered_directives := i :: delivered_directives c |}
           else {| latest := latest c; queued_messages := queued_messages c;
                   delivered_messages := i :: delivered_messages c; queued_directives := queued_directives c;
                   delivered_directives := delivered_directives c |}
    end
  else c.

Definition collect (events : list logged) : Collected := foldl collect_event nothing_collected events.

(** ** Jobs *)

Definition restored_status (s : pystr) : JobStatus :=
  default STALE (head (filter (fun st => status_text st = s)
    [COMPLETED; FAILED; CANCELLED; KILLED; TIMED_OUT; INDETERMINATE; STALE; BLOCKED])).

(** The job of a payload, and whether its status was changed to stale. *)
Definition restore_job (now : Z) (p : ParentAgent) (job_id : pystr) (d : pydict) : result (SubagentJob * bool) :=
  let get := dget_none d in
  let text k := optional_str (get k) in
  let logged_status := text_or (get $"status") $"stale" in
  let status := restored_status logged_status in
  let lost := bool_decide (status_text status <> logged_status) in
  created_at ← seconds_or (get $"created_at") now;
  started_at ← _optional_float (get $"started_at");
  finished_at ← _optional_float (get $"finished_at");
  timeout_seconds ← _optional_int (get $"timeout_seconds");
  depth ← int_or (get $"depth") 0;
  deadline ← _optional_float (get $"guidance_deadline_at");
  prompt ← int_or (get $"prompt_tokens") 0;
  completion ← int_or (get $"completion_tokens") 0;
  calls ← int_or (get $"tool_calls") 0;
  worker ← int_or (get $"worker_generation") 0;
  models ← int_or (get $"model_calls") 0;
  epoch ← int_or (get $"cancellation_epoch") 0;
  progress ← iter_or_empty (get $"progress");
  last ← _optional_float (get $"last_activity_at");
  rounds ← int_or (get $"max_rounds") _DEFAULT_MAX_ROUNDS;
  active ← seconds_or (get $"active_seconds") 0;
  Ok ({| spec := {| id := job_id; mode := text_or (get $"mode") $"explore";
                    task := text_or (get $"task") $"restored sub-agent task";
                    created_at := created_at; parent_agent_id := p_agent_id p;
                    parent_session_id := text_or_else (get $"parent_session_id") (current_session_id p);
                    timeout_seconds := timeout_seconds; generation := default 0 (session_generation p);
                    parent_job_id := text $"parent_job_id"; depth := depth;
                    context_mode := text_or (get $"context_mode") $"recent";
                    max_tool_calls := None; max_tokens := None; verification_for := text $"verification_for";
                    working_directory := text $"working_directory"; goal_id := text $"goal_id";
                    max_rounds := rounds; model_profile_name := text $"model_profile_name";
                    auto_verify := truthy (dget_or d $"auto_verify" (VBool true));
                    agent_id := text_or_else (get $"agent_id") (Some ($"sa_" ++ job_id)) |};
         status := status;
         times := {| started_at := started_at; finished_at := finished_at; last_activity_at := last |};
         report := {| job_result := text $"result";
                      error := if lost then Some $"Worker was not recoverable after process resume." else text $"error";
                      structured_result := None; worktree_path := text $"worktree_path" |};
         usage := {| prompt_tokens := prompt; completion_tokens := completion; tool_calls := calls;
                     model_calls := models; usage_uncertain := truthy (dget_or d $"usage_uncertain" (VBool false));
                     active_seconds := active |};
         guidance := {| guidance_request_id := text $"guidance_request_id"; guidance_deadline_at := deadline;
                        resume_reference := text $"resume_reference";
                        resume_ready := truthy (dget_or d $"resume_ready" (VBool false)) |};
         cancellation := {| cancel_requested := false; cancellation_epoch := epoch;
                            cancellation_id := text $"cancellation_id" |};
         delivery := {| injected_to_parent := py_contains ($"id=" ++ job_id) (conversation p);
                        completion_seq := None; verification_job_id := text $"verification_job_id" |};
         activity := {| progress := map py_str progress; current_tool := text $"current_tool";
                        worker_generation := worker |} |},
      bool_decide (status = STALE) && negb (bool_decide (py_str (get $"status") = $"stale"))).

(** Parked jobs beyond the four newest. *)
Definition overflow_ids (jobs : list SubagentJob) : list pystr :=
  map (fun j => id (spec j))
    (drop (Z.to_nat _MAX_ACTIVE_SUBAGENTS)
      (stable_sort (fun a b => created_at (spec b) <=? created_at (spec a))
        (filter (fun j => is_terminal (status j) = false) jobs))).

Definition cancel_overflow (now : Z) (j : SubagentJob) : SubagentJob :=
  set_status CANCELLED
    (set_times (set_finished_at (Some now) (times j))
      (set_guidance (set_guidance_request_id None (set_guidance_deadline_at None (guidance j)))
        (set_report (set_error (Some $"Restored subagent exceeded the global four-agent limit.") (report j)) j))).

Definition drop_overflow (now : Z) (jobs : list SubagentJob) : list SubagentJob :=
  let over := overflow_ids jobs in
  map (fun j => if bool_decide (id (spec j) ∈ over) then cancel_overflow now j else j) jobs.

(** ** Messages *)

Definition MESSAGE_KINDS : list pystr :=
  [$"reply"; $"milestone"; $"amendment"; $"warning"; $"approval_needed"; $"partial"; $"guidance"].

Definition restore_message (now : Z) (p : ParentAgent) (i : pystr) (d : pydict) : result (option SubagentCommunication) :=
  let get := dget_none d in
  let sender := text_or (get $"sender_agent_id") $"restored-child" in
  let recipient := text_or (get $"recipient_agent_id") (default $"root" (p_agent_id p)) in
  let content := strip (str_or_empty (get $"content")) in
  if bool_decide (content = []) then Ok None else
  let logged_kind := text_or (get $"kind") $"milestone" in
  let kind := if bool_decide (logged_kind ∈ MESSAGE_KINDS) then logged_kind else $"milestone" in
  let current := default 0 (session_generation p) in
  let sender_job := optional_str (get $"sender_job_id") in
  let reply := optional_str (get $"reply_to") in
  n ← int_or (get $"seq") 1;
  created ← seconds_or (get $"created_at") now;
  h ← sorted_hash (communication_key sender sender_job recipient current kind reply content);
  Ok (Some {| item_id := i; seq := Z.max 1 n; sender_agent_id := sender; sender_job_id := sender_job;
              recipient_agent_id := recipient; content := content; c_created_at := created; c_generation := current;
              kind := kind; reply_to := reply; content_hash := h |}).

Fixpoint restore_messages (now : Z) (p : ParentAgent) (delivered : list pystr) (l : list (pystr * pydict))
    : result (list SubagentCommunication) :=
  match l with
  | [] => Ok []
  | (i, d) :: l =>
    if bool_decide (i ∈ delivered) || py_contains ($"item_id=" ++ i) (conversation p)
    then restore_messages now p delivered l
    else m ← restore_message now p i d; rest ← restore_messages now p delivered l; Ok (option_list m ++ rest)
  end.

Definition restore_directive (now : Z) (p : ParentAgent) (i : pystr) (d : pydict) : result (option SubagentDirective) :=
  let get := dget_none d in
  let target := str_or_empty (get $"target_job_id") in
  let content := strip (str_or_empty (get $"content")) in
  let source := text_or (get $"source") $"parent" in
  if bool_decide (target = []) || bool_decide (content = []) || negb (bool_decide (source ∈ [$"parent"; $"human"]))
  then Ok None else
  n ← int_or (get $"seq") 1;
  created ← seconds_or (get $"created_at") now;
  Ok (Some {| directive_id := i; d_seq := Z.max 1 n; target_job_id := target;
              d_sender_agent_id := text_or (get $"sender_agent_id")
                                     (match p_agent_id p with Some (_ :: _ as a) => a | _ => $"root" end);
              d_content := content; d_created_at := created; d_generation := default 0 (session_generation p);
              d_content_hash := str_or_empty (get $"content_hash"); source := source |}).

Fixpoint restore_directives (now : Z) (p : ParentAgent) (delivered : list pystr) (l : list (pystr * pydict))
    : result (list SubagentDirective) :=
  match l with
  | [] => Ok []
  | (i, d) :: l =>
    if bool_decide (i ∈ delivered) then restore_directives now p delivered l
    else m ← restore_directive now p i d; rest ← restore_directives now p delivered l; Ok (option_list m ++ rest)
  end.

(** ** The whole log *)

Record Restored := {
  restored : list SubagentJob;
  changed : list pystr;
  pending_messages : list SubagentCommunication;
  pending_directives : list SubagentDirective;
}.

Fixpoint restore_jobs (now : Z) (p : ParentAgent) (l : list (pystr * pydict)) : result (list (SubagentJob * bool)) :=
  match l with
  | [] => Ok []
  | (i, d) :: l => j ← restore_job now p i d; rest ← restore_jobs now p l; Ok (j :: rest)
  end.

Definition restore_log (now : Z) (p : ParentAgent) (events : list logged) : result Restored :=
  let c := collect events in
  jobs ← restore_jobs now p (latest c);
  messages ← restore_messages now p (delivered_messages c) (queued_messages c);
  directives ← restore_directives now p (delivered_directives c) (queued_directives c);
  Ok {| restored := drop_overflow now jobs.*1;
        changed := map (fun j => id (spec j.1)) (filter (fun j => j.2 = true) jobs) ++ overflow_ids jobs.*1;
        pending_messages := stable_sort (fun a b => seq a <=? seq b) messages;
        pending_directives := stable_sort (fun a b => d_seq a <=? d_seq b) directives |}.
End Restore.
