(* ===== verification/Subagents.v ===== *)
(** * The manager of subagents (extensions/subagent/manager.py)

    The manager keeps the jobs a parent agent delegates, runs their workers in a
    pool with a bound on how many work at once, parks workers that wait for
    guidance, carries messages both ways, and hands every finished result to the
    parent once.

    A job is an object: [rows] holds the objects ever created, with the event,
    the flag and the queue created with each; the dictionary [table] maps an
    identifier to the row of its job, and the dictionaries of schedulers and
    futures stay separate.  Every part of an operation that holds the lock is one
    [exec] of an [action], which returns the actions that follow it; a thread is
    the list of the actions it still has to do, and threads and pool workers
    interleave ([step]).  A raised exception drops the rest of its thread, up to
    the handler of an automatic verification.  A future's place in the pool is
    its [Phase].

    The worker itself ([run_subagent_task]), approvals and worktrees are outside:
    a worker returns any result or raises.  Events published to interfaces, log
    attribution and condition variables are left out: waiting for a
    notification is not being scheduled. *)

From S2P Require Import Prelude PyValue Lines Replay SubagentJobs SubagentHistory.

(** ** State *)

Record Config := {
  max_parallel_explore : Z;
  default_max_rounds : Z;
  max_timeout_seconds : Z;
  default_timeout_seconds : Z;
  max_depth : Z;
  guidance_timeout : Z;
}.

(** What a worker is given. *)
Record WorkerRequest := {
  q_job_id : pystr; q_task : pystr; q_mode : pystr; q_max_rounds : Z; q_timeout_seconds : Z;
  q_model_profile_name : option pystr; q_goal_id : option pystr; q_context_mode : pystr; q_depth : Z;
  q_worktree : bool; q_resume_reference : option pystr; q_resume_directives : list pystr;
  q_usage : Usage; q_worker_generation : Z; q_cancellation_epoch : Z;
  q_max_tool_calls : option Z; q_max_tokens : option Z; q_working_directory : option pystr;
}.

(** What a runner reads when it takes a slot. *)
Record Entry := {
  active_resume_reference : option pystr;
  initial : Usage;
  entry_generation : Z;
  entry_epoch : Z;
  remaining_timeout : Z;
  tracked : option nat;
}.

Inductive Outcome := NotStarted | Raised (e : pystr) | Finished (v : Returned).

(** A future: submitted, waiting for a slot, with a slot but its start not
    published, about to take directives, publishing those it took, working,
    done. *)
Inductive Phase :=
| PENDING
| WAITING
| ENTERED (e : Entry)
| STARTED (e : Entry)
| DELIVERING (todo taken : list SubagentDirective) (e : Entry)
| WORKING (q : WorkerRequest)
| DONE (o : Outcome).

(** [runner_row] is the job the closure was made for; [called], that the done
    callback ran; [kept_slot], that the runner ended without giving its slot
    back. *)
Record Run := { runner_row : nat; phase : Phase; called : bool; kept_slot : bool }.

Record Row := {
  job : SubagentJob;
  cancel_event : bool;
  published : bool;
  queue : list SubagentDirective;
  from_history : bool;
  isolated : bool;
}.

Record Manager := {
  config : Config;
  runtime_parallel_explore : Z;
  active_explore : Z;
  rows : list Row;
  table : list (pystr * nat);
  schedulers : list (pystr * nat);
  futures : list (pystr * nat);
  runs : list Run;
  owner_agent_id : option pystr;
  current_generation : Z;
  is_shutdown : bool;
  guidance_timers : list (pystr * Z);
  completion_mailbox : list pystr;
  registered_agents : list (pystr * Z);
  agent_jobs : list (pystr * pystr);
  agent_parents : list (pystr * pystr);
  agent_generations : list (pystr * Z);
  parent_messages : list SubagentCommunication;
  claimed_parent_messages : list pystr;
  next_sequence : Z;
  root_agent : option pystr;
  ledger : list (option pystr * logged);
}.

Definition set_job (v : SubagentJob) (r : Row) : Row :=
  {| job := v; cancel_event := cancel_event r; published := published r; queue := queue r; from_history :=
     from_history r; isolated := isolated r |}.
Definition set_cancel_event (v : bool) (r : Row) : Row :=
  {| job := job r; cancel_event := v; published := published r; queue := queue r; from_history := from_history r;
     isolated := isolated r |}.
Definition set_published (v : bool) (r : Row) : Row :=
  {| job := job r; cancel_event := cancel_event r; published := v; queue := queue r; from_history := from_history r;
     isolated := isolated r |}.
Definition set_queue (v : list SubagentDirective) (r : Row) : Row :=
  {| job := job r; cancel_event := cancel_event r; published := published r; queue := v; from_history := from_history
     r; isolated := isolated r |}.

Definition set_runtime_parallel_explore (v : Z) (r : Manager) : Manager :=
  {| config := config r; runtime_parallel_explore := v; active_explore := active_explore r; rows := rows r; table :=
     table r; schedulers := schedulers r; futures := futures r; runs := runs r; owner_agent_id := owner_agent_id r;
     current_generation := current_generation r; is_shutdown := is_shutdown r; guidance_timers := guidance_timers r;
     completion_mailbox := completion_mailbox r; registered_agents := registered_agents r; agent_jobs := agent_jobs
     r; agent_parents := agent_parents r; agent_generations := agent_generations r; parent_messages :=
     parent_messages r; claimed_parent_messages := claimed_parent_messages r; next_sequence := next_sequence r;
     root_agent := root_agent r; ledger := ledger r |}.
Definition set_active_explore (v : Z) (r : Manager) : Manager :=
  {| config := config r; runtime_parallel_explore := runtime_parallel_explore r; active_explore := v; rows := rows r;
     table := table r; schedulers := schedulers r; futures := futures r; runs := runs r; owner_agent_id :=
     owner_agent_id r; current_generation := current_generation r; is_shutdown := is_shutdown r; guidance_timers :=
     guidance_timers r; completion_mailbox := completion_mailbox r; registered_agents := registered_agents r;
     agent_jobs := agent_jobs r; agent_parents := agent_parents r; agent_generations := agent_generations r;
     parent_messages := parent_messages r; claimed_parent_messages := claimed_parent_messages r; next_sequence :=
     next_sequence r; root_agent := root_agent r; ledger := ledger r |}.
Definition set_rows (v : list Row) (r : Manager) : Manager :=
  {| config := config r; runtime_parallel_explore := runtime_parallel_explore r; active_explore := active_explore r;
     rows := v; table := table r; schedulers := schedulers r; futures := futures r; runs := runs r; owner_agent_id :=
     owner_agent_id r; current_generation := current_generation r; is_shutdown := is_shutdown r; guidance_timers :=
     guidance_timers r; completion_mailbox := completion_mailbox r; registered_agents := registered_agents r;
     agent_jobs := agent_jobs r; agent_parents := agent_parents r; agent_generations := agent_generations r;
     parent_messages := parent_messages r; claimed_parent_messages := claimed_parent_messages r; next_sequence :=
     next_sequence r; root_agent := root_agent r; ledger := ledger r |}.
Definition set_table (v : list (pystr * nat)) (r : Manager) : Manager :=
  {| config := config r; runtime_parallel_explore := runtime_parallel_explore r; active_explore := active_explore r;
     rows := rows r; table := v; schedulers := schedulers r; futures := futures r; runs := runs r; owner_agent_id :=
     owner_agent_id r; current_generation := current_generation r; is_shutdown := is_shutdown r; guidance_timers :=
     guidance_timers r; completion_mailbox := completion_mailbox r; registered_agents := registered_agents r;
     agent_jobs := agent_jobs r; agent_parents := agent_parents r; agent_generations := agent_generations r;
     parent_messages := parent_messages r; claimed_parent_messages := claimed_parent_messages r; next_sequence :=
     next_sequence r; root_agent := root_agent r; ledger := ledger r |}.
Definition set_schedulers (v : list (pystr * nat)) (r : Manager) : Manager :=
  {| config := config r; runtime_parallel_explore := runtime_parallel_explore r; active_explore := active_explore r;
     rows := rows r; table := table r; schedulers := v; futures := futures r; runs := runs r; owner_agent_id :=
     owner_agent_id r; current_generation := current_generation r; is_shutdown := is_shutdown r; guidance_timers :=
     guidance_timers r; completion_mailbox := completion_mailbox r; registered_agents := registered_agents r;
     agent_jobs := agent_jobs r; agent_parents := agent_parents r; agent_generations := agent_generations r;
     parent_messages := parent_messages r; claimed_parent_messages := claimed_parent_messages r; next_sequence :=
     next_sequence r; root_agent := root_agent r; ledger := ledger r |}.
Definition set_futures (v : list (pystr * nat)) (r : Manager) : Manager :=
  {| config := config r; runtime_parallel_explore := runtime_parallel_explore r; active_explore := active_explore r;
     rows := rows r; table := table r; schedulers := schedulers r; futures := v; runs := runs r; owner_agent_id :=
     owner_agent_id r; current_generation := current_generation r; is_shutdown := is_shutdown r; guidance_timers :=
     guidance_timers r; completion_mailbox := completion_mailbox r; registered_agents := registered_agents r;
     agent_jobs := agent_jobs r; agent_parents := agent_parents r; agent_generations := agent_generations r;
     parent_messages := parent_messages r; claimed_parent_messages := claimed_parent_messages r; next_sequence :=
     next_sequence r; root_agent := root_agent r; ledger := ledger r |}.
Definition set_runs (v : list Run) (r : Manager) : Manager :=
  {| config := config r; runtime_parallel_explore := runtime_parallel_explore r; active_explore := active_explore r;
     rows := rows r; table := table r; schedulers := schedulers r; futures := futures r; runs := v; owner_agent_id :=
     owner_agent_id r; current_generation := current_generation r; is_shutdown := is_shutdown r; guidance_timers :=
     guidance_timers r; completion_mailbox := completion_mailbox r; registered_agents := registered_agents r;
     agent_jobs := agent_jobs r; agent_parents := agent_parents r; agent_generations := agent_generations r;
     parent_messages := parent_messages r; claimed_parent_messages := claimed_parent_messages r; next_sequence :=
     next_sequence r; root_agent := root_agent r; ledger := ledger r |}.
Definition set_owner_agent_id (v : option pystr) (r : Manager) : Manager :=
  {| config := config r; runtime_parallel_explore := runtime_parallel_explore r; active_explore := active_explore r;
     rows := rows r; table := table r; schedulers := schedulers r; futures := futures r; runs := runs r;
     owner_agent_id := v; current_generation := current_generation r; is_shutdown := is_shutdown r; guidance_timers
     := guidance_timers r; completion_mailbox := completion_mailbox r; registered_agents := registered_agents r;
     agent_jobs := agent_jobs r; agent_parents := agent_parents r; agent_generations := agent_generations r;
     parent_messages := parent_messages r; claimed_parent_messages := claimed_parent_messages r; next_sequence :=
     next_sequence r; root_agent := root_agent r; ledger := ledger r |}.
Definition set_current_generation (v : Z) (r : Manager) : Manager :=
  {| config := config r; runtime_parallel_explore := runtime_parallel_explore r; active_explore := active_explore r;
     rows := rows r; table := table r; schedulers := schedulers r; futures := futures r; runs := runs r;
     owner_agent_id := owner_agent_id r; current_generation := v; is_shutdown := is_shutdown r; guidance_timers :=
     guidance_timers r; completion_mailbox := completion_mailbox r; registered_agents := registered_agents r;
     agent_jobs := agent_jobs r; agent_parents := agent_parents r; agent_generations := agent_generations r;
     parent_messages := parent_messages r; claimed_parent_messages := claimed_parent_messages r; next_sequence :=
     next_sequence r; root_agent := root_agent r; ledger := ledger r |}.
Definition set_is_shutdown (v : bool) (r : Manager) : Manager :=
  {| config := config r; runtime_parallel_explore := runtime_parallel_explore r; active_explore := active_explore r;
     rows := rows r; table := table r; schedulers := schedulers r; futures := futures r; runs := runs r;
     owner_agent_id := owner_agent_id r; current_generation := current_generation r; is_shutdown := v;
     guidance_timers := guidance_timers r; completion_mailbox := completion_mailbox r; registered_agents :=
     registered_agents r; agent_jobs := agent_jobs r; agent_parents := agent_parents r; agent_generations :=
     agent_generations r; parent_messages := parent_messages r; claimed_parent_messages := claimed_parent_messages r;
     next_sequence := next_sequence r; root_agent := root_agent r; ledger := ledger r |}.
Definition set_guidance_timers (v : list (pystr * Z)) (r : Manager) : Manager :=
  {| config := config r; runtime_parallel_explore := runtime_parallel_explore r; active_explore := active_explore r;
     rows := rows r; table := table r; schedulers := schedulers r; futures := futures r; runs := runs r;
     owner_agent_id := owner_agent_id r; current_generation := current_generation r; is_shutdown := is_shutdown r;
     guidance_timers := v; completion_mailbox := completion_mailbox r; registered_agents := registered_agents r;
     agent_jobs := agent_jobs r; agent_parents := agent_parents r; agent_generations := agent_generations r;
     parent_messages := parent_messages r; claimed_parent_messages := claimed_parent_messages r; next_sequence :=
     next_sequence r; root_agent := root_agent r; ledger := ledger r |}.
Definition set_completion_mailbox (v : list pystr) (r : Manager) : Manager :=
  {| config := config r; runtime_parallel_explore := runtime_parallel_explore r; active_explore := active_explore r;
     rows := rows r; table := table r; schedulers := schedulers r; futures := futures r; runs := runs r;
     owner_agent_id := owner_agent_id r; current_generation := current_generation r; is_shutdown := is_shutdown r;
     guidance_timers := guidance_timers r; completion_mailbox := v; registered_agents := registered_agents r;
     agent_jobs := agent_jobs r; agent_parents := agent_parents r; agent_generations := agent_generations r;
     parent_messages := parent_messages r; claimed_parent_messages := claimed_parent_messages r; next_sequence :=
     next_sequence r; root_agent := root_agent r; ledger := ledger r |}.
Definition set_registered_agents (v : list (pystr * Z)) (r : Manager) : Manager :=
  {| config := config r; runtime_parallel_explore := runtime_parallel_explore r; active_explore := active_explore r;
     rows := rows r; table := table r; schedulers := schedulers r; futures := futures r; runs := runs r;
     owner_agent_id := owner_agent_id r; current_generation := current_generation r; is_shutdown := is_shutdown r;
     guidance_timers := guidance_timers r; completion_mailbox := completion_mailbox r; registered_agents := v;
     agent_jobs := agent_jobs r; agent_parents := agent_parents r; agent_generations := agent_generations r;
     parent_messages := parent_messages r; claimed_parent_messages := claimed_parent_messages r; next_sequence :=
     next_sequence r; root_agent := root_agent r; ledger := ledger r |}.
Definition set_agent_jobs (v : list (pystr * pystr)) (r : Manager) : Manager :=
  {| config := config r; runtime_parallel_explore := runtime_parallel_explore r; active_explore := active_explore r;
     rows := rows r; table := table r; schedulers := schedulers r; futures := futures r; runs := runs r;
     owner_agent_id := owner_agent_id r; current_generation := current_generation r; is_shutdown := is_shutdown r;
     guidance_timers := guidance_timers r; completion_mailbox := completion_mailbox r; registered_agents :=
     registered_agents r; agent_jobs := v; agent_parents := agent_parents r; agent_generations := agent_generations
     r; parent_messages := parent_messages r; claimed_parent_messages := claimed_parent_messages r; next_sequence :=
     next_sequence r; root_agent := root_agent r; ledger := ledger r |}.
Definition set_agent_parents (v : list (pystr * pystr)) (r : Manager) : Manager :=
  {| config := config r; runtime_parallel_explore := runtime_parallel_explore r; active_explore := active_explore r;
     rows := rows r; table := table r; schedulers := schedulers r; futures := futures r; runs := runs r;
     owner_agent_id := owner_agent_id r; current_generation := current_generation r; is_shutdown := is_shutdown r;
     guidance_timers := guidance_timers r; completion_mailbox := completion_mailbox r; registered_agents :=
     registered_agents r; agent_jobs := agent_jobs r; agent_parents := v; agent_generations := agent_generations r;
     parent_messages := parent_messages r; claimed_parent_messages := claimed_parent_messages r; next_sequence :=
     next_sequence r; root_agent := root_agent r; ledger := ledger r |}.
Definition set_agent_generations (v : list (pystr * Z)) (r : Manager) : Manager :=
  {| config := config r; runtime_parallel_explore := runtime_parallel_explore r; active_explore := active_explore r;
     rows := rows r; table := table r; schedulers := schedulers r; futures := futures r; runs := runs r;
     owner_agent_id := owner_agent_id r; current_generation := current_generation r; is_shutdown := is_shutdown r;
     guidance_timers := guidance_timers r; completion_mailbox := completion_mailbox r; registered_agents :=
     registered_agents r; agent_jobs := agent_jobs r; agent_parents := agent_parents r; agent_generations := v;
     parent_messages := parent_messages r; claimed_parent_messages := claimed_parent_messages r; next_sequence :=
     next_sequence r; root_agent := root_agent r; ledger := ledger r |}.
Definition set_parent_messages (v : list SubagentCommunication) (r : Manager) : Manager :=
  {| config := config r; runtime_parallel_explore := runtime_parallel_explore r; active_explore := active_explore r;
     rows := rows r; table := table r; schedulers := schedulers r; futures := futures r; runs := runs r;
     owner_agent_id := owner_agent_id r; current_generation := current_generation r; is_shutdown := is_shutdown r;
     guidance_timers := guidance_timers r; completion_mailbox := completion_mailbox r; registered_agents :=
     registered_agents r; agent_jobs := agent_jobs r; agent_parents := agent_parents r; agent_generations :=
     agent_generations r; parent_messages := v; claimed_parent_messages := claimed_parent_messages r; next_sequence
     := next_sequence r; root_agent := root_agent r; ledger := ledger r |}.
Definition set_claimed_parent_messages (v : list pystr) (r : Manager) : Manager :=
  {| config := config r; runtime_parallel_explore := runtime_parallel_explore r; active_explore := active_explore r;
     rows := rows r; table := table r; schedulers := schedulers r; futures := futures r; runs := runs r;
     owner_agent_id := owner_agent_id r; current_generation := current_generation r; is_shutdown := is_shutdown r;
     guidance_timers := guidance_timers r; completion_mailbox := completion_mailbox r; registered_agents :=
     registered_agents r; agent_jobs := agent_jobs r; agent_parents := agent_parents r; agent_generations :=
     agent_generations r; parent_messages := parent_messages r; claimed_parent_messages := v; next_sequence :=
     next_sequence r; root_agent := root_agent r; ledger := ledger r |}.
Definition set_next_sequence (v : Z) (r : Manager) : Manager :=
  {| config := config r; runtime_parallel_explore := runtime_parallel_explore r; active_explore := active_explore r;
     rows := rows r; table := table r; schedulers := schedulers r; futures := futures r; runs := runs r;
     owner_agent_id := owner_agent_id r; current_generation := current_generation r; is_shutdown := is_shutdown r;
     guidance_timers := guidance_timers r; completion_mailbox := completion_mailbox r; registered_agents :=
     registered_agents r; agent_jobs := agent_jobs r; agent_parents := agent_parents r; agent_generations :=
     agent_generations r; parent_messages := parent_messages r; claimed_parent_messages := claimed_parent_messages r;
     next_sequence := v; root_agent := root_agent r; ledger := ledger r |}.
Definition set_root_agent (v : option pystr) (r : Manager) : Manager :=
  {| config := config r; runtime_parallel_explore := runtime_parallel_explore r; active_explore := active_explore r;
     rows := rows r; table := table r; schedulers := schedulers r; futures := futures r; runs := runs r;
     owner_agent_id := owner_agent_id r; current_generation := current_generation r; is_shutdown := is_shutdown r;
     guidance_timers := guidance_timers r; completion_mailbox := completion_mailbox r; registered_agents :=
     registered_agents r; agent_jobs := agent_jobs r; agent_parents := agent_parents r; agent_generations :=
     agent_generations r; parent_messages := parent_messages r; claimed_parent_messages := claimed_parent_messages r;
     next_sequence := next_sequence r; root_agent := v; ledger := ledger r |}.
Definition set_ledger (v : list (option pystr * logged)) (r : Manager) : Manager :=
  {| config := config r; runtime_parallel_explore := runtime_parallel_explore r; active_explore := active_explore r;
     rows := rows r; table := table r; schedulers := schedulers r; futures := futures r; runs := runs r;
     owner_agent_id := owner_agent_id r; current_generation := current_generation r; is_shutdown := is_shutdown r;
     guidance_timers := guidance_timers r; completion_mailbox := completion_mailbox r; registered_agents :=
     registered_agents r; agent_jobs := agent_jobs r; agent_parents := agent_parents r; agent_generations :=
     agent_generations r; parent_messages := parent_messages r; claimed_parent_messages := claimed_parent_messages r;
     next_sequence := next_sequence r; root_agent := root_agent r; ledger := v |}.

(** [SubagentManager.__init__]. *)
Definition new_config (parallel rounds timeout max_timeout depth guidance : Z) : Config :=
  {| max_parallel_explore := Z.max 1 parallel; default_max_rounds := _clamp_subagent_rounds (Some rounds) _DEFAULT_MAX_ROUNDS;
     max_timeout_seconds := Z.max 1 max_timeout;
     default_timeout_seconds := _clamp_timeout_seconds (Some timeout) _DEFAULT_TIMEOUT_SECONDS (Z.max 1 max_timeout);
     max_depth := Z.max 0 depth; guidance_timeout := Z.max 10 guidance |}.

Definition new_manager (c : Config) (owner : option pystr) (generation : Z) : Manager :=
  {| config := c; runtime_parallel_explore := max_parallel_explore c; active_explore := 0; rows := []; table := [];
     schedulers := []; futures := []; runs := []; owner_agent_id := owner; current_generation := Z.max 0 generation;
     is_shutdown := false; guidance_timers := []; completion_mailbox := [];
     registered_agents := match owner with Some (_ :: _ as a) => [(a, 0)] | _ => [] end; agent_jobs := [];
     agent_parents := []; agent_generations := []; parent_messages := []; claimed_parent_messages := [];
     next_sequence := 1; root_agent := None; ledger := [] |}.

(** ** Objects and dictionaries *)

Definition assoc_pop {A} (l : list (pystr * A)) (k : pystr) : list (pystr * A) := filter (fun kv : pystr * A => kv.1 <> k) l.

Definition find (i : pystr) (m : Manager) : option nat := assoc_get (table m) i.
Definition job_at (l : nat) (m : Manager) : option SubagentJob := job <$> rows m !! l.
Definition update_row (l : nat) (f : Row -> Row) (m : Manager) : Manager := set_rows (alter f l (rows m)) m.
Definition update_job (l : nat) (f : SubagentJob -> SubagentJob) (m : Manager) : Manager :=
  update_row l (fun r => set_job (f (job r)) r) m.
Definition update_run (f : nat) (g : Run -> Run) (m : Manager) : Manager := set_runs (alter g f (runs m)) m.
Definition to_phase (p : Phase) (r : Run) : Run :=
  {| runner_row := runner_row r; phase := p; called := called r; kept_slot := false |}.
Definition row_id (l : nat) (m : Manager) : pystr := match job_at l m with Some j => id (spec j) | None => [] end.

(** [self._jobs.values()], with the objects. *)
Definition jobs (m : Manager) : list (nat * SubagentJob) :=
  omap (fun kl : pystr * nat => (fun j => (kl.2, j)) <$> job_at kl.2 m) (table m).

Definition _active_job_count_locked (m : Manager) : Z :=
  len (filter (fun lj : nat * SubagentJob => is_terminal (status lj.2) = false) (jobs m)).

Definition future_done (f : nat) (m : Manager) : bool :=
  match runs m !! f with Some {| phase := DONE _ |} => true | _ => false end.

Definition allocate (m : Manager) : Z * Manager := (next_sequence m, set_next_sequence (next_sequence m + 1) m).

(** ** Shared steps *)

Definition _enqueue_completion_locked (l : nat) (m : Manager) : Manager :=
  let i := row_id l m in
  if bool_decide (i ∈ completion_mailbox m) then m else
  let '(n, m) := allocate m in
  set_completion_mailbox (completion_mailbox m ++ [i])
    (update_job l (fun j => set_delivery (set_completion_seq (Some n) (delivery j)) j) m).

Definition _cancel_guidance_timer_locked (i : pystr) (m : Manager) : Manager :=
  set_guidance_timers (assoc_pop (guidance_timers m) i) m.

Definition _arm_guidance_deadline_locked (now : Z) (l : nat) (preserve : bool) (m : Manager) : Manager :=
  match job_at l m with
  | None => m
  | Some j =>
    let kept := if preserve then guidance_deadline_at (guidance j) else None in
    let deadline := default (now + guidance_timeout (config m)) kept in
    set_guidance_timers (assoc_set (assoc_pop (guidance_timers m) (id (spec j))) (id (spec j)) deadline)
      (update_job l (fun j => set_guidance (set_guidance_deadline_at (Some deadline) (guidance j)) j) m)
  end.

Definition record (owner : option pystr) (kind : pystr) (payload : pydict) (m : Manager) : Manager :=
  set_ledger (ledger m ++ [(owner, (kind, payload))]) m.

(** To the log of the root agent, when it is bound. *)
Definition record_root (kind : pystr) (payload : pydict) (m : Manager) : Manager :=
  match root_agent m with Some _ => record (root_agent m) kind payload m | None => m end.

Definition bind_root_agent (p : ParentAgent) (m : Manager) : Manager :=
  if bool_decide (p_agent_id p = owner_agent_id m) then set_root_agent (p_agent_id p) m else m.

(** ** The end of a run *)

(** How a result settles its job: whether to verify it, to set the deadline of
    its guidance, to resume it, and the exception raised on the way. *)
Record Settled := { s_job : SubagentJob; s_verify : bool; s_blocked : bool; s_resume : bool; s_raise : option exn }.

Definition settled (j : SubagentJob) : Settled :=
  {| s_job := j; s_verify := false; s_blocked := false; s_resume := false; s_raise := None |}.

(** [job.error = error; job.status = status]. *)
Definition conclude (st : JobStatus) (error : option pystr) (j : SubagentJob) : SubagentJob :=
  set_status st (set_report (set_error error (report j)) j).
Definition finish_at (now : option Z) (j : SubagentJob) : SubagentJob := set_times (set_finished_at now (times j)) j.
Definition active_at (now : Z) (j : SubagentJob) : SubagentJob := set_times (set_last_activity_at (Some now) (times j)) j.

Definition keep_result (r : SubagentResult) (j : SubagentJob) : SubagentJob :=
  set_report (set_structured_result (Some r) (set_job_result (Some (r_summary r)) (report j))) j.

(** A result after the job was cancelled; [ended] is the status it settles. *)
Definition quarantine (ended : JobStatus) (j : SubagentJob) : SubagentJob :=
  let j := set_report (set_job_result None (report j)) j in
  if bool_decide (status j = TIMED_OUT) then j
  else conclude ended (Some $"Sub-agent cancelled; late result quarantined.") j.

(** The worker parked: it resumes at once when a message is waiting. *)
Definition park (r : SubagentResult) (waiting : bool) (j : SubagentJob) : Settled :=
  let j := finish_at None (take_counts r (keep_result r (set_guidance (set_resume_reference (r_transcript_ref r) (guidance j)) j))) in
  let resume := resume_ready (guidance j) || waiting in
  {| s_job := if resume
              then set_status RESUMING
                     (set_guidance (set_resume_ready false (set_guidance_request_id None (guidance j))) j)
              else set_status BLOCKED j;
     s_verify := false; s_blocked := true; s_resume := resume; s_raise := None |}.

Definition has_status (r : SubagentResult) (l : list pystr) : bool := bool_decide (r_status r ∈ l).

Definition ended_as (r : SubagentResult) : JobStatus :=
  if has_status r [$"killed"] then KILLED else if has_status r [$"timed_out"] then TIMED_OUT else CANCELLED.

Definition cancelled_text : pystr := $"[Sub-agent finished status=cancelled]".

Section Manager.
Context `{TextDigest} `{Seconds} `{PyCoercions}.

(** The last cases of the callback of [submit_background]. *)
Definition settle_rest (current : Z) (verify : bool) (v : Returned) (text : pystr) (j : SubagentJob) : Settled :=
  if py_contains cancelled_text text then settled (conclude CANCELLED (Some $"Sub-agent cancelled.") j)
  else if negb (generation (spec j) =? current)
  then settled (conclude STALE (Some $"Sub-agent completed for an inactive session generation.") j)
  else
    let r := _coerce_subagent_result v in
    let j := keep_result r (set_report (set_worktree_path (r_worktree_path r) (report j)) j) in
    if has_status r [$"ok"]
    then {| s_job := set_status COMPLETED j; s_verify := bool_decide (mode (spec j) = $"execute") && verify;
            s_blocked := false; s_resume := false; s_raise := None |}
    else settled (conclude FAILED (Some (r_summary r)) j).

(** [_on_done] of [submit_background] on the job itself. *)
Definition settle_fresh (current : Z) (waiting verify : bool) (now : Z) (o : Outcome) (j : SubagentJob) : Settled :=
  let j := active_at now (finish_at (Some now) j) in
  match o with
  | NotStarted => settled (conclude CANCELLED (Some $"Sub-agent cancelled before it started.") j)
  | Raised e => settled (conclude FAILED (Some e) j)
  | Finished v =>
    let j := match v with RResult r => take_usage r j | RText _ => j end in
    if cancel_requested (cancellation j)
    then settled (quarantine (match v with RResult r => if has_status r [$"killed"] then KILLED else CANCELLED
                              | RText _ => CANCELLED end) j)
    else match returned_text v with
    | Raise e => {| s_job := j; s_verify := false; s_blocked := false; s_resume := false; s_raise := Some e |}
    | Ok text =>
      match v with
      | RText _ => settle_rest current verify v text j
      | RResult r =>
        if has_status r [$"cancelled"; $"killed"; $"timed_out"]
        then settled (conclude (ended_as r) (Some (r_summary r)) (keep_result r j))
        else if has_status r [$"blocked"]
        then park r waiting (set_report (set_error None (report j)) j)
        else if has_status r [$"failed"; $"error"; $"unverified"; $"indeterminate"]
        then settled (conclude (if has_status r [$"indeterminate"] then INDETERMINATE else FAILED) (Some (r_summary r))
                        (keep_result r (set_report (set_worktree_path (r_worktree_path r) (report j)) j)))
        else settle_rest current verify v text j
      end
    end
  end.

(** [job.status = status], or [failed] when that is no status to report. *)
Definition actionable_status (s : pystr) : JobStatus :=
  default FAILED (head (filter (fun st => status_text st = s) [COMPLETED; FAILED; CANCELLED; KILLED; TIMED_OUT; INDETERMINATE])).

(** [_on_done] of a restored job; the exception of a cancelled future has an
    empty text. *)
Definition settle_restored (waiting : bool) (now : Z) (o : Outcome) (j : SubagentJob) : Settled :=
  let failed e := settled (active_at now (finish_at (Some now) (conclude FAILED (Some e) j))) in
  match o with
  | NotStarted => failed []
  | Raised e => failed e
  | Finished v =>
    let j := match v with RResult r => take_usage r j | RText _ => j end in
    let ended r j :=
      let st := if has_status r [$"ok"] then COMPLETED else actionable_status (r_status r) in
      let j := keep_result r (set_report (set_worktree_path (opt_or (r_worktree_path r) (worktree_path (report j))) (report j)) j) in
      settled (finish_at (Some now) (conclude st (if bool_decide (st = COMPLETED) then None else Some (r_summary r)) j)) in
    if cancel_requested (cancellation j) then settled (finish_at (Some now) (quarantine CANCELLED j))
    else match v with
    | RResult r => if has_status r [$"blocked"] then park r waiting j else ended r j
    | RText _ => ended (_coerce_subagent_result v) j
    end
  end.

(** ** Submission *)

Record Submission := {
  b_task : pystr; b_mode : pystr; b_max_rounds : option Z; b_timeout_seconds : option Z;
  b_parallel_explore : option Z; b_model_profile_name : option pystr; b_context_mode : pystr;
  b_parent_job_id : option pystr; b_depth : Z; b_worktree : bool; b_resume_reference : option pystr;
  b_max_tool_calls : option Z; b_max_tokens : option Z; b_auto_verify : bool;
  b_working_directory : option pystr;
}.

Definition depth_limit (m : Manager) : exn :=
  ValueError ($"Sub-agent depth limit reached (" ++ z_str (max_depth (config m)) ++ $")").

(** The checks of [submit_background] before the job is made. *)
Definition check_submission (p : ParentAgent) (b : Submission) : stm Manager () := fun m =>
  if b_depth b >? max_depth (config m) then (Raise (depth_limit m), m) else
  match p_agent_id p, session_generation p with
  | None, _ | Some [], _ => (Raise (ValueError $"parent agent must expose a stable agent_id"), m)
  | _, None => (Raise (ValueError $"parent agent must expose session_generation"), m)
  | Some a, Some g =>
    if is_shutdown m then (Raise (OtherError $"SubagentManager is shut down"), m) else
    let m := match owner_agent_id m with
             | None => set_owner_agent_id (Some a) (set_current_generation g m) | Some _ => m end in
    if negb (bool_decide (owner_agent_id m = Some a)) && negb (bool_decide (a ∈ (registered_agents m).*1))
    then (Raise (ValueError $"SubagentManager cannot be shared across parent agents"), m)
    else if negb (current_generation m =? g)
    then (Raise (ValueError $"SubagentManager generation does not match the parent session"), m)
    else (Ok (), bind_root_agent p m)
  end.

Definition set_parallel (n : Z) (m : Manager) : Manager :=
  set_runtime_parallel_explore (Z.max 1 (Z.min (max_parallel_explore (config m)) n)) m.

Definition assignment (now : Z) (p : ParentAgent) (b : Submission) (i : pystr) (c : Config) : Assignment :=
  {| id := i; mode := b_mode b; task := b_task b; created_at := now; parent_agent_id := p_agent_id p;
     parent_session_id := current_session_id p;
     timeout_seconds := Some (_clamp_timeout_seconds (b_timeout_seconds b) (default_timeout_seconds c) (max_timeout_seconds c));
     generation := default 0 (session_generation p); parent_job_id := b_parent_job_id b; depth := b_depth b;
     context_mode := b_context_mode b; max_tool_calls := b_max_tool_calls b; max_tokens := b_max_tokens b;
     verification_for := if bool_decide (b_mode b = $"verify") then b_parent_job_id b else None;
     working_directory := b_working_directory b; goal_id := active_goal p;
     max_rounds := _clamp_subagent_rounds (b_max_rounds b) (default_max_rounds c);
     model_profile_name := b_model_profile_name b; auto_verify := b_auto_verify b; agent_id := Some ($"sa_" ++ i) |}.

Definition capacity_full (n : Z) : exn :=
  OtherError ($"SubagentCapacityError: Subagent capacity full (" ++ z_str n ++ $"/" ++ z_str _MAX_ACTIVE_SUBAGENTS
              ++ $" active); wait for a child to finish or interrupt one before spawning another.").

(** Makes the job and its objects unless four jobs are active. *)
Definition register (now : Z) (p : ParentAgent) (b : Submission) (i : pystr) : stm Manager nat := fun m =>
  let n := _active_job_count_locked m in
  if n >=? _MAX_ACTIVE_SUBAGENTS then (Raise (capacity_full n), m) else
  let l := length (rows m) in
  let r := {| job := new_job (assignment now p b i (config m)) (b_resume_reference b); cancel_event := false;
              published := false; queue := []; from_history := false; isolated := b_worktree b |} in
  (Ok l, set_table (assoc_set (table m) i l) (set_rows (rows m ++ [r]) m)).

(** [_schedule], the closure made for row [l]. *)
Definition _schedule (l : nat) : stm Manager bool := fun m =>
  match rows m !! l with
  | None => (Ok false, m)
  | Some r =>
    let i := id (spec (job r)) in
    let idle := match assoc_get (futures m) i with Some f => future_done f m | None => true end in
    let ready := match find i m ≫= fun l => job_at l m with
      | Some j => if from_history r then bool_decide (status j = RESUMING) else bool_decide (status j ∈ [QUEUED; RESUMING])
      | None => false end in
    if ready && negb (is_shutdown m) && idle
    then (Ok true, set_futures (assoc_set (futures m) i (length (runs m)))
                     (set_runs (runs m ++ [{| runner_row := l; phase := PENDING; called := false; kept_slot := false |}]) m))
    else (Ok false, m)
  end.

(** ** The runner *)

Definition runner_done (f : nat) (o : Outcome) : Manager -> Manager := update_run f (to_phase (DONE o)).

(** The loop that waits for a slot, once, and what follows when it has one. *)
Definition runner_enter (now : Z) (f l : nat) (r : Row) (m : Manager) : Manager :=
  let i := id (spec (job r)) in
  let cancelled := cancel_event r || is_shutdown m in
  let withdrawn := runner_done f (Finished (RText cancelled_text)) m in
  if active_explore m >=? runtime_parallel_explore m then if cancelled then withdrawn else m
  else if from_history r && bool_decide (find i m = None) then runner_done f (Raised (repr_str i)) m
  else if cancelled then withdrawn
  else
    let m := set_active_explore (active_explore m + 1) m in
    let start j := set_status RUNNING (set_times {| started_at := Some now; finished_at := None; last_activity_at := Some now |}
                     (set_activity (set_worker_generation (worker_generation (activity j) + 1) (activity j)) j)) in
    match find i m ≫= fun t => pair t <$> job_at t m with
    | Some (t, j) =>
      update_run f (to_phase (ENTERED
        {| active_resume_reference := resume_reference (guidance j); initial := usage j;
           entry_generation := worker_generation (activity j) + 1; entry_epoch := cancellation_epoch (cancellation j);
           remaining_timeout := _remaining_active_timeout j; tracked := Some t |})) (update_job t start m)
    | None =>
      update_run f (to_phase (ENTERED
        {| active_resume_reference := None; initial := no_usage; entry_generation := 1; entry_epoch := 0;
           remaining_timeout := default 0 (timeout_seconds (spec (job r))); tracked := None |})) m
    end.

(** [_publish_job_event(parent_agent, tracked)] by a closure of row [r]. *)
Definition publish_tracked (r : Row) (t : option nat) (m : Manager) : Manager :=
  match t ≫= fun t => job_at t m with
  | Some j => record (parent_agent_id (spec (job r))) $"subagent_job_changed" (job_payload j) m
  | None => m
  end.

(** The queue of a job is emptied. *)
Definition take_messages (i : pystr) (m : Manager) : list SubagentDirective * Manager :=
  match find i m with
  | Some l => (match rows m !! l with Some r => queue r | None => [] end, update_row l (set_queue []) m)
  | None => ([], m)
  end.

Definition runner_drain (f : nat) (r : Row) (e : Entry) (m : Manager) : Manager :=
  let resumes := from_history r || match active_resume_reference e with Some (_ :: _) => true | _ => false end in
  let '(taken, m) := if resumes then take_messages (id (spec (job r))) m else ([], m) in
  update_run f (to_phase (DELIVERING taken taken e)) m.

Definition publish_directive (d : SubagentDirective) (delivered : bool) (m : Manager) : Manager :=
  record_root (if delivered then $"subagent_communication_delivered" else $"subagent_communication_queued")
    (directive_payload (current_generation m) d) m.

Definition _resume_workspace_notice : pystr :=
  $"[Resume workspace notice]" ++ [10]
  ++ $"The workspace and parent-owned LSP document generations may have changed "
  ++ $"while this worker was parked. Re-read every relevant file or symbol before "
  ++ $"relying on observations from the checkpoint. Guidance is not tool approval." ++ [10]
  ++ $"[/Resume workspace notice]".

(** The arguments of [run_subagent_task] in the two runners. *)
Definition fresh_request (r : Row) (e : Entry) (taken : list SubagentDirective) : WorkerRequest :=
  let a := spec (job r) in
  {| q_job_id := id a; q_task := task a; q_mode := mode a; q_max_rounds := max_rounds a;
     q_timeout_seconds := remaining_timeout e; q_model_profile_name := model_profile_name a; q_goal_id := goal_id a;
     q_context_mode := context_mode a; q_depth := 1; q_worktree := isolated r;
     q_resume_reference := active_resume_reference e;
     q_resume_directives := match active_resume_reference e with
       | Some (_ :: _) => map directive_text taken ++ [_resume_workspace_notice] | _ => [] end;
     q_usage := initial e; q_worker_generation := entry_generation e; q_cancellation_epoch := entry_epoch e;
     q_max_tool_calls := max_tool_calls a; q_max_tokens := max_tokens a; q_working_directory := working_directory a |}.

Definition restored_request (j : SubagentJob) (e : Entry) (taken : list SubagentDirective) : WorkerRequest :=
  let a := spec j in
  {| q_job_id := id a; q_task := task a; q_mode := mode a; q_max_rounds := max_rounds a;
     q_timeout_seconds := remaining_timeout e; q_model_profile_name := model_profile_name a; q_goal_id := goal_id a;
     q_context_mode := context_mode a; q_depth := depth a; q_worktree := false;
     q_resume_reference := resume_reference (guidance j);
     q_resume_directives := map directive_text taken ++ [_resume_workspace_notice]; q_usage := usage j;
     q_worker_generation := worker_generation (activity j); q_cancellation_epoch := cancellation_epoch (cancellation j);
     q_max_tool_calls := max_tool_calls a; q_max_tokens := max_tokens a;
     q_working_directory := opt_or (worktree_path (report j)) (working_directory a) |}.

Definition release_slot (m : Manager) : Manager := set_active_explore (Z.max 0 (active_explore m - 1)) m.

Definition exhausted : SubagentResult :=
  {| r_status := $"timed_out"; r_summary := $"Sub-agent active execution timeout exhausted."; r_evidence := [];
     r_files := []; r_changes := []; r_unresolved := []; r_confidence := None; r_tool_uses := 0; r_prompt_tokens := 0;
     r_completion_tokens := 0; r_model_calls := 0; r_duration := 0; r_transcript_ref := None; r_partial := true;
     r_worktree_path := None; r_usage_uncertain := false; r_resume_ready := false |}.

(** Starts the worker, unless its time is used up. *)
Definition runner_launch (f : nat) (r : Row) (e : Entry) (taken : list SubagentDirective) (m : Manager) : Manager :=
  if remaining_timeout e <=? 0 then release_slot (runner_done f (Finished (RResult exhausted)) m)
  else update_run f (to_phase (WORKING
    match from_history r, tracked e ≫= fun t => job_at t m with
    | true, Some j => restored_request j e taken
    | _, _ => fresh_request r e taken
    end)) m.

Definition runner_finish (f : nat) (o : Outcome) (m : Manager) : Manager := release_slot (runner_done f o m).

(** A publication raised before the [try]: nothing gives the slot back. *)
Definition runner_fails (f : nat) (e : pystr) (m : Manager) : Manager :=
  update_run f (fun r => {| runner_row := runner_row r; phase := DONE (Raised e); called := called r; kept_slot := true |}) m.

(** ** Completion *)

(** The verification of a finished [execute] job. *)
Definition verification (p : ParentAgent) (a : Assignment) (worktree : option pystr) : Submission :=
  let root := match worktree with Some (_ :: _ as w) => w | _ => directory p end in
  {| b_task := $"Verify execute job " ++ id a ++ $". Inspect its reported changes, "
               ++ $"run the narrowest relevant tests or diagnostics, and report "
               ++ $"objective evidence. Do not modify implementation files. " ++ $"Execution root: " ++ root;
     b_mode := $"verify"; b_max_rounds := Some (Z.min (max_rounds a) 20); b_timeout_seconds := timeout_seconds a;
     b_parallel_explore := None; b_model_profile_name := model_profile_name a; b_context_mode := $"minimal";
     b_parent_job_id := Some (id a); b_depth := depth a; b_worktree := false; b_resume_reference := None;
     b_max_tool_calls := max_tool_calls a; b_max_tokens := max_tokens a; b_auto_verify := false;
     b_working_directory := Some root |}.

(** The results the parent may now take: of the job, and of the job it
    verifies. *)
Definition enqueue_fresh (l : nat) (j : SubagentJob) (verify : bool) (m : Manager) : Manager :=
  if (generation (spec j) =? current_generation m) && is_actionable (status j) && negb verify then
    let m := match (if bool_decide (mode (spec j) = $"verify") then find (or_empty (parent_job_id (spec j))) m else None) with
      | Some d => match job_at d m with
                  | Some dj => if is_actionable (status dj) then _enqueue_completion_locked d m else m
                  | None => m end
      | None => m end in
    _enqueue_completion_locked l m
  else m.

(** The part of [_on_done] under the lock, for the future [f] made for row [c]:
    the row of the job it settled, and how. *)
Definition on_done (now : Z) (f c : nat) (r : Row) (o : Outcome) : stm Manager (option (nat * Settled)) := fun m =>
  let m := update_run f (fun r => {| runner_row := runner_row r; phase := phase r; called := true; kept_slot := kept_slot r |}) m in
  match find (id (spec (job r))) m ≫= fun l => pair l <$> rows m !! l with
  | None => (Ok None, m)
  | Some (l, t) =>
    let waiting := negb (bool_decide (queue t = [])) in
    let s := if from_history r then settle_restored waiting now o (job t)
             else settle_fresh (current_generation m) waiting (auto_verify (spec (job r))) now o (job t) in
    let m := update_job l (fun _ => s_job s) m in
    match s_raise s with
    | Some e => (Raise e, m)
    | None =>
      let m := if s_blocked s then _arm_guidance_deadline_locked now l true m else m in
      let m := if from_history r
               then if is_actionable (status (s_job s)) then _enqueue_completion_locked l m else m
               else enqueue_fresh l (s_job s) (s_verify s) m in
      (Ok (Some (l, s)), m)
    end
  end.

(** ** Children *)

Definition register_child_agent (agent : pystr) (d : Z) (parent : pystr) (job_id : option pystr) : stm Manager () := fun m =>
  if d >? max_depth (config m) then (Raise (depth_limit m), m) else
  let m := set_agent_generations (assoc_set (agent_generations m) agent (current_generation m))
             (set_agent_parents (assoc_set (agent_parents m) agent parent)
               (set_registered_agents (assoc_set (registered_agents m) agent d) m)) in
  (Ok (), match job_id with Some (_ :: _ as i) => set_agent_jobs (assoc_set (agent_jobs m) agent i) m | _ => m end).

(** The first part of [queue_to_parent]; [i] is the fresh item. *)
Definition queue_to_parent (now : Z) (i sender message kind : pystr) (reply : option pystr)
    : stm Manager (option SubagentCommunication) := fun m =>
  let text := strip message in
  match assoc_get (agent_parents m) sender with
  | Some recipient =>
    if bool_decide (text = []) || negb (bool_decide (assoc_get (agent_generations m) sender = Some (current_generation m)))
    then (Ok None, m) else
    let '(n, m) := allocate m in
    let sender_job := assoc_get (agent_jobs m) sender in
    match sorted_hash (communication_key sender sender_job recipient (current_generation m) kind reply text) with
    | Raise e => (Raise e, m)
    | Ok h =>
      let c := {| item_id := i; seq := n; sender_agent_id := sender; sender_job_id := sender_job;
                  recipient_agent_id := recipient; content := text; c_created_at := now;
                  c_generation := current_generation m; kind := kind; reply_to := reply; content_hash := h |} in
      (Ok (Some c), set_parent_messages (parent_messages m ++ [c]) m)
    end
  | None => (Ok None, m)
  end.

(** The job of a child, in one of the given states. *)
Definition child_job (sender : pystr) (states : list JobStatus) (m : Manager) : option nat :=
  match find (default [] (assoc_get (agent_jobs m) sender)) m with
  | Some l => match job_at l m with Some j => if bool_decide (status j ∈ states) then Some l else None | None => None end
  | None => None
  end.

Definition guidance_text (question : pystr) (context : option pystr) : pystr :=
  match strip (or_empty context) with
  | [] => strip question
  | c => strip question ++ [10; 10] ++ $"Context:" ++ [10] ++ c
  end.

(** The first part of [request_guidance]. *)
Definition begin_guidance (sender : pystr) : stm Manager (option nat) := fun m =>
  match child_job sender [RUNNING] m with
  | Some l => (Ok (Some l), update_job l (set_status PARKING) m)
  | None => (Ok None, m)
  end.

Definition record_progress (now : Z) (sender phase summary : pystr) (next_step : option pystr) : stm Manager (option nat) := fun m =>
  match child_job sender [RUNNING; PARKING] m with
  | Some l =>
    let parts := filter (fun s => s <> []) ([strip phase; strip summary] ++ option_list next_step) in
    (Ok (Some l), update_job l (fun j => active_at now (set_activity (set_progress parts (activity j)) j)) m)
  | None => (Ok None, m)
  end.

Definition record_tool_activity (now : Z) (sender : pystr) (tool : option pystr) : stm Manager (option nat) := fun m =>
  match child_job sender [RUNNING; PARKING] m with
  | Some l => (Ok (Some l), update_job l (fun j =>
      let j := set_activity (set_current_tool tool (activity j)) j in
      active_at now match tool with Some _ => set_usage (count_tool_call (usage j)) j | None => j end) m)
  | None => (Ok None, m)
  end.

(** What a worker's checkpoint says. *)
Record Checkpoint := { k_guidance : option pystr; k_prompt : Z; k_completion : Z; k_tool_calls : Z; k_model_calls : Z }.

Definition commit_worker_checkpoint (now : Z) (job_id reference : pystr) (k : Checkpoint) (ready : bool)
    : stm Manager (option nat) := fun m =>
  match find job_id m ≫= fun l => pair l <$> job_at l m with
  | Some (l, j) =>
    if (generation (spec j) =? current_generation m) && bool_decide (status j ∈ [PARKING; RUNNING])
       && negb (cancel_requested (cancellation j))
       && match guidance_request_id (guidance j) with
          | Some (_ :: _ as i) => bool_decide (k_guidance k = Some i) | _ => true end
    then (Ok (Some l), _arm_guidance_deadline_locked now l false (update_job l (fun j =>
           active_at now (set_status BLOCKED (set_guidance (set_resume_ready ready (set_resume_reference (Some reference) (guidance j)))
             (set_activity (set_current_tool None (activity j))
               (set_usage {| prompt_tokens := k_prompt k; completion_tokens := k_completion k; tool_calls := k_tool_calls k;
                             model_calls := k_model_calls k; usage_uncertain := usage_uncertain (usage j);
                             active_seconds := active_seconds (usage j) |} j))))) m))
    else (Ok None, m)
  | None => (Ok None, m)
  end.

(** ** The parent's mailbox *)

Definition deliverable_message (agent : pystr) (m : Manager) (c : SubagentCommunication) : bool :=
  bool_decide (recipient_agent_id c = agent) && (c_generation c =? current_generation m)
  && negb (bool_decide (item_id c ∈ claimed_parent_messages m)).

Definition drain_parent_messages (agent : pystr) (m : Manager) : list SubagentCommunication * Manager :=
  let selected := filter (fun c => deliverable_message agent m c = true) (parent_messages m) in
  (stable_sort (fun a b => seq a <=? seq b) selected,
   set_claimed_parent_messages (claimed_parent_messages m ++ map item_id selected) m).

(** The first item with the identifier, and the others. *)
Fixpoint remove_item (i : pystr) (l : list SubagentCommunication) : option SubagentCommunication * list SubagentCommunication :=
  match l with
  | [] => (None, [])
  | c :: l => if bool_decide (item_id c = i) then (Some c, l) else let '(o, l) := remove_item i l in (o, c :: l)
  end.

Definition release_parent_message (i : pystr) (m : Manager) : Manager :=
  set_claimed_parent_messages (filter (fun k => k <> i) (claimed_parent_messages m)) m.

(** The part of [acknowledge_parent_message] under the lock. *)
Definition acknowledge_parent_message (i : pystr) (m : Manager) : option SubagentCommunication * Manager :=
  let '(o, l) := remove_item i (parent_messages m) in
  (o, release_parent_message i (set_parent_messages l m)).

Definition _has_parent_activity_locked (agent : pystr) (m : Manager) : bool :=
  existsb (fun i => match find i m ≫= fun l => job_at l m with
    | Some j => bool_decide (parent_agent_id (spec j) = Some agent) && (generation (spec j) =? current_generation m)
    | None => false end) (completion_mailbox m)
  || existsb (deliverable_message agent m) (parent_messages m).

(** ** Directives *)

(** The part of [queue_message] under the lock: the directive, and the job to
    resume. *)
Definition queue_message (now : Z) (i job_id message : pystr) (sender_agent : option pystr) (source : pystr)
    : stm Manager (option (SubagentDirective * option nat)) := fun m =>
  let text := strip message in
  if bool_decide (text = []) || negb (bool_decide (source ∈ [$"parent"; $"human"])) then (Ok None, m) else
  let sender := default $"root" (opt_or (opt_or sender_agent (owner_agent_id m)) None) in
  match find job_id m ≫= fun l => pair l <$> job_at l m with
  | None => (Ok None, m)
  | Some (l, j) =>
    if negb (bool_decide (status j ∈ [QUEUED; RUNNING; PARKING; BLOCKED; RESUMING])) then (Ok None, m)
    else if bool_decide (status j = BLOCKED)
            && (bool_decide (opt_or (resume_reference (guidance j)) None = None)
                || negb (bool_decide (is_Some (assoc_get (schedulers m) job_id))))
    then (Ok None, m) else
    let '(n, m) := allocate m in
    match sorted_hash (directive_key i n job_id sender text (current_generation m) source) with
    | Raise e => (Raise e, m)
    | Ok h =>
      let d := {| directive_id := i; d_seq := n; target_job_id := job_id; d_sender_agent_id := sender; d_content := text;
                  d_created_at := now; d_generation := current_generation m; d_content_hash := h; source := source |} in
      let first := bool_decide (source = $"human") && bool_decide (status j ∈ [PARKING; BLOCKED; RESUMING]) in
      let m := update_row l (fun r => set_queue (if first then d :: queue r else queue r ++ [d]) r) m in
      if bool_decide (status j = BLOCKED)
      then (Ok (Some (d, Some l)), update_job l (fun j => set_status RESUMING
              (set_guidance (set_guidance_deadline_at None (set_guidance_request_id None (guidance j))) j))
              (_cancel_guidance_timer_locked job_id m))
      else (Ok (Some (d, None)), m)
    end
  end.

(** ** Cancellation *)

(** The part of [cancel_job] under the lock: the row, and whether it was parked. *)
Definition cancel_job (now : Z) (i : pystr) (m : Manager) : option (nat * bool) * Manager :=
  match find i m ≫= fun l => pair l <$> job_at l m with
  | None => (None, m)
  | Some (l, j) =>
    if is_terminal (status j) then (None, m) else
    let parked := bool_decide (status j = BLOCKED) in
    let m := _cancel_guidance_timer_locked i m in
    let m := update_row l (fun r => set_cancel_event true r) m in
    let m := update_job l (fun j =>
      let j := set_usage (uncertain (negb (bool_decide (status j ∈ [QUEUED; BLOCKED]))) (usage j)) (request_cancellation $"cancel" j) in
      let j := set_guidance (set_guidance_deadline_at None (guidance j)) j in
      if parked
      then conclude CANCELLED (Some $"Sub-agent cancelled while awaiting guidance.")
             (set_guidance (set_guidance_request_id None (guidance j)) (finish_at (Some now) j))
      else set_status CANCELLING j) m in
    (Some (l, parked), if parked then _enqueue_completion_locked l m else m)
  end.

(** [Future.cancel()]. *)
Definition cancel_future (f : nat) (m : Manager) : bool * Manager :=
  match runs m !! f with
  | Some {| phase := PENDING |} => (true, runner_done f NotStarted m)
  | Some {| phase := DONE NotStarted |} => (true, m)
  | _ => (false, m)
  end.

(** The end of [cancel_job] for a future that never started. *)
Definition mark_cancelled (now : Z) (l : nat) : Manager -> Manager :=
  update_job l (fun j => finish_at (Some (match finished_at (times j) with Some t => if t =? 0 then now else t | None => now end))
                           (set_status CANCELLED j)).

Definition set_published_flag (i : pystr) (m : Manager) : Manager :=
  match find i m with Some l => update_row l (set_published true) m | None => m end.

(** The part of [_expire_guidance] under the lock. *)
Definition _expire_guidance (now : Z) (i : pystr) (expected : Z) (m : Manager) : option nat * Manager :=
  match find i m ≫= fun l => pair l <$> job_at l m with
  | None => (None, m)
  | Some (l, j) =>
    if negb (bool_decide (status j = BLOCKED)) || negb (bool_decide (guidance_deadline_at (guidance j) = Some expected))
    then (None, m)
    else (Some l, _enqueue_completion_locked l (update_job l (fun j =>
           let j := request_cancellation $"guidance_timeout" j in
           conclude TIMED_OUT (Some $"Sub-agent guidance deadline expired.")
             (set_guidance (set_guidance_deadline_at None (set_guidance_request_id None (guidance j)))
               (active_at now (finish_at (Some now) j)))) (_cancel_guidance_timer_locked i m)))
  end.

(** The part of [advance_generation] under the lock: the jobs to cancel. *)
Definition advance_generation (g : option Z) : stm Manager (list pystr) := fun m =>
  let next := default (current_generation m + 1) g in
  if next <=? current_generation m
  then (Raise (ValueError $"session generation must increase monotonically"), m) else
  let m := set_completion_mailbox [] (set_claimed_parent_messages [] (set_parent_messages [] (set_current_generation next m))) in
  (Ok (map (fun lj : nat * SubagentJob => id (spec lj.2))
         (filter (fun lj : nat * SubagentJob => (generation (spec lj.2) <? next) && negb (is_terminal (status lj.2)) = true) (jobs m))), m).

(** ** Removal and the end *)

Definition finished_key (j : SubagentJob) : Z :=
  match finished_at (times j) with Some t => if t =? 0 then created_at (spec j) else t | None => created_at (spec j) end.

Definition prune (keep : Z) (m : Manager) : Z * Manager :=
  let finished := stable_sort (fun a b => finished_key b <=? finished_key a)
                    (filter (fun j => is_terminal (status j) = true) (map snd (jobs m))) in
  let removed := map (fun j => id (spec j)) (drop (Z.to_nat (Z.max 0 keep)) finished) in
  let keeps {A} (l : list (pystr * A)) := filter (fun kv : pystr * A => kv.1 ∉ removed) l in
  (len removed, set_futures (keeps (futures m)) (set_schedulers (keeps (schedulers m)) (set_table (keeps (table m)) m))).

(** The part of [shutdown] under the lock: the jobs to cancel. *)
Definition shutdown (m : Manager) : list pystr * Manager :=
  if is_shutdown m then ([], m) else ((table m).*1, set_guidance_timers [] (set_is_shutdown true m)).

(** [cancel_futures=True]: what waits in the pool's queue never starts. *)
Definition cancel_queued (m : Manager) : Manager :=
  set_runs (map (fun r => match phase r with PENDING => to_phase (DONE NotStarted) r | _ => r end) (runs m)) m.

(** ** Results for the parent *)

Definition of_parent (agent : option pystr) (j : SubagentJob) : bool :=
  match agent with None => true | Some _ => bool_decide (parent_agent_id (spec j) = agent) end.

(** The mailbox: what the parent takes, and what stays. *)
Fixpoint split_mailbox (agent : option pystr) (m : Manager) (l : list pystr) : list pystr * list pystr :=
  match l with
  | [] => ([], [])
  | i :: l =>
    let '(mine, others) := split_mailbox agent m l in
    match find i m ≫= fun l => job_at l m with
    | Some j => if negb (generation (spec j) =? current_generation m) then (mine, others)
                else if of_parent agent j then (i :: mine, others) else (mine, i :: others)
    | None => (i :: mine, others)
    end
  end.

(** A finished result of this generation that the parent has not had. *)
Definition deliverable (agent : option pystr) (m : Manager) (j : SubagentJob) : bool :=
  is_actionable (status j) && of_parent agent j && (generation (spec j) =? current_generation m)
  && negb (injected_to_parent (delivery j)).

(** One identifier: the job it delivers, if any. *)
Definition deliver (i : pystr) (m : Manager) : option (nat * SubagentJob) * Manager :=
  match find i m ≫= fun l => pair l <$> job_at l m with
  | None => (None, m)
  | Some (l, j) =>
    if injected_to_parent (delivery j) || negb (is_actionable (status j)) then (None, m)
    else (Some (l, j), update_job l (fun j => set_delivery (set_injected_to_parent true (delivery j)) j) m)
  end.

Fixpoint deliver_all (l : list pystr) (m : Manager) : list (nat * SubagentJob) * Manager :=
  match l with
  | [] => ([], m)
  | i :: l => let '(o, m) := deliver i m in let '(rest, m) := deliver_all l m in (option_list o ++ rest, m)
  end.

(** By completion; jobs never enqueued are last. *)
Definition completion_leb (a b : nat * SubagentJob) : bool :=
  match completion_seq (delivery a.2), completion_seq (delivery b.2) with
  | Some p, Some q => p <=? q | Some _, None => true | None, Some _ => false | None, None => true
  end.

(** [drain_completed_for_parent]; the copies are the jobs before they are
    marked, with the rows they copy. *)
Definition drain_completed_for_parent (agent : option pystr) (m : Manager) : list (nat * SubagentJob) * Manager :=
  let '(mine, others) := split_mailbox agent m (completion_mailbox m) in
  let m := set_completion_mailbox others m in
  let missed := map (fun lj : nat * SubagentJob => id (spec lj.2))
    (filter (fun lj : nat * SubagentJob => deliverable agent m lj.2 && negb (bool_decide (id (spec lj.2) ∈ mine)) = true) (jobs m)) in
  let '(l, m) := deliver_all (mine ++ missed) m in
  (stable_sort completion_leb l, m).

(** [list_jobs], and what [wait_job] waits for. *)
Definition list_jobs (m : Manager) : list SubagentJob :=
  stable_sort (fun a b => created_at (spec b) <=? created_at (spec a)) (map snd (jobs m)).

Definition wait_job_over (i : pystr) (m : Manager) : bool :=
  match find i m ≫= fun l => rows m !! l with
  | None => true
  | Some r => is_terminal (status (job r)) && published r
  end.

(** ** Restoration *)

Definition clear_for_restore (p : ParentAgent) (m : Manager) : Manager :=
  let m := bind_root_agent p m in
  set_owner_agent_id (p_agent_id p) (set_current_generation (default 0 (session_generation p))
    (set_completion_mailbox [] (set_claimed_parent_messages [] (set_parent_messages []
      (set_futures [] (set_schedulers [] (set_table [] m))))))).

(** [self._jobs[job.id] = job], with its objects. *)
Definition add_restored (j : SubagentJob) (m : Manager) : Manager :=
  let i := id (spec j) in
  let old := find i m ≫= fun l => rows m !! l in
  let r := {| job := j; cancel_event := match old with Some r => cancel_event r | None => false end;
              published := is_terminal (status j); queue := match old with Some r => queue r | None => [] end;
              from_history := true; isolated := false |} in
  set_table (assoc_set (table m) i (length (rows m))) (set_rows (rows m ++ [r]) m).

Definition add_directive (m : Manager) (d : SubagentDirective) : Manager :=
  match find (target_job_id d) m with
  | Some l => update_row l (fun r => set_queue (queue r ++ [d]) r) m
  | None => m
  end.

Definition install_restored (p : ParentAgent) (r : Restored) (m : Manager) : Manager :=
  let m := set_owner_agent_id (p_agent_id p) (set_current_generation (default 0 (session_generation p)) m) in
  let m := foldl (fun m j => add_restored j m) m (restored r) in
  let m := foldl add_directive m (pending_directives r) in
  let m := set_parent_messages (parent_messages m ++ pending_messages r) m in
  match map seq (pending_messages r) ++ map d_seq (pending_directives r) with
  | [] => m
  | l => set_next_sequence (Z.max (next_sequence m) (foldr Z.max 0 l + 1)) m
  end.
End Manager.
