(* ===== verification/SubagentThreads.v ===== *)
(** * Threads of the manager of subagents (extensions/subagent/manager.py)

    An operation of the manager is a thread: the [action]s it has still to do,
    each a part that holds the lock, or one call outside it.  [exec] runs one
    action and gives the actions that follow it.  [step] interleaves threads
    with the runners of the pool, whose workers end whenever and however they
    like. *)

From S2P Require Import Prelude PyValue Replay SubagentJobs SubagentHistory Subagents.

Inductive action :=
| ASubmit (p : ParentAgent) (b : Submission) (i : pystr)
| AParallel (n : Z)
| ARegister (p : ParentAgent) (b : Submission) (i : pystr)
| AInstall (i : pystr) (l : nat)
| ASchedule (l : nat)
| AResume (i : pystr)
| APublish (owner : option pystr) (l : nat)
| APublishRoot (l : nat)
| APublishMessage (c : SubagentCommunication) (delivered : bool)
| APublishDirective (d : SubagentDirective) (delivered : bool)
| ACatch (owner : option pystr) (l : nat) (i : pystr)
| AVerifyFailed (owner : option pystr) (l : nat) (e : exn)
| AEnded (l : nat)
| ASetPublished (i : pystr)
| ARegisterChild (agent : pystr) (d : Z) (parent : pystr) (i : option pystr)
| ASendToParent (item sender message kind : pystr) (reply : option pystr) (asking : option nat)
| ARequestGuidance (item sender question : pystr) (context : option pystr)
| AGuided (l : nat) (item : pystr)
| AUnpark (l : nat)
| AProgress (sender phase summary : pystr) (next_step : option pystr)
| ATool (sender : pystr) (tool : option pystr)
| ACheckpoint (i reference : pystr) (k : Checkpoint) (ready : bool)
| ADrainMessages (agent : pystr)
| AAcknowledge (item : pystr)
| ARelease (item : pystr)
| ASend (item i message : pystr) (sender : option pystr) (source : pystr)
| ADrain (i : pystr)
| ADrainCompleted (agent : option pystr)
| AFollowUp (p : ParentAgent) (i fresh message : pystr) (timeout : option Z)
| ACleanup (i : pystr)
| ACancel (i : pystr)
| ACancelApprovals (i : pystr)
| ACancelFuture (l f : nat)
| AMarkCancelled (l : nat)
| AAdvance (g : option Z) (cancel_pending : bool)
| APrune (keep : Z)
| AShutdown
| AShutdownPool
| AExpire (i : pystr) (deadline : Z)
| ARestore (p : ParentAgent) (events : list logged)
| ARestoreLog (p : ParentAgent) (events : list logged)
| ARestoreScheduler (l : nat)
| AArm (l : nat).

(** What a client may call; a timer calls [AExpire]. *)
Definition is_entry (a : action) : bool :=
  match a with
  | ASubmit _ _ _ | AParallel _ | ARegisterChild _ _ _ _ | ASendToParent _ _ _ _ _ None | ARequestGuidance _ _ _ _
  | AProgress _ _ _ _ | ATool _ _ | ACheckpoint _ _ _ _ | ADrainMessages _ | AAcknowledge _ | ARelease _
  | ASend _ _ _ _ _ | ADrain _ | ADrainCompleted _ | AFollowUp _ _ _ _ _ | ACleanup _ | ACancel _ | AAdvance _ _
  | APrune _ | AShutdown | AExpire _ _ | ARestore _ _ => true
  | _ => false
  end.

(** Calls outside the lock into other code, which may raise: publications, the
    approval coordinator, the removal of a worktree. *)
Definition may_fail (a : action) : bool :=
  match a with
  | APublish _ _ | APublishRoot _ | APublishMessage _ _ | APublishDirective _ _ | ACancelApprovals _ | ACleanup _ => true
  | _ => false
  end.

(** What an operation returns. *)
Inductive Reply :=
| RNone
| RBool (b : bool)
| RMessages (l : list SubagentCommunication)
| RDirectives (l : list SubagentDirective)
| RJobs (l : list (nat * SubagentJob)).

Section Threads.
Context `{TextDigest} `{Seconds} `{PyCoercions}.

Definition publish_job (owner : option pystr) (l : nat) (m : Manager) : Manager :=
  match job_at l m with Some j => record owner $"subagent_job_changed" (job_payload j) m | None => m end.
Definition publish_job_root (l : nat) (m : Manager) : Manager :=
  match root_agent m with Some _ => publish_job (root_agent m) l m | None => m end.
Definition publish_message (c : SubagentCommunication) (delivered : bool) (m : Manager) : Manager :=
  record_root (if delivered then $"subagent_communication_delivered" else $"subagent_communication_queued")
    (communication_payload c) m.

Definition follow_up_submission (i message : pystr) (timeout : option Z) (j : SubagentJob) : Submission :=
  {| b_task := message; b_mode := $"explore"; b_max_rounds := None; b_timeout_seconds := timeout;
     b_parallel_explore := None; b_model_profile_name := None; b_context_mode := $"minimal";
     b_parent_job_id := Some i; b_depth := depth (spec j); b_worktree := false;
     b_resume_reference := structured_result (report j) ≫= r_transcript_ref; b_max_tool_calls := Some 80;
     b_max_tokens := None; b_auto_verify := true; b_working_directory := None |}.

Abbreviation result_of := (result (list action * Reply)).
Definition does (m : Manager) : result_of * Manager := (Ok ([], RNone), m).
Definition goes (k : list action) (m : Manager) : result_of * Manager := (Ok (k, RNone), m).
Definition after {A} (o : result A * Manager) (f : A -> list action * Reply) : result_of * Manager :=
  let '(r, m) := o in (match r with Ok a => Ok (f a) | Raise e => Raise e end, m).
(** Publishes the row an operation changed, and says whether there was one. *)
Definition published_row (o : option nat) : list action * Reply :=
  match o with Some l => ([APublishRoot l], RBool true) | None => ([], RBool false) end.

Definition exec (now : Z) (a : action) (m : Manager) : result_of * Manager :=
  match a with
  | ASubmit p b i => after (check_submission p b m) (fun _ =>
      (option_list (AParallel <$> b_parallel_explore b) ++ [ARegister p b i], RNone))
  | AParallel n => does (set_parallel n m)
  | ARegister p b i => after (register now p b i m) (fun l => ([APublish (p_agent_id p) l; AInstall i l; ASchedule l], RNone))
  | AInstall i l => does (set_schedulers (assoc_set (schedulers m) i l) m)
  | ASchedule l => after (_schedule l m) (fun b => ([], RBool b))
  | AResume i => goes (option_list (ASchedule <$> assoc_get (schedulers m) i)) m
  | APublish owner l => does (publish_job owner l m)
  | APublishRoot l => does (publish_job_root l m)
  | APublishMessage c delivered => does (publish_message c delivered m)
  | APublishDirective d delivered => does (publish_directive d delivered m)
  | ACatch owner l i =>
      goes [APublish owner l] (update_job l (fun j => set_delivery (set_verification_job_id (Some i) (delivery j)) j) m)
  | AVerifyFailed owner l e =>
      let m := update_job l (fun j => set_report (set_error
                 (Some ($"Automatic verification could not start: " ++ exn_text e)) (report j)) j) m in
      goes [APublish owner l] (match job_at l m with
        | Some j => if is_actionable (status j) then _enqueue_completion_locked l m else m | None => m end)
  | AEnded l =>
      match job_at l m with
      | Some j => if is_terminal (status j) then goes [ASetPublished (id (spec j))] m else does m
      | None => does m
      end
  | ASetPublished i => does (set_published_flag i m)
  | ARegisterChild agent d parent i => after (register_child_agent agent d parent i m) (fun _ => ([], RNone))
  | ASendToParent item sender message kind reply asking =>
      after (queue_to_parent now item sender message kind reply m) (fun o =>
        match o, asking with
        | Some c, None => ([APublishMessage c false], RMessages [c])
        | Some c, Some l => ([APublishMessage c false; AGuided l (item_id c); APublishRoot l], RMessages [c])
        | None, Some l => ([AUnpark l], RMessages [])
        | None, None => ([], RMessages [])
        end)
  | ARequestGuidance item sender question context =>
      after (begin_guidance sender m) (fun o =>
        match o with
        | Some l => ([ASendToParent item sender (guidance_text question context) $"guidance" None (Some l)], RNone)
        | None => ([], RMessages [])
        end)
  | AGuided l item =>
      does (update_job l (fun j => set_guidance (set_guidance_request_id (Some item) (guidance j)) j) m)
  | AUnpark l => does (update_job l (fun j => if bool_decide (status j = PARKING) then set_status RUNNING j else j) m)
  | AProgress sender phase summary next_step => after (record_progress now sender phase summary next_step m) published_row
  | ATool sender tool => after (record_tool_activity now sender tool m) published_row
  | ACheckpoint i reference k ready => after (commit_worker_checkpoint now i reference k ready m) published_row
  | ADrainMessages agent => let '(l, m) := drain_parent_messages agent m in (Ok ([], RMessages l), m)
  | AAcknowledge item =>
      let '(o, m) := acknowledge_parent_message item m in
      (Ok (match o with Some c => ([APublishMessage c true], RBool true) | None => ([], RBool false) end), m)
  | ARelease item => does (release_parent_message item m)
  | ASend item i message sender source =>
      after (queue_message now item i message sender source m) (fun o =>
        match o with
        | Some (d, resumed) =>
          (APublishDirective d false :: match resumed with Some l => [APublishRoot l; AResume i] | None => [] end, RDirectives [d])
        | None => ([], RDirectives [])
        end)
  | ADrain i => let '(l, m) := take_messages i m in (Ok (map (fun d => APublishDirective d true) l, RDirectives l), m)
  | ADrainCompleted agent => let '(l, m) := drain_completed_for_parent agent m in (Ok ([], RJobs l), m)
  | AFollowUp p i fresh message timeout =>
      match find i m ≫= fun l => job_at l m with
      | Some j => if bool_decide (status j = COMPLETED) then goes [ASubmit p (follow_up_submission i message timeout j) fresh] m
                  else (Raise (ValueError $"follow-up requires a completed sub-agent job"), m)
      | None => (Raise (ValueError $"follow-up requires a completed sub-agent job"), m)
      end
  | ACleanup i =>
      match find i m ≫= fun l => pair l <$> job_at l m with
      | Some (l, j) =>
        if bool_decide (opt_or (worktree_path (report j)) None = None) then (Ok ([], RBool false), m)
        else (Ok ([], RBool true), update_job l (fun j => set_report (set_worktree_path None (report j)) j) m)
      | None => (Ok ([], RBool false), m)
      end
  | ACancel i =>
      let fut := assoc_get (futures m) i in
      let '(o, m) := cancel_job now i m in
      (Ok (match o with
           | None => ([], RBool false)
           | Some (l, true) => ([ACancelApprovals i; APublishRoot l; ASetPublished i], RBool true)
           | Some (l, false) => (ACancelApprovals i :: option_list (ACancelFuture l <$> fut), RBool true)
           end), m)
  | ACancelApprovals i => does m
  | ACancelFuture l f => let '(b, m) := cancel_future f m in goes (if b then [AMarkCancelled l] else []) m
  | AMarkCancelled l => does (mark_cancelled now l m)
  | AAdvance g cancel_pending => after (advance_generation g m) (fun l => (if cancel_pending then map ACancel l else [], RNone))
  | APrune keep => does (prune keep m).2
  | AShutdown =>
      if is_shutdown m then does m else
      let '(l, m) := shutdown m in goes (map ACancel l ++ [AShutdownPool]) m
  | AShutdownPool => does (cancel_queued m)
  | AExpire i deadline =>
      let '(o, m) := _expire_guidance now i deadline m in
      goes (match o with Some l => [APublishRoot l; ASetPublished i] | None => [] end) m
  | ARestore p events => goes [ARestoreLog p events] (clear_for_restore p m)
  | ARestoreLog p events =>
      match restore_log now p events with
      | Raise e => (Raise e, m)
      | Ok r =>
        let base := length (rows m) in
        let row_of i := match list_find (fun j => id (spec j) = i) (restored r) with Some (k, _) => (base + k)%nat | None => base end in
        goes (map ARestoreScheduler (List.seq base (length (restored r)))
              ++ map (fun i => APublish (p_agent_id p) (row_of i)) (changed r)) (install_restored p r m)
      end
  | ARestoreScheduler l =>
      match job_at l m with
      | Some j =>
        if bool_decide (status j = BLOCKED) && negb (bool_decide (opt_or (resume_reference (guidance j)) None = None))
        then goes [AArm l] (set_schedulers (assoc_set (schedulers m) (id (spec j)) l) m)
        else does m
      | None => does m
      end
  | AArm l => does (_arm_guidance_deadline_locked now l true m)
  end.

(** What a raised exception leaves of the rest of a thread: an automatic
    verification that could not start is reported. *)
Fixpoint unwind (e : exn) (rest : list action) : list action :=
  match rest with
  | [] => []
  | ACatch owner l _ :: rest => AVerifyFailed owner l e :: rest
  | _ :: rest => unwind e rest
  end.

(** ** Interleaving *)

Record World := { manager : Manager; threads : list (list action) }.

Definition with_manager (m : Manager) (w : World) : World := {| manager := m; threads := threads w |}.
Definition with_thread (i : nat) (t : list action) (w : World) : World :=
  {| manager := manager w; threads := <[i := t]> (threads w) |}.

(** A done callback's thread, for the row [c] the future was made for. *)
Definition after_done (p : ParentAgent) (fresh : pystr) (c : nat) (r : Row) (l : nat) (s : Settled) : list action :=
  let owner := parent_agent_id (spec (job r)) in
  APublish owner l
  :: (if s_resume s then [if from_history r then ASchedule c else AResume (id (spec (job r)))] else [])
  ++ (if s_verify s
      then [ASubmit p (verification p (spec (s_job s)) (worktree_path (report (s_job s)))) fresh; ACatch owner l fresh] else [])
  ++ [AEnded l].

(** One thing a runner does, with the row of its closure; a worker ends with
    any outcome but that of a future that never started. *)
Inductive runner_step (now : Z) (f l : nat) (r : Row) (m : Manager) : Phase -> Manager -> Prop :=
| runner_starts : runner_step now f l r m PENDING (update_run f (to_phase WAITING) m)
| runner_enters : runner_step now f l r m WAITING (runner_enter now f l r m)
| runner_publishes e : runner_step now f l r m (ENTERED e) (update_run f (to_phase (STARTED e)) (publish_tracked r (tracked e) m))
| runner_publish_fails e x m' : m' = m \/ m' = publish_tracked r (tracked e) m ->
    runner_step now f l r m (ENTERED e) (runner_fails f x m')
| runner_drains e : runner_step now f l r m (STARTED e) (runner_drain f r e m)
| runner_delivers d todo taken e : runner_step now f l r m (DELIVERING (d :: todo) taken e)
    (update_run f (to_phase (DELIVERING todo taken e)) (publish_directive d true m))
| runner_delivery_fails d todo taken e x m' : m' = m \/ m' = publish_directive d true m ->
    runner_step now f l r m (DELIVERING (d :: todo) taken e) (runner_fails f x m')
| runner_launches taken e : runner_step now f l r m (DELIVERING [] taken e) (runner_launch f r e taken m)
| worker_ends q o : o <> NotStarted -> runner_step now f l r m (WORKING q) (runner_finish f o m).

(** The labels say which action ran, and what it replied. *)
Inductive label := LBegin (a : action) | LExec (a : action) (reply : Reply) | LRunner (f : nat) | LDone (f : nat).

Inductive step (w : World) : label -> World -> Prop :=
| step_begin a : is_entry a = true ->
    step w (LBegin a) {| manager := manager w; threads := threads w ++ [[a]] |}
| step_exec now i a rest k reply m : threads w !! i = Some (a :: rest) -> exec now a (manager w) = (Ok (k, reply), m) ->
    step w (LExec a reply) (with_thread i (k ++ rest) (with_manager m w))
| step_raise now i a rest e m : threads w !! i = Some (a :: rest) -> exec now a (manager w) = (Raise e, m) ->
    step w (LExec a RNone) (with_thread i (unwind e rest) (with_manager m w))
| step_fail now i a rest e m : threads w !! i = Some (a :: rest) -> may_fail a = true ->
    m = manager w \/ m = (exec now a (manager w)).2 ->
    step w (LExec a RNone) (with_thread i (unwind e rest) (with_manager m w))
| step_runner now f run r m : runs (manager w) !! f = Some run -> rows (manager w) !! runner_row run = Some r ->
    runner_step now f (runner_row run) r (manager w) (phase run) m ->
    step w (LRunner f) (with_manager m w)
| step_done now p fresh f run r o m res : runs (manager w) !! f = Some run -> phase run = DONE o -> called run = false ->
    rows (manager w) !! runner_row run = Some r -> on_done now f (runner_row run) r o (manager w) = (res, m) ->
    step w (LDone f) {| manager := m;
      threads := threads w ++ [match res with
                               | Ok (Some (l, s)) => after_done p fresh (runner_row run) r l s
                               | _ => [] end] |}.

End Threads.
