(* ===== verification/SubagentSafety.v ===== *)
(** * What the manager of subagents keeps true (extensions/subagent/manager.py)

    The invariant is stated on the [core] of a manager: what decides which job
    may run, end, and be delivered.  Most operations only let jobs evolve
    ([kstep]); those that make jobs, runs or dictionaries entries are treated one
    by one.

    The theorems are about orderly runs: identifiers are fresh, a log is restored
    before the process has jobs of its own and into a process that has not run
    them, and a job is resumed only once the completion of its last run was
    processed. *)

From S2P Require Import Prelude PyValue Replay SubagentJobs SubagentHistory Subagents SubagentThreads.

(** ** The core of a manager *)

Record Key := {
  k_spec : Assignment;
  k_restored : bool;
  k_event : bool;
  k_status : JobStatus;
  k_cancelled : bool;
  k_worker : Z;
  k_injected : bool;
}.

Definition key (r : Row) : Key :=
  {| k_spec := spec (job r); k_restored := from_history r; k_event := cancel_event r; k_status := status (job r);
     k_cancelled := cancel_requested (cancellation (job r)); k_worker := worker_generation (activity (job r));
     k_injected := injected_to_parent (delivery (job r)) |}.

Definition k_id (k : Key) : pystr := id (k_spec k).

Definition keys (m : Manager) : list Key := map key (rows m).

(** What an operation other than a runner's or a callback's may do to a job. *)
Record kstep (k k' : Key) : Prop := {
  same_spec : k_spec k' = k_spec k;
  same_origin : k_restored k' = k_restored k;
  event_stays : k_event k = true -> k_event k' = true;
  cancelled_stays : k_cancelled k = true -> k_cancelled k' = true;
  injected_stays : k_injected k = true -> k_injected k' = true;
  same_worker : k_worker k' = k_worker k;
  terminal_stays : is_terminal (k_status k) = true -> is_terminal (k_status k') = true;
  ends_cancelled : is_terminal (k_status k) = false -> is_terminal (k_status k') = true -> k_cancelled k' = true;
  waits_or_cancelled : k_status k = QUEUED \/ k_status k = RESUMING ->
    k_status k' = QUEUED \/ k_status k' = RESUMING \/ k_event k' = true;
  completes_alone : k_status k' = COMPLETED -> k_status k = COMPLETED /\ k_cancelled k' = k_cancelled k;
}.

#[export] Instance kstep_preorder : PreOrder kstep.
Proof.
  split.
  - intros k. split; naive_solver congruence.
  - intros k k' k'' [] []. split; try (etrans; eassumption); auto.
    + intros E E'. destruct (is_terminal (k_status k')) eqn:Et; auto.
    + intros E. destruct waits_or_cancelled0 as [?|[?|?]]; auto.
    + intros E. destruct completes_alone1 as [E1 E2]; [done|]. destruct completes_alone0 as [E3 E4]; [done|].
      split; [done|congruence].
Qed.

(** The parts of a manager the invariant reads, besides the jobs. *)
Definition same_frame (m m' : Manager) : Prop :=
  config m' = config m /\ runtime_parallel_explore m' = runtime_parallel_explore m /\ active_explore m' = active_explore m
  /\ table m' = table m /\ schedulers m' = schedulers m /\ futures m' = futures m /\ runs m' = runs m.

(** Jobs evolve and nothing else changes. *)
Definition quiet (m m' : Manager) : Prop := same_frame m m' /\ Forall2 kstep (keys m) (keys m').

#[export] Instance quiet_preorder : PreOrder quiet.
Proof.
  split.
  - intros m. split; [by repeat split|]. apply Forall2_same_length_lookup. split; [done|]. intros i x y -> [= ->]. reflexivity.
  - intros m1 m2 m3 [(?&?&?&?&?&?&?) Hk1] [(?&?&?&?&?&?&?) Hk2]. split; [unfold same_frame; split_and!; congruence|].
    by etrans.
Qed.

(** What does not touch rows and frame is quiet. *)
Lemma quiet_same m m' : rows m' = rows m -> same_frame m m' -> quiet m m'.
Proof. intros E Hf. split; [done|]. unfold keys. rewrite E. apply (quiet_preorder.(PreOrder_Reflexive) m). Qed.

Lemma quiet_row l f m : (forall r, rows m !! l = Some r -> kstep (key r) (key (f r))) -> quiet m (update_row l f m).
Proof.
  intros Hf. split; [by repeat split|]. unfold keys. cbn [update_row rows set_rows].
  apply Forall2_same_length_lookup. split; [by rewrite !length_map, length_alter|].
  intros i x y Hx Hy. rewrite list_lookup_fmap in Hx, Hy. rewrite list_lookup_alter in Hy.
  case_decide as E; [subst i|]; (destruct (rows m !! i) as [r|] eqn:Er || destruct (rows m !! l) as [r|] eqn:Er); cbn in *; simplify_eq; [by apply Hf|reflexivity].
Qed.

Lemma quiet_job l f m :
  (forall r, rows m !! l = Some r -> kstep (key r) (key (set_job (f (job r)) r))) -> quiet m (update_job l f m).
Proof. apply quiet_row. Qed.

(** Changes of a job that its key does not show. *)
Definition hidden (f : SubagentJob -> SubagentJob) : Prop := forall r, key (set_job (f (job r)) r) = key r.

Lemma quiet_hidden l f m : hidden f -> quiet m (update_job l f m).
Proof. intros Hf. apply quiet_job. intros r _. rewrite Hf. reflexivity. Qed.

Create HintDb subagents.
Ltac frame := apply quiet_same; [reflexivity|by repeat split].

Lemma quiet_enqueue l m : quiet m (_enqueue_completion_locked l m).
Proof.
  unfold _enqueue_completion_locked. case_bool_decide; [reflexivity|]. cbn.
  etrans; [|frame]. etrans; [|by apply quiet_hidden]. frame.
Qed.

Lemma quiet_arm now l preserve m : quiet m (_arm_guidance_deadline_locked now l preserve m).
Proof.
  unfold _arm_guidance_deadline_locked. destruct (job_at l m); [|reflexivity]. etrans; [|frame]. by apply quiet_hidden.
Qed.

Lemma quiet_timer i m : quiet m (_cancel_guidance_timer_locked i m).
Proof. frame. Qed.

Lemma quiet_record owner kind p m : quiet m (record owner kind p m).
Proof. frame. Qed.

Lemma quiet_record_root kind p m : quiet m (record_root kind p m).
Proof. unfold record_root. destruct (root_agent m); [frame|reflexivity]. Qed.

#[export] Hint Resolve quiet_enqueue quiet_arm quiet_timer quiet_record quiet_record_root : subagents.

(** Closes the quiet cases of an operation: splits its tests, then walks back
    through its updates. *)
Ltac calm := repeat first
  [ reflexivity | frame | solve [auto with subagents] | progress (cbn [fst snd]) | case_match ].
Ltac calms := repeat first
  [ progress calm
  | (etrans; [|apply quiet_enqueue])
  | (etrans; [|apply quiet_arm])
  | (etrans; [|apply quiet_hidden; done]) ].

Section Operations.
Context `{TextDigest} `{Seconds} `{PyCoercions}.

Lemma quiet_check p b m : quiet m (check_submission p b m).2.
Proof. unfold check_submission, bind_root_agent. calm. Qed.

Lemma quiet_register_child a d p i m : quiet m (register_child_agent a d p i m).2.
Proof. unfold register_child_agent. calm. Qed.

Lemma quiet_queue_to_parent now i s t k r m : quiet m (queue_to_parent now i s t k r m).2.
Proof. unfold queue_to_parent, allocate. calm. Qed.

Lemma child_job_spec s st m l : child_job s st m = Some l ->
  exists r, rows m !! l = Some r /\ status (job r) ∈ st.
Proof.
  unfold child_job, job_at. destruct (find _ m) as [k|]; [|done]. destruct (rows m !! k) as [r|] eqn:E; cbn; [|done].
  case_bool_decide; [|done]. intros [= <-]. eauto.
Qed.

(** A change of status between working states. *)
Lemma kstep_working st r : is_terminal (status (job r)) = false -> is_terminal st = false ->
  status (job r) <> QUEUED -> status (job r) <> RESUMING ->
  kstep (key r) (key (set_job (set_status st (job r)) r)).
Proof. intros Ht Hs Hq Hr. split; cbn; try done; try congruence; [tauto|]. intros ->. done. Qed.

Lemma quiet_begin_guidance s m : quiet m (begin_guidance s m).2.
Proof.
  unfold begin_guidance. destruct (child_job s _ m) as [l|] eqn:E; [|reflexivity].
  apply child_job_spec in E as (r & Er & Hs). apply quiet_job. intros r' Hr'. simplify_eq.
  apply list_elem_of_singleton in Hs. apply kstep_working; rewrite ?Hs; done.
Qed.

Lemma quiet_progress now s p t n m : quiet m (record_progress now s p t n m).2.
Proof. unfold record_progress. destruct (child_job _ _ m); [by apply quiet_hidden|reflexivity]. Qed.

Lemma quiet_tool now s t m : quiet m (record_tool_activity now s t m).2.
Proof. unfold record_tool_activity. destruct (child_job _ _ m); [by apply quiet_hidden; destruct t|reflexivity]. Qed.

Lemma quiet_checkpoint now i ref k b m : quiet m (commit_worker_checkpoint now i ref k b m).2.
Proof.
  unfold commit_worker_checkpoint, job_at. destruct (find i m) as [l|]; cbn; [|reflexivity].
  destruct (rows m !! l) as [r|] eqn:Er; cbn; [|reflexivity]. case_match eqn:E; [|reflexivity]. cbn.
  etrans; [|apply quiet_arm]. apply quiet_job. intros r' Hr'. simplify_eq.
  apply andb_true_iff in E as [E _]. apply andb_true_iff in E as [E _]. apply andb_true_iff in E as [_ E].
  apply bool_decide_eq_true in E.
  assert (Hs : status (job r) = PARKING \/ status (job r) = RUNNING) by set_solver.
  split; cbn; try done; destruct Hs as [-> | ->]; naive_solver.
Qed.

Lemma quiet_parent_messages a m : quiet m (drain_parent_messages a m).2.
Proof. frame. Qed.

Lemma quiet_acknowledge i m : quiet m (acknowledge_parent_message i m).2.
Proof. unfold acknowledge_parent_message. calm. Qed.

Lemma quiet_queue l q m : quiet m (update_row l (set_queue q) m).
Proof. apply quiet_row. intros r _. reflexivity. Qed.

Lemma quiet_queue_message now i j t s src m : quiet m (queue_message now i j t s src m).2.
Proof.
  unfold queue_message, job_at. case_match; [reflexivity|].
  destruct (find j m) as [l|]; cbn [mbind option_bind]; [|reflexivity].
  destruct (rows m !! l) as [r|] eqn:Er; cbn [fmap option_fmap option_map]; [|reflexivity].
  do 2 (case_match; [reflexivity|]). cbn. case_match; [|frame].
  assert (Hq : forall f, quiet m (update_row l (fun r => set_queue (f r) r) (set_next_sequence (next_sequence m + 1) m))).
  { intros f. etrans; [|apply quiet_row; intros r' _; reflexivity]. frame. }
  case_bool_decide as Hb; [|apply Hq]. cbn. etrans; [apply Hq|]. etrans; [apply (quiet_timer j)|].
  apply quiet_job. cbn [rows update_row _cancel_guidance_timer_locked set_guidance_timers set_rows set_next_sequence].
  intros r' Hr'. rewrite list_lookup_alter, decide_True, Er in Hr' by done. cbn in Hr'. injection Hr' as <-.
  apply kstep_working with (r := set_queue _ r); cbn; rewrite ?Hb; done.
Qed.

Lemma quiet_take_messages i m : quiet m (take_messages i m).2.
Proof. unfold take_messages. destruct (find i m); [apply quiet_queue|reflexivity]. Qed.

Lemma quiet_deliver i m : quiet m (deliver i m).2.
Proof.
  unfold deliver. destruct (find i m ≫= _) as [[l j]|]; [|reflexivity]. case_match; [reflexivity|]. cbn.
  apply quiet_job. intros r _. by split; cbn; naive_solver congruence.
Qed.

Lemma quiet_deliver_all l m : quiet m (deliver_all l m).2.
Proof.
  revert m. induction l as [|i l IH]; intros m; cbn; [reflexivity|].
  pose proof (quiet_deliver i m) as Hd. destruct (deliver i m) as [o m1]. specialize (IH m1).
  destruct (deliver_all l m1) as [rest m2]. cbn in *. by etrans.
Qed.

Lemma quiet_drain_completed a m : quiet m (drain_completed_for_parent a m).2.
Proof.
  unfold drain_completed_for_parent. destruct (split_mailbox _ _ _) as [mine others].
  set (m1 := set_completion_mailbox others m). pose proof (quiet_deliver_all (mine ++ map (fun lj : nat * SubagentJob => id (spec lj.2))
    (filter (fun lj : nat * SubagentJob => deliverable a m1 lj.2 && negb (bool_decide (id (spec lj.2) ∈ mine)) = true) (jobs m1))) m1) as Hd.
  destruct (deliver_all _ m1) as [l m2]. cbn in *. etrans; [|exact Hd]. frame.
Qed.

Lemma quiet_cancel_job now i m : quiet m (cancel_job now i m).2.
Proof.
  unfold cancel_job, job_at. destruct (find i m) as [l|]; cbn [mbind option_bind]; [|reflexivity].
  destruct (rows m !! l) as [r|] eqn:Er; cbn [fmap option_fmap option_map]; [|reflexivity].
  destruct (is_terminal (status (job r))) eqn:Et; [reflexivity|].
  match goal with |- quiet m (_, if ?b then _enqueue_completion_locked l ?m' else ?m').2 =>
    assert (Hq : quiet m m'); [|destruct b; cbn; [etrans; [exact Hq|apply quiet_enqueue]|exact Hq]] end.
  unfold update_job. etrans; [apply (quiet_timer i)|].
  assert (Ha : forall f g (m : Manager), update_row l f (update_row l g m) = update_row l (fun r => f (g r)) m).
  { intros f g m0. unfold update_row, set_rows. cbn. f_equal.
    apply list_eq. intros k. rewrite !list_lookup_alter. cases; by destruct (rows m0 !! _). }
  rewrite Ha. apply quiet_row. cbn. intros r' Hr'. simplify_eq.
  case_bool_decide as Hb; split; cbn; try done; try (intros; by auto); intros ?; naive_solver.
Qed.

Lemma quiet_mark_cancelled now l m :
  (forall r, rows m !! l = Some r -> cancel_event r = true /\ cancel_requested (cancellation (job r)) = true) ->
  quiet m (mark_cancelled now l m).
Proof. intros Hl. apply quiet_job. intros r Hr. apply Hl in Hr as [??]. split; cbn; try done; auto. Qed.

Lemma quiet_expire now i d m : quiet m (_expire_guidance now i d m).2.
Proof.
  unfold _expire_guidance, job_at. destruct (find i m) as [l|]; cbn [mbind option_bind]; [|reflexivity].
  destruct (rows m !! l) as [r|] eqn:Er; cbn [fmap option_fmap option_map]; [|reflexivity].
  case_match eqn:E; [reflexivity|]. cbn. apply orb_false_iff in E as [E _]. apply negb_false_iff, bool_decide_eq_true in E.
  etrans; [|apply quiet_enqueue]. etrans; [apply (quiet_timer i)|]. apply quiet_job. cbn. intros r' Hr'. simplify_eq.
  split; cbn; try done; rewrite ?E; naive_solver.
Qed.

Lemma quiet_advance g m : quiet m (advance_generation g m).2.
Proof. unfold advance_generation. calm. Qed.

Lemma quiet_shutdown m : quiet m (shutdown m).2.
Proof. unfold shutdown. calm. Qed.

Lemma quiet_publish_job o l m : quiet m (publish_job o l m).
Proof. unfold publish_job. calm. Qed.

Lemma quiet_published_flag i m : quiet m (set_published_flag i m).
Proof. unfold set_published_flag. destruct (find i m); [|reflexivity]. apply quiet_row. intros r _. reflexivity. Qed.

(** ** Actions *)

(** The actions that only let jobs evolve. *)
Definition is_quiet (a : action) : bool :=
  match a with
  | ARegister _ _ _ | AInstall _ _ | ASchedule _ | AParallel _ | ACancelFuture _ _ | APrune _ | AShutdownPool
  | ARestore _ _ | ARestoreLog _ _ | ARestoreScheduler _ => false
  | _ => true
  end.

(** What an action in progress knows of the rows it names. *)
Definition action_ok (ks : list Key) (a : action) : Prop :=
  match a with
  | AInstall i l => exists k, ks !! l = Some k /\ k_id k = i
  | ACancelFuture l _ | AMarkCancelled l => exists k, ks !! l = Some k /\ k_event k = true /\ k_cancelled k = true
  | _ => True
  end.

Lemma after_snd {A} (o : result A * Manager) f : (after o f).2 = o.2.
Proof. by destruct o. Qed.

Lemma exec_quiet now a m : is_quiet a = true -> action_ok (keys m) a -> quiet m (exec now a m).2.
Proof.
  destruct a; cbn [is_quiet exec]; intros Ha Hok; try done; rewrite ?after_snd;
    try first [ reflexivity | apply quiet_check | apply quiet_publish_job | apply quiet_register_child | apply quiet_queue_to_parent
    | apply quiet_begin_guidance | apply quiet_progress | apply quiet_tool | apply quiet_checkpoint | apply quiet_parent_messages
    | apply quiet_queue_message | apply quiet_advance | apply quiet_arm | apply quiet_record_root | apply quiet_published_flag
    | by apply quiet_hidden | frame ].
  - unfold publish_job_root. cbn. destruct (root_agent m); [apply quiet_publish_job|reflexivity].
  - cbn. match goal with |- context [update_job l ?f m] => etrans; [by apply (quiet_hidden l f m)|] end. calm.
  - calm.
  - cbn. apply quiet_job. intros r _. case_bool_decide as E; [|by destruct r; reflexivity]. split; cbn; try done; rewrite ?E; naive_solver.
  - pose proof (quiet_acknowledge item m) as Hq. destruct (acknowledge_parent_message item m). exact Hq.
  - pose proof (quiet_take_messages i m) as Hq. destruct (take_messages i m). exact Hq.
  - pose proof (quiet_drain_completed agent m) as Hq. destruct (drain_completed_for_parent agent m). exact Hq.
  - calm.
  - destruct (find i m ≫= _) as [[l j]|]; [|reflexivity]. case_match; [reflexivity|]. by apply quiet_hidden.
  - pose proof (quiet_cancel_job now i m) as Hq. destruct (cancel_job now i m). exact Hq.
  - cbn. apply quiet_mark_cancelled. intros r Hr. destruct Hok as (k & Hk & ?). unfold keys in Hk.
    rewrite list_lookup_fmap, Hr in Hk. cbn in Hk. by simplify_eq.
  - destruct (is_shutdown m); [reflexivity|]. pose proof (quiet_shutdown m) as Hq. destruct (shutdown m). exact Hq.
  - pose proof (quiet_expire now i deadline m) as Hq. destruct (_expire_guidance now i deadline m). exact Hq.
Qed.
End Operations.

(** ** The invariant *)

Definition is_waiting (p : Phase) : Prop := p = PENDING \/ p = WAITING.
Definition holds_slot (r : Run) : bool :=
  match phase r with ENTERED _ | STARTED _ | DELIVERING _ _ _ | WORKING _ => true | DONE _ => kept_slot r | _ => false end.
Definition slots (m : Manager) : Z := len (filter (fun r => holds_slot r = true) (runs m)).

(** What a run whose end is not processed says of its job. *)
Definition run_ok (k : Key) (p : Phase) : Prop :=
  (is_terminal (k_status k) = true -> k_cancelled k = true)
  /\ (is_waiting p -> k_event k = true \/ k_status k = QUEUED \/ k_status k = RESUMING).

Definition is_active (ks : list Key) (il : pystr * nat) : Prop :=
  match ks !! il.2 with Some k => is_terminal (k_status k) = false | None => False end.
#[export] Instance is_active_dec ks il : Decision (is_active ks il).
Proof. unfold is_active. destruct (ks !! il.2); apply _. Defined.

Record inv (m : Manager) : Prop := {
  inv_ids l1 l2 k1 k2 : keys m !! l1 = Some k1 -> keys m !! l2 = Some k2 -> k_id k1 = k_id k2 -> l1 = l2;
  inv_table i l : (i, l) ∈ table m -> exists k, keys m !! l = Some k /\ k_id k = i;
  inv_table_keys : NoDup (table m).*1;
  inv_schedulers i l : assoc_get (schedulers m) i = Some l -> exists k, keys m !! l = Some k /\ k_id k = i;
  inv_runs f run : runs m !! f = Some run -> exists k, keys m !! runner_row run = Some k
    /\ (called run = false -> run_ok k (phase run)) /\ (called run = true -> exists o, phase run = DONE o);
  inv_current f run k : runs m !! f = Some run -> called run = false -> keys m !! runner_row run = Some k ->
    is_Some (find (k_id k) m) -> assoc_get (futures m) (k_id k) = Some f;
  inv_slots : active_explore m = slots m;
  inv_bounds : 1 <= runtime_parallel_explore m <= max_parallel_explore (config m)
    /\ active_explore m <= max_parallel_explore (config m);
  inv_completed l k : keys m !! l = Some k -> k_status k = COMPLETED -> k_cancelled k = false;
  inv_capacity : len (filter (is_active (keys m)) (table m)) <= _MAX_ACTIVE_SUBAGENTS;
}.

Lemma keys_lookup m l k : keys m !! l = Some k <-> exists r, rows m !! l = Some r /\ key r = k.
Proof.
  unfold keys. rewrite list_lookup_fmap. destruct (rows m !! l) as [r|]; cbn; split; intros H.
  - simplify_eq. eauto.
  - destruct H as (r' & ? & <-). by simplify_eq.
  - done.
  - by destruct H as (? & ? & _).
Qed.

Lemma find_elem i m l : find i m = Some l -> (i, l) ∈ table m.
Proof. apply assoc_get_elem. Qed.

(** The row an identifier finds has that identifier. *)
Lemma find_key m i l : inv m -> find i m = Some l -> exists k, keys m !! l = Some k /\ k_id k = i.
Proof. intros Hi Hf. apply (inv_table m Hi). by apply find_elem. Qed.

Lemma quiet_before m m' l k' : quiet m m' -> keys m' !! l = Some k' -> exists k, keys m !! l = Some k /\ kstep k k'.
Proof. intros [_ Hk] Hl. by apply (Forall2_lookup_r _ _ _ _ _ Hk) in Hl as (k & ? & ?); eauto. Qed.
Lemma quiet_then m m' l k : quiet m m' -> keys m !! l = Some k -> exists k', keys m' !! l = Some k' /\ kstep k k'.
Proof. intros [_ Hk] Hl. by apply (Forall2_lookup_l _ _ _ _ _ Hk) in Hl as (k' & ? & ?); eauto. Qed.
Lemma kstep_id k k' : kstep k k' -> k_id k' = k_id k.
Proof. intros Hk. unfold k_id. by rewrite (same_spec _ _ Hk). Qed.

Lemma run_ok_step k k' p : kstep k k' -> run_ok k p -> run_ok k' p.
Proof.
  intros Hk [Ht Hw]. split.
  - intros Ht'. destruct (is_terminal (k_status k)) eqn:E; [by apply Hk, Ht|by apply (ends_cancelled _ _ Hk)].
  - intros Hp. destruct (Hw Hp) as [He|Hq]; [left; by apply Hk|].
    destruct (waits_or_cancelled _ _ Hk Hq) as [?|[?|?]]; auto.
Qed.

Lemma filter_weaken {A} (P Q : A -> Prop) `{forall x, Decision (P x), forall x, Decision (Q x)} (l : list A) :
  (forall x, x ∈ l -> P x -> Q x) -> len (filter P l) <= len (filter Q l).
Proof.
  induction l as [|x l IH]; intros Hl; [done|]. rewrite !filter_cons.
  assert (IH' := IH (fun y Hy => Hl y (list_elem_of_further _ _ _ Hy))).
  assert (Hx := Hl x (list_elem_of_here _ _)). repeat case_decide; rewrite ?len_cons; try lia; naive_solver.
Qed.

Lemma inv_quiet m m' : quiet m m' -> inv m -> inv m'.
Proof.
  intros Hq Hi. pose proof Hq as [(Ec & Er & Ea & Et & Es & Ef & Eru) _]. split.
  - intros l1 l2 k1 k2 H1 H2 E. eapply quiet_before in H1 as (j1 & H1 & S1), H2 as (j2 & H2 & S2); [|done..].
    apply (inv_ids m Hi l1 l2 j1 j2); [done..|]. by rewrite <-(kstep_id _ _ S1), <-(kstep_id _ _ S2).
  - intros i l. rewrite Et. intros Hl. apply (inv_table m Hi) in Hl as (k & Hk & <-).
    eapply quiet_then in Hk as (k' & Hk & S); [|done]. exists k'. by rewrite (kstep_id _ _ S).
  - rewrite Et. apply Hi.
  - intros i l. rewrite Es. intros Hl. apply (inv_schedulers m Hi) in Hl as (k & Hk & <-).
    eapply quiet_then in Hk as (k' & Hk & S); [|done]. exists k'. by rewrite (kstep_id _ _ S).
  - intros f run. rewrite Eru. intros Hr. apply (inv_runs m Hi) in Hr as (k & Hk & Hc & Hd).
    eapply quiet_then in Hk as (k' & Hk & S); [|done]. exists k'. split_and!; [done| |done].
    intros Hn. eapply run_ok_step; eauto.
  - intros f run k. unfold find. rewrite Eru, Ef, Et. intros Hr Hn Hk.
    eapply quiet_before in Hk as (j & Hk & S); [|done]. rewrite (kstep_id _ _ S). by apply (inv_current m Hi f run j).
  - unfold slots. rewrite Ea, Eru. apply Hi.
  - rewrite Er, Ec, Ea. apply Hi.
  - intros l k Hk Hs. eapply quiet_before in Hk as (j & Hk & S); [|done].
    destruct (completes_alone _ _ S Hs) as [Hj ->]. by apply (inv_completed m Hi l j).
  - rewrite Et. etrans; [|apply (inv_capacity m Hi)]. apply filter_weaken. intros [i l] Hl. unfold is_active. cbn.
    apply (inv_table m Hi) in Hl as (k & Hk & _). pose proof Hk as Hk0. eapply quiet_then in Hk as (k' & Hk & S); [|done].
    rewrite Hk, Hk0. intros Ht. destruct (is_terminal (k_status k)) eqn:E; [|done].
    apply (terminal_stays _ _ S) in E. congruence.
Qed.

Lemma action_ok_quiet m m' a : quiet m m' -> action_ok (keys m) a -> action_ok (keys m') a.
Proof.
  intros Hq. destruct a; cbn; try done.
  - intros (k & Hk & <-). eapply quiet_then in Hk as (k' & Hk & S); [|done]. exists k'. by rewrite (kstep_id _ _ S).
  - intros (k & Hk & ? & ?). eapply quiet_then in Hk as (k' & Hk & S); [|done]. exists k'. split_and!; [done|..]; by apply S.
  - intros (k & Hk & ? & ?). eapply quiet_then in Hk as (k' & Hk & S); [|done]. exists k'. split_and!; [done|..]; by apply S.
Qed.

(** The count of the code is the count of the invariant. *)
Lemma active_count m : _active_job_count_locked m = len (filter (is_active (keys m)) (table m)).
Proof.
  unfold _active_job_count_locked, jobs. induction (table m) as [|[i l] t IH]; [done|]. cbn [omap list_omap].
  assert (Ha : is_active (keys m) (i, l) <->
    match rows m !! l with Some r => is_terminal (status (job r)) = false | None => False end).
  { unfold is_active, keys. cbn. rewrite list_lookup_fmap. by destruct (rows m !! l). }
  rewrite (filter_cons (is_active (keys m))). unfold job_at at 1. cbn [snd]. revert Ha. destruct (rows m !! l) as [r|]; cbn [fmap option_fmap option_map]; intros Ha.
  - rewrite filter_cons. cbn [snd]. do 2 case_decide; rewrite ?len_cons; tauto || lia.
  - case_decide; [tauto|]. exact IH.
Qed.

(** ** Evolution over any step *)

(** What every step keeps of a job: in particular, a finished job stays
    finished and its worker is not started again. *)
Record kext (k k' : Key) : Prop := {
  ext_spec : k_spec k' = k_spec k;
  ext_event : k_event k = true -> k_event k' = true;
  ext_cancelled : k_cancelled k = true -> k_cancelled k' = true;
  ext_injected : k_injected k = true -> k_injected k' = true;
  ext_terminal : is_terminal (k_status k) = true -> is_terminal (k_status k') = true /\ k_worker k' = k_worker k;
}.

Lemma kstep_ext k k' : kstep k k' -> kext k k'.
Proof. intros []. split; auto. Qed.

Lemma kext_refl k : kext k k.
Proof. by split. Qed.

Definition keys_ext (m m' : Manager) : Prop :=
  forall l k, keys m !! l = Some k -> exists k', keys m' !! l = Some k' /\ kext k k'.

Lemma keys_ext_quiet m m' : quiet m m' -> keys_ext m m'.
Proof. intros Hq l k Hk. eapply quiet_then in Hk as (k' & ? & ?); [|done]. eauto using kstep_ext. Qed.

Lemma keys_ext_same m m' : rows m' = rows m -> keys_ext m m'.
Proof. intros E l k Hk. exists k. unfold keys. rewrite E. split; [done|apply kext_refl]. Qed.

Lemma keys_ext_app m m' r : rows m' = rows m ++ r -> keys_ext m m'.
Proof.
  intros E l k Hk. exists k. unfold keys. rewrite E, map_app. split; [|apply kext_refl]. by apply lookup_app_l_Some.
Qed.

Lemma action_ok_ext m m' a : keys_ext m m' -> action_ok (keys m) a -> action_ok (keys m') a.
Proof.
  intros Hx. destruct a; cbn; try done.
  - intros (k & Hk & <-). apply Hx in Hk as (k' & Hk & S). exists k'. split; [done|]. unfold k_id. by rewrite (ext_spec _ _ S).
  - intros (k & Hk & ? & ?). apply Hx in Hk as (k' & Hk & S). exists k'. split_and!; [done|..]; by apply S.
  - intros (k & Hk & ? & ?). apply Hx in Hk as (k' & Hk & S). exists k'. split_and!; [done|..]; by apply S.
Qed.

(** ** Dictionaries and runs *)

Lemma inv_parallel n m : inv m -> inv (set_parallel n m).
Proof. intros []. split; cbn; try done. cbn in *. lia. Qed.

Lemma inv_scheduler i l k m : inv m -> keys m !! l = Some k -> k_id k = i -> inv (set_schedulers (assoc_set (schedulers m) i l) m).
Proof.
  intros [] Hk Ek. split; cbn; try done. intros j l'. rewrite assoc_get_set. case_decide; [|apply inv_schedulers0].
  intros [= <-]. subst. eauto.
Qed.

Lemma alter_middle {A} (g : A -> A) l1 x l2 : alter g (length l1) (l1 ++ x :: l2) = l1 ++ g x :: l2.
Proof. induction l1 as [|y l1 IH]; [done|]. cbn. f_equal. exact IH. Qed.

(** A run changes its phase, its mark, and the count of slots. *)
Lemma inv_run f g run a m : inv m -> runs m !! f = Some run ->
  runner_row (g run) = runner_row run ->
  (called (g run) = true -> exists o, phase (g run) = DONE o) ->
  (called (g run) = false -> called run = false) ->
  (forall k, keys m !! runner_row run = Some k -> called (g run) = false -> run_ok k (phase (g run))) ->
  a = active_explore m + (if holds_slot (g run) then 1 else 0) - (if holds_slot run then 1 else 0) ->
  a <= max_parallel_explore (config m) ->
  inv (set_active_explore a (update_run f g m)).
Proof.
  intros Hi Hr Hrow Hd Hc Hok Ha Hb.
  assert (Hl : forall f' run', alter g f (runs m) !! f' = Some run' ->
    exists run0, runs m !! f' = Some run0 /\ (f' = f /\ run' = g run0 \/ f' <> f /\ run' = run0)).
  { intros f' run'. rewrite list_lookup_alter. case_decide as E; [subst f'|eauto].
    rewrite Hr. cbn. intros [= <-]. eauto. }
  destruct Hi. split; cbn; try done.
  - intros f' run' (run0 & Hr0 & [[-> ->]|[Hf ->]])%Hl; [|eauto]. rewrite Hr in Hr0. injection Hr0 as <-.
    destruct (inv_runs0 _ _ Hr) as (k & Hk & _). exists k. rewrite Hrow. split_and!; eauto.
  - intros f' run' k (run0 & Hr0 & [[-> ->]|[Hf ->]])%Hl; [|eauto]. rewrite Hr in Hr0. injection Hr0 as <-.
    rewrite Hrow. eauto.
  - unfold slots. cbn. rewrite Ha, inv_slots0. unfold slots. clear -Hr.
    apply list_elem_of_split_length in Hr as (l1 & l2 & -> & ->). rewrite alter_middle, !filter_app, !len_app, !filter_cons.
    do 2 case_decide; rewrite ?len_cons; destruct (holds_slot (g run)), (holds_slot run); try done; lia.
  - lia.
Qed.

Lemma inv_same_active m a : a = active_explore m -> set_active_explore a m = m.
Proof. intros ->. by destruct m. Qed.

(** A run changes without taking or giving back a slot. *)
Lemma inv_run_still f g run m : inv m -> runs m !! f = Some run ->
  runner_row (g run) = runner_row run ->
  (called (g run) = true -> exists o, phase (g run) = DONE o) ->
  (called (g run) = false -> called run = false) ->
  (forall k, keys m !! runner_row run = Some k -> called (g run) = false -> run_ok k (phase (g run))) ->
  holds_slot (g run) = holds_slot run -> inv (update_run f g m).
Proof.
  intros Hi Hr Hrow Hd Hc Hok Hs. rewrite <-(inv_same_active (update_run f g m) (active_explore m)) by done.
  eapply inv_run; eauto; [rewrite Hs; lia|apply Hi].
Qed.

(** The job of a run whose end is not processed. *)
Lemma inv_run_ok m f run k : inv m -> runs m !! f = Some run -> called run = false ->
  keys m !! runner_row run = Some k -> run_ok k (phase run).
Proof. intros Hi Hr Hn Hk. destruct (inv_runs m Hi f run Hr) as (k' & Hk' & Hok & _). simplify_eq. auto. Qed.

Lemma not_called m f run : inv m -> runs m !! f = Some run -> (forall o, phase run <> DONE o) -> called run = false.
Proof.
  intros Hi Hr Hp. destruct (inv_runs m Hi f run Hr) as (_ & _ & _ & Hd).
  destruct (called run); [|done]. destruct Hd as [o ?]; [done|]. by destruct (Hp o).
Qed.

Lemma inv_cancel_future f m : inv m -> inv (cancel_future f m).2.
Proof.
  intros Hi. unfold cancel_future. destruct (runs m !! f) as [run|] eqn:Er; [|done].
  destruct run as [l p c s]. destruct p as [| | | | | |[]]; try done. cbn. assert (Hc : c = false) by (by apply (not_called m f _ Hi Er)). subst.
  eapply inv_run_still; [done|done|..]; cbn; try done.
  intros k Hk _. destruct (inv_run_ok _ _ _ _ Hi Er eq_refl Hk) as [Ht _]. split; [done|]. by intros [].
Qed.

Definition never_started (r : Run) : Run := match phase r with PENDING => to_phase (DONE NotStarted) r | _ => r end.

Lemma inv_cancel_queued m : inv m -> inv (cancel_queued m).
Proof.
  intros Hi. assert (Hl : forall f run', map never_started (runs m) !! f = Some run' ->
    exists run, runs m !! f = Some run /\ run' = never_started run).
  { intros f run'. rewrite list_lookup_fmap. destruct (runs m !! f); cbn; [|done]. intros [= <-]. eauto. }
  assert (Hrow : forall run, runner_row (never_started run) = runner_row run) by (intros [? []]; done).
  assert (Hcall : forall run, called (never_started run) = called run) by (intros [? []]; done).
  pose proof Hi as []. split; cbn; try done.
  - intros f run' (run & Hr & ->)%Hl. destruct (inv_runs0 _ _ Hr) as (k & Hk & Hok & Hd). exists k. rewrite Hrow, Hcall.
    split_and!; [done| |].
    + intros Hn. specialize (Hok Hn) as [Ht Hw]. unfold never_started. destruct (phase run) eqn:Ep; rewrite ?Ep; try done.
      split; [done|]. by intros [].
    + intros Hn. destruct (Hd Hn) as [o Ho]. unfold never_started. rewrite Ho. eauto.
  - intros f run' k (run & Hr & ->)%Hl. rewrite Hrow, Hcall. eauto.
  - rewrite inv_slots0. unfold slots, cancel_queued. cbn [runs set_runs]. change (fun r => match phase r with PENDING => _ | _ => r end) with never_started.
    clear. induction (runs m) as [|run l IH]; [done|]. cbn [map]. rewrite !filter_cons.
    assert (E : holds_slot (never_started run) = holds_slot run) by (by destruct run as [? []]).
    rewrite E. case_decide; rewrite ?len_cons; lia.
Qed.

(** ** Removal *)

Lemma assoc_get_filter_keys {A} (removed : list pystr) (l : list (pystr * A)) k :
  assoc_get (filter (fun kv : pystr * A => kv.1 ∉ removed) l) k = if decide (k ∈ removed) then None else assoc_get l k.
Proof.
  induction l as [|[k' v] l IH]; cbn [filter]; [by case_decide|]. rewrite filter_cons. cbn.
  destruct (decide (k' ∉ removed)) as [E|E]; cbn; rewrite IH; repeat case_decide; subst; done.
Qed.

Lemma NoDup_keys_filter {A} (P : pystr * A -> Prop) `{forall x, Decision (P x)} (l : list (pystr * A)) :
  NoDup l.*1 -> NoDup (filter P l).*1.
Proof.
  induction l as [|[i a] l IH]; [done|]. rewrite filter_cons, fmap_cons. intros [Hn Hd]%NoDup_cons.
  case_decide; [|auto]. rewrite fmap_cons. constructor; [|auto]. intros Hin. apply Hn.
  apply list_elem_of_fmap in Hin as (x & -> & [_ Hx]%list_elem_of_filter). apply list_elem_of_fmap. eauto.
Qed.

Lemma inv_prune keep m : inv m -> inv (prune keep m).2.
Proof.
  intros Hi. unfold prune. cbn [snd].
  match goal with |- context [filter (fun kv : pystr * nat => kv.1 ∉ ?R) (table m)] => generalize R end. intros R.
  pose proof Hi as []. split; cbn; try done.
  - intros i l [_ Hl]%list_elem_of_filter. eauto.
  - by apply NoDup_keys_filter.
  - intros i l. rewrite assoc_get_filter_keys. case_decide; [done|]. eauto.
  - intros f run k Hr Hn Hk Hf. unfold find in *. cbn in Hf. rewrite assoc_get_filter_keys in *.
    case_decide; [by destruct Hf|]. eauto.
  - etrans; [|exact inv_capacity0]. clear. induction (table m) as [|il t IH]; [done|].
    rewrite (filter_cons (fun kv : pystr * nat => kv.1 ∉ R)). rewrite (filter_cons (is_active (keys m)) il t).
    repeat case_decide; rewrite ?filter_cons; repeat case_decide; rewrite ?len_cons; try done; try lia.
Qed.

(** ** New jobs *)

Lemma keys_app m m' r : rows m' = rows m ++ [r] -> keys m' = keys m ++ [key r].
Proof. intros E. unfold keys. by rewrite E, map_app. Qed.

Lemma is_active_app ks k il : (il.2 < length ks)%nat -> is_active (ks ++ [k]) il <-> is_active ks il.
Proof. intros Hl. unfold is_active. by rewrite lookup_app_l. Qed.

Lemma assoc_set_new {A} (l : list (pystr * A)) i a : (forall b, (i, b) ∉ l) -> assoc_set l i a = l ++ [(i, a)].
Proof.
  induction l as [|[j b] l IH]; intros Hn; [done|]. cbn. case_decide as E.
  - subst. destruct (Hn b). left.
  - rewrite IH; [done|]. intros b' Hb. apply (Hn b'). by right.
Qed.

(** A row with a fresh identifier, in the table. *)
Lemma inv_new_row m m' r :
  inv m -> (forall r', r' ∈ rows m -> id (spec (job r')) <> id (spec (job r))) ->
  rows m' = rows m ++ [r] -> table m' = assoc_set (table m) (id (spec (job r))) (length (rows m)) ->
  config m' = config m -> runtime_parallel_explore m' = runtime_parallel_explore m ->
  active_explore m' = active_explore m -> schedulers m' = schedulers m -> futures m' = futures m -> runs m' = runs m ->
  (status (job r) = COMPLETED -> cancel_requested (cancellation (job r)) = false) ->
  len (filter (is_active (keys m)) (table m)) + (if is_terminal (status (job r)) then 0 else 1) <= _MAX_ACTIVE_SUBAGENTS ->
  inv m'.
Proof.
  intros Hi Hfresh Er Et Ec Ep Ea Es Ef Eru Hcomp Hcap. pose proof (keys_app m m' r Er) as Ek.
  set (i := id (spec (job r))) in *.
  assert (Hk : forall l k, keys m' !! l = Some k -> keys m !! l = Some k \/ l = length (rows m) /\ k = key r).
  { intros l k. rewrite Ek, lookup_app_Some. intros [?|[Hl Hx]]; [by left|right].
    apply list_lookup_singleton_Some in Hx as [Hx ->]. unfold keys in *. rewrite length_map in *. split; [lia|done]. }
  assert (Hold : forall l k, keys m !! l = Some k -> keys m' !! l = Some k).
  { intros l k Hl. rewrite Ek. by apply lookup_app_l_Some. }
  assert (Hne : forall l k, keys m !! l = Some k -> k_id k <> i).
  { intros l k Hl. apply keys_lookup in Hl as (r' & Hr' & <-). apply Hfresh. by eapply list_elem_of_lookup_2. }
  assert (Hlen : forall l k, keys m !! l = Some k -> l <> length (rows m)).
  { intros l k Hl ->. apply lookup_lt_Some in Hl. unfold keys in Hl. rewrite length_map in Hl. lia. }
  assert (Hnew : keys m' !! length (rows m) = Some (key r)).
  { rewrite Ek. rewrite lookup_app_r by (unfold keys; by rewrite length_map). unfold keys. by rewrite length_map, Nat.sub_diag. }
  assert (Hnot : forall l, (i, l) ∉ table m).
  { intros l Hl. apply (inv_table m Hi) in Hl as (k & Hl & E). by apply Hne in Hl. }
  rewrite assoc_set_new in Et by done. pose proof Hi as []. split.
  - intros l1 l2 k1 k2 [H1|[-> ->]]%Hk [H2|[-> ->]]%Hk E; eauto; [by apply Hne in H1|by apply Hne in H2].
  - intros j l. rewrite Et. intros [Hl|Hl]%elem_of_app; [apply inv_table0 in Hl as (k & ? & ?); eauto|].
    apply list_elem_of_singleton in Hl. simplify_eq. eauto.
  - rewrite Et, fmap_app. cbn [fmap list_fmap fst]. apply NoDup_app. split_and!; [done| |apply NoDup_singleton].
    intros j Hj Hx. apply list_elem_of_singleton in Hx as ->. apply list_elem_of_fmap in Hj as ([j l] & -> & Hj). by apply Hnot in Hj.
  - intros j l. rewrite Es. intros Hl. apply inv_schedulers0 in Hl as (k & ? & ?). eauto.
  - intros f run. rewrite Eru. intros Hr. apply inv_runs0 in Hr as (k & ? & ? & ?). eauto.
  - intros f run k. rewrite Eru, Ef. intros Hr Hn Hl Hf. destruct (inv_runs0 _ _ Hr) as (k0 & Hk0 & _).
    destruct (Hk _ _ Hl) as [Hl0|[Ex _]]; [|by apply Hlen in Hk0]. apply (inv_current0 f run); [done..|].
    unfold find in *. rewrite Et in Hf. destruct Hf as [l Hf]. apply assoc_get_elem, elem_of_app in Hf as [Hf|Hf].
    + apply (assoc_get_of_elem (table m)) in Hf; eauto.
    + apply list_elem_of_singleton in Hf. injection Hf as Ex _. by destruct (Hne _ _ Hl0).
  - unfold slots. rewrite Ea, Eru. done.
  - by rewrite Ep, Ec, Ea.
  - intros l k [Hl|[-> ->]]%Hk; eauto.
  - rewrite Et, filter_app, len_app. etrans; [|exact Hcap]. apply Z.add_le_mono.
    + apply filter_weaken. intros [j l] Hl. apply inv_table0 in Hl as (k & Hl & _). rewrite Ek. apply is_active_app.
      by eapply lookup_lt_Some.
    + rewrite filter_cons. case_decide as Ha; [|cbn; by case_match].
      unfold is_active in Ha. cbn [snd] in Ha. rewrite Hnew in Ha. cbn in Ha. by rewrite Ha.
Qed.

(** ** Orderly runs *)

(** The closure of row [l] would start while the completion of its job's last
    run is not processed. *)
Definition overtakes (l : nat) (m : Manager) : bool :=
  match rows m !! l with
  | Some r => match assoc_get (futures m) (id (spec (job r))) with
    | Some f => match runs m !! f with Some run => future_done f m && negb (called run) | None => false end
    | None => false end
  | None => false
  end.

(** No job ever made has one of the identifiers. *)
Definition unused (l : list pystr) (m : Manager) : bool :=
  forallb (fun r => negb (bool_decide (id (spec (job r)) ∈ l))) (rows m).

Definition orderly_action (a : action) (m : Manager) : bool :=
  match a with
  | ARegister _ _ i => unused [i] m
  | ASchedule l => negb (overtakes l m)
  | ARestoreLog _ events => bool_decide (table m = []) && unused (latest (collect events)).*1 m
  | _ => true
  end.

Definition orderly (w : World) (lb : label) : bool :=
  match lb with LExec a _ => orderly_action a (manager w) | _ => true end.

Lemma unused_spec l m : unused l m = true -> forall r, r ∈ rows m -> id (spec (job r)) ∉ l.
Proof.
  intros Hu r Hr. unfold unused in Hu. rewrite forallb_forall in Hu. specialize (Hu r ltac:(by apply list_elem_of_In)).
  by apply negb_true_iff, bool_decide_eq_false in Hu.
Qed.

Lemma unused_one i m : unused [i] m = true -> forall r, r ∈ rows m -> id (spec (job r)) <> i.
Proof. intros Hu r Hr E. apply (unused_spec _ _ Hu r Hr). rewrite E. by left. Qed.

Lemma overtakes_spec l m r f run o : overtakes l m = false -> rows m !! l = Some r ->
  assoc_get (futures m) (id (spec (job r))) = Some f -> runs m !! f = Some run -> phase run = DONE o -> called run = true.
Proof.
  unfold overtakes. intros Ho Hl Hf Hr Hp. rewrite Hl, Hf, Hr in Ho. unfold future_done in Ho. rewrite Hr in Ho.
  destruct run as [l0 p c s]. cbn in *. subst p. by destruct c.
Qed.

Section Special.
Context `{TextDigest} `{Seconds} `{PyCoercions}.

Lemma register_inv now p b i m : inv m -> (forall r, r ∈ rows m -> id (spec (job r)) <> i) ->
  inv (register now p b i m).2 /\ keys_ext m (register now p b i m).2
  /\ forall l, (register now p b i m).1 = Ok l -> exists k, keys (register now p b i m).2 !! l = Some k /\ k_id k = i.
Proof.
  intros Hi Hf. unfold register. destruct (_ >=? _) eqn:E; cbn [fst snd]; [by split_and!; [|by apply keys_ext_same|]|].
  zbool. match goal with |- context [rows m ++ [?r0]] => set (r := r0) end. split_and!.
  - eapply (inv_new_row m _ r); try done. rewrite <-active_count. cbn. lia.
  - by apply (keys_ext_app m _ [r]).
  - intros l [= <-]. exists (key r). split; [|done]. unfold keys. cbn [rows set_table set_rows]. rewrite map_app.
    rewrite lookup_app_r by (by rewrite length_map). by rewrite length_map, Nat.sub_diag.
Qed.

Lemma schedule_inv l m : inv m -> overtakes l m = false -> inv (_schedule l m).2 /\ rows (_schedule l m).2 = rows m.
Proof.
  intros Hi Ho. unfold _schedule. destruct (rows m !! l) as [r|] eqn:Er; [|done]. set (i := id (spec (job r))).
  case_match eqn:E; [|done]. cbn [snd]. split; [|done].
  apply andb_true_iff in E as [E Hidle]. apply andb_true_iff in E as [Hready _].
  destruct (find i m) as [l'|] eqn:Ef; [|done]. cbn in Hready. unfold job_at in Hready.
  pose proof (find_key m i l' Hi Ef) as (k & Hk & Ek). pose proof Hk as Hk0. apply keys_lookup in Hk as (r' & Er' & <-).
  assert (l' = l) as -> by (apply (inv_ids m Hi l' l (key r') (key r)); [done|apply keys_lookup; eauto|done]).
  rewrite Er in Er'. injection Er' as <-. rewrite Er in Hready. cbn in Hready.
  assert (Hq : status (job r) = QUEUED \/ status (job r) = RESUMING).
  { destruct (from_history r); apply bool_decide_eq_true in Hready; [by right|set_solver]. }
  assert (Hfree : forall f run, runs m !! f = Some run -> called run = false -> runner_row run = l -> False).
  { intros f run Hr Hn El. subst l. pose proof (inv_current m Hi f run (key r) Hr Hn Hk0 ltac:(by rewrite Ek, Ef)) as Hc.
    rewrite Ek in Hc. rewrite Hc in Hidle. unfold future_done in Hidle. rewrite Hr in Hidle.
    destruct run as [row p c s]. destruct p; try done.
    pose proof (overtakes_spec _ m r f _ o Ho Er Hc Hr eq_refl) as Hcc. cbn in *. congruence. }
  set (run := {| runner_row := l; phase := PENDING; called := false; kept_slot := false |}).
  assert (Hl : forall f run', (runs m ++ [run]) !! f = Some run' -> runs m !! f = Some run' \/ f = length (runs m) /\ run' = run).
  { intros f run'. rewrite lookup_app_Some. intros [?|[Hx Hy]]; [by left|right].
    apply list_lookup_singleton_Some in Hy as [Hy ->]. split; [lia|done]. }
  pose proof Hi as []. split; cbn; try done.
  - intros f run' [Hr|[-> ->]]%Hl; [eauto|]. exists (key r). split_and!; [done| |done]. intros _. split; cbn.
    + destruct Hq as [-> | ->]; done.
    + intros _. by right.
  - intros f run' k' Hr Hn Hk' Hf. rewrite assoc_get_set. apply Hl in Hr as [Hr|[-> ->]].
    + rewrite decide_False; [eauto|]. intros E. apply (Hfree f run' Hr Hn).
      apply (inv_ids0 _ _ k' (key r)); [done|done|]. by rewrite E, Ek.
    + change (keys m !! l = Some k') in Hk'. rewrite Hk0 in Hk'. injection Hk' as <-. by rewrite decide_True.
  - unfold slots. cbn [runs set_runs set_futures]. rewrite filter_app, len_app.
    change (filter (fun r => holds_slot r = true) [run]) with (@nil Run). cbn [active_explore set_runs set_futures].
    rewrite inv_slots0, len_nil. unfold slots. lia.
Qed.

(** ** Restoration *)

Lemma restore_jobs_ids now p l js : restore_jobs now p l = Ok js ->
  map (fun j => id (spec j)) js.*1 = l.*1
  /\ Forall (fun j => cancel_requested (cancellation j) = false) js.*1.
Proof.
  revert js. induction l as [|[i d] l IH]; intros js E; cbn in E.
  - injection E as <-. done.
  - destruct (restore_job now p i d) as [j|] eqn:Ej; [|done]. cbn in E.
    destruct (restore_jobs now p l) as [rest|]; [|done]. cbn in E. injection E as <-.
    destruct (IH _ eq_refl) as [E1 E2]. cbn. unfold restore_job in Ej.
    repeat (apply bind_ok in Ej as (? & _ & Ej)). injection Ej as <-. cbn. rewrite E1. split; [done|by constructor].
Qed.

Lemma latest_keys events : NoDup (latest (collect events)).*1.
Proof.
  unfold collect. assert (Hn : NoDup (latest nothing_collected).*1) by constructor. revert Hn.
  generalize nothing_collected. induction events as [|[k d] l IH]; intros c Hn; [done|]. cbn [foldl]. apply IH.
  unfold collect_event. repeat case_match; cbn; try done. by apply assoc_set_NoDup.
Qed.

(** The active jobs among those of a list. *)
Definition active_jobs (l : list SubagentJob) : list SubagentJob := filter (fun j => is_terminal (status j) = false) l.

(** At most four restored jobs are active. *)
Lemma drop_overflow_bound now l : NoDup (map (fun j => id (spec j)) l) ->
  len (active_jobs (drop_overflow now l)) <= _MAX_ACTIVE_SUBAGENTS.
Proof.
  intros Hd. unfold drop_overflow. set (over := overflow_ids l).
  set (sorted := stable_sort (fun a b => created_at (spec b) <=? created_at (spec a)) (active_jobs l)).
  set (kept := filter (fun j => is_terminal (status j) = false /\ id (spec j) ∉ over) l).
  assert (El : len (active_jobs (map (fun j => if bool_decide (id (spec j) ∈ over) then cancel_overflow now j else j) l)) = len kept).
  { subst kept. generalize over. clear. intros over. unfold active_jobs. induction l as [|j l IH]; [done|]. cbn [map]. rewrite !filter_cons.
    case_bool_decide as Eo; cbn; repeat case_decide; try (exfalso; naive_solver); rewrite ?len_cons, ?IH; done. }
  rewrite El. assert (Hsub : map (fun j => id (spec j)) kept ⊆+ map (fun j => id (spec j)) (take 4 sorted)).
  { apply NoDup_submseteq.
    - eapply sublist_NoDup; [exact Hd|]. apply (fmap_sublist (fun j => id (spec j))). apply sublist_filter.
    - intros i (j & -> & [[Ht Ho] Hj]%list_elem_of_filter)%list_elem_of_fmap.
      assert (Hs : j ∈ sorted).
      { unfold sorted. rewrite stable_sort_Permutation. by apply list_elem_of_filter. }
      rewrite <-(take_drop 4 sorted) in Hs. apply elem_of_app in Hs as [Hs|Hs]; [by apply list_elem_of_fmap; eauto|].
      destruct Ho. apply list_elem_of_fmap. exists j. split; [done|]. exact Hs. }
  apply submseteq_length in Hsub. rewrite !length_map, length_take in Hsub. unfold len, _MAX_ACTIVE_SUBAGENTS. lia.
Qed.

Lemma drop_overflow_facts now l :
  map (fun j => id (spec j)) (drop_overflow now l) = map (fun j => id (spec j)) l
  /\ (Forall (fun j => cancel_requested (cancellation j) = false) l ->
      Forall (fun j => cancel_requested (cancellation j) = false) (drop_overflow now l)).
Proof.
  unfold drop_overflow. generalize (overflow_ids l). intros over. split.
  - rewrite map_map. apply map_ext. intros j. by case_bool_decide.
  - intros Hl. apply Forall_fmap. eapply Forall_impl; [exact Hl|]. intros j Hj. cbn. by case_bool_decide.
Qed.

Lemma add_all_inv l m : inv m ->
  NoDup (map (fun j => id (spec j)) l) ->
  (forall r, r ∈ rows m -> id (spec (job r)) ∉ map (fun j => id (spec j)) l) ->
  Forall (fun j => cancel_requested (cancellation j) = false) l ->
  len (filter (is_active (keys m)) (table m)) + len (active_jobs l) <= _MAX_ACTIVE_SUBAGENTS ->
  inv (foldl (fun m j => add_restored j m) m l)
  /\ exists rs, rows (foldl (fun m j => add_restored j m) m l) = rows m ++ rs.
Proof.
  revert m. induction l as [|j l IH]; intros m Hi Hd Hf Hc Hcap; cbn [foldl].
  { split; [done|]. exists []. by rewrite app_nil_r. }
  cbn [map] in Hd, Hf. apply NoDup_cons in Hd as [Hj Hd]. apply Forall_cons in Hc as [Hcj Hc].
  unfold active_jobs in Hcap. rewrite filter_cons in Hcap. fold (active_jobs l) in Hcap.
  assert (Hr : exists r, rows (add_restored j m) = rows m ++ [r] /\ job r = j
     /\ table (add_restored j m) = assoc_set (table m) (id (spec j)) (length (rows m))) by (unfold add_restored; eauto).
  destruct Hr as (r & Er & Ej & Et).
  assert (Hi' : inv (add_restored j m)).
  { eapply (inv_new_row m _ r); try done; rewrite ?Ej; try done.
    - intros r' Hr' E. apply (Hf r' Hr'). rewrite E. by left.
    - destruct (is_terminal (status j)) eqn:E; case_decide; rewrite ?len_cons in Hcap; try congruence; pose proof (len_nonneg (active_jobs l)); lia. }
  destruct (IH (add_restored j m) Hi' Hd) as [Hi2 [rs Ers]]; [|done| |split; [done|]; exists (r :: rs); by rewrite Ers, Er, <-app_assoc].
  - intros r'. rewrite Er. intros [Hr'|Hr']%elem_of_app.
    + specialize (Hf r' Hr'). intros Hx. apply Hf. by right.
    + apply list_elem_of_singleton in Hr' as ->. by rewrite Ej.
  - assert (Hcount : len (filter (is_active (keys (add_restored j m))) (table (add_restored j m)))
       <= len (filter (is_active (keys m)) (table m)) + (if is_terminal (status j) then 0 else 1)).
    { rewrite Et. rewrite assoc_set_new.
      2:{ intros l' Hl'. apply (inv_table m Hi) in Hl' as (k & Hk & E). apply keys_lookup in Hk as (r' & Hr' & <-).
          apply (Hf r'); [by eapply list_elem_of_lookup_2|]. rewrite <-E. by left. }
      rewrite (keys_app _ _ _ Er), filter_app, len_app. apply Z.add_le_mono.
      - apply filter_weaken. intros [i' l'] Hl. apply (inv_table m Hi) in Hl as (k & Hl & _). apply is_active_app.
        by eapply lookup_lt_Some.
      - rewrite filter_cons. destruct (decide (is_active _ (id (spec j), _))) as [Ha|_];
          [|change (0 <= if is_terminal (status j) then 0 else 1); destruct (is_terminal _); lia].
        unfold is_active in Ha. cbn [snd] in Ha.
        rewrite lookup_app_r in Ha by (unfold keys; by rewrite length_map). unfold keys in Ha.
        rewrite length_map, Nat.sub_diag in Ha. cbn in Ha. rewrite Ej in Ha. by rewrite Ha. }
    destruct (is_terminal (status j)) eqn:E; case_decide; rewrite ?len_cons in Hcap; try congruence; lia.
Qed.

Lemma quiet_directives l m : quiet m (foldl add_directive m l).
Proof.
  revert m. induction l as [|d l IH]; intros m; cbn; [reflexivity|]. etrans; [|apply IH].
  unfold add_directive. destruct (find _ m); [|reflexivity]. apply quiet_row. intros r _. reflexivity.
Qed.

Lemma clear_inv p m : inv m -> inv (clear_for_restore p m).
Proof.
  intros Hi. assert (E : forall m' : Manager, m' = bind_root_agent p m -> inv m') by
    (intros m' ->; eapply inv_quiet; [|exact Hi]; unfold bind_root_agent; case_bool_decide; [frame|reflexivity]).
  specialize (E _ eq_refl). unfold clear_for_restore. destruct E. split; cbn; try done; try constructor; try by apply NoDup_nil.
  - intros ? ? ?%elem_of_nil. done.
Qed.

Lemma install_inv now p events r m : inv m -> restore_log now p events = Ok r ->
  orderly_action (ARestoreLog p events) m = true ->
  inv (install_restored p r m) /\ keys_ext m (install_restored p r m).
Proof.
  intros Hi E [Ht%bool_decide_eq_true Hf]%andb_true_iff. pose proof (unused_spec _ _ Hf) as Hf'. clear Hf. rename Hf' into Hf.
  unfold restore_log in E. apply bind_ok in E as (js & Ejs & E).
  apply bind_ok in E as (ms & _ & E). apply bind_ok in E as (ds & _ & E). injection E as <-.
  apply restore_jobs_ids in Ejs as [Eid Ec]. destruct (drop_overflow_facts now js.*1) as [Eo Ho].
  pose proof (latest_keys events) as Hd. unfold install_restored. cbn [restored pending_directives pending_messages].
  set (m0 := set_owner_agent_id _ _).
  assert (Hq0 : quiet m m0) by frame. assert (Hi0 : inv m0) by by eapply inv_quiet.
  destruct (add_all_inv (drop_overflow now js.*1) m0 Hi0) as [Hi1 [rs Ers]].
  - by rewrite Eo, Eid.
  - intros r Hr. rewrite Eo, Eid. by apply Hf.
  - by apply Ho.
  - cbn. rewrite Ht. cbn. apply drop_overflow_bound. by rewrite Eid.
  - set (m1 := foldl _ m0 _) in *. pose proof (quiet_directives (stable_sort (fun a b => d_seq a <=? d_seq b) ds) m1) as Hq2.
    set (m2 := foldl add_directive m1 _) in *.
    assert (Hfin : forall m3, quiet m2 m3 -> inv m3 /\ keys_ext m m3).
    { intros m3 Hq3. assert (Hq : quiet m1 m3) by by etrans. split; [by eapply inv_quiet|].
      intros l k Hk. destruct (keys_ext_app m m1 rs) with (l := l) (k := k) as (k1 & Hk1 & X1); [exact Ers|done|].
      destruct (keys_ext_quiet _ _ Hq l k1 Hk1) as (k2 & Hk2 & X2). exists k2. split; [done|].
      destruct X1 as [? ? ? ? T1], X2 as [? ? ? ? T2]. split; try congruence; auto. intros Hx. destruct (T1 Hx) as [Hy ?].
      destruct (T2 Hy). split; [done|congruence]. }
    apply Hfin. case_match; frame.
Qed.
End Special.

(** ** Runners and callbacks *)

(** What settling a job keeps of it. *)
Record settles_job (j j' : SubagentJob) : Prop := {
  sj_spec : spec j' = spec j;
  sj_cancellation : cancellation j' = cancellation j;
  sj_worker : worker_generation (activity j') = worker_generation (activity j);
  sj_injected : injected_to_parent (delivery j') = injected_to_parent (delivery j);
  sj_terminal : cancel_requested (cancellation j) = true -> is_terminal (status j') = true;
}.

Section Settling.
Context `{TextDigest} `{Seconds} `{PyCoercions}.

Lemma quarantine_settles st j : is_terminal st = true -> settles_job j (quarantine st j).
Proof. intros Hs. unfold quarantine. cbn. case_bool_decide as E; split; cbn; try done. intros _. by rewrite E. Qed.

Lemma settles_touch j j' j'' : settles_job j' j'' -> spec j' = spec j -> cancellation j' = cancellation j ->
  activity j' = activity j -> delivery j' = delivery j -> settles_job j j''.
Proof. intros [] E1 E2 E3 E4. split; try congruence. rewrite <-E2. done. Qed.

Lemma settle_rest_settles current verify v text j : cancel_requested (cancellation j) = false ->
  settles_job j (s_job (settle_rest current verify v text j)).
Proof. intros Hc. unfold settle_rest. repeat case_match; split; cbn; congruence. Qed.

Lemma park_settles r w j : cancel_requested (cancellation j) = false -> settles_job j (s_job (park r w j)).
Proof. intros Hc. unfold park. cbn. case_match; split; cbn; congruence. Qed.

Lemma settle_fresh_settles current w verify now o j : settles_job j (s_job (settle_fresh current w verify now o j)).
Proof.
  unfold settle_fresh. destruct o as [|e|v]; [by split|by split|].
  set (j1 := match v with RText _ => _ | RResult r => _ end).
  assert (E1 : spec j1 = spec j) by (by destruct v). assert (E2 : cancellation j1 = cancellation j) by (by destruct v).
  assert (E3 : activity j1 = activity j) by (by destruct v). assert (E4 : delivery j1 = delivery j) by (by destruct v).
  destruct (cancel_requested (cancellation j1)) eqn:Ec.
  { eapply settles_touch; [apply quarantine_settles|done..]. destruct v; [done|]. by case_match. }
  destruct (returned_text v) as [text|e]; [|split; cbn; congruence].
  destruct v as [t|r]; [eapply settles_touch; [by apply settle_rest_settles|done..]|].
  repeat (case_match; [first [ split; cbn; congruence | eapply settles_touch; [by apply park_settles|done..] ]|]).
  eapply settles_touch; [by apply settle_rest_settles|done..].
Qed.

Lemma settle_restored_settles w now o j : settles_job j (s_job (settle_restored w now o j)).
Proof.
  unfold settle_restored. destruct o as [|e|v]; [by split|by split|].
  set (j1 := match v with RText _ => _ | RResult r => _ end).
  assert (E1 : spec j1 = spec j) by (by destruct v). assert (E2 : cancellation j1 = cancellation j) by (by destruct v).
  assert (E3 : activity j1 = activity j) by (by destruct v). assert (E4 : delivery j1 = delivery j) by (by destruct v).
  destruct (cancel_requested (cancellation j1)) eqn:Ec.
  { eapply settles_touch; [|exact E1|exact E2|exact E3|exact E4]. cbn.
    destruct (quarantine_settles CANCELLED j1 eq_refl) as [Q1 Q2 Q3 Q4 Q5]. by split. }
  destruct v as [t|r]; [split; cbn; congruence|]. case_match; [|split; cbn; congruence].
  eapply settles_touch; [by apply park_settles|done..].
Qed.

(** A cancelled job never completes. *)
Lemma settled_completes current w verify now o j :
  status (s_job (settle_fresh current w verify now o j)) = COMPLETED \/ status (s_job (settle_restored w now o j)) = COMPLETED ->
  cancel_requested (cancellation j) = false \/ status j = COMPLETED.
Proof.
  destruct (cancel_requested (cancellation j)) eqn:Ec; [|by left]. intros Hs. right.
  assert (Hq : forall st j', st <> COMPLETED -> status j' = status j -> status (quarantine st j') = COMPLETED -> status j = COMPLETED).
  { intros st j' Hn E. unfold quarantine. cbn. case_bool_decide; cbn; congruence. }
  destruct o as [|e|v]; [by destruct Hs..|]. revert Hs. unfold settle_fresh, settle_restored.
  destruct v as [t|r]; cbn; rewrite Ec; intros [Hs|Hs]; revert Hs; try (by apply Hq); cbn.
  apply Hq; [by case_match|done].
Qed.
End Settling.

Lemma unique_run m f1 f2 r1 r2 k : inv m -> runs m !! f1 = Some r1 -> runs m !! f2 = Some r2 ->
  called r1 = false -> called r2 = false -> keys m !! runner_row r1 = Some k -> runner_row r2 = runner_row r1 ->
  is_Some (find (k_id k) m) -> f1 = f2.
Proof.
  intros Hi H1 H2 N1 N2 Hk E Hf. pose proof (inv_current m Hi f1 r1 k H1 N1 Hk Hf) as C1.
  rewrite <-E in Hk. pose proof (inv_current m Hi f2 r2 k H2 N2 Hk Hf) as C2. congruence.
Qed.

(** A job changes in a way that suits the runs whose end is not processed. *)
Lemma inv_row m l g r : inv m -> rows m !! l = Some r -> spec (job (g r)) = spec (job r) ->
  (is_terminal (status (job r)) = true -> is_terminal (status (job (g r))) = true) ->
  (status (job (g r)) = COMPLETED -> cancel_requested (cancellation (job (g r))) = false) ->
  (forall f run, runs m !! f = Some run -> called run = false -> runner_row run = l -> run_ok (key (g r)) (phase run)) ->
  inv (update_row l g m).
Proof.
  intros Hi Hr Hs Ht Hc Hok.
  assert (Hk : forall l' k', keys (update_row l g m) !! l' = Some k' ->
    l' = l /\ k' = key (g r) \/ l' <> l /\ keys m !! l' = Some k').
  { intros l' k' (r' & Hr' & <-)%keys_lookup. cbn in Hr'. rewrite list_lookup_alter in Hr'. case_decide as E.
    - subst l'. rewrite Hr in Hr'. cbn in Hr'. injection Hr' as <-. by left.
    - right. split; [done|]. apply keys_lookup. eauto. }
  assert (Hold : forall l' k, keys m !! l' = Some k -> exists k', keys (update_row l g m) !! l' = Some k' /\ k_id k' = k_id k
    /\ (is_terminal (k_status k) = true -> is_terminal (k_status k') = true) /\ (l' <> l -> k' = k) /\ (l' = l -> k' = key (g r))).
  { intros l' k (r' & Hr' & <-)%keys_lookup. destruct (decide (l' = l)) as [->|E].
    - rewrite Hr in Hr'. injection Hr' as <-. exists (key (g r)). split_and!; try done.
      + apply keys_lookup. exists (g r). split; [|done]. cbn. rewrite list_lookup_alter, decide_True, Hr by done. done.
      + unfold k_id, key. cbn. by rewrite Hs.
    - exists (key r'). split_and!; try done. apply keys_lookup. exists r'. split; [|done]. cbn.
      rewrite list_lookup_alter, decide_False by done. done. }
  pose proof Hi as []. assert (Hkl : keys m !! l = Some (key r)) by (apply keys_lookup; eauto).
  assert (Hid : forall l' k', keys (update_row l g m) !! l' = Some k' -> exists k, keys m !! l' = Some k /\ k_id k' = k_id k).
  { intros l' k' [[-> ->]|[_ H']]%Hk; [|by exists k']. exists (key r). split; [done|]. unfold k_id, key. cbn. by rewrite Hs. }
  split; try done.
  - intros l1 l2 k1 k2 (j1 & H1 & E1)%Hid (j2 & H2 & E2)%Hid E. apply (inv_ids0 l1 l2 j1 j2); congruence.
  - intros i l' Hl. cbn in Hl. apply inv_table0 in Hl as (k & H1 & <-). apply Hold in H1 as (k' & ? & ? & _). eauto.
  - intros i l' Hl. cbn in Hl. apply inv_schedulers0 in Hl as (k & H1 & <-). apply Hold in H1 as (k' & ? & ? & _). eauto.
  - intros f run Hf. cbn in Hf. destruct (inv_runs0 _ _ Hf) as (k & H1 & H2 & H3).
    pose proof H1 as H1'. apply Hold in H1 as (k' & H1 & _ & _ & Hne & Heq). exists k'. split_and!; [done| |done]. intros Hn.
    destruct (decide (runner_row run = l)) as [E|E]; [rewrite (Heq E); eauto|rewrite (Hne E); eauto].
  - intros f run k' Hf Hn (k & H1 & ->)%Hid Hx. cbn in Hf. eapply inv_current0; eauto.
  - intros l' k' [[-> ->]|[_ H1]]%Hk; cbn; eauto.
  - change (table (update_row l g m)) with (table m). etrans; [|exact inv_capacity0]. apply filter_weaken. intros [i l'] Hl. apply inv_table0 in Hl as (k & H1 & _).
    unfold is_active. cbn [snd]. rewrite H1. apply Hold in H1 as (k' & -> & _ & Hterm & _). intros Ha.
    destruct (is_terminal (k_status k)) eqn:E; [|done]. rewrite Hterm in Ha; done.
Qed.

Section Steps.
Context `{TextDigest} `{Seconds} `{PyCoercions}.

Lemma runner_done_inv m f run o : inv m -> runs m !! f = Some run -> is_waiting (phase run) -> inv (runner_done f o m).
Proof.
  intros Hi Hr Hp. assert (Hn : called run = false) by (eapply not_called; [done..|]; destruct Hp as [-> | ->]; done).
  eapply inv_run_still; [done|done|done|cbn; eauto|done| |].
  - cbn. intros k Hk _. destruct (inv_run_ok _ _ _ _ Hi Hr Hn Hk) as [Ht _]. split; [done|]. by intros [].
  - unfold holds_slot. cbn. by destruct Hp as [-> | ->].
Qed.

(** Starting a worker on a job that waits. *)
Lemma runner_enter_inv now m f run r : inv m -> runs m !! f = Some run -> phase run = WAITING ->
  rows m !! runner_row run = Some r ->
  inv (runner_enter now f (runner_row run) r m) /\ keys_ext m (runner_enter now f (runner_row run) r m).
Proof.
  intros Hi Hr Hp Hrow. assert (Hn : called run = false) by (eapply not_called; [done..|]; rewrite Hp; done).
  assert (Hk : keys m !! runner_row run = Some (key r)) by (apply keys_lookup; eauto).
  pose proof (inv_run_ok _ _ _ _ Hi Hr Hn Hk) as [Hterm Hwait].
  assert (Hdone : forall o, inv (runner_done f o m) /\ keys_ext m (runner_done f o m)).
  { intros o. split; [|by apply keys_ext_same]. eapply runner_done_inv; [done..|]. rewrite Hp. by right. }
  unfold runner_enter. destruct (_ >=? _) eqn:Ea.
  { case_match; [apply Hdone|split; [done|by apply keys_ext_same]]. }
  case_match; [apply Hdone|]. destruct (cancel_event r || is_shutdown m) eqn:Ecan; [apply Hdone|].
  apply orb_false_iff in Ecan as [Eev _]. zbool. pose proof (inv_bounds m Hi) as [Hb1 Hb2].
  assert (Henter : forall e, inv (set_active_explore (active_explore m + 1) (update_run f (to_phase (ENTERED e)) m))).
  { intros e. eapply inv_run; [done|exact Hr|done|cbn; congruence|done| | |lia].
    - cbn. intros k Hk' _. rewrite Hk in Hk'. injection Hk' as <-. split; [done|]. by intros [].
    - unfold holds_slot. cbn. rewrite Hp. lia. }
  change (find (id (spec (job r))) (set_active_explore ?x m)) with (find (id (spec (job r))) m).
  destruct (find (id (spec (job r))) m) as [t|] eqn:Ef; cbn [mbind option_bind];
    [|split; [exact (Henter _)|by apply keys_ext_same]].
  pose proof (find_key m _ t Hi Ef) as (kt & Hkt & Et).
  assert (t = runner_row run) as -> by (apply (inv_ids m Hi t _ kt (key r)); done).
  unfold job_at. cbn [rows set_active_explore]. rewrite Hrow. cbn [fmap option_fmap option_map].
  match goal with |- context [ENTERED ?e0] => specialize (Henter e0); set (e := e0) in * end.
  match goal with |- context [update_job _ ?g _] => set (start := g) end.
  set (m1 := set_active_explore _ _) in Henter.
  assert (Hrow1 : rows m1 !! runner_row run = Some r) by done.
  match goal with |- inv ?m2 /\ _ => change m2 with (update_job (runner_row run) start m1) end.
  assert (Hstat : status (job r) = QUEUED \/ status (job r) = RESUMING).
  { destruct Hwait as [He|Hq]; [rewrite Hp; by right| |done]. cbn in He. congruence. }
  split.
  - eapply inv_row; [exact Henter|exact Hrow1|done| |done|].
    + destruct Hstat as [-> | ->]; done.
    + intros f' run' Hf' Hn' El. cbn in Hf'. rewrite list_lookup_alter in Hf'. case_decide as Eff.
      * subst f'. rewrite Hr in Hf'. cbn in Hf'. injection Hf' as <-. split; cbn; [done|]. by intros [].
      * destruct Eff. eapply (unique_run m f f' run run' (key r)); done.
  - intros l k Hl. apply keys_lookup in Hl as (r0 & Hr0 & <-). destruct (decide (l = runner_row run)) as [->|Hne].
    + rewrite Hrow in Hr0. injection Hr0 as <-. eexists. split.
      * apply keys_lookup. eexists. split; [|done]. cbn. rewrite list_lookup_alter, decide_True, Hrow by done. done.
      * split; cbn; try done. destruct Hstat as [-> | ->]; done.
    + exists (key r0). split; [|apply kext_refl]. apply keys_lookup. exists r0. split; [|done]. cbn.
      by rewrite list_lookup_alter, decide_False.
Qed.

Definition is_busy (p : Phase) : Prop :=
  match p with ENTERED _ | STARTED _ | DELIVERING _ _ _ | WORKING _ => True | _ => False end.

Lemma busy_facts m f run : inv m -> runs m !! f = Some run -> is_busy (phase run) -> called run = false /\ holds_slot run = true.
Proof.
  intros Hi Hr Hb. split; [eapply not_called; [done..|]; intros o E; by rewrite E in Hb|].
  unfold holds_slot. by destruct (phase run).
Qed.

(** A runner at work moves on, after quiet changes. *)
Lemma busy_moves m m' f run p : inv m -> quiet m m' -> runs m !! f = Some run -> is_busy (phase run) -> is_busy p ->
  inv (update_run f (to_phase p) m').
Proof.
  intros Hi Hq Hr Hb Hp. assert (Hi' : inv m') by by eapply inv_quiet.
  destruct (busy_facts m f run Hi Hr Hb) as [Hn Hs]. pose proof Hq as [(_&_&_&_&_&_&Eru) _]. rewrite <-Eru in Hr.
  eapply inv_run_still; [done|done|done|cbn; congruence|done| |].
  - cbn. intros k Hk _. destruct (inv_run_ok _ _ _ _ Hi' Hr Hn Hk) as [Ht _]. split; [done|]. intros [-> | ->]; done.
  - rewrite Hs. unfold holds_slot. cbn. by destruct p.
Qed.

(** A runner at work ends, giving its slot back or not. *)
Lemma busy_ends m f run o : inv m -> runs m !! f = Some run -> is_busy (phase run) -> inv (release_slot (runner_done f o m)).
Proof.
  intros Hi Hr Hb. destruct (busy_facts m f run Hi Hr Hb) as [Hn Hs].
  assert (Hpos : 1 <= active_explore m).
  { rewrite (inv_slots m Hi). unfold slots. pose proof (list_elem_of_split_length _ _ _ Hr) as (l1 & l2 & -> & _).
    rewrite filter_app, filter_cons, len_app, decide_True, len_cons by done. pose proof (len_nonneg (filter (fun r => holds_slot r = true) l1)).
    pose proof (len_nonneg (filter (fun r => holds_slot r = true) l2)). lia. }
  unfold release_slot. eapply inv_run; [done|exact Hr|done|cbn; eauto|done| | |].
  - cbn. intros k Hk _. destruct (inv_run_ok _ _ _ _ Hi Hr Hn Hk) as [Ht _]. split; [done|]. by intros [].
  - rewrite Hs. cbn. lia.
  - cbn. pose proof (inv_bounds m Hi). lia.
Qed.

Lemma busy_fails m m' f run e : inv m -> quiet m m' -> runs m !! f = Some run -> is_busy (phase run) -> inv (runner_fails f e m').
Proof.
  intros Hi Hq Hr Hb. assert (Hi' : inv m') by by eapply inv_quiet.
  destruct (busy_facts m f run Hi Hr Hb) as [Hn Hs]. pose proof Hq as [(_&_&_&_&_&_&Eru) _]. rewrite <-Eru in Hr.
  eapply inv_run_still; [done|done|done|cbn; eauto|done| |done].
  cbn. intros k Hk _. destruct (inv_run_ok _ _ _ _ Hi' Hr Hn Hk) as [Ht _]. split; [done|]. by intros [].
Qed.

Lemma keys_ext_run f g m m' : quiet m m' -> keys_ext m (update_run f g m').
Proof. intros Hq. exact (keys_ext_quiet _ _ Hq). Qed.

Lemma quiet_publish_tracked r t m : quiet m (publish_tracked r t m).
Proof. unfold publish_tracked. calm. Qed.

Lemma runner_step_inv now m f run r m' : inv m -> runs m !! f = Some run -> rows m !! runner_row run = Some r ->
  runner_step now f (runner_row run) r m (phase run) m' -> inv m' /\ keys_ext m m'.
Proof.
  intros Hi Hr Hrow Hs. remember (phase run) as p eqn:Ep. destruct Hs.
  - split; [|by apply keys_ext_same]. assert (Hn : called run = false) by (eapply not_called; [done..|]; rewrite <-Ep; done).
    eapply inv_run_still; [done|done|done|cbn; congruence|done| |by unfold holds_slot; rewrite <-Ep].
    cbn. intros k Hk _. destruct (inv_run_ok _ _ _ _ Hi Hr Hn Hk) as [Ht Hw]. split; [done|]. intros _. apply Hw. rewrite <-Ep. by left.
  - by apply runner_enter_inv.
  - pose proof (quiet_publish_tracked r (tracked e) m) as Hq. split; [|by apply keys_ext_run].
    eapply busy_moves; try done. by rewrite <-Ep.
  - assert (Hq : quiet m m') by (match goal with HH : _ \/ _ |- _ => destruct HH as [-> | ->] end; [reflexivity|apply quiet_publish_tracked]).
    split; [|by apply keys_ext_run]. eapply busy_fails; try done. by rewrite <-Ep.
  - unfold runner_drain. destruct (if _ : bool then _ else _) as [l m1] eqn:E1.
    assert (Hq : quiet m m1).
    { case_match; [|by injection E1 as <- <-]. pose proof (quiet_take_messages (id (spec (job r))) m) as Hq. by rewrite E1 in Hq. }
    split; [|by apply keys_ext_run]. eapply busy_moves; try done. by rewrite <-Ep.
  - assert (Hq : quiet m (publish_directive d true m)) by apply quiet_record_root. split; [|by apply keys_ext_run].
    eapply busy_moves; try done. by rewrite <-Ep.
  - assert (Hq : quiet m m') by (match goal with HH : _ \/ _ |- _ => destruct HH as [-> | ->] end; [reflexivity|apply quiet_record_root]).
    split; [|by apply keys_ext_run]. eapply busy_fails; try done. by rewrite <-Ep.
  - unfold runner_launch. assert (Hb : is_busy (phase run)) by (by rewrite <-Ep). case_match; split; try by apply keys_ext_same.
    + by eapply busy_ends.
    + eapply (busy_moves m m); try done.
  - assert (Hb : is_busy (phase run)) by (by rewrite <-Ep). split; [by eapply busy_ends|by apply keys_ext_same].
Qed.

Lemma keys_ext_trans m1 m2 m3 : keys_ext m1 m2 -> keys_ext m2 m3 -> keys_ext m1 m3.
Proof.
  intros H12 H23 l k Hk. apply H12 in Hk as (k2 & Hk & [? ? ? ? T1]). apply H23 in Hk as (k3 & Hk & [? ? ? ? T2]).
  exists k3. split; [done|]. split; try congruence; auto. intros Ht. destruct (T1 Ht) as [Ht2 ?]. destruct (T2 Ht2). split; [done|congruence].
Qed.

Lemma quiet_enqueue_fresh l j v m : quiet m (enqueue_fresh l j v m).
Proof.
  unfold enqueue_fresh. case_match; [|reflexivity]. etrans; [|apply quiet_enqueue].
  destruct (if _ : bool then _ else _) as [d|]; [|reflexivity]. calm.
Qed.

(** The completion of a run settles its job. *)
Lemma on_done_inv now m f run r o : inv m -> runs m !! f = Some run -> phase run = DONE o -> called run = false ->
  rows m !! runner_row run = Some r ->
  inv (on_done now f (runner_row run) r o m).2 /\ keys_ext m (on_done now f (runner_row run) r o m).2.
Proof.
  intros Hi Hr Hp Hn Hrow. unfold on_done. set (m1 := update_run f _ m).
  assert (Hi1 : inv m1).
  { eapply inv_run_still; [done|exact Hr|done|cbn; eauto|done|done|done]. }
  assert (Hx1 : keys_ext m m1) by by apply keys_ext_same.
  change (find (id (spec (job r))) m1) with (find (id (spec (job r))) m).
  destruct (find (id (spec (job r))) m) as [l|] eqn:Ef; cbn [mbind option_bind]; [|done].
  pose proof (find_key m _ l Hi Ef) as (kt & Hkt & Et).
  assert (Hk : keys m !! runner_row run = Some (key r)) by (apply keys_lookup; eauto).
  assert (l = runner_row run) as -> by (apply (inv_ids m Hi l _ kt (key r)); done).
  change (rows m1) with (rows m). rewrite Hrow. cbn [fmap option_fmap option_map].
  set (s := if from_history r then _ else _).
  assert (Hs : settles_job (job r) (s_job s)).
  { unfold s. destruct (from_history r); [apply settle_restored_settles|apply settle_fresh_settles]. }
  destruct (inv_run_ok _ _ _ _ Hi Hr Hn Hk) as [Hterm _]. cbn in Hterm.
  assert (Ht : is_terminal (status (job r)) = true -> is_terminal (status (s_job s)) = true)
    by (intros E; by apply (sj_terminal _ _ Hs), Hterm).
  set (m2 := update_job (runner_row run) (fun _ => s_job s) m1).
  assert (Hi2 : inv m2).
  { eapply inv_row; [exact Hi1|exact Hrow|by apply Hs|exact Ht| |].
    - cbn. intros Ec. rewrite (sj_cancellation _ _ Hs).
      destruct (cancel_requested (cancellation (job r))) eqn:Ecan; [|done].
      assert (Hd : status (job r) = COMPLETED).
      { unfold s in Ec. destruct (from_history r) eqn:Eh.
        - destruct (settled_completes 0 (negb (bool_decide (queue r = []))) true now o (job r)); [right; exact Ec|congruence|done].
        - destruct (settled_completes (current_generation m1) (negb (bool_decide (queue r = [])))
            (auto_verify (spec (job r))) now o (job r)); [left; exact Ec|congruence|done]. }
      pose proof (inv_completed m Hi _ _ Hk Hd) as Hf. cbn in Hf. congruence.
    - intros f' run' Hf' Hn' El. cbn in Hf'. rewrite list_lookup_alter in Hf'. case_decide as Eff.
      + subst f'. rewrite Hr in Hf'. cbn in Hf'. by injection Hf' as <-.
      + destruct Eff. by eapply (unique_run m f f' run run' (key r)). }
  assert (Hx2 : keys_ext m m2).
  { intros l k Hl. apply keys_lookup in Hl as (r0 & Hr0 & <-). destruct (decide (l = runner_row run)) as [->|Hne].
    - rewrite Hrow in Hr0. injection Hr0 as <-. exists (key (set_job (s_job s) r)). split.
      + apply keys_lookup. eexists. split; [|done]. cbn. by rewrite list_lookup_alter, decide_True, Hrow.
      + destruct Hs as [S1 S2 S3 S4 S5]. split; cbn; rewrite ?S1, ?S2, ?S3, ?S4; try done. intros E. split; [by apply Ht|done].
    - exists (key r0). split; [|apply kext_refl]. apply keys_lookup. exists r0. split; [|done]. cbn.
      by rewrite list_lookup_alter, decide_False. }
  destruct (s_raise s); [done|]. cbn [snd].
  set (m3 := if s_blocked s then _ else m2).
  assert (Hq3 : quiet m2 m3) by (unfold m3; destruct (s_blocked s); [apply quiet_arm|reflexivity]).
  match goal with |- inv ?m4 /\ _ => assert (Hq : quiet m2 m4) end.
  { etrans; [exact Hq3|]. case_match; [|apply quiet_enqueue_fresh]. calm. }
  split; [by eapply inv_quiet|]. eapply keys_ext_trans; [exact Hx2|by apply keys_ext_quiet].
Qed.

(** ** Actions and steps *)

Lemma cancel_job_cancels now i m l p m' : cancel_job now i m = (Some (l, p), m') ->
  exists k, keys m' !! l = Some k /\ k_event k = true /\ k_cancelled k = true.
Proof.
  unfold cancel_job, job_at. destruct (find i m) as [l0|]; cbn [mbind option_bind]; [|done].
  destruct (rows m !! l0) as [r|] eqn:Er; cbn [fmap option_fmap option_map]; [|done].
  case_match; [done|]. intros E. injection E as <- <- <-.
  match goal with |- context [if ?b then _enqueue_completion_locked l0 ?m1 else ?m1] => set (m2 := m1); set (b0 := b) end.
  assert (Hk : exists k, keys m2 !! l0 = Some k /\ k_event k = true /\ k_cancelled k = true).
  { eexists. split; [apply keys_lookup; eexists; split; [|done]|].
    - cbn. rewrite !list_lookup_alter, !decide_True, Er by done. cbn. done.
    - cbn. by case_bool_decide. }
  destruct b0; [|done]. destruct Hk as (k & Hk & He & Hc).
  eapply quiet_then in Hk as (k' & Hk & S); [|apply (quiet_enqueue l0)]. exists k'. split_and!; [done|..]; by apply S.
Qed.

Definition conts_ok (m : Manager) (res : result (list action * Reply)) : Prop :=
  match res with Ok (k, _) => Forall (action_ok (keys m)) k | Raise _ => True end.

(** Only two actions leave something to know. *)
Lemma exec_conts now a m : inv m -> orderly_action a m = true -> action_ok (keys m) a -> conts_ok (exec now a m).2 (exec now a m).1.
Proof.
  intros Hi Ho Hok. destruct a; cbn [exec] in *; unfold does, goes; cbn [fst snd conts_ok]; try done;
    try (by repeat constructor); try (rewrite <-?after_snd; unfold after, conts_ok).
  - destruct (check_submission p b m) as [[]]; cbn; [|done]. destruct (b_parallel_explore b); by repeat constructor.
  - pose proof (register_inv now p b i m Hi (unused_one i m Ho)) as (_ & _ & Hl). destruct (register now p b i m) as [[l|] m']; cbn in *; [|done].
    repeat constructor. by apply Hl.
  - destruct (_schedule l m) as [[]]; by repeat constructor.
  - destruct (assoc_get (schedulers m) i); by repeat constructor.
  - destruct (job_at l m) as [j|]; [|by constructor]. destruct (is_terminal (status j)); by repeat constructor.
  - destruct (register_child_agent _ _ _ _ m) as [[]]; by repeat constructor.
  - destruct (queue_to_parent _ _ _ _ _ _ m) as [[[c|]|]]; [..|done]; destruct asking; by repeat constructor.
  - destruct (begin_guidance _ m) as [[[]|]]; by repeat constructor.
  - destruct (record_progress _ _ _ _ _ m) as [[[]|]]; by repeat constructor.
  - destruct (record_tool_activity _ _ _ m) as [[[]|]]; by repeat constructor.
  - destruct (commit_worker_checkpoint _ _ _ _ _ m) as [[[]|]]; by repeat constructor.
  - destruct (acknowledge_parent_message item m) as [[]]; by repeat constructor.
  - destruct (queue_message _ _ _ _ _ _ m) as [[[[d []]|]|]]; by repeat constructor.
  - destruct (take_messages i m) as [l m']. cbn. apply Forall_fmap, Forall_true. done.
  - destruct (drain_completed_for_parent agent m). by constructor.
  - destruct (find i m ≫= _); [|done]. case_bool_decide; by repeat constructor.
  - destruct (find i m ≫= _) as [[l j]|]; [|by constructor]. destruct (bool_decide (opt_or _ None = None)); by constructor.
  - destruct (cancel_job now i m) as [[[l []]|] m'] eqn:E; cbn; [by repeat constructor| |by constructor].
    constructor; [done|]. destruct (assoc_get (futures m) i); [|constructor]. constructor; [|constructor]. cbn.
    by eapply cancel_job_cancels.
  - destruct Hok as (k & Hk & Hc). unfold cancel_future.
    destruct (runs m !! f) as [[? [| | | | | |[]]]|]; cbn; try (by constructor).
    all: constructor; [by exists k|constructor].
  - destruct (advance_generation g m) as [[]]; [|done]. destruct cancel_pending; [|by constructor]. apply Forall_fmap, Forall_true. done.
  - destruct (is_shutdown m); [by constructor|]. destruct (shutdown m). cbn. apply Forall_app. split; [|by repeat constructor].
    apply Forall_fmap, Forall_true. done.
  - destruct (_expire_guidance now i deadline m) as [[]]; by repeat constructor.
  - destruct (restore_log now p events); [|done]. cbn. apply Forall_app. split; apply Forall_fmap, Forall_true; done.
  - destruct (job_at l m); [|by constructor]. destruct (_ && _); by repeat constructor.
Qed.

Lemma exec_inv now a m : inv m -> orderly_action a m = true -> action_ok (keys m) a ->
  inv (exec now a m).2 /\ keys_ext m (exec now a m).2.
Proof.
  intros Hi Ho Hok. destruct (is_quiet a) eqn:Eq.
  { pose proof (exec_quiet now a m Eq Hok) as Hq. split; [by eapply inv_quiet|by apply keys_ext_quiet]. }
  destruct a; try done; cbn [exec orderly_action action_ok] in *.
  - split; [by apply inv_parallel|by apply keys_ext_same].
  - rewrite after_snd. pose proof (register_inv now p b i m Hi (unused_one i m Ho)) as (? & ? & _). done.
  - destruct Hok as (k & Hk & E). split; [by eapply inv_scheduler|by apply keys_ext_same].
  - rewrite after_snd. apply negb_true_iff in Ho. destruct (schedule_inv l m Hi Ho) as [? ?]. split; [done|by apply keys_ext_same].
  - pose proof (inv_cancel_future f m Hi) as Hc. assert (Hr : rows (cancel_future f m).2 = rows m).
    { unfold cancel_future. by destruct (runs m !! f) as [[? [| | | | | |[]]]|]. }
    destruct (cancel_future f m). split; [done|by apply keys_ext_same].
  - split; [by apply inv_prune|by apply keys_ext_same].
  - split; [by apply inv_cancel_queued|by apply keys_ext_same].
  - split; [by apply clear_inv|]. apply keys_ext_same. unfold clear_for_restore, bind_root_agent. cbn. by case_bool_decide.
  - destruct (restore_log now p events) eqn:E; [|split; [done|by apply keys_ext_same]]. by eapply install_inv.
  - unfold job_at. destruct (rows m !! l) as [r|] eqn:Er; cbn; [|split; [done|by apply keys_ext_same]].
    destruct (_ && _); [|split; [done|by apply keys_ext_same]]. split; [|by apply keys_ext_same].
    eapply (inv_scheduler _ l (key r)); [done|apply keys_lookup; eauto|done].
Qed.

(** ** Worlds *)

Definition world_ok (w : World) : Prop :=
  inv (manager w) /\ Forall (Forall (action_ok (keys (manager w)))) (threads w).

Lemma unwind_ok ks e t : Forall (action_ok ks) t -> Forall (action_ok ks) (unwind e t).
Proof. induction 1 as [|a t Ha Ht IH]; [done|]. destruct a; cbn; try done. by constructor. Qed.

Lemma threads_ext m m' ts : keys_ext m m' -> Forall (Forall (action_ok (keys m))) ts -> Forall (Forall (action_ok (keys m'))) ts.
Proof. intros Hx Ht. eapply Forall_impl; [exact Ht|]. intros t H'. eapply Forall_impl; [exact H'|]. intros a. by apply action_ok_ext. Qed.

Lemma thread_ok w i a rest : world_ok w -> threads w !! i = Some (a :: rest) ->
  action_ok (keys (manager w)) a /\ Forall (action_ok (keys (manager w))) rest.
Proof. intros [_ Ht] Hi. rewrite Forall_lookup in Ht. by apply Ht, Forall_cons in Hi. Qed.

(** The thread [i] goes on as [t] in a manager that evolved. *)
Lemma world_moves w i m t : world_ok w -> inv m -> keys_ext (manager w) m -> Forall (action_ok (keys m)) t ->
  world_ok (with_thread i t (with_manager m w)) /\ keys_ext (manager w) m.
Proof.
  intros [_ Ht] Hi Hx Hok. split; [|done]. split; [done|]. cbn. apply Forall_insert; [|done]. by eapply threads_ext.
Qed.

Lemma world_step_ok w lb w' : world_ok w -> step w lb w' -> orderly w lb = true ->
  world_ok w' /\ keys_ext (manager w) (manager w').
Proof.
  intros Hw Hs Ho. pose proof Hw as [Hi Ht].
  destruct Hs as [a Ha|now i a rest k reply m Hth He|now i a rest e m Hth He|now i a rest e m Hth Hf Hm
                 |now f run r m Hr Hrow Hs|now p fresh f run r o m res Hr Hp Hn Hrow Hd].
  - split; [|by apply keys_ext_same]. split; [done|]. cbn. apply Forall_app. split; [done|]. constructor; [|done].
    constructor; [|done]. by destruct a.
  - destruct (thread_ok w i a rest Hw Hth) as [Hok Hrest]. pose proof (exec_inv now a _ Hi Ho Hok) as [Hi' Hx].
    pose proof (exec_conts now a _ Hi Ho Hok) as Hc. rewrite He in Hi', Hx, Hc. cbn in *. apply world_moves; try done.
    apply Forall_app. split; [done|]. eapply Forall_impl; [exact Hrest|]. intros b. by apply action_ok_ext.
  - destruct (thread_ok w i a rest Hw Hth) as [Hok Hrest]. pose proof (exec_inv now a _ Hi Ho Hok) as [Hi' Hx].
    rewrite He in Hi', Hx. apply world_moves; try done. apply unwind_ok. eapply Forall_impl; [exact Hrest|]. intros b. by apply action_ok_ext.
  - destruct (thread_ok w i a rest Hw Hth) as [Hok Hrest]. pose proof (exec_inv now a _ Hi Ho Hok) as [Hi' Hx].
    assert (inv m /\ keys_ext (manager w) m) as [Him Hxm] by (destruct Hm as [-> | ->]; [split; [done|by apply keys_ext_same]|done]).
    apply world_moves; try done. apply unwind_ok. eapply Forall_impl; [exact Hrest|]. intros b. by apply action_ok_ext.
  - pose proof (runner_step_inv now _ f run r m Hi Hr Hrow Hs) as [Hi' Hx]. split; [|done]. split; [done|]. by eapply threads_ext.
  - pose proof (on_done_inv now _ f run r o Hi Hr Hp Hn Hrow) as [Hi' Hx]. rewrite Hd in Hi', Hx. split; [|done]. split; [done|].
    cbn. apply Forall_app. split; [by eapply threads_ext|]. constructor; [|done]. destruct res as [[[l s]|]|]; try done.
    unfold after_done. constructor; [done|]. repeat (apply Forall_app; split); try (by repeat constructor);
      case_match; repeat constructor; by case_match.
Qed.

Inductive orderly_run (w0 : World) : list label -> World -> Prop :=
| run_start : orderly_run w0 [] w0
| run_step ls w lb w' : orderly_run w0 ls w -> step w lb w' -> orderly w lb = true -> orderly_run w0 (ls ++ [lb]) w'.

Definition initial (c : Config) (owner : option pystr) (g : Z) : World := {| manager := new_manager c owner g; threads := [] |}.

Lemma initial_ok c owner g : 1 <= max_parallel_explore c -> world_ok (initial c owner g).
Proof. intros Hc. split; [|done]. split; cbn; try done; try (by constructor); try lia; intros; set_solver. Qed.

Lemma run_ext w0 ls w : world_ok w0 -> orderly_run w0 ls w -> world_ok w /\ keys_ext (manager w0) (manager w).
Proof.
  intros Hw. induction 1 as [|ls w lb w' Hr [IH Hx] Hs Ho]; [split; [done|by apply keys_ext_same]|].
  destruct (world_step_ok w lb w' IH Hs Ho) as [? ?]. split; [done|by eapply keys_ext_trans].
Qed.
End Steps.

(** ** Scripts

    A script picks what happens next; it is played as an orderly run. *)

Inductive event :=
| Begin (a : action)
| Exec (now : Z) (thread : nat)
| Runner (now : Z) (f : nat) (o : Outcome)
| Done (now : Z) (p : ParentAgent) (fresh : pystr) (f : nat).

Section Play.
Context `{TextDigest} `{Seconds} `{PyCoercions}.

(** What the runner of [f] does next; its worker, when it works, ends as [o]. *)
Definition runner_next (now : Z) (f : nat) (o : Outcome) (l : nat) (r : Row) (m : Manager) (p : Phase) : option Manager :=
  match p with
  | PENDING => Some (update_run f (to_phase WAITING) m)
  | WAITING => Some (runner_enter now f l r m)
  | ENTERED e => Some (update_run f (to_phase (STARTED e)) (publish_tracked r (tracked e) m))
  | STARTED e => Some (runner_drain f r e m)
  | DELIVERING (d :: todo) taken e => Some (update_run f (to_phase (DELIVERING todo taken e)) (publish_directive d true m))
  | DELIVERING [] taken e => Some (runner_launch f r e taken m)
  | WORKING _ => match o with NotStarted => None | _ => Some (runner_finish f o m) end
  | DONE _ => None
  end.

Lemma runner_next_step now f o l r m p m' : runner_next now f o l r m p = Some m' -> runner_step now f l r m p m'.
Proof.
  destruct p as [| |e|e|[|d todo] taken e|q|o']; cbn; intros E; simplify_eq; try by constructor.
  destruct o; simplify_eq; by constructor.
Qed.

Definition advance (w : World) (v : event) : option (label * World) :=
  match v with
  | Begin a => if is_entry a then Some (LBegin a, {| manager := manager w; threads := threads w ++ [[a]] |}) else None
  | Exec now i =>
    match threads w !! i with
    | Some (a :: rest) =>
      match exec now a (manager w) with
      | (Ok (k, reply), m) => Some (LExec a reply, with_thread i (k ++ rest) (with_manager m w))
      | (Raise e, m) => Some (LExec a RNone, with_thread i (unwind e rest) (with_manager m w))
      end
    | _ => None
    end
  | Runner now f o =>
    match runs (manager w) !! f with
    | Some run => match rows (manager w) !! runner_row run with
      | Some r => match runner_next now f o (runner_row run) r (manager w) (phase run) with
        | Some m => Some (LRunner f, with_manager m w) | None => None end
      | None => None end
    | None => None
    end
  | Done now p fresh f =>
    match runs (manager w) !! f with
    | Some run => match phase run, called run, rows (manager w) !! runner_row run with
      | DONE o, false, Some r =>
        let '(res, m) := on_done now f (runner_row run) r o (manager w) in
        Some (LDone f, {| manager := m; threads := threads w ++ [match res with
               | Ok (Some (l, s)) => after_done p fresh (runner_row run) r l s | _ => [] end] |})
      | _, _, _ => None end
    | None => None
    end
  end.

Lemma advance_step w v lb w' : advance w v = Some (lb, w') -> step w lb w'.
Proof.
  destruct v as [a|now i|now f o|now p fresh f]; cbn.
  - destruct (is_entry a) eqn:E; [|done]. intros [= <- <-]. by constructor.
  - destruct (threads w !! i) as [[|a rest]|] eqn:Et; [done| |done].
    destruct (exec now a (manager w)) as [[[k reply]|e] m] eqn:Ee; intros [= <- <-]; [by eapply step_exec|by eapply step_raise].
  - destruct (runs (manager w) !! f) as [run|] eqn:Er; [|done]. destruct (rows (manager w) !! runner_row run) as [r|] eqn:Erow; [|done].
    destruct (runner_next _ _ _ _ _ _ _) as [m|] eqn:En; [|done]. intros [= <- <-]. eapply step_runner; [done..|]. by eapply runner_next_step.
  - destruct (runs (manager w) !! f) as [run|] eqn:Er; [|done]. destruct (phase run) as [| | | | | |o] eqn:Ep; try done.
    destruct (called run) eqn:Ec; [done|]. destruct (rows (manager w) !! runner_row run) as [r|] eqn:Erow; [|done].
    destruct (on_done now f (runner_row run) r o (manager w)) as [res m] eqn:Ed. intros [= <- <-]. by eapply step_done.
Qed.

Fixpoint play (l : list event) (w : World) : option (list label * World) :=
  match l with
  | [] => Some ([], w)
  | v :: l =>
    match advance w v with
    | Some (lb, w1) => if orderly w lb then match play l w1 with Some (ls, w2) => Some (lb :: ls, w2) | None => None end else None
    | None => None
    end
  end.
End Play.

Section Runs.
Context `{TextDigest} `{Seconds} `{PyCoercions}.

Lemma run_app w1 ls1 w2 ls2 w3 : orderly_run w1 ls1 w2 -> orderly_run w2 ls2 w3 -> orderly_run w1 (ls1 ++ ls2) w3.
Proof.
  intros Ha Hb. induction Hb as [|ls w lb w' _ IH Hs Ho]; [by rewrite app_nil_r|]. rewrite app_assoc. by eapply run_step.
Qed.

Lemma play_run l w ls w' : play l w = Some (ls, w') -> orderly_run w ls w'.
Proof.
  revert w ls. induction l as [|v l IH]; intros w ls; cbn [play]; [intros [= <- <-]; constructor|].
  destruct (advance w v) as [[lb w1]|] eqn:Ea; [|done]. destruct (orderly w lb) eqn:Eo; [|done].
  destruct (play l w1) as [[ls1 w2]|] eqn:Ep; [|discriminate]. intros E. injection E as <- <-.
  apply (run_app w [lb] w1 ls1 w2); [|apply IH; exact Ep]. eapply (run_step w [] w lb w1); [constructor|eapply advance_step; exact Ea|exact Eo].
Qed.

(** Runs in which a worker is working. *)
Definition workers (m : Manager) : list Run := filter (fun r => match phase r with WORKING _ => true | _ => false end = true) (runs m).

(** C5: Limits.  However submissions, messages, guidance, timeouts,
    cancellations, pruning, failed publications and workers that end in any way
    interleave in an orderly run, at most four jobs are active, at most as many
    workers work as the pool has slots, the count of slots is that of the
    runners that took one and did not give it back, and no job has two runs
    whose end is not processed. *)
Theorem subagent_limits c owner g ls w :
  1 <= max_parallel_explore c -> orderly_run (initial c owner g) ls w ->
  let m := manager w in
  _active_job_count_locked m <= _MAX_ACTIVE_SUBAGENTS
  /\ active_explore m = slots m
  /\ len (workers m) <= active_explore m <= max_parallel_explore (config m)
  /\ forall f1 f2 r1 r2 r, runs m !! f1 = Some r1 -> runs m !! f2 = Some r2 -> called r1 = false -> called r2 = false ->
       runner_row r1 = runner_row r2 -> rows m !! runner_row r1 = Some r -> is_Some (find (id (spec (job r))) m) -> f1 = f2.
Proof.
  intros Hc Hr. destruct (run_ext _ _ _ (initial_ok c owner g Hc) Hr) as [[Hi _] _]. cbn. split_and!.
  - rewrite active_count. apply Hi.
  - apply Hi.
  - rewrite (inv_slots _ Hi). apply filter_weaken. intros r _. unfold holds_slot. by destruct (phase r).
  - apply Hi.
  - intros f1 f2 r1 r2 r Hf1 Hf2 N1 N2 E Hrow Hf. eapply (unique_run _ f1 f2 r1 r2 (key r)); try done. apply keys_lookup. eauto.
Qed.

(** C6: The end of a job is final.  In an orderly run a finished job stays
    finished whatever happens later, its worker is never started again, and a
    job whose cancellation was requested never completes: its late result is
    not taken for one. *)
Theorem finished_is_final c owner g ls1 w1 ls2 w2 l r :
  1 <= max_parallel_explore c -> orderly_run (initial c owner g) ls1 w1 -> orderly_run w1 ls2 w2 ->
  rows (manager w1) !! l = Some r ->
  exists r', rows (manager w2) !! l = Some r' /\ spec (job r') = spec (job r)
    /\ (is_terminal (status (job r)) = true ->
          is_terminal (status (job r')) = true /\ worker_generation (activity (job r')) = worker_generation (activity (job r)))
    /\ (cancel_requested (cancellation (job r)) = true ->
          cancel_requested (cancellation (job r')) = true /\ status (job r') <> COMPLETED).
Proof.
  intros Hc Ha Hb Hl. destruct (run_ext _ _ _ (initial_ok c owner g Hc) Ha) as [Hw1 _].
  destruct (run_ext _ _ _ Hw1 Hb) as [[Hi _] Hx]. destruct (Hx l (key r)) as (k' & Hk & X); [apply keys_lookup; eauto|].
  pose proof Hk as Hk'. apply keys_lookup in Hk as (r' & Hr' & <-). exists r'. split_and!; [done|apply X|apply X|].
  intros Hcan. assert (Hcan' : cancel_requested (cancellation (job r')) = true) by by apply (ext_cancelled _ _ X).
  split; [done|]. intros E. pose proof (inv_completed _ Hi l _ Hk' E) as Hf. cbn in Hf. congruence.
Qed.
End Runs.

(** ** An example *)

Definition example_digest : TextDigest := {| text_digest := fun s => s |}.
Definition example_seconds : Seconds :=
  {| seconds_of v := match v with VFloat _ => Ok 0 | _ => Raise (TypeError $"float") end; seconds_text := z_str |}.
#[local] Existing Instances example_digest example_seconds strict_coercions.

Definition example_config : Config := new_config 2 50 300 3600 1 3600000.
Definition example_parent : ParentAgent :=
  {| p_agent_id := Some $"root"; session_generation := Some 1; current_session_id := Some $"s"; active_goal := None;
     directory := $"/work"; conversation := [] |}.
Definition example_submission : Submission :=
  {| b_task := $"look around"; b_mode := $"explore"; b_max_rounds := None; b_timeout_seconds := None;
     b_parallel_explore := None; b_model_profile_name := None; b_context_mode := $"recent"; b_parent_job_id := None;
     b_depth := 1; b_worktree := false; b_resume_reference := None; b_max_tool_calls := Some 80; b_max_tokens := None;
     b_auto_verify := true; b_working_directory := None |}.

Definition submit_script (i : pystr) (thread : nat) : list event :=
  Begin (ASubmit example_parent example_submission i) :: repeat (Exec 5 thread) 5.
Definition run_script (f : nat) (o : Outcome) : list event := repeat (Runner 6 f o) 6.

(** A first job runs to its end; a second is cancelled while its worker works,
    and the worker still answers. *)
Definition first_script : list event :=
  submit_script $"sj_1" 0 ++ run_script 0 (Finished (RText $"all good")) ++ [Done 7 example_parent [] 0]
  ++ submit_script $"sj_2" 2 ++ repeat (Runner 8 1 (Raised [])) 5
  ++ [Begin (ACancel $"sj_2"); Exec 9 3].
Definition second_script : list event :=
  [Runner 10 1 (Finished (RText $"too late")); Done 11 example_parent [] 1; Begin (ADrainCompleted (Some $"root")); Exec 12 5].

Definition example_start : World := initial example_config (Some $"root") 1.
Definition after_script (l : list event) (w : World) : World := default w (snd <$> play l w).
Definition labels_of (l : list event) (w : World) : list label := default [] (fst <$> play l w).
Definition example_middle : World := after_script first_script example_start.
Definition example_end : World := after_script second_script example_middle.

Lemma script_run l w : is_Some (play l w) -> orderly_run w (labels_of l w) (after_script l w).
Proof. intros [[ls w'] E]. unfold labels_of, after_script. rewrite E. cbn. by apply play_run in E. Qed.

Example example_plays : map (fun r => (id (spec (job r)), status (job r))) (rows (manager example_end))
  = [($"sj_1", COMPLETED); ($"sj_2", CANCELLED)].
Proof. vm_compute. reflexivity. Qed.

Lemma subagent_limits_witness : exists ls,
  1 <= max_parallel_explore example_config /\ orderly_run example_start ls example_middle
  /\ _active_job_count_locked (manager example_middle) <= _MAX_ACTIVE_SUBAGENTS.
Proof.
  exists (labels_of first_script example_start).
  assert (Hr : orderly_run example_start (labels_of first_script example_start) example_middle)
    by (apply script_run; vm_compute; eauto).
  split; [by vm_compute|]. split; [exact Hr|].
  exact (proj1 (subagent_limits example_config (Some $"root") 1 _ example_middle ltac:(by vm_compute) Hr)).
Defined.

Lemma finished_is_final_witness : exists r r',
  rows (manager example_middle) !! 1%nat = Some r /\ cancel_requested (cancellation (job r)) = true
  /\ rows (manager example_end) !! 1%nat = Some r' /\ status (job r') <> COMPLETED.
Proof.
  assert (H1 : orderly_run example_start (labels_of first_script example_start) example_middle)
    by (apply script_run; vm_compute; eauto).
  assert (H2 : orderly_run example_middle (labels_of second_script example_middle) example_end)
    by (apply script_run; vm_compute; eauto).
  destruct (rows (manager example_middle) !! 1%nat) as [r|] eqn:E; [|exfalso; revert E; by vm_compute].
  assert (Hcan : cancel_requested (cancellation (job r)) = true) by (revert E; vm_compute; by intros [= <-]).
  destruct (finished_is_final example_config (Some $"root") 1 _ _ _ _ 1%nat r ltac:(by vm_compute) H1 H2 E)
    as (r' & Hr' & _ & _ & Hc).
  exists r, r'. split_and!; [done|done|done|by apply Hc].
Defined.
