(* ===== verification/SubagentDelivery.v ===== *)
(** * Every result reaches the parent once (manager.py, [drain_completed_for_parent])

    The parent takes finished results at its safe points.  Whatever happened
    before, in an orderly run, it then gets finished results of the current
    session generation that it had not had, in the order in which they finished,
    and all of those that are not kept for their automatic verification; no
    result is ever handed over twice. *)

From S2P Require Import Prelude PyValue Replay SubagentJobs SubagentHistory Subagents SubagentThreads SubagentSafety.

(** ** The order of completion *)

Lemma completion_leb_trans a b c : completion_leb a b = true -> completion_leb b c = true -> completion_leb a c = true.
Proof. unfold completion_leb. repeat case_match; try done. intros. zbool. apply Z.leb_le. lia. Qed.
Lemma completion_leb_total a b : completion_leb a b = false -> completion_leb b a = true.
Proof. unfold completion_leb. repeat case_match; try done. intros. zbool. apply Z.leb_le. lia. Qed.

(** ** The jobs of the table *)

Lemma jobs_elem m l j : (l, j) ∈ jobs m <-> job_at l m = Some j /\ exists i, (i, l) ∈ table m.
Proof.
  unfold jobs. rewrite list_elem_of_omap. split.
  - intros ([i l'] & Hl & E). cbn in E. destruct (job_at l' m) as [j'|] eqn:Ej; [|done]. cbn in E. simplify_eq. eauto.
  - intros [Ej [i Hl]]. exists (i, l). split; [done|]. cbn. by rewrite Ej.
Qed.

(** A job of the table is found by its identifier. *)
Lemma jobs_find m l j : inv m -> (l, j) ∈ jobs m -> find (id (spec j)) m = Some l.
Proof.
  intros Hi [Ej [i Hl]]%jobs_elem. pose proof (inv_table m Hi i l Hl) as (k & Hk & E).
  apply keys_lookup in Hk as (r & Hr & <-). unfold job_at in Ej. rewrite Hr in Ej. injection Ej as <-.
  cbn in E. unfold k_id in E. cbn in E. rewrite E. apply assoc_get_of_elem; [apply Hi|done].
Qed.

Lemma find_jobs m i l j : find i m = Some l -> job_at l m = Some j -> (l, j) ∈ jobs m.
Proof. intros Hf Hj. apply jobs_elem. split; [done|]. exists i. by apply find_elem. Qed.

Lemma jobs_NoDup m : inv m -> NoDup (jobs m).
Proof.
  intros Hi. unfold jobs. assert (Hl : NoDup (table m).*2).
  { pose proof (inv_table_keys m Hi) as Hd. pose proof (inv_table m Hi) as Ht. clear Hi. induction (table m) as [|[i l] t IH]; [constructor|].
    cbn in *. apply NoDup_cons in Hd as [Hn Hd]. constructor; [|apply IH; [done|intros; apply Ht; by right]].
    intros ([i' l'] & E & Hin)%list_elem_of_fmap. cbn in E. subst l'. apply Hn. apply list_elem_of_fmap. exists (i', l). split; [|done].
    destruct (Ht i l ltac:(left)) as (k & Hk & <-). destruct (Ht i' l ltac:(by right)) as (k' & Hk' & <-). cbn. congruence. }
  clear Hi. induction (table m) as [|[i l] t IH]; [constructor|]. cbn in *. apply NoDup_cons in Hl as [Hn Hl].
  destruct (job_at l m) as [j|]; cbn; [|auto]. constructor; [|auto]. intros ([i' l'] & Hin & E)%list_elem_of_omap.
  cbn in E. destruct (job_at l' m); [|done]. cbn in E. simplify_eq. apply Hn. apply list_elem_of_fmap. by exists (i', l).
Qed.

(** ** Delivery of a list of identifiers *)

Definition pending_result (j : SubagentJob) : bool := negb (injected_to_parent (delivery j)) && is_actionable (status j).

Definition marked (j : SubagentJob) : SubagentJob := set_delivery (set_injected_to_parent true (delivery j)) j.

Lemma job_at_update l f m l' : job_at l' (update_job l f m) = if decide (l' = l) then f <$> job_at l m else job_at l' m.
Proof.
  unfold job_at, update_job, update_row. cbn [rows set_rows]. rewrite list_lookup_alter. repeat case_decide; subst; try done.
  by destruct (rows m !! l').
Qed.

(** What one delivery does. *)
Lemma deliver_spec i m o m' : deliver i m = (o, m') ->
  table m' = table m /\ current_generation m' = current_generation m
  /\ match o with
     | Some (l, j) => find i m = Some l /\ job_at l m = Some j /\ pending_result j = true /\ m' = update_job l marked m
     | None => m' = m /\ forall l j, find i m = Some l -> job_at l m = Some j -> pending_result j = false
     end.
Proof.
  unfold deliver. destruct (find i m) as [l|] eqn:Ef; cbn [mbind option_bind].
  - destruct (job_at l m) as [j|] eqn:Ej; cbn.
    + unfold pending_result. destruct (injected_to_parent (delivery j)) eqn:E1; cbn.
      { intros [= <- <-]. split_and!; try done. intros l0 j0 [= <-]. rewrite Ej. intros [= <-]. by rewrite E1. }
      destruct (is_actionable (status j)) eqn:E2; cbn; intros [= <- <-]; split_and!; try done; [by rewrite E1, E2|].
      intros l0 j0 [= <-]. rewrite Ej. intros [= <-]. by rewrite E1, E2.
    + intros [= <- <-]. split_and!; try done. intros l0 j0 [= <-]. by rewrite Ej.
  - intros [= <- <-]. split_and!; done.
Qed.

Lemma pending_marked j : pending_result (marked j) = false.
Proof. done. Qed.

Lemma deliver_all_spec ids m l m' : deliver_all ids m = (l, m') ->
  table m' = table m /\ current_generation m' = current_generation m
  /\ NoDup l.*1
  /\ (forall l0 j, (l0, j) ∈ l <-> job_at l0 m = Some j /\ pending_result j = true /\ exists i, i ∈ ids /\ find i m = Some l0)
  /\ (forall l0, job_at l0 m' = if decide (l0 ∈ l.*1) then marked <$> job_at l0 m else job_at l0 m).
Proof.
  revert m l m'. induction ids as [|i ids IH]; intros m l m'; cbn.
  { intros [= <- <-]. split_and!; try done; [constructor|]. intros l0 j. split; [by intros ?%elem_of_nil|].
    intros (_ & _ & i & Hi & _). by apply elem_of_nil in Hi. }
  destruct (deliver i m) as [o m1] eqn:Ed. destruct (deliver_all ids m1) as [rest m2] eqn:Ea. intros [= <- <-].
  apply deliver_spec in Ed as (Et & Eg & Ed). apply IH in Ea as (Et2 & Eg2 & Hn & Hin & Hj).
  assert (Ef : forall k, find k m1 = find k m) by (intros k; unfold find; by rewrite Et).
  split_and!; [congruence..| | |].
  - destruct o as [[l0 j0]|]; [|done]. cbn. constructor; [|done]. intros ([l1 j1] & E & Hl1)%list_elem_of_fmap. cbn in E. subst l1.
    apply Hin in Hl1 as (Hj1 & Hp & _). destruct Ed as (_ & Hj0 & _ & ->). rewrite job_at_update, decide_True, Hj0 in Hj1 by done.
    injection Hj1 as <-. by rewrite pending_marked in Hp.
  - intros l0 j0. destruct o as [[l1 j1]|]; simpl.
    + destruct Ed as (Hf & Hj1 & Hp & ->). rewrite elem_of_cons, Hin, job_at_update. split.
      * intros [E|(Hl0 & Hp0 & k & Hk & Hfk)]; [simplify_eq; split_and!; try done; exists i; split; [left|done]|].
        case_decide; [subst; rewrite Hj1 in Hl0; injection Hl0 as <-; by rewrite pending_marked in Hp0|].
        split_and!; try done. exists k. split; [by right|by rewrite <-Ef].
      * intros (Hl0 & Hp0 & k & [->|Hk]%elem_of_cons & Hfk).
        -- left. rewrite Hf in Hfk. injection Hfk as <-. congruence.
        -- case_decide as E; [subst; left; congruence|]. right. split_and!; try done. exists k. by rewrite Ef.
    + destruct Ed as [-> Hno]. rewrite Hin. split.
      * intros (? & ? & k & ? & ?). split_and!; try done. exists k. split; [by right|done].
      * intros (Hl0 & Hp0 & k & [->|Hk]%elem_of_cons & Hfk); [by rewrite (Hno l0 j0) in Hp0|eauto 6].
  - intros l0. rewrite Hj. destruct o as [[l1 j1]|]; simpl.
    + destruct Ed as (Hf & Hj1 & Hp & ->). rewrite job_at_update. destruct (decide (l0 = l1)) as [->|Hne].
      * assert (Hr : l1 ∉ rest.*1).
        { intros ([l2 j2] & E & Hl2)%list_elem_of_fmap. cbn in E. subst l2.
          apply Hin in Hl2 as (Hl2 & Hp2 & _). rewrite job_at_update, decide_True, Hj1 in Hl2 by done. by injection Hl2 as <-. }
        by rewrite decide_False, decide_True by (done || left).
      * destruct (decide (l0 ∈ rest.*1)) as [Hr|Hr]; [by rewrite decide_True by (by right)|].
        rewrite decide_False; [done|]. by intros [?|?]%elem_of_cons.
    + by destruct Ed as [-> _].
Qed.

Lemma split_mailbox_spec agent m l mine others i : split_mailbox agent m l = (mine, others) -> i ∈ mine ->
  forall l0 j, find i m = Some l0 -> job_at l0 m = Some j ->
    (generation (spec j) =? current_generation m) = true /\ of_parent agent j = true.
Proof.
  revert mine others. induction l as [|k l IH]; intros mine others; cbn [split_mailbox]; [intros [= <- <-] Hi; by apply elem_of_nil in Hi|].
  destruct (split_mailbox agent m l) as [mine' others'] eqn:E. specialize (IH _ _ eq_refl).
  destruct (find k m) as [l1|] eqn:Ef; cbn [mbind option_bind].
  - destruct (job_at l1 m) as [j1|] eqn:Ej.
    + destruct (generation (spec j1) =? current_generation m) eqn:Eg; cbn [negb]; [|by intros [= <- <-]].
      destruct (of_parent agent j1) eqn:Eo; [|by intros [= <- <-]]. intros [= <- <-] [->|Hi]%elem_of_cons; [|exact (IH Hi)].
      intros l0 j. rewrite Ef. intros [= <-]. rewrite Ej. by intros [= <-].
    + intros [= <- <-] [->|Hi]%elem_of_cons; [|exact (IH Hi)]. intros l0 j. rewrite Ef. intros [= <-]. by rewrite Ej.
  - intros [= <- <-] [->|Hi]%elem_of_cons; [|exact (IH Hi)]. intros l0 j. by rewrite Ef.
Qed.

Lemma deliverable_eq agent m j : deliverable agent m j
  = pending_result j && (of_parent agent j && (generation (spec j) =? current_generation m)).
Proof.
  unfold deliverable, pending_result.
  destruct (is_actionable _), (of_parent _ _), (_ =? _), (injected_to_parent _); done.
Qed.

(** Draining gives exactly the deliverable results, in order, and leaves none. *)
Lemma drain_spec agent m : inv m ->
  let '(l, m') := drain_completed_for_parent agent m in
  NoDup l.*1
  /\ l ≡ₚ filter (fun lj => deliverable agent m lj.2 = true) (jobs m)
  /\ StronglySorted (fun a b => completion_leb a b = true) l
  /\ Forall (fun lj => deliverable agent m' lj.2 = false) (jobs m')
  /\ (forall l0, l0 ∈ l.*1 -> exists j, job_at l0 m = Some j /\ pending_result j = true)
  /\ (forall l0, l0 ∈ l.*1 -> exists j, job_at l0 m' = Some j /\ injected_to_parent (delivery j) = true).
Proof.
  intros Hi. unfold drain_completed_for_parent. destruct (split_mailbox agent m (completion_mailbox m)) as [mine others] eqn:Es.
  set (m0 := set_completion_mailbox others m). set (missed := map _ _).
  destruct (deliver_all (mine ++ missed) m0) as [l m'] eqn:Ed.
  apply deliver_all_spec in Ed as (Et & Eg & Hn & Hin & Hj).
  assert (Hel : forall l0 j, (l0, j) ∈ l <-> (l0, j) ∈ jobs m /\ deliverable agent m j = true).
  { intros l0 j. rewrite Hin, deliverable_eq. change (job_at l0 m0) with (job_at l0 m). split.
    - intros (Hl0 & Hp & i & [Hm|Hm]%elem_of_app & Hf); change (find i m = Some l0) in Hf; (split; [by eapply find_jobs|]).
      + destruct (split_mailbox_spec _ _ _ _ _ _ Es Hm l0 j Hf Hl0) as [-> ->]. by rewrite Hp.
      + unfold missed in Hm. apply list_elem_of_fmap in Hm as ([l1 j1] & -> & [Hd H1]%list_elem_of_filter).
        change (jobs m0) with (jobs m) in H1. apply (jobs_find m l1 j1 Hi) in H1 as Hf1. cbn in Hf. rewrite Hf in Hf1. injection Hf1 as <-.
        apply jobs_elem in H1 as [H1 _]. rewrite Hl0 in H1. injection H1 as <-.
        apply andb_true_iff in Hd as [Hd _]. cbn in Hd. rewrite deliverable_eq in Hd. exact Hd.
    - intros (Hl0 & Hd). apply andb_true_iff in Hd as [Hp Hd]. pose proof (jobs_find m l0 j Hi Hl0) as Hf.
      apply jobs_elem in Hl0 as Hl1. destruct Hl1 as [Hl1 _]. split_and!; [done|done|]. exists (id (spec j)). split; [|exact Hf].
      apply elem_of_app. destruct (decide (id (spec j) ∈ mine)) as [?|Hno]; [by left|right].
      apply list_elem_of_fmap. exists (l0, j). split; [done|]. apply list_elem_of_filter. split; [|exact Hl0]. cbn.
      rewrite deliverable_eq, Hp, bool_decide_eq_false_2 by done. by rewrite andb_true_r. }
  assert (Hfst : (stable_sort completion_leb l).*1 ≡ₚ l.*1) by (by rewrite stable_sort_Permutation).
  assert (Hmem : forall l0, l0 ∈ (stable_sort completion_leb l).*1 -> exists j, (l0, j) ∈ l).
  { intros l0 Hl0. rewrite Hfst in Hl0. apply list_elem_of_fmap in Hl0 as ([l1 j] & -> & ?). eauto. }
  split_and!.
  - by rewrite Hfst.
  - rewrite stable_sort_Permutation. apply NoDup_Permutation.
    + by apply NoDup_fmap_1 in Hn.
    + by apply NoDup_filter, jobs_NoDup.
    + intros [l0 j]. rewrite Hel, list_elem_of_filter. cbn. tauto.
  - apply stable_sort_sorted; [exact completion_leb_trans|exact completion_leb_total].
  - apply Forall_forall. intros [l0 j] Hl0. apply jobs_elem in Hl0 as [Hl0 [i Hi0]]. cbn. rewrite Hj in Hl0. case_decide as E.
    + rewrite deliverable_eq. destruct (job_at l0 m0) as [j0|]; [|done]. cbn in Hl0. by injection Hl0 as <-.
    + destruct (deliverable agent m' j) eqn:Edl; [|done]. destruct E. apply list_elem_of_fmap. exists (l0, j). split; [done|].
      apply Hel. split; [apply jobs_elem; split; [done|]; exists i; by rewrite Et in Hi0|].
      unfold deliverable in *. by rewrite Eg in Edl.
  - intros l0 (j & Hl0)%Hmem. exists j. by apply Hin in Hl0 as (? & ? & _).
  - intros l0 (j & Hl0)%Hmem. rewrite Hj. rewrite decide_True by (apply list_elem_of_fmap; by exists (l0, j)).
    apply Hin in Hl0 as (Hl0 & _). rewrite Hl0. by eexists.
Qed.

(** ** Over a run *)

(** The rows whose results a step handed to the parent. *)
Definition handed (lb : label) : list nat :=
  match lb with LExec (ADrainCompleted _) (RJobs l) => l.*1 | _ => [] end.

Section Delivery.
Context `{TextDigest} `{Seconds} `{PyCoercions}.

Definition injected_at (m : Manager) (l : nat) : Prop := exists k, keys m !! l = Some k /\ k_injected k = true.

Lemma job_at_key l m j : job_at l m = Some j -> exists k, keys m !! l = Some k /\ k_injected k = injected_to_parent (delivery j).
Proof.
  unfold job_at. destruct (rows m !! l) as [r|] eqn:Er; [|done]. cbn. intros [= <-]. exists (key r). split; [|done]. apply keys_lookup. eauto.
Qed.

Lemma handed_step w lb w' : world_ok w -> step w lb w' ->
  NoDup (handed lb)
  /\ (forall l, l ∈ handed lb -> injected_at (manager w') l)
  /\ (forall l, l ∈ handed lb -> injected_at (manager w) l -> False).
Proof.
  intros [Hi _] Hs. assert (Hnone : handed lb = [] -> NoDup (handed lb) /\ (forall l, l ∈ handed lb -> injected_at (manager w') l)
    /\ (forall l, l ∈ handed lb -> injected_at (manager w) l -> False)).
  { intros ->. split_and!; [constructor|..]; by intros l ?%elem_of_nil. }
  destruct Hs as [a Ha|now i a rest k reply m Hth He| | | |]; try (by apply Hnone); [|destruct a; by apply Hnone..].
  destruct a; try (by apply Hnone). cbn in He. pose proof (drain_spec agent (manager w) Hi) as Hd.
  destruct (drain_completed_for_parent agent (manager w)) as [l m1]. injection He as <- <- <-. cbn.
  destruct Hd as (Hn & _ & _ & _ & Hbefore & Hafter). split_and!; [done|..].
  - intros l0 (j & Hj & Hinj)%Hafter. apply job_at_key in Hj as (k & Hk & E). exists k. split; [exact Hk|congruence].
  - intros l0 (j & Hj & Hp)%Hbefore (k & Hk & Hinj). apply job_at_key in Hj as (k' & Hk' & E).
    unfold pending_result in Hp. assert (injected_to_parent (delivery j) = true) as Ex by congruence. by rewrite Ex in Hp.
Qed.

Lemma handed_run w0 ls w : world_ok w0 -> orderly_run w0 ls w ->
  NoDup (concat (map handed ls)) /\ (forall l, l ∈ concat (map handed ls) -> injected_at (manager w) l).
Proof.
  intros Hw. induction 1 as [|ls w lb w' Hr [Hn Hi] Hs Ho].
  { split; [constructor|]. by intros l ?%elem_of_nil. }
  destruct (run_ext _ _ _ Hw Hr) as [Hok _]. destruct (handed_step _ _ _ Hok Hs) as (Hn' & Hi' & Hd).
  destruct (world_step_ok _ _ _ Hok Hs Ho) as [_ Hx]. rewrite map_app, concat_app. cbn. rewrite app_nil_r. split.
  - apply NoDup_app. split_and!; [done| |done]. intros l Hl Hl'. by apply (Hd l Hl'), Hi.
  - intros l [Hl|Hl]%elem_of_app; [|by apply Hi']. apply Hi in Hl as (k & Hk & Ek). apply Hx in Hk as (k' & Hk & S).
    exists k'. split; [done|]. by apply S.
Qed.

(** A live execute job whose result is kept for its automatic verification: it
    completed, and is not in the mailbox yet. *)
Definition awaits_verification (m : Manager) (l : nat) : bool :=
  match rows m !! l with
  | Some r =>
    let j := job r in
    negb (from_history r) && bool_decide (mode (spec j) = $"execute") && auto_verify (spec j)
    && bool_decide (status j = COMPLETED) && bool_decide (id (spec j) ∉ completion_mailbox m)
  | None => false
  end.

(** C7: Delivery.  Over an orderly run no result is handed to the parent twice.
    At any moment, taking the completed jobs gives the parent only finished
    results of its own jobs, of the current generation, that it has not had, in
    the order in which they finished; it gives it all of these that are not kept
    for their automatic verification, and leaves none of them behind.
    [verification_bypassed] shows that results that are kept may be given too. *)
Theorem results_delivered_once c owner g ls w :
  1 <= max_parallel_explore c -> orderly_run (initial c owner g) ls w ->
  NoDup (concat (map handed ls))
  /\ forall agent, let '(l, m') := drain_completed_for_parent agent (manager w) in
       NoDup l.*1 /\ StronglySorted (fun a b => completion_leb a b = true) l
       /\ (forall lj, lj ∈ l -> lj ∈ jobs (manager w) /\ deliverable agent (manager w) lj.2 = true)
       /\ (forall lj, lj ∈ jobs (manager w) -> deliverable agent (manager w) lj.2 = true ->
             awaits_verification (manager w) lj.1 = false -> lj ∈ l)
       /\ (forall lj, lj ∈ jobs m' -> awaits_verification (manager w) lj.1 = false -> deliverable agent m' lj.2 = false).
Proof.
  intros Hc Hr. pose proof (initial_ok c owner g Hc) as Hw. split; [by apply (handed_run _ _ _ Hw Hr)|].
  intros agent. destruct (run_ext _ _ _ Hw Hr) as [[Hi _] _]. pose proof (drain_spec agent (manager w) Hi) as Hd.
  destruct (drain_completed_for_parent agent (manager w)) as [l m']. destruct Hd as (Hn & Hp & Hs & Hl & _).
  split_and!; [done|done|..].
  - intros lj Hin. rewrite Hp in Hin. by apply list_elem_of_filter in Hin as [? ?].
  - intros lj Hin Hdel _. rewrite Hp. by apply list_elem_of_filter.
  - intros lj Hin _. rewrite Forall_forall in Hl. by apply Hl.
Qed.
End Delivery.

#[local] Existing Instances example_digest example_seconds strict_coercions.

(** The job completed in the first example is handed over by the second. *)
Lemma results_delivered_once_witness : exists ls w,
  orderly_run example_start ls w /\ concat (map handed ls) = [0; 1]%nat /\ NoDup (concat (map handed ls)).
Proof.
  pose (script := first_script ++ second_script).
  assert (Hr : orderly_run example_start (labels_of script example_start) (after_script script example_start))
    by (apply script_run; vm_compute; eauto).
  exists (labels_of script example_start), (after_script script example_start). split; [exact Hr|]. split; [vm_compute; reflexivity|].
  exact (proj1 (results_delivered_once example_config (Some $"root") 1 _ _ ltac:(by vm_compute) Hr)).
Defined.

(** An execute job whose automatic verification has still to be submitted: its
    completion is kept out of the mailbox, and the loop over the table delivers
    its result all the same. *)
Definition execute_submission : Submission :=
  {| b_task := $"change it"; b_mode := $"execute"; b_max_rounds := None; b_timeout_seconds := None;
     b_parallel_explore := None; b_model_profile_name := None; b_context_mode := $"recent"; b_parent_job_id := None;
     b_depth := 1; b_worktree := false; b_resume_reference := None; b_max_tool_calls := Some 80; b_max_tokens := None;
     b_auto_verify := true; b_working_directory := None |}.
Definition execute_script : list event :=
  Begin (ASubmit example_parent execute_submission $"sj_1") :: repeat (Exec 5 0) 5
  ++ run_script 0 (Finished (RText $"done")) ++ [Done 7 example_parent $"sj_2" 0].

Example verification_bypassed :
  let m := manager (after_script execute_script example_start) in
  is_Some (play execute_script example_start) /\ awaits_verification m 0 = true /\ completion_mailbox m = []
  /\ map (fun r => (status (job r), verification_job_id (delivery (job r)))) (rows m) = [(COMPLETED, None)]
  /\ (drain_completed_for_parent (Some $"root") m).1.*1 = [0%nat].
Proof. vm_compute. eauto 6. Qed.
