(* ===== verification/SubagentMailbox.v ===== *)
(** * Messages survive a crash (manager.py, [restore_from_history])

    A child's message is published when it is queued and again when the parent
    has taken it in.  Whatever else the log holds, restoring it brings back the
    messages that were queued and neither delivered nor already visible in the
    conversation: none is lost, and none comes twice. *)

From S2P Require Import Prelude PyValue Lines Replay SubagentJobs SubagentHistory.

(** What the log says of the mailbox: messages queued and delivered, and events
    about anything else. *)
Inductive MailEvent := MailQueued (c : SubagentCommunication) | MailDelivered (c : SubagentCommunication) | MailOther (e : logged).

Definition is_other (e : logged) : Prop :=
  (e.1 <> $"subagent_communication_queued" /\ e.1 <> $"subagent_communication_delivered") \/ to_child e.2 = true.

Section Mailbox.
Context `{TextDigest} `{SecondsLaws} `{PyCoercions}.

Definition log_event (e : MailEvent) : logged :=
  match e with
  | MailQueued c => ($"subagent_communication_queued", communication_payload c)
  | MailDelivered c => ($"subagent_communication_delivered", communication_payload c)
  | MailOther e => e
  end.

Definition queued_of (l : list MailEvent) : list SubagentCommunication :=
  omap (fun e => match e with MailQueued c => Some c | _ => None end) l.
Definition delivered_of (l : list MailEvent) : list pystr :=
  omap (fun e => match e with MailDelivered c => Some (item_id c) | _ => None end) l.

(** The message in the session that restores it. *)
Definition renewed (p : ParentAgent) (c : SubagentCommunication) (h : pystr) : SubagentCommunication :=
  {| item_id := item_id c; seq := seq c; sender_agent_id := sender_agent_id c; sender_job_id := sender_job_id c;
     recipient_agent_id := recipient_agent_id c; content := content c; c_created_at := c_created_at c;
     c_generation := default 0 (session_generation p); kind := kind c; reply_to := reply_to c; content_hash := h |}.

Definition renewed_key (p : ParentAgent) (c : SubagentCommunication) : pydict :=
  communication_key (sender_agent_id c) (sender_job_id c) (recipient_agent_id c) (default 0 (session_generation p))
    (kind c) (reply_to c) (content c).

(** What [queue_to_parent] ensures of a message. *)
Record sound_message (p : ParentAgent) (c : SubagentCommunication) : Prop := {
  has_id : item_id c <> [];
  has_content : content c <> [] /\ strip (content c) = content c;
  has_sender : sender_agent_id c <> [] /\ recipient_agent_id c <> [];
  has_kind : kind c ∈ MESSAGE_KINDS;
  has_seq : 1 <= seq c;
  has_time : c_created_at c <> 0;
  has_hash : exists h, sorted_hash (renewed_key p c) = Ok h;
}.

Definition renew (p : ParentAgent) (c : SubagentCommunication) : SubagentCommunication :=
  renewed p c (match sorted_hash (renewed_key p c) with Ok h => h | Raise _ => [] end).

Lemma optional_str_given s : optional_str (of_optional_str s) = s.
Proof. by destruct s. Qed.

Lemma truthy_str s : s <> [] -> truthy (VStr s) = true.
Proof. by destruct s. Qed.

(** The round trip of one message. *)
Lemma restore_message_payload now p c : sound_message p c ->
  restore_message now p (item_id c) (communication_payload c) = Ok (Some (renew p c)).
Proof.
  intros [Hid [Hc Hs] [Hsend Hrec] Hk Hn Ht [h Hh]]. unfold restore_message, renew, renewed.
  cbv zeta.
  assert (Eg : forall k v, dget (communication_payload c) k = Some v -> dget_none (communication_payload c) k = v)
    by (intros k v E; unfold dget_none; by rewrite E).
  rewrite (Eg $"sender_agent_id" (VStr (sender_agent_id c)) eq_refl), (Eg $"recipient_agent_id" (VStr (recipient_agent_id c)) eq_refl),
    (Eg $"content" (VStr (content c)) eq_refl), (Eg $"kind" (VStr (kind c)) eq_refl), (Eg $"seq" (VInt (seq c)) eq_refl),
    (Eg $"created_at" (seconds (c_created_at c)) eq_refl), (Eg $"sender_job_id" (of_optional_str (sender_job_id c)) eq_refl),
    (Eg $"reply_to" (of_optional_str (reply_to c)) eq_refl).
  unfold text_or, int_or, seconds_or, seconds, str_or_empty.
  assert (Hkne : kind c <> []) by (intros E; rewrite E in Hk; by vm_compute in Hk; set_solver).
  rewrite !truthy_str by done. cbn [py_str]. rewrite Hs, bool_decide_eq_false_2 by done.
  rewrite seconds_truthy, bool_decide_eq_true_2 by done. rewrite !optional_str_given, bool_decide_eq_true_2 by done.
  assert (Et : truthy (VInt (seq c)) = true) by (cbn; apply negb_true_iff, Z.eqb_neq; lia).
  rewrite Et, seconds_of_text. cbn [py_int]. unfold renewed_key in Hh. cbn [mbind result_bind]. rewrite Hh. cbn [mbind result_bind].
  rewrite Z.max_r by done. unfold renewed_key. by rewrite Hh.
Qed.

(** ** The log *)

Definition entry_of (c : SubagentCommunication) : pystr * pydict := (item_id c, communication_payload c).

Lemma payload_item c : str_or_empty (dget_none (communication_payload c) $"item_id") = item_id c.
Proof. unfold str_or_empty, dget_none. cbn. by destruct (item_id c). Qed.

Lemma payload_to_parent c : to_child (communication_payload c) = false.
Proof. unfold to_child, dget_none, is_str. apply bool_decide_eq_false_2. by vm_compute. Qed.

Lemma collect_queued c0 c : item_id c <> [] -> item_id c ∉ (queued_messages c0).*1 ->
  queued_messages (collect_event c0 (log_event (MailQueued c))) = queued_messages c0 ++ [entry_of c]
  /\ delivered_messages (collect_event c0 (log_event (MailQueued c))) = delivered_messages c0.
Proof.
  intros Hi Hn. cbn [log_event collect_event].
  rewrite (bool_decide_eq_false_2 ($"subagent_communication_queued" = $"subagent_job_changed")) by (by vm_compute).
  rewrite bool_decide_eq_true_2 by done. rewrite payload_item, payload_to_parent.
  destruct (item_id c) as [|x i] eqn:E; [done|]. cbn [queued_messages delivered_messages]. split; [|done].
  rewrite <-E. rewrite <-E in Hn. clear E Hi. induction (queued_messages c0) as [|[k d] l IH]; [done|]. cbn.
  apply not_elem_of_cons in Hn as [Hn1 Hn2]. rewrite decide_False by (cbn in Hn1; congruence). by rewrite IH.
Qed.

Lemma collect_delivered c0 c : item_id c <> [] ->
  queued_messages (collect_event c0 (log_event (MailDelivered c))) = queued_messages c0
  /\ delivered_messages (collect_event c0 (log_event (MailDelivered c))) = item_id c :: delivered_messages c0.
Proof.
  intros Hi. cbn [log_event collect_event].
  rewrite (bool_decide_eq_false_2 ($"subagent_communication_delivered" = $"subagent_job_changed")) by (by vm_compute).
  rewrite (bool_decide_eq_false_2 ($"subagent_communication_delivered" = $"subagent_communication_queued")) by (by vm_compute).
  rewrite bool_decide_eq_true_2 by done. rewrite payload_item, payload_to_parent.
  by destruct (item_id c) as [|x i].
Qed.

Lemma collect_other c0 e : is_other e ->
  queued_messages (collect_event c0 e) = queued_messages c0 /\ delivered_messages (collect_event c0 e) = delivered_messages c0.
Proof.
  destruct e as [k d]. cbn. intros Ho. unfold collect_event.
  destruct Ho as [[H1' H2']|Ht]; cbn in *; [|rewrite Ht]; repeat case_bool_decide; try done; by repeat case_match.
Qed.

Definition sound_event (p : ParentAgent) (e : MailEvent) : Prop :=
  match e with MailQueued c => sound_message p c | MailDelivered c => item_id c <> [] | MailOther e => is_other e end.

Lemma collect_mail p l c0 : Forall (sound_event p) l -> NoDup ((queued_messages c0).*1 ++ map item_id (queued_of l)) ->
  let c := foldl collect_event c0 (map log_event l) in
  queued_messages c = queued_messages c0 ++ map entry_of (queued_of l)
  /\ forall i, i ∈ delivered_messages c <-> i ∈ delivered_of l \/ i ∈ delivered_messages c0.
Proof.
  revert c0. induction l as [|e l IH]; intros c0 Hs Hd.
  { cbn. split; [by rewrite app_nil_r|]. intros i. split; [by right|]. by intros [?%elem_of_nil|?]. }
  apply Forall_cons in Hs as [He Hs]. cbn [map foldl]. destruct e as [c|c|e].
  - cbn [queued_of omap list_omap map] in Hd. pose proof Hd as (Hd1 & Hd2 & Hd3)%NoDup_app.
    assert (Hn : item_id c ∉ (queued_messages c0).*1) by (intros Hx; apply (Hd2 _ Hx); by left).
    destruct (collect_queued c0 c (has_id p c He) Hn) as [Eq Ed].
    destruct (IH (collect_event c0 (log_event (MailQueued c))) Hs) as [IHq IHd].
    { rewrite Eq, fmap_app, <-app_assoc. exact Hd. }
    cbv zeta. rewrite IHq, Eq, <-app_assoc. split; [done|]. intros i. rewrite IHd, Ed. done.
  - destruct (collect_delivered c0 c He) as [Eq Ed].
    destruct (IH (collect_event c0 (log_event (MailDelivered c))) Hs) as [IHq IHd]; [by rewrite Eq|].
    cbv zeta. rewrite IHq, Eq. split; [done|]. intros i. rewrite IHd, Ed. cbn. rewrite !elem_of_cons. tauto.
  - destruct (collect_other c0 e He) as [Eq Ed].
    destruct (IH (collect_event c0 e) Hs) as [IHq IHd]; [by rewrite Eq|].
    cbv zeta. cbn [log_event]. rewrite IHq, Eq. split; [done|]. intros i. rewrite IHd, Ed. done.
Qed.

(** A message the restored session still has to see. *)
Definition undelivered (p : ParentAgent) (delivered : list pystr) (c : SubagentCommunication) : bool :=
  negb (bool_decide (item_id c ∈ delivered)) && negb (py_contains ($"item_id=" ++ item_id c) (conversation p)).

Lemma restore_messages_mail now p delivered delivered' l : Forall (sound_message p) l ->
  (forall i, i ∈ delivered' <-> i ∈ delivered) ->
  restore_messages now p delivered' (map entry_of l) = Ok (map (renew p) (filter (fun c => undelivered p delivered c = true) l)).
Proof.
  intros Hs Hd. induction Hs as [|c l Hc Hs IH]; [done|]. cbn [map restore_messages entry_of].
  rewrite (bool_decide_ext _ _ (Hd (item_id c))), filter_cons.
  assert (Eu : bool_decide (item_id c ∈ delivered) || py_contains ($"item_id=" ++ item_id c) (conversation p)
    = negb (undelivered p delivered c)) by (unfold undelivered; by rewrite negb_andb, !negb_involutive).
  rewrite Eu. destruct (undelivered p delivered c); cbn [negb].
  - rewrite decide_True by done. rewrite restore_message_payload by done. cbn [mbind result_bind]. rewrite IH. done.
  - rewrite decide_False by done. exact IH.
Qed.

(** C40: Messages survive a crash.  Restoring a log gives back, in the order in
    which they were queued, exactly the messages that were queued and neither
    delivered nor visible in the conversation, with their sender, recipient,
    content, kind and time, for the session that restores them. *)
Theorem undelivered_messages_return now p l :
  Forall (sound_event p) l -> NoDup (map item_id (queued_of l)) ->
  StronglySorted (fun a b => seq a <= seq b) (queued_of l) ->
  let expected := map (renew p) (filter (fun c => undelivered p (delivered_of l) c = true) (queued_of l)) in
  let c := collect (map log_event l) in
  restore_messages now p (delivered_messages c) (queued_messages c) = Ok expected
  /\ forall r, restore_log now p (map log_event l) = Ok r -> pending_messages r = expected.
Proof.
  intros Hs Hd Ho. cbv zeta. destruct (collect_mail p l nothing_collected Hs Hd) as [Eq Ed]. fold (collect (map log_event l)) in *.
  assert (Hq : Forall (sound_message p) (queued_of l)).
  { clear -Hs. induction Hs as [|[c|c|e] l He Hs IH]; cbn; try done. by constructor. }
  assert (E : restore_messages now p (delivered_messages (collect (map log_event l))) (queued_messages (collect (map log_event l)))
    = Ok (map (renew p) (filter (fun c => undelivered p (delivered_of l) c = true) (queued_of l)))).
  { rewrite Eq. cbn [queued_messages nothing_collected app]. apply restore_messages_mail; [done|]. intros i. rewrite Ed.
    cbn. split; [by intros [?|?%elem_of_nil]|by left]. }
  split; [exact E|]. intros r Hr. unfold restore_log in Hr. apply bind_ok in Hr as (js & _ & Hr). rewrite E in Hr.
  cbn [mbind result_bind] in Hr. apply bind_ok in Hr as (ds & _ & Hr). injection Hr as <-. cbn [pending_messages].
  apply stable_sort_id. revert Ho. generalize (queued_of l), (delivered_of l). clear. intros q dl Ho.
  induction Ho as [|c q Hl IH Hc]; [constructor|]. rewrite filter_cons.
  case_decide; [|exact IH]. cbn [map]. constructor; [exact IH|]. apply Forall_fmap, Forall_forall. intros c' [_ Hin]%list_elem_of_filter.
  cbn. apply Z.leb_le. by eapply Forall_forall in Hc.
Qed.
End Mailbox.

(** ** An example *)

(** A number of seconds is printed as one code point. *)
Definition coded_seconds : Seconds :=
  {| seconds_of v := match v with VFloat [t] => Ok t | VFloat _ => Ok 0 | _ => Raise (TypeError $"float") end;
     seconds_text t := if t =? 0 then $"0.0" else [t] |}.
#[local] Existing Instance coded_seconds.
Lemma coded_seconds_laws : @SecondsLaws coded_seconds.
Proof.
  split; intros t; cbn; destruct (t =? 0) eqn:E.
  - apply Z.eqb_eq in E as ->. done.
  - done.
  - apply Z.eqb_eq in E as ->. by vm_compute.
  - apply Z.eqb_neq in E. rewrite (bool_decide_eq_true_2 (t <> 0)) by done. cbn.
    rewrite !bool_decide_eq_false_2; [done|by intros [=]|by intros [=]].
Qed.
#[local] Existing Instances coded_seconds_laws strict_coercions.
#[local] Instance plain_digest : TextDigest := {| text_digest := fun s => s |}.

Definition example_message (i : pystr) (n : Z) : SubagentCommunication :=
  {| item_id := i; seq := n; sender_agent_id := $"sa_1"; sender_job_id := Some $"sj_1"; recipient_agent_id := $"root";
     content := $"found it"; c_created_at := 5; c_generation := 1; kind := $"milestone"; reply_to := None;
     content_hash := [] |}.
Definition example_mail : list MailEvent :=
  [MailQueued (example_message $"sc_1" 1); MailQueued (example_message $"sc_2" 2); MailDelivered (example_message $"sc_1" 1);
   MailOther ($"runtime_reset", [])].
Definition resuming_parent : ParentAgent :=
  {| p_agent_id := Some $"root"; session_generation := Some 3; current_session_id := None; active_goal := None;
     directory := []; conversation := [] |}.

Lemma undelivered_messages_return_witness : exists r,
  restore_log 9 resuming_parent (map log_event example_mail) = Ok r /\ map item_id (pending_messages r) = [$"sc_2"].
Proof.
  assert (Hs : Forall (sound_event resuming_parent) example_mail).
  { repeat constructor; try (by vm_compute); try (by intros [=]); try (vm_compute; eauto; fail).
    all: try (left; split; by intros [=]). all: try (cbn; unfold MESSAGE_KINDS; set_solver). }
  assert (Hd : NoDup (map item_id (queued_of example_mail))) by (apply (bool_decide_unpack _); by vm_compute).
  assert (Ho : StronglySorted (fun a b => seq a <= seq b) (queued_of example_mail)) by (repeat constructor; by vm_compute).
  destruct (undelivered_messages_return 9 resuming_parent example_mail Hs Hd Ho) as [_ Hr].
  destruct (restore_log 9 resuming_parent (map log_event example_mail)) as [r|e] eqn:E; [|revert E; by vm_compute].
  exists r. split; [done|]. rewrite (Hr r eq_refl). by vm_compute.
Defined.
