(* ===== verification/Hoare.v ===== *)
(** * Triples for stateful, fallible calls

    [hoare P m Q E]: from a state with [P], a call that returns [a] ends with
    [Q a], and one that raises ends with [E].  [keeps J E m] is the triple of a
    call that maintains [J] and, when it raises, leaves at least [E]; the
    tactics [walk] and [step] go through a body whose steps do. *)

From S2P Require Import Prelude.

Definition hoare {S A} (P : S -> Prop) (m : stm S A) (Q : A -> S -> Prop) (E : S -> Prop) : Prop :=
  forall s, P s -> match m s with (Ok a, s') => Q a s' | (Raise _, s') => E s' end.

Definition keeps {S A} (J E : S -> Prop) (m : stm S A) : Prop := hoare J m (fun _ => J) E.

Section Rules.
Context {S : Type}.
Implicit Types (P J : S -> Prop) (E : S -> Prop).

Lemma hoare_ret {A} P E (a : A) (Q : A -> S -> Prop) : (forall s, P s -> Q a s) -> hoare P (mret a) Q E.
Proof. intros HP s Hs. exact (HP s Hs). Qed.

Lemma hoare_bind {A B} P E (m : stm S A) (f : A -> stm S B) R Q :
  hoare P m R E -> (forall a, hoare (R a) (f a) Q E) -> hoare P (m ≫= f) Q E.
Proof.
  intros Hm Hf s Hs. unfold mbind, stm_bind. specialize (Hm s Hs).
  destruct (m s) as [[a|x] s']; [exact (Hf a s' Hm)|exact Hm].
Qed.

Lemma hoare_conseq {A} P P' E E' (m : stm S A) (Q Q' : A -> S -> Prop) :
  hoare P m Q E -> (forall s, P' s -> P s) -> (forall a s, Q a s -> Q' a s) -> (forall s, E s -> E' s) ->
  hoare P' m Q' E'.
Proof.
  intros Hm HP HQ HE s Hs. specialize (Hm s (HP s Hs)). destruct (m s) as [[a|x] s']; auto.
Qed.

Lemma hoare_finally {A} P E (m : stm S A) (f : stm S ()) R Q :
  hoare P m R E -> (forall a, hoare (R a) f (fun _ => Q a) E) -> hoare E f (fun _ => E) E ->
  hoare P (st_finally m f) Q E.
Proof.
  intros Hm Hf He s Hs. unfold st_finally. specialize (Hm s Hs). destruct (m s) as [[a|x] s'].
  - specialize (Hf a s' Hm). by destruct (f s') as [[u|y] s2].
  - specialize (He s' Hm). by destruct (f s') as [[u|y] s2].
Qed.

(** A fact the precondition gives may be used outside the state. *)
Lemma hoare_assume {A} P E (m : stm S A) Q (fact : Prop) :
  (forall s, P s -> fact) -> (fact -> hoare P m Q E) -> hoare P m Q E.
Proof. intros HP Hm s Hs. exact (Hm (HP s Hs) s Hs). Qed.

Lemma hoare_if {A} P E (b : bool) (m n : stm S A) Q :
  (b = true -> hoare P m Q E) -> (b = false -> hoare P n Q E) -> hoare P (if b then m else n) Q E.
Proof. destruct b; auto. Qed.

Lemma hoare_raise {A} P E (x : exn) (Q : A -> S -> Prop) :
  (forall s, P s -> E s) -> hoare P (st_lift (Raise x)) Q E.
Proof. intros HP s Hs. exact (HP s Hs). Qed.

Lemma keeps_return {A} J E (a : A) : keeps J E (mret a).
Proof. by apply hoare_ret. Qed.

Lemma keeps_result {A} J E (r : result A) : (forall s, J s -> E s) -> keeps J E (st_lift r).
Proof. intros HJ s Hs. destruct r; [exact Hs|by apply HJ]. Qed.

Lemma keeps_seq {A B} J E (m : stm S A) (f : A -> stm S B) :
  keeps J E m -> (forall a, keeps J E (f a)) -> keeps J E (m ≫= f).
Proof. intros Hm Hf. by apply (hoare_bind _ _ _ _ (fun _ => J)). Qed.

Lemma keeps_then {A B} J E (m : stm S A) (f : A -> stm S B) Q :
  keeps J E m -> (forall a, hoare J (f a) Q E) -> hoare J (m ≫= f) Q E.
Proof. apply hoare_bind. Qed.

Lemma keeps_finally {A} J E (m : stm S A) (f : stm S ()) :
  keeps J E m -> keeps J E f -> keeps E E f -> keeps J E (st_finally m f).
Proof. intros Hm Hf He. by apply (hoare_finally _ _ _ _ (fun _ => J)). Qed.
End Rules.

Create HintDb triple.
#[export] Hint Resolve keeps_return keeps_result : triple.

(** Walks through a body whose steps all maintain the invariant. *)
Ltac walk :=
  repeat (intros; lazymatch goal with
  | |- hoare ?J ?m (fun _ => ?J) ?E => change (keeps J E m)
  | |- keeps _ _ (_ ≫= _) => apply keeps_seq
  | |- keeps _ _ (if ?b then _ else _) => destruct b
  | |- keeps _ _ (match ?x with _ => _ end) => destruct x
  | |- keeps _ _ _ => solve [eauto with triple]
  end).

(** One step that maintains the invariant. *)
Ltac step := apply keeps_then; [solve [walk]|intros].
