(* ===== verification/Regex.v ===== *)
(** * Regular expressions

    The part of [re] the program's patterns use: classes of characters,
    sequences, alternatives and greedy repetitions.  A pattern gives, at a
    position, what is left of the text after each way to match there, in the
    order in which the matcher of [re] tries them; the first one is its match. *)

From S2P Require Import Prelude.

Inductive re :=
| Chr (p : Z -> bool)
| Cat (a b : re)
| Alt (a b : re)
| Rep (a : re) (low : nat) (high : option nat).

Definition pred_bound (h : option nat) : option nat := match h with Some n => Some (pred n) | None => None end.

(** Greedy repetition of what [step] matches; a repetition that consumes
    nothing ends there, so the length of the text is fuel enough. *)
Fixpoint repeat_re (step : pystr -> list pystr) (fuel low : nat) (high : option nat) (s : pystr) : list pystr :=
  match fuel with
  | O => []
  | S fuel =>
    (match high with
     | Some O => []
     | _ => concat (map (repeat_re step fuel (pred low) (pred_bound high))
              (filter (fun t => (length t < length s)%nat) (step s)))
     end) ++ (match low with O => [s] | S _ => [] end)
  end.

Fixpoint matches (r : re) (s : pystr) : list pystr :=
  match r with
  | Chr p => match s with c :: s' => if p c then [s'] else [] | [] => [] end
  | Cat a b => concat (map (matches b) (matches a s))
  | Alt a b => matches a s ++ matches b s
  | Rep a low high => repeat_re (matches a) (S (length s)) low high s
  end.

(** The text a match at the start of [s] leaves. *)
Definition match_rest (r : re) (s : pystr) : option pystr := head (matches r s).

(** [re.finditer], the texts of its matches; the patterns match no empty text. *)
Fixpoint find_from (r : re) (fuel : nat) (s : pystr) : list pystr :=
  match fuel with
  | O => []
  | S fuel =>
    match match_rest r s with
    | Some rest =>
      if (length rest <? length s)%nat then take (length s - length rest) s :: find_from r fuel rest
      else match s with [] => [] | _ :: s' => find_from r fuel s' end
    | None => match s with [] => [] | _ :: s' => find_from r fuel s' end
    end
  end.

Definition find_all (r : re) (s : pystr) : list pystr := find_from r (S (length s)) s.

Definition lit (c : Z) : re := Chr (Z.eqb c).
Definition one_of (cs : pystr) : Z -> bool := fun c => bool_decide (c ∈ cs).

(** [p in s] on texts. *)
Fixpoint contains (s p : pystr) : bool :=
  startswith s p || match s with [] => false | _ :: s' => contains s' p end.

(** The Unicode tables behind [\w] and [str.lower]. *)
Class Words := { is_word : Z -> bool; lower : pystr -> pystr }.

(** Their values on ASCII. *)
Definition ascii_words : Words := {|
  is_word c := ((48 <=? c) && (c <=? 57)) || ((65 <=? c) && (c <=? 90)) || (c =? 95) || ((97 <=? c) && (c <=? 122));
  lower s := map (fun c => if (65 <=? c) && (c <=? 90) then c + 32 else c) s;
|}.

(** ** Lemmas *)

(** What is left is a suffix. *)
Lemma repeat_re_suffix step fuel : (forall s t, t ∈ step s -> t `suffix_of` s) ->
  forall low high s t, t ∈ repeat_re step fuel low high s -> t `suffix_of` s.
Proof.
  intros Hstep. induction fuel as [|fuel IH]; intros low high s t; cbn [repeat_re]; [by intros ?%not_elem_of_nil|].
  rewrite elem_of_app. intros [Ht|Ht].
  - assert (exists u, u ∈ step s /\ t ∈ repeat_re step fuel (pred low) (pred_bound high) u) as (u & Hu & Ht').
    { destruct high as [[|n]|]; [by apply not_elem_of_nil in Ht| |];
        apply list_elem_of_In, in_concat in Ht as (l & Hl & Ht); apply in_map_iff in Hl as (u & <- & Hu);
        apply list_elem_of_In in Hu, Ht; apply list_elem_of_filter in Hu as []; eauto. }
    etrans; [by eapply IH|auto].
  - destruct low; [|by apply not_elem_of_nil in Ht]. by apply list_elem_of_singleton in Ht as ->.
Qed.

Lemma matches_suffix r : forall s t, t ∈ matches r s -> t `suffix_of` s.
Proof.
  induction r as [p|a IHa b IHb|a IHa b IHb|a IHa low high]; intros s t; cbn [matches].
  - destruct s as [|c s]; [by intros ?%not_elem_of_nil|]. destruct (p c); [|by intros ?%not_elem_of_nil].
    intros ->%list_elem_of_singleton. by exists [c].
  - intros (l & Hl & Ht)%list_elem_of_In%in_concat. apply in_map_iff in Hl as (u & <- & Hu).
    apply list_elem_of_In in Hu, Ht. etrans; [by apply IHb|by apply IHa].
  - rewrite elem_of_app. intros [?|?]; auto.
  - by apply repeat_re_suffix.
Qed.

(** Every match found is a part of the text. *)
Lemma find_from_infix r fuel : forall s w, w ∈ find_from r fuel s -> exists u v, s = u ++ w ++ v.
Proof.
  induction fuel as [|fuel IH]; intros s w; cbn [find_from]; [by intros ?%not_elem_of_nil|].
  assert (Hskip : w ∈ match s with [] => [] | _ :: s' => find_from r fuel s' end -> exists u v, s = u ++ w ++ v).
  { destruct s as [|c s]; [by intros ?%not_elem_of_nil|]. intros (u & v & ->)%IH. by exists (c :: u), v. }
  unfold match_rest. destruct (matches r s) as [|rest l] eqn:Em; cbn [head]; [exact Hskip|].
  destruct (length rest <? length s)%nat; [|exact Hskip].
  destruct (matches_suffix r s rest) as [pre Hpre]; [rewrite Em; by left|]. subst s.
  rewrite length_app, Nat.add_sub, take_app_length. rewrite elem_of_cons. intros [->|Hw]; [by exists [], rest|].
  destruct (IH _ _ Hw) as (u & v & ->). exists (pre ++ u), v. by rewrite <-app_assoc.
Qed.

(** [re.finditer(r"[a-z.]+\.\w{1,5}", ...)]: the greedy class gives back what the
    rest needs. *)
Example find_all_backtracks :
  @find_all (Cat (Rep (Chr (fun c => @is_word ascii_words c || (c =? 46))) 1 None)
    (Cat (lit 46) (Rep (Chr (@is_word ascii_words)) 1 (Some 5%nat)))) $"see a.b.textual or x. y.c"
  = [$"a.b.textu"; $"y.c"].
Proof. vm_compute. reflexivity. Qed.
