(* ===== verification/ContextManager.v ===== *)
(** * The context manager (domain/context/manager.py, budget.py, usage.py, checkpoint.py)

    The manager predicts the size of the next request, and rewrites the model's
    history when it nears the window: it snips old tool outputs, replaces old
    turns by a summary, and as a last resort collapses everything but two
    rounds.  Each rewrite commits a checkpoint and a new version.

    Estimates are cached in the messages, so operations change the shared list
    even where they rewrite nothing.  The tokenizer, the image projection, the
    provider's compactor and the summarizer are parameters; identifiers and
    clocks are inputs.  Calibration factors are rational numbers: the rounding
    of binary floating point is not modelled. *)

From Stdlib Require Import QArith.QArith QArith.Qround Lqa.
From S2P Require Import Prelude PyValue ToolHistory Sanitizer ContextMessages Lines Regex Hoare.
Open Scope Z_scope.

Definition MESSAGE_TOKEN_KEY : pystr := $"_rc_token_count".

(** ** Data *)

Record ContextBudget := {
  model_window : Z;
  reserved_output : Z;
  fixed_prompt_tokens : Z;
  tool_schema_tokens : Z;
  safety_margin : Z;
}.

Definition available_input (b : ContextBudget) : Z :=
  Z.max 1024 (model_window b - (reserved_output b + fixed_prompt_tokens b + tool_schema_tokens b + safety_margin b)).

Definition request_input_limit (b : ContextBudget) : Z :=
  Z.max 1024 (model_window b - reserved_output b - safety_margin b).

(** [max(1, int(limit * fraction))], with the fraction in percent. *)
Definition wall (percent limit : Z) : Z := Z.max 1 (limit * percent / 100).

Record UsageObservation := {
  actual_prompt_tokens : Z;
  cached_input_tokens : option Z;
  local_request_estimate : Z;
  local_history_estimate : Z;
  u_history_version : Z;
  request_boundary : pystr;
  model_profile : pystr;
  observed_at : Z;
}.

Record CompactionCheckpoint := {
  c_id : pystr;
  c_trigger : pystr;
  strategy : list pystr;
  source_history_version : Z;
  replacement_history : list message;
  tokens_before : Z;
  tokens_after : Z;
  preserved_rounds : Z;
  created_at : Z;
  c_cache_epoch : Z;
  c_actual_prompt_tokens : option Z;
  c_cached_input_tokens : option Z;
  invalidated_suffix_tokens : option Z;
  reclaimed_tokens : option Z;
}.

Record ContextManager := {
  auto_snip : bool;
  auto_summarize : bool;
  auto_collapse : bool;
  snip_keep_recent_tools : Z;
  snip_threshold_chars : Z;
  snip_min_lines : Z;
  summarize_keep_recent_turns : Z;
  budget : ContextBudget;
  history_version : Z;
  cache_epoch : Z;
  checkpoints : list CompactionCheckpoint;
  consecutive_summary_failures : Z;
  usage_observations : list UsageObservation;
  latest_usage : option UsageObservation;
  estimate_scale : list (pystr * Q);
}.

(** What the interface is told. *)
Inductive Notice :=
| CompressionStarted (trigger : pystr) (before_tokens before_count : Z) (snip_gain : option Z)
| CompressionSkipped (trigger : pystr)
| CompressionCompleted (trigger : pystr) (before_tokens after_tokens before_count after_count : Z)
    (layers : list pystr) (checkpoint_id : option pystr) (rounds : option Z).

(** The manager, the history its caller shares with it, and the notices. *)
Record Compaction := { manager : ContextManager; messages : list message; notices : list Notice }.

(** ** Changes of the state *)

Definition set_versions (v e : Z) (cs : list CompactionCheckpoint) (m : ContextManager) : ContextManager :=
  {| auto_snip := auto_snip m; auto_summarize := auto_summarize m; auto_collapse := auto_collapse m;
     snip_keep_recent_tools := snip_keep_recent_tools m; snip_threshold_chars := snip_threshold_chars m;
     snip_min_lines := snip_min_lines m; summarize_keep_recent_turns := summarize_keep_recent_turns m;
     budget := budget m; history_version := v; cache_epoch := e; checkpoints := cs;
     consecutive_summary_failures := consecutive_summary_failures m;
     usage_observations := usage_observations m; latest_usage := latest_usage m; estimate_scale := estimate_scale m |}.
Definition set_usage (l : list UsageObservation) (u : option UsageObservation) (sc : list (pystr * Q))
    (m : ContextManager) : ContextManager :=
  {| auto_snip := auto_snip m; auto_summarize := auto_summarize m; auto_collapse := auto_collapse m;
     snip_keep_recent_tools := snip_keep_recent_tools m; snip_threshold_chars := snip_threshold_chars m;
     snip_min_lines := snip_min_lines m; summarize_keep_recent_turns := summarize_keep_recent_turns m;
     budget := budget m; history_version := history_version m; cache_epoch := cache_epoch m;
     checkpoints := checkpoints m; consecutive_summary_failures := consecutive_summary_failures m;
     usage_observations := l; latest_usage := u; estimate_scale := sc |}.
Definition set_settings (s u c : bool) (b : ContextBudget) (m : ContextManager) : ContextManager :=
  {| auto_snip := s; auto_summarize := u; auto_collapse := c;
     snip_keep_recent_tools := snip_keep_recent_tools m; snip_threshold_chars := snip_threshold_chars m;
     snip_min_lines := snip_min_lines m; summarize_keep_recent_turns := summarize_keep_recent_turns m;
     budget := b; history_version := history_version m; cache_epoch := cache_epoch m;
     checkpoints := checkpoints m; consecutive_summary_failures := consecutive_summary_failures m;
     usage_observations := usage_observations m; latest_usage := latest_usage m; estimate_scale := estimate_scale m |}.
Definition set_failures (n : Z) (m : ContextManager) : ContextManager :=
  {| auto_snip := auto_snip m; auto_summarize := auto_summarize m; auto_collapse := auto_collapse m;
     snip_keep_recent_tools := snip_keep_recent_tools m; snip_threshold_chars := snip_threshold_chars m;
     snip_min_lines := snip_min_lines m; summarize_keep_recent_turns := summarize_keep_recent_turns m;
     budget := budget m; history_version := history_version m; cache_epoch := cache_epoch m;
     checkpoints := checkpoints m; consecutive_summary_failures := n;
     usage_observations := usage_observations m; latest_usage := latest_usage m; estimate_scale := estimate_scale m |}.

Definition on_manager (f : ContextManager -> ContextManager) (s : Compaction) : Compaction :=
  {| manager := f (manager s); messages := messages s; notices := notices s |}.
Definition set_messages (l : list message) (s : Compaction) : Compaction :=
  {| manager := manager s; messages := l; notices := notices s |}.
Definition notify (n : Notice) (s : Compaction) : Compaction :=
  {| manager := manager s; messages := messages s; notices := notices s ++ [n] |}.

(** ** Settings and versions *)

(** [reconfigure]; an option not given keeps its value. *)
Definition reconfigure (window : Z) (s u c : option bool) (m : ContextManager) : ContextManager :=
  let b := budget m in
  set_settings (default (auto_snip m) s) (default (auto_summarize m) u) (default (auto_collapse m) c)
    {| model_window := window; reserved_output := reserved_output b; fixed_prompt_tokens := fixed_prompt_tokens b;
       tool_schema_tokens := tool_schema_tokens b; safety_margin := safety_margin b |} m.

Definition drop_latest_usage (m : ContextManager) : ContextManager :=
  set_usage (usage_observations m) None (estimate_scale m) m.

Definition restore_replay_state (version epoch : Z) (m : ContextManager) : ContextManager :=
  drop_latest_usage (set_versions (Z.max 0 version) (Z.max 0 epoch) (checkpoints m) m).

Definition invalidate_replay_prefix (m : ContextManager) : ContextManager :=
  drop_latest_usage (set_versions (history_version m + 1) (cache_epoch m + 1) (checkpoints m) m).

Definition restore_checkpoints (cs : list CompactionCheckpoint) (m : ContextManager) : ContextManager :=
  set_versions (history_version m) (cache_epoch m) cs m.

Definition clear_usage_observations (m : ContextManager) : ContextManager := set_usage [] None [] m.

Definition snip_wall (m : ContextManager) : Z := wall 60 (request_input_limit (budget m)).
Definition semantic_wall (m : ContextManager) : Z := wall 75 (request_input_limit (budget m)).
Definition snip_min_gain (m : ContextManager) : Z := wall 20 (request_input_limit (budget m)).
Definition rewrite_target (m : ContextManager) : Z := wall 40 (request_input_limit (budget m)).
Definition emergency_at (m : ContextManager) : Z := wall 90 (request_input_limit (budget m)).

Definition automatic_strategies (m : ContextManager) : list pystr :=
  (if auto_snip m then [$"snip"] else []) ++ (if auto_summarize m then [$"summarize"] else [])
  ++ (if auto_collapse m then [$"collapse"] else []).

(** ** Usage *)

Section Context.
Context `{Words}.
Context (count_tokens : message -> Z).
Context (image_projection : option (list message -> list message)).
Context (compact_tool_results : option (list message -> Z -> option (list message))).
Context (generate_summary : list message -> pystr -> Z -> Z -> result pystr) (cancelled : bool).

(** [estimate_message_tokens]: the count, and the message with its cache. *)
Definition estimate_message_tokens (refresh : bool) (m : message) : Z * message :=
  match (if refresh then None else dget m MESSAGE_TOKEN_KEY) with
  | Some (VInt n) => (n, m)
  | Some (VBool b) => ((if b then 1 else 0), m)
  | _ => (count_tokens m, dset m MESSAGE_TOKEN_KEY (VInt (count_tokens m)))
  end.

Definition cached (refresh : bool) (ms : list message) : list message :=
  map (fun m => snd (estimate_message_tokens refresh m)) ms.

(** [ensure_message_token_counts]: the total; it leaves [cached] messages. *)
Definition ensure_message_token_counts (refresh : bool) (ms : list message) : Z :=
  foldr (fun m n => fst (estimate_message_tokens refresh m) + n) 0 ms.

Definition is_image (v : pyval) : bool :=
  match v with
  | VDict part => is_str (dget_none part $"type") $"image" || is_str (dget_none part $"type") $"image_url"
  | _ => false
  end.
Definition has_images (m : message) : bool :=
  match dget_none m $"content" with VList l => existsb is_image l | _ => false end.

(** [get_context_tokens]; a projection makes copies, whose caches are lost. *)
Definition get_context_tokens (ms : list message) : Z * list message :=
  match image_projection with
  | Some project =>
    if existsb has_images ms then
      let recount := zip_with (fun original m => if has_images original then dpop m MESSAGE_TOKEN_KEY else m)
                       ms (project ms) in
      (ensure_message_token_counts false (recount ++ drop (length ms) (project ms)), ms)
    else (ensure_message_token_counts false ms, cached false ms)
  | None => (ensure_message_token_counts false ms, cached false ms)
  end.

Definition estimate_request_tokens (ms : list message) (tools : option pyval) : Z :=
  let shown := match tools with Some t => if truthy t then py_str t else $"[]" | None => $"[]" end in
  Z.max 1 (fst (get_context_tokens ms) + len shown / 3).

(** [UsageObservation.create]. *)
Definition create_observation (actual : Z) (cached_tokens : option Z) (request history version : Z)
    (boundary profile : pystr) (now : Z) : UsageObservation :=
  {| actual_prompt_tokens := Z.max 0 actual;
     cached_input_tokens := match cached_tokens with Some n => Some (Z.max 0 n) | None => None end;
     local_request_estimate := Z.max 1 request; local_history_estimate := Z.max 0 history;
     u_history_version := Z.max 0 version; request_boundary := boundary; model_profile := profile;
     observed_at := now |}.

Definition clamp_ratio (r : Q) : Q :=
  let low := if Qle_bool r (1 # 2) then (1 # 2)%Q else r in
  if Qle_bool 3 low then 3%Q else low.

(** The calibration factor after an observation. *)
Definition blend (previous : option Q) (ratio : Q) : Q :=
  match previous with None => ratio | Some p => (p * (3 # 4) + ratio * (1 # 4))%Q end.

(** [l[-100:]] of a list that is too long. *)
Definition last_100 {A} (l : list A) : list A := drop (length l - 100) l.

Definition observe_usage (actual : Z) (cached_tokens : option Z) (request history : Z)
    (boundary profile : pystr) (now : Z) (m : ContextManager) : option UsageObservation * ContextManager :=
  if actual <=? 0 then (None, m)
  else
    let o := create_observation actual cached_tokens request history (history_version m) boundary profile now in
    let ratio := clamp_ratio (actual_prompt_tokens o # Z.to_pos (Z.max 1 (local_request_estimate o))) in
    (Some o, set_usage (last_100 (usage_observations m ++ [o])) (Some o)
               (assoc_set (estimate_scale m) profile (blend (assoc_get (estimate_scale m) profile) ratio)) m).

Definition scale_of (profile : pystr) (m : ContextManager) : Q := default 1%Q (assoc_get (estimate_scale m) profile).

(** [predict_request_tokens]: the prediction, and the messages with caches. *)
Definition predict_request_tokens (m : ContextManager) (ms : list message) : Z * list message :=
  let '(local, ms) := get_context_tokens ms in
  let fallback := local + fixed_prompt_tokens (budget m) + tool_schema_tokens (budget m) in
  (match latest_usage m with
   | Some o =>
     if u_history_version o =? history_version m then
       let delta := local - local_history_estimate o in
       Z.max 1 (Qfloor (inject_Z (actual_prompt_tokens o) + inject_Z delta * scale_of (model_profile o) m))
     else Z.max 1 (Qfloor (inject_Z fallback * scale_of (model_profile o) m))
   | None => Z.max 1 (Qfloor (inject_Z fallback * scale_of $"default" m))
   end, ms).

(** ** Rewrites *)

Definition calls_tools (m : message) : bool := is_assistant m && truthy (dget_none m $"tool_calls").

(** The index of the [keep]-th last message that calls tools, 0 when there are
    fewer; [l] is the reversed history, whose head has index [i]. *)
Fixpoint find_cut (keep rounds i : Z) (l : list message) : Z :=
  match l with
  | [] => 0
  | m :: l =>
    if calls_tools m then
      if keep <=? rounds + 1 then i else find_cut keep (rounds + 1) (i - 1) l
    else find_cut keep rounds (i - 1) l
  end.

Definition cut_index (keep : Z) (ms : list message) : Z := find_cut keep 0 (len ms - 1) (reverse ms).

Definition snip_marker (lines : Z) (m : message) : pystr :=
  [10] ++ $"... (" ++ z_str lines ++ $" lines, context-snipped; tool_call_id="
  ++ py_str (py_or (dget_none m $"tool_call_id") (VStr $"unknown"))
  ++ $"; full committed output remains searchable in HistoryLedger) ..." ++ [10].

(** The text a tool result is cut to, when it is long enough. *)
Definition snipped_text (threshold min_lines : Z) (m : message) : option pystr :=
  if is_tool m then
    match dget_or m $"content" (VStr []) with
    | VStr content =>
      if len content <=? threshold then None
      else
        let lines := splitlines content in
        if len lines <=? min_lines then None
        else Some (join [10] (slice_to 3 lines) ++ snip_marker (len lines) m ++ join [10] (slice_last 3 lines))
    | _ => None
    end
  else None.

Definition snip_message (threshold min_lines : Z) (m : message) : message :=
  match snipped_text threshold min_lines m with
  | Some text => dpop (dset m $"content" (VStr text)) MESSAGE_TOKEN_KEY
  | None => m
  end.

(** [_snip_tool_outputs]: the messages, and whether one changed. *)
Definition snip_tool_outputs (c : ContextManager) (ms : list message) : list message * bool :=
  let cut := cut_index (snip_keep_recent_tools c) ms in
  let old := slice_to cut ms in
  (map (snip_message (snip_threshold_chars c) (snip_min_lines c)) old ++ slice_from cut ms,
   existsb (fun m => bool_decide (is_Some (snipped_text (snip_threshold_chars c) (snip_min_lines c) m))) old).

Definition is_user_turn (m : message) : bool := role_is m $"user" && negb (is_synthetic_context_message m).

(** The indices of the user's turns, from index [i] on. *)
Fixpoint user_turn_starts (i : Z) (ms : list message) : list Z :=
  match ms with
  | [] => []
  | m :: ms => (if is_user_turn m then [i] else []) ++ user_turn_starts (i + 1) ms
  end.

(** [_find_recent_user_turn_boundary]. *)
Definition find_recent_user_turn_boundary (ms : list message) (keep : Z) : Z :=
  if keep <=? 0 then len ms
  else
    let starts := user_turn_starts 0 ms in
    if len starts <=? keep then 0 else default 0 (slice_from (len starts - keep) starts !! 0%nat).

(** [_safe_round_boundary_at_or_before]. *)
Fixpoint safe_boundary_from (offset split total : Z) (rounds : list (list message)) : Z :=
  match rounds with
  | [] => Z.min split total
  | r :: rounds =>
    if split <? offset + len r then offset else safe_boundary_from (offset + len r) split total rounds
  end.
Definition safe_round_boundary_at_or_before (ms : list message) (split : Z) : Z :=
  safe_boundary_from 0 split (len ms) (group_api_rounds ms).

(** The patterns of [_extract_key_info]. *)
Definition path_re : re :=
  Cat (Rep (Chr (fun c => is_word c || one_of $"./-" c)) 1 None)
    (Cat (lit 46) (Rep (Chr is_word) 1 (Some 5%nat))).

(** [sorted(set(l))]. *)
Definition sorted_set (l : list pystr) : list pystr := stable_sort text_leb (remove_dups l).

Fixpoint key_facts (ms : list message) : result (list pystr * list pystr) :=
  match ms with
  | [] => Ok ([], [])
  | m :: ms =>
    match py_or (dget_or m $"content" (VStr [])) (VStr []) with
    | VStr text =>
      let errors := map (fun l => slice_to 150 (strip l))
        (filter (fun l => contains (lower l) $"error" || contains l $"Error" = true) (splitlines text)) in
      rest ← key_facts ms;
      Ok (find_all path_re text ++ rest.1, errors ++ rest.2)
    | _ => Raise (TypeError $"expected string or bytes-like object")
    end
  end.

(** [_extract_key_info]. *)
Definition extract_key_info (ms : list message) : result pystr :=
  facts ← key_facts ms;
  let parts :=
    (match facts.1 with [] => [] | files => [$"Files touched: " ++ join $", " (slice_to 20 (sorted_set files))] end)
    ++ (match facts.2 with [] => [] | errors => [$"Errors seen: " ++ join $"; " (slice_to 5 errors)] end) in
  Ok (match join [10] parts with [] => $"(no extractable context)" | text => text end).

Abbreviation CM := (stm Compaction).

(** [_get_summary]. *)
Definition get_summary (old : list message) (kind : pystr) (rounds : Z) : CM pystr := fun s =>
  match generate_summary old kind (history_version (manager s)) rounds with
  | Ok text => (Ok text, on_manager (set_failures 0) s)
  | Raise x =>
    if cancelled then (Raise x, s)
    else (extract_key_info old, on_manager (fun m => set_failures (consecutive_summary_failures m + 1) m) s)
  end.

(** The history that starts with a summary of what the tail does not hold. *)
Definition with_summary (summary kind reason : pystr) (tail : list message) : result (list message) :=
  m ← synthetic_user_message $"context_summary" (VStr summary) $"context_compactor" [($"kind", VStr kind)] true;
  normalize_history (m :: tail) reason.

(** [_summarize_old] on a list of messages: its replacement, if any. *)
Definition summarize_old (ms : list message) : CM (option (list message)) :=
  s ← st_get;
  let keep := summarize_keep_recent_turns (manager s) in
  let split := safe_round_boundary_at_or_before ms (find_recent_user_turn_boundary ms keep) in
  if (split <=? 0) || (len ms <=? split) then mret None
  else
    let tail := slice_from split ms in
    summary ← get_summary (slice_to split ms) $"partial_prefix" (len (group_api_rounds tail));
    ms ← st_lift (with_summary summary $"partial_prefix" $"context compaction" tail);
    mret (Some ms).

(** [_hard_collapse]; [clear] empties the list it rewrites, before the new
    history is made. *)
Definition hard_collapse (clear : CM ()) (ms : list message) : CM (list message) :=
  let split := recent_round_start ms 2 in
  let tail := slice_from split ms in
  summary ← get_summary (slice_to split ms) $"full_recovery" (len (group_api_rounds tail));
  _ ← clear;
  st_lift (with_summary summary $"full_recovery" $"hard context compaction" tail).

(** ** Commits *)

Definition create_checkpoint (id trigger : pystr) (layers : list pystr) (source : Z) (ms : list message)
    (before after rounds now epoch : Z) (o : option UsageObservation) (suffix : option Z) : CompactionCheckpoint :=
  {| c_id := id; c_trigger := trigger; strategy := layers; source_history_version := source;
     replacement_history := map (fun m => dpop m MESSAGE_TOKEN_KEY) ms; tokens_before := before;
     tokens_after := after; preserved_rounds := rounds; created_at := now; c_cache_epoch := epoch;
     c_actual_prompt_tokens := match o with Some o => Some (actual_prompt_tokens o) | None => None end;
     c_cached_input_tokens := match o with Some o => cached_input_tokens o | None => None end;
     invalidated_suffix_tokens := suffix; reclaimed_tokens := Some (Z.max 0 (before - after)) |}.

(** The input the provider had cached and the rewrite invalidates. *)
Definition invalidated (before : Z) (o : option UsageObservation) : option Z :=
  match o with
  | Some o => match cached_input_tokens o with Some n => Some (Z.max 0 (before - n)) | None => None end
  | None => None
  end.

(** The commit of a rewrite, with its notice. *)
Definition commit (id : pystr) (now : Z) (trigger : pystr) (layers : list pystr) (before after before_count : Z)
    (suffix : option UsageObservation -> option Z) : CM () := st_modify (fun s =>
  let m := manager s in
  let rounds := Z.min (summarize_keep_recent_turns m) (len (group_api_rounds (messages s))) in
  let cp := create_checkpoint id trigger layers (history_version m) (messages s) before after rounds now
              (cache_epoch m + 1) (latest_usage m) (suffix (latest_usage m)) in
  notify (CompressionCompleted trigger before after before_count (len (messages s)) layers (Some id) (Some rounds))
    (on_manager (fun m => drop_latest_usage
       (set_versions (history_version m + 1) (cache_epoch m + 1) (checkpoints m ++ [cp]) m)) s)).

(** Predictions about the shared history and about a candidate. *)
Definition predict_messages : CM Z := fun s =>
  let '(n, ms) := predict_request_tokens (manager s) (messages s) in (Ok n, set_messages ms s).
Definition predict_list (ms : list message) : CM (Z * list message) := fun s =>
  (Ok (predict_request_tokens (manager s) ms), s).

(** The deterministic part of a rewrite: the provider's own compaction, then
    snipping. *)
Definition snip_layers (c : ContextManager) (ms : list message) : list message * list pystr :=
  let '(ms, first) := match compact_tool_results with
    | Some compact => match compact ms (snip_keep_recent_tools c) with
                      | Some ms' => (ms', [$"provider_tool_cache_compaction"])
                      | None => (ms, [])
                      end
    | None => (ms, [])
    end in
  let '(ms, changed) := snip_tool_outputs c ms in
  (ms, first ++ (if changed then [$"snip_tool_outputs"] else [])).

Definition maybe_compress (id : pystr) (now : Z) : CM bool :=
  before ← predict_messages;
  s ← st_get;
  let c := manager s in
  let snip_due := auto_snip c && (snip_wall c <=? before) in
  let semantic_due := auto_summarize c && (semantic_wall c <=? before) in
  let emergency_due := auto_collapse c && (emergency_at c <=? before) in
  if negb (snip_due || semantic_due || emergency_due) then mret false
  else
    let '(candidate, layers) := if snip_due then snip_layers c (messages s) else (messages s, []) in
    pc ← predict_list candidate;
    let '(predicted, candidate) := pc in
    let snip_gain := Z.max 0 (before - predicted) in
    if negb semantic_due && negb emergency_due && (snip_gain <? snip_min_gain c) then mret false
    else
      let trigger := if emergency_due then $"emergency" else if semantic_due then $"semantic_wall"
                     else $"profitable_snip" in
      let before_count := len (messages s) in
      _ ← st_modify (notify (CompressionStarted trigger before before_count
                               (if snip_due then Some snip_gain else None)));
      summarized ← (if semantic_due then summarize_old candidate else mret None);
      let '(candidate, layers) := match summarized with
        | Some ms => (ms, layers ++ [$"partial_prefix"])
        | None => (candidate, layers)
        end in
      pa ← predict_list candidate;
      let '(after, candidate) := pa in
      let collapse_due := emergency_due && (emergency_at c <? after) && (4 <? len candidate) in
      if bool_decide (summarized = None) && (snip_gain <? snip_min_gain c) && negb collapse_due then
        _ ← st_modify (notify (CompressionSkipped trigger)); mret false
      else
        final ← (if collapse_due then
                   ms ← hard_collapse (mret ()) candidate;
                   pf ← predict_list ms;
                   mret (pf.2, layers ++ [$"full_recovery"], pf.1)
                 else mret (candidate, layers, after));
        let '(candidate, layers, after) := final in
        _ ← st_modify (set_messages candidate);
        _ ← commit id now trigger layers before after before_count (invalidated before);
        mret true.

Inductive Strategy := Snip | Summarize | Collapse | OtherStrategy (name : pystr).
Definition strategy_name (x : Strategy) : pystr :=
  match x with Snip => $"snip" | Summarize => $"summarize" | Collapse => $"collapse" | OtherStrategy n => n end.

Definition force_compress (x : Strategy) (id : pystr) (now : Z) : CM bool :=
  before ← predict_messages;
  s ← st_get;
  let c := manager s in
  let before_count := len (messages s) in
  _ ← st_modify (notify (CompressionStarted $"manual" before before_count None));
  changed ← match x with
    | Snip => let '(ms, changed) := snip_tool_outputs c (messages s) in
              _ ← st_modify (set_messages ms); mret changed
    | Summarize =>
      replaced ← summarize_old (messages s);
      match replaced with Some ms => _ ← st_modify (set_messages ms); mret true | None => mret false end
    | Collapse =>
      if len (messages s) <=? 4 then mret false
      else ms ← hard_collapse (st_modify (set_messages [])) (messages s); _ ← st_modify (set_messages ms); mret true
    | OtherStrategy _ => mret false
    end;
  if negb (changed : bool) then
    _ ← st_modify (notify (CompressionSkipped $"manual")); mret false
  else
    after ← predict_messages;
    _ ← commit id now $"manual" [strategy_name x] before after before_count (fun _ => None);
    mret true.
End Context.

(** ** Lemmas: messages that differ in content and cache *)

(** What the provider contract reads of a message is the same. *)
Definition similar (m m' : message) : Prop :=
  forall k, k <> $"content" -> k <> MESSAGE_TOKEN_KEY -> dget m' k = dget m k.

Lemma similar_refl m : similar m m.
Proof. done. Qed.

Lemma similar_trans a b c : similar a b -> similar b c -> similar a c.
Proof. intros Hab Hbc k Hc Ht. by rewrite Hbc, Hab. Qed.

Lemma similar_none m m' k : similar m m' -> k <> $"content" -> k <> MESSAGE_TOKEN_KEY ->
  dget_none m' k = dget_none m k.
Proof. intros Hs Hc Ht. unfold dget_none. by rewrite Hs. Qed.

Lemma similar_role m m' r : similar m m' -> role_is m' r = role_is m r.
Proof. intros Hs. unfold role_is. by rewrite (similar_none m m'). Qed.

Lemma similar_call_ids m m' : similar m m' -> message_call_ids m' = message_call_ids m.
Proof.
  intros Hs. unfold message_call_ids, is_assistant. rewrite (similar_role m m') by done.
  by rewrite (similar_none m m').
Qed.

Lemma similar_wf m m' : similar m m' -> message_wf m -> message_wf m'.
Proof.
  intros Hs Hm. unfold message_wf, is_tool, is_assistant in *. rewrite !(similar_role m m') by done.
  by rewrite (similar_none m m').
Qed.

Lemma similar_answers m m' id : similar m m' -> answers id m -> answers id m'.
Proof.
  intros Hs. unfold answers, is_tool, response_id. rewrite (similar_role m m') by done.
  by rewrite (similar_none m m').
Qed.

Lemma contract_similar ms : contract ms -> forall ms', Forall2 similar ms ms' -> contract ms'.
Proof.
  induction 1 as [|m rs rest Htool Hrs Hrest IH]; intros ms' Hms.
  { apply Forall2_nil_inv_l in Hms as ->. constructor. }
  apply Forall2_cons_inv_l in Hms as (m' & ms'' & Hm & Hms & ->).
  apply Forall2_app_inv_l in Hms as (rs' & rest' & Hrs' & Hrest' & ->).
  constructor; [unfold is_tool in *; by rewrite (similar_role m m')| |by apply IH].
  rewrite (similar_call_ids m m') by done. clear -Hrs Hrs'.
  revert rs' Hrs'. induction Hrs as [|id r ids rs Hr _ IH]; intros rs' Hrs'.
  - apply Forall2_nil_inv_l in Hrs' as ->. constructor.
  - apply Forall2_cons_inv_l in Hrs' as (r' & rs'' & Hr' & Hrs' & ->). constructor; [by eapply similar_answers|auto].
Qed.

Lemma Forall2_map_r {A B} (R : A -> B -> Prop) (f : A -> B) l : (forall x, R x (f x)) -> Forall2 R l (map f l).
Proof. intros Hf. induction l; cbn; constructor; auto. Qed.

Lemma Forall_similar ms ms' : Forall2 similar ms ms' -> Forall message_wf ms -> Forall message_wf ms'.
Proof.
  induction 1 as [|m m' ms ms' Hm _ IH]; [done|]. intros [Hwf Hms]%Forall_cons. constructor; [by eapply similar_wf|auto].
Qed.

(** A history providers accept, and the code can read. *)
Definition acceptable (ms : list message) : Prop := contract ms /\ Forall message_wf ms.

Lemma acceptable_similar ms ms' : Forall2 similar ms ms' -> acceptable ms -> acceptable ms'.
Proof. intros Hs [Hc Hwf]. split; [by eapply contract_similar|by eapply Forall_similar]. Qed.

(** A cut before a message that is not an output. *)
Lemma acceptable_cut pre suf : acceptable (pre ++ suf) ->
  match suf with [] => True | m :: _ => is_tool m = false end -> acceptable pre /\ acceptable suf.
Proof.
  intros [Hc Hwf] Hsuf. apply Forall_app in Hwf as [Hp Hs].
  destruct (contract_cut _ Hc pre suf eq_refl Hsuf). by split; split.
Qed.

Section Rewrites.
Context `{Words}.
Context (count_tokens : message -> Z).
Context (image_projection : option (list message -> list message)).
Context (compact_tool_results : option (list message -> Z -> option (list message))).
Context (generate_summary : list message -> pystr -> Z -> Z -> result pystr) (cancelled : bool).

(** *** Caches *)

Lemma dset_similar m v : similar m (dset m MESSAGE_TOKEN_KEY v).
Proof. intros k _ Ht. by rewrite dget_dset_ne. Qed.

Lemma cached_message_similar r m : similar m (estimate_message_tokens count_tokens r m).2.
Proof.
  unfold estimate_message_tokens. destruct (if r then None else _) as [[]|]; cbn; try apply similar_refl; apply dset_similar.
Qed.

Lemma dpop_dset m k v : dpop (dset m k v) k = dpop m k.
Proof.
  unfold dpop. induction m as [|[k' v'] m IH]; cbn [dset]; [by rewrite filter_cons_False by (by intros Hn; apply Hn)|].
  destruct (decide (k = k')) as [->|Hk].
  - rewrite !filter_cons_False; [done|by intros Hn; apply Hn|by intros Hn; apply Hn].
  - rewrite !filter_cons_True by (cbn; congruence). by rewrite IH.
Qed.

(** The same history but for caches. *)
Definition same_but_caches (ms ms' : list message) : Prop :=
  map (fun m => dpop m MESSAGE_TOKEN_KEY) ms' = map (fun m => dpop m MESSAGE_TOKEN_KEY) ms.

Lemma cached_same r ms : same_but_caches ms (cached count_tokens r ms).
Proof.
  unfold same_but_caches, cached. rewrite map_map. apply map_ext. intros m. unfold estimate_message_tokens.
  destruct (if r then None else _) as [[]|]; cbn; try done; apply dpop_dset.
Qed.

Lemma cached_similar r ms : Forall2 similar ms (cached count_tokens r ms).
Proof. apply Forall2_map_r, cached_message_similar. Qed.

Lemma predict_messages_case m ms :
  (predict_request_tokens count_tokens image_projection m ms).2 = ms \/
  (predict_request_tokens count_tokens image_projection m ms).2 = cached count_tokens false ms.
Proof.
  unfold predict_request_tokens, get_context_tokens.
  destruct image_projection; [destruct (existsb has_images ms)|]; cbn; auto.
Qed.

Lemma predict_similar m ms : Forall2 similar ms (predict_request_tokens count_tokens image_projection m ms).2.
Proof.
  destruct (predict_messages_case m ms) as [->| ->]; [|apply cached_similar]. by apply Forall_Forall2_diag, Forall_true.
Qed.

Lemma predict_same m ms : same_but_caches ms (predict_request_tokens count_tokens image_projection m ms).2.
Proof. destruct (predict_messages_case m ms) as [->| ->]; [done|apply cached_same]. Qed.

(** *** Snipping *)

Lemma snip_message_similar t n m : similar m (snip_message t n m).
Proof.
  unfold snip_message. destruct (snipped_text t n m); [|done]. intros k Hc Ht.
  rewrite dget_dpop. rewrite decide_False by done. by rewrite dget_dset_ne.
Qed.

Lemma snip_similar c ms : Forall2 similar ms (snip_tool_outputs c ms).1.
Proof.
  unfold snip_tool_outputs. cbn [fst]. rewrite <-(take_drop (Z.to_nat (cut_index (snip_keep_recent_tools c) ms)) ms) at 1.
  apply Forall2_app; [apply Forall2_map_r, snip_message_similar|by apply Forall_Forall2_diag, Forall_true].
Qed.

(** The provider's own compaction gives an acceptable history. *)
Definition compactor_sound : Prop :=
  forall compact ms n ms', compact_tool_results = Some compact -> compact ms n = Some ms' -> acceptable ms -> acceptable ms'.

Lemma snip_layers_acceptable c ms : compactor_sound -> acceptable ms -> acceptable (snip_layers compact_tool_results c ms).1.
Proof.
  intros Hc Hms. unfold snip_layers. set (first := match compact_tool_results with Some _ => _ | None => _ end).
  assert (Hf : acceptable first.1).
  { subst first. destruct compact_tool_results as [compact|] eqn:E; [|done].
    destruct (compact ms _) as [ms'|] eqn:Ec; [|done]. by eapply Hc. }
  destruct first as [ms1 l1]. cbn in Hf. pose proof (snip_similar c ms1) as Hs.
  destruct (snip_tool_outputs c ms1) as [ms2 b]. cbn in *. by eapply acceptable_similar.
Qed.

(** *** Boundaries *)

Lemma safe_boundary_inside split total rounds : forall offset,
  offset <= split < offset + len (concat rounds) ->
  exists k, (k < length rounds)%nat /\
    safe_boundary_from offset split total rounds = offset + len (concat (take k rounds)) /\
    offset + len (concat (take k rounds)) <= split.
Proof.
  induction rounds as [|r rounds IH]; intros offset; cbn [safe_boundary_from concat]; [rewrite len_nil; lia|].
  rewrite len_app. intros Hs. destruct (split <? offset + len r) eqn:E; zbool.
  - exists 0%nat. cbn. rewrite len_nil. split_and!; lia.
  - destruct (IH (offset + len r)) as (k & Hk & Hb & Hle); [lia|].
    exists (S k). cbn [take concat length]. rewrite len_app. split_and!; lia.
Qed.

Lemma safe_boundary_outside split total rounds : forall offset, offset + len (concat rounds) <= split ->
  safe_boundary_from offset split total rounds = Z.min split total.
Proof.
  induction rounds as [|r rounds IH]; intros offset; cbn [safe_boundary_from concat]; [done|].
  rewrite len_app. pose proof (len_nonneg (concat rounds)). intros Hle.
  destruct (split <? offset + len r) eqn:E; zbool; [lia|]. apply IH. lia.
Qed.

(** The boundary, where it leaves something on both sides, is the start of a
    round, at or before the split. *)
Lemma safe_boundary_cut ms split : let b := safe_round_boundary_at_or_before ms split in
  0 <= split -> 0 < b < len ms -> acceptable ms ->
  b <= split /\ acceptable (slice_from b ms) /\
  match slice_from b ms with [] => False | m :: _ => is_assistant m = true end.
Proof.
  cbn zeta. intros Hsplit Hb Hms. destruct (group_api_rounds_spec ms) as (Hall & _ & Hstarts).
  set (rounds := group_api_rounds ms) in *.
  destruct (Z.le_gt_cases (len ms) split) as [Hout|Hin].
  { unfold safe_round_boundary_at_or_before in Hb. fold rounds in Hb.
    rewrite safe_boundary_outside in Hb by (rewrite Hall; lia). lia. }
  destruct (safe_boundary_inside split (len ms) rounds 0) as (k & Hk & Hbk & Hle); [rewrite Hall; lia|].
  change (safe_boundary_from 0 split (len ms) rounds) with (safe_round_boundary_at_or_before ms split) in Hbk.
  set (b := safe_round_boundary_at_or_before ms split) in *. rewrite Z.add_0_l in Hbk.
  pose proof (concat_take_drop rounds k) as Hcat. rewrite Hall in Hcat.
  assert (Hdrop : slice_from b ms = concat (drop k rounds)).
  { unfold slice_from. rewrite Hbk. unfold len. rewrite Nat2Z.id, Hcat. by rewrite drop_app_length. }
  assert (Hhead : match slice_from b ms with [] => False | m :: _ => is_assistant m = true end).
  { rewrite Hdrop. destruct k as [|k]; [change (concat (take 0 rounds)) with (@nil message) in Hbk; rewrite len_nil in Hbk; lia|].
    destruct rounds as [|g0 rounds']; [cbn in Hk; lia|]. cbn in Hstarts, Hk |- *.
    destruct (drop k rounds') as [|g gs] eqn:Ed.
    { assert (length (drop k rounds') = 0%nat) as Hz by by rewrite Ed. rewrite length_drop in Hz. lia. }
    assert (Hg : starts_assistant g).
    { rewrite Forall_forall in Hstarts. apply Hstarts.
      rewrite <-(take_drop k rounds'), Ed. apply elem_of_app. right. by left. }
    by destruct g. }
  split_and!; [lia| |done].
  rewrite <-(take_drop (Z.to_nat b) ms) in Hms. apply acceptable_cut in Hms as [_ Hs]; [done|].
  unfold slice_from in Hhead. destruct (drop (Z.to_nat b) ms); [done|]. by apply assistant_not_tool.
Qed.

(** How many turns of the user a history holds. *)
Definition count_turns (ms : list message) : Z := len (filter (fun m => is_user_turn m = true) ms).

Lemma count_turns_cons m ms : count_turns (m :: ms) = (if is_user_turn m then 1 else 0) + count_turns ms.
Proof.
  unfold count_turns. rewrite filter_cons. destruct (is_user_turn m).
  - by rewrite decide_True, len_cons by done.
  - by rewrite decide_False by done.
Qed.

Lemma starts_len ms : forall i, len (user_turn_starts i ms) = count_turns ms.
Proof.
  induction ms as [|m ms IH]; intros i; [done|]. cbn [user_turn_starts].
  rewrite len_app, IH, count_turns_cons. by destruct (is_user_turn m).
Qed.

(** From the [n]-th turn on there are the turns but the first [n]. *)
Lemma starts_turns ms : forall i n j, user_turn_starts i ms !! n = Some j ->
  i <= j /\ count_turns (drop (Z.to_nat (j - i)) ms) = count_turns ms - Z.of_nat n.
Proof.
  induction ms as [|m ms IH]; intros i n j; [done|]. cbn [user_turn_starts]. rewrite count_turns_cons.
  assert (Hstep : forall k, user_turn_starts (i + 1) ms !! k = Some j ->
    i <= j /\ count_turns (drop (Z.to_nat (j - i)) (m :: ms)) = count_turns ms - Z.of_nat k).
  { intros k Hj. destruct (IH _ _ _ Hj) as [Hle Hc]. split; [lia|].
    replace (Z.to_nat (j - i)) with (S (Z.to_nat (j - (i + 1)))) by lia. exact Hc. }
  destruct (is_user_turn m) eqn:Em; cbn [app].
  - destruct n as [|n]; cbn [lookup list_lookup].
    + intros [= <-]. rewrite Z.sub_diag. change (drop (Z.to_nat 0) (m :: ms)) with (m :: ms). rewrite count_turns_cons, Em. split; lia.
    + intros Hj. destruct (Hstep n Hj) as [? ->]. split; lia.
  - intros Hj. destruct (Hstep n Hj) as [? ->]. split; lia.
Qed.

Lemma turn_boundary_spec ms keep : let b := find_recent_user_turn_boundary ms keep in
  0 <= b /\ (0 < keep -> 0 < b -> keep <= count_turns (slice_from b ms)).
Proof.
  cbn zeta. unfold find_recent_user_turn_boundary. pose proof (len_nonneg ms).
  destruct (keep <=? 0) eqn:E0; zbool; [split; lia|].
  destruct (len (user_turn_starts 0 ms) <=? keep) eqn:E1; zbool; [split; lia|].
  unfold slice_from. rewrite lookup_drop, Nat.add_0_r.
  destruct (user_turn_starts 0 ms !! Z.to_nat (len (user_turn_starts 0 ms) - keep)) as [j|] eqn:Ej; cbn.
  - destruct (starts_turns ms 0 _ j Ej) as [Hle Hc]. rewrite Z.sub_0_r in Hc. split; [lia|]. intros _ _.
    rewrite Hc, <-(starts_len ms 0). lia.
  - split; lia.
Qed.

Lemma count_turns_drop (n k : nat) ms : (n <= k)%nat -> count_turns (drop k ms) <= count_turns (drop n ms).
Proof.
  intros Hnk. replace k with (n + (k - n))%nat by lia. rewrite <-drop_drop. unfold count_turns.
  generalize (drop n ms). intros l. rewrite <-(take_drop (k - n) l) at 2. rewrite filter_app, len_app.
  pose proof (len_nonneg (filter (fun m => is_user_turn m = true) (take (k - n) l))). lia.
Qed.

(** *** Summaries *)

(** The message a summary becomes. *)
Definition summary_message (m : message) : Prop :=
  is_tool m = false /\ is_assistant m = false /\ is_synthetic_context_message m = true.

Lemma synthetic_summary text kind : exists m,
  synthetic_user_message $"context_summary" (VStr text) $"context_compactor" [($"kind", VStr kind)] true = Ok m /\
  summary_message m.
Proof.
  unfold synthetic_user_message, mark_synthetic_user_message.
  assert (Hv : validate_tag $"context_summary" = Ok $"context_summary") by by vm_compute. rewrite Hv.
  cbn [mbind result_bind]. rewrite Hv. cbn [mbind result_bind]. eexists. split; [reflexivity|].
  split_and!; [done|done|]. by vm_compute.
Qed.

Lemma summary_acceptable m ms : summary_message m -> acceptable ms -> acceptable (m :: ms).
Proof.
  intros (Ht & Ha & _) [Hc Hwf]. split.
  - apply (contract_block m [] ms Ht); [|done]. unfold message_call_ids. rewrite Ha. constructor.
  - constructor; [|done]. intros _ Hm. congruence.
Qed.

Lemma with_summary_spec text kind reason tail : acceptable tail ->
  exists out, with_summary text kind reason tail = Ok out /\ acceptable out /\
    (Forall visible_answer tail -> exists m, summary_message m /\ out = m :: tail).
Proof.
  intros Htail. unfold with_summary. destruct (synthetic_summary text kind) as (m & -> & Hm). cbn [mbind result_bind].
  pose proof (summary_acceptable m tail Hm Htail) as Hall. unfold normalize_history.
  destruct (reconcile_spec (Some (no_output_before reason)) (m :: tail)) as (out & st & Hr & _ & Hc & Hf); [apply Hall|].
  rewrite Hr. cbn. exists out. split_and!; [done| |].
  - split; [done|]. eapply reconcile_result_wf; [|exact Hf]. apply Hall.
  - intros Hvis. exists m. split; [done|].
    rewrite (reconcile_fixpoint _ (m :: tail)) in Hr; [congruence|apply Hall|apply Hall|].
    constructor; [|done]. destruct Hm as (Ht & _ & _). intros Htool. congruence.
Qed.

Lemma acceptable_nil : acceptable [].
Proof. split; constructor. Qed.

(** *** Rewrites keep the history acceptable *)

Definition ok_state (s : Compaction) : Prop := acceptable (messages s).

Abbreviation get_summary' := (get_summary generate_summary cancelled).

Lemma get_summary_keeps (P : Compaction -> Prop) old kind rounds :
  (forall f s, P s -> P (on_manager f s)) -> keeps P P (get_summary' old kind rounds).
Proof.
  intros HP s Hs. unfold get_summary. destruct (generate_summary _ _ _ _); [by apply HP|].
  destruct cancelled; [done|]. destruct (extract_key_info old); by apply HP.
Qed.

Lemma ok_on_manager f s : ok_state s -> ok_state (on_manager f s).
Proof. done. Qed.

Lemma find_boundary_nonneg ms keep : 0 <= find_recent_user_turn_boundary ms keep.
Proof. apply turn_boundary_spec. Qed.

Lemma summarize_ok ms : acceptable ms ->
  hoare ok_state (summarize_old generate_summary cancelled ms)
    (fun o s => ok_state s /\ match o with Some out => acceptable out | None => True end) ok_state.
Proof.
  intros Hms. unfold summarize_old. apply (hoare_bind _ _ _ _ (fun _ => ok_state)); [by intros s Hs|]. intros s0.
  set (split := safe_round_boundary_at_or_before _ _). destruct (_ || _) eqn:Eb; [by apply hoare_ret|].
  zbool. assert (Hin : 0 < split < len ms) by lia.
  apply safe_boundary_cut in Hin as (_ & Htail & _); [|apply find_boundary_nonneg|done]. fold split in Htail.
  apply (hoare_bind _ _ _ _ (fun _ => ok_state)); [apply get_summary_keeps; apply ok_on_manager|]. intros text.
  destruct (with_summary_spec text $"partial_prefix" $"context compaction" _ Htail) as (out & Hout & Hok & _).
  apply (hoare_bind _ _ _ _ (fun o s => ok_state s /\ acceptable o)).
  { intros s Hs. unfold st_lift. rewrite Hout. by split. }
  intros o. by apply hoare_ret.
Qed.

Lemma collapse_ok (clear : stm Compaction ()) ms : acceptable ms ->
  keeps ok_state ok_state clear ->
  hoare ok_state (hard_collapse generate_summary cancelled clear ms) (fun out s => ok_state s /\ acceptable out) ok_state.
Proof.
  intros Hms Hclear. unfold hard_collapse.
  destruct (recent_round_start_spec ms 2) as (_ & _ & _ & Hc); [apply Hms|].
  assert (Htail : acceptable (slice_from (recent_round_start ms 2) ms)).
  { split; [done|]. apply Forall_drop, Hms. }
  apply (hoare_bind _ _ _ _ (fun _ => ok_state)); [apply get_summary_keeps; apply ok_on_manager|]. intros text.
  apply (hoare_bind _ _ _ _ (fun _ => ok_state)); [exact Hclear|]. intros [].
  destruct (with_summary_spec text $"full_recovery" $"hard context compaction" _ Htail) as (out & Hout & Hok & _).
  intros s Hs. unfold st_lift. rewrite Hout. by split.
Qed.

Lemma keeps_notify n : keeps ok_state ok_state (st_modify (notify n)).
Proof. by intros s Hs. Qed.

Lemma set_messages_ok ms : acceptable ms -> keeps ok_state ok_state (st_modify (set_messages ms)).
Proof. by intros Hms s Hs. Qed.

Lemma predict_messages_ok : keeps ok_state ok_state (predict_messages count_tokens image_projection).
Proof.
  intros s Hs. unfold predict_messages. pose proof (predict_similar (manager s) (messages s)) as Hp.
  destruct (predict_request_tokens _ _ _ _) as [n ms]. cbn in *. by eapply acceptable_similar.
Qed.

Lemma predict_list_ok ms : acceptable ms ->
  hoare ok_state (predict_list count_tokens image_projection ms) (fun p s => ok_state s /\ acceptable p.2) ok_state.
Proof. intros Hms s Hs. split; [done|]. eapply acceptable_similar; [apply predict_similar|done]. Qed.

Lemma commit_ok id now t l b a n f : keeps ok_state ok_state (commit id now t l b a n f).
Proof. by intros s Hs. Qed.

Local Hint Resolve keeps_notify set_messages_ok predict_messages_ok commit_ok acceptable_nil : triple.

(** A fact about the value, carried next to the state. *)
Lemma hoare_fact {A B} (J E : Compaction -> Prop) (P : A -> Prop) (m : stm Compaction A) (f : A -> stm Compaction B) Q :
  hoare J m (fun a s => J s /\ P a) E -> (forall a, P a -> hoare J (f a) Q E) -> hoare J (m ≫= f) Q E.
Proof.
  intros Hm Hf. eapply hoare_bind; [exact Hm|]. intros a s [Hs Ha]. by apply Hf.
Qed.

Lemma get_ok : hoare ok_state st_get (fun s0 s => ok_state s /\ acceptable (messages s0)) ok_state.
Proof. by intros s Hs. Qed.

Lemma maybe_compress_ok id now : compactor_sound ->
  keeps ok_state ok_state
    (maybe_compress count_tokens image_projection compact_tool_results generate_summary cancelled id now).
Proof.
  intros Hcomp. unfold maybe_compress. step. eapply hoare_fact; [apply get_ok|]. intros s Hms.
  cbv zeta. destruct (negb _); [by apply hoare_ret|].
  set (snipped := if (_ : bool) then snip_layers _ _ _ else _). assert (Hsnip : acceptable snipped.1).
  { subst snipped. destruct (_ && _); [by apply snip_layers_acceptable|done]. }
  destruct snipped as [candidate layers]. cbn [fst] in Hsnip.
  eapply hoare_fact; [by apply predict_list_ok|]. intros [predicted cand2] Hc2. cbn [snd] in Hc2.
  destruct (_ && _); [by apply hoare_ret|]. step.
  apply (hoare_fact _ _ (fun o => match o with Some out => acceptable out | None => True end)).
  { destruct (_ && _); [by apply summarize_ok|by apply hoare_ret]. }
  intros summarized Hsum. set (next := match summarized with Some ms => (ms, layers ++ _) | None => _ end).
  assert (Hnext : acceptable next.1) by (subst next; by destruct summarized).
  destruct next as [cand3 layers3]. cbn [fst] in Hnext.
  eapply hoare_fact; [by apply predict_list_ok|]. intros [after cand4] Hc4. cbn [snd] in Hc4.
  destruct (_ && _); [step; by apply hoare_ret|].
  apply (hoare_fact _ _ (fun p : list message * list pystr * Z => acceptable p.1.1)).
  { destruct (_ && _); [|by apply hoare_ret].
    eapply hoare_fact; [by apply collapse_ok, keeps_return|]. intros ms Hm.
    eapply hoare_fact; [by apply predict_list_ok|]. intros pf Hpf. by apply hoare_ret. }
  intros [[final lf] af] Hfinal. cbn [fst] in Hfinal. step. step. by apply hoare_ret.
Qed.

Lemma force_compress_ok x id now :
  keeps ok_state ok_state (force_compress count_tokens image_projection generate_summary cancelled x id now).
Proof.
  unfold force_compress. step. eapply hoare_fact; [apply get_ok|]. intros s Hms. step.
  apply keeps_seq.
  - destruct x as [| | |name].
    + pose proof (snip_similar (manager s) (messages s)) as Hs. destruct (snip_tool_outputs _ _) as [ms changed].
      cbn in Hs. apply keeps_seq; [apply set_messages_ok; by eapply acceptable_similar|intros []; by apply keeps_return].
    + eapply hoare_fact; [by apply summarize_ok|]. intros [ms|] Hm; [|by apply hoare_ret].
      apply keeps_seq; [by apply set_messages_ok|intros []; by apply keeps_return].
    + destruct (_ <=? _); [by apply hoare_ret|].
      eapply hoare_fact; [apply collapse_ok; [done|apply set_messages_ok, acceptable_nil]|]. intros ms Hm.
      apply keeps_seq; [by apply set_messages_ok|intros []; by apply keeps_return].
    + by apply hoare_ret.
  - intros changed. destruct (negb changed); walk.
Qed.

(** *** Commits *)

(** What identifies the committed history. *)
Definition same_versions (s0 s : Compaction) : Prop :=
  history_version (manager s) = history_version (manager s0) /\ cache_epoch (manager s) = cache_epoch (manager s0) /\
  checkpoints (manager s) = checkpoints (manager s0) /\ latest_usage (manager s) = latest_usage (manager s0) /\
  usage_observations (manager s) = usage_observations (manager s0).

Definition unchanged (s0 s : Compaction) : Prop :=
  same_but_caches (messages s0) (messages s) /\ same_versions s0 s.

(** One rewrite more: a new version and epoch, a checkpoint of exactly the new
    history, and no usage observation that describes the old one. *)
Definition committed (s0 s : Compaction) : Prop :=
  history_version (manager s) = history_version (manager s0) + 1 /\
  cache_epoch (manager s) = cache_epoch (manager s0) + 1 /\ latest_usage (manager s) = None /\
  exists cp, checkpoints (manager s) = checkpoints (manager s0) ++ [cp] /\
    replacement_history cp = map (fun m => dpop m MESSAGE_TOKEN_KEY) (messages s) /\
    source_history_version cp = history_version (manager s0) /\ c_cache_epoch cp = cache_epoch (manager s).

Section Atomic.
Context (s0 : Compaction).
Abbreviation J := (unchanged s0).

Lemma same_trans a b c : same_but_caches a b -> same_but_caches b c -> same_but_caches a c.
Proof. unfold same_but_caches. congruence. Qed.

Lemma unchanged_failures n s : J s -> J (on_manager (set_failures n) s).
Proof. done. Qed.

Lemma unchanged_notify n : keeps J J (st_modify (notify n)).
Proof. by intros s Hs. Qed.

Lemma unchanged_get : keeps J J st_get.
Proof. by intros s Hs. Qed.

Lemma unchanged_predict : keeps J J (predict_messages count_tokens image_projection).
Proof.
  intros s [Hs Hv]. unfold predict_messages. pose proof (predict_same (manager s) (messages s)) as Hp.
  destruct (predict_request_tokens _ _ _ _) as [n ms]. split; [|done]. by eapply same_trans.
Qed.

Lemma unchanged_predict_list ms : keeps J J (predict_list count_tokens image_projection ms).
Proof. by intros s Hs. Qed.

Lemma unchanged_summary old kind rounds : keeps J J (get_summary' old kind rounds).
Proof.
  intros s Hs. unfold get_summary. destruct (generate_summary _ _ _ _); [done|]. destruct cancelled; [done|].
  by destruct (extract_key_info old).
Qed.

Local Hint Resolve unchanged_notify unchanged_get unchanged_predict unchanged_predict_list unchanged_summary : triple.

Lemma unchanged_summarize ms : keeps J J (summarize_old generate_summary cancelled ms).
Proof. unfold summarize_old. walk. Qed.

Lemma unchanged_collapse (clear : stm Compaction ()) ms : keeps J J clear ->
  keeps J J (hard_collapse generate_summary cancelled clear ms).
Proof. intros Hc. unfold hard_collapse. walk. Qed.

Local Hint Resolve unchanged_summarize : triple.
Local Hint Extern 1 (keeps _ _ (hard_collapse _ _ _ _)) => (apply unchanged_collapse; walk) : triple.

Lemma commit_commits id now t l b a n f :
  hoare (same_versions s0) (commit id now t l b a n f) (fun _ => committed s0) J.
Proof.
  intros s (Hh & He & Hc & Hl & Hu). unfold committed. cbn. rewrite Hh, He, Hc. split; [done|]. split; [done|].
  split; [done|]. eexists. split; [reflexivity|]. by split_and!.
Qed.

(** The end of a rewrite. *)
Lemma commit_end id now t l b a n f :
  hoare (same_versions s0) (_ ← commit id now t l b a n f; mret true)
    (fun (r : bool) s => if r then committed s0 s else J s) J.
Proof.
  eapply hoare_bind; [apply commit_commits|]. intros []. apply hoare_ret. by intros s Hs.
Qed.

Lemma set_messages_versions ms :
  hoare J (st_modify (set_messages ms)) (fun _ => same_versions s0) J.
Proof. by intros s [_ Hs]. Qed.

Lemma maybe_compress_atomic id now :
  hoare J (maybe_compress count_tokens image_projection compact_tool_results generate_summary cancelled id now)
    (fun (r : bool) s => if r then committed s0 s else J s) J.
Proof.
  unfold maybe_compress. step. step. cbv zeta. destruct (negb _); [by apply hoare_ret|].
  destruct (if (_ : bool) then snip_layers _ _ _ else _) as [candidate layers]. step.
  match goal with p : (Z * list message)%type |- _ => destruct p as [predicted cand2] end.
  destruct (_ && _); [by apply hoare_ret|]. step. step.
  match goal with |- hoare _ (let '(_, _) := ?x in _) _ _ => destruct x as [cand3 layers3] end.
  step. match goal with p : (Z * list message)%type |- _ => destruct p as [after cand4] end.
  destruct (_ && _); [step; by apply hoare_ret|]. step.
  match goal with |- hoare _ (let '(_, _) := ?x in _) _ _ => destruct x as [[final lf] af] end.
  eapply hoare_bind; [apply set_messages_versions|]. intros []. apply commit_end.
Qed.

Lemma snip_all_unchanged t n l :
  existsb (fun m => bool_decide (is_Some (snipped_text t n m))) l = false -> map (snip_message t n) l = l.
Proof.
  induction l as [|m l IH]; [done|]. cbn [existsb map]. intros [Hm Hl]%orb_false_iff. f_equal; [|auto].
  unfold snip_message. destruct (snipped_text t n m); [|done]. apply bool_decide_eq_false in Hm. by destruct Hm.
Qed.

Lemma snip_unchanged c ms : (snip_tool_outputs c ms).2 = false -> (snip_tool_outputs c ms).1 = ms.
Proof.
  unfold snip_tool_outputs. cbn [fst snd]. intros Hno. rewrite snip_all_unchanged by exact Hno. apply take_drop.
Qed.

Lemma same_similar ms ms' : same_but_caches ms ms' -> Forall2 similar ms ms'.
Proof.
  unfold same_but_caches. revert ms'. induction ms as [|m ms IH]; intros [|m' ms']; cbn; try done.
  intros [= Hm Hms]. constructor; [|by apply IH]. intros k _ Hk.
  assert (Hd : forall d, dget d k = dget (dpop d MESSAGE_TOKEN_KEY) k) by (intros d; by rewrite dget_dpop, decide_False).
  by rewrite (Hd m'), (Hd m), Hm.
Qed.

Lemma unchanged_acceptable s : acceptable (messages s0) -> J s -> acceptable (messages s).
Proof. intros Hok [Hs _]. eapply acceptable_similar; [|exact Hok]. by apply same_similar. Qed.

Lemma collapse_live ms : acceptable ms ->
  hoare J (hard_collapse generate_summary cancelled (st_modify (set_messages [])) ms) (fun _ => same_versions s0) J.
Proof.
  intros Hms. unfold hard_collapse. destruct (recent_round_start_spec ms 2) as (_ & _ & _ & Hc); [apply Hms|].
  assert (Htail : acceptable (slice_from (recent_round_start ms 2) ms)).
  { split; [done|]. apply Forall_drop, Hms. }
  step. match goal with text : pystr |- _ =>
    destruct (with_summary_spec text $"full_recovery" $"hard context compaction" _ Htail) as (out & Hout & _) end.
  eapply hoare_bind; [apply set_messages_versions|]. intros [] s Hs. unfold st_lift. by rewrite Hout.
Qed.

Definition rewritten (changed : bool) (s : Compaction) : Prop := if changed then same_versions s0 s else J s.

(** The end of a forced rewrite. *)
Lemma force_end (changed : bool) before count layers id now :
  hoare (rewritten changed)
    (if negb changed then _ ← st_modify (notify (CompressionSkipped $"manual")); mret false
     else after ← predict_messages count_tokens image_projection;
          _ ← commit id now $"manual" layers before after count (fun _ => None); mret true)
    (fun (r : bool) s => if r then committed s0 s else J s) J.
Proof.
  destruct changed; cbn [negb rewritten]; [|step; by apply hoare_ret].
  apply (hoare_bind _ _ _ _ (fun _ => same_versions s0)); [|intros after; apply commit_end].
  intros s Hs. unfold predict_messages. by destruct (predict_request_tokens _ _ _ _).
Qed.

Lemma replace_messages ms : hoare J (_ ← st_modify (set_messages ms); mret true) rewritten J.
Proof. eapply hoare_bind; [apply set_messages_versions|]. intros []. apply hoare_ret. by intros s Hs. Qed.

Lemma force_compress_atomic x id now : acceptable (messages s0) ->
  hoare J (force_compress count_tokens image_projection generate_summary cancelled x id now)
    (fun (r : bool) s => if r then committed s0 s else J s) J.
Proof.
  intros Hok. unfold force_compress. step.
  apply (hoare_fact _ _ (fun s1 => unchanged s0 s1)); [by intros s Hs|].
  intros s1 Hj. pose proof (unchanged_acceptable s1 Hok Hj) as Hs1. cbv zeta. step. eapply hoare_bind; [|intros changed; apply force_end].
  destruct x as [| | |name].
  - pose proof (snip_unchanged (manager s1) (messages s1)) as Hsnip.
    destruct (snip_tool_outputs _ _) as [ms changed]. cbn in Hsnip. destruct changed; [apply replace_messages|].
    rewrite Hsnip by done. intros s [_ Hv]. split; [apply Hj|exact Hv].
  - step. match goal with o : option (list message) |- _ => destruct o as [ms|] end; [apply replace_messages|].
    by apply hoare_ret.
  - destruct (_ <=? _); [by apply hoare_ret|].
    eapply hoare_bind; [by apply collapse_live|]. intros ms. apply (hoare_bind _ _ _ _ (fun _ => same_versions s0)).
    + by intros s Hs.
    + intros []. apply hoare_ret. by intros s Hs.
  - by apply hoare_ret.
Qed.
End Atomic.

(** *** What a summary keeps *)

Lemma summarize_outcome ms s : acceptable ms -> Forall visible_answer ms ->
  match summarize_old generate_summary cancelled ms s with
  | (Ok (Some out), _) => exists old tail m, ms = old ++ tail /\ old <> [] /\ acceptable tail /\
      summary_message m /\ out = m :: tail /\ summarize_keep_recent_turns (manager s) <= count_turns tail
  | (Ok None, s') => s' = s
  | (Raise _, s') => messages s' = messages s
  end.
Proof.
  intros Hms Hvis. unfold summarize_old, st_get, mbind, stm_bind. cbn [fst snd].
  set (keep := summarize_keep_recent_turns (manager s)).
  destruct (turn_boundary_spec ms keep) as [Hnn Hturns]. set (find := find_recent_user_turn_boundary ms keep) in *.
  set (b := safe_round_boundary_at_or_before ms find). destruct ((b <=? 0) || (len ms <=? b)) eqn:Eb; [done|]. zbool.
  destruct (safe_boundary_cut ms find) as (Hle & Htail & _); [done|fold b; lia|done|]. fold b in Hle, Htail.
  unfold get_summary. destruct (generate_summary _ _ _ _) as [text|x].
  2: destruct cancelled; [done|destruct (extract_key_info _) as [text|x2]; [|done]].
  all: destruct (with_summary_spec text $"partial_prefix" $"context compaction" _ Htail) as (out & Hout & _ & Heq);
    unfold st_lift; rewrite Hout; cbn;
    destruct Heq as (m & Hm & Heq); [by apply Forall_drop|];
    exists (slice_to b ms), (slice_from b ms), m; split_and!;
    [by unfold slice_to, slice_from; rewrite take_drop| |done|done|done|].
  all: try (intros Hnil; assert (len (slice_to b ms) = 0) by (by rewrite Hnil); unfold slice_to in *; rewrite len_take in *; lia).
  all: assert (keep <= count_turns (slice_from find ms)) by
    (destruct (Z.le_gt_cases keep 0); [pose proof (len_nonneg (filter (fun m => is_user_turn m = true) (slice_from find ms)));
       unfold count_turns; lia|apply Hturns; lia]).
  all: pose proof (count_turns_drop (Z.to_nat b) (Z.to_nat find) ms); unfold slice_from in *; lia.
Qed.

(** Where [_summarize_old] rewrites a history providers accept (whose
    outputs have text), the result is one marked summary message followed by
    the unchanged end of the history, which starts at a round, is itself
    acceptable, and holds at least the configured number of the user's turns;
    [_hard_collapse] likewise keeps exactly the last two rounds.  Where nothing
    is summarized, or a cancelled summary raises, no message is lost. *)
Theorem summaries_keep_recent_history ms s clear : acceptable ms -> Forall visible_answer ms ->
  (forall out s', summarize_old generate_summary cancelled ms s = (Ok (Some out), s') ->
     exists old tail m, ms = old ++ tail /\ old <> [] /\ acceptable tail /\
      summary_message m /\ out = m :: tail /\ summarize_keep_recent_turns (manager s) <= count_turns tail) /\
  (forall s', summarize_old generate_summary cancelled ms s = (Ok None, s') -> s' = s) /\
  (forall x s', summarize_old generate_summary cancelled ms s = (Raise x, s') -> messages s' = messages s) /\
  (forall out s', hard_collapse generate_summary cancelled clear ms s = (Ok out, s') ->
     exists m, summary_message m /\
       out = m :: concat (slice_from (len (group_api_rounds ms) - 2) (group_api_rounds ms))).
Proof.
  intros Hms Hvis. assert (Hsum : match summarize_old generate_summary cancelled ms s with
  | (Ok (Some out), _) => exists old tail m, ms = old ++ tail /\ old <> [] /\ acceptable tail /\
      summary_message m /\ out = m :: tail /\ summarize_keep_recent_turns (manager s) <= count_turns tail
  | (Ok None, s') => s' = s
  | (Raise _, s') => messages s' = messages s
  end).
  { by apply summarize_outcome. }
  split_and!.
  - intros out s' E. by rewrite E in Hsum.
  - intros s' E. by rewrite E in Hsum.
  - intros x s' E. by rewrite E in Hsum.
  - intros out s'. unfold hard_collapse, mbind, stm_bind. destruct (recent_round_start_spec ms 2) as (_ & Hrec & _ & Hc); [apply Hms|].
    assert (Htail : acceptable (slice_from (recent_round_start ms 2) ms)).
    { split; [done|]. apply Forall_drop, Hms. }
    destruct (get_summary' _ _ _ s) as [[text|x] s1]; [|done]. destruct (clear s1) as [[[]|x] s2]; [|done].
    destruct (with_summary_spec text $"full_recovery" $"hard context compaction" _ Htail) as (out' & Hout & _ & Heq).
    unfold st_lift. rewrite Hout. intros [= <- _]. destruct Heq as (m & Hm & ->); [by apply Forall_drop|].
    exists m. split; [done|]. by rewrite Hrec.
Qed.

(** *** What snipping changes *)

Lemma find_cut_spec keep l : forall rounds i, len l = i + 1 ->
  let cut := find_cut keep rounds i l in
  0 <= cut <= Z.max 0 i /\
  (0 < cut -> rounds < keep -> len (filter (fun m => calls_tools m = true) (slice_to (i + 1 - cut) l)) = keep - rounds).
Proof.
  induction l as [|m l IH]; intros rounds i Hlen; cbn [find_cut]; [rewrite len_nil in Hlen; cbv zeta; split; lia|].
  rewrite len_cons in Hlen. pose proof (len_nonneg l).
  assert (Htake : forall cut, cut <= i -> slice_to (i + 1 - cut) (m :: l) = m :: slice_to (i - cut) l).
  { intros cut Hc. unfold slice_to. by replace (Z.to_nat (i + 1 - cut)) with (S (Z.to_nat (i - cut))) by lia. }
  destruct (calls_tools m) eqn:Em; [destruct (keep <=? rounds + 1) eqn:Ek; zbool|].
  - split; [lia|]. intros _ Hr. rewrite Htake, filter_cons, decide_True by (done || lia).
    rewrite Z.sub_diag. change (slice_to 0 l) with (@nil message). rewrite filter_nil, len_cons, len_nil. lia.
  - destruct (IH (rounds + 1) (i - 1)) as [Hb Hc]; [lia|]. split; [lia|]. intros Hpos Hr.
    rewrite Htake, filter_cons, decide_True, len_cons by (done || lia).
    replace (i - find_cut keep (rounds + 1) (i - 1) l) with (i - 1 + 1 - find_cut keep (rounds + 1) (i - 1) l) by lia.
    rewrite Hc; lia.
  - destruct (IH rounds (i - 1)) as [Hb Hc]; [lia|]. split; [lia|]. intros Hpos Hr.
    rewrite Htake, filter_cons, decide_False by (done || lia || by rewrite Em).
    replace (i - find_cut keep rounds (i - 1) l) with (i - 1 + 1 - find_cut keep rounds (i - 1) l) by lia.
    rewrite Hc; lia.
Qed.

Lemma cut_index_spec keep ms : let cut := cut_index keep ms in
  0 <= cut <= len ms /\ (0 < cut -> 0 < keep -> len (filter (fun m => calls_tools m = true) (slice_from cut ms)) = keep).
Proof.
  cbn zeta. unfold cut_index. assert (Hlen : len (reverse ms) = len ms - 1 + 1) by (unfold len; rewrite length_reverse; lia).
  destruct (find_cut_spec keep (reverse ms) 0 (len ms - 1) Hlen) as [Hb Hc].
  set (cut := find_cut keep 0 (len ms - 1) (reverse ms)) in *. pose proof (len_nonneg ms).
  split; [lia|]. intros Hpos Hk. rewrite <-(Z.sub_0_r keep), <-Hc by lia.
  replace (slice_to (len ms - 1 + 1 - cut) (reverse ms)) with (reverse (slice_from cut ms)).
  - unfold len. by rewrite reverse_Permutation.
  - unfold slice_to, slice_from. rewrite <-(take_drop (Z.to_nat cut) ms) at 3. rewrite reverse_app.
    replace (Z.to_nat (len ms - 1 + 1 - cut)) with (length (reverse (drop (Z.to_nat cut) ms))).
    + by rewrite take_app_length.
    + rewrite length_reverse, length_drop. unfold len in *. lia.
Qed.

(** A long old output and what is left of it. *)
Definition snipped_from (c : ContextManager) (m m' : message) : Prop :=
  is_tool m = true /\ similar m m' /\ exists content,
    dget m $"content" = Some (VStr content) /\ snip_threshold_chars c < len content /\
    snip_min_lines c < len (splitlines content) /\
    dget m' $"content" = Some (VStr (join [10] (slice_to 3 (splitlines content))
      ++ snip_marker (len (splitlines content)) m ++ join [10] (slice_last 3 (splitlines content)))).

Lemma snip_message_case c m : 0 <= snip_threshold_chars c ->
  let m' := snip_message (snip_threshold_chars c) (snip_min_lines c) m in m' = m \/ snipped_from c m m'.
Proof.
  intros Hthr. cbn zeta. pose proof (snip_message_similar (snip_threshold_chars c) (snip_min_lines c) m) as Hs.
  unfold snip_message in *. destruct (snipped_text _ _ m) as [text|] eqn:E; [|by left]. right.
  unfold snipped_text in E. destruct (is_tool m) eqn:Et; [|done]. unfold dget_or in E.
  destruct (dget m $"content") as [[| | | |content| |]|] eqn:Ec; cbn in E; try done.
  - destruct (len content <=? _) eqn:E1; [done|]. destruct (len (splitlines content) <=? _) eqn:E2; [done|]. zbool.
    injection E as <-. split_and!; [done|done|]. exists content. split_and!; [done|lia|lia|].
    rewrite dget_dpop, decide_False by done. apply dget_dset_eq.
  - rewrite len_nil in E. destruct (0 <=? _) eqn:E0; [done|]. zbool. lia.
Qed.

(** [_snip_tool_outputs] only cuts tool results that precede the last
    [snip_keep_recent_tools] messages calling tools and exceed both limits in
    characters and lines: such a result keeps its call, its first and its last
    three lines around a marker; everything else, and everything from there
    on, is untouched; and it reports no change only when there is none. *)
Theorem snip_exact c ms : 0 <= snip_threshold_chars c -> 0 < snip_keep_recent_tools c ->
  let cut := cut_index (snip_keep_recent_tools c) ms in
  let '(out, changed) := snip_tool_outputs c ms in
  0 <= cut <= len ms /\ slice_from cut out = slice_from cut ms /\
  (0 < cut -> len (filter (fun m => calls_tools m = true) (slice_from cut ms)) = snip_keep_recent_tools c) /\
  Forall2 (fun m m' => m' = m \/ snipped_from c m m') ms out /\
  (changed = false -> out = ms) /\ (acceptable ms -> acceptable out).
Proof.
  intros Hthr Hk. cbn zeta. pose proof (snip_unchanged c ms) as Hno. pose proof (snip_similar c ms) as Hsim.
  destruct (cut_index_spec (snip_keep_recent_tools c) ms) as [Hb Hc].
  assert (Hlen : length (map (snip_message (snip_threshold_chars c) (snip_min_lines c))
     (slice_to (cut_index (snip_keep_recent_tools c) ms) ms)) = Z.to_nat (cut_index (snip_keep_recent_tools c) ms)).
  { rewrite length_map. unfold slice_to. rewrite length_take. unfold len in Hb. lia. }
  assert (Hcut : slice_from (cut_index (snip_keep_recent_tools c) ms) (snip_tool_outputs c ms).1 =
    slice_from (cut_index (snip_keep_recent_tools c) ms) ms).
  { unfold snip_tool_outputs. cbn [fst]. unfold slice_from at 1. rewrite <-Hlen at 1. by rewrite drop_app_length. }
  assert (Hcase : Forall2 (fun m m' => m' = m \/ snipped_from c m m') ms (snip_tool_outputs c ms).1).
  { unfold snip_tool_outputs. cbn [fst]. rewrite <-(take_drop (Z.to_nat (cut_index (snip_keep_recent_tools c) ms)) ms) at 1.
    apply Forall2_app; [apply Forall2_map_r; intros m; by apply snip_message_case|].
    apply Forall_Forall2_diag, Forall_true. by left. }
  destruct (snip_tool_outputs c ms) as [out changed]. cbn [fst snd] in *.
  split_and!; try done; [lia|lia|auto|]. intros Hok. by eapply acceptable_similar.
Qed.

(** *** Calibration *)

Definition calibrated (m : ContextManager) : Prop :=
  Forall (fun p : pystr * Q => 1 # 2 <= p.2 <= 3)%Q (estimate_scale m) /\ len (usage_observations m) <= 100 /\
  (forall o, latest_usage m = Some o -> 0 < actual_prompt_tokens o /\ 1 <= local_request_estimate o).

Lemma clamp_bounds r : (1 # 2 <= clamp_ratio r <= 3)%Q.
Proof.
  unfold clamp_ratio. destruct (Qle_bool r (1 # 2)) eqn:E1.
  - assert (E2 : Qle_bool 3 (1 # 2) = false) by done. rewrite E2. split; discriminate.
  - assert (H1 : ~ (r <= 1 # 2)%Q) by (intros Hr; apply Qle_bool_iff in Hr; congruence).
    destruct (Qle_bool 3 r) eqn:E2; [split; discriminate|].
    assert (H2 : ~ (3 <= r)%Q) by (intros Hr; apply Qle_bool_iff in Hr; congruence). lra.
Qed.

Lemma blend_bounds p r : (forall q, p = Some q -> 1 # 2 <= q <= 3)%Q -> (1 # 2 <= r <= 3)%Q -> (1 # 2 <= blend p r <= 3)%Q.
Proof. intros Hp Hr. unfold blend. destruct p as [q|]; [specialize (Hp q eq_refl); lra|done]. Qed.

Lemma assoc_set_member {V} (l : list (pystr * V)) k v kv : kv ∈ assoc_set l k v -> kv = (k, v) \/ kv ∈ l.
Proof.
  induction l as [|[k' v'] l IH]; cbn [assoc_set]; [intros ->%list_elem_of_singleton; by left|].
  case_decide; rewrite !elem_of_cons; naive_solver.
Qed.

Lemma observe_calibrated a ct rq h b p now m : calibrated m -> calibrated (observe_usage a ct rq h b p now m).2.
Proof.
  intros (Hs & Hl & Ho). unfold observe_usage. destruct (a <=? 0) eqn:Ea; [done|]. zbool. cbn [snd].
  assert (Hlast : len (last_100 (usage_observations m ++ [create_observation a ct rq h (history_version m) b p now])) <= 100).
  { unfold last_100, len. rewrite length_drop. lia. }
  split_and!; [|exact Hlast|].
  - cbn. rewrite Forall_forall. intros [k q] Hkq. apply assoc_set_member in Hkq as [Hkq|Hkq].
    2: { rewrite Forall_forall in Hs. by apply Hs. }
    + injection Hkq as -> ->. cbn [snd]. apply blend_bounds; [|apply clamp_bounds].
      intros q Hq. apply assoc_get_elem in Hq. rewrite Forall_forall in Hs. apply (Hs _ Hq).
  - cbn. intros o [= <-]. cbn. lia.
Qed.

Record Observation := { o_actual : Z; o_cached : option Z; o_request : Z; o_history : Z; o_boundary : pystr; o_profile : pystr; o_now : Z }.
Definition observe (m : ContextManager) (o : Observation) : ContextManager :=
  (observe_usage (o_actual o) (o_cached o) (o_request o) (o_history o) (o_boundary o) (o_profile o) (o_now o) m).2.

(** Whatever usage providers report, from a calibrated manager the factors
    stay between one half and three, at most a hundred observations are kept,
    every prediction is at least one, and the walls are ordered below the
    request limit, from the least gain to the emergency. *)
Theorem usage_calibration_bounded m l ms : calibrated m ->
  let m' := foldl observe m l in
  calibrated m' /\ 1 <= (predict_request_tokens count_tokens image_projection m' ms).1 /\
  1 <= snip_min_gain m' <= rewrite_target m' /\ rewrite_target m' <= snip_wall m' /\
  snip_wall m' <= semantic_wall m' /\ semantic_wall m' <= emergency_at m' <= request_input_limit (budget m').
Proof.
  intros Hm. cbn zeta. assert (Hc : calibrated (foldl observe m l)).
  { revert m Hm. induction l as [|o l IH]; intros m Hm; [done|]. apply IH. by apply observe_calibrated. }
  set (m' := foldl observe m l) in *. split; [done|]. split.
  - unfold predict_request_tokens. destruct (get_context_tokens _ _ _) as [n ms']. cbn.
    destruct (latest_usage m'); [case_match|]; lia.
  - unfold snip_min_gain, rewrite_target, snip_wall, semantic_wall, emergency_at, wall.
    assert (1024 <= request_input_limit (budget m')) by (unfold request_input_limit; lia).
    set (limit := request_input_limit (budget m')) in *.
    assert (Hmono : forall p q, p <= q -> limit * p / 100 <= limit * q / 100) by (intros p q Hpq; apply Z.div_le_mono; nia).
    pose proof (Hmono 20 40). pose proof (Hmono 40 60). pose proof (Hmono 60 75). pose proof (Hmono 75 90).
    assert (limit * 90 / 100 <= limit) by (apply Z.div_le_upper_bound; lia).
    lia.
Qed.
End Rewrites.

Section Theorems.
Context `{Words}.
Context (count_tokens : message -> Z).
Context (image_projection : option (list message -> list message)).
Context (compact_tool_results : option (list message -> Z -> option (list message))).
Context (generate_summary : list message -> pystr -> Z -> Z -> result pystr) (cancelled : bool).

(** C10: Automatic and forced rewrites, whatever they do or raise, leave a
    history that providers accept and the code can read, if they were given
    one and the provider's own compactor keeps it so. *)
Theorem compaction_keeps_contract x id now s : compactor_sound compact_tool_results -> acceptable (messages s) ->
  acceptable (messages
    (maybe_compress count_tokens image_projection compact_tool_results generate_summary cancelled id now s).2) /\
  acceptable (messages (force_compress count_tokens image_projection generate_summary cancelled x id now s).2).
Proof.
  intros Hc Hs. split.
  - pose proof (maybe_compress_ok count_tokens image_projection compact_tool_results generate_summary cancelled id now Hc s Hs) as Hm.
    by destruct (maybe_compress _ _ _ _ _ _ _ s) as [[r|e] s'].
  - pose proof (force_compress_ok count_tokens image_projection generate_summary cancelled x id now s Hs) as Hm.
    by destruct (force_compress _ _ _ _ _ _ _ s) as [[r|e] s'].
Qed.

(** What a rewrite that ends with [r] leaves of the state [s]. *)
Definition rewrite_outcome (s : Compaction) (r : result bool) (s' : Compaction) : Prop :=
  match r with Ok true => committed s s' | _ => unchanged s s' end.

End Theorems.

(** ** Examples *)

Definition text_message (role text : pystr) : message := [($"role", VStr role); ($"content", VStr text)].

Definition call_message (id : pystr) : message :=
  [($"role", VStr $"assistant"); ($"content", VStr []);
   ($"tool_calls", VList [VDict [($"id", VStr id); ($"function", VDict [($"name", VStr $"shell")])]])].

Definition output_message (id text : pystr) : message :=
  [($"role", VStr $"tool"); ($"content", VStr text); ($"tool_call_id", VStr id)].

Definition long_output : pystr := join [10] (repeat (repeat 97 80) 12).

Definition sample_turns : list message :=
  [text_message $"user" $"build it"; call_message $"c1"; output_message $"c1" long_output;
   text_message $"assistant" $"built"; text_message $"user" $"and test";
   call_message $"c2"; output_message $"c2" $"passed"; text_message $"assistant" $"tested"].

Definition sample_manager : ContextManager := {|
  auto_snip := true; auto_summarize := true; auto_collapse := true; snip_keep_recent_tools := 1;
  snip_threshold_chars := 100; snip_min_lines := 6; summarize_keep_recent_turns := 1;
  budget := {| model_window := 1024; reserved_output := 0; fixed_prompt_tokens := 0; tool_schema_tokens := 0; safety_margin := 0 |};
  history_version := 3; cache_epoch := 0; checkpoints := []; consecutive_summary_failures := 0;
  usage_observations := []; latest_usage := None; estimate_scale := [] |}.

Definition sample_compaction (ms : list message) : Compaction := {| manager := sample_manager; messages := ms; notices := [] |}.

(** One token a character. *)
Definition character_tokens (m : message) : Z := match dget_none m $"content" with VStr t => len t | _ => 1 end.

Definition sample_summary (_ : list message) (_ : pystr) (_ _ : Z) : result pystr := Ok $"{}".

#[local] Existing Instance ascii_words.

Definition sample_rewrite : result bool * Compaction :=
  maybe_compress character_tokens None None sample_summary false $"cc_1" 7 (sample_compaction sample_turns).

(** A tail of three rounds is reported as the one turn that was to be kept. *)
Example reported_rounds_are_turns :
  let (r, s) := force_compress character_tokens None sample_summary false Summarize $"cc_1" 7 (sample_compaction sample_turns) in
  r = Ok true /\ map preserved_rounds (checkpoints (manager s)) = [1] /\
  len (group_api_rounds (tail (messages s))) = 3.
Proof. vm_compute. by repeat split. Qed.

(** A snipped output is snipped again, and the count of its lines is lost. *)
Definition twice_snipped : message :=
  let m := snip_message 100 6 (output_message $"c1" long_output) in snip_message 100 6 m.

Example snipping_again_loses_the_count :
  snipped_text 100 6 (output_message $"c1" long_output)
    = Some (join [10] (repeat (repeat 97 80) 3) ++ snip_marker 12 (output_message $"c1" long_output) ++ join [10] (repeat (repeat 97 80) 3)) /\
  dget twice_snipped $"content"
    = Some (VStr (join [10] (repeat (repeat 97 80) 3) ++ snip_marker 7 (output_message $"c1" long_output) ++ join [10] (repeat (repeat 97 80) 3))).
Proof. by vm_compute. Qed.

(** The fallback for a failed summary cannot read a message with an image. *)
Example fallback_refuses_images :
  extract_key_info [[($"role", VStr $"user"); ($"content", VList [VDict [($"type", VStr $"text"); ($"text", VStr $"see")]])]]
  = Raise (TypeError $"expected string or bytes-like object").
Proof. by vm_compute. Qed.

(** A forced collapse empties the live history before it knows the new one. *)
Definition unreadable_turns : list message :=
  [text_message $"user" $"a"; text_message $"assistant" $"b"; text_message $"user" $"c"; text_message $"assistant" $"d";
   text_message $"user" $"e"; [($"role", VStr $"assistant"); ($"tool_calls", VList [VInt 1])]].

Example failed_collapse_empties_history :
  let (r, s) := force_compress character_tokens None sample_summary false Collapse $"cc_1" 7 (sample_compaction unreadable_turns) in
  is_ok r = false /\ messages s = [].
Proof. by vm_compute. Qed.

(** ** Witnesses *)

Lemma sample_acceptable : acceptable sample_turns.
Proof.
  split.
  - apply (contract_block (text_message $"user" $"build it") []); [done|constructor|].
    apply (contract_block (call_message $"c1") [output_message $"c1" long_output]); [done|by repeat constructor|].
    apply (contract_block (text_message $"assistant" $"built") []); [done|constructor|].
    apply (contract_block (text_message $"user" $"and test") []); [done|constructor|].
    apply (contract_block (call_message $"c2") [output_message $"c2" $"passed"]); [done|by repeat constructor|].
    apply (contract_block (text_message $"assistant" $"tested") []); [done|constructor|]. constructor.
  - repeat constructor; intros ? ?; cbn; try done; repeat constructor; by right.
Qed.

Lemma compaction_keeps_contract_witness :
  sample_rewrite.1 = Ok true /\ acceptable (messages sample_rewrite.2).
Proof.
  split; [vm_compute; reflexivity|].
  refine (proj1 (compaction_keeps_contract character_tokens None None sample_summary false Snip $"cc_1" 7
    (sample_compaction sample_turns) _ sample_acceptable)).
  intros compact ms n ms' Hno. discriminate Hno.
Defined.

Definition sample_forced : result bool * Compaction :=
  force_compress character_tokens None sample_summary false Summarize $"cc_1" 7 (sample_compaction sample_turns).


Definition sample_summarized : result (option (list message)) * Compaction :=
  summarize_old sample_summary false sample_turns (sample_compaction sample_turns).

Lemma summaries_keep_recent_history_witness : exists out old tail m,
  sample_summarized.1 = Ok (Some out) /\ sample_turns = old ++ tail /\ old <> [] /\ acceptable tail /\
  summary_message m /\ out = m :: tail /\ 1 <= count_turns tail.
Proof.
  assert (Hvis : Forall visible_answer sample_turns).
  { repeat constructor; intros Ht; vm_compute in Ht |- *; congruence. }
  destruct sample_summarized as [r s'] eqn:E. destruct r as [[out|]|x]; try (exfalso; vm_compute in E; congruence).
  destruct (proj1 (summaries_keep_recent_history sample_summary false sample_turns (sample_compaction sample_turns) (mret ())
    sample_acceptable Hvis) out s' E) as (old & tail & m & Hw).
  exists out, old, tail, m. split; [reflexivity|exact Hw].
Defined.

Lemma snip_exact_witness :
  (snip_tool_outputs sample_manager sample_turns).2 = true /\
  (cut_index 1 sample_turns = 5) /\
  0 <= cut_index (snip_keep_recent_tools sample_manager) sample_turns <= len sample_turns.
Proof.
  split; [vm_compute; reflexivity|]. split; [vm_compute; reflexivity|].
  exact (proj1 (snip_exact sample_manager sample_turns ltac:(vm_compute; discriminate) ltac:(reflexivity))).
Defined.

Lemma usage_calibration_bounded_witness :
  calibrated (foldl observe sample_manager
    [{| o_actual := 900; o_cached := None; o_request := 100; o_history := 100; o_boundary := $"turn"; o_profile := $"m"; o_now := 1 |}]).
Proof.
  refine (proj1 (usage_calibration_bounded character_tokens None sample_manager _ sample_turns _)).
  split; [constructor|]. split; [vm_compute; discriminate|]. intros o Ho. discriminate Ho.
Defined.
