(* ===== verification/Summary.v ===== *)
(** * Checkpoint summaries (domain/context/summary.py)

    A summary is a document of facts taken from the history, which a model may
    enrich.  What it adds is accepted only from a document of the exact schema,
    and merged so that no fact is removed.  The model sees a projection of the
    history, bounded by whole rounds, that keeps every call and its outputs
    together.

    Collecting the facts ([build_summary_document]), parsing JSON and the final
    rendering of the document are not modelled: the facts and the parser are
    parameters. *)

From S2P Require Import Prelude PyValue ToolHistory Sanitizer ContextMessages Lines Hoare ContextManager.

(** ** The schema *)

Definition TOP_LEVEL : list pystr :=
  [$"scope"; $"user_intent"; $"decisions"; $"progress"; $"code_state"; $"errors_and_learning"; $"agent_state";
   $"pending"; $"provenance"].

Definition required_nested : list (pystr * list pystr) :=
  [($"scope", [$"summarized_history_version"; $"summarized_rounds"; $"recent_rounds_preserved"; $"checkpoint_kind"]);
   ($"user_intent", [$"current_goal"; $"explicit_requests"; $"constraints_and_preferences"; $"authorization_boundaries"]);
   ($"progress", [$"completed"; $"current_work"; $"verified_by"]);
   ($"code_state", [$"files_read"; $"files_changed"; $"important_symbols"; $"worktrees_and_commits"]);
   ($"agent_state", [$"active_subagents"; $"pending_approvals"; $"execution_target"; $"relevant_artifacts"]);
   ($"pending", [$"tasks"; $"blockers"; $"next_action"]);
   ($"provenance", [$"transcript_ref"; $"source_checkpoint_ids"])].

Definition int_fields : list pystr :=
  [$"summarized_history_version"; $"summarized_rounds"; $"recent_rounds_preserved"].

Definition checkpoint_kinds : list pystr := [$"partial_prefix"; $"phase_checkpoint"; $"full_recovery"].

Definition list_fields : list (pystr * pystr) :=
  [($"user_intent", $"explicit_requests"); ($"user_intent", $"constraints_and_preferences");
   ($"user_intent", $"authorization_boundaries"); ($"progress", $"completed"); ($"progress", $"verified_by");
   ($"code_state", $"files_read"); ($"code_state", $"files_changed"); ($"code_state", $"important_symbols");
   ($"code_state", $"worktrees_and_commits"); ($"agent_state", $"active_subagents");
   ($"agent_state", $"pending_approvals"); ($"agent_state", $"relevant_artifacts"); ($"pending", $"tasks");
   ($"pending", $"blockers"); ($"provenance", $"source_checkpoint_ids")].

Definition string_fields : list (pystr * pystr) :=
  [($"user_intent", $"current_goal"); ($"progress", $"current_work"); ($"agent_state", $"execution_target");
   ($"pending", $"next_action"); ($"provenance", $"transcript_ref")].

Definition is_dict (v : pyval) : bool := match v with VDict _ => true | _ => false end.
Definition is_list (v : pyval) : bool := match v with VList _ => true | _ => false end.
Definition is_text (v : pyval) : bool := match v with VStr _ => true | _ => false end.
Definition is_plain_int (v : pyval) : bool := match v with VInt _ => true | _ => false end.

(** [value[parent][key]] of a document whose keys were checked. *)
Definition section (d : pydict) (parent : pystr) : pydict :=
  match dget_none d parent with VDict s => s | _ => [] end.
Definition field (d : pydict) (parent key : pystr) : pyval := dget_none (section d parent) key.

(** [set(d) == keys]. *)
Definition has_keys (d : pydict) (keys : list pystr) : bool :=
  forallb (fun kv : pystr * pyval => bool_decide (kv.1 ∈ keys)) d && forallb (dmem d) keys.

(** The keys of a section, without the optional one of the provenance. *)
Definition section_keys (d : pydict) (parent : pystr) : pydict :=
  if decide (parent = $"provenance") then dpop (section d parent) $"source_event_ids" else section d parent.

(** [validate_summary_document], but for the length of the document. *)
Definition valid_structure (d : pydict) : bool :=
  has_keys d TOP_LEVEL
  && forallb (fun p : pystr * list pystr => is_dict (dget_none d p.1)) required_nested
  && is_list (dget_none d $"decisions") && is_list (dget_none d $"errors_and_learning")
  && forallb (fun p : pystr * list pystr => has_keys (section_keys d p.1) p.2) required_nested
  && (negb (dmem (section d $"provenance") $"source_event_ids")
      || is_list (field d $"provenance" $"source_event_ids"))
  && forallb (fun k => is_plain_int (field d $"scope" k)) int_fields
  && match field d $"scope" $"checkpoint_kind" with VStr k => bool_decide (k ∈ checkpoint_kinds) | _ => false end
  && forallb (fun p : pystr * pystr => is_list (field d p.1 p.2)) list_fields
  && forallb (fun p : pystr * pystr => is_text (field d p.1 p.2)) string_fields.

Definition validate_summary_document (v : pyval) : bool :=
  match v with
  | VDict d => (len (json_default v) <=? 20000) && valid_structure d
  | _ => false
  end.

(** ** Merging *)

(** The scalars that are absent or unknown, and those that say something. *)
Definition is_placeholder (v : pyval) : bool :=
  match v with VNone => true | VStr s => bool_decide (s = []) || bool_decide (s = $"unknown") | _ => false end.
Definition is_given (v : pyval) : bool :=
  match v with VNone => false | VStr s => negb (bool_decide (s = [])) | _ => true end.

Definition item_marker (v : pyval) : pystr := json_default (sort_keys v).

(** The items of [new] that the result does not hold, added in order. *)
Fixpoint add_items (seen : list pystr) (result new : list pyval) : list pyval :=
  match new with
  | [] => result
  | item :: new =>
    if decide (item_marker item ∈ seen) then add_items seen result new
    else add_items (item_marker item :: seen) (result ++ [item]) new
  end.

Fixpoint merge (old new : pyval) : pyval :=
  match old, new with
  | VDict l, VDict r => VDict (map (fun kv => (kv.1, merge kv.2 (dget_none r kv.1))) l)
  | VList l, VList r => VList (take 100 (add_items (map item_marker l) l r))
  | _, _ => if is_placeholder old && is_given new then new else old
  end.

(** [d[key]]. *)
Definition getitem (d : pydict) (key : pystr) : result pyval :=
  match dget d key with Some v => Ok v | None => Raise (KeyError key) end.

Definition merge_summary_documents (base : pydict) (enrichment : option pyval) : result pydict :=
  match enrichment with
  | Some (VDict e) =>
    if validate_summary_document (VDict e) then
      let result := map (fun kv : pystr * pyval => (kv.1, merge kv.2 (dget_none e kv.1))) base in
      provenance ← getitem base $"provenance";
      p ← dict_of provenance;
      let result := dset result $"provenance" (VDict p) in
      intent ← getitem base $"user_intent";
      d ← as_dict intent;
      requests ← getitem d $"explicit_requests";
      l ← py_iter requests;
      merged ← getitem result $"user_intent";
      m ← as_dict merged;
      Ok (dset result $"user_intent" (VDict (dset m $"explicit_requests" (VList l))))
    else Ok base
  | _ => Ok base
  end.

(** ** Projection *)

Definition image_types : list pystr := [$"image"; $"image_url"; $"document"; $"input_image"].

(** The text of one part of a content list. *)
Definition part_text (v : pyval) : pystr :=
  match v with
  | VDict part =>
    match dget_none part $"type" with
    | VStr t =>
      if decide (t ∈ image_types) then
        let source := py_or (dget_none part $"attachment_id") (py_or (dget_none part $"name")
                        (py_or (dget_none part $"id") (VStr $"embedded"))) in
        $"[" ++ t ++ $" source=" ++ py_str source ++ $"; image bytes not viewed by summarizer]"
      else py_str (py_or (dget_none part $"text") (py_or (dget_none part $"content") (VStr [])))
    | _ => py_str (py_or (dget_none part $"text") (py_or (dget_none part $"content") (VStr [])))
    end
  | _ => py_str v
  end.

Definition content_projection (v : pyval) : pystr :=
  match v with
  | VList parts => join [10] (filter (fun t => t <> []) (map part_text parts))
  | _ => str_or_empty v
  end.

Definition OMITTED_OUTPUT : pystr := $"… [artifact-backed output omitted] …".

(** The content of a projected message. *)
Definition projected_content (m : message) : pystr :=
  let content := content_projection (dget_none m $"content") in
  let content := if is_tool m && (1200 <? len content) then
      let lines := splitlines content in
      join [10] (slice_to 4 lines ++ [OMITTED_OUTPUT] ++ slice_last 4 lines)
    else content in
  slice_to 2400 content.

Definition project_call (v : pyval) : result pyval :=
  call ← dict_of v;
  fn ← dict_of (py_or (dget_none call $"function") (VDict []));
  let fn := match dget_none fn $"arguments" with
    | VNone => fn
    | arguments => dset fn $"arguments" (VStr (slice_to 1200 (py_str arguments)))
    end in
  Ok (VDict (dset call $"function" (VDict fn))).

Fixpoint project_calls (l : list pyval) : result (list pyval) :=
  match l with
  | [] => Ok []
  | v :: l => c ← project_call v; cs ← project_calls l; Ok (c :: cs)
  end.

(** [_project_summary_message]. *)
Definition project_summary_message (m : message) : result message :=
  let item := [($"role", dget_or m $"role" (VStr $"unknown")); ($"content", VStr (projected_content m))] in
  let item := if truthy (dget_none m $"tool_call_id")
              then dset item $"tool_call_id" (dget_none m $"tool_call_id") else item in
  if truthy (dget_none m $"tool_calls") then
    calls ← py_iter (dget_none m $"tool_calls");
    calls ← project_calls calls;
    Ok (dset item $"tool_calls" (VList calls))
  else Ok item.

Definition loss_marker (omitted : Z) : message :=
  [($"role", VStr $"user");
   ($"content", VStr ($"<context_summary source=" ++ [34] ++ $"summary_projection" ++ [34] ++ $" kind=" ++ [34]
      ++ $"loss_marker" ++ [34] ++ $">" ++ z_str omitted ++ $" older complete API rounds omitted</context_summary>"))].

Fixpoint project_messages (l : list message) : result (list message) :=
  match l with
  | [] => Ok []
  | m :: l => p ← project_summary_message m; ps ← project_messages l; Ok (p :: ps)
  end.

(** [render()]. *)
Definition render (omitted : Z) (selected : list (list message)) : result (list message) :=
  ps ← project_messages (concat selected);
  Ok ((if omitted =? 0 then [] else [loss_marker omitted]) ++ ps).

Definition projected_len (l : list message) : Z := len (json_compact (VList (map VDict l))).

(** The loop that leaves out the oldest rounds; there is one round fewer each
    time. *)
Fixpoint shrink (fuel : nat) (max_chars omitted : Z) (selected : list (list message)) (projected : list message)
    : result (list message) :=
  match fuel with
  | O => Ok projected
  | S fuel =>
    if (max_chars <? projected_len projected) && (1 <? len selected) then
      projected ← render (omitted + 1) (drop 1 selected);
      shrink fuel max_chars (omitted + 1) (drop 1 selected) projected
    else Ok projected
  end.

Definition OMITTED_PAYLOAD : pystr := [10] ++ $"… [summary projection payload omitted] …" ++ [10].

(** The last resort: the payloads inside the one round that is left. *)
Definition compact_call (v : pyval) : pyval :=
  match v with
  | VDict call =>
    match dget_none call $"function" with
    | VDict fn =>
      if truthy (dget_none fn $"arguments")
      then VDict (dset call $"function" (VDict (dset fn $"arguments" (VStr $"[arguments omitted; call ID preserved]"))))
      else v
    | _ => v
    end
  | _ => v
  end.

Definition compact_item (m : message) : message :=
  let content := str_or_empty (dget_none m $"content") in
  let m := if 500 <? len content
    then dset m $"content" (VStr (slice_to 220 content ++ OMITTED_PAYLOAD ++ slice_last 220 content)) else m in
  match dget_none m $"tool_calls" with
  | VList calls => dset m $"tool_calls" (VList (map compact_call calls))
  | _ => m
  end.

(** [project_summary_input]. *)
Definition project_summary_input (ms : list message) (max_rounds max_chars : Z) : result (list message) :=
  let rounds := group_api_rounds ms in
  let omitted := Z.max 0 (len rounds - max_rounds) in
  let selected := slice_from omitted rounds in
  projected ← render omitted selected;
  projected ← shrink (length selected) max_chars omitted selected projected;
  Ok (if max_chars <? projected_len projected then map compact_item projected else projected).

(** ** Generation *)

Section Generation.
Context {W : Type}.
Context (chat : list message -> Z -> stm W pyval) (is_cancelled : stm W bool) (json_loads : pystr -> result pyval).
Context (system_prompt : pystr) (prompt_of : list message -> pystr) (repair_prompt : pystr -> pystr).

(** [try: m] with the exception as a value. *)
Definition trying {A} (m : stm W A) : stm W (result A) := fun w => let '(r, w) := m w in (Ok r, w).

(** [_parse_summary]. *)
Definition parse_summary (text : pystr) : option pyval :=
  match json_loads (strip text) with
  | Ok v => if validate_summary_document v then Some v else None
  | Raise _ => None
  end.

Definition REPAIR_PROMPT : pystr :=
  $"Repair the candidate into exactly one strict JSON object matching the supplied schema. Do not add facts.".

(** The two requests to the model. *)
Definition enrich (projected : list message) : stm W (option pyval) :=
  answer ← chat [[($"role", VStr $"system"); ($"content", VStr system_prompt)];
                 [($"role", VStr $"user"); ($"content", VStr (prompt_of projected))]] 4096;
  match parse_summary (str_or_empty answer) with
  | Some d => mret (Some d)
  | None =>
    repaired ← chat [[($"role", VStr $"system"); ($"content", VStr REPAIR_PROMPT)];
                     [($"role", VStr $"user"); ($"content", VStr (repair_prompt (slice_to 15000 (str_or_empty answer))))]] 2048;
    mret (parse_summary (str_or_empty repaired))
  end.

(** [generate_summary], up to the rendering of the document. *)
Definition generate_document (has_llm : bool) (facts : pydict) (ms : list message) : stm W pydict :=
  enriched ← (if has_llm then
      projected ← st_lift (project_summary_input ms 24 30000);
      r ← trying (enrich projected);
      match r with
      | Ok e => mret e
      | Raise x =>
        stop ← is_cancelled;
        if stop : bool then st_lift (Raise x) else mret None
      end
    else mret None);
  st_lift (merge_summary_documents facts enriched).
End Generation.

(** ** Lemmas: what a merge keeps *)

(** [w] holds the facts of [v]: sections have the same keys, lists of at most
    a hundred facts are only extended, and only placeholders are replaced. *)
Inductive kept : pyval -> pyval -> Prop :=
| kept_same v : kept v v
| kept_placeholder v w : is_placeholder v = true -> kept v w
| kept_list l o : (len l <= 100 -> l `prefix_of` o) -> kept (VList l) (VList o)
| kept_dict l o : Forall2 (fun p q : pystr * pyval => p.1 = q.1 /\ kept p.2 q.2) l o -> kept (VDict l) (VDict o).

Lemma add_items_prefix new : forall seen result, result `prefix_of` add_items seen result new.
Proof.
  induction new as [|item new IH]; intros seen result; cbn [add_items]; [done|]. case_decide; [apply IH|].
  etrans; [|apply IH]. by exists [item].
Qed.

Lemma prefix_take {A} (l o : list A) n : l `prefix_of` o -> (length l <= n)%nat -> l `prefix_of` take n o.
Proof. intros [k ->] Hn. rewrite take_app_ge by done. by eexists. Qed.

Lemma merge_kept l : forall r, kept l (merge l r).
Proof.
  assert (Hscalar : forall v r, kept v (if is_placeholder v && is_given r then r else v)).
  { intros v r. destruct (is_placeholder v) eqn:E; [by apply kept_placeholder|]. apply kept_same. }
  induction l as [|b|n|repr|s|l _|l IH] using pyval_nested_ind; intros r.
  - exact (Hscalar VNone r).
  - exact (Hscalar (VBool b) r).
  - exact (Hscalar (VInt n) r).
  - exact (Hscalar (VFloat repr) r).
  - exact (Hscalar (VStr s) r).
  - destruct r; try exact (kept_same _). apply kept_list. intros Hl.
    apply prefix_take; [apply add_items_prefix|unfold len in Hl; lia].
  - destruct r as [| | | | | |r]; try exact (kept_same _). cbn [merge]. apply kept_dict.
    induction IH as [|[k v] l Hv _ IHl]; cbn [map]; constructor; [split; [reflexivity|apply Hv]|exact IHl].
Qed.

Lemma kept_dset l o k v w :
  Forall2 (fun p q : pystr * pyval => p.1 = q.1 /\ kept p.2 q.2) l o -> dget l k = Some v -> kept v w ->
  Forall2 (fun p q : pystr * pyval => p.1 = q.1 /\ kept p.2 q.2) l (dset o k w).
Proof.
  induction 1 as [|[k1 v1] [k2 v2] l o [Hk Hv] Hlo IH]; cbn in *; [done|]. subst k2.
  case_decide; [intros [= ->] Hw; by constructor|]. intros Hg Hw. constructor; [done|auto].
Qed.

Lemma dget_map_merge l r k :
  dget (map (fun kv : pystr * pyval => (kv.1, merge kv.2 (dget_none r kv.1))) l) k
  = match dget l k with Some v => Some (merge v (dget_none r k)) | None => None end.
Proof. induction l as [|[k' v] l IH]; cbn; [done|]. case_decide; [by subst|exact IH]. Qed.


(** The facts a document must have for the merge. *)
Definition has_facts (base : pydict) : Prop :=
  (exists p, dget base $"provenance" = Some (VDict p)) /\
  (exists u l, dget base $"user_intent" = Some (VDict u) /\ dget u $"explicit_requests" = Some (VList l)).

Lemma valid_has_facts base : valid_structure base = true -> has_facts base.
Proof.
  unfold valid_structure. rewrite !andb_true_iff. intros [[[[[[[[[_ Hd] _] _] _] _] _] _] Hl] _].
  rewrite forallb_forall in Hd, Hl.
  assert (Hdict : forall p, is_dict (dget_none base p) = true -> exists s, dget base p = Some (VDict s)).
  { intros p. unfold dget_none. destruct (dget base p) as [[]|]; cbn; try done. eauto. }
  split; [apply Hdict, (Hd ($"provenance", [$"transcript_ref"; $"source_checkpoint_ids"])); cbn; tauto|].
  destruct (Hdict $"user_intent") as [u Hu]; [apply (Hd ($"user_intent", [$"current_goal"; $"explicit_requests"; $"constraints_and_preferences"; $"authorization_boundaries"])); cbn; tauto|].
  specialize (Hl ($"user_intent", $"explicit_requests") ltac:(by left)). cbn in Hl.
  unfold field, section in Hl. unfold dget_none in Hl. rewrite Hu in Hl. cbn in Hl.
  destruct (dget u $"explicit_requests") as [[]|] eqn:E; cbn in Hl; try done. exists u. eauto.
Qed.

(** Facts survive a merge, provenance and requests unchanged. *)
Definition facts_kept (base out : pydict) : Prop :=
  kept (VDict base) (VDict out) /\ dget out $"provenance" = dget base $"provenance" /\
  field out $"user_intent" $"explicit_requests" = field base $"user_intent" $"explicit_requests".

Lemma field_of d p s k : dget d p = Some (VDict s) -> field d p k = dget_none s k.
Proof. intros Hd. unfold field, section, dget_none. by rewrite Hd. Qed.

Lemma merge_documents_keep base enrichment : has_facts base ->
  exists out, merge_summary_documents base enrichment = Ok out /\ facts_kept base out.
Proof.
  intros ((p & Hp) & (u & l & Hu & Hl)). assert (Hsame : facts_kept base base) by (split; [apply kept_same|done]).
  unfold merge_summary_documents. destruct enrichment as [[| | | | | |e]|]; eauto.
  destruct (validate_summary_document (VDict e)); eauto.
  unfold getitem. rewrite Hp. cbn [mbind result_bind dict_of]. rewrite Hu. cbn [mbind result_bind as_dict]. rewrite Hl.
  cbn [mbind result_bind py_iter]. rewrite dget_dset_ne by done. rewrite dget_map_merge, Hu. cbn [mbind result_bind].
  set (result := map _ base).
  assert (Hres : Forall2 (fun p q : pystr * pyval => p.1 = q.1 /\ kept p.2 q.2) base result).
  { subst result. clear. induction base as [|[k v] base IH]; cbn; constructor; [|done]. split; [done|apply merge_kept]. }
  assert (Hres2 : Forall2 (fun p q : pystr * pyval => p.1 = q.1 /\ kept p.2 q.2) base (dset result $"provenance" (VDict p))).
  { eapply kept_dset; [exact Hres|exact Hp|apply kept_same]. }
  assert (Hm : exists m, as_dict (merge (VDict u) (dget_none e $"user_intent")) = Ok m /\
     Forall2 (fun p q : pystr * pyval => p.1 = q.1 /\ kept p.2 q.2) u m).
  { destruct (dget_none e $"user_intent") as [| | | | | |r]; cbn [merge is_placeholder andb as_dict].
    7: { eexists. split; [reflexivity|]. clear. induction u as [|[k v] u IH]; cbn; constructor; [|done].
         split; [done|apply merge_kept]. }
    all: exists u; split; [done|]; clear; induction u; constructor; [split; [done|apply kept_same]|done]. }
  destruct Hm as (m & -> & Hum). cbn [mbind result_bind]. eexists. split; [reflexivity|]. split_and!.
  - apply kept_dict. eapply kept_dset; [exact Hres2|exact Hu|]. apply kept_dict.
    eapply kept_dset; [exact Hum|exact Hl|apply kept_same].
  - by rewrite dget_dset_ne, dget_dset_eq, Hp by done.
  - rewrite (field_of _ _ _ _ (dget_dset_eq _ _ _)), (field_of _ _ _ _ Hu). unfold dget_none. by rewrite dget_dset_eq, Hl.
Qed.

(** ** Lemmas: what the projection keeps *)

(** A message and its projection play the same part between calls and outputs. *)
Definition same_part (m m' : message) : Prop :=
  is_tool m' = is_tool m /\ is_assistant m' = is_assistant m /\ response_id m' = response_id m /\
  message_call_ids m' = message_call_ids m.

Lemma contract_parts ms : contract ms -> forall ms', Forall2 same_part ms ms' -> contract ms'.
Proof.
  induction 1 as [|m rs rest Htool Hrs Hrest IH]; intros ms' Hms.
  { apply Forall2_nil_inv_l in Hms as ->. constructor. }
  apply Forall2_cons_inv_l in Hms as (m' & ms'' & (Ht & _ & _ & Hids) & Hms & ->).
  apply Forall2_app_inv_l in Hms as (rs' & rest' & Hrs' & Hrest' & ->).
  constructor; [congruence| |by apply IH]. rewrite Hids. clear -Hrs Hrs'.
  revert rs' Hrs'. induction Hrs as [|id r ids rs [Hr1 Hr2] _ IH]; intros rs' Hrs'.
  - apply Forall2_nil_inv_l in Hrs' as ->. constructor.
  - apply Forall2_cons_inv_l in Hrs' as (r' & rs'' & (Ht & _ & Hid & _) & Hrs' & ->).
    constructor; [|auto]. split; congruence.
Qed.

Lemma project_calls_ids l : Forall call_wf l -> forall cs, project_calls l = Ok cs ->
  valid_call_ids cs = valid_call_ids l.
Proof.
  induction 1 as [|v l Hv _ IH]; cbn [project_calls]; [by intros cs [= <-]|]. intros cs.
  destruct v as [| | | | | |call]; try done. unfold project_call. cbn [dict_of mbind result_bind].
  destruct (dict_of (py_or _ _)) as [fn|x]; [|done]. cbn [mbind result_bind].
  destruct (project_calls l) as [cs'|x]; [|done]. cbn [mbind result_bind]. intros [= <-].
  unfold valid_call_ids. cbn [omap list_omap]. fold (valid_call_ids cs') (valid_call_ids l). rewrite IH by done.
  set (fn' := match dget_none fn _ with VNone => fn | _ => _ end).
  assert (Hid : call_id (dset call $"function" (VDict fn')) = call_id call).
  { unfold call_id. by rewrite dget_none_dset_ne. }
  by rewrite Hid.
Qed.

Lemma iter_projected l : iter_or_empty (VList l) = Ok l.
Proof. unfold iter_or_empty. cbn. by destruct l. Qed.

Lemma dget_none_dset_eq d k v : dget_none (dset d k v) k = v.
Proof. unfold dget_none. by rewrite dget_dset_eq. Qed.

Lemma project_message_part m m' : message_wf m -> project_summary_message m = Ok m' -> same_part m m'.
Proof.
  intros Hwf. unfold project_summary_message.
  set (base := [($"role", _); ($"content", _)]).
  set (item := if truthy (dget_none m $"tool_call_id") then _ else base).
  assert (Hrole : forall r, r <> $"unknown" -> role_is item r = role_is m r).
  { intros r Hr. assert (Hb : role_is base r = role_is m r).
    { subst base. unfold role_is, dget_none, dget_or. cbn. destruct (dget m $"role") as [v|]; cbn; [done|].
      unfold is_str. rewrite !bool_decide_eq_false_2; [done|done|intros Hx; apply Hr; by injection Hx]. }
    subst item. destruct (truthy _); [|exact Hb]. rewrite role_is_dset_ne by done. exact Hb. }
  assert (Hresp : response_id item = response_id m).
  { unfold response_id, str_or_empty. subst item. destruct (truthy (dget_none m $"tool_call_id")) eqn:Et.
    - rewrite dget_none_dset_eq. by rewrite Et.
    - done. }
  assert (Hno : dget_none item $"tool_calls" = VNone).
  { subst item. destruct (truthy _); [|done]. by rewrite dget_none_dset_ne. }
  destruct (truthy (dget_none m $"tool_calls")) eqn:Ec.
  - destruct (py_iter _) as [calls|x] eqn:Ei; [|done]. cbn [mbind result_bind].
    destruct (project_calls calls) as [cs|x] eqn:Ep; [|done]. cbn [mbind result_bind]. intros [= <-].
    assert (Ha : is_assistant (dset item $"tool_calls" (VList cs)) = is_assistant m).
    { unfold is_assistant. rewrite role_is_dset_ne by done. by apply Hrole. }
    split_and!; [unfold is_tool; rewrite role_is_dset_ne by done; by apply Hrole|exact Ha| |].
    + unfold response_id. rewrite dget_none_dset_ne by done. exact Hresp.
    + unfold message_call_ids. rewrite Ha. destruct (is_assistant m) eqn:Eam; [|done].
      rewrite dget_none_dset_eq, iter_projected.
      assert (Htool : is_tool m = false) by by apply assistant_not_tool.
      specialize (Hwf Htool Eam). unfold iter_or_empty in *. rewrite Ec in Hwf |- *.
      destruct (dget_none m $"tool_calls") as [| | | | |l|]; try done. cbn in Ei. injection Ei as ->.
      by apply project_calls_ids.
  - intros [= <-]. split_and!; [by apply Hrole|by apply Hrole|exact Hresp|].
    unfold message_call_ids, is_assistant. rewrite Hrole by done. destruct (role_is m _); [|done]. rewrite Hno.
    unfold iter_or_empty. by rewrite Ec.
Qed.

Lemma project_messages_parts l : Forall message_wf l -> forall ps, project_messages l = Ok ps -> Forall2 same_part l ps.
Proof.
  induction 1 as [|m l Hm _ IH]; cbn [project_messages]; [intros ps [= <-]; constructor|]. intros ps.
  destruct (project_summary_message m) as [p|x] eqn:Ep; [|done]. cbn [mbind result_bind].
  destruct (project_messages l) as [ps'|x]; [|done]. cbn [mbind result_bind]. intros [= <-].
  constructor; [by eapply project_message_part|by apply IH].
Qed.

Lemma compact_call_id v : match v with VDict call => match compact_call v with VDict c => call_id c = call_id call | _ => False end
  | _ => compact_call v = v end.
Proof.
  destruct v as [| | | | | |call]; try done. cbn [compact_call].
  destruct (dget_none call $"function") as [| | | | | |fn]; try done. destruct (truthy _); [|done].
  unfold call_id. by rewrite dget_none_dset_ne.
Qed.

Lemma compact_ids l : valid_call_ids (map compact_call l) = valid_call_ids l.
Proof.
  induction l as [|v l IH]; [done|]. unfold valid_call_ids. cbn [map omap list_omap].
  fold (valid_call_ids (map compact_call l)) (valid_call_ids l). rewrite IH.
  pose proof (compact_call_id v) as Hv. destruct v as [| | | | | |call]; try (by rewrite Hv).
  destruct (compact_call (VDict call)) as [| | | | | |c]; try done. by rewrite Hv.
Qed.

Lemma compact_part m : same_part m (compact_item m).
Proof.
  unfold compact_item. set (m1 := if _ <? _ then _ else m).
  assert (Hm1 : forall k, k <> $"content" -> dget_none m1 k = dget_none m k).
  { intros k Hk. subst m1. destruct (_ <? _); [|done]. by rewrite dget_none_dset_ne. }
  assert (Hr : forall r, role_is m1 r = role_is m r) by (intros r; unfold role_is; by rewrite Hm1).
  destruct (dget_none m1 $"tool_calls") as [| | | | |calls|] eqn:Ec.
  6: { assert (Ha : is_assistant (dset m1 $"tool_calls" (VList (map compact_call calls))) = is_assistant m).
       { unfold is_assistant. rewrite role_is_dset_ne by done. apply Hr. }
       split_and!; [unfold is_tool; rewrite role_is_dset_ne by done; apply Hr|exact Ha| |].
       - unfold response_id. rewrite dget_none_dset_ne, Hm1 by done. done.
       - unfold message_call_ids. rewrite Ha. destruct (is_assistant m); [|done]. rewrite Hm1 in Ec by done. rewrite Ec.
         rewrite dget_none_dset_eq, !iter_projected. apply compact_ids. }
  all: split_and!; [apply Hr|apply Hr|unfold response_id; by rewrite Hm1|];
    unfold message_call_ids, is_assistant; rewrite Hr, Hm1 by done; done.
Qed.

Lemma same_part_trans a b c : same_part a b -> same_part b c -> same_part a c.
Proof. intros (A1 & A2 & A3 & A4) (B1 & B2 & B3 & B4). split_and!; congruence. Qed.

Lemma rounds_suffix_contract k ms : contract ms -> contract (concat (drop k (group_api_rounds ms))).
Proof.
  intros Hc. destruct (group_api_rounds_spec ms) as (Hall & _ & Hstarts). set (rounds := group_api_rounds ms) in *.
  pose proof (concat_take_drop rounds k) as Hcat. rewrite Hall in Hcat.
  apply (contract_cut ms Hc _ _ Hcat). destruct k as [|k]; [rewrite drop_0, Hall; by inversion Hc|].
  destruct rounds as [|g rounds']; [done|]. cbn in Hstarts |- *.
  destruct (drop k rounds') as [|g' gs] eqn:Ed; [done|].
  assert (Hg : starts_assistant g').
  { rewrite Forall_forall in Hstarts. apply Hstarts. rewrite <-(take_drop k rounds'), Ed. apply elem_of_app. right. by left. }
  destruct g'; [done|]. by apply assistant_not_tool.
Qed.

Lemma render_Ok omitted selected out : render omitted selected = Ok out -> exists ps,
  project_messages (concat selected) = Ok ps /\ out = (if omitted =? 0 then [] else [loss_marker omitted]) ++ ps.
Proof.
  unfold render. destruct (project_messages _) as [ps|x]; [|done]. cbn [mbind result_bind]. intros [= <-]. eauto.
Qed.

Lemma shrink_spec max fuel : forall omitted selected projected out, (length selected <= fuel)%nat ->
  render omitted selected = Ok projected -> shrink fuel max omitted selected projected = Ok out ->
  exists j, render (omitted + Z.of_nat j) (drop j selected) = Ok out /\
    (selected <> [] -> drop j selected <> []) /\
    (projected_len out <= max \/ (length (drop j selected) <= 1)%nat).
Proof.
  induction fuel as [|fuel IH]; intros omitted selected projected out Hf Hr; cbn [shrink].
  - intros [= <-]. exists 0%nat. rewrite Z.add_0_r, drop_0. split_and!; [done|done|right; lia].
  - destruct (max <? projected_len projected) eqn:E1; cbn [andb].
    2: { zbool. intros [= <-]. exists 0%nat. rewrite Z.add_0_r, drop_0. split_and!; [done|done|by left]. }
    destruct (1 <? len selected) eqn:E2; zbool.
    2: { intros [= <-]. exists 0%nat. rewrite Z.add_0_r, drop_0. unfold len in E2. split_and!; [done|done|right; lia]. }
    destruct (render (omitted + 1) (drop 1 selected)) as [p2|x] eqn:Er; [|done]. cbn [mbind result_bind].
    intros Hs. destruct (IH (omitted + 1) (drop 1 selected) p2 out) as (j & Hj & Hne & Hlen); [rewrite length_drop; lia|done|done|].
    exists (S j). rewrite drop_drop in Hj, Hne, Hlen. cbn [Nat.add] in *. replace (omitted + Z.of_nat (S j)) with (omitted + 1 + Z.of_nat j) by lia.
    split_and!; [exact Hj| |exact Hlen]. intros _. apply Hne. unfold len in E2. destruct selected as [|a [|b l]]; cbn in *; [lia|lia|done].
Qed.

(** The history a summarizing model sees is a loss marker, when rounds were
    left out, and the newest rounds, whole, with every message's role, call
    identifiers and answered call as they were; so it satisfies the provider
    contract when the history does.  At least one round and at most the given
    number are shown, and the text is longer than allowed only when one round
    is left. *)
Theorem projection_keeps_protocol ms max_rounds max_chars out :
  Forall message_wf ms -> 1 <= max_rounds -> project_summary_input ms max_rounds max_chars = Ok out ->
  exists k marker body, let shown := drop k (group_api_rounds ms) in
    out = marker ++ body /\ Forall2 same_part (concat shown) body /\
    (ms <> [] -> shown <> []) /\ len shown <= max_rounds /\
    match k with O => marker = [] | S _ => exists m, marker = [m] /\ same_part (loss_marker (Z.of_nat k)) m end /\
    (contract ms -> contract out) /\ (max_chars < projected_len out -> len shown <= 1).
Proof.
  intros Hwf Hmax. unfold project_summary_input. destruct (group_api_rounds_spec ms) as (Hall & _ & _).
  set (rounds := group_api_rounds ms) in *. set (n := Z.to_nat (Z.max 0 (len rounds - max_rounds))).
  change (slice_from (Z.max 0 (len rounds - max_rounds)) rounds) with (drop n rounds).
  assert (Hn : Z.of_nat n = Z.max 0 (len rounds - max_rounds)) by (unfold n; lia). rewrite <-Hn. clearbody n.
  destruct (render (Z.of_nat n) (drop n rounds)) as [p|x] eqn:Er; [|done]. cbn [mbind result_bind].
  destruct (shrink _ _ _ _ p) as [q|x] eqn:Es; [|done]. cbn [mbind result_bind]. intros [= <-].
  destruct (shrink_spec _ _ _ _ _ _ (le_n _) Er Es) as (j & Hj & Hne & Hlen). rewrite drop_drop in Hj, Hne, Hlen.
  apply render_Ok in Hj as (ps & Hps & ->). set (k := (n + j)%nat) in *.
  replace (Z.of_nat n + Z.of_nat j) with (Z.of_nat k) in * by lia.
  assert (Hwfk : Forall message_wf (concat (drop k rounds))).
  { pose proof (concat_take_drop rounds k) as Hcat. rewrite Hall in Hcat. rewrite Hcat in Hwf. by apply Forall_app in Hwf as []. }
  pose proof (project_messages_parts _ Hwfk _ Hps) as Hparts.
  set (marker := if Z.of_nat k =? 0 then [] else [loss_marker (Z.of_nat k)]) in *.
  assert (Hmark : match k with O => marker = [] | S _ => exists m, marker = [m] /\ same_part (loss_marker (Z.of_nat k)) m end).
  { subst marker. destruct k as [|k]; [done|]. destruct (Z.of_nat (S k) =? 0) eqn:E; [zbool; lia|]. by eexists. }
  assert (Hcommon : forall marker' body, Forall2 same_part marker marker' -> Forall2 same_part ps body ->
    Forall2 same_part (concat (drop k rounds)) body /\
    match k with O => marker' = [] | S _ => exists m, marker' = [m] /\ same_part (loss_marker (Z.of_nat k)) m end /\
    (contract ms -> contract (marker' ++ body))).
  { intros marker' body Hm Hb. assert (Hbody : Forall2 same_part (concat (drop k rounds)) body).
    { clear -Hparts Hb. revert body Hb. induction Hparts; intros body Hb; inversion Hb; subst; constructor; [by eapply same_part_trans|auto]. }
    assert (Hmk : match k with O => marker' = [] | S _ => exists m, marker' = [m] /\ same_part (loss_marker (Z.of_nat k)) m end).
    { destruct k as [|k']; [rewrite Hmark in Hm; by apply Forall2_nil_inv_l in Hm|]. destruct Hmark as (m & -> & Hsm).
      apply Forall2_cons_inv_l in Hm as (m' & l & Hm & Hl & ->). apply Forall2_nil_inv_l in Hl as ->.
      exists m'. split; [done|by eapply same_part_trans]. }
    split_and!; [done|done|]. intros Hc. pose proof (contract_parts _ (rounds_suffix_contract k ms Hc) _ Hbody) as Hcb.
    destruct k as [|k']; [by rewrite Hmk|]. destruct Hmk as (m & -> & (Ht & Ha & _ & Hids)). cbn [app].
    apply (contract_block m [] body); [by rewrite Ht|by rewrite Hids|done]. }
  assert (Hshown : ms <> [] -> drop k rounds <> []).
  { intros Hms. apply Hne. intros Hd. assert (Hz : (length (drop n rounds) = 0)%nat) by by rewrite Hd.
    rewrite length_drop in Hz. assert (rounds <> []) by (intros H0; rewrite H0 in Hall; by apply Hms).
    assert (length rounds <> 0%nat) by (by destruct rounds). unfold len in Hn. lia. }
  assert (Hcount : len (drop k rounds) <= max_rounds) by (unfold len in *; rewrite length_drop; unfold k; lia).
  destruct (max_chars <? projected_len _) eqn:Elong; zbool.
  - rewrite map_app. exists k, (map compact_item marker), (map compact_item ps).
    destruct (Hcommon (map compact_item marker) (map compact_item ps)) as (H1 & H2 & H3);
      [apply Forall2_map_r, compact_part|apply Forall2_map_r, compact_part|].
    split_and!; [done|done|done|done|done|done|]. intros _. destruct Hlen as [Hlen|Hlen]; [lia|]. unfold len. lia.
  - assert (Hrefl : forall l, Forall2 same_part l l) by (intros l; by apply Forall_Forall2_diag, Forall_true).
    exists k, marker, ps. destruct (Hcommon marker ps (Hrefl _) (Hrefl _)) as (H1 & H2 & H3).
    split_and!; [done|done|done|done|done|done|lia].
Qed.

(** ** Enrichment *)

(** C34: Whatever the model answers, or raises, a summary keeps every fact it
    was given: sections and their keys stay, lists are only extended, only
    unknown scalars are filled in, and the provenance and the user's requests
    are unchanged.  It fails only where the history cannot be projected or the
    turn was cancelled. *)
Theorem enrichment_cannot_remove_facts {W} (chat : list message -> Z -> stm W pyval) (is_cancelled : stm W bool)
    json_loads system_prompt prompt_of repair_prompt has_llm facts ms w : valid_structure facts = true ->
  match generate_document chat is_cancelled json_loads system_prompt prompt_of repair_prompt has_llm facts ms w with
  | (Ok doc, _) => facts_kept facts doc
  | (Raise _, _) => has_llm = true /\
      ((exists x, project_summary_input ms 24 30000 = Raise x) \/ exists w', (is_cancelled w').1 <> Ok false)
  end.
Proof.
  intros Hfacts. apply valid_has_facts in Hfacts. unfold generate_document.
  assert (Hmerge : forall enrichment w, match (st_lift (merge_summary_documents facts enrichment) : stm W pydict) w with
    | (Ok doc, _) => facts_kept facts doc | (Raise _, _) => False end).
  { intros enrichment w'. destruct (merge_documents_keep facts enrichment Hfacts) as (out & Hout & Hk).
    unfold st_lift. by rewrite Hout. }
  destruct has_llm; unfold mbind at 1, stm_bind at 1.
  2: { pose proof (Hmerge None w) as Hm. cbn in Hm |- *. exact Hm. }
  unfold mbind at 1, stm_bind at 1, st_lift at 1. destruct (project_summary_input ms 24 30000) as [projected|x] eqn:Ep; [|eauto].
  unfold mbind at 1, stm_bind at 1, trying. destruct (enrich _ _ _ _ _ _ w) as [[e|x] w1].
  - pose proof (Hmerge e w1) as Hm. unfold st_lift in Hm |- *. cbn [mret stm_ret].
    by destruct (merge_summary_documents facts e).
  - unfold mbind at 1, stm_bind at 1. destruct (is_cancelled w1) as [[[]|y] w2] eqn:Ec.
    + cbn. split; [done|]. right. exists w1. by rewrite Ec.
    + pose proof (Hmerge None w2) as Hm. cbn in Hm |- *. exact Hm.
    + split; [done|]. right. exists w1. by rewrite Ec.
Qed.

(** ** Examples *)

Definition sample_document (goal : pystr) (tasks files : list pyval) : pydict :=
  [($"scope", VDict [($"summarized_history_version", VInt 3); ($"summarized_rounds", VInt 2);
                     ($"recent_rounds_preserved", VInt 1); ($"checkpoint_kind", VStr $"partial_prefix")]);
   ($"user_intent", VDict [($"current_goal", VStr goal); ($"explicit_requests", VList [VStr goal]);
                           ($"constraints_and_preferences", VList []); ($"authorization_boundaries", VList [])]);
   ($"decisions", VList []);
   ($"progress", VDict [($"completed", VList []); ($"current_work", VStr goal); ($"verified_by", VList [])]);
   ($"code_state", VDict [($"files_read", VList files); ($"files_changed", VList []);
                          ($"important_symbols", VList []); ($"worktrees_and_commits", VList [])]);
   ($"errors_and_learning", VList []);
   ($"agent_state", VDict [($"active_subagents", VList []); ($"pending_approvals", VList []);
                           ($"execution_target", VStr $"unknown"); ($"relevant_artifacts", VList [])]);
   ($"pending", VDict [($"tasks", VList tasks); ($"blockers", VList []); ($"next_action", VStr $"go on")]);
   ($"provenance", VDict [($"transcript_ref", VStr $"history_read()"); ($"source_checkpoint_ids", VList [])])].

Definition sample_facts : pydict := sample_document $"build" [VStr $"build"] [VStr $"a.py"].

(** The model's document contradicts the goal and drops a file. *)
Definition sample_answer : pydict := sample_document $"deploy" [VStr $"test"] [VStr $"b.py"].

Definition sample_generation : result pydict * Z :=
  generate_document (W := Z) (fun _ _ n => (Ok (VStr $"{}"), n + 1)) (fun n => (Ok false, n))
    (fun _ => Ok (VDict sample_answer)) [] (fun _ => []) (fun _ => []) true sample_facts sample_turns 0.

Example enriched_document :
  sample_generation = (Ok (sample_document $"build" [VStr $"build"; VStr $"test"] [VStr $"a.py"; VStr $"b.py"]), 1).
Proof. vm_compute. reflexivity. Qed.

(** A long output of one line is shown twice around a marker that says some of
    it was left out. *)
Example one_line_output_is_doubled :
  let line := repeat 97 1201 in
  projected_content (output_message $"c" line) = slice_to 2400 (line ++ [10] ++ OMITTED_OUTPUT ++ [10] ++ line).
Proof. vm_compute. reflexivity. Qed.

(** ** Witnesses *)

Lemma enrichment_cannot_remove_facts_witness :
  facts_kept sample_facts (sample_document $"build" [VStr $"build"; VStr $"test"] [VStr $"a.py"; VStr $"b.py"]).
Proof.
  pose proof (enrichment_cannot_remove_facts (W := Z) (fun _ _ n => (Ok (VStr $"{}"), n + 1)) (fun n => (Ok false, n))
    (fun _ => Ok (VDict sample_answer)) [] (fun _ => []) (fun _ => []) true sample_facts sample_turns 0
    ltac:(vm_compute; reflexivity)) as Hkept.
  fold sample_generation in Hkept. rewrite enriched_document in Hkept. exact Hkept.
Defined.

Lemma sample_turns_wf : Forall message_wf sample_turns.
Proof. apply sample_acceptable. Qed.

Lemma projection_keeps_protocol_witness : exists out k marker body,
  project_summary_input sample_turns 2 30000 = Ok out /\ len out = 4 /\ out = marker ++ body /\
  Forall2 same_part (concat (drop k (group_api_rounds sample_turns))) body.
Proof.
  destruct (project_summary_input sample_turns 2 30000) as [out|x] eqn:E; [|exfalso; vm_compute in E; discriminate E].
  destruct (projection_keeps_protocol sample_turns 2 30000 out sample_turns_wf ltac:(lia) E)
    as (k & marker & body & Hout & Hparts & _).
  exists out, k, marker, body. split; [reflexivity|]. split; [|split; [exact Hout|exact Hparts]].
  clear -E. vm_compute in E. injection E as <-. reflexivity.
Defined.
