(* ===== verification/ImageProjection.v ===== *)
(** * Images in requests (domain/images.py)

    Histories refer to images by identity; a request is a projection of the
    history in which each image is sent, or replaced by a text that says why
    not.  When a provider refuses a request for its size, the turn's
    [ImageRecovery] makes the next projection send fewer, then none.

    Loading an image and the digest that identifies an inline one are
    parameters. *)

From S2P Require Import Prelude PyValue ToolOutcome ToolHistory ContextManager.

(** ** Parts *)

Definition is_dict_of_type (types : list pystr) (v : pyval) : bool :=
  match v with
  | VDict part => match dget_none part $"type" with VStr t => bool_decide (t ∈ types) | _ => false end
  | _ => false
  end.

Definition is_image_part : pyval -> bool := is_dict_of_type [$"image"; $"image_url"].

(** [image_parts]. *)
Definition parts_of (m : message) : list pyval := match dget_none m $"content" with VList l => l | _ => [] end.
Definition image_parts (ms : list message) : list pyval :=
  filter (fun v => is_image_part v = true) (concat (map parts_of ms)).

Definition image_fields : list pystr :=
  [$"attachment_id"; $"variant_id"; $"mime_type"; $"width"; $"height"; $"size_bytes"; $"original_width";
   $"original_height"; $"name"; $"turn_id"; $"path"].
Definition required_fields : list pystr := take 8 image_fields.

Definition is_none (v : pyval) : bool := match v with VNone => true | _ => false end.
Definition text_of (v : pyval) : pystr := match v with VStr s => s | _ => [] end.
Definition int_of (v : pyval) : Z := match v with VInt n => n | _ => 0 end.
Definition is_str_value (v : pyval) : bool := match v with VStr _ => true | _ => false end.
Definition is_hash_value (v : pyval) : bool := is_str_value v && is_hash (text_of v).

(** The constructor called with the items of a dictionary, with the checks of [__post_init__]. *)
Definition image_reference (d : pydict) : result ImageReference :=
  let get := dget_none d in
  let name := dget_or d $"name" (VStr $"image") in
  _ ← raise_if (existsb (fun kv : pystr * pyval => negb (bool_decide (kv.1 ∈ image_fields))) d)
        (TypeError $"unexpected keyword argument");
  _ ← raise_if (negb (forallb (dmem d) required_fields)) (TypeError $"missing required argument");
  _ ← raise_if (negb (is_hash_value (get $"attachment_id")) || negb (is_hash_value (get $"variant_id")))
        (ValueError $"Invalid image reference");
  _ ← raise_if (negb (is_str_value name) || (256 <? len (text_of name))
                || negb (is_none (get $"turn_id") || is_str_value (get $"turn_id")))
        (ValueError $"Invalid image name or turn");
  _ ← raise_if (negb (is_none (get $"path")) &&
        (negb (is_str_value (get $"path")) || bool_decide (text_of (get $"path") = [])
         || (4096 <? len (text_of (get $"path"))) || bool_decide (0 ∈ text_of (get $"path"))))
        (ValueError $"Invalid image path");
  _ ← raise_if (negb (is_str_value (get $"mime_type")
                      && bool_decide (text_of (get $"mime_type") ∈ [$"image/png"; $"image/jpeg"; $"image/webp"])))
        (ValueError $"Unsupported image type");
  _ ← raise_if (existsb (fun k => match get k with VInt n => n <? 1 | _ => true end)
                  [$"width"; $"height"; $"size_bytes"; $"original_width"; $"original_height"])
        (ValueError $"Invalid image dimensions or size");
  Ok {| attachment_id := text_of (get $"attachment_id"); variant_id := text_of (get $"variant_id");
        mime_type := text_of (get $"mime_type"); width := int_of (get $"width"); height := int_of (get $"height");
        size_bytes := int_of (get $"size_bytes"); original_width := int_of (get $"original_width");
        original_height := int_of (get $"original_height"); i_name := text_of name;
        i_turn_id := optional_str (get $"turn_id"); i_path := optional_str (get $"path") |}.

(** [ImageReference.from_part]. *)
Definition from_part (part : pydict) : result ImageReference := image_reference (dpop part $"type").

(** [content_text]. *)
Definition part_as_text (v : pyval) : result (option pystr) :=
  match v with
  | VDict part =>
    if is_str (dget_none part $"type") $"text" then Ok (Some (py_str (dget_or part $"text" (VStr []))))
    else if is_str (dget_none part $"type") $"image" then i ← from_part part; Ok (Some (caption i))
    else if is_dict_of_type [$"image_url"; $"input_image"] v
    then Ok (Some $"[Image content; not included in this text projection]")
    else Ok None
  | _ => Ok None
  end.

Fixpoint parts_as_text (l : list pyval) : result (list pystr) :=
  match l with
  | [] => Ok []
  | v :: l => t ← part_as_text v; ts ← parts_as_text l; Ok (match t with Some t => t :: ts | None => ts end)
  end.

Definition content_text (v : pyval) : result pystr :=
  match v with
  | VStr s => Ok s
  | VList l => ts ← parts_as_text l; Ok (join [10] ts)
  | _ => Ok []
  end.

(** ** Recovery *)

Record ImageRecovery := { level : Z; stripped : list pystr }.
Definition no_recovery : ImageRecovery := {| level := 0; stripped := [] |}.

Section Projection.
Context (part_digest : pyval -> pystr).

(** [image_identity] of an image part. *)
Definition image_identity (v : pyval) : result pystr :=
  match v with
  | VDict part =>
    if is_str (dget_none part $"type") $"image"
    then match dget part $"variant_id" with Some i => Ok (py_str i) | None => Raise (KeyError $"variant_id") end
    else Ok (part_digest v)
  | _ => Ok (part_digest v)
  end.

Fixpoint identities (l : list pyval) : result (list pystr) :=
  match l with
  | [] => Ok []
  | v :: l => i ← image_identity v; rest ← identities l; Ok (i :: rest)
  end.

(** [ImageRecovery.advance]. *)
Definition advance (ms : list message) (r : ImageRecovery) : result (bool * ImageRecovery) :=
  let parts := image_parts ms in
  if bool_decide (parts = []) || (2 <=? level r) then Ok (false, r)
  else if (level r =? 0) && (2 <? len parts) then Ok (true, {| level := 1; stripped := stripped r |})
  else ids ← identities parts; Ok (true, {| level := 2; stripped := stripped r ++ ids |}).

(** ** Projection *)

Context (supports_images : bool) (load_image : option (ImageReference -> result pystr)).
Context (user_turn_only : bool) (turn_id : option pystr) (recovery : option ImageRecovery).

(** The images that the retention lets a request carry. *)
Definition eligible (v : pyval) : bool :=
  is_image_part v &&
  negb (user_turn_only && match v with
    | VDict part => is_str (dget_none part $"type") $"image"
                    && negb (bool_decide (dget_none part $"turn_id" = of_optional_str turn_id))
    | _ => false
    end).

Definition at_level (n : Z) : bool := match recovery with Some r => level r =? n | None => false end.
(** Reached with the reference in hand, so the identity is there. *)
Definition is_stripped (v : pyval) : bool :=
  match recovery with
  | Some r => (level r =? 2) && match image_identity v with Ok i => bool_decide (i ∈ stripped r) | Raise _ => false end
  | None => false
  end.

Definition older_images (ms : list message) : Z :=
  if at_level 1 then Z.max 0 (len (filter (fun v => eligible v = true) (image_parts ms)) - 2) else 0.

(** Why an image is not sent, and how many older ones are still left out. *)
Definition omission (older : Z) (v : pyval) (reference : option ImageReference) : option pystr * Z :=
  if match reference with
     | Some i => user_turn_only && negb (bool_decide (i_turn_id i = turn_id))
     | None => false
     end then (Some $"outside the current user turn", older)
  else if negb supports_images then (Some $"current model does not support image input", older)
  else if is_stripped v then (Some $"provider rejected request size", older)
  else if 0 <? older then (Some $"provider rejected request size; retaining the latest two images", older - 1)
  else (None, older).

Definition text_entry (t : pystr) : pyval := VDict [($"type", VStr $"text"); ($"text", VStr t)].
Definition url_entry (u : pyval) : pyval := VDict [($"type", VStr $"image_url"); ($"image_url", u)].

(** One part of a content list. *)
Definition project_part (older : Z) (v : pyval) : result (list pyval * Z) :=
  match v with
  | VDict part =>
    if is_image_part v then
      reference ← (if is_str (dget_none part $"type") $"image" then i ← from_part part; Ok (Some i) else Ok None);
      match omission older v reference with
      | (Some reason, older) =>
        let identity := match reference with
          | Some i => match i_path i with Some ((_ :: _) as p) => p | _ => i_name i end
          | None => part_digest v
          end in
        Ok ([text_entry ($"[Image " ++ identity ++ $" not sent: " ++ reason ++ $".]")], older)
      | (None, older) =>
        match reference with
        | Some i =>
          match load_image with
          | None => Raise (ValueError $"Image store is unavailable")
          | Some load => url ← load i; Ok ([text_entry (caption i); url_entry (VDict [($"url", VStr url)])], older)
          end
        | None =>
          match dget part $"image_url" with
          | None => Raise (KeyError $"image_url")
          | Some u => d ← dict_of u; Ok ([url_entry (VDict d)], older)
          end
        end
      end
    else Ok ([v], older)
  | _ => Ok ([v], older)
  end.

Fixpoint project_parts (older : Z) (l : list pyval) : result (list pyval * Z) :=
  match l with
  | [] => Ok ([], older)
  | v :: l =>
    p ← project_part older v;
    ps ← project_parts p.2 l;
    Ok (p.1 ++ ps.1, ps.2)
  end.

Fixpoint project_messages (older : Z) (ms : list message) : result (list message * Z) :=
  match ms with
  | [] => Ok ([], older)
  | m :: ms =>
    p ← match dget_none m $"content" with
        | VList l => ps ← project_parts older l; Ok (dset m $"content" (VList ps.1), ps.2)
        | _ => Ok (m, older)
        end;
    rest ← project_messages p.2 ms;
    Ok (p.1 :: rest.1, rest.2)
  end.

(** [project_images]. *)
Definition project_images (ms : list message) : result (list message) :=
  r ← project_messages (older_images ms) ms; Ok r.1.
End Projection.

(** [image_request_stats]: the images of a request and the size of the inline
    ones. *)
Definition after_comma (s : pystr) : option pystr :=
  match drop_while (fun c => negb (c =? 44)) s with _ :: t => Some t | [] => None end.

Definition inline_bytes (v : pyval) : result Z :=
  match v with
  | VDict part =>
    match dget_or part $"image_url" (VDict []) with
    | VDict d =>
      match dget_or d $"url" (VStr []) with
      | VStr url => Ok (if startswith url $"data:" then match after_comma url with Some t => len t | None => 0 end else 0)
      | _ => Raise (AttributeError $"startswith")
      end
    | _ => Raise (AttributeError $"get")
    end
  | _ => Ok 0
  end.

Fixpoint inline_total (l : list pyval) : result Z :=
  match l with
  | [] => Ok 0
  | v :: l => n ← inline_bytes v; rest ← inline_total l; Ok (n + rest)
  end.

Definition image_request_stats (ms : list message) : result (Z * Z) :=
  n ← inline_total (image_parts ms); Ok (len (image_parts ms), n).

(** ** Lemmas: parts *)

Lemma part_of_type_image part : is_str (dget_none part $"type") $"image" = true ->
  is_image_part (VDict part) = true.
Proof. unfold is_str, is_image_part, is_dict_of_type. by intros ->%bool_decide_eq_true. Qed.

Lemma image_type v : is_image_part v = true -> is_dict_of_type [$"image"] v = false ->
  exists part, v = VDict part /\ is_str (dget_none part $"type") $"image" = false.
Proof.
  destruct v as [| | | | | |part]; try done. intros H1 H2. exists part. split; [done|].
  apply bool_decide_eq_false_2. intros Ht. unfold is_dict_of_type in H2. by rewrite Ht in H2.
Qed.

Definition sent (l : list pyval) : list pyval := filter (fun v => is_image_part v = true) l.

Lemma image_parts_cons m ms : image_parts (m :: ms) = sent (parts_of m) ++ image_parts ms.
Proof. unfold image_parts, sent. cbn [map concat]. by rewrite filter_app. Qed.

Lemma len_sent_cons v l : len (sent (v :: l)) = (if is_image_part v then 1 else 0) + len (sent l).
Proof. unfold sent. rewrite filter_cons. destruct (is_image_part v); cases; rewrite ?len_cons; done. Qed.

Lemma parts_of_dset m l : parts_of (dset m $"content" (VList l)) = l.
Proof. unfold parts_of, dget_none. by rewrite dget_dset_eq. Qed.

(** ** Lemmas: references *)

Lemma from_part_turn part i : from_part part = Ok i -> of_optional_str (i_turn_id i) = dget_none part $"turn_id".
Proof.
  unfold from_part, image_reference. intros H. checks H. simplify_eq/=.
  apply orb_false_iff in C2 as [_ C2%negb_false_iff].
  assert (Hd : dget_none (dpop part $"type") $"turn_id" = dget_none part $"turn_id")
    by (unfold dget_none; by rewrite dget_dpop).
  rewrite Hd in *. by destruct (dget_none part $"turn_id").
Qed.

Lemma of_optional_inj a b : of_optional_str a = of_optional_str b -> a = b.
Proof. destruct a, b; cbn; congruence. Qed.

(** The checks of a reference are those of the part it is read from. *)
Lemma from_part_valid part i : from_part part = Ok i -> check_image i = Ok i.
Proof.
  unfold from_part, image_reference. set (d := dpop part _). intros H. checks H. injection H as <-.
  unfold check_image, is_hash_value in *; cbn [attachment_id variant_id mime_type width height size_bytes
    original_width original_height i_name i_path] in *.
  apply orb_false_iff in C1 as [C1%negb_false_iff C1'%negb_false_iff].
  apply andb_true_iff in C1 as [_ ->], C1' as [_ ->]. cbn [negb orb].
  apply orb_false_iff in C2 as [C2 _]. apply orb_false_iff in C2 as [_ ->].
  apply negb_false_iff, andb_true_iff in C4 as [_ ->]. cbn [negb].
  assert (Hn : forall v, match v with VInt n => n <? 1 | _ => true end = false -> (int_of v <? 1) = false) by (by intros []).
  cbn [existsb] in C5 |- *. repeat (apply orb_false_iff in C5 as [?%Hn C5]).
  repeat match goal with E : (int_of _ <? 1) = false |- _ => rewrite E; clear E end.
  destruct (dget_none d $"path"); cbn in C3 |- *; try done. by rewrite C3.
Qed.

(** [from_part] reads back what [to_part] writes. *)
Lemma from_part_to_part i : check_image i = Ok i -> from_part (to_part i) = Ok i.
Proof.
  destruct i as [a v m w h s ow oh n t p]. unfold check_image; cbn [attachment_id variant_id mime_type width height
    size_bytes original_width original_height i_name i_path].
  intros H.
  destruct (negb (is_hash a) || negb (is_hash v)) eqn:Hh; [done|].
  destruct (256 <? len n) eqn:Hlen; [done|].
  destruct (match p with Some _ => _ | None => _ end) eqn:Hp; [done|].
  destruct (negb (bool_decide (m ∈ _))) eqn:Hm; [done|].
  destruct (existsb _ _) eqn:Hz; [done|]. clear H.
  unfold from_part. set (d := dpop _ _).
  assert (Hd : existsb (fun kv : pystr * pyval => negb (bool_decide (kv.1 ∈ image_fields))) d = false
               /\ forallb (dmem d) required_fields = true) by (by destruct p).
  assert (dget_none d $"path" = of_optional_str p) as Hpath by (by destruct p).
  unfold image_reference, is_hash_value. rewrite (proj1 Hd), (proj2 Hd), Hpath. clear Hd.
  change (dget_none d $"attachment_id") with (VStr a). change (dget_none d $"variant_id") with (VStr v).
  change (dget_none d $"mime_type") with (VStr m). change (dget_or d $"name" (VStr $"image")) with (VStr n).
  change (dget_none d $"turn_id") with (of_optional_str t). cbn [existsb] in Hz |- *.
  change (dget_none d $"width") with (VInt w). change (dget_none d $"height") with (VInt h).
  change (dget_none d $"size_bytes") with (VInt s). change (dget_none d $"original_width") with (VInt ow).
  change (dget_none d $"original_height") with (VInt oh). cbn [is_str_value text_of int_of andb raise_if].
  rewrite Hh, Hlen, Hm, Hz. destruct t, p as [p|]; cbn -[bool_decide len Z.ltb] in *; rewrite ?Hp; done.
Qed.

(** ** Lemmas: one part *)

Section ProjectionLemmas.
Context (part_digest : pyval -> pystr) (supports_images : bool) (load_image : option (ImageReference -> result pystr)).
Context (user_turn_only : bool) (turn_id : option pystr) (recovery : option ImageRecovery).

#[local] Abbreviation project_part := (project_part part_digest supports_images load_image user_turn_only turn_id recovery).
#[local] Abbreviation project_parts := (project_parts part_digest supports_images load_image user_turn_only turn_id recovery).
#[local] Abbreviation project_messages := (project_messages part_digest supports_images load_image user_turn_only turn_id recovery).
#[local] Abbreviation omission := (omission part_digest supports_images user_turn_only turn_id recovery).
#[local] Abbreviation eligible := (eligible user_turn_only turn_id).

(** What becomes of an image part: a text that says why it is not sent, or the
    image itself. *)
Lemma project_image older v p : is_image_part v = true -> project_part older v = Ok p ->
  exists reference,
    match reference with
    | Some i => exists part, v = VDict part /\ from_part part = Ok i /\ is_str (dget_none part $"type") $"image" = true
    | None => is_dict_of_type [$"image"] v = false
    end
    /\ match omission older v reference with
       | (Some _, older') => exists t, p = ([text_entry t], older')
       | (None, older') => exists ts d, p = (map text_entry ts ++ [url_entry (VDict d)], older')
       end.
Proof.
  destruct v as [| | | | | |part]; try done. intros Hv. cbn [ImageProjection.project_part]. rewrite Hv.
  intros (reference & Hr & H)%bind_ok. exists reference. split.
  - destruct (is_str _ _) eqn:Ht.
    + apply bind_ok in Hr as (i & Hi & [= <-]). eauto.
    + injection Hr as <-. unfold is_dict_of_type. destruct (dget_none part $"type") eqn:Hty; try done.
      apply bool_decide_eq_false_2. intros ->%list_elem_of_singleton. unfold is_str in Ht. by rewrite bool_decide_eq_true_2 in Ht.
  - destruct (omission older (VDict part) reference) as [[reason|] older'].
    + injection H as <-. by eexists.
    + destruct reference as [i|].
      * destruct load_image as [load|]; [|done]. apply bind_ok in H as (url & _ & [= <-]). by exists [caption i], [($"url", VStr url)].
      * destruct (dget part _) as [u|]; [|done]. apply bind_ok in H as (d & _ & [= <-]). by exists [], d.
Qed.

Lemma project_other older v p : is_image_part v = false -> project_part older v = Ok p -> p = ([v], older).
Proof. destruct v; cbn [ImageProjection.project_part]; try (intros _ [= <-]; done). intros ->. by intros [= <-]. Qed.

Lemma eligible_image v : is_image_part v = false -> eligible v = false.
Proof. unfold ImageProjection.eligible. by intros ->. Qed.

Lemma omitted_older older v r reason older' : 0 <= older -> omission older v r = (reason, older') ->
  (older' = older /\ (reason = None -> older = 0)) \/ (older' = older - 1 /\ 0 < older /\ is_Some reason).
Proof. unfold ImageProjection.omission. intros Ho H. cases; zbool; first [left; split; [done|intros; first [lia|done]]|right; by eauto]. Qed.

(** An image of another turn is refused before anything else. *)
Lemma ineligible_omitted older v r : is_image_part v = true -> eligible v = false ->
  match r with
  | Some i => exists part, v = VDict part /\ from_part part = Ok i /\ is_str (dget_none part $"type") $"image" = true
  | None => is_dict_of_type [$"image"] v = false
  end -> omission older v r = (Some $"outside the current user turn", older).
Proof.
  unfold ImageProjection.eligible. intros ->. cbn [andb]. rewrite negb_false_iff, andb_true_iff. intros [Hu Hv] Hr.
  destruct v as [| | | | | |part]; try done. apply andb_true_iff in Hv as [Ht Hne%negb_true_iff%bool_decide_eq_false].
  destruct r as [i|]; cycle 1.
  { unfold is_str in Ht. apply bool_decide_eq_true in Ht. unfold is_dict_of_type in Hr. by rewrite Ht in Hr. }
  destruct Hr as (part' & [= <-] & Hi & _). apply from_part_turn in Hi.
  unfold ImageProjection.omission. by rewrite Hu, bool_decide_eq_false_2 by congruence.
Qed.

Lemma sent_texts ts l : sent (map text_entry ts ++ l) = sent l.
Proof. induction ts as [|t ts IH]; [done|]. exact IH. Qed.

(** A part sends at most one image, and only an eligible one; an older image
    that is left out uses up one of those to leave out. *)
Lemma project_part_budget older v p : 0 <= older -> project_part older v = Ok p ->
  0 <= p.2 <= older /\ len (sent p.1) + (older - p.2) <= (if eligible v then 1 else 0) /\ (0 < p.2 -> len (sent p.1) = 0).
Proof.
  intros Ho H. destruct (is_image_part v) eqn:Hv; cycle 1.
  { apply project_other in H as ->; [|done]. cbn [fst snd]. rewrite len_sent_cons, Hv, eligible_image by done.
    change (len (sent [])) with 0. lia. }
  destruct (project_image _ _ _ Hv H) as (reference & Href & Hp).
  destruct (omission older v reference) as [reason older'] eqn:Hom.
  pose proof (omitted_older _ _ _ _ _ Ho Hom) as Hcase.
  destruct (eligible v) eqn:He; cycle 1.
  { rewrite (ineligible_omitted _ _ _ Hv He Href) in Hom. injection Hom as <- <-. destruct Hp as [t ->].
    cbn [fst snd]. change (len (sent [text_entry t])) with 0. lia. }
  destruct reason as [reason|].
  - destruct Hp as [t ->]. cbn [fst snd]. change (len (sent [text_entry t])) with 0.
    destruct Hcase as [[-> _]|(-> & ? & _)]; lia.
  - destruct Hp as (ts & d & ->). cbn [fst snd]. destruct Hcase as [[-> Hz]|(_ & _ & [? ?])]; [|done].
    rewrite Hz, sent_texts by done. change (len (sent [url_entry (VDict d)])) with 1. lia.
Qed.

(** No image part of the store's own kind is left. *)
Definition is_raw_image (v : pyval) : bool := is_dict_of_type [$"image"] v.

Lemma raw_is_image v : is_raw_image v = true -> is_image_part v = true.
Proof.
  unfold is_raw_image, is_image_part, is_dict_of_type. destruct v as [| | | | | |part]; try done.
  destruct (dget_none part _); try done. rewrite !bool_decide_eq_true, list_elem_of_singleton. intros ->. by left.
Qed.

Lemma project_part_resolved older v p : project_part older v = Ok p -> Forall (fun v => is_raw_image v = false) p.1.
Proof.
  intros H. destruct (is_image_part v) eqn:Hv; cycle 1.
  { apply project_other in H as ->; [|done]. constructor; [|done]. apply not_true_is_false. intros ?%raw_is_image. congruence. }
  destruct (project_image _ _ _ Hv H) as (reference & _ & Hp).
  destruct (omission older v reference) as [[reason|] older'].
  - destruct Hp as [t ->]. by repeat constructor.
  - destruct Hp as (ts & d & ->). cbn [fst]. rewrite Forall_app. split; [|by repeat constructor].
    by apply Forall_map, Forall_true.
Qed.

(** When every image has a reason to be left out, none is sent. *)
Definition refused (v : pyval) : Prop :=
  is_image_part v = true -> supports_images = false \/ is_stripped part_digest recovery v = true.

Lemma project_part_refused older v p : refused v -> project_part older v = Ok p -> sent p.1 = [].
Proof.
  intros Href H. destruct (is_image_part v) eqn:Hv; cycle 1.
  { apply project_other in H as ->; [|done]. unfold sent. cbn [fst]. rewrite filter_cons_False by congruence. done. }
  destruct (project_image _ _ _ Hv H) as (reference & _ & Hp).
  destruct (omission older v reference) as [[reason|] older'] eqn:Hom; [by destruct Hp as [t ->]|].
  exfalso. revert Hom. unfold ImageProjection.omission. case_match; [done|].
  destruct (Href Hv) as [->| ->]; [done|]. by destruct supports_images.
Qed.

(** ** Lemmas: the whole request *)

Lemma project_parts_budget l : forall older p, 0 <= older -> project_parts older l = Ok p ->
  0 <= p.2 <= older /\ len (sent p.1) + (older - p.2) <= len (filter (fun v => eligible v = true) l)
  /\ (0 < p.2 -> len (sent p.1) = 0).
Proof.
  induction l as [|v l IH]; intros older p Ho H; cbn [ImageProjection.project_parts] in H.
  { injection H as <-. unfold sent, len. simpl. lia. }
  ok_inv H. ok_inv H. injection H as <-. cbn [fst snd]. destruct (project_part_budget _ _ _ Ho Hr) as (H1 & H2 & H3).
  destruct (IH r.2 _ ltac:(lia) Hr0) as (H1' & H2' & H3').
  unfold sent in *. rewrite filter_app, len_app, filter_cons.
  pose proof (len_nonneg (filter (fun v => is_image_part v = true) r.1)).
  pose proof (len_nonneg (filter (fun v => is_image_part v = true) r0.1)).
  destruct (eligible v) eqn:He; cases; rewrite ?len_cons; try lia.
Qed.

Lemma eligible_sent l : filter (fun v => eligible v = true) (sent l) = filter (fun v => eligible v = true) l.
Proof.
  unfold sent. rewrite list_filter_filter_l; [done|]. intros v Hv. apply not_false_is_true. intros ?%eligible_image. congruence.
Qed.

(** Message by message, with the budget of older images threaded through. *)
Lemma project_messages_budget ms : forall older p, 0 <= older -> project_messages older ms = Ok p ->
  0 <= p.2 <= older
  /\ len (image_parts p.1) + (older - p.2) <= len (filter (fun v => eligible v = true) (image_parts ms))
  /\ (0 < p.2 -> len (image_parts p.1) = 0).
Proof.
  induction ms as [|m ms IH]; intros older p Ho H; cbn [ImageProjection.project_messages] in H.
  { injection H as <-. unfold image_parts, len. simpl. lia. }
  ok_inv H. ok_inv H. injection H as <-. cbn [fst snd].
  assert (Hm : 0 <= r.2 <= older
    /\ len (sent (parts_of r.1)) + (older - r.2) <= len (filter (fun v => eligible v = true) (parts_of m))
    /\ (0 < r.2 -> len (sent (parts_of r.1)) = 0)).
  { unfold parts_of at 2. destruct (dget_none m $"content") as [| | | | |l|] eqn:Hc;
      try (injection Hr as <-; cbn [fst snd]; unfold parts_of; rewrite Hc; unfold sent, len; simpl; lia).
    ok_inv Hr. injection Hr as <-. cbn [fst snd]. rewrite parts_of_dset. by apply project_parts_budget. }
  destruct Hm as (H1 & H2 & H3). destruct (IH r.2 _ ltac:(lia) Hr0) as (H1' & H2' & H3').
  rewrite !image_parts_cons, filter_app, !len_app, eligible_sent.
  pose proof (len_nonneg (sent (parts_of r.1))). pose proof (len_nonneg (image_parts r0.1)). lia.
Qed.

(** A property of every part sent, from the same property of each part. *)
Lemma project_parts_Forall (P : pyval -> Prop) l :
  Forall (fun v => forall older p, project_part older v = Ok p -> Forall P p.1) l ->
  forall older p, project_parts older l = Ok p -> Forall P p.1.
Proof.
  induction 1 as [|v l Hv _ IH]; intros older p H; cbn [ImageProjection.project_parts] in H; [by injection H as <-|].
  ok_inv H. ok_inv H. injection H as <-. cbn [fst]. rewrite Forall_app. eauto.
Qed.

Lemma project_messages_Forall (P : pyval -> Prop) ms :
  Forall (fun m => Forall (fun v => forall older p, project_part older v = Ok p -> Forall P p.1) (parts_of m)) ms ->
  forall older p, project_messages older ms = Ok p -> Forall P (concat (map parts_of p.1)).
Proof.
  induction 1 as [|m ms Hm _ IH]; intros older p H; cbn [ImageProjection.project_messages] in H; [by injection H as <-|].
  ok_inv H. ok_inv H. injection H as <-. cbn [fst map concat]. rewrite Forall_app. split; [|by eauto].
  unfold parts_of at 1 in Hm. destruct (dget_none m $"content") as [| | | | |l|] eqn:Hc;
    try (injection Hr as <-; cbn [fst]; unfold parts_of; by rewrite Hc).
  ok_inv Hr. injection Hr as <-. cbn [fst]. rewrite parts_of_dset. by eapply project_parts_Forall.
Qed.

Lemma project_messages_resolved older ms p : project_messages older ms = Ok p ->
  Forall (fun v => is_raw_image v = false) (concat (map parts_of p.1)).
Proof.
  apply project_messages_Forall, Forall_true. intros m. apply Forall_true. intros v. exact (fun older' q => project_part_resolved older' v q).
Qed.

Lemma project_messages_refused older ms p : Forall refused (image_parts ms) -> project_messages older ms = Ok p ->
  image_parts p.1 = [].
Proof.
  intros Hms H. unfold image_parts. cut (Forall (fun v => is_image_part v <> true) (concat (map parts_of p.1))).
  { induction 1 as [|v l Hv _ IH]; [done|]. by rewrite filter_cons_False. }
  revert H. apply project_messages_Forall. apply Forall_forall. intros m Hm. apply Forall_forall. intros v Hv older' q Hq.
  assert (Hr : refused v).
  { intros Hi. eapply Forall_forall in Hms; [by apply Hms|]. apply list_elem_of_filter. split; [done|].
    apply list_elem_of_In, in_concat. exists (parts_of m). split; [by apply in_map, list_elem_of_In|by apply list_elem_of_In]. }
  pose proof (project_part_refused _ _ _ Hr Hq) as Hs. apply Forall_forall. intros w Hw Hi.
  assert (w ∈ sent q.1) as Hw' by (by apply list_elem_of_filter). rewrite Hs in Hw'. by apply not_elem_of_nil in Hw'.
Qed.

(** Only the content of a message changes. *)
Lemma project_messages_similar ms : forall older p, project_messages older ms = Ok p -> Forall2 similar ms p.1.
Proof.
  induction ms as [|m ms IH]; intros older p H; cbn [ImageProjection.project_messages] in H; [by injection H as <-|].
  ok_inv H. ok_inv H. injection H as <-. cbn [fst]. constructor; [|by eauto].
  destruct (dget_none m $"content"); try (by injection Hr as <-).
  ok_inv Hr. injection Hr as <-. intros k Hk _. cbn [fst]. by rewrite dget_dset_ne.
Qed.
End ProjectionLemmas.

(** ** Lemmas: recovery *)

Lemma identities_elem part_digest l ids v : identities part_digest l = Ok ids -> v ∈ l ->
  exists i, image_identity part_digest v = Ok i /\ i ∈ ids.
Proof.
  revert ids. induction l as [|w l IH]; intros ids H Hv; [by apply not_elem_of_nil in Hv|].
  cbn [identities] in H. ok_inv H. ok_inv H. injection H as <-.
  apply elem_of_cons in Hv as [->|Hv]; [exists r; split; [done|by left]|].
  destruct (IH _ Hr0 Hv) as (i & ? & ?). exists i. split; [done|by right].
Qed.

Lemma advance_case part_digest ms r b r' : 0 <= level r -> advance part_digest ms r = Ok (b, r') ->
  (b = false /\ r' = r /\ (image_parts ms = [] \/ 2 <= level r))
  \/ (b = true /\ level r' = 1 /\ level r = 0)
  \/ (b = true /\ level r' = 2 /\ level r < 2
      /\ forall v, v ∈ image_parts ms -> is_stripped part_digest (Some r') v = true).
Proof.
  intros Hl. unfold advance. destruct (bool_decide _ || _) eqn:E1.
  { intros [= <- <-]. left. split_and!; [done..|]. apply orb_true_iff in E1 as [E1%bool_decide_eq_true|E1]; zbool; auto. }
  apply orb_false_iff in E1 as [_ E1]. zbool. destruct (_ && _) eqn:E2.
  { intros [= <- <-]. right; left. apply andb_true_iff in E2 as [? _]. zbool. auto. }
  intros H. ok_inv H. injection H as <- <-. right; right. split_and!; [done..|lia|].
  intros v Hv. destruct (identities_elem _ _ _ _ Hr Hv) as (i & Hi & Hin).
  unfold is_stripped. cbn. rewrite Hi. apply bool_decide_eq_true_2, elem_of_app. by right.
Qed.

(** ** Theorems *)

(** C33: A projected request keeps the provider's contract of its messages, and
    what images it carries is what the model and the turn allow: no part still
    refers to the image store; a model without image input gets no image; and
    after the first refusal for size at most two images are left, whatever
    the retention. *)
Theorem projected_request_is_sendable part_digest supports load user_turn_only turn_id recovery ms out
    (Hp : project_images part_digest supports load user_turn_only turn_id recovery ms = Ok out) :
  (acceptable ms -> acceptable out)
  /\ Forall (fun v => is_raw_image v = false) (concat (map parts_of out))
  /\ (supports = false -> image_parts out = [])
  /\ (at_level recovery 1 = true -> len (image_parts out) <= 2).
Proof.
  unfold project_images in Hp. ok_inv Hp. injection Hp as <-. split_and!.
  - eapply acceptable_similar, project_messages_similar, Hr.
  - eapply project_messages_resolved, Hr.
  - intros ->. eapply project_messages_refused, Hr. apply Forall_true. intros v _. by left.
  - intros Hl. unfold older_images in Hr. rewrite Hl in Hr.
    apply project_messages_budget in Hr as (H1 & H2 & H3); [|lia]. unfold image_parts in *. lia.
Qed.

(** Image recovery is bounded and it works: each time it advances its level
    rises, at most to two, so a turn resends a refused request at most twice;
    it does not advance when there is nothing left to drop; and once it is at
    its last level the request it projects carries no image at all. *)
Theorem image_recovery_converges part_digest ms r b r' (Hl : 0 <= level r <= 2)
    (Ha : advance part_digest ms r = Ok (b, r')) :
  (b = true -> level r < level r' <= 2)
  /\ (b = false -> r' = r /\ (image_parts ms = [] \/ level r = 2))
  /\ (b = true -> level r' = 2 -> forall supports load user_turn_only turn_id out,
        project_images part_digest supports load user_turn_only turn_id (Some r') ms = Ok out -> image_parts out = []).
Proof.
  destruct (advance_case _ _ _ _ _ (proj1 Hl) Ha) as [(-> & -> & ?)|[(-> & H1 & H2)|(-> & H1 & H2 & Hs)]].
  - split_and!; [done| |done]. intros _. split; [done|]. intuition lia.
  - split_and!; [lia|done|]. intros _ ?. lia.
  - split_and!; [lia|done|]. intros _ _ supports load u t out Hp. unfold project_images in Hp. ok_inv Hp.
    injection Hp as <-. eapply project_messages_refused, Hr. apply Forall_forall. intros v Hv _. right. by apply Hs.
Qed.

(** A reference survives the history: the part a valid image is stored as
    is read back as the same reference, and whatever part is accepted describes
    a valid image. *)
Theorem image_reference_roundtrip :
  (forall i, check_image i = Ok i -> from_part (to_part i) = Ok i)
  /\ (forall part i, from_part part = Ok i -> check_image i = Ok i).
Proof. split; [exact from_part_to_part|exact from_part_valid]. Qed.

(** ** Witnesses *)

Definition example_hash (c : Z) : pystr := repeat c 64.
Definition example_image (c : Z) : ImageReference :=
  {| attachment_id := example_hash c; variant_id := example_hash c; mime_type := $"image/png"; width := 8; height := 8;
     size_bytes := 90; original_width := 8; original_height := 8; i_name := $"shot.png"; i_turn_id := Some $"t1"; i_path := None |}.
Definition example_request : list message :=
  [ [($"role", VStr $"user");
     ($"content", VList (text_entry $"look" :: map (fun c => VDict (to_part (example_image c))) [97; 98; 99]))] ].
Definition example_load (i : ImageReference) : result pystr := Ok ($"data:image/png;base64," ++ take 4 (variant_id i)).
Definition example_digest (v : pyval) : pystr := $"digest".

(** Of three images the two latest are sent after the first refusal. *)
Lemma projected_request_is_sendable_witness :
  exists out, project_images example_digest true (Some example_load) true (Some $"t1")
      (Some {| level := 1; stripped := [] |}) example_request = Ok out
    /\ len (image_parts out) <= 2 /\ len (image_parts out) = 2.
Proof.
  set (p := project_images _ _ _ _ _ _ _). vm_compute in p. eexists. split; [reflexivity|]. split; [|reflexivity].
  apply (projected_request_is_sendable example_digest true (Some example_load) true (Some $"t1")
    (Some {| level := 1; stripped := [] |}) example_request); reflexivity.
Defined.

Lemma image_recovery_converges_witness :
  exists r, advance example_digest example_request {| level := 1; stripped := [] |} = Ok (true, r) /\ level r <= 2.
Proof.
  eexists. split; [vm_compute; reflexivity|].
  apply (image_recovery_converges example_digest example_request {| level := 1; stripped := [] |} true); [cbn; lia|vm_compute; reflexivity|done].
Defined.

Lemma image_reference_roundtrip_witness : from_part (to_part (example_image 97)) = Ok (example_image 97).
Proof. apply image_reference_roundtrip. reflexivity. Defined.
