(* ===== verification/ProcessManager.v ===== *)
(** * The process manager (domain/process_manager.py, domain/process.py)

    The manager owns process sessions across tool calls and turns.  A table
    maps session identifiers to entry objects, which operations, the watcher
    thread of each process and their callers share; so entries live in a heap,
    and the table and the threads hold their addresses.

    An operation takes the manager's lock for one or more sections and calls
    the process port, and the event sink, between them.  Such a call is any
    [stm] on the manager: it returns or raises what the port does, and leaves
    the manager as the other threads left it meanwhile.  Within a section the
    operation is alone.  Ports are represented by their identity; the locks of
    a consumer and of a session's input serialise the calls they span, which
    theorems that need it state of the calls.  Clocks are arguments. *)

From S2P Require Import Prelude TextBuffer ProcessOutput Hoare.

Inductive ProcessState := RUNNING | EXITED | UNKNOWN.
Inductive ProcessStreamMode := PIPE | PTY.

#[export] Instance process_state_eq : EqDecision ProcessState.
Proof. solve_decision. Defined.
#[export] Instance stream_mode_eq : EqDecision ProcessStreamMode.
Proof. solve_decision. Defined.

Record ProcessCursor := { stdout_offset : Z; stderr_offset : Z }.
Definition start_cursor : ProcessCursor := {| stdout_offset := 0; stderr_offset := 0 |}.

Record ProcessHandle := { h_session_id : pystr; h_stream_mode : ProcessStreamMode }.

Record ProcessSnapshot := {
  s_session_id : pystr;
  state : ProcessState;
  stream_mode : ProcessStreamMode;
  backend : pystr;
  stdout : pystr;
  stderr : pystr;
  cursor : ProcessCursor;
  exit_code : option Z;
  termination_reason : option pystr;
  started_at : Z;
  finished_at : option Z;
  runtime_timeout_seconds : Z;
  output_truncated : bool;
  output_decode_replaced : bool;
  total_stdout_bytes : Z;
  total_stderr_bytes : Z;
}.

(** [replace(snapshot, stdout=..., stderr=...)]. *)
Definition with_output (out err : pystr) (s : ProcessSnapshot) : ProcessSnapshot :=
  {| s_session_id := s_session_id s; state := state s; stream_mode := stream_mode s; backend := backend s;
     stdout := out; stderr := err; cursor := cursor s; exit_code := exit_code s;
     termination_reason := termination_reason s; started_at := started_at s; finished_at := finished_at s;
     runtime_timeout_seconds := runtime_timeout_seconds s; output_truncated := output_truncated s;
     output_decode_replaced := output_decode_replaced s; total_stdout_bytes := total_stdout_bytes s;
     total_stderr_bytes := total_stderr_bytes s |}.

Definition elapsed_seconds (now : Z) (s : ProcessSnapshot) : Z :=
  Z.max 0 (default now (finished_at s) - started_at s).

Inductive ProcessEventKind := PUBLISHED | OUTPUT | UPDATED | COMPLETED.

#[export] Instance event_kind_eq : EqDecision ProcessEventKind.
Proof. solve_decision. Defined.

(** The entry object [_ManagedEntry]; [watcher] is whether its thread exists. *)
Record Entry := {
  handle : ProcessHandle;
  port : Z;
  command : pystr;
  cwd : pystr;
  owner_agent_id : pystr;
  owner_session_id : option pystr;
  session_generation : Z;
  origin_turn_id : option pystr;
  created_monotonic : Z;
  last_snapshot : ProcessSnapshot;
  published : bool;
  observed : bool;
  abandoned : bool;
  observed_at : option Z;
  terminal_at : option Z;
  cursors : list (pystr * ProcessCursor);
  watcher_cursor : ProcessCursor;
  watcher : bool;
  watcher_started : bool;
  completion_emitted : bool;
  input_bytes : Z;
  sensitive_values : list pystr;
  output_filters : list ((pystr * pystr) * pystr);
  output_tails : list (pystr * OutputTail);
}.

(** What an emitted event holds of the entry is read when it is emitted. *)
Record ProcessEvent := { e_kind : ProcessEventKind; e_snapshot : ProcessSnapshot; e_entry : Entry; e_object : Z }.

Record Manager := {
  heap : list (Z * Entry);
  entries : list (pystr * Z);
  ports : list Z;
  starting_ports : list (Z * Z);
  closing : bool;
  starting : Z;
  events : list ProcessEvent;
}.

(** [o or d]: zero counts as absent. *)
Definition or_else (o : option Z) (d : Z) : Z := match o with Some (Zpos _ as t) | Some (Zneg _ as t) => t | _ => d end.

(** ** Changes of an entry *)

Definition set_observation (snap : ProcessSnapshot) (seen : bool) (seen_at ended : option Z) (e : Entry) : Entry :=
  {| handle := handle e; port := port e; command := command e; cwd := cwd e; owner_agent_id := owner_agent_id e;
     owner_session_id := owner_session_id e; session_generation := session_generation e;
     origin_turn_id := origin_turn_id e; created_monotonic := created_monotonic e; last_snapshot := snap;
     published := published e; observed := seen; abandoned := abandoned e; observed_at := seen_at;
     terminal_at := ended; cursors := cursors e; watcher_cursor := watcher_cursor e; watcher := watcher e;
     watcher_started := watcher_started e; completion_emitted := completion_emitted e;
     input_bytes := input_bytes e; sensitive_values := sensitive_values e; output_filters := output_filters e;
     output_tails := output_tails e |}.

Definition set_lifecycle (generation : Z) (pub aband has started emitted : bool) (e : Entry) : Entry :=
  {| handle := handle e; port := port e; command := command e; cwd := cwd e; owner_agent_id := owner_agent_id e;
     owner_session_id := owner_session_id e; session_generation := generation;
     origin_turn_id := origin_turn_id e; created_monotonic := created_monotonic e; last_snapshot := last_snapshot e;
     published := pub; observed := observed e; abandoned := aband; observed_at := observed_at e;
     terminal_at := terminal_at e; cursors := cursors e; watcher_cursor := watcher_cursor e; watcher := has;
     watcher_started := started; completion_emitted := emitted;
     input_bytes := input_bytes e; sensitive_values := sensitive_values e; output_filters := output_filters e;
     output_tails := output_tails e |}.

Definition set_streams (cs : list (pystr * ProcessCursor)) (wc : ProcessCursor) (n : Z) (values : list pystr)
    (filters : list ((pystr * pystr) * pystr)) (tails : list (pystr * OutputTail)) (e : Entry) : Entry :=
  {| handle := handle e; port := port e; command := command e; cwd := cwd e; owner_agent_id := owner_agent_id e;
     owner_session_id := owner_session_id e; session_generation := session_generation e;
     origin_turn_id := origin_turn_id e; created_monotonic := created_monotonic e; last_snapshot := last_snapshot e;
     published := published e; observed := observed e; abandoned := abandoned e; observed_at := observed_at e;
     terminal_at := terminal_at e; cursors := cs; watcher_cursor := wc; watcher := watcher e;
     watcher_started := watcher_started e; completion_emitted := completion_emitted e;
     input_bytes := n; sensitive_values := values; output_filters := filters; output_tails := tails |}.

Definition set_published (e : Entry) : Entry :=
  set_lifecycle (session_generation e) true (abandoned e) (watcher e) (watcher_started e) (completion_emitted e) e.
Definition set_abandoned (e : Entry) : Entry :=
  set_lifecycle (session_generation e) (published e) true (watcher e) (watcher_started e) (completion_emitted e) e.
Definition set_watcher (e : Entry) : Entry :=
  set_lifecycle (session_generation e) (published e) (abandoned e) true (watcher_started e) (completion_emitted e) e.
Definition set_emitted (e : Entry) : Entry :=
  set_lifecycle (session_generation e) (published e) (abandoned e) (watcher e) (watcher_started e) true e.
Definition set_generation (n : Z) (e : Entry) : Entry :=
  set_lifecycle n (published e) (abandoned e) (watcher e) (watcher_started e) (completion_emitted e) e.
(** [_ensure_watcher_started_locked]. *)
Definition ensure_watcher_started (e : Entry) : Entry :=
  if watcher e then
    set_lifecycle (session_generation e) (published e) (abandoned e) (watcher e) true (completion_emitted e) e
  else e.
Definition set_cursor (consumer : pystr) (c : ProcessCursor) (e : Entry) : Entry :=
  set_streams (assoc_set (cursors e) consumer c) (watcher_cursor e) (input_bytes e) (sensitive_values e)
    (output_filters e) (output_tails e) e.
Definition set_watcher_cursor (c : ProcessCursor) (e : Entry) : Entry :=
  set_streams (cursors e) c (input_bytes e) (sensitive_values e) (output_filters e) (output_tails e) e.
Definition set_input (n : Z) (e : Entry) : Entry :=
  set_streams (cursors e) (watcher_cursor e) n (sensitive_values e) (output_filters e) (output_tails e) e.
Definition set_filters (l : list ((pystr * pystr) * pystr)) (e : Entry) : Entry :=
  set_streams (cursors e) (watcher_cursor e) (input_bytes e) (sensitive_values e) l (output_tails e) e.
Definition set_tails (l : list (pystr * OutputTail)) (e : Entry) : Entry :=
  set_streams (cursors e) (watcher_cursor e) (input_bytes e) (sensitive_values e) (output_filters e) l e.
Definition add_sensitive (v : pystr) (e : Entry) : Entry :=
  set_streams (cursors e) (watcher_cursor e) (input_bytes e)
    (if decide (v ∈ sensitive_values e) then sensitive_values e else sensitive_values e ++ [v])
    (output_filters e) (output_tails e) e.
Definition set_snapshot (s : ProcessSnapshot) (e : Entry) : Entry :=
  set_observation s (observed e) (observed_at e) (terminal_at e) e.
(** [terminal_at = terminal_at or time.monotonic()] when the process exited. *)
Definition note_exit (now : Z) (e : Entry) : Entry :=
  if decide (state (last_snapshot e) = EXITED) then
    set_observation (last_snapshot e) (observed e) (observed_at e)
      (Some (or_else (terminal_at e) now)) e
  else e.
Definition note_observed (now : Z) (e : Entry) : Entry :=
  if decide (state (last_snapshot e) = EXITED)
  then set_observation (last_snapshot e) true (Some now) (terminal_at e) e else e.

(** ** Changes of the manager *)

Definition set_table (h : list (Z * Entry)) (t : list (pystr * Z)) (m : Manager) : Manager :=
  {| heap := h; entries := t; ports := ports m; starting_ports := starting_ports m; closing := closing m;
     starting := starting m; events := events m |}.
Definition set_ports (p : list Z) (sp : list (Z * Z)) (n : Z) (m : Manager) : Manager :=
  {| heap := heap m; entries := entries m; ports := p; starting_ports := sp; closing := closing m;
     starting := n; events := events m |}.
Definition set_closing (m : Manager) : Manager :=
  {| heap := heap m; entries := entries m; ports := ports m; starting_ports := starting_ports m; closing := true;
     starting := starting m; events := events m |}.
Definition add_event (v : ProcessEvent) (m : Manager) : Manager :=
  {| heap := heap m; entries := entries m; ports := ports m; starting_ports := starting_ports m;
     closing := closing m; starting := starting m; events := events m ++ [v] |}.

Definition object (m : Manager) (i : Z) : option Entry := assoc_get (heap m) i.
Definition update (i : Z) (f : Entry -> Entry) (m : Manager) : Manager :=
  match object m i with
  | Some e => set_table (assoc_set (heap m) i (f e)) (entries m) m
  | None => m
  end.
(** [dict.pop(key, None)]. *)
Definition table_pop (sid : pystr) (l : list (pystr * Z)) : list (pystr * Z) :=
  filter (fun p : pystr * Z => p.1 <> sid) l.
Definition drop_entry (sid : pystr) (m : Manager) : Manager := set_table (heap m) (table_pop sid (entries m)) m.
(** The entry objects of the table, in its order. *)
Definition managed (m : Manager) : list (Z * Entry) :=
  omap (fun p : pystr * Z => match object m p.2 with Some e => Some (p.2, e) | None => None end) (entries m).

Definition exited (e : Entry) : bool := bool_decide (state (last_snapshot e) = EXITED).

(** ** Errors *)

Definition not_found (sid : pystr) : exn :=
  OtherError ($"ProcessSessionNotFound: process session '" ++ sid ++ $"' was not found").
Definition not_available (sid : pystr) : exn :=
  OtherError ($"ProcessSessionNotFound: process session '" ++ sid ++ $"' is not available in this session").
Definition shutting_down : exn := OtherError $"process manager is shutting down".
Definition capacity_reached : exn := OtherError $"ProcessCapacityError: process session capacity reached".

(** [isinstance(error, ProcessSessionNotFound)]. *)
Definition is_not_found (x : exn) : bool :=
  match x with OtherError t => startswith t $"ProcessSessionNotFound" | _ => false end.

Abbreviation PM := (stm Manager).

(** ** The calls between sections *)

Record Launch := {
  l_port : Z;
  l_command : pystr;
  l_cwd : pystr;
  l_agent : pystr;
  l_owner : option pystr;
  l_generation : Z;
  l_turn : option pystr;
}.

(** The outcome of a termination request: confirmed, or ambiguous with what is
    known of the process. *)
Inductive Terminated := Confirmed (s : ProcessSnapshot) | Unconfirmed (s : option ProcessSnapshot).

Record ShutdownReport := {
  total : Z;
  already_exited : Z;
  r_interrupted : Z;
  terminated : Z;
  unknown : Z;
  reap_timeouts : Z;
}.

Class Calls := {
  port_start : Launch -> PM ProcessHandle;
  port_poll : Z -> pystr -> ProcessCursor -> PM ProcessSnapshot;
  port_write_input : Z -> pystr -> pystr -> PM Z;
  port_resize : Z -> pystr -> PM ();
  port_interrupt : Z -> pystr -> PM ();
  port_terminate : Z -> pystr -> pystr -> PM Terminated;
  port_release : Z -> pystr -> PM ();
  port_shutdown : Z -> PM ShutdownReport;
  event_sink : ProcessEvent -> PM ();
  acquire_consumer : pystr -> Z -> PM ();
  acquire_input : Z -> PM ();
  create_watcher : Z -> PM ();
  await_starts : PM ();
  join_watchers : PM ();
}.

Section Manager.
Context `{Calls} (max_sessions observed_retention terminal_ttl : Z).

(** A call whose exceptions are swallowed. *)
Definition swallow {A} (m : PM A) : PM () := fun s => let '(_, s) := m s in (Ok (), s).

(** [try: m] with the exception as a value. *)
Definition attempt {A} (m : PM A) : PM (result A) := fun s => let '(r, s) := m s in (Ok r, s).

(** [port.terminate], which raises when unconfirmed. *)
Definition terminate_call (p : Z) (sid reason : pystr) : PM ProcessSnapshot :=
  t ← port_terminate p sid reason;
  match t with
  | Confirmed s => mret s
  | Unconfirmed _ => st_lift (Raise (OtherError $"ProcessOperationUnconfirmed"))
  end.

(** ** Sections *)

Definition drop_idle_port (p : Z) (m : Manager) : Manager :=
  if 0 <? default 0 (assoc_get (starting_ports m) p) then m
  else if existsb (fun ie : Z * Entry => port ie.2 =? p) (managed m) then m
  else set_ports (filter (fun q => q <> p) (ports m)) (starting_ports m) (starting m) m.

Definition is_expired (now : Z) (e : Entry) : bool :=
  if negb (exited e) then false
  else
    let terminal := or_else (terminal_at e) (created_monotonic e) in
    if observed e then observed_retention <=? now - or_else (observed_at e) terminal
    else terminal_ttl <=? now - terminal.

(** [_cleanup_expired_locked]. *)
Definition cleanup_expired (now : Z) (m : Manager) : list (Z * Entry) * Manager :=
  let expired := filter (fun ie : Z * Entry => is_expired now ie.2 = true) (managed m) in
  (expired, foldl (fun m ie => drop_entry (h_session_id (handle ie.2)) m) m expired).

(** [_release_expired]. *)
Fixpoint release_expired (l : list (Z * Entry)) : PM () :=
  match l with
  | [] => mret ()
  | (_, e) :: l =>
    r ← attempt (port_release (port e) (h_session_id (handle e)));
    _ ← st_modify (if is_ok r then drop_idle_port (port e) else id);
    release_expired l
  end.

Definition require_entry (sid : pystr) : PM Z := fun m =>
  match assoc_get (entries m) sid with Some i => (Ok i, m) | None => (Raise (not_found sid), m) end.

Record Access := { agent : pystr; owner : option pystr; generation : Z }.

Definition can_access (a : Access) (e : Entry) : bool :=
  (session_generation e =? generation a)
  && ((match owner a with Some _ => bool_decide (owner_session_id e = owner a) | None => false end)
      || bool_decide (owner_agent_id e = agent a)).

(** [_entry_and_cursor]. *)
Definition entry_and_cursor (sid consumer : pystr) (a : Access) : PM (Z * ProcessCursor) := fun m =>
  match assoc_get (entries m) sid with
  | None => (Raise (not_found sid), m)
  | Some i =>
    match object m i with
    | Some e => if can_access a e then (Ok (i, default start_cursor (assoc_get (cursors e) consumer)), m)
                else (Raise (not_available sid), m)
    | None => (Raise (not_found sid), m)
    end
  end.

(** [self._entries.get(session_id) is entry]. *)
Definition is_current (sid : pystr) (i : Z) (m : Manager) : bool := bool_decide (assoc_get (entries m) sid = Some i).

Definition check_current (sid : pystr) (i : Z) : PM () := fun m =>
  (if is_current sid i m then Ok () else Raise (not_found sid), m).

(** ** Redaction *)

Definition redact_stream (consumer stream : pystr) (final : bool) (text : pystr) (e : Entry) : pystr * Entry :=
  let '(out, pending) := filter_apply (sensitive_values e)
    (default [] (assoc_get (output_filters e) (consumer, stream))) text final in
  (out, set_filters (assoc_set (output_filters e) (consumer, stream) pending) e).

(** [_redact_snapshot_locked]. *)
Definition redact_snapshot (consumer : pystr) (s : ProcessSnapshot) (e : Entry) : ProcessSnapshot * Entry :=
  match sensitive_values e with
  | [] => (s, e)
  | _ =>
    let final := bool_decide (state s = EXITED) in
    let '(out, e) := redact_stream consumer $"stdout" final (stdout s) e in
    let '(err, e) := redact_stream consumer $"stderr" final (stderr s) e in
    (with_output out err s, e)
  end.

(** ** Events *)

(** [_emit]: the event holds the entry's fields at this moment. *)
Definition emit (kind : ProcessEventKind) (i : Z) (snap : Entry -> ProcessSnapshot) : PM () := fun m =>
  match object m i with
  | Some e =>
    let v := {| e_kind := kind; e_snapshot := snap e; e_entry := e; e_object := i |} in
    swallow (event_sink v) (add_event v m)
  | None => (Ok (), m)
  end.

(** ** Starting *)

Definition port_count (p : Z) (m : Manager) : Z := default 0 (assoc_get (starting_ports m) p).

(** The first section of [start]: expired entries, and whether a place is
    reserved. *)
Definition reserve (now p : Z) : PM (list (Z * Entry) * bool) := fun m =>
  if closing m then (Raise shutting_down, m)
  else
    let '(expired, m) := cleanup_expired now m in
    if max_sessions <=? len (entries m) + starting m then (Ok (expired, false), m)
    else (Ok (expired, true),
          set_ports (if decide (p ∈ ports m) then ports m else ports m ++ [p])
            (assoc_set (starting_ports m) p (port_count p m + 1)) (starting m + 1) m).

Definition new_entry (now : Z) (l : Launch) (h : ProcessHandle) (initial : ProcessSnapshot) : Entry :=
  {| handle := h; port := l_port l; command := l_command l; cwd := l_cwd l; owner_agent_id := l_agent l;
     owner_session_id := l_owner l; session_generation := l_generation l; origin_turn_id := l_turn l;
     created_monotonic := now; last_snapshot := initial; published := false; observed := false;
     abandoned := false; observed_at := None; terminal_at := None; cursors := []; watcher_cursor := start_cursor;
     watcher := false; watcher_started := false; completion_emitted := false; input_bytes := 0;
     sensitive_values := []; output_filters := []; output_tails := [] |}.

(** The second section: the entry enters the table. *)
Definition register (e : Entry) : PM Z := fun m =>
  let sid := h_session_id (handle e) in
  if closing m then (Raise shutting_down, m)
  else match assoc_get (entries m) sid with
  | Some _ => (Raise (OtherError ($"duplicate process session id '" ++ sid ++ $"'")), m)
  | None =>
    let i := len (heap m) in
    (Ok i, set_table (heap m ++ [(i, e)]) (entries m ++ [(sid, i)]) m)
  end.

(** The [finally] section. *)
Definition finish_start (p : Z) (drop : bool) : PM () := st_modify (fun m =>
  let left := port_count p m - 1 in
  if 0 <? left then set_ports (ports m) (assoc_set (starting_ports m) p left) (starting m - 1) m
  else
    let m := set_ports (ports m) (filter (fun q : Z * Z => q.1 <> p) (starting_ports m)) (starting m - 1) m in
    if drop then drop_idle_port p m else m).

(** [except BaseException]: the process is terminated, whatever that does. *)
Definition fail_start (p : Z) (sid : pystr) : PM () :=
  m ← st_get;
  _ ← swallow (terminate_call p sid (if closing m then $"shutdown" else $"start_failed"));
  finish_start p false.

Definition start (now : Z) (l : Launch) : PM ProcessHandle :=
  er ← reserve now (l_port l);
  let '(expired, reserved) := er in
  _ ← release_expired expired;
  if negb (reserved : bool) then st_lift (Raise capacity_reached)
  else
    started ← attempt (port_start l);
    match started with
    | Raise x => _ ← finish_start (l_port l) true; st_lift (Raise x)
    | Ok h =>
      entered ← attempt (initial ← port_poll (l_port l) (h_session_id h) start_cursor;
                         register (new_entry now l h initial));
      match entered with
      | Raise x => _ ← fail_start (l_port l) (h_session_id h); st_lift (Raise x)
      | Ok i =>
        created ← attempt (create_watcher i);
        match created with
        | Raise x =>
          _ ← st_modify (drop_entry (h_session_id h));
          _ ← fail_start (l_port l) (h_session_id h); st_lift (Raise x)
        | Ok _ =>
          _ ← st_modify (update i set_watcher);
          _ ← finish_start (l_port l) true;
          mret h
        end
      end
    end.

(** ** Publication *)

(** The first section of [publish]: the object, and whether its completion is
    still to be reported. *)
Definition publish_entry (sid : pystr) (seen : bool) (now : Z) : PM (Z * bool) := fun m =>
  match assoc_get (entries m) sid with
  | None => (Raise (not_found sid), m)
  | Some i =>
    match object m i with
    | None => (Raise (not_found sid), m)
    | Some e =>
      let complete := exited e && negb (completion_emitted e) in
      (Ok (i, complete),
       update i (fun e =>
         let e := set_published e in
         let e := if seen then note_observed now e else e in
         if complete then set_emitted e else e) m)
    end
  end.

Definition publish (sid : pystr) (seen : bool) (now : Z) : PM () :=
  ic ← publish_entry sid seen now;
  let '(i, complete) := ic in
  _ ← emit PUBLISHED i last_snapshot;
  _ ← (if complete : bool then emit COMPLETED i last_snapshot else mret ());
  st_modify (update i ensure_watcher_started).

Inductive Abandoned := AlreadyPublished | Terminal (i : Z) | Live (i : Z).

Definition abandon_entry (sid : pystr) : PM Abandoned := fun m =>
  match assoc_get (entries m) sid with
  | None => (Raise (not_found sid), m)
  | Some i =>
    match object m i with
    | None => (Raise (not_found sid), m)
    | Some e =>
      if published e then (Ok AlreadyPublished, m)
      else
        let m := update i set_abandoned m in
        if exited e then (Ok (Terminal i), drop_entry sid m)
        else (Ok (Live i), update i ensure_watcher_started m)
    end
  end.

(** The port of an object, which never changes. *)
Definition port_of (i : Z) : PM Z := fun m =>
  (Ok match object m i with Some e => port e | None => 0 end, m).

Definition release_and_drop (i : Z) (sid : pystr) : PM () :=
  p ← port_of i;
  r ← attempt (port_release p sid);
  st_modify (if is_ok r then drop_idle_port p else id).

Definition abandon (sid reason : pystr) : PM () :=
  a ← abandon_entry sid;
  match a with
  | AlreadyPublished => mret ()
  | Terminal i => release_and_drop i sid
  | Live i =>
    p ← port_of i;
    r ← attempt (terminate_call p sid reason);
    match r with
    | Raise x => if is_not_found x then mret () else st_lift (Raise x)
    | Ok _ => mret ()
    end
  end.

(** ** Observation *)

(** The second section of [poll], on the entry: the snapshot is redacted and
    recorded; the result is what the consumer receives. *)
Definition observe (consumer : pystr) (now : Z) (mark_observed : bool) (retain : option Z)
    (raw : ProcessSnapshot) (e : Entry) : ProcessSnapshot * Entry :=
  let '(snap, e) := redact_snapshot consumer raw e in
  let e := set_snapshot snap (set_cursor consumer (cursor snap) e) in
  let e := note_exit now e in
  let e := if mark_observed then note_observed now e else e in
  let tails := match retain with
    | None => output_tails e
    | Some n =>
      let t := default {| limit := n; tail_stdout := []; tail_stderr := [] |} (assoc_get (output_tails e) consumer) in
      assoc_set (output_tails e) consumer {| limit := n; tail_stdout := tail_stdout t; tail_stderr := tail_stderr t |}
    end in
  match assoc_get tails consumer with
  | None => (snap, set_tails tails e)
  | Some t =>
    let t := tail_append t (stdout snap) (stderr snap) in
    (with_output (tail_stdout t) (tail_stderr t) snap, set_tails (assoc_set tails consumer t) e)
  end.

(** A section that checks that the entry is still the session's, and changes
    it. *)
Definition on_current {A} (sid : pystr) (i : Z) (f : Entry -> A * Entry) : PM A := fun m =>
  if is_current sid i m then
    match object m i with
    | Some e => let '(a, e) := f e in (Ok a, update i (fun _ => e) m)
    | None => (Raise (not_found sid), m)
    end
  else (Raise (not_found sid), m).

Definition read_cursor (sid consumer : pystr) (i : Z) (c : ProcessCursor) : PM ProcessCursor :=
  on_current sid i (fun e => (default c (assoc_get (cursors e) consumer), e)).

Definition poll (sid consumer : pystr) (a : Access) (now : Z) (mark_observed : bool) (retain : option Z)
    : PM ProcessSnapshot :=
  _ ← st_lift (raise_if (match retain with Some n => n <? 1 | None => false end)
                 (ValueError $"retain_output_chars must be positive"));
  ic ← entry_and_cursor sid consumer a;
  let '(i, c) := ic in
  _ ← acquire_consumer consumer i;
  c ← read_cursor sid consumer i c;
  p ← port_of i;
  raw ← port_poll p sid c;
  on_current sid i (observe consumer now mark_observed retain raw).

(** ** Input *)

Definition MAX_PROCESS_INPUT_BYTES : Z := 64 * 1024.
Definition MAX_PROCESS_SESSION_INPUT_BYTES : Z := 1024 * 1024.

(** [_validated_input_byte_count]. *)
Definition validated_input_byte_count (i : Z) (chars : pystr) : PM Z := fun m =>
  let n := utf8_len chars in
  if MAX_PROCESS_INPUT_BYTES <? n then (Raise (OtherError $"ProcessCapacityError: 64 KiB per-write limit"), m)
  else match object m i with
  | Some e => if MAX_PROCESS_SESSION_INPUT_BYTES <? input_bytes e + n
              then (Raise (OtherError $"ProcessCapacityError: 1 MiB session limit"), m) else (Ok n, m)
  | None => (Raise (not_found []), m)
  end.

(** [_write_input_bounded]. *)
Definition write_input_bounded (i : Z) (sid chars : pystr) (count : option Z) : PM () :=
  n ← match count with Some n => mret n | None => validated_input_byte_count i chars end;
  p ← port_of i;
  confirmed ← port_write_input p sid chars;
  _ ← st_modify (update i (fun e => set_input (input_bytes e + Z.max 0 confirmed) e));
  st_lift (raise_if (negb (confirmed =? n)) (OtherError $"process input write confirmed fewer bytes")).

Definition write (sid chars consumer : pystr) (a : Access) (now : Z) : PM ProcessSnapshot :=
  ic ← entry_and_cursor sid consumer a;
  _ ← acquire_input ic.1;
  _ ← write_input_bounded ic.1 sid chars None;
  poll sid consumer a now true None.

(** The section of [write_sensitive_line] that makes the value hidden. *)
Definition hide_value (i : Z) (sid value : pystr) : PM () := fun m =>
  match object m i with
  | None => (Raise (not_found sid), m)
  | Some e =>
    if negb (bool_decide (h_stream_mode (handle e) = PTY)) then
      (Raise (OtherError ($"ProcessOperationUnsupported: session '" ++ sid ++ $"' uses pipe mode")), m)
    else if negb (bool_decide (state (last_snapshot e) = RUNNING)) then
      (Raise (OtherError ($"ProcessOperationUnsupported: session '" ++ sid ++ $"' is not running")), m)
    else (Ok (), update i (add_sensitive value) m)
  end.

Definition write_sensitive_line (sid value consumer : pystr) (a : Access) (now : Z) : PM ProcessSnapshot :=
  _ ← st_lift (raise_if (bool_decide (value = [])) (ValueError $"hidden input cannot be empty"));
  _ ← st_lift (raise_if (bool_decide (10 ∈ value) || bool_decide (13 ∈ value))
                 (ValueError $"hidden input must be one line"));
  ic ← entry_and_cursor sid consumer a;
  _ ← acquire_input ic.1;
  n ← validated_input_byte_count ic.1 (value ++ [10]);
  _ ← hide_value ic.1 sid value;
  _ ← write_input_bounded ic.1 sid (value ++ [10]) (Some n);
  poll sid consumer a now true None.

(** ** Control *)

Definition interrupt (sid consumer : pystr) (a : Access) (now : Z) : PM ProcessSnapshot :=
  ic ← entry_and_cursor sid consumer a;
  p ← port_of ic.1;
  _ ← port_interrupt p sid;
  poll sid consumer a now true None.

Definition terminate (sid consumer reason : pystr) (a : Access) (now : Z) : PM ProcessSnapshot :=
  ic ← entry_and_cursor sid consumer a;
  p ← port_of ic.1;
  _ ← terminate_call p sid reason;
  poll sid consumer a now true None.

(** ** Views *)

Record ManagedProcessView := {
  v_session_id : pystr;
  v_command : pystr;
  v_cwd : pystr;
  v_state : ProcessState;
  v_stream_mode : ProcessStreamMode;
  v_backend : pystr;
  v_elapsed_seconds : Z;
  v_exit_code : option Z;
  v_termination_reason : option pystr;
  v_output_truncated : bool;
  v_output_decode_replaced : bool;
  v_published : bool;
  v_observed : bool;
}.

(** [_view]. *)
Definition view (now : Z) (e : Entry) : ManagedProcessView :=
  let s := last_snapshot e in
  {| v_session_id := h_session_id (handle e); v_command := command e; v_cwd := cwd e; v_state := state s;
     v_stream_mode := stream_mode s; v_backend := backend s; v_elapsed_seconds := elapsed_seconds now s;
     v_exit_code := exit_code s; v_termination_reason := termination_reason s;
     v_output_truncated := output_truncated s; v_output_decode_replaced := output_decode_replaced s;
     v_published := published e; v_observed := observed e |}.

Definition get_view (sid : pystr) (a : Access) (now : Z) : PM ManagedProcessView := fun m =>
  match assoc_get (entries m) sid with
  | None => (Raise (not_found sid), m)
  | Some i =>
    match object m i with
    | None => (Raise (not_found sid), m)
    | Some e => if negb (published e) || negb (can_access a e) then (Raise (not_available sid), m)
                else (Ok (view now e), m)
    end
  end.

Definition visible (a : Access) (include_observed : bool) (e : Entry) : bool :=
  can_access a e && (include_observed || negb (observed e)) && published e.

Definition list_processes (a : Access) (include_observed : bool) (now wall : Z) : PM (list ManagedProcessView) :=
  ev ← (fun m =>
    let '(expired, m) := cleanup_expired now m in
    let shown := filter (fun e => visible a include_observed e = true) (map snd (managed m)) in
    let sorted := stable_sort (fun x y => created_monotonic x <=? created_monotonic y) shown in
    (Ok (expired, map (view wall) sorted), m));
  let '(expired, views) := ev in
  _ ← release_expired expired;
  mret views.

Definition active_count (owner : option pystr) (m : Manager) : Z :=
  len (filter (fun e => published e && negb (exited e)
                 && match owner with None => true | Some _ => bool_decide (owner_session_id e = owner) end = true)
         (map snd (managed m))).

Definition resizable (a : Access) (e : Entry) : bool :=
  published e && bool_decide (h_stream_mode (handle e) = PTY)
  && bool_decide (state (last_snapshot e) = RUNNING) && can_access a e.

Fixpoint resize_each (l : list Entry) : PM Z :=
  match l with
  | [] => mret 0
  | e :: l =>
    r ← attempt (port_resize (port e) (h_session_id (handle e)));
    n ← resize_each l;
    mret (if is_ok r then n + 1 else n)
  end.

Definition resize_tty_sessions (rows columns : Z) (a : Access) : PM Z :=
  _ ← st_lift (raise_if ((rows <? 1) || (columns <? 1))
                 (ValueError $"terminal rows and columns must be positive"));
  m ← st_get;
  resize_each (filter (fun e => resizable a e = true) (map snd (managed m))).

(** [rebind_generation]. *)
Definition rebinds (owner : option pystr) (previous : Z) (e : Entry) : bool :=
  bool_decide (owner_session_id e = owner) && (session_generation e =? previous) && published e.

Definition rebind_generation (owner : option pystr) (previous next : Z) : PM Z := fun m =>
  let l := filter (fun ie : Z * Entry => rebinds owner previous ie.2 = true) (managed m) in
  (Ok (len l), foldl (fun m ie => update ie.1 (set_generation next) m) m l).

(** ** Stopping *)

(** [run_process_controls]: each control runs in its own thread; one that raises,
    or does not answer before the deadline, has no result. *)
Fixpoint run_controls {A B} (timely : A -> bool) (f : A -> PM B) (l : list A) : PM (list (option B)) :=
  match l with
  | [] => mret []
  | a :: l =>
    r ← attempt (f a);
    rest ← run_controls timely f l;
    mret ((match r with Ok b => if timely a then Some b else None | Raise _ => None end) :: rest)
  end.

(** The outcome of a control, recorded while the entry is the session's. *)
Definition record_control (redact : bool) (now : Z) (i : Z) (sid : pystr) (raw : ProcessSnapshot) : PM () :=
  st_modify (fun m =>
    if is_current sid i m then
      update i (fun e =>
        let '(snap, e) := if redact then redact_snapshot $"manager" raw e else (raw, e) in
        note_exit now (set_snapshot snap e)) m
    else m).

Definition stop_one (reason : pystr) (now : Z) (ie : Z * Entry) : PM () :=
  let sid := h_session_id (handle ie.2) in
  s ← terminate_call (port ie.2) sid reason;
  record_control true now ie.1 sid s.

Definition stop_all (a : Access) (reason : pystr) (timely : Z * Entry -> bool) (now : Z) : PM Z :=
  m ← st_get;
  let l := filter (fun ie : Z * Entry => can_access a ie.2 && negb (exited ie.2) = true) (managed m) in
  _ ← run_controls timely (stop_one reason now) l;
  mret (len l).

(** The state an object has now. *)
Definition state_of (i : Z) (m : Manager) : ProcessState :=
  match object m i with Some e => state (last_snapshot e) | None => UNKNOWN end.

(** [terminate_entry] of [shutdown]. *)
Definition shutdown_terminate (now : Z) (ie : Z * Entry) : PM bool :=
  let sid := h_session_id (handle ie.2) in
  t ← port_terminate (port ie.2) sid $"shutdown";
  match t with
  | Confirmed s => _ ← record_control false now ie.1 sid s; mret true
  | Unconfirmed None => mret false
  | Unconfirmed (Some s) =>
    _ ← st_modify (fun m => if is_current sid ie.1 m then update ie.1 (set_snapshot s) m else m);
    mret false
  end.

Definition shutdown_release (ie : Z * Entry) : PM bool := fun m =>
  if decide (state_of ie.1 m = EXITED)
  then (_ ← port_release (port ie.2) (h_session_id (handle ie.2)); mret true) m
  else (Ok false, m).

(** Entries per port. *)
Definition count_port (p : Z) (l : list (Z * Entry)) : Z :=
  len (filter (fun ie : Z * Entry => port ie.2 = p) l).

Definition is_true (o : option bool) : bool := match o with Some true => true | _ => false end.

(** What one port's own shutdown adds to the report: sessions the manager did
    not release, and those left unknown. *)
Definition port_report (left unknown_left : Z -> Z) (p : Z) (r : option ShutdownReport) (acc : ShutdownReport) : ShutdownReport :=
  match r with
  | Some r =>
    let extra := Z.max 0 (total r - left p) in
    {| total := total acc + extra; already_exited := already_exited acc; r_interrupted := r_interrupted acc;
       terminated := terminated acc + Z.min extra (terminated r);
       unknown := unknown acc + (if 0 <? total r then unknown r else unknown_left p);
       reap_timeouts := reap_timeouts acc + reap_timeouts r |}
  | None =>
    {| total := total acc; already_exited := already_exited acc; r_interrupted := r_interrupted acc;
       terminated := terminated acc; unknown := unknown acc + unknown_left p;
       reap_timeouts := reap_timeouts acc + 1 |}
  end.

(** What a shutdown takes from its threads: which controls answer in time, and
    which watchers are still alive at the deadline. *)
Record Waits := {
  timely_entry : Z * Entry -> bool;
  timely_port : Z -> bool;
  watcher_alive : Z -> bool;
}.

Definition shutdown (now : Z) (ws : Waits) : PM ShutdownReport :=
  _ ← st_modify set_closing;
  _ ← await_starts;
  m ← st_get;
  let start_timeouts := starting m in
  let all := managed m in
  let all_ports := ports m in
  _ ← st_modify (fun m => foldl (fun m ie => update ie.1 ensure_watcher_started m) m all);
  let terminal := filter (fun ie : Z * Entry => state (last_snapshot ie.2) = EXITED) all in
  let live := filter (fun ie : Z * Entry => state (last_snapshot ie.2) = RUNNING) all in
  let lost := filter (fun ie : Z * Entry => state (last_snapshot ie.2) = UNKNOWN) all in
  _ ← run_controls (timely_entry ws)
        (fun ie => attempt (port_interrupt (port ie.2) (h_session_id (handle ie.2)))) live;
  _ ← join_watchers;
  m ← st_get;
  let targets := filter (fun ie : Z * Entry => state_of ie.1 m = RUNNING) live ++ lost in
  confirmations ← run_controls (timely_entry ws) (shutdown_terminate now) targets;
  m ← st_get;
  let unconfirmed := map fst (filter (fun p : (Z * Entry) * option bool =>
        negb (is_true p.2) || bool_decide (state_of p.1.1 m = UNKNOWN) = true) (zip targets confirmations)) in
  _ ← join_watchers;
  let reaps := len (filter (fun ie : Z * Entry => watcher_alive ws ie.1 = true) targets) in
  releases ← run_controls (timely_entry ws) shutdown_release all;
  let kept := map fst (filter (fun p : (Z * Entry) * option bool => is_true p.2 = false) (zip all releases)) in
  _ ← st_modify (fun m => set_ports [] (starting_ports m) (starting m) (set_table (heap m) [] m));
  reports ← run_controls (timely_port ws) port_shutdown all_ports;
  mret (foldl (fun acc pr => port_report (fun p => count_port p kept) (fun p => count_port p unconfirmed) pr.1 pr.2 acc)
          {| total := len all; already_exited := len terminal; r_interrupted := len live;
             terminated := len targets; unknown := 0; reap_timeouts := start_timeouts + reaps |}
          (zip all_ports reports)).

(** ** The watcher *)

Inductive Watched := WatchEnd | WatchReap
| WatchEmit (snap : ProcessSnapshot) (kinds : list ProcessEventKind) (go_on : bool).

(** The section of one watcher iteration. *)
Definition watch_section (i : Z) (sid : pystr) (now : Z) (raw : ProcessSnapshot) : PM Watched := fun m =>
  if negb (is_current sid i m) then (Ok WatchEnd, m)
  else match object m i with
  | None => (Ok WatchEnd, m)
  | Some e0 =>
    let '(snap, e) := redact_snapshot $"watcher" raw e0 in
    let has_output := bool_decide (stdout snap <> []) || bool_decide (stderr snap <> []) in
    let changed := bool_decide (state snap <> state (last_snapshot e0)) in
    let e := note_exit now (set_snapshot snap (set_watcher_cursor (cursor raw) e)) in
    let ended := bool_decide (state snap = EXITED) in
    let complete := published e && ended && negb (completion_emitted e) in
    let m := update i (fun _ => if complete then set_emitted e else e) m in
    if abandoned e && ended then (Ok WatchReap, drop_entry sid m)
    else
      let kinds := (if has_output && published e then [OUTPUT] else if published e && changed then [UPDATED] else [])
                   ++ (if complete then [COMPLETED] else []) in
      (Ok (WatchEmit snap kinds (negb ended)), m)
  end.

Fixpoint emit_all (i : Z) (snap : ProcessSnapshot) (kinds : list ProcessEventKind) : PM () :=
  match kinds with
  | [] => mret ()
  | k :: kinds => _ ← emit k i (fun _ => snap); emit_all i snap kinds
  end.

(** One iteration of [_watch]; the new cursor while it goes on. *)
Definition watch_once (i : Z) (sid : pystr) (now : Z) (c : ProcessCursor) : PM (option ProcessCursor) :=
  p ← port_of i;
  r ← attempt (port_poll p sid c);
  match r with
  | Raise x => if is_not_found x then mret None else st_lift (Raise x)
  | Ok raw =>
    w ← watch_section i sid now raw;
    match w with
    | WatchEnd => mret None
    | WatchReap => _ ← release_and_drop i sid; mret None
    | WatchEmit snap kinds go_on =>
      _ ← emit_all i snap kinds;
      mret (if go_on : bool then Some (cursor raw) else None)
    end
  end.

(** [_watch], for at most [fuel] iterations; it runs as long as the process. *)
Fixpoint watch (fuel : nat) (i : Z) (sid : pystr) (clock : nat -> Z) (c : ProcessCursor) : PM () :=
  match fuel with
  | O => mret ()
  | S fuel =>
    r ← watch_once i sid (clock fuel) c;
    match r with Some c => watch fuel i sid clock c | None => mret () end
  end.

(** ** The operations of the manager, as its callers and threads run them *)

Inductive Operation :=
| OpStart (now : Z) (l : Launch)
| OpPublish (sid : pystr) (seen : bool) (now : Z)
| OpAbandon (sid reason : pystr)
| OpPoll (sid consumer : pystr) (a : Access) (now : Z) (mark_observed : bool) (retain : option Z)
| OpWrite (sid chars consumer : pystr) (a : Access) (now : Z)
| OpWriteSensitive (sid value consumer : pystr) (a : Access) (now : Z)
| OpInterrupt (sid consumer : pystr) (a : Access) (now : Z)
| OpTerminate (sid consumer reason : pystr) (a : Access) (now : Z)
| OpView (sid : pystr) (a : Access) (now : Z)
| OpList (a : Access) (include_observed : bool) (now wall : Z)
| OpResize (rows columns : Z) (a : Access)
| OpRebind (owner : option pystr) (previous next : Z)
| OpStopAll (a : Access) (reason : pystr) (timely : Z * Entry -> bool) (now : Z)
| OpShutdown (now : Z) (ws : Waits)
| OpWatch (fuel : nat) (i : Z) (sid : pystr) (clock : nat -> Z) (c : ProcessCursor).

(** An operation whose caller does not look at its outcome. *)
Definition run_op (o : Operation) : PM () :=
  match o with
  | OpStart now l => swallow (start now l)
  | OpPublish sid seen now => swallow (publish sid seen now)
  | OpAbandon sid reason => swallow (abandon sid reason)
  | OpPoll sid consumer a now b r => swallow (poll sid consumer a now b r)
  | OpWrite sid chars consumer a now => swallow (write sid chars consumer a now)
  | OpWriteSensitive sid v consumer a now => swallow (write_sensitive_line sid v consumer a now)
  | OpInterrupt sid consumer a now => swallow (interrupt sid consumer a now)
  | OpTerminate sid consumer r a now => swallow (terminate sid consumer r a now)
  | OpView sid a now => swallow (get_view sid a now)
  | OpList a b now wall => swallow (list_processes a b now wall)
  | OpResize r c a => swallow (resize_tty_sessions r c a)
  | OpRebind o p n => swallow (rebind_generation o p n)
  | OpStopAll a r timely now => swallow (stop_all a r timely now)
  | OpShutdown now ws => swallow (shutdown now ws)
  | OpWatch fuel i sid clock c => swallow (watch fuel i sid clock c)
  end.

Fixpoint run_ops (l : list Operation) (m : Manager) : Manager :=
  match l with [] => m | o :: l => run_ops l (run_op o m).2 end.
End Manager.

(** The manager [__init__] makes. *)
Definition new_manager : Manager :=
  {| heap := []; entries := []; ports := []; starting_ports := []; closing := false; starting := 0; events := [] |}.
