(* ===== verification/ProcessInvariant.v ===== *)
(** * The invariant of the process manager

    Tokens name what the operations under way have taken on, so that an
    operation interrupted by others, between any two of its sections, finds
    the manager in a state its remaining sections can finish from. *)

From S2P Require Import Prelude TextBuffer ProcessOutput Hoare ProcessManager.

(** ** The invariant

    Tokens stand for what running operations have taken on: a reserved start,
    an entry whose events they are emitting, a completion they still have to
    report, a shutdown. *)

Inductive Token := Starting (p : Z) (registered : bool) | Emitting (i : Z) | Completing (i : Z) | Closing.

#[export] Instance token_eq : EqDecision Token.
Proof. solve_decision. Defined.

Definition is_starting (t : Token) : bool := match t with Starting _ _ => true | _ => false end.
Definition is_reserved (t : Token) : bool := match t with Starting _ false => true | _ => false end.
Definition starts_port (p : Z) (t : Token) : bool := match t with Starting q _ => q =? p | _ => false end.
Definition completes (i : Z) (t : Token) : bool := match t with Completing j => j =? i | _ => false end.
Definition is_completion (i : Z) (v : ProcessEvent) : bool :=
  bool_decide (e_kind v = COMPLETED) && (e_object v =? i).

(** How many elements satisfy a test. *)
Fixpoint tally {A} (f : A -> bool) (l : list A) : Z :=
  match l with [] => 0 | a :: l => (if f a then 1 else 0) + tally f l end.

Lemma tally_app {A} (f : A -> bool) k l : tally f (k ++ l) = tally f k + tally f l.
Proof. induction k as [|a k IH]; cbn; lia. Qed.

Lemma tally_nonneg {A} (f : A -> bool) l : 0 <= tally f l.
Proof. induction l as [|a l IH]; cbn; [lia|destruct (f a); lia]. Qed.

Lemma tally_le {A} (f g : A -> bool) l : (forall a, f a = true -> g a = true) -> tally f l <= tally g l.
Proof.
  intros Hfg. induction l as [|a l IH]; cbn; [lia|]. specialize (Hfg a).
  destruct (f a), (g a); try (discriminate (Hfg eq_refl)); lia.
Qed.

Lemma tally_zero {A} (f : A -> bool) l : (forall a, a ∈ l -> f a = false) -> tally f l = 0.
Proof.
  induction l as [|a l IH]; intros Hf; cbn; [done|]. rewrite Hf by (by left). rewrite IH; [done|].
  intros b Hb. apply Hf. by right.
Qed.

Section Invariant.
Context (max_sessions : Z).

Record inv (ts : list Token) (m : Manager) : Prop := {
  inv_starting : starting m = tally is_starting ts;
  inv_counts p : port_count p m = tally (starts_port p) ts;
  inv_heap : (heap m).*1 = map Z.of_nat (seq 0 (length (heap m)));
  inv_table : NoDup (entries m).*1;
  inv_objects sid i : (sid, i) ∈ entries m -> exists e, object m i = Some e /\ h_session_id (handle e) = sid;
  inv_capacity : len (entries m) + tally is_reserved ts <= max_sessions;
  inv_ports sid i e : (sid, i) ∈ entries m -> object m i = Some e -> port e ∈ ports m;
  inv_start_ports p b : Starting p b ∈ ts -> closing m = false -> p ∈ ports m;
  inv_events v : v ∈ events m -> published (e_entry v) = true /\ e_object v < len (heap m);
  inv_emitting i : Emitting i ∈ ts \/ Completing i ∈ ts -> exists e, object m i = Some e /\ published e = true;
  inv_completed i : tally (is_completion i) (events m) + tally (completes i) ts <= 1;
  inv_pending i e : object m i = Some e -> completion_emitted e = false ->
    tally (is_completion i) (events m) + tally (completes i) ts = 0;
  inv_closing : Closing ∈ ts -> closing m = true;
}.

(** The invariant for a thread that holds [own], whatever others hold. *)
Definition Inv (own : list Token) (m : Manager) : Prop := exists others, inv (own ++ others) m.

(** *** The heap *)

Lemma object_Some_iff ts m i : inv ts m -> is_Some (object m i) <-> 0 <= i < len (heap m).
Proof.
  intros Hm. pose proof (inv_heap _ _ Hm) as Hh. unfold object.
  assert (Hin : is_Some (assoc_get (heap m) i) <-> i ∈ (heap m).*1).
  { generalize (heap m). intros l. induction l as [|[j e] l IH]; cbn.
    - split; [by intros []|by intros ?%not_elem_of_nil].
    - rewrite elem_of_cons. destruct (decide (i = j)) as [->|Hne]; [split; eauto; by left|].
      rewrite IH. intuition. }
  rewrite Hin, Hh. rewrite list_elem_of_fmap. unfold len. split.
  - intros (k & -> & Hk). apply elem_of_seq in Hk. lia.
  - intros Hi. exists (Z.to_nat i). rewrite elem_of_seq. lia.
Qed.

Lemma assoc_set_existing (l : list (Z * Entry)) i e e0 : assoc_get l i = Some e0 ->
  (assoc_set l i e).*1 = l.*1 /\ length (assoc_set l i e) = length l.
Proof.
  induction l as [|[j x] l IH]; cbn; [done|]. destruct (decide (i = j)) as [->|Hne]; [done|].
  intros Hi. destruct (IH Hi) as [H1 H2]. cbn. by rewrite H1, H2.
Qed.

Lemma object_update i f m j :
  object (update i f m) j = if decide (j = i) then f <$> object m i else object m j.
Proof.
  unfold update. destruct (object m i) as [e|] eqn:He; cbn.
  - unfold object. cbn. rewrite assoc_get_set. by destruct (decide (j = i)).
  - destruct (decide (j = i)) as [->|]; [done|done].
Qed.

Lemma update_frame i f m : entries (update i f m) = entries m /\ ports (update i f m) = ports m /\
  starting_ports (update i f m) = starting_ports m /\ starting (update i f m) = starting m /\
  closing (update i f m) = closing m /\ events (update i f m) = events m /\
  (heap (update i f m)).*1 = (heap m).*1 /\ length (heap (update i f m)) = length (heap m).
Proof.
  unfold update. destruct (object m i) as [e|] eqn:He; [|done]. cbn.
  destruct (assoc_set_existing _ _ (f e) _ He) as [H1 H2]. by split_and!.
Qed.

(** A change of an entry that the table and the events allow. *)
Definition mild (e e' : Entry) : Prop :=
  handle e' = handle e /\ port e' = port e /\ (published e = true -> published e' = true) /\
  (completion_emitted e = true -> completion_emitted e' = true).

Lemma inv_update ts i f m : (forall e, object m i = Some e -> mild e (f e)) -> inv ts m -> inv ts (update i f m).
Proof.
  intros Hf Hm. destruct (update_frame i f m) as (E1 & E2 & E3 & E4 & E5 & E6 & E7 & E8).
  assert (Hobj : forall j e', object (update i f m) j = Some e' -> exists e, object m j = Some e /\ mild e e').
  { intros j e'. rewrite object_update. destruct (decide (j = i)) as [->|]; [|intros ->; by exists e'].
    destruct (object m i) as [e|] eqn:He; [|done]. intros [= <-]. exists e. auto. }
  assert (Hobj2 : forall j e, object m j = Some e -> exists e', object (update i f m) j = Some e' /\ mild e e').
  { intros j e He. rewrite object_update. destruct (decide (j = i)) as [->|]; [|by exists e].
    rewrite He. exists (f e). auto. }
  destruct Hm as [A B C D E F G K L N O P Q].
  split; unfold port_count; rewrite ?E1, ?E2, ?E3, ?E4, ?E5, ?E6; try done.
  - by rewrite E7, E8.
  - intros sid j Hin. destruct (E sid j Hin) as (e & He & Hsid). destruct (Hobj2 j e He) as (e' & He' & Hm' & _).
    exists e'. by rewrite Hm'.
  - intros sid j e' Hin He'. destruct (Hobj j e' He') as (e & He & _ & -> & _). by eapply G.
  - intros v Hv. unfold len. rewrite E8. by apply L.
  - intros j Hj. destruct (N j Hj) as (e & He & Hp). destruct (Hobj2 j e He) as (e' & He' & _ & _ & Hp' & _).
    exists e'. auto.
  - intros j e' He' Hc. destruct (Hobj j e' He') as (e & He & _ & _ & _ & Hc').
    apply (P j e He). destruct (completion_emitted e); [|done]. rewrite Hc' in Hc; done.
Qed.
End Invariant.

(** *** The table and the ports *)

Lemma assoc_get_removed {V} (l : list (Z * V)) p q :
  assoc_get (filter (fun x : Z * V => x.1 <> p) l) q = if decide (q = p) then None else assoc_get l q.
Proof.
  induction l as [|[k v] l IH]; [by destruct (decide (q = p))|]. rewrite filter_cons. cbn [fst assoc_get].
  destruct (decide (k <> p)) as [Hk|Hk].
  - cbn [assoc_get]. rewrite IH. destruct (decide (q = k)) as [->|]; [by rewrite decide_False|done].
  - rewrite IH. destruct (decide (q = p)) as [->|Hq]; [done|]. rewrite decide_False; [done|].
    intros ->. by apply Hk.
Qed.

Lemma tally_none {A} (f : A -> bool) l : tally f l <= 0 -> forall a, a ∈ l -> f a = false.
Proof.
  induction l as [|b l IH]; intros Hl a Ha; [by apply not_elem_of_nil in Ha|]. cbn in Hl.
  pose proof (tally_nonneg f l). apply elem_of_cons in Ha as [->|Ha]; [destruct (f b); [lia|done]|].
  apply IH; [destruct (f b); lia|done].
Qed.

Section Sections.
Context (max_sessions : Z).

Lemma drop_entry_elem sid m p : p ∈ entries (drop_entry sid m) -> p ∈ entries m.
Proof. cbn. unfold table_pop. intros Hp. by apply list_elem_of_filter in Hp as []. Qed.

Lemma filter_len {A} (P : A -> Prop) `{forall a, Decision (P a)} (l : list A) : len (filter P l) <= len l.
Proof. unfold len. pose proof (length_filter P l). lia. Qed.

Lemma inv_drop ts sid m : inv max_sessions ts m -> inv max_sessions ts (drop_entry sid m).
Proof.
  intros [A B C D E F G K L N O P Q]. split; try done.
  - cbn. unfold table_pop. eapply sublist_NoDup; [exact D|]. apply fmap_sublist, sublist_filter.
  - intros s j Hin. by apply E, (drop_entry_elem sid).
  - cbn. unfold table_pop. pose proof (filter_len (fun p : pystr * Z => p.1 <> sid) (entries m)). lia.
  - intros s j e Hin He. by apply (G s j), He; apply (drop_entry_elem sid).
Qed.

Lemma inv_drops {A} ts (f : A -> pystr) l m :
  inv max_sessions ts m -> inv max_sessions ts (foldl (fun m a => drop_entry (f a) m) m l).
Proof. revert m. induction l as [|a l IH]; intros m Hm; [done|]. by apply IH, inv_drop. Qed.

Lemma inv_updates ts (f : Entry -> Entry) (l : list (Z * Entry)) m : (forall e, mild e (f e)) ->
  inv max_sessions ts m -> inv max_sessions ts (foldl (fun m ie => update ie.1 f m) m l).
Proof. intros Hf. revert m. induction l as [|a l IH]; intros m Hm; [done|]. apply IH, inv_update; auto. Qed.

Lemma managed_elem ts m sid i e : inv max_sessions ts m ->
  (sid, i) ∈ entries m -> object m i = Some e -> (i, e) ∈ managed m.
Proof.
  intros _ Hin He. unfold managed. apply list_elem_of_omap. exists (sid, i). split; [done|]. cbn. by rewrite He.
Qed.

(** A change of the ports that keeps what is in use. *)
Lemma inv_set_ports ts ts' ps sp n m :
  (forall sid i e, (sid, i) ∈ entries m -> object m i = Some e -> port e ∈ ports m -> port e ∈ ps) ->
  (forall p, default 0 (assoc_get sp p) = tally (starts_port p) ts') ->
  n = tally is_starting ts' -> tally is_reserved ts' + len (entries m) <= max_sessions ->
  (forall p b, Starting p b ∈ ts' -> closing m = false -> p ∈ ps) ->
  (forall i, tally (completes i) ts' = tally (completes i) ts) ->
  (forall i, Emitting i ∈ ts' \/ Completing i ∈ ts' -> Emitting i ∈ ts \/ Completing i ∈ ts) ->
  (Closing ∈ ts' -> Closing ∈ ts) -> inv max_sessions ts m -> inv max_sessions ts' (set_ports ps sp n m).
Proof.
  intros Hps Hsp Hn Hcap Hst Hcomp Hemit Hclose [A B C D E F G K L N O P Q].
  assert (Hobj : forall i, object (set_ports ps sp n m) i = object m i) by done.
  split; cbn [entries heap closing starting events ports starting_ports set_ports]; try done.
  - lia.
  - intros sid i e Hin He. eapply Hps; eauto.
  - intros i Hi. rewrite Hobj. auto.
  - intros i. rewrite Hcomp. apply O.
  - intros i e He Hc. rewrite Hcomp. by eapply P.
  - auto.
Qed.

Lemma inv_drop_idle ts p m : inv max_sessions ts m -> inv max_sessions ts (drop_idle_port p m).
Proof.
  intros Hm. unfold drop_idle_port. destruct (0 <? _) eqn:Hc; [done|].
  destruct (existsb _ (managed m)) eqn:Hex; [done|]. zbool.
  pose proof (inv_counts _ _ _ Hm p) as Hp. unfold port_count in Hp. rewrite Hp in Hc.
  apply (inv_set_ports ts ts); try done; try apply Hm.
  - intros sid i e Hin He Hport. apply list_elem_of_filter. split; [|done]. intros Hpe.
    assert (Ht : existsb (fun ie : Z * Entry => port ie.2 =? p) (managed m) = true); [|congruence].
    apply existsb_exists. exists (i, e). rewrite <-list_elem_of_In. split; [by eapply managed_elem|by apply Z.eqb_eq].
  - pose proof (inv_capacity _ _ _ Hm). lia.
  - intros q b Hq Hcl. apply list_elem_of_filter. split; [|by eapply (inv_start_ports _ _ _ Hm)].
    intros ->. pose proof (tally_none _ _ Hc _ Hq) as Hf. cbn in Hf. by rewrite Z.eqb_refl in Hf.
Qed.

(** *** Tokens *)

Lemma inv_take ts t m : inv max_sessions (t :: ts) m -> is_starting t = false -> inv max_sessions ts m.
Proof.
  intros [A B C D E F G K L N O P Q] Ht.
  assert (Hskip : forall f, (is_starting t = false -> f t = false) -> tally f (t :: ts) = tally f ts).
  { intros f Hf. cbn. by rewrite Hf. }
  rewrite (Hskip is_starting) in A by done. rewrite (Hskip is_reserved) in F by (by destruct t as [p []| | |]).
  assert (Hle : forall j, tally (completes j) ts <= tally (completes j) (t :: ts)).
  { intros j. cbn. destruct (completes j t); lia. }
  split; try done.
  - intros p. rewrite B. apply Hskip. by destruct t.
  - intros p b Hp. apply (K p b). by right.
  - intros i [Hi|Hi]; apply N; [left|right]; by right.
  - intros i. specialize (Hle i). specialize (O i). lia.
  - intros i e He Hc. specialize (P i e He Hc). specialize (Hle i).
    pose proof (tally_nonneg (is_completion i) (events m)). pose proof (tally_nonneg (completes i) ts). lia.
  - intros Hc. apply Q. by right.
Qed.

Lemma inv_emitting_new ts i e m : inv max_sessions ts m -> object m i = Some e -> published e = true ->
  inv max_sessions (Emitting i :: ts) m.
Proof.
  intros [A B C D E F G K L N O P Q] He Hp. split; try done.
  - intros p' b Hb. apply elem_of_cons in Hb as [?|Hb]; [done|]. by apply (K p' b).
  - intros j [Hj|Hj]; apply elem_of_cons in Hj as [Hj|Hj]; try done; try (apply N; auto; fail).
    injection Hj as ->. eauto.
  - intros Hc. apply elem_of_cons in Hc as [Hc|Hc]; [done|auto].
Qed.

Lemma inv_add_event ts v m e : inv max_sessions ts m -> object m (e_object v) = Some e ->
  published (e_entry v) = true -> e_kind v <> COMPLETED -> inv max_sessions ts (add_event v m).
Proof.
  intros Hm He Hp Hk. pose proof (proj1 (object_Some_iff _ _ _ (e_object v) Hm) (ex_intro _ e He)) as Hlt.
  destruct Hm as [A B C D E F G K L N O P Q].
  assert (Ht : forall i, tally (is_completion i) (events m ++ [v]) = tally (is_completion i) (events m)).
  { intros i. rewrite tally_app. cbn. unfold is_completion at 2. rewrite bool_decide_eq_false_2 by done. cbn. lia. }
  split; try done; cbn [events add_event].
  - intros w Hw. apply elem_of_app in Hw as [Hw|Hw]; [by apply L|]. apply list_elem_of_singleton in Hw as ->. cbn. split; [done|lia].
  - intros i. rewrite Ht. apply O.
  - intros i e' He' Hc. rewrite Ht. by eapply P.
Qed.

(** A completion reported uses up its token. *)
Lemma inv_add_completed ts v m e : inv max_sessions (Completing (e_object v) :: ts) m ->
  object m (e_object v) = Some e -> published (e_entry v) = true -> e_kind v = COMPLETED ->
  inv max_sessions ts (add_event v m).
Proof.
  intros Hm He Hp Hk. pose proof (proj1 (object_Some_iff _ _ _ (e_object v) Hm) (ex_intro _ e He)) as Hlt.
  destruct Hm as [A B C D E F G K L N O P Q]. cbn [tally is_starting is_reserved starts_port] in *.
  assert (Ht : forall i, tally (is_completion i) (events m ++ [v]) + tally (completes i) ts =
    tally (is_completion i) (events m) + tally (completes i) (Completing (e_object v) :: ts)).
  { intros i. rewrite tally_app. cbn. unfold is_completion at 2. rewrite bool_decide_eq_true_2 by done. cbn. lia. }
  split; try done; cbn [events add_event].
  - intros p b Hb. apply (K p b). by right.
  - intros w Hw. apply elem_of_app in Hw as [Hw|Hw]; [by apply L|]. apply list_elem_of_singleton in Hw as ->. cbn. split; [done|lia].
  - intros i [Hi|Hi]; apply N; [left|right]; by right.
  - intros i. rewrite Ht. apply O.
  - intros i e' He' Hc. rewrite Ht. by eapply P.
  - intros Hc. apply Q. by right.
Qed.
End Sections.

(** ** Operations keep the invariant *)

Section Operations.
Context `{Calls} (max_sessions observed_retention terminal_ttl : Z).
Abbreviation I := (Inv max_sessions).

(** While a thread waits for a call the others keep the invariant. *)
Class CallLaws := {
  law_start l own : keeps (I own) (I own) (port_start l);
  law_poll p sid c own : keeps (I own) (I own) (port_poll p sid c);
  law_write p sid t own : keeps (I own) (I own) (port_write_input p sid t);
  law_resize p sid own : keeps (I own) (I own) (port_resize p sid);
  law_interrupt p sid own : keeps (I own) (I own) (port_interrupt p sid);
  law_terminate p sid r own : keeps (I own) (I own) (port_terminate p sid r);
  law_release p sid own : keeps (I own) (I own) (port_release p sid);
  law_shutdown p own : keeps (I own) (I own) (port_shutdown p);
  law_sink v own : keeps (I own) (I own) (event_sink v);
  law_consumer c i own : keeps (I own) (I own) (acquire_consumer c i);
  law_input i own : keeps (I own) (I own) (acquire_input i);
  law_watcher i own : keeps (I own) (I own) (create_watcher i);
  law_await own : keeps (I own) (I own) await_starts;
  law_join own : keeps (I own) (I own) join_watchers;
}.
Context `{CallLaws}.

Lemma keeps_edit own f : (forall ts m, inv max_sessions ts m -> inv max_sessions ts (f m)) ->
  keeps (I own) (I own) (st_modify f).
Proof. intros Hf m [others Hm]. exists others. auto. Qed.

Lemma keeps_attempt {A} own (m : PM A) : keeps (I own) (I own) m -> keeps (I own) (I own) (attempt m).
Proof. intros Hm s Hs. unfold attempt. specialize (Hm s Hs). by destruct (m s) as [[a|x] s']. Qed.

Lemma keeps_swallow {A} own (m : PM A) : keeps (I own) (I own) m -> keeps (I own) (I own) (swallow m).
Proof. intros Hm s Hs. unfold swallow. specialize (Hm s Hs). by destruct (m s) as [[a|x] s']. Qed.

(** A section that reads, and one that may change what the table holds. *)
Lemma keeps_section {A} own (f : Manager -> result A * Manager) :
  (forall ts m, inv max_sessions ts m -> inv max_sessions ts (f m).2) -> keeps (I own) (I own) f.
Proof. intros Hf m [others Hm]. specialize (Hf _ _ Hm). destruct (f m) as [[a|x] m']; by exists others. Qed.

Lemma keeps_read own : keeps (I own) (I own) st_get.
Proof. by intros m Hm. Qed.

Local Hint Resolve keeps_attempt keeps_swallow keeps_read law_start law_poll law_write law_resize law_interrupt
  law_terminate law_release law_shutdown law_sink law_consumer law_input law_watcher law_await law_join : triple.

(** *** Changes of entries are mild *)

Lemma mild_refl e : mild e e.
Proof. by split_and!. Qed.

Lemma mild_trans a b c : mild a b -> mild b c -> mild a c.
Proof. intros (A1 & A2 & A3 & A4) (B1 & B2 & B3 & B4). split_and!; [congruence|congruence|auto|auto]. Qed.

Lemma mild_note_exit now e : mild e (note_exit now e).
Proof. unfold note_exit. by case_decide; split_and!. Qed.

Lemma mild_note_observed now e : mild e (note_observed now e).
Proof. unfold note_observed. by case_decide; split_and!. Qed.

Lemma mild_watcher_started e : mild e (ensure_watcher_started e).
Proof. unfold ensure_watcher_started. by destruct (watcher e) eqn:E; split_and!. Qed.

Lemma redact_stream_mild c s f t e : mild e (redact_stream c s f t e).2.
Proof. unfold redact_stream. by destruct (filter_apply _ _ _ _). Qed.

Lemma redact_snapshot_mild c s e : mild e (redact_snapshot c s e).2.
Proof.
  unfold redact_snapshot. destruct (sensitive_values e); [apply mild_refl|].
  destruct (redact_stream _ _ _ (stdout s) e) as [out e1] eqn:E1.
  destruct (redact_stream _ _ _ (stderr s) e1) as [err e2] eqn:E2. cbn.
  eapply mild_trans; [apply (redact_stream_mild c $"stdout" (bool_decide (state s = EXITED)) (stdout s) e)|]. rewrite E1.
  pose proof (redact_stream_mild c $"stderr" (bool_decide (state s = EXITED)) (stderr s) e1) as Hm.
  by rewrite E2 in Hm.
Qed.

Lemma observe_mild c now b r raw e : mild e (observe c now b r raw e).2.
Proof.
  unfold observe. destruct (redact_snapshot c raw e) as [snap e1] eqn:E1.
  set (e3 := if b then _ else _). assert (Hm : mild e e3).
  { eapply mild_trans; [pose proof (redact_snapshot_mild c raw e) as Hm; rewrite E1 in Hm; exact Hm|].
    eapply mild_trans; [|subst e3; destruct b; [apply mild_note_observed|apply mild_refl]].
    eapply mild_trans; [|apply mild_note_exit]. by split_and!. }
  clearbody e3. destruct (assoc_get _ c); cbn [snd]; (eapply mild_trans; [exact Hm|by split_and!]).
Qed.

(** *** Sections *)

Lemma keeps_on_current {A} own sid i (f : Entry -> A * Entry) : (forall e, mild e (f e).2) ->
  keeps (I own) (I own) (on_current sid i f).
Proof.
  intros Hf. apply keeps_section. intros ts m Hm. unfold on_current. destruct (is_current sid i m); [|done].
  destruct (object m i) as [e|] eqn:He; [|done]. specialize (Hf e). destruct (f e) as [a e']. cbn.
  apply inv_update; [|done]. intros e0 He0. rewrite He in He0. injection He0 as <-. exact Hf.
Qed.

Lemma keeps_entry_update own i f : (forall e, mild e (f e)) -> keeps (I own) (I own) (st_modify (update i f)).
Proof. intros Hf. apply keeps_edit. intros ts m. apply inv_update. auto. Qed.

Lemma keeps_entry_and_cursor own sid c a : keeps (I own) (I own) (entry_and_cursor sid c a).
Proof. apply keeps_section. intros ts m Hm. unfold entry_and_cursor. repeat case_match; done. Qed.

Lemma keeps_port_of own i : keeps (I own) (I own) (port_of i).
Proof. by apply keeps_section. Qed.

Lemma keeps_drop_idle own p (b : bool) : keeps (I own) (I own) (st_modify (if b then drop_idle_port p else id)).
Proof. apply keeps_edit. intros ts m Hm. destruct b; [by apply inv_drop_idle|done]. Qed.

Local Hint Resolve keeps_entry_and_cursor keeps_port_of keeps_drop_idle : triple.

Lemma keeps_terminate_call own p sid r : keeps (I own) (I own) (terminate_call p sid r).
Proof. unfold terminate_call. walk. Qed.

Lemma keeps_release_expired own l : keeps (I own) (I own) (release_expired l).
Proof. induction l as [|[i e] l IH]; cbn [release_expired]; walk. Qed.

Lemma keeps_release_and_drop own i sid : keeps (I own) (I own) (release_and_drop i sid).
Proof. unfold release_and_drop. walk. Qed.

Local Hint Resolve keeps_terminate_call keeps_release_expired keeps_release_and_drop : triple.

Local Hint Extern 1 (keeps _ _ (on_current _ _ _)) =>
  (apply keeps_on_current; intros; first [apply mild_refl | apply observe_mild]) : triple.
Local Hint Extern 1 (keeps _ _ (st_modify (update _ _))) =>
  (apply keeps_entry_update; intros; first [apply mild_watcher_started | by split_and!]) : triple.
Local Hint Extern 1 (keeps _ _ (st_lift _)) => (by apply keeps_result) : triple.

Lemma keeps_poll own sid c a now b r : keeps (I own) (I own) (poll sid c a now b r).
Proof. unfold poll, read_cursor. walk. Qed.

Lemma keeps_validated own i t : keeps (I own) (I own) (validated_input_byte_count i t).
Proof. apply keeps_section. intros ts m Hm. unfold validated_input_byte_count. repeat case_match; done. Qed.

Lemma keeps_hide own i sid v : keeps (I own) (I own) (hide_value i sid v).
Proof.
  apply keeps_section. intros ts m Hm. unfold hide_value. repeat case_match; try done.
  apply inv_update; [|done]. intros e0 _. by split_and!.
Qed.

Local Hint Resolve keeps_poll keeps_validated keeps_hide : triple.

Lemma keeps_write_bounded own i sid t n : keeps (I own) (I own) (write_input_bounded i sid t n).
Proof. unfold write_input_bounded. walk. Qed.

Local Hint Resolve keeps_write_bounded : triple.

Lemma keeps_write own sid t c a now : keeps (I own) (I own) (write sid t c a now).
Proof. unfold write. walk. Qed.

Lemma keeps_write_sensitive own sid v c a now : keeps (I own) (I own) (write_sensitive_line sid v c a now).
Proof. unfold write_sensitive_line. walk. Qed.

Lemma keeps_op_interrupt own sid c a now : keeps (I own) (I own) (interrupt sid c a now).
Proof. unfold interrupt. walk. Qed.

Lemma keeps_terminate own sid c r a now : keeps (I own) (I own) (terminate sid c r a now).
Proof. unfold terminate. walk. Qed.

Lemma keeps_get_view own sid a now : keeps (I own) (I own) (get_view sid a now).
Proof. apply keeps_section. intros ts m Hm. unfold get_view. repeat case_match; done. Qed.

Lemma cleanup_inv ts now m : inv max_sessions ts m ->
  inv max_sessions ts (cleanup_expired observed_retention terminal_ttl now m).2.
Proof. apply inv_drops. Qed.

Lemma keeps_list own a b now wall :
  keeps (I own) (I own) (list_processes observed_retention terminal_ttl a b now wall).
Proof.
  unfold list_processes. apply keeps_seq.
  - apply keeps_section. intros ts m Hm. pose proof (cleanup_inv ts now m Hm) as Hc.
    by destruct (cleanup_expired _ _ now m).
  - intros [expired views]. walk.
Qed.

Lemma keeps_resize_each own l : keeps (I own) (I own) (resize_each l).
Proof. induction l as [|e l IH]; cbn [resize_each]; walk. Qed.

Local Hint Resolve keeps_resize_each : triple.

Lemma keeps_resize own r c a : keeps (I own) (I own) (resize_tty_sessions r c a).
Proof. unfold resize_tty_sessions. walk. Qed.

Lemma keeps_rebind own o p n : keeps (I own) (I own) (rebind_generation o p n).
Proof.
  apply keeps_section. intros ts m Hm. unfold rebind_generation. cbn. apply inv_updates; [|done].
  intros e. by split_and!.
Qed.

Lemma keeps_controls {A B} own timely (f : A -> PM B) l :
  (forall a, keeps (I own) (I own) (f a)) -> keeps (I own) (I own) (run_controls timely f l).
Proof. intros Hf. induction l as [|a l IH]; cbn [run_controls]; walk. Qed.

Lemma keeps_record_control own b now i sid raw : keeps (I own) (I own) (record_control b now i sid raw).
Proof.
  apply keeps_edit. intros ts m Hm. destruct (is_current sid i m); [|done]. apply inv_update; [|done].
  intros e _. assert (Hmid : mild e (if b then redact_snapshot $"manager" raw e else (raw, e)).2).
  { destruct b; [apply redact_snapshot_mild|apply mild_refl]. }
  destruct (if b then _ else _) as [snap e']. cbn in Hmid. eapply mild_trans; [exact Hmid|].
  eapply mild_trans; [|apply mild_note_exit]. by split_and!.
Qed.

Local Hint Resolve keeps_controls keeps_record_control : triple.

Lemma keeps_stop_all own a r timely now : keeps (I own) (I own) (stop_all a r timely now).
Proof. unfold stop_all. apply keeps_seq; [walk|intros m]. apply keeps_seq; [|walk]. apply keeps_controls.
  intros ie. unfold stop_one. walk. Qed.

(** *** Operations that take on tokens *)

Lemma keeps_weaken t own m : is_starting t = false -> I (t :: own) m -> I own m.
Proof. intros Ht [others Hm]. exists others. by apply (inv_take _ _ t). Qed.

Lemma inv_token ts t m : inv max_sessions ts m -> is_starting t = false ->
  (forall i, completes i t = false) -> (forall i, t = Emitting i -> exists e, object m i = Some e /\ published e = true) ->
  (t = Closing -> closing m = true) -> inv max_sessions (t :: ts) m.
Proof.
  intros [A B C D E F G K L N O P Q] Hs Hc He Hcl.
  assert (Hskip : forall f, f t = false -> tally f (t :: ts) = tally f ts).
  { intros f Hf. cbn. by rewrite Hf. }
  split; try done.
  - by rewrite Hskip.
  - intros p. rewrite Hskip; [done|]. by destruct t.
  - rewrite Hskip; [done|]. by destruct t.
  - intros p b Hp. apply elem_of_cons in Hp as [<-|Hp]; [done|by apply (K p b)].
  - intros i [Hi|Hi]; apply elem_of_cons in Hi as [Hi|Hi]; auto.
    specialize (Hc i). rewrite <-Hi in Hc. cbn in Hc. by rewrite Z.eqb_refl in Hc.
  - intros i. rewrite Hskip; auto.
  - intros i e Hobj Hem. rewrite Hskip; eauto.
  - intros Hin. apply elem_of_cons in Hin as [Hin|Hin]; auto.
Qed.

(** Emission of an event other than a completion. *)
Lemma emit_keeps own k i snap : k <> COMPLETED -> Emitting i ∈ own -> keeps (I own) (I own) (emit k i snap).
Proof.
  intros Hk Hin m [others Hm]. unfold emit.
  destruct (inv_emitting _ _ _ Hm i) as (e & He & Hp); [left; apply elem_of_app; by left|]. rewrite He.
  apply (keeps_swallow _ (event_sink _)); [apply law_sink|]. exists others. by eapply inv_add_event.
Qed.

Lemma emit_completed own i snap :
  hoare (I (Completing i :: own)) (emit COMPLETED i snap) (fun _ => I own) (I own).
Proof.
  intros m [others Hm]. unfold emit.
  destruct (inv_emitting _ _ _ Hm i) as (e & He & Hp); [right; by left|]. rewrite He.
  apply (keeps_swallow own (event_sink _)); [apply law_sink|]. exists others.
  by eapply inv_add_completed.
Qed.

(** An entry that is published and whose completion is taken on. *)
Lemma inv_publish ts i e e' m : inv max_sessions ts m -> object m i = Some e -> mild e e' ->
  published e' = true -> inv max_sessions (Emitting i :: ts) (update i (fun _ => e') m).
Proof.
  intros Hm He Hmild Hp. assert (Hu : inv max_sessions ts (update i (fun _ => e') m)).
  { apply inv_update; [|done]. intros e0 He0. rewrite He in He0. by injection He0 as <-. }
  eapply inv_emitting_new; [exact Hu| |exact Hp]. by rewrite object_update, decide_True, He.
Qed.

Lemma inv_complete ts i e e' m : inv max_sessions ts m -> object m i = Some e -> mild e e' ->
  published e' = true -> completion_emitted e = false -> completion_emitted e' = true ->
  inv max_sessions (Completing i :: Emitting i :: ts) (update i (fun _ => e') m).
Proof.
  intros Hm He Hmild Hp Hno Hyes. pose proof (inv_pending _ _ _ Hm i e He Hno) as Hzero.
  pose proof (inv_publish ts i e e' m Hm He Hmild Hp) as [A B C D E F G K L N O P Q].
  assert (Hobj : object (update i (fun _ => e') m) i = Some e') by (by rewrite object_update, decide_True, He).
  destruct (update_frame i (fun _ => e') m) as (_ & _ & _ & _ & _ & E6 & _).
  split; try done.
  - intros p b Hb. apply elem_of_cons in Hb as [?|Hb]; [done|]. by apply (K p b).
  - intros j [Hj|Hj]; apply elem_of_cons in Hj as [Hj|Hj]; try done; try (apply N; auto; fail).
    injection Hj as ->. eauto.
  - intros j. specialize (O j). cbn [tally completes] in *. rewrite E6 in *.
    destruct (i =? j) eqn:Eij; [|lia]. zbool. subst j. lia.
  - intros j e2 He2 Hc. specialize (P j e2 He2 Hc). cbn [tally completes] in *.
    destruct (i =? j) eqn:Eij; [|lia]. zbool. subst j. rewrite Hobj in He2. injection He2 as <-. congruence.
  - intros Hc. apply elem_of_cons in Hc as [?|Hc]; [done|auto].
Qed.

Definition tokens_of (i : Z) (complete : bool) (own : list Token) : list Token :=
  (if complete then [Completing i] else []) ++ Emitting i :: own.

Lemma publish_entry_spec own sid seen now :
  hoare (I own) (publish_entry sid seen now) (fun ic => I (tokens_of ic.1 ic.2 own)) (I own).
Proof.
  intros m [others Hm]. unfold publish_entry. destruct (assoc_get (entries m) sid) as [i|]; [|by exists others].
  destruct (object m i) as [e|] eqn:He; [|by exists others].
  set (complete := exited e && negb (completion_emitted e)). exists others.
  set (f := fun e => if complete then _ else _). assert (Hmild : forall e, mild e (f e)).
  { intros e0. eapply mild_trans; [|eapply mild_trans].
    - instantiate (1 := set_published e0). by split_and!.
    - instantiate (1 := if seen then note_observed now (set_published e0) else set_published e0).
      destruct seen; [apply mild_note_observed|apply mild_refl].
    - subst f. cbn. destruct complete; [by split_and!|apply mild_refl]. }
  assert (Hpub : published (f e) = true).
  { subst f. cbn. destruct complete, seen; cbn; unfold note_observed; cbn; try case_decide; done. }
  assert (Hupd : update i f m = update i (fun _ => f e) m) by (unfold update; by rewrite He).
  rewrite Hupd. unfold tokens_of. cbn [fst snd app].
  destruct complete eqn:Ec; cbn [app].
  - apply (inv_complete _ i e); try done. apply andb_prop in Ec as [_ Ec]. by apply negb_true_iff in Ec.
  - by apply (inv_publish _ i e).
Qed.

Lemma tokens_weaken own i b m : I (tokens_of i b own) m -> I own m.
Proof.
  unfold tokens_of. destruct b; intros Hm; [apply (keeps_weaken (Completing i)) in Hm; [|done]|];
    by apply (keeps_weaken (Emitting i)) in Hm.
Qed.

Lemma tokens_emitting own i b : Emitting i ∈ tokens_of i b own.
Proof. unfold tokens_of. apply elem_of_app. right. by left. Qed.

(** The emissions of a published entry, and what follows them. *)
Lemma emissions_end {A} own i b (m : PM A) Q :
  hoare (I (tokens_of i b own)) m Q (I (tokens_of i b own)) -> hoare (I (tokens_of i b own)) m Q (I own).
Proof. intros Hm. eapply hoare_conseq; [exact Hm|done|done|]. intros s. apply tokens_weaken. Qed.

Lemma keeps_publish own sid seen now : keeps (I own) (I own) (publish sid seen now).
Proof.
  unfold publish. eapply hoare_bind; [apply publish_entry_spec|]. intros [i complete]. cbn [fst snd].
  apply (hoare_bind _ _ _ _ (fun _ => I (tokens_of i complete own))).
  { apply emissions_end. apply emit_keeps; [done|apply tokens_emitting]. }
  intros []. apply (hoare_bind _ _ _ _ (fun _ => I (tokens_of i false own))).
  { destruct complete; [|by apply hoare_ret].
    eapply hoare_conseq; [apply (emit_completed (Emitting i :: own))|done|done|].
    intros s. apply (tokens_weaken own i false). }
  intros []. eapply hoare_conseq; [apply (keeps_entry_update (tokens_of i false own)); apply mild_watcher_started|done| |];
    intros; by eapply (tokens_weaken own i false).
Qed.

(** *** Starting *)

Lemma port_count_assoc p m : port_count p m = default 0 (assoc_get (starting_ports m) p).
Proof. done. Qed.

Lemma cleanup_closing now m : closing (cleanup_expired observed_retention terminal_ttl now m).2 = closing m.
Proof.
  unfold cleanup_expired. cbn. generalize (filter (fun ie : Z * Entry => is_expired observed_retention terminal_ttl now ie.2 = true) (managed m)).
  intros l. revert m. induction l as [|a l IH]; intros m; [done|]. cbn. by rewrite IH.
Qed.

Lemma reserve_spec own now p :
  hoare (I own) (reserve max_sessions observed_retention terminal_ttl now p)
    (fun r => I (if r.2 then Starting p false :: own else own)) (I own).
Proof.
  intros m [others Hm]. unfold reserve. destruct (closing m) eqn:Hcl; [by exists others|].
  pose proof (cleanup_inv _ now m Hm) as Hc. pose proof (cleanup_closing now m) as Hccl.
  destruct (cleanup_expired _ _ now m) as [expired m2]. cbn [snd] in Hc, Hccl.
  destruct (max_sessions <=? _) eqn:Hcap; [by exists others|]. zbool. exists others. cbn [snd app].
  pose proof (inv_starting _ _ _ Hc) as Hst.
  apply (inv_set_ports _ (own ++ others)); try done; cbn [tally is_starting is_reserved starts_port completes].
  - intros sid i e Hin He Hp. case_decide; [done|]. apply elem_of_app. by left.
  - intros q. rewrite assoc_get_set. pose proof (inv_counts _ _ _ Hc q) as Hq. unfold port_count in Hq at 1.
    destruct (decide (q = p)) as [->|Hne].
    + cbn. unfold port_count. rewrite Hq, Z.eqb_refl. lia.
    + rewrite Hq. destruct (p =? q) eqn:Epq; [zbool; congruence|lia].
  - lia.
  - pose proof (tally_le is_reserved is_starting (own ++ others)) as Hle. specialize (Hle ltac:(by intros [? []| | |])). lia.
  - intros q b Hq _. apply elem_of_cons in Hq as [Hq|Hq].
    + injection Hq as -> ->. case_decide; [done|]. apply elem_of_app. right. by left.
    + assert (q ∈ ports m2) by (by eapply (inv_start_ports _ _ _ Hc q b); [|rewrite Hccl]).
      case_decide; [done|]. apply elem_of_app. by left.
  - intros i [Hi|Hi]; apply elem_of_cons in Hi as [?|Hi]; try done; auto.
  - intros Hin. apply elem_of_cons in Hin as [?|Hin]; done.
Qed.

Lemma finish_start_spec own p b drop :
  hoare (I (Starting p b :: own)) (finish_start p drop) (fun _ => I own) (I own).
Proof.
  intros m [others Hm]. unfold finish_start, st_modify. exists others. cbn [app] in Hm.
  pose proof (inv_starting _ _ _ Hm) as Hst. cbn in Hst.
  pose proof (inv_capacity _ _ _ Hm) as Hcap. cbn [tally] in Hcap.
  assert (Hcounts : forall q, port_count q m = (if p =? q then 1 else 0) + tally (starts_port q) (own ++ others)).
  { intros q. by rewrite (inv_counts _ _ _ Hm q). }
  pose proof (Hcounts p) as Hp. rewrite Z.eqb_refl in Hp.
  assert (Hset : forall sp, (forall q, default 0 (assoc_get sp q) = tally (starts_port q) (own ++ others)) ->
    inv max_sessions (own ++ others) (set_ports (ports m) sp (starting m - 1) m)).
  { intros sp Hsp. apply (inv_set_ports _ (Starting p b :: own ++ others)); try done.
    - lia.
    - destruct (is_reserved _); lia.
    - intros q b' Hq. apply (inv_start_ports _ _ _ Hm q b'). by right.
    - intros i [Hi|Hi]; [left|right]; by right.
    - intros Hin. by right. }
  destruct (0 <? _) eqn:Hleft; zbool.
  - apply Hset. intros q. rewrite assoc_get_set. pose proof (Hcounts q) as Hq.
    destruct (decide (q = p)) as [->|Hne]; cbn; [rewrite Hp; lia|].
    rewrite port_count_assoc in Hq. rewrite Hq. destruct (p =? q) eqn:E; [zbool; congruence|lia].
  - assert (Hs : inv max_sessions (own ++ others)
      (set_ports (ports m) (filter (fun q : Z * Z => q.1 <> p) (starting_ports m)) (starting m - 1) m)).
    { apply Hset. intros q. rewrite assoc_get_removed. pose proof (Hcounts q) as Hq.
      pose proof (tally_nonneg (starts_port p) (own ++ others)).
      destruct (decide (q = p)) as [->|Hne]; cbn; [lia|].
      rewrite port_count_assoc in Hq. rewrite Hq. destruct (p =? q) eqn:E; [zbool; congruence|lia]. }
    destruct drop; [by apply inv_drop_idle|done].
Qed.

Lemma assoc_get_app {V} (k l : list (Z * V)) x :
  assoc_get (k ++ l) x = match assoc_get k x with Some v => Some v | None => assoc_get l x end.
Proof. induction k as [|[y v] k IH]; cbn; [done|]. by case_decide. Qed.

(** The new entry takes the place reserved for it. *)
Lemma register_spec own e : published e = false -> completion_emitted e = false ->
  hoare (I (Starting (port e) false :: own)) (register e) (fun _ => I (Starting (port e) true :: own))
    (I (Starting (port e) false :: own)).
Proof.
  intros Hpub Hem m [others Hm]. unfold register. destruct (closing m) eqn:Hcl; [by exists others|].
  destruct (assoc_get (entries m) _) as [j|] eqn:Hfree; [by exists others|]. exists others. cbn [app] in *.
  set (sid := h_session_id (handle e)) in *. set (n := len (heap m)).
  assert (Hold : forall i e0, object m i = Some e0 -> 0 <= i < n /\ object (set_table (heap m ++ [(n, e)]) (entries m ++ [(sid, n)]) m) i = Some e0).
  { intros i e0 He0. assert (Hi : 0 <= i < n) by (by apply (object_Some_iff _ _ _ i Hm); eexists).
    split; [done|]. unfold object in *. cbn [heap set_table]. by rewrite assoc_get_app, He0. }
  assert (Hnew : object (set_table (heap m ++ [(n, e)]) (entries m ++ [(sid, n)]) m) n = Some e).
  { unfold object. cbn [heap set_table]. rewrite assoc_get_app.
    destruct (assoc_get (heap m) n) as [e0|] eqn:E0; [|cbn; by rewrite decide_True].
    assert (0 <= n < n) by (apply (object_Some_iff _ _ _ n Hm); by exists e0). lia. }
  destruct Hm as [A B C D E F G K L N O P Q].
  assert (Hlen : len (heap m ++ [(n, e)]) = n + 1) by (unfold len; rewrite length_app; cbn; unfold n, len; lia).
  assert (Hin : forall s i, (s, i) ∈ entries m ++ [(sid, n)] -> (s, i) ∈ entries m \/ s = sid /\ i = n).
  { intros s i Hi. apply elem_of_app in Hi as [Hi|Hi]; [by left|]. apply list_elem_of_singleton in Hi. right. by simplify_eq. }
  assert (Hlive : forall i e0, (exists x, object m i = Some x) -> object (set_table (heap m ++ [(n, e)]) (entries m ++ [(sid, n)]) m) i = Some e0 -> object m i = Some e0).
  { intros i e0 [x Hx] He0. destruct (Hold i x Hx) as [_ Hx']. congruence. }
  assert (Hsplit : forall i e0, object (set_table (heap m ++ [(n, e)]) (entries m ++ [(sid, n)]) m) i = Some e0 ->
    object m i = Some e0 \/ i = n /\ e0 = e).
  { intros i e0. unfold object. cbn [heap set_table]. rewrite assoc_get_app. destruct (assoc_get (heap m) i); [by left|].
    cbn. case_decide; [|done]. intros [= <-]. by right. }
  split; try done.
  - cbn [set_table heap]. rewrite fmap_app, C, length_app. cbn [length]. rewrite seq_app, map_app. cbn. unfold n, len. done.
  - cbn [set_table entries]. rewrite fmap_app. apply NoDup_app. split_and!; [done| |apply NoDup_singleton].
    intros x Hx Hx2. apply list_elem_of_singleton in Hx2 as ->. cbn in Hx. apply list_elem_of_fmap in Hx as ([k v] & Hk & Hkv).
    cbn in Hk. subst k. rewrite (assoc_get_of_elem _ _ _ D Hkv) in Hfree. done.
  - intros s i Hi. apply Hin in Hi as [Hi|[-> ->]]; [|by exists e]. destruct (E s i Hi) as (e0 & He0 & Hs).
    exists e0. split; [by apply Hold|done].
  - cbn [set_table entries]. unfold len. rewrite length_app. cbn [tally is_reserved length] in *. unfold len in F. lia.
  - intros s i e0 Hi He0. cbn [set_table ports]. apply Hin in Hi as [Hi|[-> ->]].
    + destruct (E s i Hi) as (x & Hx & _). eapply G; [exact Hi|]. eauto.
    + rewrite Hnew in He0. injection He0 as <-. apply (K _ false); [by left|done].
  - intros p b Hp. cbn [set_table closing ports]. apply elem_of_cons in Hp as [Hp|Hp].
    + injection Hp as -> ->. apply (K _ false). by left.
    + apply (K p b). by right.
  - intros v Hv. cbn [set_table heap]. rewrite Hlen. destruct (L v Hv). split; [done|]. fold n in H1. lia.
  - intros i Hi. assert (Hi' : Emitting i ∈ Starting (port e) false :: own ++ others \/ Completing i ∈ Starting (port e) false :: own ++ others).
    { destruct Hi as [Hi|Hi]; apply elem_of_cons in Hi as [?|Hi]; try done; [left|right]; by right. }
    destruct (N i Hi') as (x & Hx & Hp). exists x. split; [by apply Hold|done].
  - intros i x Hx Hc. cbn [set_table events]. apply Hsplit in Hx as [Hx|[-> ->]]; [by eapply P|].
    cbn [tally completes]. rewrite !tally_zero; [done| |].
    + intros t Ht. destruct t as [| |j|]; try done. cbn. apply Z.eqb_neq. intros ->.
      destruct (N n) as (x & Hx & _); [right; by right|]. pose proof (Hold n x Hx). lia.
    + intros v Hv. unfold is_completion. apply andb_false_iff. right. apply Z.eqb_neq. pose proof (L v Hv). fold n in H1. lia.
  - intros Hc. apply Q. apply elem_of_cons in Hc as [?|Hc]; [done|by right].
Qed.

Lemma hoare_attempt {A} P E E' (m : PM A) Q : hoare P m Q E ->
  hoare P (attempt m) (fun r s => match r with Ok a => Q a s | Raise _ => E s end) E'.
Proof. intros Hm s Hs. unfold attempt. specialize (Hm s Hs). by destruct (m s) as [[a|x] s']. Qed.

(** A section never raises. *)
Lemma hoare_modify own f E : (forall ts m, inv max_sessions ts m -> inv max_sessions ts (f m)) ->
  hoare (I own) (st_modify f) (fun _ => I own) E.
Proof. intros Hf m [others Hm]. exists others. auto. Qed.

(** A section that ends a start which failed, and raises. *)
Lemma finish_raise {A} own p b drop x (Q : A -> Manager -> Prop) :
  hoare (I (Starting p b :: own)) (_ ← finish_start p drop; st_lift (Raise x)) Q (I own).
Proof. eapply hoare_bind; [apply finish_start_spec|]. intros []. by apply hoare_raise. Qed.

Lemma fail_start_spec own p b sid :
  hoare (I (Starting p b :: own)) (fail_start p sid) (fun _ => I own) (I own).
Proof.
  unfold fail_start. apply (hoare_bind _ _ _ _ (fun _ => I (Starting p b :: own))); [by intros s Hs|]. intros m.
  apply (hoare_bind _ _ _ _ (fun _ => I (Starting p b :: own))); [|intros []; apply finish_start_spec].
  intros s Hs. unfold swallow. pose proof (keeps_terminate_call (Starting p b :: own) p sid
    (if closing m then $"shutdown" else $"start_failed") s Hs) as Ht.
  by destruct (terminate_call _ _ _ s) as [[a|x] s'].
Qed.

Lemma fail_raise {A} own p b sid x (Q : A -> Manager -> Prop) :
  hoare (I (Starting p b :: own)) (_ ← fail_start p sid; st_lift (Raise x)) Q (I own).
Proof. eapply hoare_bind; [apply fail_start_spec|]. intros []. by apply hoare_raise. Qed.

Lemma keeps_start own now l :
  keeps (I own) (I own) (start max_sessions observed_retention terminal_ttl now l).
Proof.
  unfold start. eapply hoare_bind; [apply reserve_spec|]. intros [expired reserved]. cbn [snd].
  apply (hoare_bind _ _ _ _ (fun _ => I (if reserved then Starting (l_port l) false :: own else own))).
  { destruct reserved; [|walk]. intros s Hs.
    pose proof (keeps_release_expired (Starting (l_port l) false :: own) expired s Hs) as Hr.
    destruct (release_expired expired s) as [[a|x] s'] eqn:E; [done|]. exfalso. clear -E. revert s s' E.
    induction expired as [|[i e] r IH]; intros s s' E; cbn in E; [done|].
    unfold mbind, stm_bind, attempt in E. destruct (port_release _ _ s). cbn in E. by eapply IH in E. }
  intros []. destruct reserved; cbn [negb]; [|by apply hoare_raise].
  set (p := l_port l) in *.
  eapply hoare_bind; [apply hoare_attempt, (law_start l (Starting p false :: own))|].
  intros [h|x]; [|apply finish_raise].
  eapply hoare_bind.
  { apply (hoare_attempt _ (I (Starting p false :: own)) _ _ (fun _ => I (Starting p true :: own))).
    eapply hoare_bind.
    - apply (law_poll p (h_session_id h) start_cursor (Starting p false :: own)).
    - intros initial. apply (register_spec own (new_entry now l h initial)); done. }
  intros [i|x]; [|apply fail_raise].
  eapply hoare_bind; [apply hoare_attempt, (law_watcher i (Starting p true :: own))|].
  intros [[]|x].
  - eapply hoare_bind.
    { apply (hoare_modify (Starting p true :: own)). intros ts m. apply inv_update. intros e _. by split_and!. }
    intros []. eapply hoare_bind; [apply finish_start_spec|]. intros []. by apply hoare_ret.
  - eapply hoare_bind.
    { apply (hoare_modify (Starting p true :: own)). intros ts m. apply inv_drop. }
    intros []. apply fail_raise.
Qed.

(** *** Giving up, watching, and shutting down *)

Lemma keeps_abandon_entry own sid : keeps (I own) (I own) (abandon_entry sid).
Proof.
  apply keeps_section. intros ts m Hm. unfold abandon_entry.
  destruct (assoc_get (entries m) sid) as [i|]; [|done]. destruct (object m i) as [e|]; [|done].
  destruct (published e); [done|]. assert (Ha : inv max_sessions ts (update i set_abandoned m)).
  { apply inv_update; [|done]. intros x _. by split_and!. }
  destruct (exited e); cbn; [by apply inv_drop|]. apply inv_update; [|done]. intros x _. apply mild_watcher_started.
Qed.

Local Hint Resolve keeps_abandon_entry : triple.

Lemma keeps_abandon own sid r : keeps (I own) (I own) (abandon sid r).
Proof. unfold abandon. walk. Qed.

(** The events of one iteration: a completion, if any, is the last. *)
Definition emission (complete : bool) (pre : list ProcessEventKind) : list ProcessEventKind :=
  pre ++ (if complete then [COMPLETED] else []).

Lemma emit_all_spec own i snap c pre : Forall (fun k => k <> COMPLETED) pre ->
  hoare (I (tokens_of i c own)) (emit_all i snap (emission c pre)) (fun _ => I own) (I own).
Proof.
  unfold emission. induction 1 as [|k pre Hk _ IH]; cbn [app emit_all].
  - destruct c; cbn [emit_all]; [|apply hoare_ret; apply tokens_weaken].
    apply (hoare_bind _ _ _ _ (fun _ => I own)); [|intros []; by apply hoare_ret].
    eapply hoare_conseq; [apply (emit_completed (Emitting i :: own))|done|intros [] s|intros s];
      apply (tokens_weaken own i false).
  - apply (hoare_bind _ _ _ _ (fun _ => I (tokens_of i c own))); [|intros []; exact IH].
    apply emissions_end. apply emit_keeps; [done|apply tokens_emitting].
Qed.

Definition watched_post (own : list Token) (i : Z) (w : Watched) : Manager -> Prop :=
  match w with
  | WatchEmit _ kinds _ => fun m =>
    (kinds = [] /\ I own m) \/
    (exists c pre, kinds = emission c pre /\ Forall (fun k => k <> COMPLETED) pre /\ I (tokens_of i c own) m)
  | _ => I own
  end.

Lemma watch_section_spec own i sid now raw :
  hoare (I own) (watch_section i sid now raw) (watched_post own i) (I own).
Proof.
  intros m [others Hm]. unfold watch_section. destruct (is_current sid i m); cbn [negb]; [|by exists others].
  destruct (object m i) as [e0|] eqn:He; [|by exists others].
  pose proof (redact_snapshot_mild $"watcher" raw e0) as Hred.
  destruct (redact_snapshot _ raw e0) as [snap e1]. cbn [snd] in Hred.
  set (e := note_exit now _). assert (Hmild : mild e0 e).
  { eapply mild_trans; [exact Hred|]. eapply mild_trans; [|apply mild_note_exit]. by split_and!. }
  clearbody e.
  set (complete := published e && _ && _). set (e' := if complete then set_emitted e else e).
  assert (Hmild' : mild e0 e').
  { eapply mild_trans; [exact Hmild|]. subst e'. destruct complete; by split_and!. }
  assert (Hu : inv max_sessions (own ++ others) (update i (fun _ => e') m)).
  { apply inv_update; [|done]. intros x Hx. rewrite He in Hx. by injection Hx as <-. }
  destruct (abandoned e && _); [exists others; by apply inv_drop|]. cbn [watched_post].
  assert (Hpe : published e' = published e) by (subst e'; by destruct complete).
  destruct (published e) eqn:Hp.
  - right. exists complete. eexists. split; [reflexivity|]. split.
    { rewrite !andb_true_r. cbn [andb]. destruct (_ || _); [by repeat constructor|].
      case_bool_decide; by repeat constructor. }
    exists others. unfold tokens_of. subst complete. cbn [andb] in *.
    destruct (bool_decide _ && _) eqn:Ec; cbn [app].
    + apply andb_prop in Ec as [_ Ec]. apply negb_true_iff in Ec.
      apply (inv_complete _ i e0); try done.
      destruct Hmild as (_ & _ & _ & Hc). destruct (completion_emitted e0); [|done]. by rewrite Hc in Ec.
    + by apply (inv_publish _ i e0).
  - left. subst complete. cbn [andb]. rewrite andb_false_r. split; [done|]. by exists others.
Qed.

Lemma keeps_watch_once own i sid now c : keeps (I own) (I own) (watch_once i sid now c).
Proof.
  unfold watch_once. apply keeps_seq; [walk|intros p]. apply keeps_seq; [walk|intros [raw|x]]; [|walk].
  eapply hoare_bind; [apply watch_section_spec|]. intros [| |snap kinds go_on]; cbn [watched_post]; [walk|walk|].
  intros m [[-> Hm]|(c' & pre & -> & Hpre & Hm)].
  - cbn. by destruct go_on.
  - pose proof (emit_all_spec own i snap c' pre Hpre m Hm) as He. unfold mbind, stm_bind.
    destruct (emit_all i snap _ m) as [[[]|x] m']; [|done]. by destruct go_on.
Qed.

Lemma keeps_watch own fuel i sid clock c : keeps (I own) (I own) (watch fuel i sid clock c).
Proof.
  revert c. induction fuel as [|fuel IH]; intros c; cbn [watch]; [walk|].
  apply keeps_seq; [apply keeps_watch_once|]. intros [c'|]; [apply IH|walk].
Qed.

(** Once the manager is closing its table and ports may be emptied. *)
Lemma inv_clear ts m : Closing ∈ ts -> inv max_sessions ts m ->
  inv max_sessions ts (set_ports [] (starting_ports m) (starting m) (set_table (heap m) [] m)).
Proof.
  intros Hin [A B C D E F G K L N O P Q]. pose proof (Q Hin) as Hcl. split; try done.
  - apply NoDup_nil_2.
  - by intros sid i ?%not_elem_of_nil.
  - cbn [entries set_ports set_table]. unfold len in *. cbn [length]. lia.
  - by intros sid i e ?%not_elem_of_nil.
  - intros p b _ Hno. cbn in Hno. congruence.
Qed.

Lemma inv_set_closing ts m : inv max_sessions ts m -> inv max_sessions (Closing :: ts) (set_closing m).
Proof.
  intros Hm. assert (Hc : inv max_sessions ts (set_closing m)).
  { destruct Hm as [A B C D E F G K L N O P Q]. split; done. }
  by apply inv_token.
Qed.

Lemma keeps_shutdown own now ws : keeps (I own) (I own) (shutdown now ws).
Proof.
  unfold shutdown. set (own' := Closing :: own).
  apply (hoare_bind _ _ _ _ (fun _ => I own')).
  { intros m [others Hm]. exists others. by apply inv_set_closing. }
  intros [].
  assert (Hend : forall A (m : PM A), keeps (I own') (I own') m -> hoare (I own') m (fun _ => I own) (I own)).
  { intros A m Hm. eapply hoare_conseq; [exact Hm|done|intros a s|intros s]; by apply (keeps_weaken Closing). }
  apply Hend. apply keeps_seq; [walk|intros []]. apply keeps_seq; [walk|intros m0].
  apply keeps_seq.
  { apply keeps_edit. intros ts m. apply inv_updates. apply mild_watcher_started. }
  intros []. apply keeps_seq; [walk|intros _]. apply keeps_seq; [walk|intros []].
  apply keeps_seq; [walk|intros m1]. apply keeps_seq.
  { apply keeps_controls. intros ie. unfold shutdown_terminate. apply keeps_seq; [walk|].
    intros [s|[s|]]; [walk| |walk]. apply keeps_seq; [|walk]. apply keeps_edit. intros ts m Hm.
    destruct (is_current _ _ m); [|done]. apply inv_update; [|done]. intros e _. by split_and!. }
  intros cs. apply keeps_seq; [walk|intros m2]. apply keeps_seq; [walk|intros []].
  apply keeps_seq.
  { apply keeps_controls. intros ie m Hm. unfold shutdown_release. case_decide; [|done].
    apply (keeps_seq (I own') (I own') (port_release _ _)); [apply law_release|intros []; walk|done]. }
  intros rs. apply keeps_seq.
  { intros m [others Hm]. exists others. apply inv_clear; [by left|done]. }
  intros []. apply keeps_seq; [|walk]. apply keeps_controls. intros p. apply law_shutdown.
Qed.

Local Hint Resolve keeps_start keeps_publish keeps_abandon keeps_write keeps_write_sensitive keeps_op_interrupt
  keeps_terminate keeps_get_view keeps_list keeps_resize keeps_rebind keeps_stop_all keeps_shutdown keeps_watch : triple.

Lemma keeps_op own o : keeps (I own) (I own) (run_op max_sessions observed_retention terminal_ttl o).
Proof. destruct o; cbn [run_op]; eauto with triple. Qed.

Lemma keeps_ops own l m : I own m -> I own (run_ops max_sessions observed_retention terminal_ttl l m).
Proof.
  revert m. induction l as [|o l IH]; intros m Hm; [done|]. apply IH. pose proof (keeps_op own o m Hm) as Ho.
  by destruct (run_op _ _ _ o m) as [[[]|x] m'].
Qed.
End Operations.

Lemma inv_new max : 0 <= max -> inv max [] new_manager.
Proof.
  intros Hmax. split; try done; try apply NoDup_nil_2; intros; cbn in *; set_solver.
Qed.

(** ** Interleaving *)

Section Interleaving.
Context (max_sessions observed_retention terminal_ttl : Z).

(** What the other threads may do to the manager while one waits for a call:
    any operations, whose calls are interleaved in the same way.  What a call
    answers is not restricted. *)
Inductive others : Manager -> Manager -> Prop :=
| others_none m : others m m
| others_run (C : Calls) o m m' :
  (forall l s, others s (port_start l s).2) ->
  (forall p sid c s, others s (port_poll p sid c s).2) ->
  (forall p sid t s, others s (port_write_input p sid t s).2) ->
  (forall p sid s, others s (port_resize p sid s).2) ->
  (forall p sid s, others s (port_interrupt p sid s).2) ->
  (forall p sid r s, others s (port_terminate p sid r s).2) ->
  (forall p sid s, others s (port_release p sid s).2) ->
  (forall p s, others s (port_shutdown p s).2) ->
  (forall v s, others s (event_sink v s).2) ->
  (forall c i s, others s (acquire_consumer c i s).2) ->
  (forall i s, others s (acquire_input i s).2) ->
  (forall i s, others s (create_watcher i s).2) ->
  (forall s, others s (await_starts s).2) ->
  (forall s, others s (join_watchers s).2) ->
  others (run_op max_sessions observed_retention terminal_ttl o m).2 m' -> others m m'.

Class Interleaved (C : Calls) := {
  il_start l s : others s (port_start l s).2;
  il_poll p sid c s : others s (port_poll p sid c s).2;
  il_write p sid t s : others s (port_write_input p sid t s).2;
  il_resize p sid s : others s (port_resize p sid s).2;
  il_interrupt p sid s : others s (port_interrupt p sid s).2;
  il_terminate p sid r s : others s (port_terminate p sid r s).2;
  il_release p sid s : others s (port_release p sid s).2;
  il_shutdown p s : others s (port_shutdown p s).2;
  il_sink v s : others s (event_sink v s).2;
  il_consumer c i s : others s (acquire_consumer c i s).2;
  il_input i s : others s (acquire_input i s).2;
  il_watcher i s : others s (create_watcher i s).2;
  il_await s : others s (await_starts s).2;
  il_join s : others s (join_watchers s).2;
}.

Lemma keeps_moves {A} own (m : PM A) :
  (forall s, Inv max_sessions own s -> Inv max_sessions own (m s).2) -> keeps (Inv max_sessions own) (Inv max_sessions own) m.
Proof. intros Hm s Hs. specialize (Hm s Hs). by destruct (m s) as [[a|x] s']. Qed.

Lemma others_keep own m m' : others m m' -> Inv max_sessions own m -> Inv max_sessions own m'.
Proof.
  intros Ho. revert own. induction Ho; intros own Hm; [done|].
  assert (Hlaws : CallLaws max_sessions).
  { split; intros; apply keeps_moves; auto. }
  apply IHHo. pose proof (keeps_op max_sessions observed_retention terminal_ttl own o m Hm) as Hop.
  by destruct (run_op _ _ _ o m) as [[[]|x] s'].
Qed.

#[export] Instance interleaved_laws (C : Calls) (HC : Interleaved C) : CallLaws max_sessions.
Proof. split; intros; apply keeps_moves; intros s; apply others_keep; apply HC. Qed.
End Interleaving.

(** ** Access *)

Section Access.
Context `{Calls}.

(** What a caller that may not see a session gets: the answer that hides
    whether the process exists, before any call is made or anything changes. *)
Definition refused {A} (sid : pystr) (op : PM A) (m : Manager) : Prop := op m = (Raise (not_available sid), m).

Lemma entry_refused sid i e consumer a m : assoc_get (entries m) sid = Some i -> object m i = Some e ->
  can_access a e = false -> refused sid (entry_and_cursor sid consumer a) m.
Proof. intros Hi He Ha. unfold refused, entry_and_cursor. by rewrite Hi, He, Ha. Qed.

Lemma refused_bind {A B} sid (op : PM A) (k : A -> PM B) m : refused sid op m -> refused sid (op ≫= k) m.
Proof. intros Hop. unfold refused, mbind, stm_bind in *. by rewrite Hop. Qed.

Lemma refused_checked {B} sid x (k : () -> PM B) m : refused sid (k ()) m ->
  refused sid (st_lift (raise_if false x) ≫= k) m.
Proof. done. Qed.

(** C12: [poll], [write], [write_sensitive_line], [interrupt], [terminate] and
    [get_view] on a session whose entry the caller may not access (of another
    generation, or neither of its session nor of its agent) raise
    [ProcessSessionNotFound], call neither the port nor a lock, and leave the
    manager exactly as it was; and such an entry is in no list and is never
    counted among the terminals to resize or the processes to stop. *)
Theorem access_denied_changes_nothing sid i e consumer a now m :
  assoc_get (entries m) sid = Some i -> object m i = Some e -> can_access a e = false ->
  refused sid (poll sid consumer a now true None) m /\
  (forall chars, refused sid (write sid chars consumer a now) m) /\
  (forall value, value <> [] -> 10 ∉ value -> 13 ∉ value ->
    refused sid (write_sensitive_line sid value consumer a now) m) /\
  refused sid (interrupt sid consumer a now) m /\
  (forall reason, refused sid (terminate sid consumer reason a now) m) /\
  refused sid (get_view sid a now) m /\
  (forall b, visible a b e = false) /\ resizable a e = false.
Proof.
  intros Hi He Ha. pose proof (entry_refused sid i e consumer a m Hi He Ha) as Hr.
  split_and!.
  - apply (refused_checked sid (ValueError $"retain_output_chars must be positive")). by apply refused_bind.
  - intros chars. by apply refused_bind.
  - intros value H0 H10 H13. unfold write_sensitive_line. rewrite !bool_decide_eq_false_2 by done.
    apply refused_checked, refused_checked. by apply refused_bind.
  - by apply refused_bind.
  - intros reason. by apply refused_bind.
  - unfold refused, get_view. rewrite Hi, He, Ha. by rewrite orb_true_r.
  - intros b. unfold visible. by rewrite Ha.
  - unfold resizable. by rewrite Ha, andb_false_r.
Qed.
End Access.

(** ** Retention *)

Section Retention.
Context (max_sessions observed_retention terminal_ttl : Z).

Lemma filter_iff_elem {A} (P Q : A -> Prop) `{forall x, Decision (P x), forall x, Decision (Q x)} (l : list A) :
  (forall x, x ∈ l -> P x <-> Q x) -> filter P l = filter Q l.
Proof.
  induction l as [|x l IH]; intros Hl; [done|]. rewrite !filter_cons, IH by (intros; apply Hl; by right).
  assert (Hx : P x <-> Q x) by (apply Hl; by left). by repeat case_decide; tauto || idtac.
Qed.

Lemma filter_keep {A} (P : A -> Prop) `{forall x, Decision (P x)} (l : list A) :
  (forall x, x ∈ l -> P x) -> filter P l = l.
Proof.
  induction l as [|x l IH]; intros Hl; [done|]. rewrite filter_cons, decide_True by (apply Hl; by left).
  rewrite IH; [done|]. intros y Hy. apply Hl. by right.
Qed.

Lemma drops_entries (l : list (Z * Entry)) m :
  let m' := foldl (fun m ie => drop_entry (h_session_id (handle ie.2)) m) m l in
  heap m' = heap m /\
  entries m' = filter (fun p : pystr * Z => p.1 ∉ map (fun ie : Z * Entry => h_session_id (handle ie.2)) l) (entries m).
Proof.
  revert m. induction l as [|ie l IH]; intros m; cbn [foldl map].
  - split; [done|]. symmetry. apply filter_keep. by intros p _ ?%not_elem_of_nil.
  - destruct (IH (drop_entry (h_session_id (handle ie.2)) m)) as [-> ->]. split; [done|].
    cbn [drop_entry entries set_table]. unfold table_pop. rewrite list_filter_filter.
    apply list_filter_iff. intros p. rewrite not_elem_of_cons. tauto.
Qed.

(** Whether the table's element is one that retention lets go. *)
Definition expired_at (now : Z) (m : Manager) (p : pystr * Z) : bool :=
  match object m p.2 with Some e => is_expired observed_retention terminal_ttl now e | None => false end.

(** [_cleanup_expired_locked] takes from the table exactly the entries past
    their retention and returns them to be released: an exited process stays
    for the retention of an observed one from its observation, and for the
    terminal time-to-live otherwise; a process not known to have exited is
    never removed. *)
Theorem cleanup_removes_exactly_expired ts now m : inv max_sessions ts m ->
  let (expired, m') := cleanup_expired observed_retention terminal_ttl now m in
  entries m' = filter (fun p => expired_at now m p = false) (entries m) /\ heap m' = heap m /\
  (forall i e, (i, e) ∈ expired <->
     object m i = Some e /\ (exists sid, (sid, i) ∈ entries m) /\ is_expired observed_retention terminal_ttl now e = true) /\
  (forall sid i e, (sid, i) ∈ entries m -> object m i = Some e -> exited e = false -> (sid, i) ∈ entries m').
Proof.
  intros Hm. unfold cleanup_expired.
  set (expired := filter _ (managed m)).
  assert (Hin : forall i e, (i, e) ∈ expired <->
     object m i = Some e /\ (exists sid, (sid, i) ∈ entries m) /\ is_expired observed_retention terminal_ttl now e = true).
  { intros i e. subst expired. rewrite list_elem_of_filter. cbn [snd]. unfold managed. rewrite list_elem_of_omap. split.
    - intros (Hx & [sid j] & Hj & Hobj). cbn in Hobj. destruct (object m j) eqn:Ej; [|done]. simplify_eq. eauto.
    - intros (Hobj & [sid Hs] & Hx). split; [done|]. exists (sid, i). cbn. by rewrite Hobj. }
  destruct (drops_entries expired m) as [Hh Hent].
  assert (Hent' : entries (foldl (fun m ie => drop_entry (h_session_id (handle ie.2)) m) m expired) =
    filter (fun p => expired_at now m p = false) (entries m)).
  { rewrite Hent. apply filter_iff_elem. intros [sid i] Hp. cbn [fst].
    destruct (inv_objects _ _ _ Hm sid i Hp) as (e & He & Hsid). unfold expired_at. cbn [snd]. rewrite He.
    rewrite <-not_true_iff_false. apply not_iff_compat. split.
    - intros Hx. apply list_elem_of_fmap in Hx as ([j x] & Hjx & Hj). cbn in Hjx. apply Hin in Hj as (Hx & [sid' Hs] & Hexp).
      destruct (inv_objects _ _ _ Hm sid' j Hs) as (x' & Hx' & Hsid'). simplify_eq.
      assert (i = j) as ->; [|by simplify_eq].
      pose proof (assoc_get_of_elem _ _ _ (inv_table _ _ _ Hm) Hp). pose proof (assoc_get_of_elem _ _ _ (inv_table _ _ _ Hm) Hs).
      congruence.
    - intros Hx. apply list_elem_of_fmap. exists (i, e). split; [done|]. apply Hin. eauto. }
  split_and!; [done|done|done|].
  intros sid i e Hp He Hex. rewrite Hent'. apply list_elem_of_filter. split; [|done]. unfold expired_at. cbn [snd].
  rewrite He. unfold is_expired. by rewrite Hex.
Qed.
End Retention.

(** ** Input *)

Section Input.
Context `{Calls}.

(** [_write_input_bounded] refuses a chunk of more than 64 KiB, and one that
    would take the session past 1 MiB, before anything is sent; and where the
    port confirms at most the bytes it was given and nobody else writes to the
    session meanwhile, the bytes counted for the session never pass 1 MiB,
    whether the call returns or raises. *)
Theorem write_input_within_bounds i e sid chars m : object m i = Some e ->
  (forall s, match port_write_input (port e) sid chars s with
     | (Ok n, s') => n <= utf8_len chars /\ input_bytes <$> object s' i = input_bytes <$> object s i
     | (Raise _, s') => input_bytes <$> object s' i = input_bytes <$> object s i
     end) ->
  (input_bytes e <= MAX_PROCESS_SESSION_INPUT_BYTES ->
   exists n, input_bytes <$> object (write_input_bounded i sid chars None m).2 i = Some n /\
             n <= MAX_PROCESS_SESSION_INPUT_BYTES) /\
  (MAX_PROCESS_INPUT_BYTES < utf8_len chars \/ MAX_PROCESS_SESSION_INPUT_BYTES < input_bytes e + utf8_len chars ->
   is_ok (write_input_bounded i sid chars None m).1 = false /\ (write_input_bounded i sid chars None m).2 = m).
Proof.
  intros He Hport. unfold write_input_bounded, mbind, stm_bind, validated_input_byte_count.
  rewrite He. destruct (MAX_PROCESS_INPUT_BYTES <? _) eqn:E1; zbool.
  { split; [|done]. intros Hb. exists (input_bytes e). cbn. by rewrite He. }
  destruct (MAX_PROCESS_SESSION_INPUT_BYTES <? _) eqn:E2; zbool.
  { split; [|done]. intros Hb. exists (input_bytes e). cbn. by rewrite He. }
  split; [|lia]. intros Hb. cbn. rewrite He. specialize (Hport m). rewrite He in Hport.
  destruct (port_write_input _ _ _ m) as [[n|x] s']; cbn in *.
  - destruct Hport as [Hn Hs]. destruct (object s' i) as [e'|] eqn:He'; [|done]. cbn in Hs. injection Hs as Hs.
    exists (input_bytes e + Z.max 0 n).
    assert (Ho : input_bytes <$> object (update i (fun e => set_input (input_bytes e + Z.max 0 n) e) s') i =
      Some (input_bytes e + Z.max 0 n)).
    { rewrite object_update, decide_True, He' by done. cbn. by rewrite Hs. }
    split; [|pose proof (utf8_len_nonneg chars); lia]. by destruct (n =? utf8_len chars).
  - exists (input_bytes e). by rewrite Hport.
Qed.
End Input.

(** ** Every run *)

(** C9: Whatever operations run, and whatever the operations of other threads
    and the ports' answers between their sections: the table holds at most
    [max_sessions] entries, under distinct identifiers, each its own session's;
    the port of each is retained; every event is of an entry that was published
    when it was emitted; and no process is reported completed twice. *)
Theorem manager_invariant (max_sessions observed_retention terminal_ttl : Z) (C : Calls) ops :
  0 <= max_sessions -> Interleaved max_sessions observed_retention terminal_ttl C ->
  let m := run_ops max_sessions observed_retention terminal_ttl ops new_manager in
  len (entries m) <= max_sessions /\ NoDup (entries m).*1 /\
  (forall sid i, (sid, i) ∈ entries m ->
     exists e, object m i = Some e /\ h_session_id (handle e) = sid /\ port e ∈ ports m) /\
  (forall v, v ∈ events m -> published (e_entry v) = true) /\
  (forall i, tally (is_completion i) (events m) <= 1).
Proof.
  intros Hmax HC m. assert (Hm : Inv max_sessions [] m).
  { apply keeps_ops; [by apply interleaved_laws with observed_retention terminal_ttl|]. exists []. by apply inv_new. }
  destruct Hm as [ts Hm]. cbn [app] in Hm. split_and!.
  - pose proof (inv_capacity _ _ _ Hm). pose proof (tally_nonneg is_reserved ts). lia.
  - apply Hm.
  - intros sid i Hin. destruct (inv_objects _ _ _ Hm sid i Hin) as (e & He & Hs). exists e. split_and!; [done|done|].
    by eapply inv_ports.
  - intros v Hv. by apply (inv_events _ _ _ Hm).
  - intros i. pose proof (inv_completed _ _ _ Hm i). pose proof (tally_nonneg (completes i) ts). lia.
Qed.

(** ** A manager that runs *)

Definition sample_snapshot (st : ProcessState) : ProcessSnapshot :=
  {| s_session_id := $"proc-1"; state := st; stream_mode := PTY; backend := $"local"; stdout := $"ok"; stderr := [];
     cursor := {| stdout_offset := 2; stderr_offset := 0 |}; exit_code := None; termination_reason := None;
     started_at := 10; finished_at := None; runtime_timeout_seconds := 60; output_truncated := false;
     output_decode_replaced := false; total_stdout_bytes := 2; total_stderr_bytes := 0 |}.

Definition sample_launch : Launch :=
  {| l_port := 7; l_command := $"make"; l_cwd := $"/w"; l_agent := $"a"; l_owner := Some $"s"; l_generation := 1;
     l_turn := None |}.

Definition sample_access : Access := {| agent := $"a"; owner := Some $"s"; generation := 1 |}.

(** A port whose process runs until it was published and then exits, and
    threads that do nothing else. *)
Definition quiet_calls : Calls := {|
  port_start _ := fun m => (Ok {| h_session_id := $"proc-1"; h_stream_mode := PTY |}, m);
  port_poll _ _ _ := fun m => (Ok (sample_snapshot (if decide (events m = []) then RUNNING else EXITED)), m);
  port_write_input _ _ t := fun m => (Ok (utf8_len t), m);
  port_resize _ _ := fun m => (Ok (), m);
  port_interrupt _ _ := fun m => (Ok (), m);
  port_terminate _ _ _ := fun m => (Ok (Confirmed (sample_snapshot EXITED)), m);
  port_release _ _ := fun m => (Ok (), m);
  port_shutdown _ := fun m => (Ok {| total := 0; already_exited := 0; r_interrupted := 0; terminated := 0; unknown := 0; reap_timeouts := 0 |}, m);
  event_sink _ := fun m => (Ok (), m);
  acquire_consumer _ _ := fun m => (Ok (), m);
  acquire_input _ := fun m => (Ok (), m);
  create_watcher _ := fun m => (Ok (), m);
  await_starts := fun m => (Ok (), m);
  join_watchers := fun m => (Ok (), m);
|}.

(** The same with an interface that, told of an event, asks for the process
    and publishes it again. *)
Definition busy_calls : Calls := {|
  port_start := @port_start quiet_calls;
  port_poll := @port_poll quiet_calls;
  port_write_input := @port_write_input quiet_calls;
  port_resize := @port_resize quiet_calls;
  port_interrupt := @port_interrupt quiet_calls;
  port_terminate := @port_terminate quiet_calls;
  port_release := @port_release quiet_calls;
  port_shutdown := @port_shutdown quiet_calls;
  event_sink _ := fun m =>
    (Ok (), @run_ops quiet_calls 2 30 600
              [OpPoll $"proc-1" $"ui" sample_access 5 true None; OpPublish $"proc-1" true 6] m);
  acquire_consumer := @acquire_consumer quiet_calls;
  acquire_input := @acquire_input quiet_calls;
  create_watcher := @create_watcher quiet_calls;
  await_starts := @await_starts quiet_calls;
  join_watchers := @join_watchers quiet_calls;
|}.

Lemma quiet_others o m m' :
  others 2 30 600 (@run_op quiet_calls 2 30 600 o m).2 m' -> others 2 30 600 m m'.
Proof. intros Ho. eapply (others_run _ _ _ quiet_calls o); try (intros; apply others_none). exact Ho. Qed.

#[export] Instance busy_interleaved : Interleaved 2 30 600 busy_calls.
Proof.
  split; intros; try apply others_none. cbn [event_sink busy_calls snd run_ops].
  apply (quiet_others (OpPoll $"proc-1" $"ui" sample_access 5 true None)).
  apply (quiet_others (OpPublish $"proc-1" true 6)). apply others_none.
Qed.

Definition sample_ops : list Operation :=
  [OpStart 1 sample_launch; OpPublish $"proc-1" false 2;
   OpWatch 3 0 $"proc-1" (fun _ => 3) start_cursor; OpPublish $"proc-1" true 4].

Definition sample_run : Manager := @run_ops busy_calls 2 30 600 sample_ops new_manager.

(** The entry of the run, and a manager that holds it alone. *)
Definition sample_entry : Entry := default (new_entry 1 sample_launch {| h_session_id := $"proc-1"; h_stream_mode := PTY |} (sample_snapshot RUNNING)) (object sample_run 0).

Example sample_run_events : map e_kind (events sample_run) =
  [PUBLISHED; PUBLISHED; COMPLETED; OUTPUT; PUBLISHED; PUBLISHED; PUBLISHED].
Proof. vm_compute. reflexivity. Qed.

Definition witness_entry : Entry := new_entry 1 sample_launch {| h_session_id := $"proc-1"; h_stream_mode := PTY |} (sample_snapshot EXITED).

(** One session, exited, seen by nobody. *)
Definition witness_manager : Manager :=
  {| heap := [(0, witness_entry)]; entries := [($"proc-1", 0)]; ports := [7]; starting_ports := []; closing := false;
     starting := 0; events := [] |}.

Definition stranger : Access := {| agent := $"b"; owner := Some $"s"; generation := 2 |}.

Lemma witness_inv : inv 2 [] witness_manager.
Proof.
  split; try done; cbn.
  1: apply NoDup_singleton.
  1: intros sid i Hin. apply list_elem_of_singleton in Hin. simplify_eq. by exists witness_entry.
  1: intros sid i e Hin He. apply list_elem_of_singleton in Hin. simplify_eq. vm_compute in He. injection He as <-. by left.
  all: intros; cbn in *; try set_solver; by case_decide.
Qed.

Lemma manager_invariant_witness :
  map e_kind (events sample_run) = [PUBLISHED; PUBLISHED; COMPLETED; OUTPUT; PUBLISHED; PUBLISHED; PUBLISHED] /\
  len (entries sample_run) <= 2.
Proof.
  split; [vm_compute; reflexivity|].
  exact (proj1 (manager_invariant 2 30 600 busy_calls sample_ops ltac:(lia) busy_interleaved)).
Defined.

Lemma access_denied_changes_nothing_witness :
  can_access stranger witness_entry = false /\
  refused $"proc-1" (@poll quiet_calls $"proc-1" $"ui" stranger 5 true None) witness_manager.
Proof.
  split; [vm_compute; reflexivity|].
  exact (proj1 (@access_denied_changes_nothing quiet_calls $"proc-1" 0 witness_entry $"ui" stranger 5 witness_manager
    eq_refl eq_refl eq_refl)).
Defined.

Lemma cleanup_removes_exactly_expired_witness :
  entries (cleanup_expired 30 600 700 witness_manager).2 = [] /\
  entries (cleanup_expired 30 600 600 witness_manager).2 = entries witness_manager /\
  entries (cleanup_expired 30 600 700 witness_manager).2 =
    filter (fun p => expired_at 30 600 700 witness_manager p = false) (entries witness_manager).
Proof.
  split; [vm_compute; reflexivity|]. split; [vm_compute; reflexivity|].
  exact (proj1 (cleanup_removes_exactly_expired 2 30 600 [] 700 witness_manager witness_inv)).
Defined.

Lemma write_input_within_bounds_witness :
  exists n, input_bytes <$> object (@write_input_bounded quiet_calls 0 $"proc-1" $"yes" None witness_manager).2 0 = Some n /\
            n <= MAX_PROCESS_SESSION_INPUT_BYTES.
Proof.
  refine (proj1 (@write_input_within_bounds quiet_calls 0 witness_entry $"proc-1" $"yes" witness_manager eq_refl _) _).
  - intros s. split; [apply Z.le_refl|reflexivity].
  - vm_compute. discriminate.
Defined.
