(* ===== verification/AgentLoop.v ===== *)
(** * The agent loop (domain/agent/loop.py)

    One turn of the agent: requests to the model alternate with the execution
    of the tools it calls, within budgets of rounds, tokens and tool calls, and
    an interrupted request is dispatched again.  The loop is written against
    [LoopPort], the operations it uses of the agent, of the provider's client
    and of the tool executor.  What those do to the model's history is stated
    by [LoopPortLaws]; steering, repair and replay are modelled in their own
    files.

    The request passes the client in three steps, which are the points where
    the loop's own budget hook runs: the registered transforms, the deferred
    dispatch callbacks, and the exchange with the provider.  The recursion of
    interrupted requests is bounded by fuel.  Events are collected as
    [LoopEvent]; phases of the user interface are left out. *)

From S2P Require Import Prelude PyValue Json Lines ToolHistory ContextMessages Sanitizer Ledger Workspace Replay Hoare Models.
From S2P Require ImageProjection.

(** ** Requests *)

(** What the hooks see of a request. *)
Record RequestContext := {
  c_messages : list message;
  c_tools : option (list pydict);
  c_max_tokens : option Z;
}.

Definition with_messages (l : list message) (c : RequestContext) : RequestContext :=
  {| c_messages := l; c_tools := c_tools c; c_max_tokens := c_max_tokens c |}.
Definition with_max_tokens (n : Z) (c : RequestContext) : RequestContext :=
  {| c_messages := c_messages c; c_tools := c_tools c; c_max_tokens := Some n |}.

(** A step of the client, which a cancellation may end. *)
Inductive Step (A : Type) := Go (a : A) | StepCancelled.
Arguments Go {A} a.
Arguments StepCancelled {A}.

(** The end of an exchange, and what was streamed before it. *)
Record Exchange := {
  x_response : option LLMResponse;
  x_streamed_output : bool;
  x_streamed_reasoning : bool;
}.

Record LoopConfig := {
  max_rounds : nat;
  max_total_tokens : option Z;
  max_tool_calls : option Z;
  llm_max_tokens : Z;
  llm_model : pystr;
  supports_images : bool;
  display_mode : pystr;
}.

(** ** What the loop uses of the agent *)

Class LoopPort (W : Type) := {
  state_messages : W -> list message;
  flush_runtime_issues : stm W bool;
  seal_startup_capabilities : stm W ();
  stop_requested : stm W bool;
  round_interrupt_epoch : stm W Z;
  next_request_attempt_id : Z -> stm W pystr;
  drain_user_steering : pystr -> stm W ();
  has_user_steering : stm W bool;
  has_subagent_activity : stm W bool;
  inject_completed_subagent_jobs : stm W ();
  flush_pending_subagent_injections : stm W ();
  maybe_compress_context : pystr -> stm W ();
  append_message : message -> pystr -> pydict -> stm W ();
  external_messages : stm W (list pystr);
  recover_control_plane : stm W bool;
  full_messages : stm W (list message);
  tool_schemas : stm W (list pydict);
  restored_replay_envelope : W -> option ReplayEnvelope;
  estimate_request_tokens : W -> list message -> option (list pydict) -> Z;
  context_tokens : W -> Z;
  image_notice_turn : W -> pystr;
  ledger_append : pystr -> pydict -> option pystr -> stm W ();
  observe_usage : LLMResponse -> Z -> Z -> pystr -> stm W ();
  record_dispatched_request_envelope : list message -> list pydict -> pystr -> stm W ();
  image_attempts : W -> list pydict;
  park_request : W -> option pystr;
  run_transforms : RequestContext -> stm W (Step RequestContext);
  commit_dispatch_callbacks : RequestContext -> stm W (Step (option RequestContext));
  exchange : RequestContext -> stm W Exchange;
  execute : ToolCall -> Z -> stm W pyval;
  execute_parallel : list ToolCall -> Z -> stm W (list pyval);
}.

Inductive LoopEvent :=
| ToolCallStart (id name : pystr) (args : pydict)
| StreamInterrupted (attempt_id : pystr) (interrupt_epoch : Z)
| ImagesWithheld (count : Z) (model : pystr).

Record LoopState := {
  total_prompt_tokens : Z;
  total_completion_tokens : Z;
  current_round : Z;
  total_tool_calls : Z;
  total_model_calls : Z;
  last_reasoning_content : option pystr;
  last_response_streamed : bool;
  round_limit_reached : bool;
  image_omission_notice_key : option (pystr * pystr);
  emitted : list LoopEvent;
  sent : list (RequestContext * Z);
}.

Definition set_tokens (p c : Z) (s : LoopState) : LoopState :=
  {| total_prompt_tokens := p; total_completion_tokens := c; current_round := current_round s;
     total_tool_calls := total_tool_calls s; total_model_calls := total_model_calls s;
     last_reasoning_content := last_reasoning_content s; last_response_streamed := last_response_streamed s;
     round_limit_reached := round_limit_reached s; image_omission_notice_key := image_omission_notice_key s;
     emitted := emitted s; sent := sent s |}.

Definition set_counts (round tools calls : Z) (s : LoopState) : LoopState :=
  {| total_prompt_tokens := total_prompt_tokens s; total_completion_tokens := total_completion_tokens s;
     current_round := round; total_tool_calls := tools; total_model_calls := calls;
     last_reasoning_content := last_reasoning_content s; last_response_streamed := last_response_streamed s;
     round_limit_reached := round_limit_reached s; image_omission_notice_key := image_omission_notice_key s;
     emitted := emitted s; sent := sent s |}.

Definition set_flags (reasoning : option pystr) (streamed limit : bool) (key : option (pystr * pystr))
    (s : LoopState) : LoopState :=
  {| total_prompt_tokens := total_prompt_tokens s; total_completion_tokens := total_completion_tokens s;
     current_round := current_round s; total_tool_calls := total_tool_calls s;
     total_model_calls := total_model_calls s; last_reasoning_content := reasoning;
     last_response_streamed := streamed; round_limit_reached := limit; image_omission_notice_key := key;
     emitted := emitted s; sent := sent s |}.

(** Events emitted, and requests handed to the provider with the estimate made
    of them. *)
Definition set_outputs (ev : list LoopEvent) (rq : list (RequestContext * Z)) (s : LoopState) : LoopState :=
  {| total_prompt_tokens := total_prompt_tokens s; total_completion_tokens := total_completion_tokens s;
     current_round := current_round s; total_tool_calls := total_tool_calls s;
     total_model_calls := total_model_calls s; last_reasoning_content := last_reasoning_content s;
     last_response_streamed := last_response_streamed s; round_limit_reached := round_limit_reached s;
     image_omission_notice_key := image_omission_notice_key s; emitted := ev; sent := rq |}.

Definition add_model_call (n : Z) (s : LoopState) : LoopState :=
  set_counts (current_round s) (total_tool_calls s) (total_model_calls s + n) s.
Definition add_tool_calls (n : Z) (s : LoopState) : LoopState :=
  set_counts (current_round s) (total_tool_calls s + n) (total_model_calls s) s.
Definition set_round (n : Z) (s : LoopState) : LoopState :=
  set_counts n (total_tool_calls s) (total_model_calls s) s.
Definition emit (e : LoopEvent) (s : LoopState) : LoopState := set_outputs (emitted s ++ [e]) (sent s) s.
Definition set_streamed (b : bool) (s : LoopState) : LoopState :=
  set_flags (last_reasoning_content s) b (round_limit_reached s) (image_omission_notice_key s) s.
Definition set_limit (b : bool) (s : LoopState) : LoopState :=
  set_flags (last_reasoning_content s) (last_response_streamed s) b (image_omission_notice_key s) s.

(** The exceptions the loop raises. *)
Definition LLMRequestCancelled : exn := OtherError $"LLMRequestCancelled".
Definition violation_text : pystr :=
  $"dispatch callback marked the request as reduced, but its token estimate increased".
Definition DispatchPayloadContractViolation : exn := OtherError violation_text.

Section Loop.
Context {W : Type} `{LoopPort W} `{Unicode} `{TextDigest} (cfg : LoopConfig).

Abbreviation LM := (stm (LoopState * W)).

(** A call of the agent, and a change of the loop's own state. *)
Definition port {A} (m : stm W A) : LM A := fun '(s, w) => let '(r, w) := m w in (r, (s, w)).
Definition look {A} (f : LoopState -> W -> A) : LM A := fun '(s, w) => (Ok (f s w), (s, w)).
Definition change (f : LoopState -> LoopState) : LM () := fun '(s, w) => (Ok (), (f s, w)).
Definition lift {A} (r : result A) : LM A := st_lift r.

(** [self.agent.history_ledger.append] of an attempt. *)
Definition record (k : pystr) (p : pydict) (attempt : pystr) : LM () := port (ledger_append k p (Some attempt)).

Definition phase_fields (summary : bool) : pydict :=
  if summary then [($"summary_phase", VBool true)] else [].

(** ** The token budget *)

(** [_FinalRequestBudget]. *)
Record FinalBudget := {
  preliminary : option Z;
  requested_ceiling : option Z;
  local_request_estimate : option Z;
}.

Definition new_budget (p : option Z) : FinalBudget :=
  {| preliminary := p; requested_ceiling := None; local_request_estimate := None |}.

(** What is left for the answer after the request. *)
Definition remaining (limit estimate : Z) (s : LoopState) : Z :=
  limit - total_prompt_tokens s - total_completion_tokens s - estimate.

Definition refresh_estimate (c : RequestContext) : LM (Z * RequestContext) :=
  messages ← lift (normalize_provider_message_roles (c_messages c));
  n ← look (fun _ w => estimate_request_tokens w messages (c_tools c));
  mret (n, with_messages messages c).

Inductive Budgeted := Within (b : FinalBudget) (c : RequestContext) | Exhausted | Violated.

(** [_FinalRequestBudget.apply]. *)
Definition budget_apply (b : FinalBudget) (c : RequestContext) : LM Budgeted :=
  nc ← refresh_estimate c;
  let '(n, c) := nc in
  let b := {| preliminary := preliminary b; requested_ceiling := requested_ceiling b;
              local_request_estimate := Some n |} in
  match max_total_tokens cfg with
  | None => mret (Within b c)
  | Some limit =>
    left ← look (fun s _ => remaining limit n s);
    if left <=? 0 then mret Exhausted
    else
      let limit := if bool_decide (c_max_tokens c = preliminary b) then Some (llm_max_tokens cfg)
                   else c_max_tokens c in
      let requested := match limit with None => left | Some n => Z.max 1 n end in
      mret (Within {| preliminary := preliminary b; requested_ceiling := Some requested;
                      local_request_estimate := Some n |}
              (with_max_tokens (Z.min requested left) c))
  end.

(** [_FinalRequestBudget.refresh_after_dispatch]. *)
Definition refresh_after_dispatch (b : FinalBudget) (c : RequestContext) : LM Budgeted :=
  let previous := local_request_estimate b in
  nc ← refresh_estimate c;
  let '(n, c) := nc in
  let b := {| preliminary := preliminary b; requested_ceiling := requested_ceiling b;
              local_request_estimate := Some n |} in
  if match previous with Some p => p <? n | None => false end
  then mret Violated
  else match max_total_tokens cfg, requested_ceiling b with
  | Some limit, Some ceiling =>
    left ← look (fun s _ => remaining limit n s);
    if left <=? 0 then mret Exhausted else mret (Within b (with_max_tokens (Z.min ceiling left) c))
  | _, _ => mret (Within b c)
  end.

(** ** One exchange with the client *)

Inductive ChatEnd :=
| Responded (r : LLMResponse) (streamed : bool) (b : FinalBudget)
| Cancelled (streamed : bool)
| OverBudget
| Violation.

(** The exchange itself; the estimate is the budget's. *)
Definition send_request (b : FinalBudget) (c : RequestContext) : LM ChatEnd :=
  _ ← change (fun s => set_outputs (emitted s) (sent s ++ [(c, default 0 (local_request_estimate b))]) s);
  x ← port (exchange c);
  mret (match x_response x with
        | Some r => Responded r (x_streamed_output x) b
        | None => Cancelled (x_streamed_output x || x_streamed_reasoning x)
        end).

(** [llm.chat] with the budgeting hook registry; a cancellation before the
    exchange has streamed nothing. *)
Definition chat (messages : list message) (tools : list pydict) (max_output : option Z) : LM ChatEnd :=
  let context := {| c_messages := messages; c_tools := match tools with [] => None | _ => Some tools end;
                    c_max_tokens := Some match max_output with Some n => Z.max 1 n
                                                             | None => llm_max_tokens cfg end |} in
  transformed ← port (run_transforms context);
  match transformed with
  | StepCancelled => mret (Cancelled false)
  | Go c =>
    applied ← budget_apply (new_budget max_output) c;
    match applied with
    | Exhausted => mret OverBudget
    | Violated => mret Violation
    | Within b c =>
      committed ← port (commit_dispatch_callbacks c);
      match committed with
      | StepCancelled => mret (Cancelled false)
      | Go None => send_request b c
      | Go (Some c) =>
        refreshed ← refresh_after_dispatch b c;
        match refreshed with
        | Exhausted => mret OverBudget
        | Violated => mret Violation
        | Within b c => send_request b c
        end
      end
    end
  end.

(** ** Attempts *)

(** [_record_image_traffic]. *)
Definition traffic_bytes (l : list pydict) : Z :=
  foldl (fun n d => match dget_or d $"image_base64_bytes" (VInt 0) with VInt k => n + k | _ => n end) 0 l.

Definition record_image_traffic (attempt : pystr) : LM () :=
  l ← look (fun _ w => image_attempts w);
  if existsb (fun d => truthy (dget_none d $"image_count") || truthy (dget_none d $"degradation_level")) l then
    record $"image_payload_observed"
      [ ($"attempt_id", VStr attempt); ($"attempts", VList (map VDict l));
        ($"image_base64_bytes", VInt (traffic_bytes l));
        ($"measurement", VStr $"base64 payload bytes across provider attempts; not network wire bytes") ]
      attempt
  else mret ().

Definition interrupt_text : pystr :=
  join [10] [ $"<request_interrupted>";
              $"The preceding assistant response was interrupted before completion.";
              $"Treat it as incomplete and follow the user's latest direction.";
              $"</request_interrupted>" ].

(** [_record_request_interrupt_marker]. *)
Definition record_interrupt_marker (attempt : pystr) (epoch : Z) : LM () :=
  marker ← lift (mark_synthetic_user_message interrupt_text $"request_interrupted" $"interrupt_marker");
  port (append_message marker $"interrupt_marker"
          [($"attempt_id", VStr attempt); ($"interrupt_epoch", VInt epoch)]).

(** The preliminary limit of the answer. *)
Definition max_output_tokens (estimate : Z) (s : LoopState) : option Z :=
  match max_total_tokens cfg with
  | None => None
  | Some limit => Some (Z.min (llm_max_tokens cfg) (Z.max 1 (remaining limit estimate s)))
  end.

(** The restored request's tools, when they are the same as today's. *)
Definition request_tools (tools : list pydict) : LM (list pydict) :=
  restored ← look (fun _ w => restored_replay_envelope w);
  match restored with
  | None => mret tools
  | Some e =>
    valid ← lift (validate e);
    if negb (valid : bool) then mret tools
    else
      h ← lift (content_hash (dicts tools));
      h' ← lift (content_hash (dicts (Replay.tools e)));
      mret (if bool_decide (h = h') then Replay.tools e else tools)
  end.

(** The notice that a model without images does not see them, once per turn
    and model. *)
Definition notice_withheld_images (messages : list message) : LM () :=
  turn ← look (fun _ w => image_notice_turn w);
  change (fun s =>
    let key := (turn, llm_model cfg) in
    let n := len (ImageProjection.image_parts messages) in
    if negb (n =? 0) && negb (supports_images cfg) && negb (bool_decide (image_omission_notice_key s = Some key))
    then emit (ImagesWithheld n (llm_model cfg))
           (set_flags (last_reasoning_content s) (last_response_streamed s) (round_limit_reached s) (Some key) s)
    else s).

Inductive Handled := Got (r : LLMResponse) (streamed : bool) (b : FinalBudget) | NoBudget | Retry.

Definition rejected (attempt : pystr) (round : Z) (summary : bool) (extra : pydict) : LM () :=
  _ ← change (add_model_call (-1));
  record $"request_attempt_rejected"
    ([($"attempt_id", VStr attempt); ($"round_index", VInt round)] ++ phase_fields summary ++ extra) attempt.

(** [except] clauses and [else] of one attempt. *)
Definition handle_end (attempt : pystr) (round baseline : Z) (summary : bool) (e : ChatEnd) : LM Handled :=
  match e with
  | Responded r streamed b => mret (Got r streamed b)
  | OverBudget =>
    _ ← rejected attempt round summary [($"reason", VStr $"token_budget_exhausted")];
    mret NoBudget
  | Violation =>
    _ ← rejected attempt round summary
          [($"reason", VStr $"dispatch_payload_contract_violation"); ($"error", VStr violation_text)];
    lift (Raise DispatchPayloadContractViolation)
  | Cancelled streamed =>
    epoch ← port round_interrupt_epoch;
    _ ← record $"request_attempt_cancelled"
          ([($"attempt_id", VStr attempt); ($"round_index", VInt round)] ++ phase_fields summary
           ++ [($"interrupt_epoch", VInt epoch)]) attempt;
    stop ← port stop_requested;
    if (stop : bool) || (epoch <=? baseline) then lift (Raise LLMRequestCancelled)
    else
      _ ← (if streamed : bool then
             _ ← change (emit (StreamInterrupted attempt epoch));
             record_interrupt_marker attempt epoch
           else mret ());
      mret Retry
  end.

(** [try: chat ... except ... finally: record image traffic]. *)
Definition guarded_chat (attempt : pystr) (round baseline : Z) (summary : bool)
    (messages : list message) (tools : list pydict) (max_output : option Z) : LM Handled :=
  st_finally
    (_ ← (if summary then mret () else notice_withheld_images messages);
     _ ← change (add_model_call 1);
     e ← chat messages tools max_output;
     handle_end attempt round baseline summary e)
    (record_image_traffic attempt).

Record Settled := {
  resp : LLMResponse;
  streamed_output : bool;
  request_estimate : Z;
  history_estimate : Z;
  attempt_id : pystr;
  baseline_epoch : Z;
}.

Inductive Dispatched := Answered (d : Settled) | BudgetExhausted | OutOfFuel.

Definition dispatched_payload (attempt : pystr) (round baseline : Z) (summary : bool) : pydict :=
  [($"attempt_id", VStr attempt); ($"round_index", VInt round)] ++ phase_fields summary
  ++ [($"interrupt_epoch_baseline", VInt baseline)].

(** One attempt of a round, [None] to try again. *)
Definition round_attempt (round : Z) : LM (option Dispatched) :=
  attempt ← port (next_request_attempt_id round);
  _ ← port (drain_user_steering attempt);
  _ ← port inject_completed_subagent_jobs;
  recovered ← port recover_control_plane;
  if negb (recovered : bool)
  then lift (Raise (OtherError $"Control state persistence is unavailable; refusing to issue another model request until ledger recovery can be saved."))
  else
  request_messages ← port full_messages;
  schemas ← port tool_schemas;
  tools ← request_tools schemas;
  estimate ← look (fun _ w => estimate_request_tokens w request_messages (Some tools));
  history ← look (fun _ w => context_tokens w);
  max_output ← look (fun s _ => max_output_tokens estimate s);
  baseline ← port round_interrupt_epoch;
  _ ← record $"request_attempt_dispatched" (dispatched_payload attempt round baseline false) attempt;
  h ← guarded_chat attempt round baseline false request_messages tools max_output;
  match h with
  | NoBudget => mret (Some BudgetExhausted)
  | Retry => mret None
  | Got r streamed b =>
    _ ← port (record_dispatched_request_envelope request_messages tools attempt);
    mret (Some (Answered {| resp := r; streamed_output := streamed;
                            request_estimate := default estimate (local_request_estimate b);
                            history_estimate := history; attempt_id := attempt; baseline_epoch := baseline |}))
  end.

(** [_dispatch_round_attempt]: an attempt interrupted for steering is followed
    by another. *)
Fixpoint dispatch_round_attempt (fuel : nat) (round : Z) : LM Dispatched :=
  match fuel with
  | O => mret OutOfFuel
  | S fuel =>
    d ← round_attempt round;
    match d with Some d => mret d | None => dispatch_round_attempt fuel round end
  end.

(** ** The run *)

Definition STOPPED : pystr := $"(stopped by cancellation request)".
Definition UNPUBLISHED : pystr := $"(stopped: runtime failure facts could not be published)".
Definition TOKENS_EXHAUSTED : pystr := $"(sub-agent token budget exhausted)".
Definition TOKENS_EXHAUSTED_BEFORE : pystr := $"(sub-agent token budget exhausted before request)".
Definition TOKENS_EXHAUSTED_HANDOFF : pystr := $"(sub-agent token budget exhausted before final handoff)".

Inductive Flow := Continue | Return (s : pystr) | Stuck.

(** [for external_message in message_source()]. *)
Fixpoint append_external (l : list pystr) : LM () :=
  match l with
  | [] => mret ()
  | t :: l =>
    m ← lift (synthetic_user_message $"inter_agent_message" (VStr t) $"parent_to_child_mailbox" [] true);
    _ ← port (append_message m $"parent_to_child" []);
    append_external l
  end.

Definition tool_message (id : pystr) (result : pyval) : message :=
  [($"role", VStr $"tool"); ($"tool_call_id", VStr id); ($"content", result)].

(** The answers of a list of calls, appended in order. *)
Fixpoint append_answers (source : pystr) (l : list (ToolCall * pyval)) : LM () :=
  match l with
  | [] => mret ()
  | (tc, result) :: l =>
    _ ← port (append_message (tool_message (tc_id tc) result) source []);
    append_answers source l
  end.

Definition tool_budget_text : pystr := $"Sub-agent tool-call budget exhausted; summarize current findings.".

Definition start_event (tc : ToolCall) : LoopEvent := ToolCallStart (tc_id tc) (tc_name tc) (arguments tc).

Fixpoint emit_starts (l : list ToolCall) : LM () :=
  match l with [] => mret () | tc :: l => _ ← change (emit (start_event tc)); emit_starts l end.

(** One call is executed alone, several in parallel. *)
Definition run_tools (calls : list ToolCall) (baseline : Z) : LM () :=
  match calls with
  | [tc] =>
    _ ← change (emit (start_event tc));
    result ← port (execute tc baseline);
    append_answers $"tool_result" [(tc, result)]
  | _ =>
    _ ← emit_starts calls;
    results ← port (execute_parallel calls baseline);
    append_answers $"tool_result" (zip calls results)
  end.

(** Bookkeeping of a settled attempt. *)
Definition usage_payload (r : LLMResponse) (d : Settled) : pydict :=
  [ ($"actual_prompt_tokens", VInt (prompt_tokens r));
    ($"cached_input_tokens", match cached_input_tokens r with Some n => VInt n | None => VNone end);
    ($"local_request_estimate", VInt (request_estimate d)); ($"local_history_estimate", VInt (history_estimate d));
    ($"request_boundary", VStr (attempt_id d)); ($"attempt_id", VStr (attempt_id d));
    ($"model_profile", VStr (llm_model cfg)) ].

Definition count_usage (d : Settled) : LM () :=
  let r := resp d in
  _ ← change (fun s => set_tokens (total_prompt_tokens s + prompt_tokens r)
                         (total_completion_tokens s + completion_tokens r) s);
  _ ← port (observe_usage r (request_estimate d) (history_estimate d) (attempt_id d));
  record $"usage_observed" (usage_payload r d) (attempt_id d).

Definition keep_reasoning (d : Settled) : LM () :=
  match reasoning_content (resp d) with
  | Some ((_ :: _) as t) =>
    _ ← change (fun s => set_flags (Some t) (last_response_streamed s) (round_limit_reached s)
                           (image_omission_notice_key s) s);
    record $"reasoning_metadata"
      [ ($"present", VBool true); ($"characters", VInt (len t)); ($"display_mode", VStr (display_mode cfg)) ]
      (attempt_id d)
  | _ => mret ()
  end.

(** An answer without tool calls ends the turn, unless something arrived. *)
Definition finish_answer (d : Settled) : LM Flow :=
  _ ← port (append_message (response_message (resp d)) $"assistant_response" []);
  steering ← port has_user_steering;
  if steering : bool then mret Continue
  else
    activity ← port has_subagent_activity;
    if activity : bool then _ ← port inject_completed_subagent_jobs; mret Continue
    else _ ← change (set_streamed (streamed_output d)); mret (Return (content (resp d))).

Definition over_tool_budget (n : Z) (s : LoopState) : bool :=
  match max_tool_calls cfg with Some limit => limit <? total_tool_calls s + n | None => false end.

Definition finish_tools (d : Settled) : LM Flow :=
  let calls := tool_calls (resp d) in
  _ ← port (append_message (response_message (resp d)) $"assistant_tool_calls" []);
  over ← look (fun s _ => over_tool_budget (len calls) s);
  if over : bool then
    _ ← append_answers $"tool_budget_result" (map (fun tc => (tc, VStr tool_budget_text)) calls);
    mret Continue
  else
    _ ← change (add_tool_calls (len calls));
    _ ← run_tools calls (baseline_epoch d);
    published ← port flush_runtime_issues;
    if negb (published : bool) then mret (Return UNPUBLISHED)
    else
      parked ← look (fun _ w => park_request w);
      match parked with
      | Some id => mret (Return ($"(sub-agent parked for guidance: " ++ id ++ $")"))
      | None =>
        _ ← port (maybe_compress_context $"post-tool checkpoint");
        _ ← port flush_pending_subagent_injections;
        _ ← port inject_completed_subagent_jobs;
        mret Continue
      end.

(** The budget test at the start of a round. *)
Definition tokens_spent (s : LoopState) : bool :=
  match max_total_tokens cfg with
  | Some limit => limit <=? total_prompt_tokens s + total_completion_tokens s
  | None => false
  end.

Definition round_body (fuel : nat) (round : Z) : LM Flow :=
  stop ← port stop_requested;
  if stop : bool then mret (Return STOPPED)
  else
    spent ← look (fun s _ => tokens_spent s);
    if spent : bool then mret (Return TOKENS_EXHAUSTED)
    else
      mail ← port external_messages;
      _ ← append_external mail;
      _ ← change (set_round round);
      a ← dispatch_round_attempt fuel round;
      match a with
      | OutOfFuel => mret Stuck
      | BudgetExhausted => mret (Return TOKENS_EXHAUSTED_BEFORE)
      | Answered d =>
        _ ← keep_reasoning d;
        _ ← count_usage d;
        match tool_calls (resp d) with [] => finish_answer d | _ => finish_tools d end
      end.

Fixpoint rounds (fuel : nat) (from : Z) (n : nat) : LM Flow :=
  match n with
  | O => mret Continue
  | S n =>
    f ← round_body fuel from;
    match f with Continue => rounds fuel (from + 1) n | _ => mret f end
  end.

(** ** The handoff after the last round *)

Definition summary_prompt : pystr :=
  $"Your working-round budget is exhausted. Stop working and do not call any tools. Return a concise handoff of the work already performed. Include: (1) completed findings or changes, (2) concrete evidence and relevant files, (3) incomplete items or blockers, and (4) the recommended next step. Do not discard partial results and do not claim unfinished work is complete.".

Definition summary_round : Z := Z.of_nat (max_rounds cfg).

Definition summary_attempt : LM (option Dispatched) :=
  attempt ← port (next_request_attempt_id summary_round);
  _ ← port (drain_user_steering attempt);
  full ← port full_messages;
  messages ← lift (normalize_provider_message_roles full);
  estimate ← look (fun _ w => estimate_request_tokens w messages None);
  history ← look (fun _ w => context_tokens w);
  max_output ← look (fun s _ => max_output_tokens estimate s);
  baseline ← port round_interrupt_epoch;
  _ ← record $"request_attempt_dispatched" (dispatched_payload attempt summary_round baseline true) attempt;
  h ← guarded_chat attempt summary_round baseline true messages [] max_output;
  match h with
  | NoBudget => mret (Some BudgetExhausted)
  | Retry => mret None
  | Got r streamed b =>
    _ ← port (record_dispatched_request_envelope messages [] attempt);
    mret (Some (Answered {| resp := r; streamed_output := streamed;
                            request_estimate := default estimate (local_request_estimate b);
                            history_estimate := history; attempt_id := attempt; baseline_epoch := baseline |}))
  end.

Fixpoint summary_attempts (fuel : nat) : LM Dispatched :=
  match fuel with
  | O => mret OutOfFuel
  | S fuel =>
    d ← summary_attempt;
    match d with Some d => mret d | None => summary_attempts fuel end
  end.

Definition final_handoff (fuel : nat) : LM Flow :=
  _ ← change (set_limit true);
  stop ← port stop_requested;
  if stop : bool then mret (Return STOPPED)
  else
    m ← lift (synthetic_user_message $"runtime_instruction" (VStr summary_prompt) $"max_round_handoff"
                [($"kind", VStr $"max_round_handoff")] true);
    _ ← port (append_message m $"max_round_summary_instruction" []);
    a ← summary_attempts fuel;
    match a with
    | OutOfFuel => mret Stuck
    | BudgetExhausted => mret (Return TOKENS_EXHAUSTED_HANDOFF)
    | Answered d =>
      _ ← change (set_streamed (streamed_output d));
      _ ← count_usage d;
      _ ← port (append_message (response_message (resp d)) $"assistant_summary" []);
      mret (Return (if decide (content (resp d) = []) then $"(reached maximum tool-call rounds)"
                    else content (resp d)))
    end.

(** [AgentLoop.run]; [Stuck] only when the fuel is used up. *)
Definition run (fuel : nat) : LM Flow :=
  _ ← change (set_limit false);
  _ ← port seal_startup_capabilities;
  published ← port flush_runtime_issues;
  if negb (published : bool) then mret (Return UNPUBLISHED)
  else
    stop ← port stop_requested;
    if stop : bool then mret (Return STOPPED)
    else
      _ ← port (maybe_compress_context $"pre-request checkpoint");
      f ← rounds fuel 0 (max_rounds cfg);
      match f with Continue => final_handoff fuel | _ => mret f end.
End Loop.

(** ** Triples of the loop's own operations *)

Section LoopRules.
Context {W : Type} `{LoopPort W} `{Unicode} `{TextDigest}.

(** A predicate on the loop's own state. *)
Definition on_state (J : LoopState -> Prop) (sw : LoopState * W) : Prop := J sw.1.

Lemma hoare_port {A} (J : LoopState -> Prop) (E : LoopState * W -> Prop) (m : stm W A) :
  (forall sw, on_state J sw -> E sw) -> hoare (on_state J) (port m) (fun _ => on_state J) E.
Proof. intros HE [s w] Hs. unfold port. destruct (m w) as [[a|x] w']; [exact Hs|by apply HE]. Qed.

Lemma keeps_port {A} (J : LoopState -> Prop) (m : stm W A) : keeps (on_state J) (on_state J) (port m).
Proof. by apply hoare_port. Qed.

Lemma hoare_look {A} (P : LoopState * W -> Prop) E (f : LoopState -> W -> A) :
  hoare P (look f) (fun a sw => P sw /\ a = f sw.1 sw.2) E.
Proof. by intros [s w] Hs. Qed.

Lemma keeps_look {A} (J E : LoopState * W -> Prop) (f : LoopState -> W -> A) : keeps J E (look f).
Proof. by intros [s w] Hs. Qed.

Lemma hoare_change (P Q E : LoopState * W -> Prop) f :
  (forall s w, P (s, w) -> Q (f s, w)) -> hoare P (change f) (fun _ => Q) E.
Proof. intros Hf [s w] Hs. by apply Hf. Qed.

Lemma keeps_change (J E : LoopState * W -> Prop) f :
  (forall s w, J (s, w) -> J (f s, w)) -> keeps J E (change f).
Proof. apply hoare_change. Qed.

Lemma keeps_alift {A} (J E : LoopState * W -> Prop) (r : result A) :
  (forall sw, J sw -> E sw) -> keeps J E (lift r).
Proof. apply keeps_result. Qed.
End LoopRules.

#[export] Hint Resolve keeps_port keeps_look keeps_alift : triple.

(** ** A scripted environment

    A concrete agent and provider, for examples: answers come from a script, an
    absent answer is a request interrupted after some output, once. *)

Record Scripted := {
  history : list message;
  script : list (option (pystr * list ToolCall));
  interrupted : bool;
}.

Definition scripted_append (m : message) (w : Scripted) : Scripted :=
  {| history := history w ++ [m]; script := script w; interrupted := interrupted w |}.

Definition scripted_estimate (messages : list message) : Z := 10 * len messages.

Definition scripted_answer (c : RequestContext) (text : pystr) (calls : list ToolCall) : Exchange :=
  {| x_response := Some {| content := text; reasoning_content := None; tool_calls := calls;
       prompt_tokens := scripted_estimate (c_messages c); completion_tokens := 1;
       cached_input_tokens := None; provider_data := None |};
     x_streamed_output := true; x_streamed_reasoning := false |}.

Definition named_calls (l : list ToolCall) : list ToolCall := filter (fun tc => strip (tc_id tc) <> []) l.

Definition scripted_exchange (c : RequestContext) (w : Scripted) : Exchange * Scripted :=
  match script w with
  | [] => (scripted_answer c $"done" [], w)
  | Some (text, calls) :: rest =>
    (scripted_answer c text (named_calls calls),
     {| history := history w; script := rest; interrupted := interrupted w |})
  | None :: rest =>
    if interrupted w
    then (scripted_answer c $"done" [], {| history := history w; script := rest; interrupted := true |})
    else ({| x_response := None; x_streamed_output := true; x_streamed_reasoning := false |},
          {| history := history w; script := rest; interrupted := true |})
  end.

Definition scripted_epoch (w : Scripted) : Z := if interrupted w then 1 else 0.

#[export] Instance scripted_port : LoopPort Scripted := {|
  state_messages := history;
  flush_runtime_issues := mret true;
  seal_startup_capabilities := mret ();
  stop_requested := mret false;
  round_interrupt_epoch w := (Ok (scripted_epoch w), w);
  next_request_attempt_id n := mret ($"r" ++ py_str (VInt n));
  drain_user_steering _ := mret ();
  has_user_steering := mret false;
  has_subagent_activity := mret false;
  inject_completed_subagent_jobs := mret ();
  flush_pending_subagent_injections := mret ();
  maybe_compress_context _ := mret ();
  append_message m _ _ w := (Ok (), scripted_append m w);
  external_messages := mret [];
  recover_control_plane := mret true;
  full_messages w := (Ok (history w), w);
  tool_schemas := mret [];
  restored_replay_envelope _ := None;
  estimate_request_tokens _ l _ := scripted_estimate l;
  context_tokens w := scripted_estimate (history w);
  image_notice_turn _ := $"t1";
  ledger_append _ _ _ := mret ();
  observe_usage _ _ _ _ := mret ();
  record_dispatched_request_envelope _ _ _ := mret ();
  image_attempts _ := [];
  park_request _ := None;
  run_transforms c := mret (Go c);
  commit_dispatch_callbacks _ := mret (Go None);
  exchange c w := let '(x, w) := scripted_exchange c w in (Ok x, w);
  execute _ _ := mret (VStr $"ok");
  execute_parallel l _ := mret (map (fun _ => VStr $"ok") l);
|}.

#[export] Instance plain_unicode : Unicode := {| nfc s := s |}.
#[export] Instance plain_digest : TextDigest := {| text_digest s := s |}.

Definition sample_config : LoopConfig :=
  {| max_rounds := 2; max_total_tokens := Some 1000; max_tool_calls := Some 3; llm_max_tokens := 50;
     llm_model := $"m"; supports_images := false; display_mode := $"off" |}.

Definition initial_loop : LoopState :=
  {| total_prompt_tokens := 0; total_completion_tokens := 0; current_round := 0; total_tool_calls := 0;
     total_model_calls := 0; last_reasoning_content := None; last_response_streamed := false;
     round_limit_reached := false; image_omission_notice_key := None; emitted := []; sent := [] |}.

Definition sample_call : ToolCall := {| tc_id := $"c1"; tc_name := $"read_file"; arguments := [] |}.

(** An interrupted request, a call, and an answer. *)
Definition sample_world : Scripted :=
  {| history := [[($"role", VStr $"user"); ($"content", VStr $"hi")]];
     script := [None; Some ([], [sample_call]); Some ($"all good", [])];
     interrupted := false |}.

Example sample_turn :
  let '(r, (s, w)) := run sample_config 3 (initial_loop, sample_world) in
  r = Ok (Return $"all good") /\ total_model_calls s = 3 /\ total_tool_calls s = 1 /\ len (sent s) = 3 /\
  len (history w) = 5.
Proof. by vm_compute. Qed.

(** Fuel for one attempt is not enough when it is interrupted. *)
Example sample_turn_stuck : (run sample_config 1 (initial_loop, sample_world)).1 = Ok Stuck.
Proof. by vm_compute. Qed.
