(* ===== verification/TurnBudget.v ===== *)
(** * The budgets of a turn (domain/agent/loop.py)

    The loop's accounting as an invariant of every path through [run]: tokens,
    requests handed to the provider, model calls and tool calls. *)

From S2P Require Import Prelude Lines ToolHistory ContextMessages Replay Hoare Models AgentLoop.

Section Budgets.
Context {W : Type} `{LoopPort W} `{Unicode} `{TextDigest} (cfg : LoopConfig) (limit : Z) (s0 : LoopState).
Hypothesis Hlimit : max_total_tokens cfg = Some limit.

Definition total (s : LoopState) : Z := total_prompt_tokens s + total_completion_tokens s.

(** A request the limit leaves room for: its estimate, and an answer of the
    length it asks for. *)
Definition fits_limit (rq : RequestContext * Z) : Prop :=
  exists n, c_max_tokens rq.1 = Some n /\ 1 <= n /\ total s0 + rq.2 + n <= limit.

(** The budgets since [s0]; [slack] counts model calls not yet sent. *)
Definition within_budgets (slack : Z) (s : LoopState) : Prop :=
  total s0 <= total s <= limit /\
  (exists new, sent s = sent s0 ++ new /\ Forall fits_limit new /\
     len new + slack <= total_model_calls s - total_model_calls s0) /\
  (forall n, max_tool_calls cfg = Some n -> total_tool_calls s0 <= n -> total_tool_calls s <= n).

(** What a settled answer adds stays within the limit. *)
Definition affordable (r : LLMResponse) (s : LoopState) : Prop :=
  0 <= prompt_tokens r /\ 0 <= completion_tokens r /\
  total s + prompt_tokens r + completion_tokens r <= limit.

(** The provider's accounting: a request costs no more than it was estimated
    at, and the answer is no longer than asked for. *)
Definition honest_provider : Prop := forall w w' c x r,
  (exchange c w).1 = Ok x -> x_response x = Some r ->
  0 <= prompt_tokens r <= estimate_request_tokens w' (c_messages c) (c_tools c) /\
  0 <= completion_tokens r /\ forall n, c_max_tokens c = Some n -> 1 <= n -> completion_tokens r <= n.

Definition planned (b : FinalBudget) (c : RequestContext) (s : LoopState) : Prop :=
  exists n e ceiling (w : W), c_max_tokens c = Some n /\ 1 <= n /\
    local_request_estimate b = Some e /\ e = estimate_request_tokens w (c_messages c) (c_tools c) /\
    total s + e + n <= limit /\ requested_ceiling b = Some ceiling /\ 1 <= ceiling.

Abbreviation I slack := (on_state (W := W) (within_budgets slack)).

Lemma within_slack a b s : b <= a -> within_budgets a s -> within_budgets b s.
Proof.
  intros Hab (Ht & (new & Hnew & Hf & Hn) & Htool). split; [done|]. split; [|done].
  exists new. split_and!; [done..|lia].
Qed.

(** A change of the state that touches none of the budgets. *)
Lemma within_same k (s s' : LoopState) :
  total s' = total s -> sent s' = sent s -> total_model_calls s' = total_model_calls s ->
  total_tool_calls s' = total_tool_calls s -> within_budgets k s -> within_budgets k s'.
Proof. unfold within_budgets. by intros -> -> -> ->. Qed.

Lemma refresh_estimate_spec (P : LoopState * W -> Prop) E c :
  (forall sw, P sw -> E sw) ->
  hoare P (refresh_estimate c) (fun nc sw => P sw /\ c_max_tokens nc.2 = c_max_tokens c /\
    exists w, nc.1 = estimate_request_tokens w (c_messages nc.2) (c_tools nc.2)) E.
Proof.
  intros HE. unfold refresh_estimate.
  apply (hoare_bind _ _ _ _ (fun _ => P)).
  { intros sw Hsw. unfold lift, st_lift. destruct (normalize_provider_message_roles _); auto. }
  intros l. eapply hoare_bind; [apply hoare_look|]. intros n. apply hoare_ret.
  intros [s w] [HP ->]. cbn. eauto.
Qed.

Definition budgeted (k : Z) (a : Budgeted) (sw : LoopState * W) : Prop :=
  within_budgets k sw.1 /\ match a with Within b c => planned b c sw.1 | _ => True end.

Lemma budget_apply_spec k b c : hoare (I k) (budget_apply cfg b c) (budgeted k) (I k).
Proof.
  unfold budget_apply. eapply hoare_bind; [by apply refresh_estimate_spec|]. intros [n c']. cbn [fst snd].
  rewrite Hlimit. eapply hoare_bind; [apply hoare_look|]. intros left. cbn beta.
  apply hoare_if; intros Hleft; apply hoare_ret; intros [s w] ((HI & Hmax & [w' Hw']) & Heq); [by split|].
  cbn [fst snd] in *. apply Z.leb_gt in Hleft. unfold remaining in Heq.
  split; [exact HI|]. set (requested := match _ with None => left | Some m => Z.max 1 m end).
  assert (1 <= requested) by (subst requested; case_match; lia).
  exists (Z.min requested left), n, requested, w'. cbn. unfold total. split_and!; try done; lia.
Qed.

Lemma refresh_after_dispatch_spec k b c ceiling :
  requested_ceiling b = Some ceiling -> 1 <= ceiling ->
  hoare (I k) (refresh_after_dispatch cfg b c) (budgeted k) (I k).
Proof.
  intros Hc Hpos. unfold refresh_after_dispatch.
  eapply hoare_bind; [by apply refresh_estimate_spec|]. intros [n c']. cbn [fst snd].
  apply hoare_if; intros _; [apply hoare_ret; intros [s w] (HI & _); by split|].
  cbn [requested_ceiling]. rewrite Hlimit, Hc.
  eapply hoare_bind; [apply hoare_look|]. intros left. cbn beta.
  apply hoare_if; intros Hleft; apply hoare_ret; intros [s w] ((HI & Hmax & [w' Hw']) & Heq); [by split|].
  cbn [fst snd] in *. apply Z.leb_gt in Hleft. unfold remaining in Heq.
  split; [exact HI|]. exists (Z.min ceiling left), n, ceiling, w'. cbn. unfold total. split_and!; try done; lia.
Qed.

(** An exchange that hands nothing over leaves its model call unspent. *)
Definition chat_ended (e : ChatEnd) (sw : LoopState * W) : Prop :=
  match e with
  | Responded r _ _ => within_budgets 0 sw.1 /\ affordable r sw.1
  | Cancelled _ => within_budgets 0 sw.1
  | OverBudget | Violation => within_budgets 1 sw.1
  end.

Hypothesis Hhonest : honest_provider.

Lemma send_request_spec b c :
  hoare (fun sw => I 1 sw /\ planned b c sw.1) (send_request b c) chat_ended (I 0).
Proof.
  intros [s w] [HI (n & e & ceil & w' & Hn & Hpos & Hest & He & Hfit & Hceil & Hceilpos)].
  change (within_budgets 1 s) in HI. cbn [fst] in Hfit.
  unfold send_request, change, port, mbind, stm_bind. rewrite Hest. cbn [default].
  set (s' := set_outputs _ _ s). assert (HI' : within_budgets 0 s').
  { destruct HI as (Ht & (new & Hnew & Hf & Hlen) & Htool). split; [exact Ht|]. split; [|exact Htool].
    exists (new ++ [(c, e)]). subst s'. cbn [sent set_outputs total_model_calls]. rewrite Hnew, app_assoc. split; [done|]. split.
    - apply Forall_app. split; [done|]. constructor; [|done]. exists n. cbn [fst snd]. split_and!; [done|done|lia].
    - rewrite len_app, len_cons, len_nil. lia. }
  cbn beta iota. destruct (exchange c w) as [[x|ex] w2] eqn:Hx; [|exact HI'].
  cbn. destruct (x_response x) as [r|] eqn:Hr; cbn; [|exact HI'].
  destruct (Hhonest w w' c x r) as (Hp & Hco & Hmax); [by rewrite Hx|done|].
  specialize (Hmax n Hn Hpos). split; [exact HI'|]. unfold affordable.
  change (total s') with (total s). lia.
Qed.

Lemma chat_spec messages tools m : hoare (I 1) (chat cfg messages tools m) chat_ended (I 0).
Proof.
  assert (Hweak : forall sw, I 1 sw -> I 0 sw) by (intros sw; by apply within_slack).
  unfold chat. apply (hoare_bind _ _ _ _ (fun _ => I 1)).
  { by apply hoare_port. }
  intros [c|]; [|apply hoare_ret; intros sw; by apply within_slack].
  eapply hoare_bind; [eapply hoare_conseq; [apply (budget_apply_spec 1)|done|done|exact Hweak]|].
  intros [b c'| |]; [|apply hoare_ret; by intros sw []..].
  apply (hoare_bind _ _ _ _ (fun _ sw => I 1 sw /\ planned b c' sw.1)).
  { apply (hoare_port (fun s => within_budgets 1 s /\ planned b c' s)). intros sw []. by apply Hweak. }
  intros [[c2|]|].
  - apply (hoare_assume _ _ _ _ (exists ceiling, requested_ceiling b = Some ceiling /\ 1 <= ceiling)).
    { intros sw [_ (n & e & ceil & w' & ? & ? & ? & ? & ? & ? & ?)]. eauto. }
    intros (ceiling & Hceil & Hpos). apply (hoare_bind _ _ _ _ (budgeted 1)).
    { eapply hoare_conseq; [by apply (refresh_after_dispatch_spec 1 b c2 ceiling)|by intros sw []|done|exact Hweak]. }
    intros [b2 c3| |]; [apply send_request_spec|apply hoare_ret; by intros sw []..].
  - apply send_request_spec.
  - apply hoare_ret. intros sw [HI _]. by apply Hweak.
Qed.

(** Steps that touch none of the budgets. *)
Lemma keeps_neutral k f :
  (forall s, total (f s) = total s) -> (forall s, sent (f s) = sent s) ->
  (forall s, total_model_calls (f s) = total_model_calls s) ->
  (forall s, total_tool_calls (f s) = total_tool_calls s) -> keeps (I k) (I k) (change f).
Proof. intros. apply keeps_change. intros s w Hs. refine (within_same _ _ _ _ _ _ _ Hs); cbn; auto. Qed.

Local Hint Extern 1 (keeps _ _ (change _)) => (apply keeps_neutral; done) : triple.

Lemma rejected_spec attempt round summary extra :
  hoare (I 1) (rejected attempt round summary extra) (fun _ => I 0) (I 0).
Proof.
  apply (hoare_bind _ _ _ _ (fun _ => I 0)); [|intros []; unfold record; by apply hoare_port].
  apply hoare_change. intros s w (Ht & (new & Hnew & Hf & Hlen) & Htool). split; [done|]. split; [|done].
  exists new. split_and!; [done..|]. cbn in *. lia.
Qed.

Lemma keeps_interrupt_marker k attempt epoch : keeps (I k) (I k) (record_interrupt_marker attempt epoch).
Proof. unfold record_interrupt_marker. walk. Qed.

Lemma budget_image_traffic (J : LoopState -> Prop) attempt :
  keeps (on_state (W := W) J) (on_state J) (record_image_traffic attempt).
Proof. unfold record_image_traffic, record. walk. Qed.

Lemma budget_notice k messages : keeps (I k) (I k) (notice_withheld_images cfg messages).
Proof.
  unfold notice_withheld_images. step. apply keeps_neutral; intros s; by case_match.
Qed.

Lemma budget_request_tools (J : LoopState -> Prop) l : keeps (on_state (W := W) J) (on_state J) (request_tools l).
Proof. unfold request_tools. walk. Qed.

Local Hint Resolve keeps_interrupt_marker budget_image_traffic budget_notice budget_request_tools : triple.

Definition handled (h : Handled) (sw : LoopState * W) : Prop :=
  within_budgets 0 sw.1 /\ match h with Got r _ _ => affordable r sw.1 | _ => True end.

Lemma handle_end_spec attempt round baseline summary e :
  hoare (chat_ended e) (handle_end attempt round baseline summary e) handled (I 0).
Proof.
  destruct e as [r streamed b|streamed| |]; cbn [chat_ended handle_end].
  - by apply hoare_ret.
  - change (hoare (I 0) (handle_end attempt round baseline summary (Cancelled streamed)) handled (I 0)).
    cbn [handle_end]. unfold record. step. step. step. apply hoare_if; intros _; [by intros [s w]|].
    step. apply hoare_ret. by split.
  - eapply hoare_bind; [apply rejected_spec|]. intros []. apply hoare_ret. by split.
  - eapply hoare_bind; [apply rejected_spec|]. intros []. by intros [s w].
Qed.

Lemma guarded_chat_spec attempt round baseline summary messages tools m :
  hoare (I 0) (guarded_chat cfg attempt round baseline summary messages tools m) handled (I 0).
Proof.
  apply (hoare_finally _ _ _ _ handled); [|intros h|apply budget_image_traffic].
  - apply keeps_then; [destruct summary; walk|intros []].
    apply (hoare_bind _ _ _ _ (fun _ => I 1)).
    { apply hoare_change. intros s w (Ht & (new & Hnew & Hf & Hlen) & Htool). split; [done|]. split; [|done].
      exists new. split_and!; [done..|]. cbn in *. lia. }
    intros []. eapply hoare_bind; [apply chat_spec|intros e]. apply handle_end_spec.
  - eapply hoare_conseq;
      [apply (budget_image_traffic (fun s => within_budgets 0 s /\ match h with Got r _ _ => affordable r s | _ => True end))|
       done|done|by intros sw []].
Qed.

Definition settled (d : Dispatched) (sw : LoopState * W) : Prop :=
  within_budgets 0 sw.1 /\ match d with Answered d => affordable (resp d) sw.1 | _ => True end.
Definition attempted (d : option Dispatched) (sw : LoopState * W) : Prop :=
  match d with Some d => settled d sw | None => I 0 sw end.

Lemma round_attempt_spec round : hoare (I 0) (round_attempt cfg round) attempted (I 0).
Proof.
  unfold round_attempt, record. do 4 step. apply hoare_if; intros _; [by intros [s w]|].
  do 8 step. eapply hoare_bind; [apply guarded_chat_spec|]. intros [r streamed b| |];
    [|apply hoare_ret; by intros sw []..].
  apply (hoare_bind _ _ _ _ (fun _ => on_state (fun s => within_budgets 0 s /\ affordable r s))).
  { apply (hoare_port (fun s => within_budgets 0 s /\ affordable r s)). by intros sw []. }
  intros []. apply hoare_ret. by intros sw [].
Qed.

Lemma summary_attempt_spec : hoare (I 0) (summary_attempt cfg) attempted (I 0).
Proof.
  unfold summary_attempt, record. do 9 step.
  eapply hoare_bind; [apply guarded_chat_spec|]. intros [r streamed b| |]; [|apply hoare_ret; by intros sw []..].
  apply (hoare_bind _ _ _ _ (fun _ => on_state (fun s => within_budgets 0 s /\ affordable r s))).
  { apply (hoare_port (fun s => within_budgets 0 s /\ affordable r s)). by intros sw []. }
  intros []. apply hoare_ret. by intros sw [].
Qed.

Lemma dispatch_spec fuel round : hoare (I 0) (dispatch_round_attempt cfg fuel round) settled (I 0).
Proof.
  induction fuel as [|fuel IH]; [by apply hoare_ret|]. cbn [dispatch_round_attempt].
  eapply hoare_bind; [apply round_attempt_spec|]. intros [d|]; [by apply hoare_ret|exact IH].
Qed.

Lemma summary_attempts_spec fuel : hoare (I 0) (summary_attempts cfg fuel) settled (I 0).
Proof.
  induction fuel as [|fuel IH]; [by apply hoare_ret|]. cbn [summary_attempts].
  eapply hoare_bind; [apply summary_attempt_spec|]. intros [d|]; [by apply hoare_ret|exact IH].
Qed.

(** The tokens of an answer are added once, where they were affordable. *)
Lemma count_usage_spec d :
  hoare (settled (Answered d)) (count_usage cfg d) (fun _ => I 0) (I 0).
Proof.
  apply (hoare_bind _ _ _ _ (fun _ => I 0)); [|intros []; unfold record; step; by apply hoare_port].
  apply hoare_change. intros s w [(Ht & Hs & Htool) (Hp & Hc & Hfit)].
  split; [|by split]. unfold total in *. cbn in *. lia.
Qed.

Lemma keep_reasoning_spec d :
  hoare (settled (Answered d)) (keep_reasoning cfg d) (fun _ => settled (Answered d)) (I 0).
Proof.
  assert (Hk : keeps (on_state (W := W) (fun s => within_budgets 0 s /\ affordable (resp d) s))
                       (on_state (fun s => within_budgets 0 s /\ affordable (resp d) s)) (keep_reasoning cfg d)).
  { unfold keep_reasoning, record. walk. apply keeps_change. intros s w [Hb Ha]. by split. }
  eapply hoare_conseq; [exact Hk|done|done|by intros sw []].
Qed.

Lemma keeps_append_external k l : keeps (I k) (I k) (append_external l).
Proof. induction l as [|t l IH]; cbn [append_external]; walk. Qed.

Lemma keeps_append_answers k source l : keeps (I k) (I k) (append_answers source l).
Proof. induction l as [|[tc r] l IH]; cbn [append_answers]; walk. Qed.

Lemma keeps_emit_starts k l : keeps (I k) (I k) (emit_starts l).
Proof. induction l as [|tc l IH]; cbn [emit_starts]; walk. Qed.

Local Hint Resolve keeps_append_external keeps_append_answers keeps_emit_starts : triple.

Lemma keeps_run_tools k calls baseline : keeps (I k) (I k) (run_tools calls baseline).
Proof. unfold run_tools. walk. Qed.

Lemma keeps_finish_answer d : keeps (I 0) (I 0) (finish_answer d).
Proof. unfold finish_answer. walk. Qed.

Local Hint Resolve keeps_run_tools keeps_finish_answer : triple.

(** Tool calls are counted only when the bound leaves room for all of them. *)
Lemma keeps_finish_tools d : keeps (I 0) (I 0) (finish_tools cfg d).
Proof.
  unfold finish_tools. step. eapply hoare_bind; [apply hoare_look|]. intros over.
  apply hoare_if; intros Hover.
  { eapply hoare_conseq; [apply (keeps_seq (I 0) (I 0)); [walk|intros; apply keeps_return]|by intros sw []|done|done]. }
  apply (hoare_bind _ _ _ _ (fun _ => I 0)); [|intros []; walk].
  apply hoare_change. intros s w [(Ht & Hs & Htool) Heq]. split; [done|]. split; [done|].
  intros n Hn Hle. unfold over_tool_budget in Heq. rewrite Hn, Hover in Heq. cbn in *.
  symmetry in Heq. apply Z.ltb_ge in Heq. lia.
Qed.

Local Hint Resolve keeps_finish_tools : triple.

Lemma keeps_round_body fuel round : keeps (I 0) (I 0) (round_body cfg fuel round).
Proof.
  unfold round_body. step. apply hoare_if; intros _; [apply keeps_return|].
  step. apply hoare_if; intros _; [apply keeps_return|]. do 3 step.
  eapply hoare_bind; [apply dispatch_spec|]. intros [d| |]; [|apply hoare_ret; by intros sw []..].
  eapply hoare_bind; [apply keep_reasoning_spec|intros []].
  eapply hoare_bind; [apply count_usage_spec|intros []]. walk.
Qed.

Lemma keeps_rounds fuel from n : keeps (I 0) (I 0) (rounds cfg fuel from n).
Proof.
  revert from. induction n as [|n IH]; intros from; cbn [rounds]; [apply keeps_return|].
  apply keeps_seq; [apply keeps_round_body|]. intros []; [apply IH|apply keeps_return..].
Qed.

Lemma keeps_final_handoff fuel : keeps (I 0) (I 0) (final_handoff cfg fuel).
Proof.
  unfold final_handoff. do 2 step. apply hoare_if; intros _; [apply keeps_return|]. do 2 step.
  eapply hoare_bind; [apply summary_attempts_spec|]. intros [d| |]; [|apply hoare_ret; by intros sw []..].
  apply (hoare_bind _ _ _ _ (fun _ => settled (Answered d))).
  { apply hoare_change. intros s w [Hb Ha]. by split. }
  intros []. eapply hoare_bind; [apply count_usage_spec|intros []]. step. apply keeps_return.
Qed.

Local Hint Resolve keeps_rounds keeps_final_handoff : triple.

Lemma keeps_run fuel : keeps (I 0) (I 0) (run cfg fuel).
Proof. unfold run. walk. Qed.
End Budgets.

(** C13: the budgets of a turn hold on every path.  When the provider bills no
    more than the local estimate and no longer an answer than it was asked for,
    a turn that starts within its token limit ends within it, whether it
    answers, is stopped, or raises: interruptions, repeated attempts, steering
    and the final handoff included.  Every request handed to the provider asks
    for at least one token and, with its estimate, fits what the limit leaves;
    there are no more such requests than counted model calls, and no more
    executed tool calls than allowed. *)
Theorem turn_within_budgets {W : Type} `{LoopPort W} `{Unicode} `{TextDigest}
    (cfg : LoopConfig) (limit : Z) (fuel : nat) (s s' : LoopState) (w w' : W) r :
  max_total_tokens cfg = Some limit -> honest_provider ->
  total s <= limit ->
  run cfg fuel (s, w) = (r, (s', w')) ->
  total s <= total s' <= limit /\
  (exists new, sent s' = sent s ++ new /\ Forall (fits_limit limit s) new /\
     len new <= total_model_calls s' - total_model_calls s) /\
  (forall n, max_tool_calls cfg = Some n -> total_tool_calls s <= n -> total_tool_calls s' <= n).
Proof.
  intros Hlimit Hhonest Hs Hrun.
  assert (Hstart : within_budgets cfg limit s 0 s).
  { split; [lia|]. split; [|done]. exists []. rewrite app_nil_r. split_and!; [done|constructor|]. unfold len. cbn. lia. }
  pose proof (keeps_run cfg limit s Hlimit Hhonest fuel (s, w) Hstart) as Hend. rewrite Hrun in Hend.
  assert (Hin : within_budgets cfg limit s 0 s') by (by destruct r).
  destruct Hin as (Ht & (new & Hn & Hf & Hl) & Htool). split; [done|]. split; [|done].
  exists new. rewrite Z.add_0_r in Hl. done.
Qed.

Lemma scripted_honest : honest_provider (W := Scripted).
Proof.
  intros v w c x r Hx Hr. assert (Hans : exists text calls, x = scripted_answer c text calls).
  { cbn in Hx. unfold scripted_exchange in Hx.
    destruct (script v) as [|[[text calls]|] rest]; [|..|destruct (interrupted v)]; injection Hx as <-; eauto; done. }
  destruct Hans as (text & calls & ->). injection Hr as <-. cbn.
  split_and!; [unfold scripted_estimate, len; lia|unfold scripted_estimate; lia|lia|]. intros n _ Hn. exact Hn.
Qed.

Lemma turn_within_budgets_witness :
  let '(r, (s, w)) := run sample_config 3 (initial_loop, sample_world) in
  r = Ok (Return $"all good") /\ total s = 62 /\ total s <= 1000 /\ total_tool_calls s <= 3.
Proof.
  destruct (run sample_config 3 (initial_loop, sample_world)) as [r [s w]] eqn:E.
  destruct (turn_within_budgets sample_config 1000 3 initial_loop s sample_world w r eq_refl scripted_honest
    ltac:(by vm_compute) E) as ([_ Ht] & _ & Htool).
  specialize (Htool 3 eq_refl ltac:(by vm_compute)). split_and!; [..|exact Ht|exact Htool];
    vm_compute in E; by injection E as <- <- <-.
Defined.
