(* ===== verification/TurnProtocol.v ===== *)
(** * The history a turn leaves, and that a turn ends (domain/agent/loop.py)

    Stated against [LoopPortLaws], what the loop relies on of the agent, the
    hooks and the client: the history and every request keep the provider's
    contract between calls and answers, and interrupted requests are repeated
    no more often than the interrupt epoch grows. *)

From S2P Require Import Prelude PyValue Json Lines ToolHistory ContextMessages Replay Hoare Models AgentLoop.

(** ** What the agent's operations promise *)

(** A message that is neither a tool result nor calls a tool. *)
Definition context_message (m : message) : Prop := is_tool m = false /\ message_call_ids m = [].

(** What the protocol reads of a message: the ledger may annotate it, but keeps
    this. *)
Definition same_protocol (m m' : message) : Prop :=
  is_tool m' = is_tool m /\ message_call_ids m' = message_call_ids m /\
  (is_tool m = true -> response_id m' = response_id m).

Class LoopPortEpoch (W : Type) `{LoopPort W} := { epoch_of : W -> Z }.

Section Laws.
Context {W : Type} `{LoopPortEpoch W}.

(** An operation of the agent: other threads may raise the epoch meanwhile,
    and [Q] relates the history before and after when it returns. *)
Definition step_law {A} (m : stm W A) (Q : A -> list message -> list message -> Prop) : Prop := forall w,
  epoch_of w <= epoch_of (m w).2 /\
  forall a, (m w).1 = Ok a -> Q a (state_messages w) (state_messages (m w).2).

Definition same_history {A} (_ : A) (l l' : list message) : Prop := l' = l.
Definition adds_context {A} (_ : A) (l l' : list message) : Prop :=
  contract l -> exists us, l' = l ++ us /\ Forall context_message us.
Definition adds_message (m : message) (_ : ()) (l l' : list message) : Prop :=
  exists m', l' = l ++ [m'] /\ same_protocol m m'.

(** The calls of an answer can be answered. *)
Definition well_named (r : LLMResponse) : Prop := Forall (fun tc => strip (tc_id tc) <> []) (tool_calls r).

Definition step_messages (s : Step RequestContext) : Prop :=
  match s with Go c => contract (c_messages c) | StepCancelled => True end.

Class LoopPortLaws := {
  law_flush : step_law flush_runtime_issues same_history;
  law_seal : step_law seal_startup_capabilities same_history;
  law_stop : step_law stop_requested same_history;
  law_epoch : step_law round_interrupt_epoch same_history;
  law_epoch_value w e : (round_interrupt_epoch w).1 = Ok e -> e = epoch_of (round_interrupt_epoch w).2;
  law_attempt n : step_law (next_request_attempt_id n) same_history;
  law_drain a : step_law (drain_user_steering a) adds_context;
  law_has_steering : step_law has_user_steering same_history;
  law_has_activity : step_law has_subagent_activity same_history;
  law_inject : step_law inject_completed_subagent_jobs adds_context;
  law_flush_injections : step_law flush_pending_subagent_injections adds_context;
  law_compress r : step_law (maybe_compress_context r) (fun _ l l' => contract l -> contract l');
  law_append m source meta : step_law (append_message m source meta) (adds_message m);
  law_external : step_law external_messages same_history;
  law_recover : step_law recover_control_plane same_history;
  law_full : step_law full_messages (fun out l l' => l' = l /\ (contract l -> contract out));
  law_schemas : step_law tool_schemas same_history;
  law_ledger k p a : step_law (ledger_append k p a) same_history;
  law_observe r n h a : step_law (observe_usage r n h a) same_history;
  law_record l t a : step_law (record_dispatched_request_envelope l t a) same_history;
  law_transforms c : step_law (run_transforms c)
    (fun s l l' => l' = l /\ (contract (c_messages c) -> step_messages s));
  law_commit c : step_law (commit_dispatch_callbacks c)
    (fun s l l' => l' = l /\ (contract (c_messages c) ->
       match s with Go (Some c') => contract (c_messages c') | _ => True end));
  law_exchange c : step_law (exchange c)
    (fun x l l' => l' = l /\ match x_response x with Some r => well_named r | None => True end);
  law_execute tc e : step_law (execute tc e) same_history;
  law_execute_parallel tcs e : step_law (execute_parallel tcs e)
    (fun rs l l' => l' = l /\ length rs = length tcs);
}.
End Laws.
Arguments LoopPortLaws W {_ _}.

(** ** Messages and the provider's contract *)

Lemma contract_app l l' : contract l -> contract l' -> contract (l ++ l').
Proof.
  induction 1 as [|m rs rest Hm Hrs Hrest IH]; intros Hl'; [done|].
  cbn. rewrite <-app_assoc. apply contract_block; auto.
Qed.

Lemma contract_context us : Forall context_message us -> contract us.
Proof.
  induction 1 as [|m us [Hm Hids] Hus IH]; [constructor|].
  apply (contract_block m [] us); [done|by rewrite Hids|done].
Qed.

Lemma answers_protocol id r r' : same_protocol r r' -> answers id r -> answers id r'.
Proof. intros (Ht & _ & Hid) [Hr Hi]. split; [congruence|]. rewrite <-Hi. auto. Qed.

Lemma contract_protocol l : contract l -> forall l', Forall2 same_protocol l l' -> contract l'.
Proof.
  induction 1 as [|m rs rest Hm Hrs Hrest IH]; intros l' Hl'.
  { apply Forall2_nil_inv_l in Hl' as ->. constructor. }
  apply Forall2_cons_inv_l in Hl' as (m' & l2 & Hmm & Hl2 & ->).
  apply Forall2_app_inv_l in Hl2 as (rs' & rest' & Hrs' & Hrest' & ->).
  destruct Hmm as (Ht & Hids & _). apply contract_block; [congruence| |by apply IH].
  rewrite Hids. clear -Hrs Hrs'. revert rs' Hrs'. induction Hrs as [|id r ids rs Ha Hrs IH]; intros rs' Hrs'.
  - by apply Forall2_nil_inv_l in Hrs' as ->.
  - apply Forall2_cons_inv_l in Hrs' as (r' & rs2 & Hr & Hrs2 & ->). constructor; [|auto].
    by eapply answers_protocol.
Qed.

Lemma context_protocol m m' : same_protocol m m' -> context_message m -> context_message m'.
Proof. intros (Ht & Hids & _) [Hm Hi]. split; congruence. Qed.

Lemma drop_private_protocol m : same_protocol m (drop_private_keys m).
Proof.
  unfold same_protocol, is_tool, response_id, message_call_ids, is_assistant, role_is, dget_none.
  by rewrite !dget_drop_private.
Qed.

Lemma role_protocol m role :
  dget m $"role" = Some (VStr role) -> role <> $"tool" -> role <> $"assistant" -> context_message m.
Proof.
  intros Hm Ht Ha. assert (Hr : forall t, role <> t -> role_is m t = false).
  { intros t Hne. unfold role_is, dget_none. rewrite Hm. cbn. apply bool_decide_eq_false_2. by intros [= ->]. }
  unfold context_message, is_tool, message_call_ids, is_assistant. by rewrite !Hr.
Qed.

Lemma synthetic_context tag payload source attributes e m :
  synthetic_user_message tag payload source attributes e = Ok m -> context_message m.
Proof.
  unfold synthetic_user_message, mark_synthetic_user_message. intros Hm.
  apply bind_ok in Hm as (t & _ & Hm). apply bind_ok in Hm as (u & _ & Hm). injection Hm as <-.
  by apply (role_protocol _ $"user").
Qed.

Lemma marked_context content tag source m :
  mark_synthetic_user_message content tag source = Ok m -> context_message m.
Proof.
  unfold mark_synthetic_user_message. intros Hm. apply bind_ok in Hm as (u & _ & Hm). injection Hm as <-.
  by apply (role_protocol _ $"user").
Qed.

Lemma normalize_message_protocol i m m' : normalize_message i m = Ok m' -> same_protocol m m'.
Proof.
  unfold normalize_message. intros Hm. apply bind_ok in Hm as (m2 & Hm2 & Hm). injection Hm as <-.
  destruct (role_is m $"system" && negb (i =? 0)) eqn:E; [|injection Hm2 as <-; apply drop_private_protocol].
  apply andb_prop in E as [E _]. assert (Hsys : context_message m).
  { unfold role_is, dget_none in E. destruct (dget m $"role") as [[| | | |t| |]|] eqn:Hr; try done.
    apply bool_decide_eq_true in E. cbn in E. injection E as E. subst t. by apply (role_protocol _ $"system"). }
  destruct (context_protocol _ _ (drop_private_protocol m2) (synthetic_context _ _ _ _ _ _ Hm2)) as [Ht Hids].
  destruct Hsys as [Hst Hsids]. unfold same_protocol. by rewrite Ht, Hids, Hst, Hsids.
Qed.

Lemma normalize_roles_protocol i l : forall l', normalize_roles_from i l = Ok l' -> Forall2 same_protocol l l'.
Proof.
  revert i. induction l as [|m l IH]; intros i l' Hl; cbn [normalize_roles_from] in Hl; [by injection Hl as <-|].
  apply bind_ok in Hl as (m' & Hm & Hl). apply bind_ok in Hl as (r & Hr & Hl). injection Hl as <-.
  constructor; [by eapply normalize_message_protocol|by eapply IH].
Qed.

Lemma normalize_contract l l' : normalize_provider_message_roles l = Ok l' -> contract l -> contract l'.
Proof. intros Hn Hl. eapply contract_protocol; [exact Hl|]. by eapply normalize_roles_protocol. Qed.

(** *** The message of an answer *)

Lemma call_value_id tc l : call_id (($"id", VStr (tc_id tc)) :: l) = strip (tc_id tc).
Proof. unfold call_id, str_or_empty, dget_none. rewrite dget_cons_eq. cbn. by destruct (tc_id tc). Qed.

Lemma call_value_ids l : Forall (fun tc => strip (tc_id tc) <> []) l ->
  valid_call_ids (map call_value l) = map (fun tc => strip (tc_id tc)) l.
Proof.
  induction 1 as [|tc l Htc Hl IH]; [done|]. cbn [map]. rewrite valid_call_ids_cons, IH.
  unfold valid_call_ids. cbn [omap list_omap call_value]. by rewrite call_value_id, decide_False.
Qed.

Lemma response_message_fields r :
  dget (response_message r) $"role" = Some (VStr $"assistant") /\
  dget (response_message r) $"tool_calls" =
    match tool_calls r with [] => None | l => Some (VList (map call_value l)) end.
Proof.
  unfold response_message. destruct (provider_data r), (reasoning_content r), (tool_calls r); done.
Qed.

Lemma response_message_protocol r : well_named r ->
  is_tool (response_message r) = false /\
  message_call_ids (response_message r) = map (fun tc => strip (tc_id tc)) (tool_calls r).
Proof.
  intros Hr. destruct (response_message_fields r) as [Hrole Hcalls].
  unfold is_tool, message_call_ids, is_assistant, role_is, dget_none. rewrite Hrole, Hcalls.
  split; [done|]. unfold well_named in Hr. destruct (tool_calls r) as [|tc l]; [done|].
  exact (call_value_ids (tc :: l) Hr).
Qed.

(** *** An assistant message whose calls are being answered *)

Definition owing (ids : list pystr) (l : list message) : Prop :=
  exists base m rs answered, l = base ++ m :: rs /\ contract base /\ is_tool m = false /\
    message_call_ids m = answered ++ ids /\ Forall2 answers answered rs.

Lemma owing_start l m : contract l -> is_tool m = false -> owing (message_call_ids m) (l ++ [m]).
Proof. intros Hl Hm. exists l, m, [], []. by split_and!. Qed.

Lemma owing_answer id ids l r : owing (id :: ids) l -> answers id r -> owing ids (l ++ [r]).
Proof.
  intros (base & m & rs & answered & -> & Hb & Hm & Hids & Ha) Hr.
  exists base, m, (rs ++ [r]), (answered ++ [id]). split_and!; [by rewrite <-app_assoc|done|done| |].
  - by rewrite Hids, <-app_assoc.
  - apply Forall2_app; [done|]. constructor; [done|constructor].
Qed.

Lemma owing_done l : owing [] l -> contract l.
Proof.
  intros (base & m & rs & answered & -> & Hb & Hm & Hids & Ha). apply contract_app; [done|].
  rewrite app_nil_r in Hids. rewrite <-(app_nil_r rs). apply contract_block; [done|by rewrite Hids|constructor].
Qed.

(** ** The invariant along a turn *)

Section Protocol.
Context {W : Type} `{LoopPortLaws W} `{Unicode} `{TextDigest} (cfg : LoopConfig) (s0 : LoopState).

Definition good_requests (s : LoopState) : Prop :=
  exists new, sent s = sent s0 ++ new /\ Forall (fun rq => contract (c_messages rq.1)) new.

(** What holds also after an exception, and the same with a fact of the
    history; [e] is an epoch that was reached. *)
Definition K (e : Z) (sw : LoopState * W) : Prop := good_requests sw.1 /\ e <= epoch_of sw.2.
Definition M (h : list message -> Prop) (e : Z) (sw : LoopState * W) : Prop := K e sw /\ h (state_messages sw.2).
Abbreviation J := (M contract).

Lemma M_K h e sw : M h e sw -> K e sw.
Proof. by intros []. Qed.

Lemma K_le e e' sw : e' <= e -> K e sw -> K e' sw.
Proof. intros He [Hs He']. split; [done|lia]. Qed.

Lemma M_le h e e' sw : e' <= e -> M h e sw -> M h e' sw.
Proof. intros He [HK Hh]. split; [by eapply K_le|done]. Qed.

Lemma port_law {A} (m : stm W A) Q (h : list message -> Prop) e (R : A -> list message -> Prop) :
  step_law m Q -> (forall a l l', h l -> Q a l l' -> R a l') ->
  hoare (M h e) (port m) (fun a => M (R a) e) (K e).
Proof.
  intros Hlaw HR [s w] [[Hs He] Hh]. destruct (Hlaw w) as [Hmono Hpost]. unfold port. cbn [fst snd] in *.
  destruct (m w) as [[a|x] w']; cbn [fst snd] in *; [|split; [done|cbn; lia]].
  split; [split; [done|cbn; lia]|]. eapply HR; [exact Hh|by apply Hpost].
Qed.

Lemma keeps_same {A} (m : stm W A) h e : step_law m same_history -> keeps (M h e) (K e) (port m).
Proof. intros Hlaw. apply (port_law _ _ _ _ (fun _ => h) Hlaw). by intros a l l' Hh ->. Qed.

Lemma keeps_adds {A} (m : stm W A) e : step_law m adds_context -> keeps (J e) (K e) (port m).
Proof.
  intros Hlaw. apply (port_law _ _ _ _ (fun _ => contract) Hlaw). intros a l l' Hl HQ.
  destruct (HQ Hl) as (us & -> & Hus). apply contract_app; [done|by apply contract_context].
Qed.

Lemma keeps_maintains {A} (m : stm W A) e :
  step_law m (fun _ l l' => contract l -> contract l') -> keeps (J e) (K e) (port m).
Proof. intros Hlaw. apply (port_law _ _ _ _ (fun _ => contract) Hlaw). auto. Qed.

Lemma keeps_context m source meta e : context_message m -> keeps (J e) (K e) (port (append_message m source meta)).
Proof.
  intros Hm. apply (port_law _ _ _ _ (fun _ => contract) (law_append m source meta)).
  intros [] l l' Hl (m' & -> & Hm'). apply contract_app; [done|]. apply contract_context.
  constructor; [by eapply context_protocol|constructor].
Qed.

Lemma hoare_lift {A} (r : result A) h e (P : A -> Prop) :
  (forall a, r = Ok a -> P a) -> hoare (M h e) (lift r) (fun a sw => M h e sw /\ P a) (K e).
Proof. intros HP sw Hsw. destruct r as [a|x]; [split; [done|by apply HP]|by apply (M_K h)]. Qed.

(** What a step establishes of its result becomes a hypothesis. *)
Lemma hoare_bind_pure {A B} P h e e' (m : stm (LoopState * W) A) (f : A -> stm (LoopState * W) B) Q E (fact : A -> Prop) :
  hoare P m (fun a sw => M h e sw /\ fact a) E -> (forall a, fact a -> hoare (M h e') (f a) Q E) -> e' <= e ->
  hoare P (m ≫= f) Q E.
Proof.
  intros Hm Hf He. eapply hoare_bind; [exact Hm|]. intros a.
  apply (hoare_assume _ _ _ _ (fact a)); [by intros sw []|]. intros Ha.
  eapply hoare_conseq; [by apply Hf| |done|done]. intros sw [Hsw _]. by eapply M_le.
Qed.

Lemma port_fact {A} (m : stm W A) Q e (fact : A -> Prop) :
  step_law m Q -> (forall a l l', contract l -> Q a l l' -> contract l' /\ fact a) ->
  hoare (J e) (port m) (fun a sw => J e sw /\ fact a) (K e).
Proof.
  intros Hlaw HQ. eapply (hoare_conseq (J e) _ (K e)); [apply (port_law m Q contract e (fun a l => contract l /\ fact a) Hlaw HQ)|done| |done].
  intros a sw [HK [Hl Ha]]. by split.
Qed.

Lemma keeps_silent h e f : (forall s, sent (f s) = sent s) -> keeps (M h e) (K e) (change f).
Proof.
  intros Hf. apply keeps_change. intros s w [[(new & Hn & Hg) He] Hh].
  split; [split; [exists new; cbn; by rewrite Hf|done]|done].
Qed.

Lemma epoch_read e :
  hoare (J e) (port round_interrupt_epoch) (fun n sw => J n sw /\ e <= n) (K e).
Proof.
  intros [s w] [[Hs He] Hh]. destruct (law_epoch w) as [Hmono Hpost]. unfold port. cbn [fst snd] in *.
  pose proof (law_epoch_value w) as Hval.
  destruct (round_interrupt_epoch w) as [[a|x] w']; cbn [fst snd] in *; [|split; [done|cbn; lia]].
  specialize (Hval a eq_refl). specialize (Hpost a eq_refl). unfold same_history in Hpost.
  split; [|lia]. split; [split; [done|cbn; lia]|]. cbn. by rewrite Hpost.
Qed.

Local Hint Resolve M_K keeps_same keeps_adds keeps_maintains law_flush law_seal law_stop law_epoch law_attempt
  law_drain law_has_steering law_has_activity law_inject law_flush_injections law_compress law_external
  law_recover law_schemas law_ledger law_observe law_record law_execute : triple.
Local Hint Extern 1 (keeps _ _ (change _)) => (apply keeps_silent; done) : triple.

Lemma keeps_record h e k p a : keeps (M h e) (K e) (record k p a).
Proof. unfold record. walk. Qed.

Lemma protocol_image_traffic h e a : keeps (M h e) (K e) (record_image_traffic a).
Proof. unfold record_image_traffic, record. walk. Qed.

Local Hint Resolve keeps_record protocol_image_traffic : triple.

Lemma protocol_notice h e messages : keeps (M h e) (K e) (notice_withheld_images cfg messages).
Proof.
  unfold notice_withheld_images. step. apply keeps_silent. intros s. by case_match.
Qed.

Lemma keeps_marker a n e : keeps (J e) (K e) (record_interrupt_marker a n).
Proof.
  unfold record_interrupt_marker.
  eapply (hoare_bind_pure _ _ e); [apply hoare_lift; by apply marked_context| |done].
  intros m Hm. by apply keeps_context.
Qed.

Lemma keeps_external l e : keeps (J e) (K e) (append_external l).
Proof.
  induction l as [|t l IH]; cbn [append_external]; [apply keeps_return|].
  eapply (hoare_bind_pure _ _ e); [apply hoare_lift; by apply synthetic_context| |done].
  intros m Hm. apply keeps_then; [by apply keeps_context|]. by intros [].
Qed.

Lemma protocol_request_tools h e l : keeps (M h e) (K e) (request_tools l).
Proof. unfold request_tools. walk. Qed.

Local Hint Resolve protocol_notice keeps_marker keeps_external protocol_request_tools : triple.

(** *** One exchange *)

Lemma refresh_contract e c : contract (c_messages c) ->
  hoare (J e) (refresh_estimate c) (fun nc sw => J e sw /\ contract (c_messages nc.2)) (K e).
Proof.
  intros Hc. unfold refresh_estimate.
  eapply (hoare_bind_pure _ _ e);
    [apply (hoare_lift _ _ _ contract); intros l Hl; by eapply normalize_contract| |done].
  intros l Hl. step. apply hoare_ret. by split.
Qed.

Definition budgeted_messages (a : Budgeted) : Prop :=
  match a with Within _ c => contract (c_messages c) | _ => True end.

Lemma budget_apply_contract e b c : contract (c_messages c) ->
  hoare (J e) (budget_apply cfg b c) (fun a sw => J e sw /\ budgeted_messages a) (K e).
Proof.
  intros Hc. unfold budget_apply. eapply (hoare_bind_pure _ _ e); [by apply refresh_contract| |done].
  intros [n c'] Hc'. case_match; [|apply hoare_ret; by split].
  step. apply hoare_if; intros _; apply hoare_ret; by split.
Qed.

Lemma refresh_dispatch_contract e b c : contract (c_messages c) ->
  hoare (J e) (refresh_after_dispatch cfg b c) (fun a sw => J e sw /\ budgeted_messages a) (K e).
Proof.
  intros Hc. unfold refresh_after_dispatch. eapply (hoare_bind_pure _ _ e); [by apply refresh_contract| |done].
  intros [n c'] Hc'. apply hoare_if; intros _; [apply hoare_ret; by split|].
  repeat case_match; try (apply hoare_ret; by split).
  step. apply hoare_if; intros _; apply hoare_ret; by split.
Qed.

Definition ended (x : ChatEnd) : Prop := match x with Responded r _ _ => well_named r | _ => True end.

Lemma send_contract e b c : contract (c_messages c) ->
  hoare (J e) (send_request b c) (fun x sw => J e sw /\ ended x) (K e).
Proof.
  intros Hc. unfold send_request. apply keeps_then.
  { apply keeps_change. intros s w [[(new & Hn & Hg) He] Hh]. split; [|done]. split; [|done].
    cbn [fst] in Hn. exists (new ++ [(c, default 0 (local_request_estimate b))]). cbn [fst sent set_outputs]. rewrite Hn, app_assoc.
    split; [done|]. apply Forall_app. split; [done|]. by repeat constructor. }
  intros []. eapply (hoare_bind_pure _ _ e e _ _ _ _ (fun x => match x_response x with Some r => well_named r | None => True end)).
  - apply (port_fact _ _ _ _ (law_exchange c)). by intros x l l' Hl [-> Hx].
  - intros x Hx. apply hoare_ret. intros sw Hsw. split; [done|]. by destruct (x_response x).
  - done.
Qed.

Lemma chat_contract e messages tools m : contract messages ->
  hoare (J e) (chat cfg messages tools m) (fun x sw => J e sw /\ ended x) (K e).
Proof.
  intros Hm. unfold chat. set (c0 := {| c_messages := messages |}).
  eapply (hoare_bind_pure _ _ e e _ _ _ _ step_messages); [| |done].
  { apply (port_fact _ _ _ _ (law_transforms c0)). intros x l l' Hl [-> Hx]. split; [done|by apply Hx]. }
  intros [c|] Hc; [|apply hoare_ret; by split].
  eapply (hoare_bind_pure _ _ e); [by apply budget_apply_contract| |done].
  intros [b c1| |] Hc1; [|apply hoare_ret; by split..].
  eapply (hoare_bind_pure _ _ e e _ _ _ _ (fun s => match s with Go (Some c') => contract (c_messages c') | _ => True end)); [| |done].
  { apply (port_fact _ _ _ _ (law_commit c1)). intros x l l' Hl [-> Hx]. split; [done|by apply Hx]. }
  intros [[c2|]|] Hc2; [|by apply send_contract|apply hoare_ret; by split].
  eapply (hoare_bind_pure _ _ e); [by apply refresh_dispatch_contract| |done].
  intros [b2 c3| |] Hc3; [by apply send_contract|apply hoare_ret; by split..].
Qed.

(** *** Attempts *)

(** An attempt is repeated only after the epoch has passed its baseline. *)
Definition after (b : Z) (h : Handled) (sw : LoopState * W) : Prop :=
  match h with
  | Got r _ _ => J b sw /\ well_named r
  | NoBudget => J b sw
  | Retry => J (b + 1) sw
  end.

Lemma keeps_rejected h e a round summary extra : keeps (M h e) (K e) (rejected a round summary extra).
Proof. unfold rejected. walk. Qed.

Local Hint Resolve keeps_rejected : triple.

Lemma handle_end_contract a round b summary x : ended x ->
  hoare (J b) (handle_end a round b summary x) (after b) (K b).
Proof.
  intros Hx. destruct x as [r streamed fb|streamed| |]; cbn [handle_end].
  - apply hoare_ret. by split.
  - eapply hoare_bind; [apply epoch_read|]. intros n.
    apply (hoare_assume _ _ _ _ (b <= n)); [by intros sw []|]. intros Hn.
    apply (hoare_conseq (J n) _ (K n) _ _ (after b)); [|by intros sw []|done|intros sw; by apply K_le].
    step. step. apply hoare_if; intros Hstop; [apply hoare_raise; apply M_K|].
    apply orb_false_iff in Hstop as [_ Hlt]. apply Z.leb_gt in Hlt.
    step. apply hoare_ret. intros sw. apply M_le. lia.
  - step. by apply hoare_ret.
  - step. apply hoare_raise, M_K.
Qed.

Lemma guarded_chat_contract a round b summary messages tools m : contract messages ->
  hoare (J b) (guarded_chat cfg a round b summary messages tools m) (after b) (K b).
Proof.
  intros Hm. apply (hoare_finally _ _ _ _ (after b)).
  - apply keeps_then; [destruct summary; walk|intros []]. step.
    eapply (hoare_bind_pure _ _ b); [by apply chat_contract| |done]. intros x Hx. by apply handle_end_contract.
  - intros [r streamed fb| |]; cbn [after].
    + apply (hoare_assume _ _ _ _ (well_named r)); [by intros sw []|]. intros Hr.
      eapply hoare_conseq; [apply (protocol_image_traffic contract b)|by intros sw []|done|done].
    + apply (protocol_image_traffic contract b).
    + eapply hoare_conseq; [apply (protocol_image_traffic contract (b + 1))|done|done|].
      intros sw. apply K_le. lia.
  - eapply hoare_conseq; [apply (protocol_image_traffic (fun _ => True) b)|by split| |done]. by intros [] sw [].
Qed.

Definition attempt_made (e : Z) (d : option Dispatched) (sw : LoopState * W) : Prop :=
  match d with
  | None => J (e + 1) sw
  | Some (Answered d) => J e sw /\ well_named (resp d)
  | Some BudgetExhausted => J e sw
  | Some OutOfFuel => False
  end.

(** What follows the exchange of an attempt, in a round and in the handoff. *)
Lemma attempt_end e b a round summary messages tools m settle :
  e <= b -> contract messages -> (forall r streamed fb, resp (settle r streamed fb) = r) ->
  hoare (J b)
    (h ← guarded_chat cfg a round b summary messages tools m;
     match h with
     | NoBudget => mret (Some BudgetExhausted)
     | Retry => mret None
     | Got r streamed fb =>
       _ ← port (record_dispatched_request_envelope messages tools a);
       mret (Some (Answered (settle r streamed fb)))
     end) (attempt_made e) (K e).
Proof.
  intros He Hm Hresp.
  apply (hoare_conseq (J b) _ (K b) _ _ (attempt_made b)); [|done| |intros sw; by apply K_le].
  - eapply hoare_bind; [by apply guarded_chat_contract|]. intros [r streamed fb| |]; [|by apply hoare_ret..].
    apply (hoare_assume _ _ _ _ (well_named r)); [by intros sw []|]. intros Hr.
    apply (hoare_conseq (J b) _ (K b) _ _ (attempt_made b)); [|by intros sw []|done|done].
    step. apply hoare_ret. intros sw Hsw. split; [done|by rewrite Hresp].
  - intros [[d| |]|] sw; cbn [attempt_made]; [intros [Hsw Hr]; split; [|done]|intros Hsw|done|intros Hsw];
      (eapply M_le; [|exact Hsw]; lia).
Qed.

Lemma full_contract e : hoare (J e) (port full_messages) (fun l sw => J e sw /\ contract l) (K e).
Proof. apply (port_fact _ _ _ _ law_full). intros l h h' Hh [-> Hl]. auto. Qed.

Lemma round_attempt_contract e round : hoare (J e) (round_attempt cfg round) (attempt_made e) (K e).
Proof.
  unfold round_attempt. do 4 step. apply hoare_if; intros _; [apply hoare_raise, M_K|].
  eapply (hoare_bind_pure _ _ e); [apply full_contract| |done]. intros l Hl. do 5 step.
  eapply hoare_bind; [apply epoch_read|]. intros b.
  apply (hoare_assume _ _ _ _ (e <= b)); [by intros sw []|]. intros Hb.
  eapply (hoare_conseq (J b) _ (K e)); [|by intros sw []|done|done].
  eapply hoare_bind; [eapply hoare_conseq; [apply (keeps_record contract b)|done|done|intros sw; by apply K_le]|].
  intros []. by apply (attempt_end e b).
Qed.

Lemma summary_attempt_contract e : hoare (J e) (summary_attempt cfg) (attempt_made e) (K e).
Proof.
  unfold summary_attempt. do 2 step.
  eapply (hoare_bind_pure _ _ e); [apply full_contract| |done]. intros l Hl.
  eapply (hoare_bind_pure _ _ e);
    [apply (hoare_lift _ _ _ contract); intros l' Hl'; by eapply normalize_contract| |done].
  intros l' Hl'. do 3 step. eapply hoare_bind; [apply epoch_read|]. intros b.
  apply (hoare_assume _ _ _ _ (e <= b)); [by intros sw []|]. intros Hb.
  eapply (hoare_conseq (J b) _ (K e)); [|by intros sw []|done|done].
  eapply hoare_bind; [eapply hoare_conseq; [apply (keeps_record contract b)|done|done|intros sw; by apply K_le]|].
  intros []. by apply (attempt_end e b).
Qed.

(** The fuel is used up only by as many interruptions. *)
Definition dispatched (e : Z) (fuel : nat) (d : Dispatched) (sw : LoopState * W) : Prop :=
  match d with
  | Answered d => J e sw /\ well_named (resp d)
  | BudgetExhausted => J e sw
  | OutOfFuel => J (e + Z.of_nat fuel) sw
  end.


Lemma dispatched_later e fuel d sw : dispatched (e + 1) fuel d sw -> dispatched e (S fuel) d sw.
Proof.
  destruct d as [d| |]; cbn [dispatched].
  - intros [Hsw Hr]. split; [eapply M_le; [|exact Hsw]; lia|done].
  - apply M_le. lia.
  - apply M_le. lia.
Qed.

Lemma dispatch_contract fuel round e : hoare (J e) (dispatch_round_attempt cfg fuel round) (dispatched e fuel) (K e).
Proof.
  revert e. induction fuel as [|fuel IH]; intros e.
  { apply hoare_ret. intros sw. cbn [dispatched]. by rewrite Z.add_0_r. }
  cbn [dispatch_round_attempt]. eapply hoare_bind; [apply round_attempt_contract|].
  intros [d|]; [apply hoare_ret; by destruct d|]. eapply hoare_conseq; [apply IH|done| |intros sw; apply K_le; lia].
  apply dispatched_later.
Qed.

Lemma summary_contract fuel e : hoare (J e) (summary_attempts cfg fuel) (dispatched e fuel) (K e).
Proof.
  revert e. induction fuel as [|fuel IH]; intros e.
  { apply hoare_ret. intros sw. cbn [dispatched]. by rewrite Z.add_0_r. }
  cbn [summary_attempts]. eapply hoare_bind; [apply summary_attempt_contract|].
  intros [d|]; [apply hoare_ret; by destruct d|]. eapply hoare_conseq; [apply IH|done| |intros sw; apply K_le; lia].
  apply dispatched_later.
Qed.

(** *** Answering the calls *)

Abbreviation call_ids l := (map (fun tc => strip (tc_id tc)) l).

Lemma answers_contract e source l :
  hoare (M (owing (call_ids (map fst l))) e) (append_answers source l) (fun _ => J e) (K e).
Proof.
  induction l as [|[tc v] l IH]; cbn [append_answers map].
  - apply hoare_ret. intros sw [HK Ho]. split; [done|by apply owing_done].
  - apply (hoare_bind _ _ _ _ (fun _ => M (owing (call_ids (map fst l))) e)); [|by intros []].
    apply (port_law _ _ _ _ (fun _ => owing (call_ids (map fst l))) (law_append _ source [])).
    intros [] h h' Ho (m' & -> & Hm'). eapply owing_answer; [exact Ho|].
    apply (answers_protocol _ _ _ Hm'). split; [done|].
    unfold response_id, str_or_empty, dget_none. cbn. by destruct (tc_id tc).
Qed.

Lemma keeps_starts h e l : keeps (M h e) (K e) (emit_starts l).
Proof. induction l as [|tc l IH]; cbn [emit_starts]; walk. Qed.

Local Hint Resolve keeps_starts : triple.

Lemma parallel_contract e b l :
  hoare (M (owing (call_ids l)) e)
    (_ ← emit_starts l; results ← port (execute_parallel l b); append_answers $"tool_result" (zip l results))
    (fun _ => J e) (K e).
Proof.
  step. eapply hoare_bind;
    [apply (port_law _ _ _ _ (fun rs h => owing (call_ids l) h /\ length rs = length l) (law_execute_parallel l b));
     by intros rs h h' Ho [-> Hlen]|].
  intros rs. apply (hoare_assume _ _ _ _ (length rs = length l)); [by intros sw [_ [_ Hlen]]|]. intros Hlen.
  eapply hoare_conseq; [apply (answers_contract e)| |done|done].
  intros sw [HK [Ho _]]. split; [done|]. change (map fst (zip l rs)) with ((zip l rs).*1).
  rewrite fst_zip; [exact Ho|lia].
Qed.

Lemma run_tools_contract e b l :
  hoare (M (owing (call_ids l)) e) (run_tools l b) (fun _ => J e) (K e).
Proof.
  unfold run_tools. destruct l as [|tc [|tc2 l]]; [apply parallel_contract| |apply parallel_contract].
  do 2 step. apply (answers_contract e _ [(tc, _)]).
Qed.

Lemma append_response e d source : well_named (resp d) ->
  hoare (J e) (port (append_message (response_message (resp d)) source []))
    (fun _ => M (owing (call_ids (tool_calls (resp d)))) e) (K e).
Proof.
  intros Hr. destruct (response_message_protocol _ Hr) as [Ht Hids].
  apply (port_law _ _ _ _ (fun _ => owing (call_ids (tool_calls (resp d)))) (law_append _ source [])).
  intros [] l l' Hl (m' & -> & (Hmt & Hmids & _)). rewrite <-Hids, <-Hmids. apply owing_start; [done|congruence].
Qed.

(** *** The turn *)

Definition flowing (e : Z) (fuel : nat) (f : Flow) : LoopState * W -> Prop :=
  match f with Stuck => J (e + Z.of_nat fuel) | _ => J e end.

(** The end of a body, once only steps that maintain the invariant are left. *)
Ltac flows := repeat (intros; lazymatch goal with
  | |- hoare _ (_ ≫= _) _ _ => apply keeps_then; [solve [walk]|]
  | |- hoare _ (if ?b then _ else _) _ _ => destruct b
  | |- hoare _ (match ?x with _ => _ end) _ _ => destruct x
  | |- hoare _ (mret _) (flowing _ _) _ => by apply hoare_ret
  end).

Lemma finish_answer_contract e fuel d : well_named (resp d) -> tool_calls (resp d) = [] ->
  hoare (J e) (finish_answer d) (flowing e fuel) (K e).
Proof.
  intros Hr Hcalls. apply (hoare_bind _ _ _ _ (fun _ => J e)); [|intros []; flows].
  eapply hoare_conseq; [by apply append_response|done| |done].
  intros _ sw [HK Ho]. split; [done|]. rewrite Hcalls in Ho. by apply owing_done.
Qed.

Lemma finish_tools_contract e fuel d : well_named (resp d) ->
  hoare (J e) (finish_tools cfg d) (flowing e fuel) (K e).
Proof.
  intros Hr. unfold finish_tools. eapply hoare_bind; [by apply append_response|intros []]. step.
  apply hoare_if; intros _.
  - apply (hoare_bind _ _ _ _ (fun _ => J e)); [|intros []; flows].
    eapply hoare_conseq; [apply (answers_contract e)| |done|done].
    intros sw Hsw. rewrite !map_map. exact Hsw.
  - step. eapply hoare_bind; [apply run_tools_contract|intros []]. flows.
Qed.

Lemma keep_reasoning_contract h e d : keeps (M h e) (K e) (keep_reasoning cfg d).
Proof. unfold keep_reasoning. walk. Qed.

Lemma count_usage_contract h e d : keeps (M h e) (K e) (count_usage cfg d).
Proof. unfold count_usage. walk. Qed.

Local Hint Resolve keep_reasoning_contract count_usage_contract : triple.


Lemma round_body_contract fuel round e : hoare (J e) (round_body cfg fuel round) (flowing e fuel) (K e).
Proof.
  unfold round_body. step. apply hoare_if; intros _; [by apply hoare_ret|].
  step. apply hoare_if; intros _; [by apply hoare_ret|]. do 3 step.
  eapply hoare_bind; [apply dispatch_contract|]. intros [d| |]; [|by apply hoare_ret..].
  apply (hoare_assume _ _ _ _ (well_named (resp d))); [by intros sw []|]. intros Hr.
  apply (hoare_conseq (J e) _ (K e) _ _ (flowing e fuel)); [|by intros sw []|done|done]. do 2 step.
  destruct (tool_calls (resp d)) eqn:Hcalls; [by apply finish_answer_contract|by apply finish_tools_contract].
Qed.

Lemma rounds_contract fuel from n e : hoare (J e) (rounds cfg fuel from n) (flowing e fuel) (K e).
Proof.
  revert from. induction n as [|n IH]; intros from; cbn [rounds]; [by apply hoare_ret|].
  eapply hoare_bind; [apply round_body_contract|]. intros [|t|]; [apply IH|by apply hoare_ret..].
Qed.

(** The handoff is asked for without tools; should the provider answer it with
    calls, they stay open at the end of the history. *)
Definition open_end (l : list message) : Prop :=
  contract l \/ exists base m, l = base ++ [m] /\ contract base /\ is_tool m = false.

Definition finishing (e : Z) (fuel : nat) (f : Flow) : LoopState * W -> Prop :=
  match f with Stuck => J (e + Z.of_nat fuel) | _ => M open_end e end.

Lemma J_open e sw : J e sw -> M open_end e sw.
Proof. intros [HK Hl]. split; [done|by left]. Qed.

Lemma final_handoff_contract fuel e : hoare (J e) (final_handoff cfg fuel) (finishing e fuel) (K e).
Proof.
  unfold final_handoff. do 2 step. apply hoare_if; intros _; [apply hoare_ret, J_open|].
  eapply (hoare_bind_pure _ _ e); [apply hoare_lift; by apply synthetic_context| |done]. intros m Hm.
  apply keeps_then; [by apply keeps_context|intros []].
  eapply hoare_bind; [apply summary_contract|]. intros [d| |]; [|by apply hoare_ret, J_open|by apply hoare_ret].
  apply (hoare_assume _ _ _ _ (well_named (resp d))); [by intros sw []|]. intros Hr.
  apply (hoare_conseq (J e) _ (K e) _ _ (finishing e fuel)); [|by intros sw []|done|done]. do 2 step.
  apply (hoare_bind _ _ _ _ (fun _ => M open_end e)); [|intros []; by apply hoare_ret].
  apply (port_law _ _ _ _ (fun _ => open_end) (law_append _ $"assistant_summary" [])).
  intros [] l l' Hl (m' & -> & (Ht & _)). right. exists l, m'. split_and!; [done..|].
  by rewrite Ht, (proj1 (response_message_protocol _ Hr)).
Qed.

Lemma run_contract fuel e : hoare (J e) (run cfg fuel) (finishing e fuel) (K e).
Proof.
  unfold run. do 3 step. apply hoare_if; intros _; [apply hoare_ret, J_open|].
  step. apply hoare_if; intros _; [apply hoare_ret, J_open|]. step.
  eapply hoare_bind; [apply rounds_contract|].
  intros [|t|]; [apply final_handoff_contract|apply hoare_ret, J_open|by apply hoare_ret].
Qed.
End Protocol.

(** ** More fuel changes nothing *)

(** [m'] does as [m] wherever [m] does not end in [bad]. *)
Definition extends_but {S A} (bad : A) (m m' : stm S A) : Prop := forall s, (m s).1 <> Ok bad -> m' s = m s.

Lemma extends_refl_but {S A} (bad : A) (m : stm S A) : extends_but bad m m.
Proof. done. Qed.

Lemma extends_bind {S A B} (bad : B) (m : stm S A) (f g : A -> stm S B) :
  (forall a, extends_but bad (f a) (g a)) -> extends_but bad (m ≫= f) (m ≫= g).
Proof.
  intros Hf s. unfold mbind, stm_bind. destruct (m s) as [[a|x] s']; [apply Hf|done].
Qed.

(** The first part may differ where the whole ends badly. *)
Lemma extends_bind_but {S A B} (worse : A) (bad : B) (m m' : stm S A) (f g : A -> stm S B) :
  extends_but worse m m' -> (forall a, extends_but bad (f a) (g a)) -> f worse = mret bad ->
  extends_but bad (m ≫= f) (m' ≫= g).
Proof.
  intros Hm Hf Hw s. unfold mbind, stm_bind. specialize (Hm s). destruct (m s) as [[a|x] s'] eqn:E.
  - intros Hbad. rewrite Hm; [by apply Hf|]. intros [= ->]. by rewrite Hw in Hbad.
  - intros _. by rewrite Hm.
Qed.

Section Fuel.
Context {W : Type} `{LoopPort W} `{Unicode} `{TextDigest} (cfg : LoopConfig).

Lemma dispatch_extends fuel fuel' round : (fuel <= fuel')%nat ->
  extends_but OutOfFuel (dispatch_round_attempt cfg fuel round) (dispatch_round_attempt cfg fuel' round).
Proof.
  revert fuel'. induction fuel as [|fuel IH]; intros [|fuel'] Hle; try lia; [done|by intros s|].
  cbn [dispatch_round_attempt]. apply extends_bind. intros [d|]; [done|]. apply IH. lia.
Qed.

Lemma summary_extends fuel fuel' : (fuel <= fuel')%nat ->
  extends_but OutOfFuel (summary_attempts cfg fuel) (summary_attempts cfg fuel').
Proof.
  revert fuel'. induction fuel as [|fuel IH]; intros [|fuel'] Hle; try lia; [done|by intros s|].
  cbn [summary_attempts]. apply extends_bind. intros [d|]; [done|]. apply IH. lia.
Qed.

Lemma round_body_extends fuel fuel' round : (fuel <= fuel')%nat ->
  extends_but Stuck (round_body cfg fuel round) (round_body cfg fuel' round).
Proof.
  intros Hle. unfold round_body. apply extends_bind. intros [|]; [done|].
  apply extends_bind. intros [|]; [done|]. do 3 (apply extends_bind; intros ?).
  by apply (extends_bind_but OutOfFuel); [by apply dispatch_extends|intros d|].
Qed.

Lemma rounds_extends fuel fuel' n : (fuel <= fuel')%nat -> forall from,
  extends_but Stuck (rounds cfg fuel from n) (rounds cfg fuel' from n).
Proof.
  intros Hle. induction n as [|n IH]; intros from; [done|]. cbn [rounds].
  apply (extends_bind_but Stuck); [by apply round_body_extends| |done]. intros [|t|]; [apply IH|done..].
Qed.

Lemma run_extends fuel fuel' : (fuel <= fuel')%nat -> extends_but Stuck (run cfg fuel) (run cfg fuel').
Proof.
  intros Hle. unfold run. do 3 (apply extends_bind; intros ?). destruct (negb _); [done|].
  apply extends_bind. intros [|]; [done|]. apply extends_bind. intros [].
  apply (extends_bind_but Stuck); [by apply rounds_extends| |done]. intros [|t|]; [|done..].
  unfold final_handoff. apply extends_bind. intros []. apply extends_bind. intros [|]; [done|].
  do 2 (apply extends_bind; intros ?). by apply (extends_bind_but OutOfFuel); [by apply summary_extends|intros d|].
Qed.
End Fuel.


(** C29: a turn ends.  An attempt is repeated only after the interrupt epoch has
    passed the one it started from, so when the epoch stays below a bound,
    fuel beyond the distance to it is enough: the turn never runs out of it,
    and more fuel gives the same result. *)
Theorem turn_terminates {W : Type} `{LoopPortLaws W} `{Unicode} `{TextDigest}
    (cfg : LoopConfig) (bound : Z) (fuel : nat) (s : LoopState) (w : W) :
  (forall v : W, epoch_of v <= bound) -> contract (state_messages w) ->
  bound - epoch_of w < Z.of_nat fuel ->
  (run cfg fuel (s, w)).1 <> Ok Stuck /\
  forall fuel', (fuel <= fuel')%nat -> run cfg fuel' (s, w) = run cfg fuel (s, w).
Proof.
  intros Hbound Hw Hfuel. assert (Hstuck : (run cfg fuel (s, w)).1 <> Ok Stuck).
  { assert (Hstart : M s contract (epoch_of w) (s, w)).
    { split; [|done]. split; [|done]. exists []. by rewrite app_nil_r. }
    pose proof (run_contract cfg s fuel (epoch_of w) (s, w) Hstart) as Hend.
    destruct (run cfg fuel (s, w)) as [[f|x] [s' w']]; cbn; [|done]. intros [= ->].
    destruct Hend as [[_ He] _]. cbn in He. pose proof (Hbound w'). lia. }
  split; [done|]. intros fuel' Hle. by apply run_extends.
Qed.

(** ** Examples *)

#[export] Instance scripted_epochs : LoopPortEpoch Scripted := {| epoch_of := scripted_epoch |}.

Lemma scripted_step {A} (m : stm Scripted A) Q :
  (forall w, epoch_of w <= epoch_of (m w).2) ->
  (forall w a, (m w).1 = Ok a -> Q a (state_messages w) (state_messages (m w).2)) -> step_law m Q.
Proof. intros He HQ w. split; [apply He|]. intros a. apply HQ. Qed.

Lemma scripted_named l : Forall (fun tc => strip (tc_id tc) <> []) (named_calls l).
Proof. apply Forall_forall. intros tc Htc. by apply list_elem_of_filter in Htc as []. Qed.

Lemma scripted_exchange_law c : step_law (exchange c)
  (fun x l l' => l' = l /\ match x_response x with Some r => well_named r | None => True end).
Proof.
  intros [h [|[[text calls]|] rest] i]; split; try (destruct i; done).
  - intros x [= <-]. split; [done|constructor].
  - intros x [= <-]. split; [done|apply scripted_named].
  - destruct i; intros x [= <-]; (split; [done|]); [constructor|done].
Qed.

#[export] Instance scripted_laws : LoopPortLaws Scripted.
Proof.
  split; try exact scripted_exchange_law; intros; try (apply scripted_step; [by intros [? ? []]|]);
    try (by intros v b [= <-]); try (by intros v b [= <-] Hc; exists []; rewrite app_nil_r).
  - match goal with Hok : _ = Ok e |- _ => by injection Hok as <- end.
  - intros v [] _. eexists. split; [done|]. by split_and!.
  - intros v rs [= <-]. split; [done|]. by rewrite length_map.
Qed.

Lemma scripted_epoch_bound (v : Scripted) : epoch_of v <= 1.
Proof. cbn. unfold scripted_epoch. destruct (interrupted v); lia. Qed.

Lemma sample_world_contract : contract (state_messages sample_world).
Proof. by apply (contract_block _ [] []); [done|constructor|constructor]. Qed.


Lemma turn_terminates_witness :
  (run sample_config 2 (initial_loop, sample_world)).1 = Ok (Return $"all good") /\
  run sample_config 50 (initial_loop, sample_world) = run sample_config 2 (initial_loop, sample_world).
Proof.
  destruct (turn_terminates sample_config 1 2 initial_loop sample_world scripted_epoch_bound sample_world_contract)
    as [_ Hmore]; [by vm_compute|]. split; [by vm_compute|]. apply Hmore. lia.
Defined.
